(* ===== verification/_CoqProject ===== *)
-Q . S2P
Prelude.v
GoStrings.v
RateLimit.v
BrokerProtocol.v
BrokerJournal.v
BrokerCodecModel.v
BrokerJournalSafety.v
BrokerCompaction.v
BrokerAuthority.v
BrokerServer.v
PaidOrders.v
PaidLedger.v
PaidProperties.v
RestartManager.v
VersionPolicy.v
ResourcePressure.v
RequestBudget.v
Totp.v
Mfa.v
MfaProperties.v
MfaLifecycle.v
StepUp.v
IpMonitor.v
Programs.v
OperationLocks.v
OperationManager.v
OperationLogic.v
OperationHistories.v
ReleaseManifest.v
ReleaseProperties.v
UpdateStore.v
UpdateProvider.v
UpdateLifecycle.v
UpdateSemantics.v
UpdateInvariants.v
UpdateLogic.v
UpdateCalls.v
UpdateHistories.v
UpdateRuns.v
UpdateProperties.v
Sessions.v
SessionHistories.v
SessionProperties.v
RealtimeTokens.v
RealtimeHub.v
Failover.v
FailoverProperties.v
NetAddr.v
ClientIdentity.v
ClientIdentityProperties.v
ClientAccess.v
TrafficStats.v
ClientAccessProperties.v
TrafficSamples.v
AccessHistories.v
AccessProperties.v
TrafficLedger.v
TrafficSummary.v
WireguardDevices.v
WireguardProperties.v
WireguardHistories.v
WireguardTraffic.v
