(* ===== verification/Prelude.v ===== *)
(** * Solovey UI: a verification library

    Solovey UI is a control panel, written in Go, for a proxy server (sing-box) on a
    Linux host.  Administrators reach it over HTTP; a Telegram bot sells access; a
    privileged broker, a second process, performs the few operations that need root.
    This library models the parts of the panel that decide: who may do what, how
    often, once or twice, and in what order, under concurrency, faults and crashes.
    Paths below are relative to the repository.

    ** The parts and their files

    - The privileged broker ([internal/ops/privilegedbroker]).  [BrokerProtocol]: the
      requests, their validation and frames ([protocol.go], [audit.go]).
      [BrokerJournal]: the write-ahead journal of receipts with its file operations,
      recovery and compaction ([journal.go]); a file system whose every call may fail,
      write short or crash is threaded through the code.  [BrokerCodecModel]: a codec
      that satisfies the laws the journal asks of JSON and SHA-256.
      [BrokerJournalSafety], [BrokerCompaction]: what the journal guarantees.
      [BrokerAuthority]: leases on attestor generations ([authority.go]).
      [BrokerServer]: the handling of a request, from validation through the journal to
      the handler ([server.go]).  Theorems: a privileged mutation runs at most once per
      fence in every history of restarts, faults and crashes; an acknowledged one is
      replayed; compaction keeps authority; generations never overlap.
    - Payments ([components/paid-subscriptions]).  [PaidOrders]: tables, grants and
      every store operation that moves an order.  [PaidLedger]: histories of these
      operations refine a ledger that credits an order once, a charge once, and
      revokes once.  [PaidProperties]: the effect of a payment, of its refund, of refund
      claims and of recovery.
    - Administrators.  [Totp] ([util/totp]), [Mfa] ([service/mfa.go]),
      [MfaProperties], [MfaLifecycle]: second factors and recovery codes, single use
      under concurrent calls, the enrollment from end to end, and two histories in which
      calls hurt each other.  [StepUp] ([service/step_up.go]): one-time grants.
      [Sessions]: the session store ([web/session_store.go]), the inventory of sessions
      ([service/security_sessions.go]), logins ([api/session.go]), CSRF tokens
      ([api/csrf.go]) and the session handlers ([api/security_routes.go]), as programs of
      atomic actions.  [SessionHistories]: concurrent requests; a session that has ended
      stays ended.  [SessionProperties]: the pages of the inventory are complete, and two
      histories in which a save undoes what another request did.
    - Websockets.  [RealtimeTokens] ([api/realtime/tokens.go]): the one-time tokens, whose
      constant-time consumption is a lookup and whose store refines a map of single-use
      tokens.  [RealtimeHub] ([realtime]): reservations, clients and the delivery of events.
    - Server protection ([components/server-protection]).  [OperationLocks]: the table
      of operation locks ([service/repository/operations.go]).  [OperationManager]: the
      calls of the manager ([service/operations]) as programs of atomic actions.
      [OperationLogic]: a program logic for them.  [OperationHistories]: interleavings
      of the programs of many managers; revisions fence owners, ended operations stay
      ended, operations are exclusive except for one entry, recovery spares live owners.
    - Updates of the panel.  [ReleaseManifest] ([internal/release]): signed manifests,
      their validation, canonical form and verification.  [ReleaseProperties]: what is
      signed is verified.  [UpdateStore]: the tables of
      [service/update] with every transaction of the repository, and what a backup keeps
      of them.  [UpdateProvider]: the provider that works through the broker
      ([broker_provider.go], [provider_broker_maintenance.go]).  [UpdateLifecycle]: the calls
      of the manager ([lifecycle.go], [provider_apply.go]), as programs of atomic actions.
      [UpdateSemantics]: the environment of a call, the effect of each action, and the steps
      that the store may take.  [UpdateInvariants]: what these steps preserve.
      [UpdateLogic], [UpdateCalls]: every action of every call is such a step.
      [UpdateHistories]: histories with concurrent checks and crashes: one operation under
      way, applied only when verified and healthy, the state graph, sequences that never go
      back, no restore left pending; a step changes the rows along the graph or replaces the
      whole database, by a backup or back.  [UpdateRuns]: a panel that runs, for concrete inputs.
      [UpdateProperties]: retention, and two ways in which the lifecycle gets stuck.
    - Identity of requests.  [NetAddr]: the addresses, prefixes and host names of Go's
      [net/netip] and [net], as texts, with their round trips.  [ClientIdentity]
      ([internal/httpsecurity/clientidentity], [api/csrf.go], [api/request_network.go],
      [api/realtime/origin.go]): trusted proxies, the resolution of the client behind them,
      the check of security grants, CSRF protection and the origin of websockets.
      [ClientIdentityProperties]: a client cannot forge its address, a resolved identity is
      accepted for grants exactly when it is complete, and CSRF and websockets agree on
      the origin of the panel.
    - Clients.  [IpMonitor] ([ipmonitor]): the limit on the sources of a client, its
      policy cache and its flushes to the database, as interleaved critical sections, with
      clients that are edited meanwhile.
      [ClientAccess] ([service/client], [internal/entities/clients]): quotas, expiry and
      periods, the job that disables clients and the reset of one.
      [ClientAccessProperties]: the job settles every row, or nothing.  [TrafficStats]
      ([core/tracker], [core/runtime/state.go], [service/stats.go]): the counters of
      connections and the flushes that save them.  [TrafficSamples]: what a saved batch adds.
      [AccessHistories]: traffic, flushes, the job, payments of [PaidOrders] and
      administrators in any order.  [AccessProperties]: only an administrator lifts what an
      administrator imposed.  [TrafficLedger]: no byte is lost or counted twice.
      [TrafficSummary] ([service/stats.go]): the summary counts every sample once.
      [WireguardDevices] ([internal/entities/clients/devices]): the devices of clients, their
      addresses and their traffic.  [WireguardProperties]: the allocator gives the least free
      address.  [WireguardHistories]: devices never share an address.  [WireguardTraffic]: the
      traffic of a device is counted once.
    - Load.  [RateLimit] ([util/ratelimit]): four limiters, refined to per-key counters.
      [ResourcePressure] ([internal/ops/resourcepressure]): the pressure state machine.
      [RequestBudget] ([middleware/requestbudget]): admission of requests by class,
      which consults it.
    - The core.  [RestartManager] ([internal/singbox/restart]): exclusive, debounced
      restarts.  [Failover] ([internal/entities/outbounds], [service/failover],
      [cronjob/jobs/runtime/failover.go]): failover groups, their selector in the core and
      the job that probes and switches; [FailoverProperties]: every run that finds a member
      that answers chooses one, over every history of edits, restarts and probes, and the
      selector resolves.  [VersionPolicy] ([config/versionpolicy]): parsing and ordering of
      release versions.
    - [Prelude] and [GoStrings] hold what the components share: results and their
      notation, machine integers, time, maps with an arbitrary iteration order, lists,
      the string functions of Go, and automation.  [Programs] holds the program trees
      of the operations manager, of the update lifecycle and of sessions, and their
      weakest preconditions.

    The interfaces between components are type classes where a client only needs laws
    ([RangeOrder] for Go maps, [Codec] with [CodecLaws] for the journal, [ReleaseCodec] and
    [Digests] for releases and updates, [FailoverCodec] for failover options), and plain calls
    elsewhere ([BrokerServer] calls [BrokerJournal], [RequestBudget] calls
    [ResourcePressure], [Mfa] calls [Totp], [AccessHistories] calls [PaidOrders]).

    ** How the code is read

    A function becomes a function, a struct a record, an error a value of [result]
    ([let?] is the early return), a method that changes state takes and returns it.  A
    critical section or a database transaction is one step; what the code does outside of
    them interleaves, as steps of a transition system or, for the operations manager,
    the update lifecycle and sessions, as actions of program trees.  Strings are byte sequences.  A [time.Time] is a number of
    nanoseconds, a Unix time a number of seconds, as each file says.  64-bit integers wrap
    or saturate where the code computes with them; where they are plain integers the
    file or the theorem states the range (the revision of [IpMonitor] stays below 2^64
    because its histories are shorter than that; revisions of operation locks and Unix
    times are far from the end of theirs).

    Fuel is used in nine places: the candidates of the address allocator (the size of the
    network) and the rows in the order of their ids (their number), with lemmas that it is
    enough, the chunks of a configuration (its length), the batches of
    clients (their number, with a lemma that it is enough), the decimal printer (twenty digits are enough for a
    64-bit integer), trimming (the length of the string), the grouping of recovery codes
    (the length of the code) and the eviction of keys (the size of the map, with a
    lemma that it is enough) and the pages of the session inventory (the list of their
    clocks, one more than the sessions by the theorem about them); each is more than the loop can use.  Everything else is
    structural.

    What is not the program's own is a parameter with the documented facts that the code
    relies on: SHA-256, HMAC, base 32, secret boxes, JSON, media types, signed cookies, URLs, durations, the outcome of
    the random generator (fresh values), clocks, probes of outbounds, process probes, recovery backends.

    ** What is not modelled

    The handlers behind the broker and the collectors of host evidence drive systemd,
    dropbear, UCI, mounts, sockets and /proc; gin handlers, gorm models and migrations,
    the generators of sing-box documents and subscriptions, the Telegram front end
    and the component host are glue around third-party code; the frontend
    and the installers are not Go.  Of updates, the status and capability views, archives,
    executables and downloads are left out; the completion and the abort of a pending
    database restore are taken to succeed.  Of sessions, audit rows and the schema checks
    of the store are left out.  Of clients, their documents, links and credentials, what
    a save does beyond the access and the counters, and the sealing and export of the keys
    of devices.  The workflows of server protection (firewall,
    fail2ban, fronting) interleave their logic with programs and files of the host at every
    step and are left out; their locks and their operations manager are modelled. *)

From Stdlib Require Export ZArith Lia Btauto.
From stdpp Require Export strings numbers fin_maps gmap option list.

#[global] Open Scope Z_scope.

(** ** Results of fallible Go functions: a value or an error. *)
Inductive result (E A : Type) : Type :=
| Ok (a : A)
| Err (e : E).

Arguments Ok {E A} a.
Arguments Err {E A} e.

Definition rbind {E A B : Type} (r : result E A) (k : A -> result E B) : result E B :=
  match r with
  | Ok a => k a
  | Err e => Err e
  end.

Declare Scope go_scope.
Delimit Scope go_scope with go.

(** [let? x := e in k] is Go's [x, err := e; if err != nil { return err }; k]. *)
Notation "'let?' x ':=' e 'in' k" := (rbind e (fun x => k))
  (at level 10, x pattern, e at level 200, k at level 200) : go_scope.

Open Scope go_scope.

(** ** Machine integers *)
Definition int64_max : Z := 2 ^ 63 - 1.
Definition int64_min : Z := - 2 ^ 63.
Definition uint64_max : Z := 2 ^ 64 - 1.

(** Two's complement wrap-around of a 64-bit signed result. *)
Definition wrap64 (z : Z) : Z := (z + 2 ^ 63) mod 2 ^ 64 - 2 ^ 63.

(** Wrap-around of a 64-bit unsigned result. *)
Definition wrapu64 (z : Z) : Z := z mod 2 ^ 64.

Definition in_int64 (z : Z) : Prop := int64_min <= z <= int64_max.

Lemma wrap64_id z : in_int64 z -> wrap64 z = z.
Proof.
  unfold in_int64, int64_min, int64_max, wrap64. intros H.
  rewrite Z.mod_small by lia. lia.
Qed.

Lemma wrap64_range z : in_int64 (wrap64 z).
Proof.
  unfold in_int64, int64_min, int64_max, wrap64.
  pose proof (Z.mod_pos_bound (z + 2 ^ 63) (2 ^ 64) ltac:(lia)). lia.
Qed.

(** ** Time
    A [time.Time] is the number of nanoseconds since Go's zero time, so that
    [IsZero] is [t = 0]; a [time.Duration] is a signed 64-bit number of
    nanoseconds.  [Sub] saturates at the ends of the Duration range. *)
Definition sat64 (z : Z) : Z := Z.max int64_min (Z.min int64_max z).
Definition time_is_zero (t : Z) : bool := t =? 0.
Definition time_sub (a b : Z) : Z := sat64 (a - b).
Definition time_add (t d : Z) : Z := t + d.
Definition time_before (a b : Z) : bool := a <? b.
Definition time_after (a b : Z) : bool := b <? a.

Definition millisecond : Z := 1000000.
Definition second : Z := 1000 * millisecond.
Definition minute : Z := 60 * second.
Definition hour : Z := 60 * minute.

Lemma sat64_range z : in_int64 (sat64 z).
Proof. unfold in_int64, sat64, int64_min, int64_max. lia. Qed.

(** Comparing a saturated difference with an in-range duration is comparing
    the exact difference. *)
Lemma time_sub_ge a b d :
  int64_min < d <= int64_max -> (d <=? time_sub a b) = (d <=? a - b).
Proof. unfold time_sub, sat64, int64_min, int64_max. intros. lia. Qed.

Lemma time_sub_gt a b d :
  int64_min <= d < int64_max -> (d <? time_sub a b) = (d <? a - b).
Proof. unfold time_sub, sat64, int64_min, int64_max. intros. lia. Qed.

(** A sequence of clock readings that starts at or after [last] and never goes back. *)
Fixpoint nondecreasing (last : Z) (times : list Z) : Prop :=
  match times with
  | [] => True
  | t :: times' => last <= t /\ nondecreasing t times'
  end.

(** ** Automation shared by the components *)
Create HintDb solovey discriminated.

(** Split every conditional of the goal and close the trivial branches. *)
Ltac split_ifs :=
  repeat match goal with
  | |- context [if ?b then _ else _] =>
      let E := fresh "Hif" in destruct b eqn:E; simpl in *; try done
  end.

(** Closed decidable goals, by evaluation. *)
Ltac by_decision :=
  match goal with |- ?P => exact (bool_decide_unpack P I) end.

(** Turn boolean hypotheses and goals into propositions. *)
Create Rewrite HintDb bools.
#[export] Hint Rewrite
  andb_true_iff orb_true_iff andb_false_iff orb_false_iff negb_true_iff negb_false_iff
  Z.eqb_eq Z.eqb_neq Z.ltb_lt Z.ltb_ge Z.leb_le Z.leb_gt
  String.eqb_eq String.eqb_neq bool_decide_eq_true bool_decide_eq_false : bools.

Ltac bools := autorewrite with bools in *.

(** ** Go maps
    A map is a [gmap]; the order in which [range] visits it is unspecified by
    the language, so it is a parameter every theorem quantifies over. *)
Class RangeOrder (K : Type) `{Countable K} := {
  range : forall {E : Type}, gmap K E -> list (K * E);
  range_perm : forall {E : Type} (m : gmap K E), range m ≡ₚ map_to_list m
}.

(** One legal order, used where a concrete run is evaluated. *)
Definition canonical_order (K : Type) `{Countable K} : RangeOrder K :=
  {| range := fun E m => map_to_list m; range_perm := fun E m => reflexivity _ |}.

Section RangeFacts.
Context {K : Type} `{Countable K} `{!RangeOrder K} {E : Type}.
Implicit Types m : gmap K E.

Lemma elem_of_range m k e : (k, e) ∈ range m <-> m !! k = Some e.
Proof. rewrite range_perm. apply elem_of_map_to_list. Qed.

Lemma range_nil m : range m = [] -> m = ∅.
Proof.
  intros Hr. apply map_empty. intros k. destruct (m !! k) as [e|] eqn:Hk; [|done].
  apply elem_of_range in Hk. rewrite Hr in Hk. set_solver.
Qed.

(** [for k, e := range m { if p(e) { delete(m, k) } }] *)
Definition range_delete (p : E -> bool) (m : gmap K E) : gmap K E :=
  foldl (fun acc kv => if p kv.2 then delete kv.1 acc else acc) m (range m).

Lemma foldl_delete_notin (p : E -> bool) (l : list (K * E)) m k :
  k ∉ l.*1 ->
  foldl (fun acc kv => if p kv.2 then delete kv.1 acc else acc) m l !! k = m !! k.
Proof.
  revert m. induction l as [|[k0 e0] l IH]; intros m Hk; simpl in *; [done|].
  rewrite IH by set_solver. destruct (p e0); [|done].
  apply lookup_delete_ne. set_solver.
Qed.

Lemma foldl_delete_in (p : E -> bool) (l : list (K * E)) m k e :
  NoDup l.*1 -> (k, e) ∈ l ->
  foldl (fun acc kv => if p kv.2 then delete kv.1 acc else acc) m l !! k =
  if p e then None else m !! k.
Proof.
  revert m. induction l as [|[k0 e0] l IH]; intros m Hnd Hin; simpl in *; [set_solver|].
  apply NoDup_cons in Hnd as [Hk0 Hnd]. apply elem_of_cons in Hin as [[= <- <-]|Hin].
  - rewrite foldl_delete_notin by done. destruct (p e); [apply lookup_delete_eq|done].
  - rewrite IH by done. destruct (p e); [done|]. destruct (p e0); [|done].
    apply lookup_delete_ne. intros ->. apply Hk0. apply list_elem_of_fmap. by exists (k, e).
Qed.

Lemma range_NoDup m : NoDup (range m).*1.
Proof. rewrite range_perm. apply NoDup_fst_map_to_list. Qed.

Lemma range_delete_lookup (p : E -> bool) m k :
  range_delete p m !! k = (e ← m !! k; if p e then None else Some e).
Proof.
  unfold range_delete. destruct (m !! k) as [e|] eqn:Hk; simpl.
  - rewrite (foldl_delete_in p _ m k e) by (apply range_NoDup || by apply elem_of_range).
    by rewrite Hk.
  - rewrite foldl_delete_notin; [done|]. intros ([k' e] & Hkk & Hin)%list_elem_of_fmap.
    simpl in Hkk. subst k'. apply elem_of_range in Hin. congruence.
Qed.

Lemma range_delete_subseteq (p : E -> bool) m : range_delete p m ⊆ m.
Proof.
  apply map_subseteq_spec. intros k e. rewrite range_delete_lookup.
  destruct (m !! k) as [e'|]; simpl; [destruct (p e')|]; congruence.
Qed.

(** [for k, e := range m { if e' := f(e); e' is nothing { delete(m, k) } else { m[k] = e' } }] *)
Definition range_update (f : E -> option E) (m : gmap K E) : gmap K E :=
  foldl (fun acc kv => match f kv.2 with
                       | None => delete kv.1 acc
                       | Some e => <[kv.1 := e]> acc
                       end) m (range m).

Lemma foldl_update_lookup (f : E -> option E) (l : list (K * E)) m k :
  NoDup l.*1 ->
  (k ∉ l.*1 -> foldl (fun acc kv => match f kv.2 with
      | None => delete kv.1 acc | Some e => <[kv.1 := e]> acc end) m l !! k = m !! k) /\
  (forall e, (k, e) ∈ l -> foldl (fun acc kv => match f kv.2 with
      | None => delete kv.1 acc | Some e => <[kv.1 := e]> acc end) m l !! k = f e).
Proof.
  revert m. induction l as [|[k0 e0] l IH]; intros m Hnd; simpl; [set_solver|].
  apply NoDup_cons in Hnd as [Hk0 Hnd].
  destruct (IH (match f e0 with None => delete k0 m | Some e => <[k0 := e]> m end) Hnd) as [IH1 IH2].
  split.
  - intros Hk. rewrite IH1 by set_solver.
    destruct (f e0); [apply lookup_insert_ne|apply lookup_delete_ne]; set_solver.
  - intros e [[= <- <-]|Hin]%elem_of_cons; [|by apply IH2].
    rewrite IH1 by done. destruct (f e); [apply lookup_insert_eq|apply lookup_delete_eq].
Qed.

Lemma range_update_lookup (f : E -> option E) m k :
  range_update f m !! k = (m !! k ≫= f).
Proof.
  unfold range_update. destruct (foldl_update_lookup f (range m) m k (range_NoDup m)) as [H1 H2].
  destruct (m !! k) as [e|] eqn:Hk; simpl.
  - apply H2. by apply elem_of_range.
  - apply H1. intros ([k' e] & Hkk & Hin)%list_elem_of_fmap.
    simpl in Hkk. subst k'. apply elem_of_range in Hin. congruence.
Qed.

End RangeFacts.

(** ** Order of lists *)
#[global] Instance existsb_perm {A} (f : A -> bool) : Proper ((≡ₚ) ==> eq) (existsb f).
Proof. intros l l' Hp. apply eq_true_iff_eq. rewrite !existsb_exists. split; intros (x & Hx & Hf); exists x; split; try done; by (rewrite Hp in * || rewrite <- Hp in *). Qed.

#[global] Instance forallb_perm {A} (f : A -> bool) : Proper ((≡ₚ) ==> eq) (forallb f).
Proof. intros l l' Hp. apply eq_true_iff_eq. rewrite !forallb_forall. split; intros Hf x Hx; apply Hf; by rewrite Hp in * || rewrite <- Hp in *. Qed.

#[global] Instance filter_perm {A} (f : A -> bool) : Proper ((≡ₚ) ==> (≡ₚ)) (List.filter f).
Proof.
  intros l l' Hp. induction Hp as [|x l l' Hp IH|x y l|l1 l2 l3 Hp1 IH1 Hp2 IH2]; simpl; [done| | |by etrans].
  - destruct (f x); [by constructor|done].
  - destruct (f x), (f y); try done. constructor.
Qed.

Lemma forallb_ext {A} (f g : A -> bool) l : (forall x, f x = g x) -> forallb f l = forallb g l.
Proof. intros Hfg. induction l as [|x l IH]; simpl; [done|]. by rewrite Hfg, IH. Qed.

(** ** Counting list elements *)
Section Counting.
Context {A : Type}.

(** The number of elements that satisfy a decidable predicate. *)
Definition count_of (P : A -> Prop) `{forall x, Decision (P x)} (l : list A) : Z :=
  Z.of_nat (length (filter P l)).

Context (P Q R : A -> Prop).
Context `{forall x, Decision (P x)} `{forall x, Decision (Q x)} `{forall x, Decision (R x)}.

Lemma count_of_nil : count_of P [] = 0.
Proof. done. Qed.

Lemma count_of_app l1 l2 : count_of P (l1 ++ l2) = count_of P l1 + count_of P l2.
Proof. unfold count_of. rewrite filter_app, length_app. lia. Qed.

Lemma count_of_single x : count_of P [x] = if decide (P x) then 1 else 0.
Proof. unfold count_of. rewrite filter_cons, filter_nil. by case_decide. Qed.

Lemma count_of_nonneg l : 0 <= count_of P l.
Proof. unfold count_of. lia. Qed.

Lemma count_of_mono l : (forall x, x ∈ l -> P x -> Q x) -> count_of P l <= count_of Q l.
Proof.
  unfold count_of. induction l as [|x l IH]; intros Hi; [done|]. rewrite !filter_cons.
  specialize (IH ltac:(set_solver)). specialize (Hi x ltac:(set_solver)).
  repeat case_decide; simpl; tauto || lia.
Qed.

Lemma count_of_or l :
  (forall x, x ∈ l -> P x -> Q x \/ R x) -> count_of P l <= count_of Q l + count_of R l.
Proof.
  unfold count_of. induction l as [|x l IH]; intros Hi; [done|]. rewrite !filter_cons.
  specialize (IH ltac:(set_solver)). specialize (Hi x ltac:(set_solver)).
  repeat case_decide; simpl; tauto || lia.
Qed.

Lemma count_of_zero l : (forall x, x ∈ l -> ~ P x) -> count_of P l = 0.
Proof.
  unfold count_of. induction l as [|x l IH]; intros Hn; [done|].
  rewrite filter_cons_False by set_solver. apply IH. set_solver.
Qed.
End Counting.
