(* ===== verification/GoStrings.v ===== *)
(** * Go strings

    A Go string (and a byte slice) is a Rocq [string], a sequence of bytes.
    This file models the functions of the [strings] package and the character
    classes of the regular expressions that the components use. *)

From S2P Require Import Prelude.

Open Scope string_scope.
Open Scope Z_scope.

Definition slen (s : string) : Z := Z.of_nat (String.length s).

(** The code of a byte. *)
Definition code (c : Ascii.ascii) : Z := Z.of_nat (Ascii.nat_of_ascii c).

Definition between (lo hi : Z) (c : Ascii.ascii) : bool := (lo <=? code c) && (code c <=? hi).

Definition is_digit (c : Ascii.ascii) : bool := between 48 57 c.
Definition is_upper (c : Ascii.ascii) : bool := between 65 90 c.
Definition is_lower (c : Ascii.ascii) : bool := between 97 122 c.
Definition is_alnum (c : Ascii.ascii) : bool := is_digit c || is_upper c || is_lower c.

(** Whether the byte is one of the bytes of [set]. *)
Fixpoint char_in (c : Ascii.ascii) (set : string) : bool :=
  match set with
  | "" => false
  | String d set' => Ascii.eqb c d || char_in c set'
  end.

Fixpoint all_chars (p : Ascii.ascii -> bool) (s : string) : bool :=
  match s with
  | "" => true
  | String c s' => p c && all_chars p s'
  end.

Definition has_char (c : Ascii.ascii) (s : string) : bool := negb (all_chars (fun d => negb (Ascii.eqb d c)) s).

Definition nl : Ascii.ascii := Ascii.ascii_of_nat 10.

Lemma all_chars_app p s t : all_chars p (s +:+ t) = all_chars p s && all_chars p t.
Proof. induction s as [|c s IH]; simpl; [done|]. by rewrite IH, andb_assoc. Qed.

Lemma all_chars_impl (p q : Ascii.ascii -> bool) s :
  (forall c, p c = true -> q c = true) -> all_chars p s = true -> all_chars q s = true.
Proof. intros Hpq. induction s; simpl; [done|]. rewrite !andb_true_iff. naive_solver. Qed.

(** ** [strings.HasPrefix], [HasSuffix], [Contains], [TrimPrefix] *)
Definition HasPrefix (s prefix : string) : bool := String.prefix prefix s.

#[global] Arguments HasPrefix : simpl never.

Fixpoint HasSuffix (s suffix : string) : bool :=
  String.eqb s suffix ||
  match s with
  | "" => false
  | String _ s' => HasSuffix s' suffix
  end.

Fixpoint Contains (s sub : string) : bool :=
  String.prefix sub s ||
  match s with
  | "" => false
  | String _ s' => Contains s' sub
  end.

Fixpoint drop_chars (n : nat) (s : string) : string :=
  match n, s with
  | O, _ => s
  | _, "" => ""
  | S n', String _ s' => drop_chars n' s'
  end.

Definition TrimPrefix (s prefix : string) : string :=
  if HasPrefix s prefix then drop_chars (String.length prefix) s else s.

(** ** [strings.Split] on a one-byte separator and [strings.Join] *)
Fixpoint Split (s : string) (sep : Ascii.ascii) : list string :=
  match s with
  | "" => [""]
  | String c s' =>
      if Ascii.eqb c sep then "" :: Split s' sep
      else match Split s' sep with
           | [] => [String c ""]
           | part :: parts => String c part :: parts
           end
  end.

Fixpoint Join (parts : list string) (sep : string) : string :=
  match parts with
  | [] => ""
  | [p] => p
  | p :: parts' => p +:+ sep +:+ Join parts' sep
  end.

(** [strings.Cut] on a one-byte separator: before, after, found. *)
Fixpoint Cut (s : string) (sep : Ascii.ascii) : string * string * bool :=
  match s with
  | "" => ("", "", false)
  | String c s' =>
      if Ascii.eqb c sep then ("", s', true)
      else let '(before, after, found) := Cut s' sep in (String c before, after, found)
  end.

Lemma Split_not_nil s sep : Split s sep <> [].
Proof. destruct s as [|c s]; simpl; [done|]. repeat case_match; done. Qed.

Lemma Split_no_sep s sep : has_char sep s = false -> Split s sep = [s].
Proof.
  unfold has_char. rewrite negb_false_iff. induction s as [|c s IH]; simpl; [done|].
  rewrite andb_true_iff, negb_true_iff. intros [-> Hs]. by rewrite IH.
Qed.

Lemma Split_app s t sep :
  has_char sep s = false -> Split (s +:+ String sep t) sep = s :: Split t sep.
Proof.
  unfold has_char. rewrite negb_false_iff. induction s as [|c s IH]; simpl.
  - by rewrite Ascii.eqb_refl.
  - rewrite andb_true_iff, negb_true_iff. intros [-> Hs]. by rewrite IH.
Qed.

Lemma Cut_no_sep s sep : has_char sep s = false -> Cut s sep = (s, "", false).
Proof.
  unfold has_char. rewrite negb_false_iff. induction s as [|c s IH]; simpl; [done|].
  rewrite andb_true_iff, negb_true_iff. intros [-> Hs]. by rewrite IH.
Qed.

Lemma Cut_app s t sep :
  has_char sep s = false -> Cut (s +:+ String sep t) sep = (s, t, true).
Proof.
  unfold has_char. rewrite negb_false_iff. induction s as [|c s IH]; simpl.
  - by rewrite Ascii.eqb_refl.
  - rewrite andb_true_iff, negb_true_iff. intros [-> Hs]. by rewrite IH.
Qed.

(** Splitting what was joined from separator-free parts gives the parts back. *)
Lemma Split_Join parts sep :
  parts <> [] -> Forall (fun p => has_char sep p = false) parts ->
  Split (Join parts (String sep "")) sep = parts.
Proof.
  induction parts as [|p [|q parts] IH]; intros Hne Hall; [done|..].
  - inversion Hall; subst. by apply Split_no_sep.
  - inversion Hall; subst. change (Join (p :: q :: parts) (String sep ""))
      with (p +:+ String sep (Join (q :: parts) (String sep ""))).
    rewrite Split_app by done. f_equal. by apply IH.
Qed.

Lemma HasPrefix_app s t : HasPrefix (s +:+ t) s = true.
Proof.
  unfold HasPrefix. induction s as [|c s IH]; simpl; [by destruct t|].
  destruct (Ascii.ascii_dec c c); [done|congruence].
Qed.

Lemma drop_chars_app s t : drop_chars (String.length s) (s +:+ t) = t.
Proof. induction s; simpl; [by destruct t|done]. Qed.

Lemma slen_app s t : slen (s +:+ t) = slen s + slen t.
Proof.
  unfold slen. induction s as [|c s IH]; [done|].
  change (String c s +:+ t) with (String c (s +:+ t)). cbn [String.length]. lia.
Qed.

Lemma slen_nonneg s : 0 <= slen s.
Proof. unfold slen. lia. Qed.

(** ** [strings.ToLower] on ASCII *)
Definition lower_char (c : Ascii.ascii) : Ascii.ascii :=
  if is_upper c then Ascii.ascii_of_nat (Ascii.nat_of_ascii c + 32) else c.

Fixpoint ToLower (s : string) : string :=
  match s with
  | "" => ""
  | String c s' => String (lower_char c) (ToLower s')
  end.

(** ** [strings.ToUpper] on ASCII *)
Definition upper_char (c : Ascii.ascii) : Ascii.ascii :=
  if is_lower c then Ascii.ascii_of_nat (Ascii.nat_of_ascii c - 32) else c.

Fixpoint ToUpper (s : string) : string :=
  match s with
  | "" => ""
  | String c s' => String (upper_char c) (ToUpper s')
  end.

(** ** [strings.TrimRight] with a set of bytes *)
Fixpoint TrimRight (s cutset : string) : string :=
  match s with
  | "" => ""
  | String c s' =>
      match TrimRight s' cutset with
      | "" => if char_in c cutset then "" else String c ""
      | rest => String c rest
      end
  end.

(** ** [strings.TrimSpace]
    The UTF-8 encodings of the code points with the Unicode White_Space
    property; trimming strips them from both ends. *)
Definition bytes (l : list nat) : string :=
  fold_right (fun n s => String (Ascii.ascii_of_nat n) s) "" l.

Definition white_space : list string :=
  (bytes <$> [[9]; [10]; [11]; [12]; [13]; [32]; [194; 133]; [194; 160]; [225; 154; 128];
   [226; 128; 128]; [226; 128; 129]; [226; 128; 130]; [226; 128; 131]; [226; 128; 132];
   [226; 128; 133]; [226; 128; 134]; [226; 128; 135]; [226; 128; 136]; [226; 128; 137];
   [226; 128; 138]; [226; 128; 168]; [226; 128; 169]; [226; 128; 175]; [226; 129; 159];
   [227; 128; 128]])%nat.

Fixpoint strip_one (ws : list string) (s : string) : option string :=
  match ws with
  | [] => None
  | w :: ws' => if HasPrefix s w then Some (drop_chars (String.length w) s) else strip_one ws' s
  end.

Fixpoint trim_left (fuel : nat) (s : string) : string :=
  match fuel with
  | O => s
  | S fuel' => match strip_one white_space s with Some s' => trim_left fuel' s' | None => s end
  end.

Fixpoint srev (s : string) : string :=
  match s with
  | "" => ""
  | String c s' => srev s' +:+ String c ""
  end.

Fixpoint trim_left_rev (fuel : nat) (s : string) : string :=
  match fuel with
  | O => s
  | S fuel' =>
      match strip_one (srev <$> white_space) s with Some s' => trim_left_rev fuel' s' | None => s end
  end.

Definition TrimSpace (s : string) : string :=
  let s := trim_left (String.length s) s in
  srev (trim_left_rev (String.length s) (srev s)).

(** Bytes that neither start nor end any white space character. *)
Definition visible (c : Ascii.ascii) : bool := between 33 126 c.

Lemma strip_one_visible ws c s :
  (forall w, w ∈ ws -> match w with "" => False | String d _ => visible d = false end) ->
  visible c = true -> strip_one ws (String c s) = None.
Proof.
  intros Hws Hc. induction ws as [|w ws IH]; simpl; [done|].
  assert (HasPrefix (String c s) w = false) as ->.
  { specialize (Hws w ltac:(set_solver)). destruct w as [|d w]; [done|].
    unfold HasPrefix. simpl. destruct (Ascii.ascii_dec d c) as [->|]; [congruence|done]. }
  apply IH. set_solver.
Qed.

Lemma white_space_heads w :
  w ∈ white_space \/ w ∈ (srev <$> white_space) ->
  match w with "" => False | String d _ => visible d = false end.
Proof.
  assert (Hall : Forall (fun w => match w with "" => False | String d _ => visible d = false end)
                   (white_space ++ (srev <$> white_space))).
  { unfold white_space. simpl. repeat constructor. }
  intros Hw. rewrite Forall_forall in Hall. apply Hall, elem_of_app, Hw.
Qed.

Lemma app_empty_r s : s +:+ "" = s.
Proof. induction s as [|c s IH]; [done|]. change (String c (s +:+ "") = String c s). by rewrite IH. Qed.

Lemma app_assoc_str s t u : s +:+ (t +:+ u) = (s +:+ t) +:+ u.
Proof.
  induction s as [|c s IH]; [done|].
  change (String c (s +:+ (t +:+ u)) = String c ((s +:+ t) +:+ u)). by rewrite IH.
Qed.

Lemma srev_app s t : srev (s +:+ t) = srev t +:+ srev s.
Proof.
  induction s as [|c s IH]; simpl; [by rewrite app_empty_r|]. by rewrite IH, app_assoc_str.
Qed.

Lemma srev_involutive s : srev (srev s) = s.
Proof. induction s as [|c s IH]; simpl; [done|]. rewrite srev_app, IH. done. Qed.

Lemma all_chars_srev p s : all_chars p (srev s) = all_chars p s.
Proof. induction s as [|c s IH]; simpl; [done|]. rewrite all_chars_app, IH. simpl. btauto. Qed.

(** Visible ASCII text is not trimmed. *)
Lemma TrimSpace_visible s : all_chars visible s = true -> TrimSpace s = s.
Proof.
  intros Hv. unfold TrimSpace.
  assert (Hl : trim_left (String.length s) s = s).
  { destruct s as [|c s]; [done|]. simpl in Hv. rewrite andb_true_iff in Hv. cbn [trim_left String.length].
    rewrite strip_one_visible; [done| |tauto]. intros w Hw. apply white_space_heads. by left. }
  rewrite Hl. assert (Hr : trim_left_rev (String.length s) (srev s) = srev s).
  { destruct (srev s) as [|c r] eqn:Hs.
    - by destruct (String.length s).
    - assert (Hc : visible c = true).
      { rewrite <-all_chars_srev, Hs in Hv. simpl in Hv. rewrite andb_true_iff in Hv. tauto. }
      destruct (String.length s); [done|]. cbn [trim_left_rev].
      rewrite strip_one_visible; [done| |done]. intros w Hw. apply white_space_heads. by right. }
  by rewrite Hr, srev_involutive.
Qed.

(** ** Trimming twice *)
Section Trim.
Context (ws : list string) (Hws : forall w, w ∈ ws -> w <> "").

Fixpoint strip (fuel : nat) (s : string) : string :=
  match fuel with
  | O => s
  | S fuel' => match strip_one ws s with Some s' => strip fuel' s' | None => s end
  end.

Lemma prefix_split w s : HasPrefix s w = true -> s = w +:+ drop_chars (String.length w) s.
Proof.
  unfold HasPrefix. revert s. induction w as [|c w IH]; intros [|d s]; simpl; try done. destruct (Ascii.ascii_dec c d) as [->|]; [|done]. intros Hp.
  change (String d s = String d (w +:+ drop_chars (String.length w) s)). f_equal. by apply IH.
Qed.

Lemma strip_one_spec l s s' : strip_one l s = Some s' -> exists w, w ∈ l /\ s = w +:+ s'.
Proof.
  induction l as [|w l IH]; simpl; [done|]. destruct (HasPrefix s w) eqn:E.
  - intros [= <-]. exists w. split; [apply elem_of_cons; by left|by apply prefix_split].
  - intros H. destruct (IH H) as (w' & Hw & ->). exists w'. split; [apply elem_of_cons; by right|done].
Qed.

Lemma prefix_app w s p : HasPrefix s w = true -> HasPrefix (s +:+ p) w = true.
Proof.
  unfold HasPrefix. revert s. induction w as [|c w IH]; intros s; [by destruct (s +:+ p)|]. destruct s as [|d s]; [done|].
  change (String d s +:+ p) with (String d (s +:+ p)). cbn [String.prefix]. destruct (Ascii.ascii_dec c d) as [->|]; [|done]. apply IH.
Qed.

Lemma strip_one_app l s p : strip_one l (s +:+ p) = None -> strip_one l s = None.
Proof.
  induction l as [|w l IH]; simpl; [done|]. destruct (HasPrefix s w) eqn:E; [by rewrite (prefix_app w s p E)|]. destruct (HasPrefix (s +:+ p) w); [done|]. apply IH.
Qed.

Lemma length_app_str s t : String.length (s +:+ t) = (String.length s + String.length t)%nat.
Proof. induction s as [|c s IH]; [done|]. change (S (String.length (s +:+ t)) = S (String.length s + String.length t)). by rewrite IH. Qed.

(** With enough fuel nothing is left to strip, and what was stripped is a prefix. *)
Lemma strip_spec fuel s : (String.length s <= fuel)%nat -> strip_one ws (strip fuel s) = None /\ exists p, s = p +:+ strip fuel s.
Proof.
  revert s. induction fuel as [|fuel IH]; intros s Hl; cbn [strip].
  - assert (Hnone : strip_one ws s = None).
    { destruct (strip_one ws s) as [s'|] eqn:E; [|done]. apply strip_one_spec in E as (w & Hw & ->). apply Hws in Hw. rewrite length_app_str in Hl. destruct w; [done|]. simpl in Hl. lia. }
    split; [done|]. by exists "".
  - destruct (strip_one ws s) as [s'|] eqn:E; [|split; [done|]; by exists ""]. apply strip_one_spec in E as (w & Hw & ->). apply Hws in Hw.
    destruct (IH s') as [H1 [p H2]]; [rewrite length_app_str in Hl; destruct w; [done|]; simpl in Hl; lia|]. split; [done|]. exists (w +:+ p). rewrite <- app_assoc_str. by rewrite <- H2.
Qed.

Lemma strip_none fuel s : strip_one ws s = None -> strip fuel s = s.
Proof. intros H. destruct fuel; cbn [strip]; [done|]. by rewrite H. Qed.
End Trim.

Lemma trim_left_strip fuel s : trim_left fuel s = strip white_space fuel s.
Proof. revert s. induction fuel as [|fuel IH]; intros s; cbn [trim_left strip]; [done|]. destruct (strip_one white_space s); [apply IH|done]. Qed.

Lemma trim_left_rev_strip fuel s : trim_left_rev fuel s = strip (srev <$> white_space) fuel s.
Proof. revert s. induction fuel as [|fuel IH]; intros s; cbn [trim_left_rev strip]; [done|]. destruct (strip_one (srev <$> white_space) s); [apply IH|done]. Qed.

Lemma length_srev s : String.length (srev s) = String.length s.
Proof. induction s as [|c s IH]; simpl; [done|]. rewrite length_app_str, IH. simpl. lia. Qed.

Definition trimmed (s : string) : string := let s1 := strip white_space (String.length s) s in srev (strip (srev <$> white_space) (String.length s1) (srev s1)).

Lemma TrimSpace_strip s : TrimSpace s = trimmed s.
Proof. unfold TrimSpace, trimmed. cbv zeta. rewrite (trim_left_strip (String.length s) s). by rewrite trim_left_rev_strip. Qed.

(** Trimming white space twice is trimming it once. *)
Lemma TrimSpace_idem s : TrimSpace (TrimSpace s) = TrimSpace s.
Proof.
  assert (Hw : forall w, w ∈ white_space \/ w ∈ (srev <$> white_space) -> w <> "") by (intros w Hw ->; by apply white_space_heads in Hw).
  rewrite !TrimSpace_strip. unfold trimmed. cbv zeta. set (s1 := strip white_space (String.length s) s).
  destruct (strip_spec white_space (fun w H => Hw w (or_introl H)) (String.length s) s) as [H1 _]; [done|]. fold s1 in H1.
  destruct (strip_spec (srev <$> white_space) (fun w H => Hw w (or_intror H)) (String.length s1) (srev s1)) as [H2 [p Hp]]; [by rewrite length_srev|].
  set (r := strip (srev <$> white_space) (String.length s1) (srev s1)) in *.
  assert (H3 : strip_one white_space (srev r) = None).
  { apply (strip_one_app white_space (srev r) (srev p)). rewrite <- srev_app, <- Hp, srev_involutive. done. }
  rewrite (strip_none white_space _ _ H3), srev_involutive. by rewrite (strip_none (srev <$> white_space) _ _ H2).
Qed.
