(* ===== verification/RateLimit.v ===== *)
(** * Keyed rate limiters ([util/ratelimit])

    Four limiters over a Go map from keys to entries: a fixed window, a sliding
    window, a once-per-window threshold and a failure window with blocking.
    They share the garbage collection and the eviction of the least recently
    used keys (section [Capacity]); the fixed, sliding and threshold windows
    also share one shape, a per-key machine run under that garbage collection
    ([KeyedMachine]), against which the refinement theorems are proved once. *)

From S2P Require Import Prelude.
From Stdlib Require Import Sorted.

Record Decision := mkDecision {
  Allowed : bool;
  RetryAfter : Z;
  Count : Z
}.

Definition retryAfter (deadline now fallback : Z) : Z :=
  let retry := time_sub deadline now in
  if retry <=? 0 then fallback else retry.

(** The test of [maybePruneLocked]: a sweep is due unless there is room and the
    last one is recent (or periodic sweeps are off). *)
Definition gc_due (len maxKeys gcEvery lastGC now : Z) : bool :=
  negb ((len <? maxKeys) &&
        ((gcEvery <=? 0) ||
         (negb (time_is_zero lastGC) && (time_sub now lastGC <? gcEvery)))).

Section Capacity.
Context {K : Type} `{Countable K} `{!RangeOrder K} {E : Type} (updatedAt : E -> Z).
Implicit Types m : gmap K E.

(** The inner loop of [makeRoomLocked]: the first key with the least [updatedAt]. *)
Definition oldest_step (acc : option (K * Z)) (kv : K * E) : option (K * Z) :=
  match acc with
  | None => Some (kv.1, updatedAt kv.2)
  | Some (_, oldest) =>
      if time_before (updatedAt kv.2) oldest then Some (kv.1, updatedAt kv.2) else acc
  end.

Definition oldest_key (m : gmap K E) : option (K * Z) := foldl oldest_step None (range m).

(** [for len(entries) >= maxKeys { ... delete(entries, oldestKey) }]; each turn
    deletes one key, so [S (size m)] turns are enough. *)
Fixpoint make_room (fuel : nat) (maxKeys : Z) (m : gmap K E) : gmap K E :=
  match fuel with
  | O => m
  | S fuel' =>
      if maxKeys <=? Z.of_nat (size m) then
        match oldest_key m with
        | None => m
        | Some (k, _) => make_room fuel' maxKeys (delete k m)
        end
      else m
  end.

Definition makeRoom (maxKeys : Z) (m : gmap K E) : gmap K E :=
  make_room (S (size m)) maxKeys m.

Lemma oldest_fold_spec (l : list (K * E)) acc :
  match foldl oldest_step acc l with
  | None => l = [] /\ acc = None
  | Some (k, t) =>
      (acc = Some (k, t) \/ exists e, (k, e) ∈ l /\ updatedAt e = t) /\
      (forall k' e', (k', e') ∈ l -> t <= updatedAt e') /\
      (forall k' t', acc = Some (k', t') -> t <= t')
  end.
Proof.
  revert acc. induction l as [|[k0 e0] l IH]; intros acc; simpl.
  { destruct acc as [[k t]|]; [|done]. split; [by left|]. split; [set_solver|].
    intros ? ? [= <- <-]. lia. }
  specialize (IH (oldest_step acc (k0, e0))).
  destruct (foldl _ _ _) as [[k t]|].
  - destruct IH as (Hfrom & Hmin & Hacc).
    destruct acc as [[ka ta]|]; simpl in *; unfold time_before in *.
    + destruct (updatedAt e0 <? ta) eqn:Hlt.
      * specialize (Hacc _ _ eq_refl). split.
        { destruct Hfrom as [[= <- <-]|(e & ? & ?)]; right; [exists e0|exists e]; set_solver. }
        split; [intros k' e' [[= -> ->]|?]%elem_of_cons; eauto|].
        intros ? ? [= <- <-]. lia.
      * specialize (Hacc _ _ eq_refl) as Hta. split.
        { destruct Hfrom as [?|(e & ? & ?)]; [by left|right; exists e; set_solver]. }
        split; [|done]. intros k' e' [[= -> ->]|?]%elem_of_cons; [lia|eauto].
    + specialize (Hacc _ _ eq_refl). split.
      { destruct Hfrom as [[= <- <-]|(e & ? & ?)]; right; [exists e0|exists e]; set_solver. }
      split; [|done]. intros k' e' [[= -> ->]|?]%elem_of_cons; eauto.
  - destruct IH as [_ IH]. destruct acc as [[ka ta]|]; simpl in IH;
      [destruct (time_before _ _)|]; done.
Qed.

(** The key chosen for eviction is present and least recently updated. *)
Lemma oldest_key_spec m :
  match oldest_key m with
  | None => m = ∅
  | Some (k, t) =>
      exists e, m !! k = Some e /\ updatedAt e = t /\
                forall k' e', m !! k' = Some e' -> t <= updatedAt e'
  end.
Proof.
  unfold oldest_key. pose proof (oldest_fold_spec (range m) None) as Hs.
  destruct (foldl _ _ _) as [[k t]|].
  - destruct Hs as ([?|(e & He & Ht)] & Hmin & _); [done|].
    exists e. rewrite elem_of_range in He. repeat split; [done..|].
    intros k' e' Hk'. eapply Hmin. by apply elem_of_range.
  - apply range_nil. by destruct Hs.
Qed.

Lemma make_room_spec fuel maxKeys m :
  0 < maxKeys -> (size m < fuel)%nat ->
  Z.of_nat (size (make_room fuel maxKeys m)) < maxKeys /\
  make_room fuel maxKeys m ⊆ m /\
  (forall k e k' e', m !! k = Some e -> make_room fuel maxKeys m !! k = None ->
     make_room fuel maxKeys m !! k' = Some e' -> updatedAt e <= updatedAt e').
Proof.
  intros Hmax. revert m. induction fuel as [|fuel IH]; intros m Hsz; [lia|]. simpl.
  destruct (maxKeys <=? Z.of_nat (size m)) eqn:Hfull.
  2: { bools. split; [lia|]. split; [done|]. intros k e k' e' Hk Hn. congruence. }
  pose proof (oldest_key_spec m) as Hold. destruct (oldest_key m) as [[k t]|].
  2: { subst m. rewrite map_size_empty in Hfull. bools. lia. }
  destruct Hold as (e & Hk & <- & Hmin).
  assert (Hd : size (delete k m) = pred (size m)) by (apply map_size_delete_Some; eauto).
  destruct (IH (delete k m) ltac:(bools; lia)) as (IH1 & IH2 & IH3).
  split; [done|]. split; [etrans; [done|apply delete_subseteq]|].
  intros k1 e1 k2 e2 H1 Hn H2.
  destruct (decide (k1 = k)) as [->|Hne].
  - simplify_eq. eapply (lookup_weaken _ _ _ _ H2) in IH2. rewrite lookup_delete in IH2.
    case_decide; [done|]. eauto.
  - eapply (IH3 k1); [rewrite lookup_delete_ne|..]; done.
Qed.

Lemma makeRoom_lt maxKeys m : 0 < maxKeys -> Z.of_nat (size (makeRoom maxKeys m)) < maxKeys.
Proof. intros. unfold makeRoom. apply make_room_spec; [done|lia]. Qed.

Lemma makeRoom_id maxKeys m : Z.of_nat (size m) < maxKeys -> makeRoom maxKeys m = m.
Proof. intros. unfold makeRoom. simpl. destruct (_ <=? _) eqn:Hc; [bools; lia|done]. Qed.

(** With at most [maxKeys] distinct keys, an absent key always finds room. *)
Lemma room_for maxKeys m k (S : gset K) :
  dom m ⊆ S -> k ∈ S -> Z.of_nat (size S) <= maxKeys -> m !! k = None ->
  makeRoom maxKeys m = m.
Proof.
  intros Hdom Hk HS Hnone. apply makeRoom_id. rewrite <-size_dom.
  assert (dom m ⊆ S ∖ {[k]}) as Hsub%subseteq_size.
  { apply not_elem_of_dom in Hnone. set_solver. }
  rewrite size_difference in Hsub by set_solver. rewrite size_singleton in Hsub.
  assert (size S <> 0)%nat; [|lia]. intros H0%size_empty_iff. set_solver.
Qed.

End Capacity.

(** ** A per-key machine under garbage collection and eviction

    [km_solo] answers one request on the entry of its key ([None] when the key
    is absent); [km_gc] is what a sweep leaves of an entry.  The law says that a
    sweep is not observable by any later request. *)
Class KeyedMachine (E D : Type) := {
  km_solo : option E -> Z -> D * E;
  km_gc : Z -> E -> option E;
  km_gc_transparent : forall (now now' : Z) (e : E),
    now <= now' -> km_solo (km_gc now e) now' = km_solo (Some e) now'
}.

Section Keyed.
Context {K : Type} `{Countable K} `{!RangeOrder K} {E D : Type} `{!KeyedMachine E D}.
Context (updatedAt : E -> Z) (prune : Z -> gmap K E -> gmap K E).
Context (prune_lookup : forall now m k, prune now m !! k = (m !! k ≫= km_gc now)).
Context (maxKeys gcEvery : Z).

(** The state of a limiter: its entries and the time of its last sweep. *)
Definition keyed_sweep (now : Z) (st : gmap K E * Z) : gmap K E * Z :=
  if gc_due (Z.of_nat (size st.1)) maxKeys gcEvery st.2 now
  then (prune now st.1, now) else st.

Definition keyed_step (st : gmap K E * Z) (k : K) (now : Z) : D * (gmap K E * Z) :=
  let st1 := keyed_sweep now st in
  let m2 := match st1.1 !! k with
            | None => makeRoom updatedAt maxKeys st1.1
            | Some _ => st1.1
            end in
  let '(d, e) := km_solo (st1.1 !! k) now in
  (d, (<[k := e]> m2, st1.2)).

(** A sequence of requests [(Some k, now)] and background sweeps [(None, now)],
    and the answers to the requests in order, with their keys. *)
Fixpoint keyed_run (st : gmap K E * Z) (events : list (option K * Z)) : list (K * D) :=
  match events with
  | [] => []
  | (Some k, now) :: events' =>
      let '(d, st') := keyed_step st k now in (k, d) :: keyed_run st' events'
  | (None, now) :: events' => keyed_run (prune now st.1, now) events'
  end.

(** The same requests on one key alone, with no sweep and no eviction. *)
Fixpoint solo_run (o : option E) (times : list Z) : list D :=
  match times with
  | [] => []
  | now :: times' => let '(d, e) := km_solo o now in d :: solo_run (Some e) times'
  end.

Definition of_key {A : Type} (k : K) (l : list (K * A)) : list A :=
  snd <$> filter (fun p => p.1 = k) l.

Definition times_of (k : K) (events : list (option K * Z)) : list Z :=
  snd <$> filter (fun p => p.1 = Some k) events.

(** Observational equality of two entries from a time on. *)
Definition same_from (now : Z) (o o' : option E) : Prop :=
  forall now', now <= now' -> km_solo o now' = km_solo o' now'.

Lemma same_from_gc now o o' :
  same_from now o o' -> same_from now (o ≫= km_gc now) o'.
Proof.
  intros Hs now' Hle. rewrite <-Hs by done. destruct o as [e|]; simpl; [|done].
  by apply km_gc_transparent.
Qed.

Lemma keyed_sweep_lookup now st k :
  (keyed_sweep now st).1 !! k = st.1 !! k \/
  (keyed_sweep now st).1 !! k = (st.1 !! k ≫= km_gc now).
Proof. unfold keyed_sweep. destruct (gc_due _ _ _ _ _); [right; apply prune_lookup|by left]. Qed.

Lemma keyed_sweep_same now st k o :
  same_from now (st.1 !! k) o -> same_from now ((keyed_sweep now st).1 !! k) o.
Proof.
  intros Hs. destruct (keyed_sweep_lookup now st k) as [->| ->]; [done|].
  by apply same_from_gc.
Qed.

Lemma keyed_sweep_dom now st (S : gset K) : dom st.1 ⊆ S -> dom (keyed_sweep now st).1 ⊆ S.
Proof.
  intros HS k [e Hk]%elem_of_dom. apply HS, elem_of_dom.
  destruct (keyed_sweep_lookup now st k) as [Hl|Hl]; rewrite Hl in Hk; [eauto|].
  destruct (st.1 !! k); [eauto|done].
Qed.

(** A limiter whose traffic fits its key capacity answers every key exactly as
    an independent machine that only ever sees that key. *)
Lemma keyed_run_refines (S : gset K) events st last (spec : K -> option E) k :
  (forall k' now, (Some k', now) ∈ events -> k' ∈ S) -> Z.of_nat (size S) <= maxKeys ->
  nondecreasing last events.*2 -> dom st.1 ⊆ S ->
  (forall k', same_from last (st.1 !! k') (spec k')) ->
  of_key k (keyed_run st events) = solo_run (spec k) (times_of k events).
Proof.
  intros Hkeys HS. revert st last spec. induction events as [|[[k0|] now] events IH];
    intros st last spec Hsorted Hdom Hsim; [done|..]; simpl in Hsorted;
    destruct Hsorted as [Hle Hsorted]; simpl.
  2: { unfold times_of. rewrite filter_cons_False by done. eapply IH; [set_solver|done|..].
       - intros k' [e Hk']%elem_of_dom. simpl in Hk'. rewrite prune_lookup in Hk'.
         apply Hdom, elem_of_dom. destruct (st.1 !! k'); [eauto|done].
       - intros k'. simpl. rewrite prune_lookup. apply same_from_gc.
         intros t Ht. apply Hsim. lia. }
  unfold keyed_step.
  pose proof (keyed_sweep_dom now st S Hdom) as Hdom1.
  assert (Hsim1 : forall k', same_from now ((keyed_sweep now st).1 !! k') (spec k')).
  { intros k'. apply keyed_sweep_same. intros t Ht. apply Hsim. lia. }
  set (st1 := keyed_sweep now st) in *.
  assert (Hk0 : k0 ∈ S) by (apply (Hkeys k0 now); set_solver).
  assert (Hroom : match st1.1 !! k0 with
                  | None => makeRoom updatedAt maxKeys st1.1
                  | Some _ => st1.1 end = st1.1).
  { destruct (st1.1 !! k0) eqn:Hl; [done|]. by apply (room_for _ _ _ k0 S). }
  rewrite Hroom, (Hsim1 k0 now) by lia.
  destruct (km_solo (spec k0) now) as [d e] eqn:Hstep.
  assert (Hrest : of_key k (keyed_run (<[k0 := e]> st1.1, st1.2) events) =
                  solo_run (if decide (k0 = k) then Some e else spec k) (times_of k events)).
  { rewrite (IH ltac:(set_solver) _ now (fun k' => if decide (k0 = k') then Some e else spec k'));
      [done|done|..].
    - simpl. rewrite dom_insert_L. set_solver.
    - intros k'. simpl. rewrite lookup_insert. case_decide; [by intros ??|apply Hsim1]. }
  unfold of_key, times_of in *. simpl. rewrite !filter_cons. simpl.
  destruct (decide (k0 = k)) as [->|Hne].
  - rewrite decide_True by done. simpl. rewrite Hstep. f_equal. exact Hrest.
  - rewrite decide_False by congruence. exact Hrest.
Qed.

(** Every request leaves the entries within capacity. *)
Lemma keyed_step_size st k now :
  0 < maxKeys -> Z.of_nat (size st.1) <= maxKeys ->
  Z.of_nat (size (keyed_step st k now).2.1) <= maxKeys.
Proof.
  intros Hmax Hsz. unfold keyed_step.
  assert (Hsz1 : Z.of_nat (size (keyed_sweep now st).1) <= maxKeys).
  { assert (Hd : dom (keyed_sweep now st).1 ⊆ dom st.1) by (by apply keyed_sweep_dom).
    apply subseteq_size in Hd. rewrite !size_dom in Hd. lia. }
  destruct (km_solo _ _) as [d e]. simpl.
  destruct ((keyed_sweep now st).1 !! k) eqn:Hl.
  - rewrite map_size_insert_Some; eauto.
  - pose proof (makeRoom_lt updatedAt maxKeys (keyed_sweep now st).1 Hmax).
    rewrite map_size_insert. case_match; unfold id; lia.
Qed.

Lemma times_of_requests (k : K) (reqs : list (K * Z)) :
  times_of k (prod_map Some id <$> reqs) = of_key k reqs.
Proof.
  unfold times_of, of_key. induction reqs as [|[k0 t] reqs IH]; [done|].
  rewrite fmap_cons, !filter_cons. simpl.
  destruct (decide (k0 = k)) as [->|Hne].
  - rewrite decide_True by done. simpl. f_equal. exact IH.
  - rewrite decide_False by congruence. exact IH.
Qed.

Lemma requests_times (reqs : list (K * Z)) : (prod_map (@Some K) id <$> reqs).*2 = reqs.*2.
Proof. induction reqs as [|[k t] reqs IH]; [done|]. rewrite !fmap_cons, IH. done. Qed.

(** The times of one key are in order when all the times are. *)
Lemma times_of_nondecreasing k last events :
  nondecreasing last events.*2 -> nondecreasing last (times_of k events).
Proof.
  assert (Hweak : forall l a b, a <= b -> nondecreasing b l -> nondecreasing a l).
  { intros [|x l] a b Hab; simpl; [done|]. intros [? ?]. split; [lia|done]. }
  unfold times_of. revert last. induction events as [|[o t] events IH]; intros last; [done|].
  rewrite filter_cons. simpl. intros [Hle Hnd]. destruct (decide (o = Some k)); simpl.
  - split; [done|]. by apply IH.
  - apply (Hweak _ _ t); [done|]. by apply IH.
Qed.

End Keyed.

#[global] Arguments keyed_step : simpl never.

(** ** Counting grants *)

(** The times at which requests were granted. *)
Fixpoint granted (times : list Z) (ds : list Decision) : list Z :=
  match times, ds with
  | t :: times', d :: ds' =>
      if Allowed d then t :: granted times' ds' else granted times' ds'
  | _, _ => []
  end.

(** How many of the times lie in the half-open interval of length [w] ending at [t]. *)
Definition in_interval (t w : Z) (times : list Z) : Z :=
  count_of (fun a => t - w < a <= t) times.

(** ** The fixed window ([fixed.go]) *)
Module FixedWindow.

Record fixedEntry := mkEntry { windowStart : Z; updatedAt : Z; count : Z }.

Section Fixed.
Context {K : Type} `{Countable K} `{!RangeOrder K}.

Record FixedWindow := mkWindow {
  entries : gmap K fixedEntry;
  window : Z;
  limit : Z;
  maxKeys : Z;
  gcEvery : Z;
  lastGC : Z
}.

Definition set_entries (m : gmap K fixedEntry) (l : FixedWindow) : FixedWindow :=
  mkWindow m (window l) (limit l) (maxKeys l) (gcEvery l) (lastGC l).

(** [None] is the panic of an invalid configuration. *)
Definition NewFixedWindow (window limit maxKeys gcEvery : Z) : option FixedWindow :=
  if window <=? 0 then None
  else if maxKeys <=? 0 then None
  else Some (mkWindow ∅ window limit maxKeys gcEvery 0).

Definition pruneLocked (l : FixedWindow) (now : Z) : FixedWindow :=
  mkWindow (range_delete (fun e => window l <=? time_sub now (windowStart e)) (entries l))
           (window l) (limit l) (maxKeys l) (gcEvery l) now.

Definition PruneAt (l : FixedWindow) (now : Z) : FixedWindow := pruneLocked l now.

Definition maybePruneLocked (l : FixedWindow) (now : Z) : FixedWindow :=
  if gc_due (Z.of_nat (size (entries l))) (maxKeys l) (gcEvery l) (lastGC l) now
  then pruneLocked l now else l.

Definition makeRoomLocked (l : FixedWindow) : FixedWindow :=
  set_entries (makeRoom updatedAt (maxKeys l) (entries l)) l.

Definition AllowWithLimitAt (l : FixedWindow) (key : K) (limit now : Z) : Decision * FixedWindow :=
  let l := maybePruneLocked l now in
  let '(l, entry) :=
    match entries l !! key with
    | None => (makeRoomLocked l, mkEntry now 0 0)
    | Some e =>
        (l, if window l <=? time_sub now (windowStart e) then mkEntry now 0 0 else e)
    end in
  let entry := mkEntry (windowStart entry) now (count entry) in
  if (limit <=? 0) || (limit <=? count entry) then
    (mkDecision false (retryAfter (time_add (windowStart entry) (window l)) now (window l)) (count entry),
     set_entries (<[key := entry]> (entries l)) l)
  else
    let entry := mkEntry (windowStart entry) (updatedAt entry) (count entry + 1) in
    (mkDecision true 0 (count entry), set_entries (<[key := entry]> (entries l)) l).

Definition AllowAt (l : FixedWindow) (key : K) (now : Z) : Decision * FixedWindow :=
  AllowWithLimitAt l key (limit l) now.

Definition Reset (l : FixedWindow) (key : K) : FixedWindow :=
  set_entries (delete key (entries l)) l.

Definition ResetAll (l : FixedWindow) : FixedWindow := set_entries ∅ l.

Definition Len (l : FixedWindow) : Z := Z.of_nat (size (entries l)).

(** A history: requests [(Some k, now)] and janitor ticks [(None, now)]. *)
Fixpoint run (l : FixedWindow) (events : list (option K * Z)) : list (K * Decision) :=
  match events with
  | [] => []
  | (Some k, now) :: events' =>
      let '(d, l') := AllowAt l k now in (k, d) :: run l' events'
  | (None, now) :: events' => run (PruneAt l now) events'
  end.

(** *** The machine of one key *)
Definition solo (window limit : Z) (o : option fixedEntry) (now : Z) : Decision * fixedEntry :=
  let e := match o with
           | None => mkEntry now 0 0
           | Some e => if window <=? time_sub now (windowStart e) then mkEntry now 0 0 else e
           end in
  if (limit <=? 0) || (limit <=? count e) then
    (mkDecision false (retryAfter (time_add (windowStart e) window) now window) (count e),
     mkEntry (windowStart e) now (count e))
  else (mkDecision true 0 (count e + 1), mkEntry (windowStart e) now (count e + 1)).

Definition gc (window now : Z) (e : fixedEntry) : option fixedEntry :=
  if window <=? time_sub now (windowStart e) then None else Some e.

Lemma fixed_solo_gc window limit now now' e :
  now <= now' -> solo window limit (gc window now e) now' = solo window limit (Some e) now'.
Proof.
  intros Hle. unfold gc, solo. destruct (window <=? time_sub now _) eqn:Hc; [|done].
  replace (window <=? time_sub now' (windowStart e)) with true; [done|].
  symmetry. bools. unfold time_sub, sat64 in *. lia.
Qed.

Definition machine (window limit : Z) : KeyedMachine fixedEntry Decision :=
  {| km_solo := solo window limit; km_gc := gc window;
     km_gc_transparent := fixed_solo_gc window limit |}.

Definition prune (window now : Z) (m : gmap K fixedEntry) : gmap K fixedEntry :=
  range_delete (fun e => window <=? time_sub now (windowStart e)) m.

Lemma fixed_prune_lookup window now m k : prune window now m !! k = (m !! k ≫= gc window now).
Proof. unfold prune. rewrite range_delete_lookup. by destruct (m !! k). Qed.

(** One request is one step of the generic keyed limiter. *)
Lemma AllowWithLimitAt_keyed l k lim now :
  let '(d, l') := AllowWithLimitAt l k lim now in
  keyed_step (KeyedMachine0 := machine (window l) lim) updatedAt (prune (window l)) (maxKeys l) (gcEvery l)
    (entries l, lastGC l) k now = (d, (entries l', lastGC l')) /\
  window l' = window l /\ limit l' = limit l /\ maxKeys l' = maxKeys l /\ gcEvery l' = gcEvery l.
Proof.
  unfold AllowWithLimitAt, keyed_step, keyed_sweep, maybePruneLocked, pruneLocked, makeRoomLocked.
  simpl. destruct (gc_due _ _ _ _ _); simpl; fold (prune (window l) now (entries l));
    (destruct (_ !! k) as [e|] eqn:Hk; simpl; unfold solo; simpl;
     [destruct (window l <=? _)|]; simpl; destruct (_ || _); simpl; done).
Qed.

Lemma fixed_run_keyed events l :
  run l events =
  keyed_run (KeyedMachine0 := machine (window l) (limit l)) updatedAt (prune (window l)) (maxKeys l) (gcEvery l)
    (entries l, lastGC l) events.
Proof.
  revert l. induction events as [|[[k|] now] events IH]; intros l; simpl; [done|..].
  - pose proof (AllowWithLimitAt_keyed l k (limit l) now) as Hs. unfold AllowAt.
    destruct (AllowWithLimitAt l k (limit l) now) as [d l'].
    destruct Hs as (-> & Hw & Hl & Hm & Hg). rewrite IH, Hw, Hl, Hm, Hg. done.
  - rewrite IH. done.
Qed.

Lemma fixed_run_refines (window limit maxKeys gcEvery : Z) l (S : gset K) events k :
  NewFixedWindow window limit maxKeys gcEvery = Some l ->
  (forall k' now, (Some k', now) ∈ events -> k' ∈ S) -> Z.of_nat (size S) <= maxKeys ->
  nondecreasing 0 events.*2 ->
  of_key k (run l events) =
  solo_run (KeyedMachine0 := machine window limit) None (times_of k events).
Proof.
  intros Hnew Hkeys HS Hnd. unfold NewFixedWindow in Hnew.
  repeat case_match; simplify_eq. rewrite fixed_run_keyed. simpl.
  apply (keyed_run_refines (KeyedMachine0 := machine window limit) _ _
           (fixed_prune_lookup window) _ _ S _ _ 0 (fun _ => None)); try done; set_solver.
Qed.

(** *** The number of grants *)
Definition inv (w L : Z) (o : option fixedEntry) (grants : list Z) (last : Z) : Prop :=
  (forall a, a ∈ grants -> a <= last) /\
  (forall t, in_interval t w grants <= 2 * L) /\
  match o with
  | None => grants = []
  | Some e =>
      windowStart e <= last /\ (forall a, a ∈ grants -> a < windowStart e + w) /\
      count_of (fun a => windowStart e <= a) grants = count e /\ 0 <= count e <= L /\
      count_of (fun a => windowStart e - w < a < windowStart e) grants <= L
  end.

(** A new window opened at [now] starts from no grants of its own. *)
Lemma inv_fresh w L o grants last now :
  0 < w <= int64_max -> 0 <= L -> inv w L o grants last -> last <= now ->
  match o with None => True | Some e => w <= time_sub now (windowStart e) end ->
  inv w L (Some (mkEntry now now 0)) grants now.
Proof.
  intros Hw HL (Hle & Htot & Ho) Hnow Hexp.
  destruct o as [e|]; [|subst grants; unfold inv; simpl;
    repeat split; intros; try set_solver; unfold in_interval, count_of; simpl; lia].
  destruct Ho as (Hs & Hlt & Hcnt & Hc & Hprev).
  assert (windowStart e + w <= now).
  { unfold time_sub, sat64, int64_max, int64_min in *. lia. }
  unfold inv; simpl. split; [intros a Ha; specialize (Hlt a Ha); lia|]. split; [done|].
  split; [lia|]. split; [intros a Ha; specialize (Hlt a Ha); lia|].
  split. { apply count_of_zero. intros a Ha. specialize (Hlt a Ha). lia. }
  split; [lia|]. etrans; [|exact (proj2 Hc)]. rewrite <-Hcnt.
  apply count_of_mono. intros. lia.
Qed.

Lemma fixed_solo_inv w limit o grants last now :
  0 < w <= int64_max -> inv w (Z.max 0 limit) o grants last -> last <= now ->
  let '(d, e) := solo w limit o now in
  inv w (Z.max 0 limit) (Some e) (if Allowed d then grants ++ [now] else grants) now.
Proof.
  intros Hw Hinv Hle.
  assert (exists e0, inv w (Z.max 0 limit) (Some (mkEntry (windowStart e0) now (count e0))) grants now /\
    now < windowStart e0 + w /\
    solo w limit o now = if (limit <=? 0) || (limit <=? count e0) then
      (mkDecision false (retryAfter (time_add (windowStart e0) w) now w) (count e0),
       mkEntry (windowStart e0) now (count e0))
      else (mkDecision true 0 (count e0 + 1), mkEntry (windowStart e0) now (count e0 + 1)))
    as (e0 & Hi & Hin & ->).
  { unfold solo. destruct o as [e|].
    - destruct (w <=? time_sub now (windowStart e)) eqn:Hexp; [bools|bools].
      + exists (mkEntry now 0 0). split; [|simpl; split; [lia|done]].
        eapply (inv_fresh _ _ (Some e)); eauto; lia.
      + exists e. split; [|split; [|done]].
        * destruct Hinv as (H1 & H2 & H3 & H4 & H5). repeat split; simpl; try tauto; try lia.
          intros a Ha. specialize (H1 a Ha). lia.
        * unfold time_sub, sat64, int64_max, int64_min in *. lia.
    - exists (mkEntry now 0 0). split; [|simpl; split; [lia|done]].
      eapply (inv_fresh _ _ None); eauto; lia. }
  destruct (_ || _) eqn:Hc; [done|]. bools. simpl.
  destruct Hi as (H1 & H2 & H3 & H4 & H5 & H6 & H7). simpl in *.
  split; [|split].
  - intros a [Ha| ->%list_elem_of_singleton]%elem_of_app; [auto|lia].
  - intros t. destruct (decide (t < now)) as [Ht|Ht].
    + unfold in_interval in *. rewrite count_of_app, count_of_single, decide_False by lia.
      specialize (H2 t). lia.
    + unfold in_interval. etrans.
      { apply (count_of_or _ (fun a => windowStart e0 <= a)
                 (fun a => windowStart e0 - w < a < windowStart e0)). intros. lia. }
      rewrite !count_of_app, !count_of_single. repeat case_decide; lia.
  - simpl. split; [lia|]. split.
    { intros a [Ha| ->%list_elem_of_singleton]%elem_of_app; [auto|lia]. }
    rewrite !count_of_app, !count_of_single. repeat case_decide; lia.
Qed.

Lemma fixed_solo_run_bound w limit times o grants last t :
  0 < w <= int64_max -> inv w (Z.max 0 limit) o grants last -> nondecreasing last times ->
  in_interval t w (grants ++ granted times (solo_run (KeyedMachine0 := machine w limit) o times))
    <= 2 * Z.max 0 limit.
Proof.
  intros Hw. revert o grants last. induction times as [|now times IH];
    intros o grants last Hinv Hnd; simpl.
  { rewrite app_nil_r. apply Hinv. }
  destruct Hnd as [Hle Hnd]. pose proof (fixed_solo_inv w limit o grants last now Hw Hinv Hle) as Hs.
  destruct (solo w limit o now) as [d e]. simpl.
  specialize (IH (Some e) _ now Hs Hnd). destruct (Allowed d); [|done].
  rewrite <-app_assoc in IH. done.
Qed.

End Fixed.
End FixedWindow.

(** ** The sliding window ([sliding.go]) *)
Module SlidingWindow.

Record slidingEntry := mkEntry { timestamps : list Z; updatedAt : Z }.

(** Drop the leading timestamps that are not after the cutoff. *)
Fixpoint pruneTimestamps (timestamps : list Z) (cutoff : Z) : list Z :=
  match timestamps with
  | [] => []
  | t :: rest => if time_after t cutoff then timestamps else pruneTimestamps rest cutoff
  end.

Section Sliding.
Context {K : Type} `{Countable K} `{!RangeOrder K}.

Record SlidingWindow := mkWindow {
  entries : gmap K slidingEntry;
  window : Z;
  limit : Z;
  maxKeys : Z;
  gcEvery : Z;
  lastGC : Z
}.

Definition set_entries (m : gmap K slidingEntry) (l : SlidingWindow) : SlidingWindow :=
  mkWindow m (window l) (limit l) (maxKeys l) (gcEvery l) (lastGC l).

Definition NewSlidingWindow (window limit maxKeys gcEvery : Z) : option SlidingWindow :=
  if window <=? 0 then None
  else if maxKeys <=? 0 then None
  else Some (mkWindow ∅ window limit maxKeys gcEvery 0).

Definition gc (window now : Z) (e : slidingEntry) : option slidingEntry :=
  let ts := pruneTimestamps (timestamps e) (time_add now (- window)) in
  match ts with
  | [] => None
  | _ => Some (mkEntry ts (updatedAt e))
  end.

Definition pruneLocked (l : SlidingWindow) (now : Z) : SlidingWindow :=
  mkWindow (range_update (gc (window l) now) (entries l))
           (window l) (limit l) (maxKeys l) (gcEvery l) now.

Definition maybePruneLocked (l : SlidingWindow) (now : Z) : SlidingWindow :=
  if gc_due (Z.of_nat (size (entries l))) (maxKeys l) (gcEvery l) (lastGC l) now
  then pruneLocked l now else l.

Definition makeRoomLocked (l : SlidingWindow) : SlidingWindow :=
  set_entries (makeRoom updatedAt (maxKeys l) (entries l)) l.

Definition AllowWithLimitAt (l : SlidingWindow) (key : K) (limit now : Z) : Decision * SlidingWindow :=
  let l := maybePruneLocked l now in
  let '(l, entry) :=
    match entries l !! key with
    | None => (makeRoomLocked l, mkEntry [] 0)
    | Some e => (l, e)
    end in
  let ts := pruneTimestamps (timestamps entry) (time_add now (- window l)) in
  let entry := mkEntry ts now in
  if (limit <=? 0) || (limit <=? Z.of_nat (length (timestamps entry))) then
    let deadline := match timestamps entry with
                    | [] => time_add now (window l)
                    | first :: _ => time_add first (window l)
                    end in
    (mkDecision false (retryAfter deadline now (window l)) (Z.of_nat (length (timestamps entry))),
     set_entries (<[key := entry]> (entries l)) l)
  else
    let entry := mkEntry (timestamps entry ++ [now]) (updatedAt entry) in
    (mkDecision true 0 (Z.of_nat (length (timestamps entry))),
     set_entries (<[key := entry]> (entries l)) l).

Definition AllowAt (l : SlidingWindow) (key : K) (now : Z) : Decision * SlidingWindow :=
  AllowWithLimitAt l key (limit l) now.

Definition ResetAll (l : SlidingWindow) : SlidingWindow := set_entries ∅ l.

(** A history of requests; this limiter has no background sweep. *)
Fixpoint run (l : SlidingWindow) (reqs : list (K * Z)) : list (K * Decision) :=
  match reqs with
  | [] => []
  | (k, now) :: reqs' => let '(d, l') := AllowAt l k now in (k, d) :: run l' reqs'
  end.

(** *** The machine of one key *)
Definition solo (window limit : Z) (o : option slidingEntry) (now : Z) : Decision * slidingEntry :=
  let ts := pruneTimestamps (from_option timestamps [] o) (time_add now (- window)) in
  if (limit <=? 0) || (limit <=? Z.of_nat (length ts)) then
    (mkDecision false
       (retryAfter (time_add (from_option id now (head ts)) window) now window)
       (Z.of_nat (length ts)), mkEntry ts now)
  else (mkDecision true 0 (Z.of_nat (length (ts ++ [now]))), mkEntry (ts ++ [now]) now).

Lemma pruneTimestamps_twice ts c c' :
  c <= c' -> pruneTimestamps (pruneTimestamps ts c) c' = pruneTimestamps ts c'.
Proof.
  intros Hc. induction ts as [|t ts IH]; simpl; [done|].
  destruct (time_after t c) eqn:Ht; [done|]. rewrite IH.
  unfold time_after in *. destruct (c' <? t) eqn:Ht'; [bools; lia|done].
Qed.

Lemma sliding_solo_gc window limit now now' e :
  now <= now' -> solo window limit (gc window now e) now' = solo window limit (Some e) now'.
Proof.
  intros Hle. unfold solo.
  assert (Hts : pruneTimestamps (from_option timestamps [] (gc window now e)) (time_add now' (- window))
             = pruneTimestamps (timestamps e) (time_add now' (- window))).
  { unfold time_add in *.
    rewrite <-(pruneTimestamps_twice (timestamps e) (now + - window) (now' + - window)) by lia.
    unfold gc, time_add. by destruct (pruneTimestamps (timestamps e) _). }
  rewrite Hts. done.
Qed.

Definition machine (window limit : Z) : KeyedMachine slidingEntry Decision :=
  {| km_solo := solo window limit; km_gc := gc window;
     km_gc_transparent := sliding_solo_gc window limit |}.

Definition prune (window now : Z) (m : gmap K slidingEntry) : gmap K slidingEntry :=
  range_update (gc window now) m.

Lemma sliding_prune_lookup window now m k : prune window now m !! k = (m !! k ≫= gc window now).
Proof. apply range_update_lookup. Qed.

Lemma AllowAt_keyed l k now :
  let '(d, l') := AllowAt l k now in
  keyed_step (KeyedMachine0 := machine (window l) (limit l)) updatedAt (prune (window l)) (maxKeys l) (gcEvery l)
    (entries l, lastGC l) k now = (d, (entries l', lastGC l')) /\
  window l' = window l /\ limit l' = limit l /\ maxKeys l' = maxKeys l /\ gcEvery l' = gcEvery l.
Proof.
  unfold AllowAt, AllowWithLimitAt, keyed_step, keyed_sweep, maybePruneLocked, pruneLocked, makeRoomLocked.
  simpl. destruct (gc_due _ _ _ _ _); simpl; fold (prune (window l) now (entries l));
    (destruct (_ !! k) as [e|] eqn:Hk; simpl; unfold solo; simpl;
     try destruct (pruneTimestamps _ _); simpl; destruct (_ || _); done).
Qed.

Lemma sliding_run_keyed reqs l :
  run l reqs =
  keyed_run (KeyedMachine0 := machine (window l) (limit l)) updatedAt (prune (window l)) (maxKeys l) (gcEvery l)
    (entries l, lastGC l) (prod_map Some id <$> reqs).
Proof.
  revert l. induction reqs as [|[k now] reqs IH]; intros l; simpl; [done|].
  pose proof (AllowAt_keyed l k now) as Hs. destruct (AllowAt l k now) as [d l'].
  destruct Hs as (-> & Hw & Hl & Hm & Hg). rewrite IH, Hw, Hl, Hm, Hg. done.
Qed.

Lemma sliding_run_refines (window limit maxKeys gcEvery : Z) l (S : gset K) reqs k :
  NewSlidingWindow window limit maxKeys gcEvery = Some l ->
  (forall k' now, (k', now) ∈ reqs -> k' ∈ S) -> Z.of_nat (size S) <= maxKeys ->
  nondecreasing 0 reqs.*2 ->
  of_key k (run l reqs) = solo_run (KeyedMachine0 := machine window limit) None (of_key k reqs).
Proof.
  intros Hnew Hkeys HS Hnd. unfold NewSlidingWindow in Hnew.
  repeat case_match; simplify_eq. rewrite sliding_run_keyed, <-times_of_requests. simpl.
  apply (keyed_run_refines (KeyedMachine0 := machine window limit) _ _
           (sliding_prune_lookup window) _ _ S _ _ 0 (fun _ => None)); [| |by rewrite requests_times|..].
  - intros k' now ([k1 t] & [= -> ->] & Hin)%list_elem_of_fmap. by eapply Hkeys.
  - done.
  - set_solver.
  - by intros k' ?.
Qed.

(** *** The number of grants
    Requests read the clock before they take the lock, so a time may be up to [skew] before
    one that was used earlier. *)
Section Grants.
Context (w L skew : Z) (Hskew : 0 <= skew).

Definition skewed (times : list Z) : Prop := StronglySorted (fun earlier later => earlier - skew <= later) times.

(** The grants of a key, with what its entry holds before requests at [times]: the grants
    that the entry has dropped are older than what these requests look back on. *)
Definition remembers (ts grants times : list Z) : Prop :=
  exists old, grants = old ++ ts /\ forall a u, a ∈ old -> u ∈ times -> a <= u + skew - w.

Definition bounded_grants (grants : list Z) : Prop := forall t, in_interval t (w - skew) grants <= Z.max 0 L.

(** Pruning only drops timestamps at or before the cutoff, and keeps none of them
    at the front. *)
Lemma pruneTimestamps_split ts cutoff :
  exists dropped, ts = dropped ++ pruneTimestamps ts cutoff /\
                  (forall a, a ∈ dropped -> a <= cutoff).
Proof.
  induction ts as [|t ts (dropped & IH1 & IH2)]; simpl; [exists []; set_solver|].
  destruct (time_after t cutoff) eqn:Ht; [exists []; set_solver|].
  exists (t :: dropped). simpl. rewrite <-IH1. split; [done|].
  unfold time_after in Ht. bools. set_solver by lia.
Qed.

Lemma remembers_pruned ts grants now times :
  skewed (now :: times) -> remembers ts grants (now :: times) -> remembers (pruneTimestamps ts (time_add now (- w))) grants (now :: times).
Proof.
  intros [_ Hnow]%StronglySorted_inv (old & -> & Hold). rewrite Forall_forall in Hnow.
  destruct (pruneTimestamps_split ts (time_add now (- w))) as (dropped & Hd & Hdl).
  exists (old ++ dropped). split; [rewrite Hd at 1; by rewrite app_assoc|].
  intros a u [Ha|Ha]%elem_of_app Hu; [by apply Hold|]. specialize (Hdl a Ha). unfold time_add in Hdl.
  apply elem_of_cons in Hu as [->|Hu]; [lia|]. specialize (Hnow u Hu). lia.
Qed.

(** The step of one key. *)
Lemma solo_grants o grants now times :
  skewed (now :: times) -> bounded_grants grants -> remembers (from_option timestamps [] o) grants (now :: times) ->
  let '(d, e) := solo w L o now in
  let grants' := if Allowed d then grants ++ [now] else grants in
  bounded_grants grants' /\ remembers (timestamps e) grants' times.
Proof.
  intros Hsk Hb Hr. destruct (remembers_pruned _ _ _ _ Hsk Hr) as (old & Hg & Hold). unfold solo. set (ts := pruneTimestamps _ _) in *.
  destruct (_ || _) eqn:Hc; simpl.
  { split; [done|]. exists old. split; [done|]. intros a u Ha Hu. apply Hold; [done|]. apply elem_of_cons. by right. }
  bools. split.
  - intros t. unfold bounded_grants, in_interval in *. rewrite count_of_app, count_of_single. case_decide as Hin; [|specialize (Hb t); lia].
    enough (count_of (fun a => t - (w - skew) < a <= t) grants <= Z.of_nat (length ts)) by lia.
    rewrite Hg, count_of_app, count_of_zero.
    + unfold count_of. pose proof (length_filter (fun a => t - (w - skew) < a <= t) ts). lia.
    + intros a Ha. specialize (Hold a now Ha ltac:(apply elem_of_cons; by left)). lia.
  - exists old. split; [by rewrite Hg, <-app_assoc|]. intros a u Ha Hu. apply Hold; [done|]. apply elem_of_cons. by right.
Qed.

(** A sweep leaves what a key remembers. *)
Lemma sweep_remembers l k grants now times :
  window l = w -> skewed (now :: times) -> remembers (from_option timestamps [] (entries l !! k)) grants (now :: times) ->
  remembers (from_option timestamps [] ((keyed_sweep (prune (window l)) (maxKeys l) (gcEvery l) now (entries l, lastGC l)).1 !! k)) grants (now :: times).
Proof.
  intros Hw Hsk Hr. destruct (keyed_sweep_lookup (KeyedMachine0 := machine (window l) L) (prune (window l)) (sliding_prune_lookup (window l)) (maxKeys l) (gcEvery l) now (entries l, lastGC l) k) as [->| ->]; [done|].
  simpl. destruct (entries l !! k) as [e|]; [|done]. simpl in *. rewrite Hw. apply remembers_pruned in Hr; [|done]. unfold gc. by destruct (pruneTimestamps _ _).
Qed.

Lemma sliding_run_grants (S : gset K) k t reqs : forall l grants,
  window l = w -> limit l = L -> Z.of_nat (size S) <= maxKeys l -> dom (entries l) ⊆ S ->
  (forall k' now, (k', now) ∈ reqs -> k' ∈ S) -> skewed reqs.*2 ->
  bounded_grants grants -> remembers (from_option timestamps [] (entries l !! k)) grants reqs.*2 ->
  in_interval t (w - skew) (grants ++ granted (of_key k reqs) (of_key k (run l reqs))) <= Z.max 0 L.
Proof.
  induction reqs as [|[k0 now] reqs IH]; intros l grants Hw Hlim HS Hdom Hkeys Hsk Hb Hr; [rewrite app_nil_r; apply Hb|].
  pose proof (AllowAt_keyed l k0 now) as Hs. cbn [run]. destruct (AllowAt l k0 now) as [d l']. destruct Hs as (Hs & Hw' & Hl' & Hm' & _). rewrite fmap_cons in Hsk, Hr. cbn [snd] in Hsk, Hr.
  pose proof (sweep_remembers l k grants now _ Hw Hsk Hr) as Hr1. pose proof (proj1 (StronglySorted_inv Hsk)) as Hsk'. unfold keyed_step in Hs.
  pose proof (keyed_sweep_dom (KeyedMachine0 := machine (window l) (limit l)) _ (sliding_prune_lookup (window l)) (maxKeys l) (gcEvery l) now (entries l, lastGC l) S Hdom) as Hdom1.
  set (st1 := keyed_sweep _ _ _ _ _) in *. assert (Hk0 : k0 ∈ S) by (apply (Hkeys k0 now); set_solver).
  assert (Hroom : match st1.1 !! k0 with None => makeRoom updatedAt (maxKeys l) st1.1 | Some _ => st1.1 end = st1.1).
  { destruct (st1.1 !! k0) eqn:El; [done|]. by apply (room_for _ _ _ k0 S). }
  rewrite Hroom in Hs. cbn [km_solo machine] in Hs. rewrite Hw, Hlim in Hs. destruct (solo w L (st1.1 !! k0) now) as [d0 e] eqn:Esolo. injection Hs as -> He _.
  assert (Hdom' : dom (entries l') ⊆ S) by (rewrite <- He, dom_insert_L; set_solver).
  assert (Hkeys' : forall k' now, (k', now) ∈ reqs -> k' ∈ S) by (intros k' n Hin; apply (Hkeys k' n); set_solver).
  unfold of_key in *. rewrite !filter_cons. cbn [fst]. destruct (decide (k0 = k)) as [->|Hne].
  - pose proof (solo_grants (st1.1 !! k) grants now _ Hsk Hb Hr1) as Hg. rewrite Esolo in Hg. destruct Hg as [Hb' Hr']. rewrite !fmap_cons. cbn [snd granted].
    specialize (IH l' (if Allowed d then grants ++ [now] else grants) ltac:(congruence) ltac:(congruence) ltac:(by rewrite Hm') Hdom' Hkeys' Hsk' Hb').
    rewrite <- He, lookup_insert_eq in IH. specialize (IH Hr'). destruct (Allowed d); [by rewrite <- app_assoc in IH|done].
  - apply IH; try done; [congruence|congruence|by rewrite Hm'|]. rewrite <- He, lookup_insert_ne by done. destruct Hr1 as (old & Hg & Hold). exists old. split; [done|].
    intros a u Ha Hu. apply Hold; [done|]. apply elem_of_cons. by right.
Qed.
End Grants.
End Sliding.
End SlidingWindow.

(** ** The threshold window ([threshold.go]) *)
Module ThresholdWindow.

Record ThresholdDecision := mkThreshold { Count : Z; Triggered : bool }.

Record thresholdEntry := mkEntry {
  windowStart : Z; updatedAt : Z; count : Z; triggered : bool
}.

Section Threshold.
Context {K : Type} `{Countable K} `{!RangeOrder K}.

Record ThresholdWindow := mkWindow {
  entries : gmap K thresholdEntry;
  window : Z;
  threshold : Z;
  maxKeys : Z;
  gcEvery : Z;
  lastGC : Z
}.

Definition set_entries (m : gmap K thresholdEntry) (l : ThresholdWindow) : ThresholdWindow :=
  mkWindow m (window l) (threshold l) (maxKeys l) (gcEvery l) (lastGC l).

Definition NewThresholdWindow (window threshold maxKeys gcEvery : Z) : option ThresholdWindow :=
  if (window <=? 0) || (threshold <=? 0) || (maxKeys <=? 0) then None
  else Some (mkWindow ∅ window threshold maxKeys gcEvery 0).

Definition pruneLocked (l : ThresholdWindow) (now : Z) : ThresholdWindow :=
  mkWindow (range_delete (fun e => window l <=? time_sub now (windowStart e)) (entries l))
           (window l) (threshold l) (maxKeys l) (gcEvery l) now.

Definition maybePruneLocked (l : ThresholdWindow) (now : Z) : ThresholdWindow :=
  if gc_due (Z.of_nat (size (entries l))) (maxKeys l) (gcEvery l) (lastGC l) now
  then pruneLocked l now else l.

Definition makeRoomLocked (l : ThresholdWindow) : ThresholdWindow :=
  set_entries (makeRoom updatedAt (maxKeys l) (entries l)) l.

Definition AddAt (l : ThresholdWindow) (key : K) (now : Z) : ThresholdDecision * ThresholdWindow :=
  let l := maybePruneLocked l now in
  let '(l, entry) :=
    match entries l !! key with
    | None => (makeRoomLocked l, mkEntry now 0 0 false)
    | Some e =>
        (l, if window l <=? time_sub now (windowStart e) then mkEntry now 0 0 false else e)
    end in
  let entry := mkEntry (windowStart entry) now (count entry + 1) (triggered entry) in
  let trigger := (threshold l <=? count entry) && negb (triggered entry) in
  let entry := if trigger then mkEntry (windowStart entry) (updatedAt entry) (count entry) true
               else entry in
  (mkThreshold (count entry) trigger, set_entries (<[key := entry]> (entries l)) l).

Fixpoint run (l : ThresholdWindow) (reqs : list (K * Z)) : list (K * ThresholdDecision) :=
  match reqs with
  | [] => []
  | (k, now) :: reqs' => let '(d, l') := AddAt l k now in (k, d) :: run l' reqs'
  end.

(** *** The machine of one key *)
Definition solo (window threshold : Z) (o : option thresholdEntry) (now : Z)
  : ThresholdDecision * thresholdEntry :=
  let e := match o with
           | None => mkEntry now 0 0 false
           | Some e => if window <=? time_sub now (windowStart e) then mkEntry now 0 0 false else e
           end in
  let trigger := (threshold <=? count e + 1) && negb (triggered e) in
  (mkThreshold (count e + 1) trigger,
   mkEntry (windowStart e) now (count e + 1) (trigger || triggered e)).

Definition gc (window now : Z) (e : thresholdEntry) : option thresholdEntry :=
  if window <=? time_sub now (windowStart e) then None else Some e.

Lemma threshold_solo_gc window threshold now now' e :
  now <= now' -> solo window threshold (gc window now e) now' = solo window threshold (Some e) now'.
Proof.
  intros Hle. unfold gc, solo. destruct (window <=? time_sub now _) eqn:Hc; [|done].
  replace (window <=? time_sub now' (windowStart e)) with true; [done|].
  symmetry. bools. unfold time_sub, sat64 in *. lia.
Qed.

Definition machine (window threshold : Z) : KeyedMachine thresholdEntry ThresholdDecision :=
  {| km_solo := solo window threshold; km_gc := gc window;
     km_gc_transparent := threshold_solo_gc window threshold |}.

Definition prune (window now : Z) (m : gmap K thresholdEntry) : gmap K thresholdEntry :=
  range_delete (fun e => window <=? time_sub now (windowStart e)) m.

Lemma threshold_prune_lookup window now m k : prune window now m !! k = (m !! k ≫= gc window now).
Proof. unfold prune. rewrite range_delete_lookup. by destruct (m !! k). Qed.

Lemma AddAt_keyed l k now :
  let '(d, l') := AddAt l k now in
  keyed_step (KeyedMachine0 := machine (window l) (threshold l)) updatedAt (prune (window l)) (maxKeys l) (gcEvery l)
    (entries l, lastGC l) k now = (d, (entries l', lastGC l')) /\
  window l' = window l /\ threshold l' = threshold l /\ maxKeys l' = maxKeys l /\ gcEvery l' = gcEvery l.
Proof.
  unfold AddAt, keyed_step, keyed_sweep, maybePruneLocked, pruneLocked, makeRoomLocked.
  simpl. destruct (gc_due _ _ _ _ _); simpl; fold (prune (window l) now (entries l));
    (destruct (_ !! k) as [e|] eqn:Hk; simpl; unfold solo; simpl;
     [destruct (window l <=? _)|]; simpl; destruct (_ && _); simpl; done).
Qed.

Lemma threshold_run_keyed reqs l :
  run l reqs =
  keyed_run (KeyedMachine0 := machine (window l) (threshold l)) updatedAt (prune (window l)) (maxKeys l) (gcEvery l)
    (entries l, lastGC l) (prod_map Some id <$> reqs).
Proof.
  revert l. induction reqs as [|[k now] reqs IH]; intros l; [done|].
  rewrite fmap_cons. cbn [run keyed_run prod_map id fst snd].
  pose proof (AddAt_keyed l k now) as Hs. destruct (AddAt l k now) as [d l'].
  destruct Hs as (-> & Hw & Hl & Hm & Hg). rewrite IH, Hw, Hl, Hm, Hg. done.
Qed.

Lemma threshold_run_refines (window threshold maxKeys gcEvery : Z) l (S : gset K) reqs k :
  NewThresholdWindow window threshold maxKeys gcEvery = Some l ->
  (forall k' now, (k', now) ∈ reqs -> k' ∈ S) -> Z.of_nat (size S) <= maxKeys ->
  nondecreasing 0 reqs.*2 ->
  of_key k (run l reqs) = solo_run (KeyedMachine0 := machine window threshold) None (of_key k reqs).
Proof.
  intros Hnew Hkeys HS Hnd. unfold NewThresholdWindow in Hnew.
  repeat case_match; simplify_eq. rewrite threshold_run_keyed, <-times_of_requests. simpl.
  apply (keyed_run_refines (KeyedMachine0 := machine window threshold) _ _
           (threshold_prune_lookup window) _ _ S _ _ 0 (fun _ => None)); [| |by rewrite requests_times|..].
  - intros k' now ([k1 t] & [= -> ->] & Hin)%list_elem_of_fmap. by eapply Hkeys.
  - done.
  - set_solver.
  - by intros k' ?.
Qed.

(** An entry has triggered exactly when its count has reached the threshold. *)
Definition inv (threshold : Z) (o : option thresholdEntry) : Prop :=
  match o with
  | None => True
  | Some e => 0 <= count e /\ triggered e = (threshold <=? count e)
  end.

Lemma threshold_solo_inv w threshold o now :
  0 < threshold -> inv threshold o ->
  let '(d, e) := solo w threshold o now in
  Triggered d = (Count d =? threshold) /\ inv threshold (Some e).
Proof.
  intros Hthr Hinv. unfold solo.
  assert (Hfresh : inv threshold (Some (mkEntry now 0 0 false))) by (simpl; split; [done|lia]).
  set (e := match o with None => _ | Some _ => _ end).
  assert (He : inv threshold (Some e)).
  { subst e. destruct o as [e|]; [destruct (w <=? _)|]; done. }
  clearbody e. destruct He as [H0 Ht]. simpl. rewrite Ht. split; [lia|]. split; lia.
Qed.

Lemma solo_run_trigger w threshold times o :
  0 < threshold -> inv threshold o ->
  Forall (fun d => Triggered d = (Count d =? threshold))
    (solo_run (KeyedMachine0 := machine w threshold) o times).
Proof.
  intros Hthr. revert o. induction times as [|now times IH]; intros o Hinv; [constructor|].
  cbn [solo_run km_solo machine]. pose proof (threshold_solo_inv w threshold o now Hthr Hinv) as Hs.
  destruct (solo w threshold o now) as [d e]. destruct Hs. constructor; [done|]. by apply IH.
Qed.

End Threshold.
End ThresholdWindow.

(** ** The failure window ([failure.go]) *)
Module FailureWindow.

Record failureEntry := mkEntry {
  failures : Z; firstFailure : Z; blockedUntil : Z; updatedAt : Z
}.

Definition entryExpired (entry : failureEntry) (now window : Z) : bool :=
  (time_is_zero (blockedUntil entry) || negb (time_before now (blockedUntil entry))) &&
  (time_is_zero (firstFailure entry) || (window <=? time_sub now (firstFailure entry))).

Section Failure.
Context {K : Type} `{Countable K} `{!RangeOrder K}.

Record FailureWindow := mkWindow {
  entries : gmap K failureEntry;
  window : Z;
  threshold : Z;
  blockFor : Z;
  maxKeys : Z;
  gcEvery : Z;
  lastGC : Z;
  tarpitStep : Z;
  tarpitMax : Z
}.

Definition set_entries (m : gmap K failureEntry) (l : FailureWindow) : FailureWindow :=
  mkWindow m (window l) (threshold l) (blockFor l) (maxKeys l) (gcEvery l) (lastGC l)
    (tarpitStep l) (tarpitMax l).

Definition NewFailureWindow (window threshold blockFor maxKeys gcEvery tarpitStep tarpitMax : Z)
  : option FailureWindow :=
  if (window <=? 0) || (threshold <=? 0) || (blockFor <=? 0) || (maxKeys <=? 0) then None
  else Some (mkWindow ∅ window threshold blockFor maxKeys gcEvery 0 tarpitStep tarpitMax).

Definition pruneLocked (l : FailureWindow) (now : Z) : FailureWindow :=
  mkWindow (range_delete (fun e => entryExpired e now (window l)) (entries l))
    (window l) (threshold l) (blockFor l) (maxKeys l) (gcEvery l) now (tarpitStep l) (tarpitMax l).

Definition maybePruneLocked (l : FailureWindow) (now : Z) : FailureWindow :=
  if gc_due (Z.of_nat (size (entries l))) (maxKeys l) (gcEvery l) (lastGC l) now
  then pruneLocked l now else l.

Definition makeRoomLocked (l : FailureWindow) : FailureWindow :=
  set_entries (makeRoom updatedAt (maxKeys l) (entries l)) l.

Definition RecordFailureAt (l : FailureWindow) (key : K) (now : Z) : Z * FailureWindow :=
  let l := maybePruneLocked l now in
  let '(l, entry) :=
    match entries l !! key with
    | None => (makeRoomLocked l, mkEntry 0 0 0 0)
    | Some e => (l, e)
    end in
  let entry :=
    if time_is_zero (firstFailure entry) || (window l <? time_sub now (firstFailure entry))
    then mkEntry 0 now 0 0 else entry in
  let entry := mkEntry (failures entry + 1) (firstFailure entry) (blockedUntil entry) now in
  let entry :=
    if threshold l <=? failures entry
    then mkEntry (failures entry) (firstFailure entry) (time_add now (blockFor l)) (updatedAt entry)
    else entry in
  (failures entry, set_entries (<[key := entry]> (entries l)) l).

(** [BlockedAt] and [TarpitDelayAt] drop the entry of the key when it has expired;
    the first still reports the failures of the dropped entry. *)
Definition dropExpired (l : FailureWindow) (key : K) (now : Z) : bool * FailureWindow :=
  match entries l !! key with
  | None => (false, l)
  | Some e =>
      if entryExpired e now (window l)
      then (false, set_entries (delete key (entries l)) l)
      else (true, l)
  end.

Definition BlockedAt (l : FailureWindow) (key : K) (now : Z) : Decision * FailureWindow :=
  let l := maybePruneLocked l now in
  let entry := from_option id (mkEntry 0 0 0 0) (entries l !! key) in
  let '(exists_, l) := dropExpired l key now in
  if negb exists_ || time_is_zero (blockedUntil entry) || negb (time_before now (blockedUntil entry))
  then (mkDecision true 0 (failures entry), l)
  else (mkDecision false (time_sub (blockedUntil entry) now) (failures entry), l).

Definition TarpitDelayAt (l : FailureWindow) (key : K) (now : Z) : Z * FailureWindow :=
  let l := maybePruneLocked l now in
  let entry := from_option id (mkEntry 0 0 0 0) (entries l !! key) in
  let '(exists_, l) := dropExpired l key now in
  if negb exists_ || (failures entry <? threshold l) || (tarpitStep l <=? 0) then (0, l)
  else
    let over := failures entry - threshold l + 1 in
    let delay := wrap64 (over * tarpitStep l) in
    if (0 <? tarpitMax l) && (tarpitMax l <? delay) then (tarpitMax l, l) else (delay, l).

Definition Reset (l : FailureWindow) (key : K) : FailureWindow :=
  set_entries (delete key (entries l)) l.

Definition ResetAll (l : FailureWindow) : FailureWindow := set_entries ∅ l.

(** The operations of a history, in the order in which they take the lock. *)
Inductive op :=
| ORecord (k : K)
| OBlocked (k : K)
| OTarpit (k : K)
| OReset (k : K).

Definition op_key (o : op) : K :=
  match o with ORecord k | OBlocked k | OTarpit k | OReset k => k end.

Definition apply (l : FailureWindow) (o : op) (now : Z) : FailureWindow :=
  match o with
  | ORecord k => (RecordFailureAt l k now).2
  | OBlocked k => (BlockedAt l k now).2
  | OTarpit k => (TarpitDelayAt l k now).2
  | OReset k => Reset l k
  end.

Fixpoint run (l : FailureWindow) (ops : list (op * Z)) : FailureWindow :=
  match ops with
  | [] => l
  | (o, now) :: ops' => run (apply l o now) ops'
  end.

(** *** Blocks last *)

(** A block in force at [now] survives every sweep up to that time. *)
Lemma blocked_not_expired e now w :
  now < blockedUntil e -> blockedUntil e <> 0 -> entryExpired e now w = false.
Proof. intros. unfold entryExpired, time_is_zero, time_before. lia. Qed.

Lemma maybePrune_keeps l now k e :
  entries l !! k = Some e -> entryExpired e now (window l) = false ->
  entries (maybePruneLocked l now) !! k = Some e.
Proof.
  intros Hk He. unfold maybePruneLocked. destruct (gc_due _ _ _ _ _); [|done].
  unfold pruneLocked. simpl. rewrite range_delete_lookup, Hk. simpl. by rewrite He.
Qed.

Lemma maybePrune_params l now :
  let l' := maybePruneLocked l now in
  window l' = window l /\ threshold l' = threshold l /\ blockFor l' = blockFor l /\
  maxKeys l' = maxKeys l /\ tarpitStep l' = tarpitStep l /\ tarpitMax l' = tarpitMax l /\
  dom (entries l') ⊆ dom (entries l).
Proof.
  unfold maybePruneLocked. destruct (gc_due _ _ _ _ _); [|done].
  repeat split. simpl. apply subseteq_dom, range_delete_subseteq.
Qed.

Lemma dropExpired_other l key now k :
  k <> key -> entries (dropExpired l key now).2 !! k = entries l !! k.
Proof.
  intros Hne. unfold dropExpired. destruct (entries l !! key); [|done].
  destruct (entryExpired _ _ _); [|done]. simpl. by rewrite lookup_delete_ne.
Qed.

Lemma dropExpired_params l key now :
  window (dropExpired l key now).2 = window l /\ maxKeys (dropExpired l key now).2 = maxKeys l /\
  dom (entries (dropExpired l key now).2) ⊆ dom (entries l).
Proof.
  unfold dropExpired. destruct (entries l !! key); [|done].
  destruct (entryExpired _ _ _); [|done]. repeat split. apply subseteq_dom, delete_subseteq.
Qed.

Lemma dropExpired_keeps l key now e :
  entries l !! key = Some e -> entryExpired e now (window l) = false ->
  dropExpired l key now = (true, l).
Proof. intros Hk He. unfold dropExpired. by rewrite Hk, He. Qed.

(** What an operation leaves of the entry of a blocked key [k] it does not record
    a failure for and does not reset, when the traffic fits the key capacity. *)
Lemma apply_keeps_block (S : gset K) l o now k e :
  dom (entries l) ⊆ S -> op_key o ∈ S -> Z.of_nat (size S) <= maxKeys l ->
  entries l !! k = Some e -> now < blockedUntil e -> blockedUntil e <> 0 ->
  o <> ORecord k -> o <> OReset k ->
  entries (apply l o now) !! k = Some e /\ dom (entries (apply l o now)) ⊆ S /\
  window (apply l o now) = window l /\ maxKeys (apply l o now) = maxKeys l.
Proof.
  intros Hdom HoS HS Hk Hnow Hnz HnR HnX.
  pose proof (blocked_not_expired e now (window l) Hnow Hnz) as Hexp.
  pose proof (maybePrune_keeps l now k e Hk Hexp) as Hk1.
  pose proof (maybePrune_params l now) as (Hw & _ & _ & Hm & _ & _ & Hd).
  assert (Hd1 : dom (entries (maybePruneLocked l now)) ⊆ S) by set_solver.
  set (l1 := maybePruneLocked l now) in *.
  assert (Hdrop : forall key, entries (dropExpired l1 key now).2 !! k = Some e /\
            dom (entries (dropExpired l1 key now).2) ⊆ S /\
            window (dropExpired l1 key now).2 = window l /\ maxKeys (dropExpired l1 key now).2 = maxKeys l).
  { intros key. destruct (decide (k = key)) as [->|Hne].
    - rewrite (dropExpired_keeps l1 key now e); [done|done|by rewrite Hw].
    - rewrite dropExpired_other by done. split; [done|].
      destruct (dropExpired_params l1 key now) as (Hw2 & Hm2 & Hd2).
      split; [by etrans|]. split; congruence. }
  destruct o as [k0|k0|k0|k0]; simpl in *.
  - assert (Hne : k0 <> k) by congruence.
    unfold RecordFailureAt. fold l1. destruct (entries l1 !! k0) as [e0|] eqn:Hk0; simpl.
    + rewrite lookup_insert_ne by done. rewrite dom_insert_L. split; [done|]. split; [set_solver|done].
    + rewrite (room_for _ _ _ k0 S) by (done || lia).
      rewrite lookup_insert_ne by done. rewrite dom_insert_L. split; [done|]. split; [set_solver|done].
  - unfold BlockedAt. fold l1. specialize (Hdrop k0). destruct (dropExpired l1 k0 now) as [b l2].
    by destruct (_ || _).
  - unfold TarpitDelayAt. fold l1. specialize (Hdrop k0). destruct (dropExpired l1 k0 now) as [b l2].
    destruct (_ || _); [done|]. by destruct (_ && _).
  - assert (Hne : k0 <> k) by congruence. rewrite lookup_delete_ne by done.
    rewrite dom_delete_L. split; [done|]. split; [set_solver|done].
Qed.

(** The operations during a block: none records a failure for the key or resets it. *)
Definition leaves_alone (S : gset K) (k : K) (until : Z) (p : op * Z) : Prop :=
  op_key p.1 ∈ S /\ p.2 < until /\ p.1 <> ORecord k /\ p.1 <> OReset k.

Lemma run_keeps_block (S : gset K) ops l k e :
  dom (entries l) ⊆ S -> Z.of_nat (size S) <= maxKeys l ->
  entries l !! k = Some e -> blockedUntil e <> 0 ->
  Forall (leaves_alone S k (blockedUntil e)) ops ->
  entries (run l ops) !! k = Some e.
Proof.
  intros Hdom HS Hk Hnz Hops. revert l Hdom HS Hk.
  induction Hops as [|[o t] ops (HoS & Hlt & HnR & HnX) Hops IH]; intros l Hdom HS Hk; [done|].
  simpl in *. destruct (apply_keeps_block S l o t k e) as (Hk' & Hd' & Hw' & Hm'); try done.
  apply IH; [done|by rewrite Hm'|done].
Qed.

(** The answer for a key whose block is in force. *)
Lemma BlockedAt_denies l k e now :
  entries l !! k = Some e -> blockedUntil e <> 0 -> now < blockedUntil e ->
  (BlockedAt l k now).1 = mkDecision false (time_sub (blockedUntil e) now) (failures e).
Proof.
  intros Hk Hnz Hnow.
  pose proof (blocked_not_expired e now (window l) Hnow Hnz) as Hexp.
  pose proof (maybePrune_keeps l now k e Hk Hexp) as Hk1.
  pose proof (maybePrune_params l now) as (Hw & _).
  unfold BlockedAt. rewrite Hk1.
  rewrite (dropExpired_keeps _ k now e); [|done|by rewrite Hw]. simpl.
  unfold time_is_zero, time_before.
  replace ((blockedUntil e =? 0) || negb (now <? blockedUntil e)) with false by lia. done.
Qed.

(** The entry that a failure at or above the threshold leaves. *)
Lemma RecordFailureAt_blocks l k now :
  threshold l <= (RecordFailureAt l k now).1 ->
  exists e, entries (RecordFailureAt l k now).2 !! k = Some e /\
            blockedUntil e = now + blockFor l /\ failures e = (RecordFailureAt l k now).1.
Proof.
  unfold RecordFailureAt. pose proof (maybePrune_params l now) as (Hw & Ht & Hb & _).
  set (l1 := maybePruneLocked l now) in *.
  destruct (entries l1 !! k) as [e|]; simpl; rewrite Ht, ?Hb;
    destruct (threshold l <=? _) eqn:Hc; simpl; intros Hle; try (bools; lia);
    (eexists; split; [apply lookup_insert_eq|done]).
Qed.

End Failure.
End FailureWindow.

(** ** Properties *)

Section Properties.
Context {K : Type} `{Countable K} `{!RangeOrder K}.

(** the eviction of [makeRoomLocked] terminates below the key capacity, keeps only
    entries that were there, and is least-recently-used: an evicted entry was
    updated no later than any entry that stays, whatever order the map is visited in. *)
Theorem makeRoom_evicts_least_recent (l : FixedWindow.FixedWindow (K := K)) :
  0 < FixedWindow.maxKeys l ->
  let l' := FixedWindow.makeRoomLocked l in
  FixedWindow.Len l' < FixedWindow.maxKeys l /\
  FixedWindow.entries l' ⊆ FixedWindow.entries l /\
  (forall k e k' e', FixedWindow.entries l !! k = Some e -> FixedWindow.entries l' !! k = None ->
     FixedWindow.entries l' !! k' = Some e' ->
     FixedWindow.updatedAt e <= FixedWindow.updatedAt e').
Proof. intros Hmax. simpl. apply make_room_spec; [done|lia]. Qed.

(** No operation of the fixed window ever holds more than [maxKeys] entries. *)
Theorem fixed_window_capacity (l : FixedWindow.FixedWindow (K := K)) (k : K) (limit now : Z) :
  0 < FixedWindow.maxKeys l -> FixedWindow.Len l <= FixedWindow.maxKeys l ->
  FixedWindow.Len (FixedWindow.AllowWithLimitAt l k limit now).2 <= FixedWindow.maxKeys l /\
  FixedWindow.Len (FixedWindow.PruneAt l now) <= FixedWindow.maxKeys l /\
  FixedWindow.Len (FixedWindow.Reset l k) <= FixedWindow.maxKeys l /\
  FixedWindow.Len (FixedWindow.ResetAll l) <= FixedWindow.maxKeys l.
Proof.
  intros Hmax Hlen. unfold FixedWindow.Len in *. repeat split.
  - pose proof (FixedWindow.AllowWithLimitAt_keyed l k limit now) as Hs.
    destruct (FixedWindow.AllowWithLimitAt l k limit now) as [d l']. destruct Hs as [Hs _].
    pose proof (keyed_step_size (KeyedMachine0 := FixedWindow.machine (FixedWindow.window l) limit)
      FixedWindow.updatedAt _ (FixedWindow.fixed_prune_lookup _) (FixedWindow.maxKeys l)
      (FixedWindow.gcEvery l) (FixedWindow.entries l, FixedWindow.lastGC l) k now Hmax Hlen) as Hsz.
    rewrite Hs in Hsz. exact Hsz.
  - simpl. etrans; [|done]. apply inj_le, map_subseteq_size, range_delete_subseteq.
  - simpl. etrans; [|done]. apply inj_le, map_subseteq_size, delete_subseteq.
  - simpl. rewrite map_size_empty. lia.
Qed.

(** a fixed-window limiter whose traffic uses at most [maxKeys] distinct keys
    answers every key exactly as an independent counter that only sees the
    requests of that key: sweeps, background janitor ticks and the other keys
    are not observable. *)
Theorem fixed_window_refines (window limit maxKeys gcEvery : Z)
    (l : FixedWindow.FixedWindow (K := K)) (S : gset K) (events : list (option K * Z)) (k : K) :
  FixedWindow.NewFixedWindow window limit maxKeys gcEvery = Some l ->
  (forall k' now, (Some k', now) ∈ events -> k' ∈ S) -> Z.of_nat (size S) <= maxKeys ->
  nondecreasing 0 events.*2 ->
  of_key k (FixedWindow.run l events) =
  solo_run (KeyedMachine0 := FixedWindow.machine window limit) None (times_of k events).
Proof. apply FixedWindow.fixed_run_refines. Qed.

(** in every interval of one window length, a fixed-window limiter grants at
    most twice its limit to a key (the interval may straddle two windows). *)
Theorem fixed_window_bound (window limit maxKeys gcEvery : Z)
    (l : FixedWindow.FixedWindow (K := K)) (S : gset K) (events : list (option K * Z)) (k : K) (t : Z) :
  FixedWindow.NewFixedWindow window limit maxKeys gcEvery = Some l -> window <= int64_max ->
  (forall k' now, (Some k', now) ∈ events -> k' ∈ S) -> Z.of_nat (size S) <= maxKeys ->
  nondecreasing 0 events.*2 ->
  in_interval t window (granted (times_of k events) (of_key k (FixedWindow.run l events)))
    <= 2 * Z.max 0 limit.
Proof.
  intros Hnew Hw Hkeys HS Hnd.
  rewrite (FixedWindow.fixed_run_refines window limit maxKeys gcEvery l S) by done.
  assert (0 < window) by (unfold FixedWindow.NewFixedWindow in Hnew; repeat case_match; [done|done|bools; lia]).
  apply (FixedWindow.fixed_solo_run_bound _ _ _ None [] 0); [lia| |by apply times_of_nondecreasing].
  repeat split; [set_solver|]. intros ?. unfold in_interval, count_of. simpl. lia.
Qed.

(** C24: a sliding-window limiter grants a key at most its limit in every interval of one
    window length, when the traffic fits its key capacity and the requests come in the order
    of their times.  Requests read the clock before they take the lock: when a time may be up
    to [skew] before the one of an earlier request, the bound holds in every interval of one
    window length less [skew]. *)
Theorem sliding_window_bound (window limit maxKeys gcEvery skew : Z)
    (l : SlidingWindow.SlidingWindow (K := K)) (S : gset K) (reqs : list (K * Z)) (k : K) (t : Z) :
  SlidingWindow.NewSlidingWindow window limit maxKeys gcEvery = Some l ->
  (forall k' now, (k', now) ∈ reqs -> k' ∈ S) -> Z.of_nat (size S) <= maxKeys ->
  0 <= skew -> SlidingWindow.skewed skew reqs.*2 ->
  in_interval t (window - skew) (granted (of_key k reqs) (of_key k (SlidingWindow.run l reqs)))
    <= Z.max 0 limit.
Proof.
  intros Hnew Hkeys HS Hskew Hsk. unfold SlidingWindow.NewSlidingWindow in Hnew. repeat case_match; simplify_eq.
  apply (SlidingWindow.sliding_run_grants window limit skew Hskew S k t reqs _ []); try done.
  - intros u. unfold in_interval, count_of. simpl. lia.
  - exists []. simpl. rewrite lookup_empty. split; [done|]. set_solver.
Qed.

(** the threshold window raises its alarm exactly at the request that brings
    the count of the current window to the threshold, so at most once per window. *)
Theorem threshold_window_triggers_once (window threshold maxKeys gcEvery : Z)
    (l : ThresholdWindow.ThresholdWindow (K := K)) (S : gset K) (reqs : list (K * Z)) (k : K) :
  ThresholdWindow.NewThresholdWindow window threshold maxKeys gcEvery = Some l ->
  (forall k' now, (k', now) ∈ reqs -> k' ∈ S) -> Z.of_nat (size S) <= maxKeys ->
  nondecreasing 0 reqs.*2 ->
  Forall (fun d => ThresholdWindow.Triggered d = (ThresholdWindow.Count d =? threshold))
    (of_key k (ThresholdWindow.run l reqs)).
Proof.
  intros Hnew Hkeys HS Hnd.
  rewrite (ThresholdWindow.threshold_run_refines window threshold maxKeys gcEvery l S) by done.
  apply ThresholdWindow.solo_run_trigger; [|done].
  unfold ThresholdWindow.NewThresholdWindow in Hnew. case_match; [done|]. bools. lia.
Qed.

(** once a failure reaches the threshold, the key is denied at every later time
    before the block ends, with the remaining time as [RetryAfter], whatever
    queries are made and whatever failures other keys record meanwhile. *)
Theorem failure_window_block_lasts (l : FailureWindow.FailureWindow (K := K)) (S : gset K) (k : K)
    (now now' : Z) (ops : list (FailureWindow.op (K := K) * Z)) :
  FailureWindow.threshold l <= (FailureWindow.RecordFailureAt l k now).1 ->
  let until := now + FailureWindow.blockFor l in
  let l1 := (FailureWindow.RecordFailureAt l k now).2 in
  dom (FailureWindow.entries l1) ⊆ S -> Z.of_nat (size S) <= FailureWindow.maxKeys l1 ->
  0 < until -> now' < until ->
  Forall (FailureWindow.leaves_alone S k until) ops ->
  (FailureWindow.BlockedAt (FailureWindow.run l1 ops) k now').1 =
  mkDecision false (time_sub until now') (FailureWindow.RecordFailureAt l k now).1.
Proof.
  intros Hthr until l1 Hdom HS Hun Hnow' Hops.
  destruct (FailureWindow.RecordFailureAt_blocks l k now Hthr) as (e & Hk & Hb & Hf).
  fold l1 in Hk. fold until in Hb.
  rewrite (FailureWindow.BlockedAt_denies _ k e); [by rewrite Hb, Hf| |lia|lia].
  apply (FailureWindow.run_keeps_block S); try done; [lia|]. by rewrite Hb.
Qed.

(** The tarpit delay of a key is between zero and the configured maximum when
    the product of the excess failures and the step does not overflow. *)
Theorem failure_window_tarpit_bounds (l : FailureWindow.FailureWindow (K := K)) (k : K) (now : Z) :
  0 < FailureWindow.tarpitMax l ->
  (forall e, FailureWindow.entries l !! k = Some e ->
     (FailureWindow.failures e - FailureWindow.threshold l + 1) * FailureWindow.tarpitStep l <= int64_max) ->
  0 <= (FailureWindow.TarpitDelayAt l k now).1 <= FailureWindow.tarpitMax l.
Proof.
  intros Hmax Hov. unfold FailureWindow.TarpitDelayAt.
  pose proof (FailureWindow.maybePrune_params l now) as (Hw & Ht & _ & _ & Hs & Hm & _).
  assert (Hsub : FailureWindow.entries (FailureWindow.maybePruneLocked l now) ⊆ FailureWindow.entries l).
  { unfold FailureWindow.maybePruneLocked. destruct (gc_due _ _ _ _ _); [|done].
    apply range_delete_subseteq. }
  set (l1 := FailureWindow.maybePruneLocked l now) in *.
  unfold FailureWindow.dropExpired. destruct (FailureWindow.entries l1 !! k) as [e|] eqn:Hk; [|simpl; lia].
  destruct (FailureWindow.entryExpired _ _ _); [simpl; lia|]. simpl. rewrite Ht, Hs, Hm.
  destruct (_ || _) eqn:Hc; [simpl; lia|]. bools.
  specialize (Hov e (lookup_weaken _ _ _ _ Hk Hsub)).
  rewrite wrap64_id by (unfold in_int64, int64_min; nia).
  destruct (_ && _) eqn:Hc2; simpl; [lia|]. bools. nia.
Qed.

(** a failure recorded for a blocked key after its counting window has passed
    restarts the entry and lifts the block: the key is allowed again before the
    block time it was given. *)
Theorem failure_window_record_lifts_block (l : FailureWindow.FailureWindow (K := K)) (k : K)
    (e : FailureWindow.failureEntry) (now : Z) :
  FailureWindow.entries l !! k = Some e -> 1 < FailureWindow.threshold l ->
  FailureWindow.blockedUntil e <> 0 -> now < FailureWindow.blockedUntil e ->
  FailureWindow.window l < time_sub now (FailureWindow.firstFailure e) ->
  Allowed (FailureWindow.BlockedAt l k now).1 = false /\
  Allowed (FailureWindow.BlockedAt (FailureWindow.RecordFailureAt l k now).2 k now).1 = true.
Proof.
  intros Hk Hthr Hnz Hnow Hwin. split; [by erewrite FailureWindow.BlockedAt_denies|].
  assert (He : exists e', FailureWindow.entries (FailureWindow.RecordFailureAt l k now).2 !! k = Some e' /\
            FailureWindow.blockedUntil e' = 0).
  { pose proof (FailureWindow.blocked_not_expired e now (FailureWindow.window l) Hnow Hnz) as Hexp.
    pose proof (FailureWindow.maybePrune_params l now) as (Hw & Ht & _).
    unfold FailureWindow.RecordFailureAt.
    rewrite (FailureWindow.maybePrune_keeps l now k e Hk Hexp), Hw, Ht.
    replace (FailureWindow.window l <? _) with true by lia. rewrite orb_true_r. simpl.
    eexists. split; [apply lookup_insert_eq|].
    replace (FailureWindow.threshold l <=? 0 + 1) with false by lia. reflexivity. }
  destruct He as (e' & Hk' & Hb). unfold FailureWindow.BlockedAt.
  set (l2 := FailureWindow.maybePruneLocked _ now).
  assert (Hor : FailureWindow.entries l2 !! k = None \/ FailureWindow.entries l2 !! k = Some e').
  { subst l2. unfold FailureWindow.maybePruneLocked. destruct (gc_due _ _ _ _ _); [|by right].
    simpl. rewrite range_delete_lookup, Hk'. simpl. case_match; auto. }
  unfold FailureWindow.dropExpired. destruct Hor as [->| ->]; [reflexivity|].
  destruct (FailureWindow.entryExpired _ _ _); simpl; rewrite ?Hb; reflexivity.
Qed.

End Properties.

(** ** Concrete runs *)
#[local] Instance nat_order : RangeOrder nat := canonical_order nat.

Definition demo_fixed : FixedWindow.FixedWindow (K := nat) :=
  FixedWindow.mkWindow
    (<[1%nat := FixedWindow.mkEntry 5 6 1]> (<[2%nat := FixedWindow.mkEntry 5 9 1]> ∅)) 10 2 2 0 0.

Lemma makeRoom_evicts_least_recent_witness :
  FixedWindow.Len (FixedWindow.makeRoomLocked demo_fixed) < 2 /\
  FixedWindow.entries (FixedWindow.makeRoomLocked demo_fixed) !! 1%nat = None.
Proof.
  split; [|vm_compute; reflexivity].
  apply (makeRoom_evicts_least_recent demo_fixed). vm_compute. reflexivity.
Defined.

Lemma fixed_window_capacity_witness :
  FixedWindow.Len (FixedWindow.AllowWithLimitAt demo_fixed 3%nat 2 7).2 <= 2.
Proof.
  apply (fixed_window_capacity demo_fixed 3%nat 2 7); vm_compute; [reflexivity|discriminate].
Defined.

(** Two keys, a janitor tick, a refused third request and a new window. *)
Definition demo_events : list (option nat * Z) :=
  [(Some 1%nat, 1); (Some 1%nat, 2); (Some 2%nat, 3); (Some 1%nat, 4); (None, 9); (Some 1%nat, 12)].

Definition demo_limiter : FixedWindow.FixedWindow (K := nat) := FixedWindow.mkWindow ∅ 10 2 4 5 0.

Lemma demo_events_keys k now : (Some k, now) ∈ demo_events -> k ∈ ({[1; 2]} : gset nat)%nat.
Proof. unfold demo_events. set_solver. Qed.

Lemma fixed_window_refines_witness :
  of_key 1%nat (FixedWindow.run demo_limiter demo_events) =
  [mkDecision true 0 1; mkDecision true 0 2; mkDecision false 7 2; mkDecision true 0 1].
Proof.
  rewrite (fixed_window_refines 10 2 4 5 demo_limiter {[1; 2]}%nat demo_events 1%nat);
    [vm_compute; reflexivity|reflexivity|exact demo_events_keys|vm_compute; discriminate|simpl; lia].
Defined.

Lemma fixed_window_bound_witness :
  in_interval 12 10 (granted (times_of 1%nat demo_events)
    (of_key 1%nat (FixedWindow.run demo_limiter demo_events))) <= 2 * Z.max 0 2.
Proof.
  apply (fixed_window_bound 10 2 4 5 demo_limiter {[1; 2]}%nat demo_events 1%nat 12);
    [reflexivity|vm_compute; discriminate|exact demo_events_keys|vm_compute; discriminate|simpl; lia].
Defined.

Definition demo_reqs : list (nat * Z) :=
  [(1%nat, 1); (1%nat, 2); (2%nat, 3); (1%nat, 4); (1%nat, 12)].

Lemma demo_reqs_keys k now : (k, now) ∈ demo_reqs -> k ∈ ({[1; 2]} : gset nat)%nat.
Proof. unfold demo_reqs. set_solver. Qed.

(** A limiter with sweeps whose requests read the clock up to two units apart: the last one
    has a time before the last sweep, and is granted although the window before it has two
    grants. *)
Definition skewed_reqs : list (nat * Z) := [(1%nat, 5); (1%nat, 6); (2%nat, 16); (1%nat, 14)].

Definition skewed_limiter : SlidingWindow.SlidingWindow (K := nat) := SlidingWindow.mkWindow ∅ 10 2 4 1 0.

Definition skewed_grants : list Z := granted (of_key 1%nat skewed_reqs) (of_key 1%nat (SlidingWindow.run skewed_limiter skewed_reqs)).

Lemma sliding_window_bound_witness : skewed_grants = [5; 6; 14] /\ in_interval 14 10 skewed_grants = 3 /\ in_interval 14 (10 - 2) skewed_grants <= Z.max 0 2.
Proof.
  split; [vm_compute; reflexivity|]. split; [vm_compute; reflexivity|].
  apply (sliding_window_bound 10 2 4 1 2 skewed_limiter {[1; 2]}%nat skewed_reqs 1%nat 14);
    [reflexivity|unfold skewed_reqs; set_solver|vm_compute; discriminate|lia|].
  unfold SlidingWindow.skewed. simpl. repeat constructor; lia.
Defined.

Lemma threshold_window_triggers_once_witness :
  Forall (fun d => ThresholdWindow.Triggered d = (ThresholdWindow.Count d =? 2))
    (of_key 1%nat (ThresholdWindow.run (ThresholdWindow.mkWindow ∅ 10 2 4 0 0) demo_reqs)).
Proof.
  apply (threshold_window_triggers_once 10 2 4 0 (ThresholdWindow.mkWindow ∅ 10 2 4 0 0)
           {[1; 2]}%nat demo_reqs 1%nat);
    [reflexivity|exact demo_reqs_keys|vm_compute; discriminate|simpl; lia].
Defined.

(** A login limiter (window and block of 15, threshold 2) with one recorded failure. *)
Definition demo_failures : FailureWindow.FailureWindow (K := nat) :=
  FailureWindow.mkWindow (<[1%nat := FailureWindow.mkEntry 1 1 0 1]> ∅) 15 2 15 4 0 0 1 8.

Lemma failure_window_block_lasts_witness :
  (FailureWindow.BlockedAt
     (FailureWindow.run (FailureWindow.RecordFailureAt demo_failures 1%nat 10).2
        [(FailureWindow.ORecord 2%nat, 11); (FailureWindow.OBlocked 1%nat, 16)]) 1%nat 20).1
  = mkDecision false 5 2.
Proof.
  apply (failure_window_block_lasts demo_failures {[1; 2]}%nat 1%nat 10 20
           [(FailureWindow.ORecord 2%nat, 11); (FailureWindow.OBlocked 1%nat, 16)]);
    [vm_compute; discriminate|by_decision|vm_compute; discriminate
    |vm_compute; reflexivity|vm_compute; reflexivity|].
  repeat constructor; vm_compute; try discriminate; set_solver.
Defined.

Lemma failure_window_tarpit_bounds_witness :
  0 <= (FailureWindow.TarpitDelayAt demo_failures 1%nat 2).1 <= 8.
Proof.
  apply (failure_window_tarpit_bounds demo_failures 1%nat 2); [vm_compute; reflexivity|].
  intros e He. vm_compute in He. injection He as <-. vm_compute. discriminate.
Defined.

Definition demo_blocked : FailureWindow.FailureWindow (K := nat) :=
  (FailureWindow.RecordFailureAt demo_failures 1%nat 10).2.

Lemma failure_window_record_lifts_block_witness :
  Allowed (FailureWindow.BlockedAt demo_blocked 1%nat 17).1 = false /\
  Allowed (FailureWindow.BlockedAt (FailureWindow.RecordFailureAt demo_blocked 1%nat 17).2 1%nat 17).1 = true.
Proof.
  apply (failure_window_record_lifts_block demo_blocked 1%nat (FailureWindow.mkEntry 2 1 25 10) 17);
    vm_compute; (reflexivity || discriminate).
Defined.
