(* ===== verification/BrokerProtocol.v ===== *)
(** * The privileged broker: protocol ([internal/ops/privilegedbroker])

    The panel reaches root only through typed verbs sent to this broker.  The
    file holds the wire data of [protocol.go], its identifier patterns, the
    validation of a request against the definition of its verb, the registry of
    verbs, the length-prefixed frames, and the closed vocabulary of [audit.go]. *)

From S2P Require Import Prelude GoStrings.

Open Scope string_scope.
Open Scope Z_scope.

Definition ProtocolVersion : Z := 1.
Definition CapabilityRevision : string := "broker-capabilities-1.3".
Definition MaxRequestBytes : Z := 1048576.
Definition MaxResponseBytes : Z := 262144.
Definition MaxArtifactBytes : Z := 524288.

Definition Role := string.
Definition RolePanel : Role := "panel".
Definition RoleSSHProof : Role := "ssh-proof".

Definition Verb := string.
Definition VerbCapabilities : Verb := "broker.capabilities.observe".
Definition VerbSSHObserve : Verb := "ssh.posture.observe".
Definition VerbSSHPrepare : Verb := "ssh.policy.prepare".
Definition VerbSSHStage : Verb := "ssh.dropin.stage".
Definition VerbSSHRecoverStage : Verb := "ssh.dropin.stage.recover".
Definition VerbSSHReleaseStage : Verb := "ssh.dropin.stage.release".
Definition VerbSSHValidate : Verb := "ssh.dropin.validate".
Definition VerbSSHReload : Verb := "ssh.service.reload".
Definition VerbSSHArm : Verb := "ssh.reconnect.arm".
Definition VerbSSHRestore : Verb := "ssh.dropin.restore".
Definition VerbSSHInspect : Verb := "ssh.dropin.inspect".
Definition VerbSSHVerify : Verb := "ssh.reconnect.verify".
Definition VerbSSHProof : Verb := "ssh.reconnect.proof".
Definition VerbDeploymentObserve : Verb := "deployment.posture.observe".
Definition VerbDeploymentDoctor : Verb := "deployment.doctor.observe".
Definition VerbDeploymentPrepare : Verb := "deployment.migration.prepare".
Definition VerbDeploymentRelease : Verb := "deployment.checkpoint.release".
Definition VerbDeploymentApply : Verb := "deployment.migration.apply".
Definition VerbDeploymentVerify : Verb := "deployment.migration.verify".
Definition VerbDeploymentRollback : Verb := "deployment.migration.rollback".
Definition VerbUpdateObserve : Verb := "update.release.observe".
Definition VerbUpdateStage : Verb := "update.artifact.stage".
Definition VerbUpdateRelease : Verb := "update.staging.release".
Definition VerbUpdatePrepare : Verb := "update.release.prepare".
Definition VerbUpdateActivate : Verb := "update.release.activate".
Definition VerbUpdateVerify : Verb := "update.release.verify".
Definition VerbUpdateRollback : Verb := "update.release.rollback".

Record Fence := mkFence { fResource : string; fSequence : Z; fToken : string }.

Record Revisions := mkRevisions {
  rvProvider : string; rvBinary : string; rvService : string; rvConfiguration : string
}.

Record Request := mkRequest {
  rqProtocolVersion : Z;
  rqCapabilityRevision : string;
  rqBootID : string;
  rqRole : Role;
  rqVerb : Verb;
  rqRequestID : string;
  rqOperationID : string;
  rqIdempotencyKey : string;
  rqFence : Fence;
  rqExpected : Revisions;
  rqDeadlineAt : Z;
  rqPurpose : string;
  rqRecoveryRef : string;
  rqPayloadDigest : string;
  rqPayload : string
}.

Definition ErrorCode := string.
Definition CodeInvalidRequest : ErrorCode := "invalid_request".
Definition CodeUnauthorized : ErrorCode := "unauthorized_peer".
Definition CodeUnsupported : ErrorCode := "unsupported_verb".
Definition CodeCapability : ErrorCode := "capability_unavailable".
Definition CodeDeadline : ErrorCode := "deadline_exceeded".
Definition CodeIdempotency : ErrorCode := "idempotency_conflict".
Definition CodeFence : ErrorCode := "stale_fence".
Definition CodeRevision : ErrorCode := "revision_mismatch".
Definition CodeRecoveryRequired : ErrorCode := "recovery_required".
Definition CodeValidation : ErrorCode := "validation_failed".
Definition CodeExecution : ErrorCode := "execution_failed".
Definition CodeInternal : ErrorCode := "internal_error".

Record Receipt := mkReceipt {
  rcSequence : Z;
  rcRequestID : string;
  rcOperationID : string;
  rcIdempotencyKey : string;
  rcVerb : Verb;
  rcFenceResource : string;
  rcFenceSequence : Z;
  rcFenceTokenDigest : string;
  rcPayloadDigest : string;
  rcResponseDigest : string;
  rcPeerRevision : string;
  rcBrokerBootID : string;
  rcPreviousDigest : string;
  rcOutcome : string;
  rcStartedAt : Z;
  rcCompletedAt : Z;
  rcReceiptDigest : string
}.

Record Response := mkResponse {
  rsProtocolVersion : Z;
  rsCapabilityRevision : string;
  rsRequestID : string;
  rsOperationID : string;
  rsVerb : Verb;
  rsOK : bool;
  rsCode : ErrorCode;
  rsMessage : string;
  rsReplay : bool;
  rsReceipt : option Receipt;
  rsPayloadDigest : string;
  rsPayload : string
}.

#[export] Instance Receipt_eq_dec : EqDecision Receipt.
Proof. solve_decision. Defined.
#[export] Instance Response_eq_dec : EqDecision Response.
Proof. solve_decision. Defined.

(** The fields of an attested peer that the broker core reads. *)
Record PeerIdentity := mkPeer {
  pCapabilitiesOnly : bool; pBootID : string; pManifestRevision : string; pRevision : string
}.

(** The errors of the broker: a public failure with a code, an expired or
    cancelled context, or any other error. *)
Inductive brokerError :=
| PublicError (code : ErrorCode) (safe : string)
| ContextError
| PlainError (text : string).

Definition Failure (code : ErrorCode) (safe : string) : brokerError := PublicError code safe.

(** ** Patterns *)

(** [^[A-Za-z0-9][A-Za-z0-9._:@+-]{0,127}$] *)
Definition safeIdentifier (value : string) : bool :=
  match value with
  | "" => false
  | String c rest =>
      is_alnum c && all_chars (fun d => is_alnum d || char_in d "._:@+-") rest && (slen rest <=? 127)
  end.

(** [^[a-z][a-z0-9_.-]{2,95}$] *)
Definition validVerb (value : string) : bool :=
  match value with
  | "" => false
  | String c rest =>
      is_lower c && all_chars (fun d => is_lower d || is_digit d || char_in d "_.-") rest &&
      (2 <=? slen rest) && (slen rest <=? 95)
  end.

(** [^[a-f0-9]{64}$] *)
Definition digestPattern (value : string) : bool :=
  all_chars (fun d => between 97 102 d || is_digit d) value && (slen value =? 64).

(** ** Definitions of verbs and their registry
    The handler itself lives with the server; [dHandler] says whether one is set. *)
Record Definition_ := mkDefinition {
  dRole : Role;
  dMutation : bool;
  dRetainResultUntilRelease : bool;
  dReleasesRetainedResultVerb : Verb;
  dHandler : bool
}.

Definition Registry := gmap Verb Definition_.

Inductive registerError := InvalidDefinition | AlreadyRegistered.

Definition Register (r : gmap Verb Definition_) (verb : Verb) (d : Definition_)
  : result registerError (gmap Verb Definition_) :=
  if negb (validVerb verb) || negb (dHandler d) ||
     (negb (String.eqb (dRole d) RolePanel) && negb (String.eqb (dRole d) RoleSSHProof)) ||
     (negb (dMutation d) &&
       (dRetainResultUntilRelease d || negb (String.eqb (dReleasesRetainedResultVerb d) ""))) ||
     (negb (String.eqb (dReleasesRetainedResultVerb d) "") && negb (validVerb (dReleasesRetainedResultVerb d)))
  then Err InvalidDefinition
  else match r !! verb with
       | Some _ => Err AlreadyRegistered
       | None => Ok (<[verb := d]> r)
       end.

Definition definition (r : gmap Verb Definition_) (verb : Verb) : option Definition_ := r !! verb.

(** ** Validation of a request *)

(** Milliseconds since the Unix epoch; the epoch is 62135596800 s after Go's zero time. *)
Definition unix_epoch : Z := 62135596800 * second.
Definition UnixMilli (t : Z) : Z := (t - unix_epoch) / millisecond.

Section Validate.
(** [Digest] is the hexadecimal SHA-256 of its argument. *)
Context (Digest : string -> string).

Definition Validate (r : Request) (now : Z) (d : Definition_) : option brokerError :=
  if negb (rqProtocolVersion r =? ProtocolVersion) ||
     negb (String.eqb (rqCapabilityRevision r) CapabilityRevision)
  then Some (Failure CodeCapability "broker protocol revision is unsupported")
  else if negb (String.eqb (rqRole r) (dRole d)) || negb (validVerb (rqVerb r)) ||
     negb (safeIdentifier (rqRequestID r)) || negb (safeIdentifier (rqOperationID r)) ||
     String.eqb (rqBootID r) "" || negb (safeIdentifier ("boot-" +:+ rqBootID r))
  then Some (Failure CodeInvalidRequest "broker request identity is invalid")
  else if (rqDeadlineAt r <=? UnixMilli now) || (UnixMilli (time_add now (2 * minute)) <? rqDeadlineAt r)
  then Some (Failure CodeDeadline "broker request deadline is invalid")
  else if (slen (rqPayload r) =? 0) || (MaxArtifactBytes * 2 <? slen (rqPayload r)) ||
     negb (digestPattern (rqPayloadDigest r)) || negb (String.eqb (Digest (rqPayload r)) (rqPayloadDigest r))
  then Some (Failure CodeInvalidRequest "broker payload identity is invalid")
  else if (128 <? slen (rqPurpose r)) || (256 <? slen (rqRecoveryRef r))
  then Some (Failure CodeInvalidRequest "broker request metadata is too large")
  else
    let f := rqFence r in
    if dMutation d &&
       (negb (safeIdentifier (rqIdempotencyKey r)) || negb (safeIdentifier (fResource f)) ||
        (fSequence f =? 0) || negb (digestPattern (fToken f)))
    then Some (Failure CodeInvalidRequest "broker mutation authority is invalid")
    else if negb (dMutation d) &&
       (negb (String.eqb (rqIdempotencyKey r) "") || negb (String.eqb (fResource f) "") ||
        negb (fSequence f =? 0) || negb (String.eqb (fToken f) ""))
    then Some (Failure CodeInvalidRequest "read-only broker verb contains mutation authority")
    else
      let e := rqExpected r in
      if forallb (fun rev => String.eqb rev "" || digestPattern rev)
           [rvProvider e; rvBinary e; rvService e; rvConfiguration e]
      then None
      else Some (Failure CodeInvalidRequest "expected revision is malformed").

End Validate.

Definition publicFailure (err : brokerError) : ErrorCode * string :=
  match err with
  | PublicError code safe =>
      if String.eqb code "" then (CodeInternal, "broker operation failed")
      else (code, TrimSpace safe)
  | ContextError => (CodeDeadline, "broker operation deadline expired")
  | PlainError _ => (CodeInternal, "broker operation failed")
  end.

Definition successResponse (r : Request) : Response :=
  mkResponse ProtocolVersion CapabilityRevision (rqRequestID r) (rqOperationID r) (rqVerb r)
    true "" "" false None "" "".

Definition failureResponse (r : Request) (code : ErrorCode) (message : string) : Response :=
  let message := if 160 <? slen message then "broker operation failed" else message in
  mkResponse ProtocolVersion CapabilityRevision (rqRequestID r) (rqOperationID r) (rqVerb r)
    false code message false None "" "".

(** ** Frames: a big-endian 32-bit length and the JSON text *)
Definition byte_of (z : Z) : Ascii.ascii := Ascii.ascii_of_nat (Z.to_nat (z mod 256)).

Definition PutUint32 (n : Z) : string :=
  String (byte_of (n / 2 ^ 24)) (String (byte_of (n / 2 ^ 16))
    (String (byte_of (n / 2 ^ 8)) (String (byte_of n) ""))).

Inductive frameError := FrameTooLarge | FrameLength | FrameTruncated.

(** The bytes that [WriteFrame] puts on the connection for the encoded value. *)
Definition WriteFrame (data : string) (limit : Z) : result frameError string :=
  if (slen data =? 0) || (limit <? slen data) then Err FrameTooLarge
  else Ok (PutUint32 (slen data mod 2 ^ 32) +:+ data).

Fixpoint take_chars (n : nat) (s : string) : string :=
  match n, s with
  | O, _ => ""
  | _, "" => ""
  | S n', String c s' => String c (take_chars n' s')
  end.

(** The encoded value that [ReadFrame] hands to the decoder, and the unread bytes. *)
Definition ReadFrame (stream : string) (limit : Z) : result frameError (string * string) :=
  match stream with
  | String a (String b (String c (String d rest))) =>
      let length := code a * 2 ^ 24 + code b * 2 ^ 16 + code c * 2 ^ 8 + code d in
      if (length <=? 0) || (limit <? length) then Err FrameLength
      else if slen rest <? length then Err FrameTruncated
      else Ok (take_chars (Z.to_nat length) rest, drop_chars (Z.to_nat length) rest)
  | _ => Err FrameTruncated
  end.

(** ** Audit vocabulary ([audit.go]) *)
Definition known_verbs : list Verb :=
  [VerbCapabilities; VerbSSHObserve; VerbSSHPrepare; VerbSSHStage; VerbSSHRecoverStage;
   VerbSSHReleaseStage; VerbSSHValidate; VerbSSHReload; VerbSSHArm; VerbSSHRestore; VerbSSHInspect;
   VerbSSHVerify; VerbSSHProof; VerbDeploymentObserve; VerbDeploymentDoctor; VerbDeploymentPrepare;
   VerbDeploymentRelease; VerbDeploymentApply; VerbDeploymentVerify; VerbDeploymentRollback;
   VerbUpdateObserve; VerbUpdateStage; VerbUpdateRelease; VerbUpdatePrepare; VerbUpdateActivate;
   VerbUpdateVerify; VerbUpdateRollback].

Definition one_of (values : list string) (v : string) : bool := existsb (String.eqb v) values.

Definition sanitizeAuditVerb (verb : Verb) : Verb :=
  if one_of known_verbs verb then verb
  else if one_of ["unknown"; "invalid"] verb then verb
  else if validVerb verb then "unknown" else "invalid".

Definition sanitizeAuditOperation (value : string) : string :=
  if one_of [""; "absent"] value then "absent"
  else if one_of ["present"; "invalid"] value then value
  else if safeIdentifier value then "present" else "invalid".

Definition sanitizeAuditDigest (value : string) : string :=
  if digestPattern value then value else "".

Definition attestation_classes : list string :=
  ["peer_credentials_unavailable"; "peer_uid_gid_mismatch"; "peer_executable_mismatch";
   "peer_role_not_authorized"; "peer_manifest_identity_ambiguous"; "peer_namespace_mismatch";
   "peer_process_identity_mismatch"; "peer_start_identity_mismatch"; "peer_boot_identity_mismatch";
   "peer_supervision_identity_mismatch"; "peer_cgroup_policy_mismatch"; "peer_liveness_unavailable";
   "peer_connector_death"; "peer_writer_mismatch"; "peer_generation_mismatch";
   "peer_attestation_internal_failure"].

Definition sanitizePeerAttestation (value : string) : string :=
  if one_of ("" :: attestation_classes) value then value else "peer_attestation_internal_failure".

Definition audit_phases : list string :=
  ["initial_attestation"; "request_receive"; "final_recheck"; "dispatch_gate"].

Definition sanitizeAuditPhase (value : string) : string :=
  if one_of audit_phases value then value else "dispatch_gate".

Definition audit_results : list string :=
  ["success"; "replay"; "denied_peer"; "audit_queue_saturated"; "denied_invalid_request";
   "denied_unauthorized_peer"; "denied_unsupported_verb"; "denied_capability_unavailable";
   "denied_deadline_exceeded"; "denied_idempotency_conflict"; "denied_stale_fence";
   "denied_revision_mismatch"; "denied_recovery_required"; "denied_validation_failed";
   "denied_execution_failed"; "denied_internal_error"].

Definition sanitizeAuditResult (value : string) : string :=
  if one_of audit_results value then value else "denied_internal_error".

Definition audit_durations : list string :=
  ["lt_10ms"; "lt_100ms"; "lt_1s"; "lt_10s"; "gte_10s"; "not_measured"].

Definition sanitizeAuditDuration (value : string) : string :=
  if one_of audit_durations value then value else "not_measured".

Definition sanitizeRevisionTransition (value : string) : string :=
  if String.eqb value "expected_revision_present" then value else "none".

Definition sanitizeRecoveryClass (value : string) : string :=
  if String.eqb value "manual_recovery_required" then value else "none".

(** The owner domain of a verb, for audit events. *)
Definition ownerDomain (verb : Verb) : string :=
  let v := sanitizeAuditVerb verb in
  if one_of [VerbSSHObserve; VerbSSHPrepare; VerbSSHStage; VerbSSHRecoverStage; VerbSSHReleaseStage;
             VerbSSHValidate; VerbSSHReload; VerbSSHArm; VerbSSHRestore; VerbSSHInspect; VerbSSHVerify;
             VerbSSHProof] v then "ssh"
  else if one_of [VerbDeploymentObserve; VerbDeploymentDoctor; VerbDeploymentPrepare;
             VerbDeploymentApply; VerbDeploymentVerify; VerbDeploymentRollback] v then "deployment"
  else if one_of [VerbUpdateObserve; VerbUpdateStage; VerbUpdateRelease; VerbUpdatePrepare;
             VerbUpdateActivate; VerbUpdateVerify; VerbUpdateRollback] v then "update"
  else "broker".

Definition durationClass (elapsed : Z) : string :=
  if elapsed <? 10 * millisecond then "lt_10ms"
  else if elapsed <? 100 * millisecond then "lt_100ms"
  else if elapsed <? second then "lt_1s"
  else if elapsed <? 10 * second then "lt_10s"
  else "gte_10s".

Definition auditResultClass (code : ErrorCode) : string :=
  if one_of [CodeInvalidRequest; CodeUnauthorized; CodeUnsupported; CodeCapability; CodeDeadline;
             CodeIdempotency; CodeFence; CodeRevision; CodeRecoveryRequired; CodeValidation;
             CodeExecution; CodeInternal] code
  then code else CodeInternal.

(** ** Frames *)
Lemma code_byte_of z : code (byte_of z) = z mod 256.
Proof.
  unfold code, byte_of. rewrite Ascii.nat_ascii_embedding.
  - rewrite Z2Nat.id; [done|]. apply Z.mod_pos_bound. lia.
  - apply Nat2Z.inj_lt. rewrite Z2Nat.id by (apply Z.mod_pos_bound; lia).
    pose proof (Z.mod_pos_bound z 256). lia.
Qed.

Lemma base256 n : 0 <= n < 2 ^ 32 ->
  (n / 2 ^ 24) mod 256 * 2 ^ 24 + (n / 2 ^ 16) mod 256 * 2 ^ 16 + (n / 2 ^ 8) mod 256 * 2 ^ 8 + n mod 256 = n.
Proof.
  intros Hn. change (2 ^ 24) with (256 * (256 * 256)). change (2 ^ 16) with (256 * 256). change (2 ^ 8) with 256.
  rewrite <-!Z.div_div by lia.
  pose proof (Z.div_mod n 256 ltac:(lia)). pose proof (Z.div_mod (n / 256) 256 ltac:(lia)).
  pose proof (Z.div_mod (n / 256 / 256) 256 ltac:(lia)).
  rewrite (Z.mod_small (n / 256 / 256 / 256)); [lia|].
  split; [repeat apply Z.div_pos; lia|]. repeat apply Z.div_lt_upper_bound; lia.
Qed.

Lemma take_chars_prefix s t : take_chars (String.length s) (s +:+ t) = s.
Proof.
  induction s as [|c s IH]; [by destruct t|].
  change (String c s +:+ t) with (String c (s +:+ t)). cbn [String.length take_chars]. by rewrite IH.
Qed.

(** Frames round-trip.  What [WriteFrame] puts on a connection under a limit that
    fits 32 bits is read back by [ReadFrame] under the same limit as exactly the same
    bytes, and the bytes that follow on the connection are left for the next frame. *)
Theorem frame_roundtrip data limit frame rest :
  limit < 2 ^ 32 -> WriteFrame data limit = Ok frame -> ReadFrame (frame +:+ rest) limit = Ok (data, rest).
Proof.
  intros Hlim. unfold WriteFrame. destruct (_ || _) eqn:E; [done|]. intros [= <-]. bools.
  destruct E as [Hne Hle]. pose proof (slen_nonneg data). rewrite Z.mod_small by lia.
  set (n := slen data) in *. unfold PutUint32.
  change (ReadFrame (String (byte_of (n / 2 ^ 24)) (String (byte_of (n / 2 ^ 16))
    (String (byte_of (n / 2 ^ 8)) (String (byte_of n) (data +:+ rest))))) limit = Ok (data, rest)).
  unfold ReadFrame. rewrite !code_byte_of, base256 by lia.
  rewrite (proj2 (Z.leb_gt _ _)), (proj2 (Z.ltb_ge _ _)) by lia. simpl.
  rewrite (proj2 (Z.ltb_ge _ _)) by (rewrite slen_app; pose proof (slen_nonneg rest); fold n; lia).
  subst n. unfold slen. rewrite Nat2Z.id. by rewrite take_chars_prefix, drop_chars_app.
Qed.

Lemma frame_roundtrip_witness :
  ReadFrame (PutUint32 2 +:+ "{}" +:+ "next") MaxRequestBytes = Ok ("{}", "next").
Proof. apply (frame_roundtrip "{}" MaxRequestBytes (PutUint32 2 +:+ "{}") "next"); reflexivity. Defined.

(** ** Owner domains *)

(** The audit names the owner of a verb, with one exception.  Every registered verb
    of the SSH, deployment and update families is attributed to its family, except
    [deployment.checkpoint.release], whose events are attributed to the broker itself. *)
Theorem owner_domains :
  Forall (fun v => HasPrefix v "ssh." = true -> ownerDomain v = "ssh") known_verbs /\
  Forall (fun v => HasPrefix v "update." = true -> ownerDomain v = "update") known_verbs /\
  Forall (fun v => HasPrefix v "deployment." = true -> v <> VerbDeploymentRelease -> ownerDomain v = "deployment")
    known_verbs /\
  HasPrefix VerbDeploymentRelease "deployment." = true /\ ownerDomain VerbDeploymentRelease = "broker".
Proof.
  split_and!; [..|reflexivity|reflexivity]; unfold known_verbs;
    repeat (constructor; [vm_compute; try reflexivity; try discriminate; intros; congruence|]); constructor.
Qed.
