(* ===== verification/BrokerJournal.v ===== *)
(** * The privileged broker: the receipt journal ([privilegedbroker/journal.go])

    The broker executes a privileged mutation only after an [active] row for it
    is on disk, and answers only after a [complete] row is.  This file holds the
    rows and the in-memory indexes, the row validation, the index construction,
    the file operations with every failure and crash they can meet, and the
    operations [Begin], [Commit], [Unresolved], [CompletedMutation], the
    compaction and the recovery paths.

    Files.  The directory holds the journal and its compaction temporary; a file
    is its contents.  Every system call takes its outcome from an oracle: it
    succeeds, fails (a write after some of its bytes), writes short, or the
    process dies at it.  Contents are those the operating system shows after the
    process died; losing written but unsynced data is not modelled.

    JSON and SHA-256 are the interface [Codec]; what the journal relies on is
    the interface [CodecLaws]. *)

From stdpp Require Import sorting.
From S2P Require Import Prelude GoStrings BrokerProtocol.

Open Scope string_scope.
Open Scope Z_scope.

Definition maxJournalBytes : Z := Z.shiftl 8 20.
Definition maxJournalFileBytes : Z := maxJournalBytes * 2.
Definition maxJournalRows : Z := 4096.
Definition targetJournalRows : Z := maxJournalRows / 2.
Definition maxJournalRowBytes : Z := MaxResponseBytes * 2.
Definition maxJournalRowLineSize : Z := maxJournalRowBytes + 1.

(** ** Rows *)
Record completedMutationReference := mkReference {
  cmOperationID : string; cmVerb : Verb; cmFenceResource : string
}.

Definition reference_valid (r : completedMutationReference) : bool :=
  safeIdentifier (cmOperationID r) && validVerb (cmVerb r) && safeIdentifier (cmFenceResource r).

Definition nul : Ascii.ascii := Ascii.zero.

Definition completedMutationKey (operationID : string) (verb : Verb) (fenceResource : string) : string :=
  operationID +:+ String nul (verb +:+ String nul fenceResource).

Record journalAuthorityState := mkAuthority {
  asSequence : Z; asPreviousDigest : string; asFences : gmap string Z
}.

Record journalRow := mkRow {
  rSchema : Z;
  rPhase : string;
  rIdempotencyKey : string;
  rRequestDigest : string;
  rFenceResource : string;
  rFenceSequence : Z;
  rStartedAt : Z;
  rResponse : option Response;
  rReceipt : option Receipt;
  rPayload : string;
  rAuthority : option journalAuthorityState;
  rRetainUntilRelease : option bool;
  rReleases : option completedMutationReference
}.

Record replayRecord := mkReplay { rpRequestDigest : string; rpResponse : Response }.

Record CompletionPolicy := mkPolicy { cpRetainUntilRelease : bool; cpReleasesVerb : Verb }.

Record journalIndexes := mkIndexes {
  ixSequence : Z;
  ixPrevious : string;
  ixReplays : gmap string replayRecord;
  ixFences : gmap string Z;
  ixUnresolved : gmap string Receipt;
  ixCompleted : gmap string journalRow;
  ixLiveCompleted : gmap string journalRow;
  ixReleased : gset string
}.

Definition newJournalIndexes : journalIndexes := mkIndexes 0 "" ∅ ∅ ∅ ∅ ∅ ∅.

(** The journal in memory: the boot identity, the indexes, the rows and the size of
    the file.  The source keeps the indexes as fields of the journal itself. *)
Record FileJournal := mkJournal {
  jBootID : string;
  jIndexes : journalIndexes;
  jRows : list journalRow;
  jFileBytes : Z
}.

#[export] Instance completedMutationReference_eq_dec : EqDecision completedMutationReference.
Proof. solve_decision. Defined.
#[export] Instance journalAuthorityState_eq_dec : EqDecision journalAuthorityState.
Proof. solve_decision. Defined.
#[export] Instance journalRow_eq_dec : EqDecision journalRow.
Proof. solve_decision. Defined.
#[export] Instance replayRecord_eq_dec : EqDecision replayRecord.
Proof. solve_decision. Defined.
#[export] Instance journalIndexes_eq_dec : EqDecision journalIndexes.
Proof. solve_decision. Defined.

(** ** Encoding: [crypto/sha256] and [encoding/json] *)
Class Codec := {
  Digest : string -> string;
  marshalReceipt : Receipt -> string;
  marshalResponse : Response -> option string;
  marshalRequest : Request -> string;
  marshalRow : journalRow -> option string;
  decodeRow : string -> option journalRow;
  (** The rows whose text is valid UTF-8 and whose payload is in the form the encoder writes. *)
  stable : journalRow -> Prop
}.

(** What the journal relies on: a digest is 64 hexadecimal digits; a row is
    encoded as one line that starts an object; decoding gives back the fence of an
    encoded row, and the whole of a stable row; no text that starts an object and
    ends in a further encoded row is one valid row. *)
Class CodecLaws (C : Codec) : Prop := {
  Digest_hex s : digestPattern (Digest s) = true;
  marshalRow_object r s : marshalRow r = Some s -> HasPrefix s "{" = true;
  marshalRow_line r s : marshalRow r = Some s -> has_char nl s = false;
  decodeRow_fence r s r' :
    marshalRow r = Some s -> decodeRow s = Some r' -> safeIdentifier (rFenceResource r) = true ->
    rPhase r' = rPhase r /\ rFenceResource r' = rFenceResource r /\ rFenceSequence r' = rFenceSequence r;
  decodeRow_authority r s r' a :
    marshalRow r = Some s -> decodeRow s = Some r' -> rPhase r = "authority" ->
    rAuthority r = Some a -> map_Forall (fun k _ => safeIdentifier k = true) (asFences a) ->
    rPhase r' = "authority" /\ exists a', rAuthority r' = Some a' /\ asFences a' = asFences a;
  decodeRow_stable r s : stable r -> marshalRow r = Some s -> decodeRow s = Some r;
  decodeRow_torn t r s : HasPrefix t "{" = true -> marshalRow r = Some s -> decodeRow (t +:+ s) = None
}.

Section Journal.
Context `{C : Codec}.

Definition set_digest (r : Receipt) (d : string) : Receipt :=
  mkReceipt (rcSequence r) (rcRequestID r) (rcOperationID r) (rcIdempotencyKey r) (rcVerb r)
    (rcFenceResource r) (rcFenceSequence r) (rcFenceTokenDigest r) (rcPayloadDigest r) (rcResponseDigest r)
    (rcPeerRevision r) (rcBrokerBootID r) (rcPreviousDigest r) (rcOutcome r) (rcStartedAt r)
    (rcCompletedAt r) d.

Definition receiptDigest (receipt : Receipt) : string :=
  Digest (marshalReceipt (set_digest receipt "")).

Definition canonicalRequestAuthority (request : Request) : string :=
  marshalRequest (mkRequest (rqProtocolVersion request) (rqCapabilityRevision request) (rqBootID request)
    (rqRole request) (rqVerb request) (rqRequestID request) (rqOperationID request)
    (rqIdempotencyKey request) (rqFence request) (rqExpected request) (rqDeadlineAt request)
    (rqPurpose request) (rqRecoveryRef request) (rqPayloadDigest request) "").

Definition set_response (r : Response) (receipt : option Receipt) (payload : string) : Response :=
  mkResponse (rsProtocolVersion r) (rsCapabilityRevision r) (rsRequestID r) (rsOperationID r) (rsVerb r)
    (rsOK r) (rsCode r) (rsMessage r) (rsReplay r) receipt (rsPayloadDigest r) payload.

Definition set_replay (r : Response) : Response :=
  mkResponse (rsProtocolVersion r) (rsCapabilityRevision r) (rsRequestID r) (rsOperationID r) (rsVerb r)
    (rsOK r) (rsCode r) (rsMessage r) true (rsReceipt r) (rsPayloadDigest r) (rsPayload r).

(** ** Validation of a row: [None] is the nil error *)
Definition is_nil {A : Type} (o : option A) : bool := match o with None => true | Some _ => false end.

Definition validateAuthorityRow (row : journalRow) : option string :=
  match rAuthority row with
  | None => Some "broker journal authority snapshot is invalid"
  | Some a =>
      if negb (String.eqb (rIdempotencyKey row) "") || negb (String.eqb (rRequestDigest row) "") ||
         negb (String.eqb (rFenceResource row) "") || negb (rFenceSequence row =? 0) ||
         negb (rStartedAt row =? 0) || negb (is_nil (rResponse row)) || negb (is_nil (rReceipt row)) ||
         negb (slen (rPayload row) =? 0) || negb (is_nil (rRetainUntilRelease row)) ||
         negb (is_nil (rReleases row))
      then Some "broker journal authority snapshot is invalid"
      else if ((asSequence a =? 0) && negb (String.eqb (asPreviousDigest a) "")) ||
              (negb (asSequence a =? 0) && negb (digestPattern (asPreviousDigest a)))
      then Some "broker journal chain authority is invalid"
      else if forallb (fun kv => safeIdentifier kv.1 && negb (kv.2 =? 0)) (map_to_list (asFences a))
      then None
      else Some "broker journal fence authority is invalid"
  end.

Definition validateActiveRow (row : journalRow) (receipt : Receipt) : option string :=
  if negb (is_nil (rResponse row)) || negb (slen (rPayload row) =? 0) ||
     negb (String.eqb (rcOutcome receipt) "active") || negb (rcCompletedAt receipt =? 0) ||
     negb (String.eqb (rcResponseDigest receipt) "") || negb (is_nil (rAuthority row)) ||
     negb (is_nil (rRetainUntilRelease row)) || negb (is_nil (rReleases row))
  then Some "broker active journal row is invalid"
  else None.

Definition validateCompleteRow (row : journalRow) (receipt : Receipt) : option string :=
  match rResponse row with
  | None => Some "broker completed journal row is invalid"
  | Some response =>
      if negb (bool_decide (rsReceipt response = Some receipt)) ||
         negb (String.eqb (rsRequestID response) (rcRequestID receipt)) ||
         negb (String.eqb (rsOperationID response) (rcOperationID receipt)) ||
         negb (String.eqb (rsVerb response) (rcVerb receipt)) ||
         negb (slen (rsPayload response) =? 0) || (MaxResponseBytes <? slen (rPayload row)) ||
         negb (is_nil (rAuthority row)) ||
         ((slen (rPayload row) =? 0) && negb (String.eqb (rsPayloadDigest response) "")) ||
         (negb (slen (rPayload row) =? 0) &&
            negb (String.eqb (rsPayloadDigest response) (Digest (rPayload row)))) ||
         (rsOK response && negb (String.eqb (rcOutcome receipt) "succeeded")) ||
         (negb (rsOK response) && negb (String.eqb (rcOutcome receipt) "failed")) ||
         (rcCompletedAt receipt =? 0)
      then Some "broker completed journal row is invalid"
      else if negb (rsOK response) &&
         (match rRetainUntilRelease row with Some b => b | None => false end || negb (is_nil (rReleases row)))
      then Some "failed broker mutation carries completion lifecycle authority"
      else if match rReleases row with
         | None => false
         | Some ref => negb (reference_valid ref) ||
             negb (String.eqb (cmOperationID ref) (rcOperationID receipt)) ||
             negb (String.eqb (cmFenceResource ref) (rcFenceResource receipt))
         end
      then Some "broker completed release authority is invalid"
      else match marshalResponse (set_response response None "") with
           | None => Some "broker completed response authority is invalid"
           | Some encoded =>
               if String.eqb (rcResponseDigest receipt) (Digest (encoded +:+ rPayload row)) then None
               else Some "broker completed response authority is invalid"
           end
  end.

Definition validateJournalRow (row : journalRow) : option string :=
  if negb (rSchema row =? 1) then Some "broker journal schema is invalid"
  else if String.eqb (rPhase row) "authority" then validateAuthorityRow row
  else
    match rReceipt row with
    | None => Some "broker journal receipt is invalid"
    | Some receipt =>
        if String.eqb (rIdempotencyKey row) "" || negb (digestPattern (rRequestDigest row)) ||
           negb (String.eqb (rcIdempotencyKey receipt) (rIdempotencyKey row)) ||
           negb (String.eqb (rcFenceResource receipt) (rFenceResource row)) ||
           negb (rcFenceSequence receipt =? rFenceSequence row) ||
           negb (digestPattern (rcReceiptDigest receipt)) ||
           negb (String.eqb (rcReceiptDigest receipt) (receiptDigest receipt))
        then Some "broker journal receipt is invalid"
        else if String.eqb (rPhase row) "active" then validateActiveRow row receipt
        else if String.eqb (rPhase row) "complete" then validateCompleteRow row receipt
        else Some "broker journal phase is invalid"
    end.

Definition journalRowRetained (row : journalRow) : bool :=
  match rRetainUntilRelease row with
  | Some b => b
  | None =>
      match rReceipt row, rResponse row with
      | Some receipt, Some response => String.eqb (rcVerb receipt) VerbSSHStage && rsOK response
      | _, _ => false
      end
  end.

(** ** The indexes of a list of rows *)

(** The loop variables of [buildJournalIndexes]. *)
Record buildState := mkBuild {
  bIndexes : journalIndexes;
  bStateSequence : Z;
  bHasState : bool;
  bLastSequence : Z
}.

Definition initialBuild : buildState := mkBuild newJournalIndexes 0 false 0.

Definition fence_of (fences : gmap string Z) (resource : string) : Z := default 0 (fences !! resource).

Definition index_chain (s : buildState) (ix : journalIndexes) (receipt : Receipt) : journalIndexes :=
  if negb (bHasState s) || (bStateSequence s <? rcSequence receipt)
  then mkIndexes (if ixSequence ix <? rcSequence receipt then rcSequence receipt else ixSequence ix)
         (rcReceiptDigest receipt) (ixReplays ix) (ixFences ix) (ixUnresolved ix)
         (ixCompleted ix) (ixLiveCompleted ix) (ixReleased ix)
  else ix.

Definition index_fence (ix : journalIndexes) (row : journalRow) : journalIndexes :=
  if fence_of (ixFences ix) (rFenceResource row) <? rFenceSequence row
  then mkIndexes (ixSequence ix) (ixPrevious ix) (ixReplays ix)
         (<[rFenceResource row := rFenceSequence row]> (ixFences ix)) (ixUnresolved ix)
         (ixCompleted ix) (ixLiveCompleted ix) (ixReleased ix)
  else ix.

Definition index_active (ix : journalIndexes) (row : journalRow) (receipt : Receipt) : journalIndexes :=
  mkIndexes (ixSequence ix) (ixPrevious ix) (ixReplays ix) (ixFences ix)
    (<[rIdempotencyKey row := receipt]> (ixUnresolved ix))
    (ixCompleted ix) (ixLiveCompleted ix) (ixReleased ix).

Definition receipt_key (receipt : Receipt) : string :=
  completedMutationKey (rcOperationID receipt) (rcVerb receipt) (rcFenceResource receipt).

Definition reference_key (ref : completedMutationReference) : string :=
  completedMutationKey (cmOperationID ref) (cmVerb ref) (cmFenceResource ref).

Definition index_completed (ix : journalIndexes) (row : journalRow) (receipt : Receipt) : journalIndexes :=
  let key := receipt_key receipt in
  mkIndexes (ixSequence ix) (ixPrevious ix) (ixReplays ix) (ixFences ix) (ixUnresolved ix)
    (<[key := row]> (ixCompleted ix))
    (if journalRowRetained row then <[key := row]> (ixLiveCompleted ix) else ixLiveCompleted ix)
    (ixReleased ix ∖ {[key]}).

Definition index_release (ix : journalIndexes) (ref : completedMutationReference) : journalIndexes :=
  let key := reference_key ref in
  mkIndexes (ixSequence ix) (ixPrevious ix) (ixReplays ix) (ixFences ix) (ixUnresolved ix)
    (delete key (ixCompleted ix)) (delete key (ixLiveCompleted ix)) ({[key]} ∪ ixReleased ix).

Definition index_complete (ix : journalIndexes) (row : journalRow) (receipt : Receipt) (response : Response)
  : journalIndexes :=
  let ix := mkIndexes (ixSequence ix) (ixPrevious ix)
    (<[rIdempotencyKey row :=
        mkReplay (rRequestDigest row) (set_response response (rsReceipt response) (rPayload row))]> (ixReplays ix))
    (ixFences ix) (delete (rIdempotencyKey row) (ixUnresolved ix))
    (ixCompleted ix) (ixLiveCompleted ix) (ixReleased ix) in
  let ix := if rsOK response then index_completed ix row receipt else ix in
  match rReleases row with
  | Some ref => if rsOK response then index_release ix ref else ix
  | None => ix
  end.

(** One iteration of the loop.  A validated row of phase [active] or [complete] has
    a receipt, and a [complete] row a response, so the last branches are not taken. *)
Definition index_row (index : Z) (s : buildState) (row : journalRow) : result string buildState :=
  match validateJournalRow row with
  | Some err => Err err
  | None =>
      if String.eqb (rPhase row) "authority" then
        match rAuthority row with
        | None => Err "nil dereference"
        | Some a =>
            if negb (index =? 0) || bHasState s then Err "broker journal authority snapshot is misplaced"
            else
              let ix := bIndexes s in
              Ok (mkBuild (mkIndexes (asSequence a) (asPreviousDigest a) (ixReplays ix)
                             (asFences a ∪ ixFences ix) (ixUnresolved ix) (ixCompleted ix)
                             (ixLiveCompleted ix) (ixReleased ix))
                    (asSequence a) true (bLastSequence s))
        end
      else
        match rReceipt row with
        | None => Err "nil dereference"
        | Some receipt =>
            if rcSequence receipt <? bLastSequence s
            then Err "broker journal receipt sequence is not monotonic"
            else
              let ix := index_fence (index_chain s (bIndexes s) receipt) row in
              let ix :=
                if String.eqb (rPhase row) "active" then index_active ix row receipt
                else match rResponse row with
                     | Some response => index_complete ix row receipt response
                     | None => ix
                     end in
              Ok (mkBuild ix (bStateSequence s) (bHasState s) (rcSequence receipt))
        end
  end.

Fixpoint index_rows (index : Z) (s : buildState) (rows : list journalRow) : result string buildState :=
  match rows with
  | [] => Ok s
  | row :: rows' => let? s := index_row index s row in index_rows (index + 1) s rows'
  end.

Definition buildJournalIndexes (rows : list journalRow) : result string journalIndexes :=
  let? s := index_rows 0 initialBuild rows in Ok (bIndexes s).

Definition installRows (j : FileJournal) (rows : list journalRow) (indexes : journalIndexes) (fileBytes : Z)
  : FileJournal := mkJournal (jBootID j) indexes rows fileBytes.

Definition encodeJournalRow (row : journalRow) : result string string :=
  match validateJournalRow row with
  | Some err => Err err
  | None =>
      match marshalRow row with
      | None => Err "broker journal row exceeds its bounded contract"
      | Some data =>
          if maxJournalRowBytes <? slen data then Err "broker journal row exceeds its bounded contract"
          else Ok (data +:+ String nl "")
      end
  end.

(** ** Reading a journal *)
Record loadedJournal := mkLoaded {
  lRows : list journalRow;
  lIndexes : journalIndexes;
  lFileBytes : Z;
  lTailOffset : Z
}.

(** The loop over the lines of the committed prefix. *)
Fixpoint parse_lines (lines : list string) : result string (list journalRow) :=
  match lines with
  | [] => Ok []
  | line :: rest =>
      if slen line =? 0 then
        match rest with
        | [] => Ok []
        | _ => Err "broker receipt journal contains an empty committed record"
        end
      else if maxJournalRowBytes <? slen line
      then Err "broker receipt journal row exceeds its bounded contract"
      else match decodeRow line with
           | Some row =>
               match validateJournalRow row with
               | None => let? rows := parse_lines rest in Ok (row :: rows)
               | Some _ => Err "broker receipt journal contains an invalid committed record"
               end
           | None => Err "broker receipt journal contains an invalid committed record"
           end
  end.

(** [bytes.LastIndexByte(data, '\n') + 1]: the length of the longest prefix that ends in a newline. *)
Fixpoint committed_length (data : string) : nat :=
  match data with
  | "" => 0
  | String c data' =>
      match committed_length data' with
      | O => if Ascii.eqb c nl then 1 else 0
      | S n => S (S n)
      end
  end.

Fixpoint last_char (data : string) : option Ascii.ascii :=
  match data with
  | "" => None
  | String c "" => Some c
  | String _ data' => last_char data'
  end.

Definition parseJournal (data : string) (recoverTail : bool) : result string loadedJournal :=
  let torn := match last_char data with Some c => negb (Ascii.eqb c nl) | None => false end in
  if torn && negb recoverTail then Err "broker compaction contains an unterminated record"
  else
    let prefixLength := if torn then committed_length data else String.length data in
    let tailOffset := if torn then Z.of_nat prefixLength else -1 in
    let? rows := parse_lines (Split (take_chars prefixLength data) nl) in
    let? indexes := buildJournalIndexes rows in
    Ok (mkLoaded rows indexes (Z.of_nat prefixLength) tailOffset).

(** ** System calls *)

(** What happens at a system call: it succeeds; it fails, a write after [n]
    bytes; a write stops short after [n] bytes without an error; the process dies,
    in a write after [n] bytes. *)
Inductive outcome :=
| Succeeds
| Fails (n : nat)
| Short (n : nat)
| Dies (n : nat).

Inductive journalPath := MainPath | TemporaryPath.

Record disk := mkDisk { dMain : option string; dTemporary : option string }.

Definition file_at (d : disk) (p : journalPath) : option string :=
  match p with MainPath => dMain d | TemporaryPath => dTemporary d end.

Definition set_file (d : disk) (p : journalPath) (content : option string) : disk :=
  match p with
  | MainPath => mkDisk content (dTemporary d)
  | TemporaryPath => mkDisk (dMain d) content
  end.

Inductive ioError :=
| NotExist
| IOFailure
| Refused (text : string)
| PublicFailure (err : brokerError)
| Joined (errs : list ioError).

(** The world: the outcomes to come (a call beyond them succeeds) and the files. *)
Record world := mkWorld { wOracle : list outcome; wDisk : disk }.

(** A computation that may meet the death of the process ([None]). *)
Definition IO (A : Type) : Type := world -> option A * world.

Definition io_ret {A : Type} (a : A) : IO A := fun w => (Some a, w).

Definition io_bind {A B : Type} (m : IO A) (k : A -> IO B) : IO B :=
  fun w => match m w with
           | (Some a, w') => k a w'
           | (None, w') => (None, w')
           end.

Notation "'let*' x ':=' m 'in' k" := (io_bind m (fun x => k))
  (at level 10, x pattern, m at level 200, k at level 200).

Definition next_outcome (w : world) : outcome * world :=
  match wOracle w with
  | [] => (Succeeds, w)
  | o :: rest => (o, mkWorld rest (wDisk w))
  end.

(** A call that changes the files to [f] of them when it takes effect. *)
Definition syscall {A : Type} (ok : disk -> A) (fail : disk -> A) (f : disk -> disk) : IO A :=
  fun w => let '(o, w) := next_outcome w in
    match o with
    | Succeeds => (Some (ok (wDisk w)), mkWorld (wOracle w) (f (wDisk w)))
    | Dies O => (None, mkWorld (wOracle w) (f (wDisk w)))
    | Dies _ => (None, w)
    | _ => (Some (fail (wDisk w)), w)
    end.

(** A call that changes no file: [Sync], [Close], [Stat], directory operations. *)
Definition plain_call : IO (option ioError) :=
  syscall (fun _ => None) (fun _ => Some IOFailure) (fun d => d).

Definition fs_lstat (p : journalPath) : IO (result ioError unit) :=
  syscall (fun d => match file_at d p with Some _ => Ok tt | None => Err NotExist end)
    (fun _ => Err IOFailure) (fun d => d).

Definition fs_open (p : journalPath) : IO (result ioError unit) := fs_lstat p.

(** The size; an unsafe mode or owner counts as a failure. *)
Definition fs_stat (p : journalPath) : IO (result ioError Z) :=
  syscall (fun d => Ok (slen (default "" (file_at d p)))) (fun _ => Err IOFailure) (fun d => d).

Definition fs_read (p : journalPath) : IO (result ioError string) :=
  syscall (fun d => Ok (default "" (file_at d p)))
    (fun _ => Err IOFailure) (fun d => d).

(** [O_APPEND|O_CREATE|O_WRONLY] *)
Definition fs_open_append (p : journalPath) : IO (option ioError) :=
  syscall (fun _ => None) (fun _ => Some IOFailure)
    (fun d => match file_at d p with Some _ => d | None => set_file d p (Some "") end).

(** [O_CREATE|O_EXCL|O_WRONLY] *)
Definition fs_create_exclusive (p : journalPath) : IO (option ioError) :=
  syscall (fun d => match file_at d p with Some _ => Some IOFailure | None => None end)
    (fun _ => Some IOFailure)
    (fun d => match file_at d p with Some _ => d | None => set_file d p (Some "") end).

Definition append_to (p : journalPath) (data : string) (w : world) : world :=
  mkWorld (wOracle w) (set_file (wDisk w) p (Some (default "" (file_at (wDisk w) p) +:+ data))).

(** [Write]: the bytes written and the error. *)
Definition fs_write (p : journalPath) (data : string) : IO (Z * option ioError) :=
  fun w => let '(o, w) := next_outcome w in
    match o with
    | Succeeds => (Some (slen data, None), append_to p data w)
    | Fails n => (Some (slen (take_chars n data), Some IOFailure), append_to p (take_chars n data) w)
    | Short n => (Some (slen (take_chars n data), None), append_to p (take_chars n data) w)
    | Dies n => (None, append_to p (take_chars n data) w)
    end.

Definition fs_remove (p : journalPath) : IO (option ioError) :=
  syscall (fun d => match file_at d p with Some _ => None | None => Some NotExist end)
    (fun _ => Some IOFailure) (fun d => set_file d p None).

(** [rename(temporary, path)] *)
Definition fs_rename : IO (option ioError) :=
  syscall (fun d => match dTemporary d with Some _ => None | None => Some NotExist end)
    (fun _ => Some IOFailure)
    (fun d => match dTemporary d with Some s => mkDisk (Some s) None | None => d end).

Definition fs_truncate (p : journalPath) (offset : Z) : IO (option ioError) :=
  syscall (fun d => match file_at d p with Some _ => None | None => Some NotExist end)
    (fun _ => Some IOFailure)
    (fun d => match file_at d p with
              | Some s => set_file d p (Some (take_chars (Z.to_nat offset) s))
              | None => d
              end).

(** [errors.Join]: nil when every error is. *)
Definition join (errs : list (option ioError)) : option ioError :=
  match omap id errs with
  | [] => None
  | l => Some (Joined l)
  end.

(** ** Loading and recovering *)
Definition journalPathExists (p : journalPath) : IO (result ioError bool) :=
  let* r := fs_lstat p in
  io_ret (match r with
          | Ok _ => Ok true
          | Err NotExist => Ok false
          | Err e => Err e
          end).

Definition removeCompactionTemporary : IO (option ioError) :=
  let* err := fs_remove TemporaryPath in
  match err with
  | None | Some NotExist => plain_call
  | Some e => io_ret (Some e)
  end.

Definition readJournalFile (p : journalPath) (validateOwnership recoverTail : bool)
  : IO (result ioError loadedJournal) :=
  let* opened := fs_open p in
  match opened with
  | Err e => io_ret (Err e)
  | Ok _ =>
      let* stat := fs_stat p in
      let unsafe := match stat with Ok size => maxJournalFileBytes <? size | Err _ => true end in
      if unsafe then
        let* _ := plain_call in io_ret (Err (Refused "broker receipt journal is unsafe"))
      else
        let* ownerErr := if validateOwnership then plain_call else io_ret None in
        match ownerErr with
        | Some e => let* _ := plain_call in io_ret (Err e)
        | None =>
            let* content := fs_read p in
            let* closeErr := plain_call in
            match content, closeErr with
            | Ok data, None =>
                if maxJournalFileBytes <? slen data
                then io_ret (Err (Refused "broker receipt journal read failed"))
                else io_ret (match parseJournal data recoverTail with
                             | Ok loaded => Ok loaded
                             | Err text => Err (Refused text)
                             end)
            | _, _ => io_ret (Err (Refused "broker receipt journal read failed"))
            end
        end
  end.

Definition recoverInterruptedTail (offset : Z) : IO (option ioError) :=
  let* err := fs_truncate MainPath offset in
  match err with
  | Some _ => io_ret (Some IOFailure)
  | None =>
      let* err := plain_call in
      match err with
      | Some _ => io_ret (Some IOFailure)
      | None =>
          let* syncErr := plain_call in
          let* closeErr := plain_call in
          io_ret (join [syncErr; closeErr])
      end
  end.

(** The journal afterwards, and the error. *)
Definition reloadAfterWriteFailure (j : FileJournal) : IO (FileJournal * option ioError) :=
  let* loaded := readJournalFile MainPath false true in
  match loaded with
  | Err NotExist => io_ret (installRows j [] newJournalIndexes 0, None)
  | Err e => io_ret (j, Some e)
  | Ok loaded =>
      if 0 <=? lTailOffset loaded then
        let* err := recoverInterruptedTail (lTailOffset loaded) in
        match err with
        | Some e => io_ret (j, Some e)
        | None => io_ret (installRows j (lRows loaded) (lIndexes loaded) (lTailOffset loaded), None)
        end
      else io_ret (installRows j (lRows loaded) (lIndexes loaded) (lFileBytes loaded), None)
  end.

(** ** Compaction *)

(** The last position whose row satisfies [p]. *)
Fixpoint last_index {A : Type} (p : A -> bool) (l : list A) : option nat :=
  match l with
  | [] => None
  | a :: rest =>
      match last_index p rest with
      | Some i => Some (S i)
      | None => if p a then Some O else None
      end
  end.

Definition phase_is (phase : string) (row : journalRow) : bool := String.eqb (rPhase row) phase.

(** The key under which a successful completion is indexed. *)
Definition completed_key (row : journalRow) : option string :=
  match rResponse row, rReceipt row with
  | Some response, Some receipt => if rsOK response then Some (receipt_key receipt) else None
  | _, _ => None
  end.

Definition active_for (idempotency : string) (row : journalRow) : bool :=
  phase_is "active" row && String.eqb (rIdempotencyKey row) idempotency.

Definition completed_for (key : string) (row : journalRow) : bool :=
  phase_is "complete" row && bool_decide (completed_key row = Some key).

(** The positions that compaction must keep; [requiredIndex] is [None] for -1. *)
Definition required_rows (rows : list journalRow) (requiredIndex : option nat) (ix : journalIndexes) : gset nat :=
  match requiredIndex with Some i => {[i]} | None => ∅ end ∪
  list_to_set (omap (fun kv => last_index (active_for kv.1) rows) (map_to_list (ixUnresolved ix))) ∪
  list_to_set (omap (fun kv => last_index (completed_for kv.1) rows) (map_to_list (ixLiveCompleted ix))).

(** The loop variables [selected] and [encodedBytes]. *)
Definition selection : Type := gset nat * Z.

Definition select_required (rows : list journalRow) (acc : result string selection) (index : nat)
  : result string selection :=
  let? (selected, encodedBytes) := acc in
  match rows !! index with
  | None => Err "index out of range"
  | Some row =>
      if phase_is "authority" row then Ok (selected, encodedBytes)
      else let? line := encodeJournalRow row in
           Ok ({[index]} ∪ selected, encodedBytes + slen line)
  end.

Definition select_history (rows : list journalRow) (ix : journalIndexes) (reserveBytes reserveRows : Z)
  (acc : result string selection) (index : nat) : result string selection :=
  let? (selected, encodedBytes) := acc in
  match rows !! index with
  | None => Err "index out of range"
  | Some row =>
      if bool_decide (index ∈ selected) || negb (phase_is "complete" row) then Ok (selected, encodedBytes)
      else if match completed_key row with
              | Some key => bool_decide (key ∈ ixReleased ix)
              | None => false
              end
      then Ok (selected, encodedBytes)
      else
        let? line := encodeJournalRow row in
        if (targetJournalRows <? 1 + Z.of_nat (size selected) + 1 + reserveRows) ||
           (maxJournalBytes <? encodedBytes + slen line + reserveBytes)
        then Ok (selected, encodedBytes)
        else Ok ({[index]} ∪ selected, encodedBytes + slen line)
  end.

Definition row_line (row : journalRow) : string :=
  match encodeJournalRow row with Ok line => line | Err _ => "" end.

Definition encode_rows (rows : list journalRow) : string := foldr (fun row s => row_line row +:+ s) "" rows.

(** The selected rows in the order of their positions. *)
Definition selected_rows (rows : list journalRow) (selected : gset nat) : list journalRow :=
  omap (fun i => rows !! i) (filter (fun i => i ∈ selected) (seq 0 (length rows))).

Definition authorityRow (ix : journalIndexes) : journalRow :=
  mkRow 1 "authority" "" "" "" 0 0 None None ""
    (Some (mkAuthority (ixSequence ix) (ixPrevious ix) (ixFences ix))) None None.

Definition retainedJournalProjection (rows : list journalRow) (requiredIndex : option nat)
  (reserveBytes reserveRows : Z) : result string (list journalRow * journalIndexes * string) :=
  let? ix := buildJournalIndexes rows in
  let state := authorityRow ix in
  let? stateLine := encodeJournalRow state in
  let? (selected, encodedBytes) :=
    foldl (select_required rows) (Ok (∅, slen stateLine)) (elements (required_rows rows requiredIndex ix)) in
  if (maxJournalFileBytes <? encodedBytes + reserveBytes) ||
     (maxJournalRows <? 1 + Z.of_nat (size selected) + reserveRows)
  then Err "broker live journal authority exceeds its bounded contract"
  else
    let? (selected, _) :=
      foldl (select_history rows ix reserveBytes reserveRows) (Ok (selected, encodedBytes))
        (reverse (seq 0 (length rows))) in
    let keep := state :: selected_rows rows selected in
    let output := stateLine +:+ encode_rows (selected_rows rows selected) in
    if (maxJournalFileBytes <? slen output + reserveBytes) ||
       (maxJournalRows <? Z.of_nat (length keep) + reserveRows)
    then Err "broker compacted journal exceeds its bounded contract"
    else
      let? keptIndexes := buildJournalIndexes keep in
      Ok (keep, keptIndexes, output).

(** The deferred [cleanup] of an unpublished temporary. *)
Definition cleanup : IO (option ioError) :=
  let* err := fs_remove TemporaryPath in
  io_ret (match err with Some NotExist => None | e => e end).

Definition short_write (written : Z) (writeErr : option ioError) (data : string) : option ioError :=
  if is_nil writeErr && negb (written =? slen data) then Some IOFailure else writeErr.

Definition compact (j : FileJournal) (candidate : list journalRow) (requiredIndex : option nat)
  (reserveBytes reserveRows : Z) : IO (FileJournal * option ioError) :=
  match retainedJournalProjection candidate requiredIndex reserveBytes reserveRows with
  | Err text => io_ret (j, Some (Refused text))
  | Ok (keep, indexes, encoded) =>
      let* exists_ := journalPathExists TemporaryPath in
      match exists_ with
      | Err e => io_ret (j, Some e)
      | Ok exists_ =>
          let* removeErr := if exists_ : bool then removeCompactionTemporary else io_ret None in
          match removeErr with
          | Some e => io_ret (j, Some e)
          | None =>
              let* openErr := fs_create_exclusive TemporaryPath in
              match openErr with
              | Some e => io_ret (j, Some e)
              | None =>
                  let* (written, writeErr) := fs_write TemporaryPath encoded in
                  let writeErr := short_write written writeErr encoded in
                  let* syncErr := if is_nil writeErr then plain_call else io_ret None in
                  let* closeErr := plain_call in
                  if negb (is_nil writeErr) || negb (is_nil syncErr) || negb (is_nil closeErr) then
                    let* cleanupErr := cleanup in
                    io_ret (j, join [writeErr; syncErr; closeErr; cleanupErr])
                  else
                    let* renameErr := fs_rename in
                    match renameErr with
                    | Some e => let* cleanupErr := cleanup in io_ret (j, join [Some e; cleanupErr])
                    | None =>
                        let* dirErr := plain_call in
                        match dirErr with
                        | Some e =>
                            let* (j, reloadErr) := reloadAfterWriteFailure j in
                            io_ret (j, join [Some e; reloadErr])
                        | None => io_ret (installRows j keep indexes (slen encoded), None)
                        end
                    end
              end
          end
      end
  end.

(** ** Appending a row *)
Definition append_row (j : FileJournal) (row : journalRow) (reserveBytes reserveRows : Z)
  : IO (FileJournal * option ioError) :=
  match encodeJournalRow row with
  | Err text => io_ret (j, Some (Refused text))
  | Ok line =>
      let candidate := app (jRows j) [row] in
      let prospectiveBytes := jFileBytes j + slen line in
      if (maxJournalBytes <? prospectiveBytes) || (maxJournalRows <? Z.of_nat (length candidate)) ||
         (maxJournalFileBytes <? prospectiveBytes + reserveBytes) ||
         (maxJournalRows <? Z.of_nat (length candidate) + reserveRows)
      then compact j candidate (Some (length candidate - 1)%nat) reserveBytes reserveRows
      else
        let* openErr := fs_open_append MainPath in
        match openErr with
        | Some e => io_ret (j, Some e)
        | None =>
            let* (written, writeErr) := fs_write MainPath line in
            let writeErr := short_write written writeErr line in
            let* syncErr := if is_nil writeErr then plain_call else io_ret None in
            let* closeErr := plain_call in
            let* directoryErr :=
              if is_nil writeErr && is_nil syncErr && is_nil closeErr then plain_call else io_ret None in
            if negb (is_nil writeErr) || negb (is_nil syncErr) || negb (is_nil closeErr) ||
               negb (is_nil directoryErr)
            then
              let* (j, reloadErr) := reloadAfterWriteFailure j in
              io_ret (j, join [join [writeErr; syncErr; closeErr; directoryErr]; reloadErr])
            else
              match buildJournalIndexes candidate with
              | Err text => io_ret (j, Some (Refused text))
              | Ok indexes => io_ret (installRows j candidate indexes prospectiveBytes, None)
              end
        end
  end.

(** ** The operations of the journal *)
Definition set_sequence (j : FileJournal) (sequence : Z) : FileJournal :=
  let ix := jIndexes j in
  mkJournal (jBootID j)
    (mkIndexes sequence (ixPrevious ix) (ixReplays ix) (ixFences ix) (ixUnresolved ix) (ixCompleted ix)
       (ixLiveCompleted ix) (ixReleased ix))
    (jRows j) (jFileBytes j).

Definition activeReceipt (j : FileJournal) (request : Request) (peer : PeerIdentity) (now : Z) : Receipt :=
  let receipt := mkReceipt (ixSequence (jIndexes j)) (rqRequestID request) (rqOperationID request)
    (rqIdempotencyKey request) (rqVerb request) (fResource (rqFence request)) (fSequence (rqFence request))
    (Digest (fToken (rqFence request))) (rqPayloadDigest request) "" (pRevision peer) (jBootID j)
    (ixPrevious (jIndexes j)) "active" (UnixMilli now) 0 "" in
  set_digest receipt (receiptDigest receipt).

Definition activeRow (request : Request) (requestDigest : string) (receipt : Receipt) : journalRow :=
  mkRow 1 "active" (rqIdempotencyKey request) requestDigest (fResource (rqFence request))
    (fSequence (rqFence request)) (rcStartedAt receipt) None (Some receipt) "" None None None.

(** The journal afterwards, and the error or the replayed response and the receipt. *)
Definition Begin (j : FileJournal) (request : Request) (peer : PeerIdentity) (requestDigest : string) (now : Z)
  : IO (FileJournal * result ioError (option Response * option Receipt)) :=
  match ixReplays (jIndexes j) !! rqIdempotencyKey request with
  | Some replay =>
      if negb (String.eqb (rpRequestDigest replay) requestDigest)
      then io_ret (j, Err (PublicFailure
             (Failure CodeIdempotency "broker idempotency key conflicts with a prior request")))
      else let response := set_replay (rpResponse replay) in
           io_ret (j, Ok (Some response, rsReceipt response))
  | None =>
      match ixUnresolved (jIndexes j) !! rqIdempotencyKey request with
      | Some _ =>
          io_ret (j, Err (PublicFailure
            (Failure CodeRecoveryRequired "broker operation requires explicit recovery")))
      | None =>
          if negb (Z.of_nat (size (ixUnresolved (jIndexes j))) =? 0)
          then io_ret (j, Err (PublicFailure
                 (Failure CodeRecoveryRequired "broker has unresolved mutation authority")))
          else if fSequence (rqFence request) <=? fence_of (ixFences (jIndexes j)) (fResource (rqFence request))
          then io_ret (j, Err (PublicFailure (Failure CodeFence "broker fencing sequence is stale")))
          else
            let j := set_sequence j (wrapu64 (ixSequence (jIndexes j) + 1)) in
            let receipt := activeReceipt j request peer now in
            let row := activeRow request requestDigest receipt in
            let* (j, err) := append_row j row maxJournalRowLineSize 1 in
            match err with
            | Some e =>
                let* (j, reloadErr) := reloadAfterWriteFailure j in
                io_ret (j, Err (Joined (omap id [Some e; reloadErr])))
            | None => io_ret (j, Ok (None, Some receipt))
            end
      end
  end.

Definition completedReceipt (j : FileJournal) (receipt : Receipt) (ok : bool) (now : Z) (responseDigest : string)
  : Receipt :=
  let receipt := mkReceipt (rcSequence receipt) (rcRequestID receipt) (rcOperationID receipt)
    (rcIdempotencyKey receipt) (rcVerb receipt) (rcFenceResource receipt) (rcFenceSequence receipt)
    (rcFenceTokenDigest receipt) (rcPayloadDigest receipt) responseDigest (rcPeerRevision receipt)
    (rcBrokerBootID receipt) (ixPrevious (jIndexes j)) (if ok then "succeeded" else "failed")
    (rcStartedAt receipt) (UnixMilli now) (rcReceiptDigest receipt) in
  set_digest receipt (receiptDigest receipt).

Definition requestAuthorityDigest (request : Request) : string :=
  Digest (canonicalRequestAuthority request +:+ rqPayload request).

Definition completeRow (request : Request) (receipt : Receipt) (response : Response) (policy : CompletionPolicy)
  : journalRow :=
  mkRow 1 "complete" (rqIdempotencyKey request) (requestAuthorityDigest request) (fResource (rqFence request))
    (fSequence (rqFence request)) (rcStartedAt receipt)
    (Some (set_response response (Some receipt) "")) (Some receipt) (rsPayload response) None
    (Some (cpRetainUntilRelease policy && rsOK response))
    (if rsOK response && negb (String.eqb (cpReleasesVerb policy) "")
     then Some (mkReference (rqOperationID request) (cpReleasesVerb policy) (fResource (rqFence request)))
     else None).

(** The journal afterwards, the response and the error. *)
Definition Commit (j : FileJournal) (request : Request) (receipt : option Receipt) (response : Response)
  (policy : CompletionPolicy) (now : Z) : IO (FileJournal * Response * option ioError) :=
  match receipt with
  | None => io_ret (j, response, Some (Refused "broker active receipt is required"))
  | Some receipt =>
      if negb (String.eqb (cpReleasesVerb policy) "") && negb (validVerb (cpReleasesVerb policy))
      then io_ret (j, response, Some (Refused "broker completion release verb is invalid"))
      else
        match marshalResponse (set_response response (rsReceipt response) "") with
        | None => io_ret (j, response, Some IOFailure)
        | Some encoded =>
            let receipt := completedReceipt j receipt (rsOK response) now (Digest (encoded +:+ rsPayload response)) in
            let committed := set_response response (Some receipt) (rsPayload response) in
            let* (j, err) := append_row j (completeRow request receipt response policy) 0 0 in
            match err with
            | Some e =>
                let* (j, reloadErr) := reloadAfterWriteFailure j in
                io_ret (j, committed, Some (Joined (omap id [Some e; reloadErr])))
            | None => io_ret (j, committed, None)
            end
        end
  end.

Definition sequence_le (a b : Receipt) : Prop := rcSequence a <= rcSequence b.

#[export] Instance sequence_le_dec a b : Decision (sequence_le a b).
Proof. unfold sequence_le. apply _. Defined.

Definition Unresolved (j : FileJournal) : list Receipt :=
  merge_sort sequence_le (map_to_list (ixUnresolved (jIndexes j))).*2.

Definition CompletedMutation (j : FileJournal) (operationID : string) (verb : Verb) (fenceResource : string)
  : result string Response :=
  let key := completedMutationKey operationID verb fenceResource in
  if bool_decide (key ∈ ixReleased (jIndexes j))
  then Err "broker completed mutation authority is released"
  else match ixCompleted (jIndexes j) !! key with
       | None => Err "broker completed mutation authority is unavailable"
       | Some row =>
           match validateJournalRow row, rResponse row with
           | None, Some response =>
               if rsOK response then Ok (set_response response (rsReceipt response) (rPayload row))
               else Err "broker completed mutation authority is unavailable"
           | _, _ => Err "broker completed mutation authority is unavailable"
           end
       end.

(** ** Opening the journal *)
Definition over_bounds (j : FileJournal) : bool :=
  (maxJournalRows <? Z.of_nat (length (jRows j))) || (maxJournalBytes <? jFileBytes j).

Definition load (j : FileJournal) (validateOwnership : bool) : IO (FileJournal * option ioError) :=
  let* mainExists := journalPathExists MainPath in
  match mainExists with
  | Err e => io_ret (j, Some e)
  | Ok mainExists =>
    let* temporaryExists := journalPathExists TemporaryPath in
    match temporaryExists with
    | Err e => io_ret (j, Some e)
    | Ok temporaryExists =>
      if mainExists : bool then
        let* loaded := readJournalFile MainPath validateOwnership true in
        match loaded with
        | Err e => io_ret (j, Some e)
        | Ok loaded =>
          let* removeErr := if temporaryExists : bool then removeCompactionTemporary else io_ret None in
          match removeErr with
          | Some e => io_ret (j, Some e)
          | None =>
            let* tailErr :=
              if 0 <=? lTailOffset loaded then recoverInterruptedTail (lTailOffset loaded) else io_ret None in
            match tailErr with
            | Some e => io_ret (j, Some e)
            | None =>
              let fileBytes := if 0 <=? lTailOffset loaded then lTailOffset loaded else lFileBytes loaded in
              let j := installRows j (lRows loaded) (lIndexes loaded) fileBytes in
              if over_bounds j then compact j (jRows j) None 0 0 else io_ret (j, None)
            end
          end
        end
      else if temporaryExists : bool then
        let* staged := readJournalFile TemporaryPath validateOwnership false in
        match staged with
        | Err e => io_ret (j, Some e)
        | Ok staged =>
          let* renameErr := fs_rename in
          match renameErr with
          | Some e => io_ret (j, Some e)
          | None =>
            let* dirErr := plain_call in
            match dirErr with
            | Some e => io_ret (j, Some e)
            | None =>
              let j := installRows j (lRows staged) (lIndexes staged) (lFileBytes staged) in
              if over_bounds j then compact j (jRows j) None 0 0 else io_ret (j, None)
            end
          end
        end
      else io_ret (j, None)
    end
  end.

(** [lstat], [mkdir] and [lstat] again when the directory is missing, the owner and the parent's sync. *)
Definition ensurePrivateDirectory (missing validateOwnership : bool) : IO (option ioError) :=
  let* err := plain_call in
  let* err :=
    if missing then
      let* err := plain_call in
      match err with Some e => io_ret (Some e) | None => plain_call end
    else io_ret err in
  match err with
  | Some _ => io_ret (Some (Refused "broker journal root ownership mode is unsafe"))
  | None =>
      let* err := if validateOwnership then plain_call else io_ret None in
      match err with
      | Some e => io_ret (Some e)
      | None => plain_call
      end
  end.

Definition openFileJournal (bootID : string) (missing validateOwnership : bool)
  : IO (result ioError FileJournal) :=
  let* err := ensurePrivateDirectory missing validateOwnership in
  match err with
  | Some e => io_ret (Err e)
  | None =>
      let* (j, err) := load (mkJournal bootID newJournalIndexes [] 0) validateOwnership in
      io_ret (match err with Some e => Err e | None => Ok j end)
  end.

End Journal.

Notation "'let*' x ':=' m 'in' k" := (io_bind m (fun x => k))
  (at level 10, x pattern, m at level 200, k at level 200).
