(* ===== verification/BrokerCodecModel.v ===== *)
(** * A concrete codec for the journal

    An executable instance of the interface [Codec] that satisfies [CodecLaws]: a
    row is written as an opening brace, the bits of an injective encoding of its
    fields and a closing brace, and a digest is a fixed hexadecimal text.  It shows
    that the laws are consistent, and concrete histories of the journal run on it. *)

From S2P Require Import Prelude GoStrings BrokerProtocol BrokerJournal.

Open Scope string_scope.
Open Scope Z_scope.

(** ** Injective encodings of the records, one list entry per field *)
Definition field {A : Type} `{Countable A} (fields : list positive) (i : nat) : option A :=
  fields !! i ≫= decode.

Definition receipt_fields (r : Receipt) : list positive :=
  [encode (rcSequence r); encode (rcRequestID r); encode (rcOperationID r); encode (rcIdempotencyKey r);
   encode (rcVerb r); encode (rcFenceResource r); encode (rcFenceSequence r); encode (rcFenceTokenDigest r);
   encode (rcPayloadDigest r); encode (rcResponseDigest r); encode (rcPeerRevision r);
   encode (rcBrokerBootID r); encode (rcPreviousDigest r); encode (rcOutcome r); encode (rcStartedAt r);
   encode (rcCompletedAt r); encode (rcReceiptDigest r)].

Definition receipt_of (l : list positive) : option Receipt :=
  a ← field l 0; b ← field l 1; c ← field l 2; d ← field l 3; e ← field l 4; f ← field l 5;
  g ← field l 6; h ← field l 7; i ← field l 8; j ← field l 9; k ← field l 10; m ← field l 11;
  n ← field l 12; o ← field l 13; p ← field l 14; q ← field l 15; r ← field l 16;
  Some (mkReceipt a b c d e f g h i j k m n o p q r).

Lemma receipt_of_fields r : receipt_of (receipt_fields r) = Some r.
Proof.
  destruct r. unfold receipt_of, receipt_fields, field. cbn. rewrite !decode_encode. cbn.
  repeat (rewrite decode_encode; cbn). reflexivity.
Qed.

#[export] Instance Receipt_countable : Countable Receipt := inj_countable _ _ receipt_of_fields.

Definition response_fields (r : Response) : list positive :=
  [encode (rsProtocolVersion r); encode (rsCapabilityRevision r); encode (rsRequestID r);
   encode (rsOperationID r); encode (rsVerb r); encode (rsOK r); encode (rsCode r); encode (rsMessage r);
   encode (rsReplay r); encode (rsReceipt r); encode (rsPayloadDigest r); encode (rsPayload r)].

Definition response_of (l : list positive) : option Response :=
  a ← field l 0; b ← field l 1; c ← field l 2; d ← field l 3; e ← field l 4; f ← field l 5;
  g ← field l 6; h ← field l 7; i ← field l 8; j ← field l 9; k ← field l 10; m ← field l 11;
  Some (mkResponse a b c d e f g h i j k m).

Lemma response_of_fields r : response_of (response_fields r) = Some r.
Proof.
  destruct r. unfold response_of, response_fields, field. cbn.
  repeat (rewrite decode_encode; cbn). reflexivity.
Qed.

#[export] Instance Response_countable : Countable Response := inj_countable _ _ response_of_fields.

Definition reference_fields (r : completedMutationReference) : list positive :=
  [encode (cmOperationID r); encode (cmVerb r); encode (cmFenceResource r)].

Definition reference_of (l : list positive) : option completedMutationReference :=
  a ← field l 0; b ← field l 1; c ← field l 2; Some (mkReference a b c).

Lemma reference_of_fields r : reference_of (reference_fields r) = Some r.
Proof.
  destruct r. unfold reference_of, reference_fields, field. cbn.
  repeat (rewrite decode_encode; cbn). reflexivity.
Qed.

#[export] Instance reference_countable : Countable completedMutationReference :=
  inj_countable _ _ reference_of_fields.

Definition authority_fields (a : journalAuthorityState) : list positive :=
  [encode (asSequence a); encode (asPreviousDigest a); encode (asFences a)].

Definition authority_of (l : list positive) : option journalAuthorityState :=
  a ← field l 0; b ← field l 1; c ← field l 2; Some (mkAuthority a b c).

Lemma authority_of_fields a : authority_of (authority_fields a) = Some a.
Proof.
  destruct a. unfold authority_of, authority_fields, field. cbn.
  repeat (rewrite decode_encode; cbn). reflexivity.
Qed.

#[export] Instance authority_countable : Countable journalAuthorityState :=
  inj_countable _ _ authority_of_fields.

Definition row_fields (r : journalRow) : list positive :=
  [encode (rSchema r); encode (rPhase r); encode (rIdempotencyKey r); encode (rRequestDigest r);
   encode (rFenceResource r); encode (rFenceSequence r); encode (rStartedAt r); encode (rResponse r);
   encode (rReceipt r); encode (rPayload r); encode (rAuthority r); encode (rRetainUntilRelease r);
   encode (rReleases r)].

Definition row_of (l : list positive) : option journalRow :=
  a ← field l 0; b ← field l 1; c ← field l 2; d ← field l 3; e ← field l 4; f ← field l 5;
  g ← field l 6; h ← field l 7; i ← field l 8; j ← field l 9; k ← field l 10; m ← field l 11;
  n ← field l 12; Some (mkRow a b c d e f g h i j k m n).

Lemma row_of_fields r : row_of (row_fields r) = Some r.
Proof.
  destruct r. unfold row_of, row_fields, field. cbn.
  repeat (rewrite decode_encode; cbn). reflexivity.
Qed.

#[export] Instance row_countable : Countable journalRow := inj_countable _ _ row_of_fields.

(** ** Bits as text *)
Definition open_brace : Ascii.ascii := Ascii.ascii_of_nat 123.
Definition close_brace : Ascii.ascii := Ascii.ascii_of_nat 125.
Definition bit0 : Ascii.ascii := Ascii.ascii_of_nat 48.
Definition bit1 : Ascii.ascii := Ascii.ascii_of_nat 49.

Fixpoint bits_text (p : positive) : string :=
  match p with
  | xH => String close_brace ""
  | xO p => String bit0 (bits_text p)
  | xI p => String bit1 (bits_text p)
  end.

Fixpoint text_bits (s : string) : option positive :=
  match s with
  | "" => None
  | String c s' =>
      if Ascii.eqb c close_brace then if String.eqb s' "" then Some xH else None
      else if Ascii.eqb c bit0 then xO <$> text_bits s'
      else if Ascii.eqb c bit1 then xI <$> text_bits s'
      else None
  end.

Lemma text_bits_text p : text_bits (bits_text p) = Some p.
Proof. induction p as [p IH|p IH|]; [..|done]; cbn; by rewrite IH. Qed.

Lemma text_bits_brace t s : text_bits (t +:+ String open_brace s) = None.
Proof.
  induction t as [|c t IH]; [done|]. change (String c t +:+ String open_brace s) with
    (String c (t +:+ String open_brace s)). cbn [text_bits]. rewrite IH.
  destruct (Ascii.eqb c close_brace), (Ascii.eqb c bit0), (Ascii.eqb c bit1); try done; by destruct t.
Qed.

Lemma bits_text_line p : has_char nl (bits_text p) = false.
Proof.
  unfold has_char. rewrite negb_false_iff. induction p; simpl; try done.
Qed.

Definition model_digest : string := "0123456789abcdef0123456789abcdef0123456789abcdef0123456789abcdef".

#[export] Instance modelCodec : Codec := {|
  Digest := fun _ => model_digest;
  marshalReceipt := fun _ => "receipt";
  marshalResponse := fun _ => Some "response";
  marshalRequest := fun _ => "request";
  marshalRow := fun r => Some (String open_brace (bits_text (encode r)));
  decodeRow := fun s =>
    match s with
    | String c s' => if Ascii.eqb c open_brace then text_bits s' ≫= decode else None
    | "" => None
    end;
  stable := fun _ => True
|}.

Lemma model_roundtrip r s : marshalRow r = Some s -> decodeRow s = Some r.
Proof. intros [= <-]. cbn -[encode decode]. rewrite text_bits_text. cbn -[encode decode]. apply decode_encode. Qed.

#[export] Instance modelCodecLaws : CodecLaws modelCodec.
Proof.
  split.
  - done.
  - intros r s [= <-]. cbn -[encode]. unfold HasPrefix. simpl. by destruct (bits_text _).
  - intros r s [= <-]. pose proof (bits_text_line (encode r)) as H. unfold has_char in *. cbn -[encode]. exact H.
  - intros r s r' Hm Hd _. rewrite (model_roundtrip _ _ Hm) in Hd. by injection Hd as <-.
  - intros r s r' a Hm Hd Hp Ha _. rewrite (model_roundtrip _ _ Hm) in Hd. injection Hd as <-. eauto.
  - intros r s _. apply model_roundtrip.
  - intros t r s Ht [= <-]. destruct t as [|c t]; [done|]. cbn -[encode decode text_bits].
    change (String c t +:+ String open_brace (bits_text (encode r))) with
      (String c (t +:+ String open_brace (bits_text (encode r)))). cbn -[encode decode text_bits].
    rewrite text_bits_brace. by destruct (Ascii.eqb c open_brace).
Qed.
