(* ===== verification/BrokerJournalSafety.v ===== *)
(** * The privileged broker: the journal across faults, crashes and compactions

    The section [Lines] relates a file to its lines, [Fences] shows that rows only
    raise fences, [Triples] is a small program logic for the journal's system calls
    with a crash condition, and [Runs] proves that a fence is granted at most once
    in every history of openings, requests, faults and crashes. *)

From Stdlib Require Import Sorting.Sorted.
From S2P Require Import Prelude GoStrings BrokerProtocol BrokerJournal BrokerCodecModel.

Open Scope string_scope.
Open Scope Z_scope.

(** ** Files as lines *)
Definition unlines (lines : list string) : string := foldr (fun l s => l +:+ String nl s) "" lines.

Definition line_free (s : string) : Prop := has_char nl s = false.

Lemma line_free_empty : line_free "".
Proof. done. Qed.

Lemma line_free_cons c s : line_free (String c s) <-> Ascii.eqb c nl = false /\ line_free s.
Proof.
  unfold line_free, has_char. simpl. rewrite !negb_false_iff, andb_true_iff, negb_true_iff. done.
Qed.

Lemma line_free_app s t : line_free (s +:+ t) <-> line_free s /\ line_free t.
Proof.
  unfold line_free, has_char. rewrite all_chars_app, !negb_false_iff, andb_true_iff. done.
Qed.

Lemma line_free_take n s : line_free s -> line_free (take_chars n s).
Proof.
  revert n. induction s as [|c s IH]; intros [|n]; try done. cbn [take_chars].
  rewrite !line_free_cons. naive_solver.
Qed.

Lemma take_chars_all n s : (String.length s <= n)%nat -> take_chars n s = s.
Proof.
  revert n. induction s as [|c s IH]; intros [|n] Hn; simpl in *; try done; [lia|].
  rewrite IH by lia. done.
Qed.

Lemma take_chars_app s t : take_chars (String.length s) (s +:+ t) = s.
Proof.
  induction s as [|c s IH]; [by destruct t|].
  change (String c s +:+ t) with (String c (s +:+ t)). cbn [String.length take_chars]. by rewrite IH.
Qed.

(** A prefix of a line and its newline is a newline-free prefix of the line, or all of it. *)
Lemma take_line n s :
  line_free s ->
  take_chars n (s +:+ String nl "") = s +:+ String nl "" \/
  (exists p, take_chars n (s +:+ String nl "") = p /\ line_free p /\ p = take_chars n s).
Proof.
  revert n. induction s as [|c s IH]; intros n Hs.
  - destruct n as [|n]; [right; by exists ""|]. left. simpl. by destruct n.
  - change (String c s +:+ String nl "") with (String c (s +:+ String nl "")).
    apply line_free_cons in Hs as [Hc Hs]. destruct n as [|n]; [right; by exists ""|].
    cbn [take_chars]. destruct (IH n Hs) as [->|(p & Hp & Hf & Hq)]; [by left|].
    right. exists (String c p). rewrite Hp, <-Hq. split_and!; [done| |done]. by apply line_free_cons.
Qed.

Lemma slen_take_full n s : slen (take_chars n s) = slen s -> take_chars n s = s.
Proof.
  unfold slen. intros H%Nat2Z.inj. revert n H.
  induction s as [|c s IH]; intros [|n]; simpl; intros H; try done. injection H as H. by rewrite IH.
Qed.

Lemma unlines_app l1 l2 : unlines (l1 ++ l2) = unlines l1 +:+ unlines l2.
Proof.
  induction l1 as [|l l1 IH]; [done|]. unfold unlines in *. simpl. rewrite IH.
  change (String nl (foldr (fun l s => l +:+ String nl s) "" l1 +:+ foldr (fun l s => l +:+ String nl s) "" l2))
    with (String nl (foldr (fun l s => l +:+ String nl s) "" l1) +:+ foldr (fun l s => l +:+ String nl s) "" l2).
  by rewrite app_assoc_str.
Qed.

Lemma unlines_snoc lines l : unlines (lines ++ [l]) = unlines lines +:+ (l +:+ String nl "").
Proof. by rewrite unlines_app. Qed.

Lemma Split_unlines lines :
  Forall line_free lines -> Split (unlines lines) nl = (lines ++ [""])%list.
Proof.
  induction 1 as [|l lines Hl _ IH]; [done|]. unfold unlines. simpl. rewrite Split_app by done.
  by rewrite <-IH.
Qed.

Lemma committed_length_free t : line_free t -> committed_length t = O.
Proof.
  induction t as [|c t IH]; [done|]. rewrite line_free_cons. intros [Hc Ht]. simpl.
  by rewrite IH, Hc.
Qed.

Lemma committed_length_nl t : (0 < committed_length (String nl t))%nat.
Proof. simpl. destruct (committed_length t); lia. Qed.

Lemma committed_length_app s t :
  (0 < committed_length t)%nat -> committed_length (s +:+ t) = (String.length s + committed_length t)%nat.
Proof.
  intros Ht. induction s as [|c s IH]; [done|].
  change (String c s +:+ t) with (String c (s +:+ t)). cbn [committed_length String.length].
  rewrite IH. destruct (String.length s + committed_length t)%nat eqn:E; lia.
Qed.

Lemma committed_length_unlines lines t :
  line_free t -> committed_length (unlines lines +:+ t) = String.length (unlines lines).
Proof.
  intros Ht. induction lines as [|l lines IH]; [by apply committed_length_free|].
  unfold unlines in *. simpl. rewrite <-app_assoc_str.
  set (u := foldr (fun l s => l +:+ String nl s) "" lines) in *.
  change (String nl u +:+ t) with (String nl (u +:+ t)).
  rewrite committed_length_app by apply committed_length_nl.
  enough (committed_length (String nl (u +:+ t)) = S (String.length u)) as ->.
  { rewrite <-(Nat2Z.id (String.length (l +:+ String nl u))). fold (slen (l +:+ String nl u)).
    rewrite slen_app. unfold slen. simpl. lia. }
  simpl. rewrite IH. destruct (String.length u); simpl; done.
Qed.

Lemma last_char_app s c t : last_char (s +:+ String c t) = last_char (String c t).
Proof.
  induction s as [|d s IH]; [done|].
  change (String d s +:+ String c t) with (String d (s +:+ String c t)).
  destruct s as [|e s]; [done|exact IH].
Qed.

Lemma last_char_unlines lines t :
  line_free t ->
  (match last_char (unlines lines +:+ t) with Some c => negb (Ascii.eqb c nl) | None => false end) =
  negb (String.eqb t "").
Proof.
  intros Ht. destruct t as [|c t].
  - rewrite app_empty_r. destruct lines as [|l lines _] using rev_ind; [done|].
    rewrite unlines_snoc. by rewrite app_assoc_str, last_char_app.
  - rewrite last_char_app. clear lines. revert c Ht. induction t as [|d t IH]; intros c Ht.
    + apply line_free_cons in Ht as [Hc _]. simpl. by rewrite Hc.
    + apply line_free_cons in Ht as [_ Ht]. change (last_char (String c (String d t))) with (last_char (String d t)).
      rewrite IH by done. done.
Qed.

Lemma file_lines s : exists lines t, s = unlines lines +:+ t /\ Forall line_free lines /\ line_free t.
Proof.
  induction s as [|c s (lines & t & -> & Hl & Ht)]; [by exists [], ""|].
  destruct (Ascii.eqb c nl) eqn:Hc.
  - apply Ascii.eqb_eq in Hc as ->. exists ("" :: lines), t. split_and!; [done| |done]. by constructor.
  - destruct lines as [|l lines].
    + exists [], (String c t). split_and!; [done|done|]. by apply line_free_cons.
    + inversion Hl; subst. exists (String c l :: lines), t. split_and!; [done| |done].
      constructor; [|done]. by apply line_free_cons.
Qed.

Section Fences.
Context `{C : Codec}.

Lemma parseJournal_lines lines t :
  Forall line_free lines -> line_free t ->
  parseJournal (unlines lines +:+ t) true =
  (let? rows := parse_lines (lines ++ [""])%list in
   let? indexes := buildJournalIndexes rows in
   Ok (mkLoaded rows indexes (slen (unlines lines))
         (if String.eqb t "" then -1 else slen (unlines lines)))).
Proof.
  intros Hl Ht. unfold parseJournal. rewrite last_char_unlines by done.
  destruct t as [|c t].
  - rewrite app_empty_r. simpl. rewrite take_chars_all, Split_unlines by done. done.
  - simpl. rewrite committed_length_unlines by done. by rewrite take_chars_app, Split_unlines.
Qed.

(** A file whose last record is complete parses in the same way without recovery. *)
Lemma parseJournal_strict s loaded :
  parseJournal s false = Ok loaded ->
  exists lines, s = unlines lines /\ Forall line_free lines /\ parseJournal s true = Ok loaded.
Proof.
  destruct (file_lines s) as (lines & t & -> & Hl & Ht). intros Hp.
  assert (t = "") as ->.
  { unfold parseJournal in Hp. rewrite last_char_unlines in Hp by done.
    destruct (String.eqb_spec t "") as [->|Hne]; [done|]. by destruct t. }
  exists lines. rewrite app_empty_r in *. split_and!; [done|done|].
  unfold parseJournal in *. pose proof (last_char_unlines lines "" ltac:(done)) as Hc.
  rewrite app_empty_r in Hc. rewrite Hc in *. exact Hp.
Qed.

Lemma parse_lines_snoc lines l rows :
  Forall (fun s => s <> "") (lines ++ [l]) ->
  parse_lines (lines ++ [l; ""])%list = Ok rows ->
  exists rows' row, parse_lines (lines ++ [""])%list = Ok rows' /\ decodeRow l = Some row /\
    rows = (rows' ++ [row])%list /\ validateJournalRow row = None.
Proof.
  revert rows. induction lines as [|l0 lines IH]; intros rows Hne Hp.
  - simpl in Hp. inversion Hne as [|?? Hl _]; subst. rewrite (proj2 (Z.eqb_neq _ _)) in Hp.
    2:{ destruct l; [done|]. unfold slen. simpl. lia. }
    repeat case_match; try done. simpl in Hp. injection Hp as <-.
    eexists [], _. split_and!; done.
  - simpl in Hp |- *. inversion Hne as [|?? Hl Hrest]; subst.
    destruct (slen l0 =? 0) eqn:E0.
    { apply Z.eqb_eq in E0. unfold slen in E0. destruct l0; simpl in E0; [done|lia]. }
    destruct (maxJournalRowBytes <? slen l0); [done|].
    destruct (decodeRow l0) as [r0|]; [|done]. destruct (validateJournalRow r0); [done|].
    destruct (parse_lines (lines ++ [l; ""])%list) as [rows1|] eqn:E1; simpl in Hp; [|done].
    injection Hp as <-. destruct (IH rows1 Hrest eq_refl) as (rows' & row & -> & Hd & -> & Hv).
    by exists (r0 :: rows'), row.
Qed.

Lemma parse_lines_empty_err lines l rows :
  "" ∈ lines -> parse_lines (lines ++ [l])%list = Ok rows -> False.
Proof.
  revert rows. induction lines as [|l0 lines IH]; intros rows Hin Hp; [by apply elem_of_nil in Hin|].
  simpl in Hp. destruct (slen l0 =? 0) eqn:E0; [by destruct lines|].
  apply elem_of_cons in Hin as [<-|Hin]; [done|].
  repeat case_match; try done.
  destruct (parse_lines (lines ++ [l])%list) eqn:E1; simpl in Hp; [|done]. eauto.
Qed.

(** *** Rows only raise fences *)
Definition fences_le (f g : gmap string Z) : Prop := forall r, fence_of f r <= fence_of g r.

#[export] Instance fences_le_preorder : PreOrder fences_le.
Proof. split; [intros f r; lia|]. intros f g h H1 H2 r. specialize (H1 r). specialize (H2 r). lia. Qed.

Lemma fences_le_insert f r n : fence_of f r < n -> fences_le f (<[r := n]> f).
Proof.
  intros Hlt r'. unfold fence_of. destruct (decide (r' = r)) as [->|Hne].
  - rewrite lookup_insert_eq. unfold fence_of in Hlt. simpl. lia.
  - by rewrite lookup_insert_ne.
Qed.

Lemma index_fence_le ix row : fences_le (ixFences ix) (ixFences (index_fence ix row)).
Proof.
  unfold index_fence. case_match eqn:E; [|done]. simpl. apply fences_le_insert. lia.
Qed.

Lemma index_fence_covers ix row :
  rFenceSequence row <= fence_of (ixFences (index_fence ix row)) (rFenceResource row).
Proof.
  unfold index_fence. case_match eqn:E; simpl; [|lia]. unfold fence_of.
  rewrite lookup_insert_eq. simpl. lia.
Qed.

Lemma index_complete_fences ix row receipt response :
  ixFences (index_complete ix row receipt response) = ixFences ix.
Proof. unfold index_complete. by destruct (rsOK response), (rReleases row). Qed.

Lemma index_chain_fences s ix receipt : ixFences (index_chain s ix receipt) = ixFences ix.
Proof. unfold index_chain. by case_match. Qed.

(** The fences after one row that is not a snapshot. *)
Lemma index_row_fences i s row s' :
  index_row i s row = Ok s' -> phase_is "authority" row = false ->
  ixFences (bIndexes s') = ixFences (index_fence (bIndexes s) row).
Proof.
  unfold index_row, phase_is. intros Hr Hp. rewrite Hp in Hr.
  destruct (validateJournalRow row); [done|]. destruct (rReceipt row) as [receipt|]; [|done].
  destruct (rcSequence receipt <? bLastSequence s); [done|]. injection Hr as <-. simpl.
  assert (Hf : ixFences (index_fence (index_chain s (bIndexes s) receipt) row) =
               ixFences (index_fence (bIndexes s) row)).
  { unfold index_fence. rewrite index_chain_fences. case_match; simpl; by rewrite ?index_chain_fences. }
  destruct (String.eqb (rPhase row) "active"); [done|].
  destruct (rResponse row); [by rewrite index_complete_fences|done].
Qed.

Lemma index_row_not_first i s row s' :
  i <> 0 -> index_row i s row = Ok s' -> phase_is "authority" row = false.
Proof.
  unfold index_row, phase_is. intros Hi Hr. destruct (validateJournalRow row); [done|].
  destruct (String.eqb (rPhase row) "authority"); [|done]. destruct (rAuthority row); [|done].
  by rewrite (proj2 (Z.eqb_neq _ _) Hi) in Hr.
Qed.

Lemma index_row_le i s row s' :
  i <> 0 -> index_row i s row = Ok s' -> fences_le (ixFences (bIndexes s)) (ixFences (bIndexes s')).
Proof.
  intros Hi Hr. rewrite (index_row_fences _ _ _ _ Hr) by (by eapply index_row_not_first).
  apply index_fence_le.
Qed.

Lemma index_rows_le rows i s s' :
  0 < i -> index_rows i s rows = Ok s' -> fences_le (ixFences (bIndexes s)) (ixFences (bIndexes s')).
Proof.
  revert i s. induction rows as [|row rows IH]; intros i s Hi; simpl; [intros [= <-]; done|].
  destruct (index_row i s row) as [s1|] eqn:E; simpl; [|done]. intros Hr.
  transitivity (ixFences (bIndexes s1)); [eapply index_row_le; [|done]; lia|]. eapply IH; [|done]. lia.
Qed.

Lemma index_rows_app l1 l2 i s :
  index_rows i s (l1 ++ l2) = (let? s' := index_rows i s l1 in index_rows (i + Z.of_nat (length l1)) s' l2).
Proof.
  revert i s. induction l1 as [|row l1 IH]; intros i s.
  - simpl. by rewrite Z.add_0_r.
  - cbn [app index_rows length]. destruct (index_row i s row) as [s1|]; [|done].
    cbn [rbind]. rewrite IH. destruct (index_rows (i + 1) s1 l1); [|done]. simpl. f_equal. lia.
Qed.

Lemma build_app l1 l2 ix :
  buildJournalIndexes (l1 ++ l2) = Ok ix ->
  exists s s', index_rows 0 initialBuild l1 = Ok s /\
    buildJournalIndexes l1 = Ok (bIndexes s) /\
    index_rows (Z.of_nat (length l1)) s l2 = Ok s' /\ ix = bIndexes s'.
Proof.
  unfold buildJournalIndexes. rewrite index_rows_app. destruct (index_rows 0 initialBuild l1) as [s|]; [|done].
  simpl. destruct (index_rows _ s l2) as [s'|] eqn:E; [|done]. simpl. intros [= <-]. by exists s, s'.
Qed.

End Fences.

(** ** A program logic for the system calls
    [triple P m Q R]: run from files that satisfy [P], [m] ends with a result and
    files that satisfy [Q], or the process dies with files that satisfy [R]. *)
Definition triple {A : Type} (P : disk -> Prop) (m : IO A) (Q : A -> disk -> Prop) (R : disk -> Prop) : Prop :=
  forall w, P (wDisk w) ->
  match m w with
  | (Some a, w') => Q a (wDisk w')
  | (None, w') => R (wDisk w')
  end.

Section Triples.
Context {A B : Type}.
Implicit Types P R : disk -> Prop.

Lemma triple_ret P (a : A) (Q : A -> disk -> Prop) R :
  (forall d, P d -> Q a d) -> triple P (io_ret a) Q R.
Proof. intros H w Hp. by apply H. Qed.

Lemma triple_bind P (m : IO A) (k : A -> IO B) (Q : A -> disk -> Prop) (Q' : B -> disk -> Prop) R :
  triple P m Q R -> (forall a, triple (Q a) (k a) Q' R) -> triple P (io_bind m k) Q' R.
Proof.
  intros Hm Hk w Hp. unfold io_bind. specialize (Hm w Hp). destruct (m w) as [[a|] w']; [|done].
  by apply Hk.
Qed.

Lemma triple_weaken P P' (m : IO A) (Q Q' : A -> disk -> Prop) R :
  triple P' m Q' R -> (forall d, P d -> P' d) -> (forall a d, Q' a d -> Q a d) -> triple P m Q R.
Proof. intros Hm HP HQ w Hp. specialize (Hm w (HP _ Hp)). destruct (m w) as [[a|] w']; auto. Qed.

Lemma triple_crash P (m : IO A) (Q : A -> disk -> Prop) R R' :
  triple P m Q R' -> (forall d, R' d -> R d) -> triple P m Q R.
Proof. intros Hm HR w Hp. specialize (Hm w Hp). destruct (m w) as [[a|] w']; auto. Qed.

(** A fact about the starting files may be assumed. *)
Lemma triple_exists (P : disk -> Prop) (F : disk -> Prop) (m : IO A) (Q : A -> disk -> Prop) R :
  (forall d0, P d0 -> triple (fun d => d = d0) m Q R) -> triple P m Q R.
Proof. intros H w Hp. by apply (H (wDisk w) Hp). Qed.

Lemma triple_syscall P (ok fail : disk -> A) f (Q : A -> disk -> Prop) R :
  (forall d, P d -> Q (ok d) (f d) /\ Q (fail d) d /\ R d /\ R (f d)) -> triple P (syscall ok fail f) Q R.
Proof.
  intros H w Hp. unfold syscall, next_outcome. specialize (H _ Hp) as (H1 & H2 & H3 & H4).
  destruct w as [[|[|n|n|[|n]] rest] d]; simpl in *; done.
Qed.

End Triples.

Lemma triple_plain (P : disk -> Prop) (R : disk -> Prop) :
  (forall d, P d -> R d) -> triple P plain_call (fun _ d => P d) R.
Proof. intros H. apply triple_syscall. auto. Qed.

Lemma triple_write (P : disk -> Prop) p data (Q : Z * option ioError -> disk -> Prop) (R : disk -> Prop) :
  (forall d n, P d ->
    let d' := set_file d p (Some (default "" (file_at d p) +:+ take_chars n data)) in
    R d' /\ Q (slen (take_chars n data), Some IOFailure) d' /\ Q (slen (take_chars n data), None) d') ->
  triple P (fs_write p data) Q R.
Proof.
  intros H w Hp. unfold fs_write, next_outcome.
  destruct w as [[|[|n|n|n] rest] d]; simpl in *.
  - specialize (H d (String.length data) Hp). rewrite take_chars_all in H by lia. tauto.
  - specialize (H d (String.length data) Hp). rewrite take_chars_all in H by lia. tauto.
  - specialize (H d n Hp). tauto.
  - specialize (H d n Hp). tauto.
  - specialize (H d n Hp). tauto.
Qed.

(** Step through a bind, leaving the two obligations. *)
Ltac tbind Q := eapply (triple_bind _ _ _ Q).

(** ** Grants and the files that remember them *)
Section Grants.
Context `{C : Codec} `{!CodecLaws C}.

(** A grant is a fence, a resource and a sequence number; fences remember it when
    they have reached the number. *)
Definition grant : Type := string * Z.

Definition holds (G : list grant) (f : gmap string Z) : Prop :=
  Forall (fun g => g.2 <= fence_of f g.1) G.

Definition positive (G : list grant) : Prop := Forall (fun g => 0 < g.2) G.

Lemma holds_le G f g : holds G f -> fences_le f g -> holds G g.
Proof. intros H Hle. eapply Forall_impl; [exact H|]. intros [r n] Hn. specialize (Hle r). simpl in *. lia. Qed.

Lemma holds_empty G : positive G -> holds G ∅ -> G = [].
Proof.
  intros Hp Hh. destruct G as [|[r n] G]; [done|]. apply Forall_cons in Hp as [H1 _], Hh as [H2 _].
  unfold fence_of in H2. simpl in *. rewrite lookup_empty in H2. simpl in H2. lia.
Qed.

Lemma holds_snoc G r n f : holds G f -> n <= fence_of f r -> holds (G ++ [(r, n)]) f.
Proof. intros H Hn. apply Forall_app. split; [done|]. by constructor. Qed.

(** A file remembers grants when every successful reading of it does.  Its last,
    interrupted record starts like a row. *)
Definition covers (G : list grant) (s : string) : Prop :=
  exists lines t, s = unlines lines +:+ t /\ Forall line_free lines /\ line_free t /\
    (t = "" \/ HasPrefix t "{" = true) /\
    forall rows ix, parse_lines (lines ++ [""])%list = Ok rows -> buildJournalIndexes rows = Ok ix ->
      holds G (ixFences ix).

Definition good (G : list grant) (d : disk) : Prop :=
  match dMain d with None => G = [] | Some s => covers G s end.

Definition brace : Ascii.ascii := Ascii.ascii_of_nat 123.

Lemma HasPrefix_brace s : HasPrefix s "{" = true <-> exists s', s = String brace s'.
Proof.
  unfold HasPrefix. change "{" with (String brace ""). split.
  - destruct s as [|c s]; [done|]. cbn [String.prefix].
    destruct (Ascii.ascii_dec brace c) as [<-|]; [eauto|done].
  - intros [s' ->]. cbn [String.prefix]. by destruct (Ascii.ascii_dec brace brace), s'.
Qed.

Lemma brace_take n s : HasPrefix s "{" = true -> take_chars n s = "" \/ HasPrefix (take_chars n s) "{" = true.
Proof.
  intros [s' ->]%HasPrefix_brace. destruct n as [|n]; [by left|]. right. apply HasPrefix_brace. simpl. eauto.
Qed.

Lemma brace_app s t : HasPrefix s "{" = true -> HasPrefix (s +:+ t) "{" = true.
Proof. intros [s' ->]%HasPrefix_brace. apply HasPrefix_brace. by exists (s' +:+ t). Qed.

Lemma brace_not_empty s : HasPrefix s "{" = true -> s <> "".
Proof. by intros [s' ->]%HasPrefix_brace. Qed.

(** What the end of a file becomes when a complete encoded row is appended. *)
Lemma covers_append G s row text E :
  covers G s -> positive G -> marshalRow row = Some text ->
  E = [] \/ (E = [(rFenceResource row, rFenceSequence row)] /\
             safeIdentifier (rFenceResource row) = true /\ rPhase row <> "authority") ->
  covers (G ++ E) (s +:+ (text +:+ String nl "")).
Proof.
  intros (lines & t & -> & Hl & Ht & Hbrace & Hcov) Hpos Hm HE.
  pose proof (marshalRow_line _ _ Hm) as Hline. pose proof (marshalRow_object _ _ Hm) as Hobj.
  exists (lines ++ [t +:+ text])%list, "". rewrite unlines_snoc, app_empty_r. split_and!; [| |done|by left|].
  { by rewrite <-!app_assoc_str. }
  { apply Forall_app. split; [done|]. constructor; [|done]. by apply line_free_app. }
  intros rows ix Hparse Hbuild. rewrite <-app_assoc in Hparse. simpl in Hparse.
  assert (Hne : Forall (fun s => s <> "") lines).
  { apply Forall_forall. intros l Hin ->.
    change [t +:+ text; ""] with ([t +:+ text] ++ [""])%list in Hparse. rewrite app_assoc in Hparse.
    eapply parse_lines_empty_err, Hparse. apply elem_of_app. by left. }
  assert (Hne' : t +:+ text <> "").
  { apply brace_not_empty in Hobj. destruct t; [done|]. done. }
  apply parse_lines_snoc in Hparse as (rows' & row' & Hp' & Hd & -> & Hv).
  2:{ apply Forall_app. split; [done|]. by constructor. }
  destruct Hbrace as [->|Hb]; [|by rewrite (decodeRow_torn _ _ _ Hb Hm) in Hd].
  simpl in Hd. apply build_app in Hbuild as (st & st' & Hst & Hb' & Hrow & ->).
  specialize (Hcov rows' (bIndexes st) Hp' Hb').
  simpl in Hrow. destruct (index_row _ st row') as [st1|] eqn:Hir; [|done]. simpl in Hrow. injection Hrow as <-.
  assert (HG : holds G (ixFences (bIndexes st1))).
  { destruct rows' as [|r0 rows'].
    - simpl in Hst. injection Hst as <-. apply holds_empty in Hcov as ->; [constructor|done].
    - eapply holds_le; [exact Hcov|]. eapply index_row_le, Hir. simpl. lia. }
  destruct HE as [->|(-> & Hsafe & Hphase)]; [by rewrite app_nil_r|].
  destruct (decodeRow_fence _ _ _ Hm Hd Hsafe) as (Hph & Hres & Hseq).
  apply holds_snoc; [done|]. rewrite <-Hres, <-Hseq.
  rewrite (index_row_fences _ _ _ _ Hir).
  - apply index_fence_covers.
  - unfold phase_is. rewrite Hph. by apply String.eqb_neq.
Qed.

(** An interrupted write of an encoded row leaves what was remembered. *)
Lemma covers_write G s row text n :
  covers G s -> positive G -> marshalRow row = Some text ->
  covers G (s +:+ take_chars n (text +:+ String nl "")).
Proof.
  intros Hc Hpos Hm. pose proof (marshalRow_line _ _ Hm) as Hline.
  pose proof (marshalRow_object _ _ Hm) as Hobj.
  destruct (take_line n text Hline) as [->|(p & -> & Hp & Hq)].
  { rewrite <-(app_nil_r G). eapply covers_append; eauto. }
  destruct Hc as (lines & t & -> & Hl & Ht & Hbrace & Hcov).
  exists lines, (t +:+ p). split_and!; [|done|by apply line_free_app| |done].
  - by rewrite app_assoc_str.
  - destruct Hbrace as [->|Hb]; [|right; by apply brace_app].
    rewrite Hq. simpl. by apply brace_take.
Qed.

(** What a reading of a file gives. *)
Lemma covers_parse G s loaded :
  covers G s -> parseJournal s true = Ok loaded ->
  holds G (ixFences (lIndexes loaded)) /\ buildJournalIndexes (lRows loaded) = Ok (lIndexes loaded) /\
  (0 <= lTailOffset loaded -> covers G (take_chars (Z.to_nat (lTailOffset loaded)) s)).
Proof.
  intros (lines & t & -> & Hl & Ht & Hbrace & Hcov). rewrite parseJournal_lines by done.
  destruct (parse_lines _) as [rows|] eqn:Hp; [|done]. simpl.
  destruct (buildJournalIndexes rows) as [ix|] eqn:Hb; [|done]. simpl. intros [= <-]. simpl.
  split_and!; [by eapply Hcov|done|].
  destruct (String.eqb_spec t "") as [->|Hne]; [lia|]. intros _.
  unfold slen. rewrite Nat2Z.id, take_chars_app. exists lines, "". rewrite app_empty_r.
  split_and!; [done|done|done|by left|]. by rewrite Hp.
Qed.

Lemma covers_empty : covers [] "".
Proof. exists [], "". split_and!; [done|constructor|done|by left|]. intros. constructor. Qed.

(** A well-terminated file remembers the empty list of grants. *)
Lemma covers_nil lines : Forall line_free lines -> covers [] (unlines lines).
Proof. intros H. exists lines, "". rewrite app_empty_r. split_and!; [done|done|done|by left|]. constructor. Qed.

End Grants.

(** ** The operations keep files and memory good *)
Section Operations.
Context `{C : Codec} `{!CodecLaws C}.

(** The journal in memory remembers the grants, and its fences are those of its rows. *)
Definition memory_good (G : list grant) (j : FileJournal) : Prop :=
  holds G (ixFences (jIndexes j)) /\
  exists ix, buildJournalIndexes (jRows j) = Ok ix /\ ixFences ix = ixFences (jIndexes j).

Lemma good_temporary G d content : good G (set_file d TemporaryPath content) <-> good G d.
Proof. done. Qed.

Lemma triple_read p vo rt (P : disk -> Prop) :
  triple P (readJournalFile p vo rt)
    (fun r d => P d /\ match r with
                       | Ok l => exists s, file_at d p = Some s /\ parseJournal s rt = Ok l
                       | Err NotExist => file_at d p = None
                       | Err _ => True
                       end) P.
Proof.
  unfold readJournalFile.
  tbind (fun (r : result ioError unit) d => P d /\ match r with Ok _ => exists s, file_at d p = Some s | Err NotExist => file_at d p = None
                                   | Err _ => True end).
  { apply triple_syscall. intros d Hd. split_and!; try done. destruct (file_at d p); eauto. }
  intros [u|e]; [|apply triple_ret; intros d [Hp He]; split; [done|by destruct e]].
  set (P1 := fun d => P d /\ exists s, file_at d p = Some s).
  assert (HP1 : forall d, P1 d -> P d) by (intros d [? _]; done).
  tbind (fun (_ : result ioError Z) d => P1 d). { apply triple_syscall. intros d Hd. split_and!; auto. }
  intros st. destruct (match st with Ok size => _ | Err _ => true end).
  { tbind (fun (_ : option ioError) d => P1 d); [by apply triple_plain|]. intros _. apply triple_ret. auto. }
  tbind (fun (e : option ioError) d => P1 d /\ e <> Some NotExist).
  { destruct vo; [|by apply triple_ret]. apply triple_syscall. intros d Hd. split_and!; auto; done. }
  intros [e|].
  { tbind (fun (_ : option ioError) d => P1 d /\ Some e <> Some NotExist).
    { apply triple_plain. intros d [? _]. auto. }
    intros _. apply triple_ret. intros d [Hd He]. split; [auto|]. by destruct e. }
  tbind (fun (r : result ioError string) d => P1 d /\ match r with Ok s => file_at d p = Some s | _ => True end).
  { apply triple_syscall. intros d [Hd _]. pose proof Hd as [Hp [s Hs]]. rewrite Hs. split_and!; auto. }
  intros r. set (P2 := fun d => P1 d /\ match r with Ok s => file_at d p = Some s | _ => True end).
  tbind (fun (_ : option ioError) d => P2 d). { apply triple_plain. intros d [? _]. auto. }
  intros closeErr. destruct r as [data|]; [destruct closeErr|]; try (apply triple_ret; intros d [? _]; auto; done).
  destruct (maxJournalFileBytes <? slen data); [apply triple_ret; intros d [? _]; auto|].
  apply triple_ret. intros d [Hd Hs]. split; [auto|]. destruct (parseJournal data rt) eqn:E; [eauto|done].
Qed.

Lemma triple_exists_path (P : disk -> Prop) p :
  triple (P) (journalPathExists p)
    (fun r d => P d /\ match r with
                            | Ok true => exists s, file_at d p = Some s
                            | Ok false => file_at d p = None
                            | Err _ => True
                            end) (P).
Proof.
  unfold journalPathExists.
  tbind (fun (r : result ioError unit) d => P d /\ match r with Ok _ => exists s, file_at d p = Some s
                                         | Err NotExist => file_at d p = None | Err _ => True end).
  { apply triple_syscall. intros d Hd. split_and!; try done. destruct (file_at d p); eauto. }
  intros r. apply triple_ret. intros d [Hd Hr]. split; [done|]. destruct r as [|[]]; done.
Qed.

Lemma triple_remove_temporary G (P : disk -> Prop) :
  (forall d c, P d -> P (set_file d TemporaryPath c)) -> (forall d, P d -> good G d) ->
  triple P (fs_remove TemporaryPath) (fun _ d => P d) (good G).
Proof. intros Ht Hg. apply triple_syscall. intros d Hd. split_and!; auto. Qed.

Lemma triple_removeCompaction G : triple (good G) removeCompactionTemporary (fun _ d => good G d) (good G).
Proof.
  unfold removeCompactionTemporary. tbind (fun (_ : option ioError) d => good G d).
  { by apply triple_remove_temporary. }
  intros [[]|]; try (by apply triple_ret); by apply triple_plain.
Qed.

Lemma triple_cleanup G : triple (good G) cleanup (fun _ d => good G d) (good G).
Proof.
  unfold cleanup. tbind (fun (_ : option ioError) d => good G d).
  { by apply triple_remove_temporary. }
  intros e. by apply triple_ret.
Qed.

(** The journal file can be cut to [offset] without forgetting a grant. *)
Definition cut_good (G : list grant) (offset : Z) (d : disk) : Prop :=
  good G d /\ exists s, dMain d = Some s /\ covers G (take_chars (Z.to_nat offset) s).

Lemma triple_recover G offset :
  triple (cut_good G offset) (recoverInterruptedTail offset) (fun _ d => good G d) (good G).
Proof.
  unfold recoverInterruptedTail. tbind (fun (_ : option ioError) d => good G d).
  { apply triple_syscall. intros d (Hd & s & Hs & Hc). unfold file_at. rewrite Hs.
    split_and!; done. }
  intros [e|]; [by apply triple_ret|].
  tbind (fun (_ : option ioError) d => good G d); [by apply triple_plain|]. intros [e|]; [by apply triple_ret|].
  tbind (fun (_ : option ioError) d => good G d); [by apply triple_plain|]. intros e1.
  tbind (fun (_ : option ioError) d => good G d); [by apply triple_plain|]. intros e2.
  by apply triple_ret.
Qed.

(** A journal read from a good file may be installed. *)
Lemma loaded_good G d s loaded :
  good G d -> dMain d = Some s -> parseJournal s true = Ok loaded ->
  (forall j n, memory_good G (installRows j (lRows loaded) (lIndexes loaded) n)) /\
  (0 <= lTailOffset loaded -> cut_good G (lTailOffset loaded) d).
Proof.
  intros Hd Hs Hp. pose proof Hd as Hc. unfold good in Hc. rewrite Hs in Hc.
  destruct (covers_parse _ _ _ Hc Hp) as (Hh & Hb & Ht). split.
  - intros j n. split; simpl; [done|]. by exists (lIndexes loaded).
  - intros Hoff. split; [done|]. exists s. auto.
Qed.

Lemma triple_reload G j :
  triple (good G) (reloadAfterWriteFailure j)
    (fun r d => good G d /\ (memory_good G j -> memory_good G r.1)) (good G).
Proof.
  unfold reloadAfterWriteFailure. eapply triple_bind; [apply triple_read|]. intros [loaded|e].
  - apply (triple_exists _ (fun _ => True)). intros d0 (Hd & s & Hs & Hp). simpl in Hs.
    destruct (loaded_good _ _ _ _ Hd Hs Hp) as [Hm Ht].
    destruct (0 <=? lTailOffset loaded) eqn:Eoff.
    + tbind (fun (_ : option ioError) d => good G d).
      { eapply triple_weaken; [apply triple_recover| |done]. intros d ->. apply Ht. lia. }
      intros [e|]; apply triple_ret; intros d Hd'; split; simpl; auto.
    + apply triple_ret. intros d ->. split; simpl; auto.
  - destruct e; try (apply triple_ret; intros d [Hd _]; by auto).
    apply triple_ret. intros d [Hd Hnone]. split; [done|]. intros _. unfold good in Hd. simpl in Hnone.
    rewrite Hnone in Hd. subst G. split; [constructor|]. by exists newJournalIndexes.
Qed.

(** *** Compaction *)
Definition row_text (row : journalRow) : option string :=
  match encodeJournalRow row with Ok _ => marshalRow row | Err _ => None end.

Lemma encodeJournalRow_ok row line :
  encodeJournalRow row = Ok line ->
  validateJournalRow row = None /\ exists text, marshalRow row = Some text /\ line = text +:+ String nl "".
Proof.
  unfold encodeJournalRow. destruct (validateJournalRow row); [done|]. destruct (marshalRow row) as [text|]; [|done].
  destruct (maxJournalRowBytes <? slen text); [done|]. intros [= <-]. split; [done|]. by exists text.
Qed.

Lemma encode_rows_unlines rows : encode_rows rows = unlines (omap row_text rows).
Proof.
  induction rows as [|row rows IH]; [done|]. unfold encode_rows, row_text in *. simpl. rewrite IH. clear IH.
  unfold row_line. destruct (encodeJournalRow row) as [line|] eqn:E; [|done].
  apply encodeJournalRow_ok in E as (_ & text & Hm & ->). rewrite Hm. simpl. by rewrite <-app_assoc_str.
Qed.

Lemma row_texts_line_free rows : Forall line_free (omap row_text rows).
Proof.
  apply Forall_forall. intros text (row & _ & Hrow)%list_elem_of_omap. unfold row_text in Hrow.
  destruct (encodeJournalRow row); [|done]. by eapply marshalRow_line.
Qed.

Lemma validateAuthority_safe row a :
  validateJournalRow row = None -> rPhase row = "authority" -> rAuthority row = Some a ->
  map_Forall (fun k _ => safeIdentifier k = true) (asFences a).
Proof.
  unfold validateJournalRow, validateAuthorityRow. intros Hv Hp Ha. rewrite Hp, Ha in Hv.
  destruct (negb (rSchema row =? 1)); [done|]. rewrite String.eqb_refl in Hv.
  match type of Hv with (if ?b then _ else if ?c then _ else if ?f then _ else _) = _ =>
    destruct b; [done|]; destruct c; [done|]; destruct f eqn:Hf; [|done] end.
  intros k n Hk%elem_of_map_to_list. rewrite forallb_forall in Hf.
  apply list_elem_of_In in Hk. apply Hf in Hk. simpl in Hk. by apply andb_true_iff in Hk as [? _].
Qed.

Lemma build_authority_le row a rows ix :
  rPhase row = "authority" -> rAuthority row = Some a ->
  buildJournalIndexes (row :: rows) = Ok ix -> fences_le (asFences a) (ixFences ix).
Proof.
  intros Hp Ha Hb. change (row :: rows) with ([row] ++ rows)%list in Hb.
  apply build_app in Hb as (st & st' & Hst & _ & Hrest & ->). apply index_rows_le in Hrest; [|simpl; lia].
  etrans; [|exact Hrest]. simpl in Hst. unfold index_row in Hst. rewrite Hp, Ha in Hst.
  destruct (validateJournalRow row); [done|]. injection Hst as <-. simpl. by rewrite (right_id_L ∅ (∪)).
Qed.

(** A compacted file remembers what the snapshot's fences hold. *)
Lemma compaction_covers G rows required reserveBytes reserveRows keep ix' output :
  retainedJournalProjection rows required reserveBytes reserveRows = Ok (keep, ix', output) ->
  exists ix, buildJournalIndexes rows = Ok ix /\ buildJournalIndexes keep = Ok ix' /\
    fences_le (ixFences ix) (ixFences ix') /\ (holds G (ixFences ix) -> covers G output).
Proof.
  unfold retainedJournalProjection. destruct (buildJournalIndexes rows) as [ix|] eqn:Hix; [|done]. simpl.
  destruct (encodeJournalRow (authorityRow ix)) as [stateLine|] eqn:Hst; [|done]. simpl.
  destruct (foldl (select_required rows) _ _) as [[sel bytes]|]; [|done]. simpl.
  destruct (_ || _); [done|].
  destruct (foldl (select_history rows ix _ _) _ _) as [[sel' bytes']|]; [|done]. simpl.
  destruct (_ || _); [done|].
  destruct (buildJournalIndexes (authorityRow ix :: _)) as [kix|] eqn:Hk; [|done]. simpl. intros [= <- <- <-].
  exists ix. split_and!; [done|done| |].
  { by apply (build_authority_le (authorityRow ix)
      (mkAuthority (ixSequence ix) (ixPrevious ix) (ixFences ix)) (selected_rows rows sel')). }
  intros Hh. apply encodeJournalRow_ok in Hst as (Hv & text & Hm & ->).
  exists (text :: omap row_text (selected_rows rows sel')), "". rewrite app_empty_r, encode_rows_unlines.
  split_and!; [|constructor; [by eapply marshalRow_line|apply row_texts_line_free]|done|by left|].
  { simpl. by rewrite <-app_assoc_str. }
  intros rows0 ix0 Hparse Hbuild. simpl in Hparse.
  destruct (slen text =? 0) eqn:E0.
  { by destruct (omap _ _). }
  destruct (maxJournalRowBytes <? slen text); [done|].
  destruct (decodeRow text) as [row'|] eqn:Hd; [|done]. destruct (validateJournalRow row'); [done|].
  destruct (parse_lines _) as [rest|]; [|done]. injection Hparse as <-.
  destruct (decodeRow_authority _ _ _ (mkAuthority (ixSequence ix) (ixPrevious ix) (ixFences ix)) Hm Hd)
    as (Hp' & a' & Ha' & Hf); [done|done| |].
  { by apply (validateAuthority_safe (authorityRow ix)). }
  eapply holds_le; [exact Hh|]. simpl in Hf. rewrite <-Hf. by eapply build_authority_le.
Qed.

(** *** Outcomes: on success the new grants are remembered too, on failure the old ones still are *)
Definition outcome_good (G E : list grant) (r : FileJournal * option ioError) (d : disk) : Prop :=
  match r.2 with
  | None => good (G ++ E) d /\ memory_good (G ++ E) r.1
  | Some _ => good G d /\ memory_good G r.1
  end.

Lemma covers_weaken G E s : covers (G ++ E) s -> covers G s.
Proof.
  intros (lines & t & -> & Hl & Ht & Hb & Hc). exists lines, t. split_and!; try done.
  intros rows ix Hp Hi. by apply (Forall_app _ G E), (Hc rows).
Qed.

Lemma good_weaken G E d : good (G ++ E) d -> good G d.
Proof.
  unfold good. destruct (dMain d); [apply covers_weaken|]. by intros [-> _]%app_eq_nil.
Qed.

Lemma outcome_failed G E j e d : good G d -> memory_good G j -> outcome_good G E (j, Some e) d.
Proof. done. Qed.

(** A failed call after which the journal is unchanged. *)
Ltac failed := apply triple_ret; intros ? ?; apply outcome_failed; intuition.

Lemma short_write_full n e data :
  short_write (slen (take_chars n data)) e data = None -> take_chars n data = data.
Proof.
  unfold short_write. destruct e; simpl; [done|]. case_match eqn:E; [done|]. intros _.
  apply slen_take_full. bools. lia.
Qed.

Lemma join_cons_some e l : exists l', join (Some e :: l) = Some (Joined l').
Proof. unfold join. simpl. eauto. Qed.

(** The write, sync and close of a file, until the error check. *)
Lemma triple_compact G E j candidate required reserveBytes reserveRows :
  memory_good G j ->
  (forall ix, buildJournalIndexes candidate = Ok ix -> holds (G ++ E) (ixFences ix)) ->
  triple (good G) (compact j candidate required reserveBytes reserveRows) (outcome_good G E) (good G).
Proof.
  intros Hj Hcand. unfold compact.
  destruct (retainedJournalProjection _ _ _ _) as [[[keep ix'] output]|] eqn:Hproj; [|by failed].
  destruct (compaction_covers (G ++ E) _ _ _ _ _ _ _ Hproj) as (ix & Hix & Hkeep & Hle & Hcov).
  specialize (Hcand ix Hix). specialize (Hcov Hcand).
  eapply triple_bind; [apply triple_exists_path|]. intros [ex|e]; [|by failed].
  tbind (fun (_ : option ioError) d => good G d).
  { destruct ex; [|by apply triple_ret; intros d [? _]].
    eapply triple_weaken; [apply triple_removeCompaction|by intros d [? _]|done]. }
  intros [e|]; [by failed|].
  tbind (fun (e : option ioError) d => good G d /\ (e = None -> dTemporary d = Some "")).
  { apply triple_syscall. intros d Hd. simpl. destruct (dTemporary d) eqn:Et; split_and!; try done. }
  intros [e|]; [by failed|].
  tbind (fun (r : Z * option ioError) d => good G d /\ (short_write r.1 r.2 output = None -> dTemporary d = Some output)).
  { apply triple_write. intros d n [Hd Ht]. simpl. rewrite (Ht eq_refl). split_and!; try done.
    intros ->%short_write_full. done. }
  intros [written e]. simpl. destruct (short_write written e output) as [werr|] eqn:Hw; simpl.
  { tbind (fun (_ : option ioError) d => good G d); [apply triple_ret; by intros d [? _]|]. intros e1.
    tbind (fun (_ : option ioError) d => good G d); [by apply triple_plain|]. intros e2.
    tbind (fun (_ : option ioError) d => good G d); [apply triple_cleanup|]. intros e3.
    destruct (join_cons_some werr [e1; e2; e3]) as [l' ->]. by failed. }
  set (P := fun d => good G d /\ dTemporary d = Some output).
  assert (HP : forall d, P d -> good G d) by (by intros d [? _]).
  tbind (fun (_ : option ioError) d => P d).
  { eapply triple_weaken; [apply (triple_plain P); done| |done]. intros d [? Ht]. split; auto. }
  intros e1. tbind (fun (_ : option ioError) d => P d); [by apply triple_plain|]. intros e2.
  destruct (negb (is_nil e1) || negb (is_nil e2)) eqn:Ee.
  { tbind (fun (_ : option ioError) d => good G d).
    { eapply triple_weaken; [apply triple_cleanup|done|done]. }
    intros e3. assert (exists e', join [None; e1; e2; e3] = Some e') as [e' ->].
    { unfold join. destruct e1, e2; simpl in *; eauto. done. }
    by failed. }
  tbind (fun (e : option ioError) d => match e with None => good (G ++ E) d | Some _ => good G d end).
  { apply triple_syscall. intros d [Hd Ht]. rewrite Ht. split_and!; try done. by apply (covers_weaken G E). }
  intros [e3|].
  { tbind (fun (_ : option ioError) d => good G d); [apply triple_cleanup|]. intros e4.
    destruct (join_cons_some e3 [e4]) as [l' ->]. by failed. }
  tbind (fun (_ : option ioError) d => good (G ++ E) d).
  { apply triple_plain. apply good_weaken. }
  intros [e4|].
  - eapply triple_bind.
    { eapply triple_weaken; [apply (triple_reload G j)|apply good_weaken|done]. }
    intros [j' e5]. destruct (join_cons_some e4 [e5]) as [l' ->]. apply triple_ret. intros d [Hd Hm]. simpl in Hm.
    apply outcome_failed; auto.
  - apply triple_ret. intros d Hd. split; [done|]. split; simpl; [by eapply holds_le|by exists ix'].
Qed.

(** The fences of the journal's rows with one more. *)
Lemma candidate_holds G j row ix :
  memory_good G j -> buildJournalIndexes (jRows j ++ [row]) = Ok ix -> positive G ->
  holds G (ixFences ix) /\
  (rPhase row <> "authority" -> rFenceSequence row <= fence_of (ixFences ix) (rFenceResource row)).
Proof.
  intros (Hh & ix0 & Hb0 & Hf0) Hb Hpos. apply build_app in Hb as (st & st' & Hst & Hb & Hrow & ->).
  rewrite Hb0 in Hb. injection Hb as ->. simpl in Hrow.
  destruct (index_row _ st row) as [st1|] eqn:Hir; [|done]. injection Hrow as <-. split.
  - rewrite <-Hf0 in Hh. destruct (jRows j) as [|r0 rows].
    + simpl in Hst. injection Hst as <-. apply holds_empty in Hh as ->; [constructor|done].
    + eapply holds_le; [exact Hh|]. eapply index_row_le, Hir. simpl. lia.
  - intros Hp. rewrite (index_row_fences _ _ _ _ Hir); [apply index_fence_covers|].
    unfold phase_is. by apply String.eqb_neq.
Qed.

(** The grant that appending a row makes: none, or the row's own fence. *)
Definition row_grant (row : journalRow) (E : list grant) : Prop :=
  E = [] \/ (E = [(rFenceResource row, rFenceSequence row)] /\
             safeIdentifier (rFenceResource row) = true /\ rPhase row <> "authority").

Lemma triple_append G E j row reserveBytes reserveRows :
  memory_good G j -> positive G -> row_grant row E ->
  triple (good G) (append_row j row reserveBytes reserveRows) (outcome_good G E) (good G).
Proof.
  intros Hj Hpos HE. unfold append_row.
  destruct (encodeJournalRow row) as [line|] eqn:Henc; [|by failed].
  apply encodeJournalRow_ok in Henc as (_ & text & Hm & ->).
  assert (Hcand : forall ix, buildJournalIndexes (jRows j ++ [row]) = Ok ix -> holds (G ++ E) (ixFences ix)).
  { intros ix Hix. destruct (candidate_holds _ _ _ _ Hj Hix Hpos) as [Hh Hf].
    destruct HE as [->|(-> & _ & Hp)]; [by rewrite app_nil_r|]. apply holds_snoc; auto. }
  destruct (_ || _); [by apply triple_compact|].
  tbind (fun (e : option ioError) d => good G d /\ (e = None -> exists s, dMain d = Some s)).
  { apply triple_syscall. intros d Hd. unfold file_at, set_file. destruct (dMain d) eqn:Ed; simpl.
    - split_and!; eauto.
    - unfold good in *. rewrite Ed in *. subst G. simpl. split_and!; eauto using covers_empty; done. }
  intros [e|]; [by failed|]. set (line := text +:+ String nl "") in *.
  tbind (fun (r : Z * option ioError) d => good G d /\ (short_write r.1 r.2 line = None -> good (G ++ E) d)).
  { apply triple_write. intros d n [Hd Hs]. destruct (Hs eq_refl) as [s Hs']. simpl.
    unfold good in Hd. rewrite Hs' in *. unfold good. simpl.
    assert (Hw : covers G (s +:+ take_chars n line)) by (by eapply covers_write).
    split_and!; try done. intros ->%short_write_full. by eapply covers_append. }
  intros [written e]. simpl. destruct (short_write written e line) as [werr|] eqn:Hw; simpl.
  { tbind (fun (_ : option ioError) d => good G d); [apply triple_ret; by intros d [? _]|]. intros e1.
    tbind (fun (_ : option ioError) d => good G d); [by apply triple_plain|]. intros e2.
    tbind (fun (_ : option ioError) d => good G d); [by apply triple_ret|]. intros e3.
    eapply triple_bind; [apply (triple_reload G j)|]. intros [j' e4].
    destruct (join_cons_some werr [e1; e2; e3]) as [l ->]. destruct (join_cons_some (Joined l) [e4]) as [l' ->].
    apply triple_ret. intros d [Hd Hmem]. apply outcome_failed; auto. }
  set (P := fun d => good G d /\ good (G ++ E) d).
  assert (HP : forall d, P d -> good G d) by (by intros d [? _]).
  tbind (fun (_ : option ioError) d => P d).
  { eapply triple_weaken; [apply (triple_plain P); done| |done]. intros d [? Ht]. split; auto. }
  intros e1. tbind (fun (_ : option ioError) d => P d); [by apply triple_plain|]. intros e2.
  tbind (fun (_ : option ioError) d => P d).
  { destruct (is_nil e1 && is_nil e2); [by apply triple_plain|by apply triple_ret]. }
  intros e3. destruct (_ || _) eqn:Eor.
  - eapply triple_bind.
    { eapply triple_weaken; [apply (triple_reload G j)|done|done]. }
    intros [j' e4]. assert (exists e', join [join [None; e1; e2; e3]; e4] = Some e') as [e' ->].
    { destruct e1, e2, e3; simpl in *; try done; unfold join; simpl; eauto. }
    apply triple_ret. intros d [Hd Hmem]. apply outcome_failed; auto.
  - destruct (buildJournalIndexes (jRows j ++ [row])) as [ix|] eqn:Hix.
    + apply triple_ret. intros d [_ Hd]. split; [done|]. split; simpl; [auto|by exists ix].
    + apply triple_ret. intros d [Hd _]. by apply outcome_failed.
Qed.

End Operations.

(** ** Histories of the journal *)
Section Runs.
Context `{C : Codec} `{!CodecLaws C}.

(** What the supervisor and the server do with the journal: open it (again, after a
    restart or a crash), begin a mutation, commit one. *)
Inductive event :=
| EvOpen (bootID : string) (missing validateOwnership : bool)
| EvBegin (request : Request) (peer : PeerIdentity) (requestDigest : string) (now : Z)
| EvCommit (request : Request) (receipt : option Receipt) (response : Response) (policy : CompletionPolicy)
    (now : Z).

(** A history: the journal of the running process if there is one, the files, and
    the fences for which [Begin] handed out a receipt, oldest first. *)
Record history := mkHistory { hJournal : option FileJournal; hDisk : disk; hGranted : list grant }.

Definition do_event (h : history) (e : event * list outcome) : history :=
  let w := mkWorld e.2 (hDisk h) in
  match e.1, hJournal h with
  | EvOpen bootID missing vo, _ =>
      match openFileJournal bootID missing vo w with
      | (Some (Ok j), w') => mkHistory (Some j) (wDisk w') (hGranted h)
      | (_, w') => mkHistory None (wDisk w') (hGranted h)
      end
  | EvBegin request peer digest now, Some j =>
      match Begin j request peer digest now w with
      | (None, w') => mkHistory None (wDisk w') (hGranted h)
      | (Some (j', Ok (None, Some _)), w') =>
          mkHistory (Some j') (wDisk w')
            (hGranted h ++ [(fResource (rqFence request), fSequence (rqFence request))])
      | (Some (j', _), w') => mkHistory (Some j') (wDisk w') (hGranted h)
      end
  | EvCommit request receipt response policy now, Some j =>
      match Commit j request receipt response policy now w with
      | (None, w') => mkHistory None (wDisk w') (hGranted h)
      | (Some (j', _, _), w') => mkHistory (Some j') (wDisk w') (hGranted h)
      end
  | _, None => h
  end.

(** The server begins only requests that [Validate] accepted. *)
Definition event_valid (e : event * list outcome) : Prop :=
  match e.1 with
  | EvBegin request _ _ _ =>
      safeIdentifier (fResource (rqFence request)) = true /\ 0 < fSequence (rqFence request)
  | _ => True
  end.

(** The sequence numbers granted for a resource, oldest first. *)
Definition granted_for (r : string) (G : list grant) : list Z :=
  (filter (fun g => g.1 = r) G).*2.

Definition history_good (h : history) : Prop :=
  positive (hGranted h) /\ good (hGranted h) (hDisk h) /\
  match hJournal h with Some j => memory_good (hGranted h) j | None => True end /\
  forall r, StronglySorted Z.lt (granted_for r (hGranted h)).

(** *** The steps *)
Lemma triple_Begin G j request peer digest now :
  memory_good G j -> positive G ->
  safeIdentifier (fResource (rqFence request)) = true ->
  triple (good G) (Begin j request peer digest now)
    (fun r d => match r with
                | (j', Ok (None, Some _)) =>
                    fence_of (ixFences (jIndexes j)) (fResource (rqFence request)) < fSequence (rqFence request) /\
                    good (G ++ [(fResource (rqFence request), fSequence (rqFence request))]) d /\
                    memory_good (G ++ [(fResource (rqFence request), fSequence (rqFence request))]) j'
                | (_, Ok (None, None)) => False
                | (j', _) => good G d /\ memory_good G j'
                end) (good G).
Proof.
  intros Hj Hpos Hsafe. unfold Begin. destruct (ixReplays _ !! _) as [rp|].
  { case_match; apply triple_ret; intros d Hd; done. }
  destruct (ixUnresolved _ !! _); [by apply triple_ret|]. destruct (negb _); [by apply triple_ret|].
  destruct (_ <=? _) eqn:Ef; [by apply triple_ret|].
  set (j1 := set_sequence j _). assert (Hj1 : memory_good G j1) by exact Hj.
  eapply triple_bind.
  { apply (triple_append G [(fResource (rqFence request), fSequence (rqFence request))]); [done|done|].
    right. simpl. done. }
  intros [j2 [e|]].
  - eapply (triple_bind _ _ _ (fun r d => good G d /\ (memory_good G j2 -> memory_good G r.1) /\ memory_good G j2)).
    { apply (triple_exists _ (fun _ => True)). intros d0 [Hd0 Hm0].
      eapply triple_weaken; [apply (triple_reload G j2)|by intros d ->|]. intros r d [? ?]. done. }
    intros [j3 e3]. apply triple_ret. intros d (Hd & Hm & Hm2). simpl in Hm. split; auto.
  - apply triple_ret. intros d [Hd Hm]. split; [lia|done].
Qed.

Lemma triple_Commit G j request receipt response policy now :
  memory_good G j -> positive G ->
  triple (good G) (Commit j request receipt response policy now)
    (fun r d => good G d /\ memory_good G r.1.1) (good G).
Proof.
  intros Hj Hpos. unfold Commit. destruct receipt as [receipt|]; [|by apply triple_ret].
  destruct (_ && _); [by apply triple_ret|]. destruct (marshalResponse _) as [encoded|]; [|by apply triple_ret].
  eapply triple_bind; [apply (triple_append G []); [done|done|by left]|]. intros [j2 [e|]].
  - eapply (triple_bind _ _ _ (fun r d => good G d /\ memory_good G r.1)).
    { apply (triple_exists _ (fun _ => True)). intros d0 [Hd0 Hm0].
      eapply triple_weaken; [apply (triple_reload G j2)|by intros d ->|]. intros r d [? ?]. auto. }
    intros [j3 e3]. by apply triple_ret.
  - apply triple_ret. intros d [Hd Hm]. by rewrite app_nil_r in *.
Qed.

(** A compaction that grants nothing. *)
Lemma triple_bounds G j :
  memory_good G j ->
  triple (good G) (if over_bounds j then compact j (jRows j) None 0 0 else io_ret (j, None))
    (fun r d => good G d /\ memory_good G r.1) (good G).
Proof.
  intros Hj. destruct (over_bounds j); [|by apply triple_ret].
  eapply triple_weaken; [apply (triple_compact G []); [done|]|done|].
  - rewrite app_nil_r. intros ix Hix. destruct Hj as (Hh & ix0 & Hb & Hf). rewrite Hb in Hix. injection Hix as <-.
    by rewrite Hf.
  - intros [j' [e|]] d [Hd Hm]; simpl in *; rewrite ?app_nil_r in *; done.
Qed.

Lemma parseJournal_build s rt loaded :
  parseJournal s rt = Ok loaded -> buildJournalIndexes (lRows loaded) = Ok (lIndexes loaded).
Proof.
  unfold parseJournal. destruct (_ && negb rt); [done|]. destruct (parse_lines _) as [rows|]; [|done]. simpl.
  destruct (buildJournalIndexes rows) as [ix|] eqn:E; [|done]. simpl. by intros [= <-].
Qed.

(** The state after [load] has read and recovered the journal file. *)
Lemma triple_load_main G j vo (temporary : bool) :
  triple (good G)
    (let* loaded := readJournalFile MainPath vo true in
     match loaded with
     | Err e => io_ret (j, Some e)
     | Ok loaded =>
       let* removeErr := if temporary then removeCompactionTemporary else io_ret None in
       match removeErr with
       | Some e => io_ret (j, Some e)
       | None =>
         let* tailErr :=
           if 0 <=? lTailOffset loaded then recoverInterruptedTail (lTailOffset loaded) else io_ret None in
         match tailErr with
         | Some e => io_ret (j, Some e)
         | None =>
           let fileBytes := if 0 <=? lTailOffset loaded then lTailOffset loaded else lFileBytes loaded in
           let j := installRows j (lRows loaded) (lIndexes loaded) fileBytes in
           if over_bounds j then compact j (jRows j) None 0 0 else io_ret (j, None)
         end
       end
     end)
    (fun r d => good G d /\ (r.2 = None -> memory_good G r.1)) (good G).
Proof.
  eapply triple_bind; [apply triple_read|]. intros [loaded|e]; [|by apply triple_ret; intros d [? _]].
  set (P := fun d => good G d /\ (0 <= lTailOffset loaded -> cut_good G (lTailOffset loaded) d) /\
                     forall j n, memory_good G (installRows j (lRows loaded) (lIndexes loaded) n)).
  eapply (triple_bind _ _ _ (fun (_ : option ioError) d => P d)).
  { apply (triple_weaken _ P _ _ (fun _ => P)); [| |done].
    - destruct temporary; [|by apply triple_ret]. unfold removeCompactionTemporary.
      tbind (fun (_ : option ioError) d => P d); [apply triple_remove_temporary; [done|by intros d [? _]]|].
      intros [[]|]; try (by apply triple_ret); apply triple_plain; by intros d [? _].
    - intros d (Hd & s & Hs & Hp). simpl in Hs. destruct (loaded_good _ _ _ _ Hd Hs Hp). done. }
  intros [e|]; [by apply triple_ret; intros d [? _]|].
  apply (triple_exists _ (fun _ => True)). intros d0 (Hd & Hcut & Hmem).
  tbind (fun (_ : option ioError) d => good G d).
  { destruct (0 <=? _) eqn:E; [|by apply triple_ret; intros d ->].
    eapply triple_weaken; [apply triple_recover| |done]. intros d ->. apply Hcut. lia. }
  intros [e|]; [by apply triple_ret|].
  eapply triple_weaken; [apply triple_bounds, Hmem|done|]. simpl. by intros r d [? ?].
Qed.

(** Promotion of a complete compaction when there is no journal file. *)
Lemma triple_load_staged j vo :
  triple (fun d => dMain d = None)
    (let* staged := readJournalFile TemporaryPath vo false in
     match staged with
     | Err e => io_ret (j, Some e)
     | Ok staged =>
       let* renameErr := fs_rename in
       match renameErr with
       | Some e => io_ret (j, Some e)
       | None =>
         let* dirErr := plain_call in
         match dirErr with
         | Some e => io_ret (j, Some e)
         | None =>
           let j := installRows j (lRows staged) (lIndexes staged) (lFileBytes staged) in
           if over_bounds j then compact j (jRows j) None 0 0 else io_ret (j, None)
         end
       end
     end)
    (fun r d => good [] d /\ (r.2 = None -> memory_good [] r.1)) (good []).
Proof.
  assert (Hnone : forall d, dMain d = None -> good [] d) by (intros d Hd; unfold good; by rewrite Hd).
  eapply triple_bind.
  { eapply triple_crash; [apply triple_read|exact Hnone]. }
  intros [staged|e]; [|apply triple_ret; intros d [? _]; split; [auto|done]].
  apply (triple_exists _ (fun _ => True)). intros d0 (Hd & s & Hs & Hp). simpl in Hs.
  destruct (parseJournal_strict _ _ Hp) as (lines & -> & Hl & _).
  tbind (fun (_ : option ioError) d => good [] d).
  { apply triple_syscall. intros d ->. rewrite Hs. split_and!; auto; by apply covers_nil. }
  intros [e|]; [by apply triple_ret|].
  tbind (fun (_ : option ioError) d => good [] d); [by apply triple_plain|]. intros [e|]; [by apply triple_ret|].
  eapply triple_weaken; [apply triple_bounds|done|by intros r d [? ?]].
  split; simpl; [constructor|]. exists (lIndexes staged). split; [by eapply parseJournal_build|done].
Qed.

Lemma triple_load G bootID vo :
  triple (good G) (load (mkJournal bootID newJournalIndexes [] 0) vo)
    (fun r d => good G d /\ (r.2 = None -> memory_good G r.1)) (good G).
Proof.
  unfold load. eapply triple_bind; [apply triple_exists_path|]. intros [main|e]; [|by apply triple_ret; intros d [? _]].
  set (P := fun d => good G d /\ (main = false -> dMain d = None)).
  eapply (triple_bind _ _ _ (fun (r : result ioError bool) d => P d)).
  { intros w Hw. pose proof (triple_exists_path P TemporaryPath w) as Ht.
    assert (HP : P (wDisk w)) by (destruct Hw as [? Hm]; split; [done|by intros ->]). specialize (Ht HP).
    destruct (journalPathExists _ w) as [[r|] w']; [by destruct Ht|by destruct Ht]. }
  intros [temporary|e]; [|by apply triple_ret; intros d [? _]]. destruct main.
  { eapply triple_weaken; [apply triple_load_main|by intros d [? _]|done]. }
  apply (triple_exists _ (fun _ => True)). intros d0 [Hd Hm]. specialize (Hm eq_refl).
  assert (G = []) as -> by (unfold good in Hd; by rewrite Hm in Hd).
  destruct temporary.
  - eapply triple_weaken; [apply triple_load_staged|by intros d ->|done].
  - apply triple_ret. intros d ->. split; [done|]. intros _. split; [constructor|]. by exists newJournalIndexes.
Qed.

Lemma triple_open G bootID missing vo :
  triple (good G) (openFileJournal bootID missing vo)
    (fun r d => good G d /\ match r with Ok j => memory_good G j | Err _ => True end) (good G).
Proof.
  assert (Hplain : triple (good G) plain_call (fun _ d => good G d) (good G)) by (by apply triple_plain).
  unfold openFileJournal. tbind (fun (_ : option ioError) d => good G d).
  { unfold ensurePrivateDirectory. eapply triple_bind; [exact Hplain|]. intros e.
    tbind (fun (_ : option ioError) d => good G d).
    { destruct missing; [|by apply triple_ret]. eapply triple_bind; [exact Hplain|].
      intros [e'|]; [by apply triple_ret|done]. }
    intros [e'|]; [by apply triple_ret|]. eapply (triple_bind _ _ _ (fun _ d => good G d)).
    { destruct vo; [done|by apply triple_ret]. }
    intros [e'|]; [by apply triple_ret|done]. }
  intros [e|]; [by apply triple_ret|]. eapply triple_bind; [apply triple_load|]. intros [j [e|]].
  - apply triple_ret. by intros d [? _].
  - apply triple_ret. intros d [? Hm]. split; [done|]. by apply Hm.
Qed.

(** *** The invariant of a history *)
Lemma granted_for_snoc r G g : granted_for r (G ++ [g]) = (granted_for r G ++ (if decide (g.1 = r) then [g.2] else []))%list.
Proof.
  unfold granted_for. rewrite filter_app, fmap_app. f_equal. rewrite filter_cons, filter_nil. by case_decide.
Qed.

Lemma StronglySorted_snoc l (n : Z) :
  StronglySorted Z.lt l -> Forall (fun m => m < n) l -> StronglySorted Z.lt (l ++ [n]).
Proof.
  induction 1 as [|m l Hs IH Hm]; intros Hn; simpl; [by repeat constructor|].
  apply Forall_cons in Hn as [Hmn Hn]. constructor; [by apply IH|]. apply Forall_app. split; [done|]. by constructor.
Qed.

Lemma granted_below G f r n :
  holds G f -> fence_of f r < n -> Forall (fun m => m < n) (granted_for r G).
Proof.
  intros Hh Hn. apply Forall_forall. intros m ([r' m'] & -> & Hin)%list_elem_of_fmap.
  apply list_elem_of_filter in Hin as [Hr Hin]. simpl in Hr. subst r'.
  unfold holds in Hh. rewrite Forall_forall in Hh. specialize (Hh _ Hin). simpl in *. lia.
Qed.

Lemma do_event_good h e : history_good h -> event_valid e -> history_good (do_event h e).
Proof.
  destruct h as [oj d G]. intros (Hpos & Hd & Hj & Hs) Hv. simpl in *. destruct e as [[bootID ms vo|q p dg now|q rc rs po now] w];
    unfold do_event; simpl in *.
  - pose proof (triple_open G bootID ms vo (mkWorld w d) Hd) as Ht.
    destruct (openFileJournal _ _ _ _) as [[[j|e]|] w']; unfold history_good; simpl; tauto.
  - destruct oj as [j|]; [|unfold history_good; simpl; tauto]. destruct Hv as [Hsafe Hseq]. simpl in Hsafe, Hseq.
    pose proof (triple_Begin G j q p dg now Hj Hpos Hsafe (mkWorld w d) Hd) as Ht.
    destruct (Begin _ _ _ _ _ _) as [[[j' [[[rp|] [rc|]]|e]]|] w']; unfold history_good; simpl; try tauto.
    split_and!; [|tauto|tauto|].
    + apply Forall_app. split; [done|]. by constructor.
    + intros r. rewrite granted_for_snoc. simpl. case_decide as Hr; [|by rewrite app_nil_r].
      subst r. apply StronglySorted_snoc; [done|]. eapply granted_below; [apply Hj|tauto].
  - destruct oj as [j|]; [|unfold history_good; simpl; tauto].
    pose proof (triple_Commit G j q rc rs po now Hj Hpos (mkWorld w d) Hd) as Ht.
    destruct (Commit _ _ _ _ _ _ _) as [[[[j' r'] e]|] w']; unfold history_good; simpl; tauto.
Qed.

Lemma run_events_good h events :
  history_good h -> Forall event_valid events -> history_good (foldl do_event h events).
Proof.
  revert h. induction events as [|e events IH]; intros h Hh Hv; simpl; [done|].
  apply Forall_cons in Hv as [He Hv]. apply IH; [|done]. by apply do_event_good.
Qed.

(** The broker hands out authority for a fence at most once.  From a directory
    without a journal, through every history of openings, requests and commits, with
    every system call succeeding, failing, writing short or killing the process, and
    with every compaction and torn-tail recovery this causes: the fence sequence
    numbers for which [Begin] returned an active receipt are strictly increasing for
    each resource.  A mutation is therefore never started twice, even when its replay
    history was pruned or the process died at any point. *)
Theorem journal_grants_each_fence_once (d : disk) (events : list (event * list outcome)) (r : string) :
  dMain d = None -> Forall event_valid events ->
  StronglySorted Z.lt (granted_for r (hGranted (foldl do_event (mkHistory None d []) events))).
Proof.
  intros Hd Hv. assert (history_good (mkHistory None d [])) as H0.
  { split_and!; simpl; try constructor. unfold good. by rewrite Hd. }
  by apply (run_events_good _ _ H0 Hv).
Qed.

End Runs.

(** ** A concrete history
    The first attempt is torn by a crash and the second by a short write; both are
    cut away, the third succeeds, and from then on the fence stays used although
    the process restarts before the mutation completes. *)
Module Example.

Definition request (key : string) (n : Z) : Request :=
  mkRequest 1 CapabilityRevision "boot" RolePanel VerbUpdateStage "req-1" "op-1" key
    (mkFence "host" n model_digest) (mkRevisions "" "" "" "") 1000 "" "" model_digest "{}".

Definition peer : PeerIdentity := mkPeer false "boot" model_digest model_digest.

Definition now : Z := unix_epoch + second.

Definition events : list (event * list outcome) :=
  [(EvOpen "boot" true true, []);
   (EvBegin (request "k1" 1) peer model_digest now, [Succeeds; Dies 20%nat]);
   (EvOpen "boot" false true, []);
   (EvBegin (request "k1" 1) peer model_digest now, [Succeeds; Short 7%nat]);
   (EvBegin (request "k1" 1) peer model_digest now, []);
   (EvBegin (request "k2" 2) peer model_digest now, []);
   (EvOpen "boot" false true, []);
   (EvBegin (request "k1" 1) peer model_digest now, [])].

End Example.

Lemma journal_grants_each_fence_once_witness :
  hGranted (foldl do_event (mkHistory None (mkDisk None None) []) Example.events) = [("host", 1)] /\
  StronglySorted Z.lt
    (granted_for "host" (hGranted (foldl do_event (mkHistory None (mkDisk None None) []) Example.events))).
Proof.
  split; [vm_compute; reflexivity|].
  apply journal_grants_each_fence_once; [reflexivity|].
  repeat constructor.
Defined.
