(* ===== verification/BrokerCompaction.v ===== *)
(** * The privileged broker: what compaction keeps

    [retainedJournalProjection] replaces the rows of the journal by a snapshot and a
    selection of them.  The index of a key is decided by the last row that touches
    it ([decided]); selections that keep the deciding row keep the index. *)

From S2P Require Import Prelude GoStrings BrokerProtocol BrokerJournal BrokerCodecModel BrokerJournalSafety.

Open Scope string_scope.
Open Scope list_scope.
Open Scope Z_scope.

(** ** The last row that touches a key decides *)
Section Decided.
Context {R V : Type}.

(** The value after [rows], each of which sets it or leaves it. *)
Definition decided (touch : R -> option V) (init : V) (rows : list R) : V :=
  foldl (fun v r => default v (touch r)) init rows.

Definition touches (touch : R -> option V) (r : R) : bool := bool_decide (is_Some (touch r)).

Lemma decided_snoc touch init rows r :
  decided touch init (rows ++ [r]) = default (decided touch init rows) (touch r).
Proof. unfold decided. by rewrite foldl_app. Qed.

Lemma last_index_snoc (p : R -> bool) rows r :
  last_index p (rows ++ [r]) = if p r then Some (length rows) else last_index p rows.
Proof.
  induction rows as [|a rows IH]; simpl; [by destruct (p r)|]. rewrite IH.
  destruct (p r); [done|]. done.
Qed.

Lemma last_index_spec (p : R -> bool) rows i :
  last_index p rows = Some i -> exists r, rows !! i = Some r /\ p r = true.
Proof.
  revert i. induction rows as [|a rows IH]; intros i; simpl; [done|].
  destruct (last_index p rows) as [k|] eqn:E.
  - intros [= <-]. by apply IH.
  - destruct (p a) eqn:Hp; [|done]. intros [= <-]. by exists a.
Qed.

Lemma last_index_none (p : R -> bool) rows : last_index p rows = None -> Forall (fun r => p r = false) rows.
Proof.
  induction rows as [|a rows IH]; simpl; [constructor|].
  destruct (last_index p rows); [done|]. destruct (p a) eqn:Hp; [done|]. intros _. constructor; auto.
Qed.

Lemma last_index_exists (p : R -> bool) rows r : r ∈ rows -> p r = true -> is_Some (last_index p rows).
Proof.
  intros Hin Hp. destruct (last_index p rows) eqn:E; [eauto|]. apply last_index_none in E.
  rewrite Forall_forall in E. specialize (E _ Hin). congruence.
Qed.

Lemma decided_untouched touch init rows :
  Forall (fun r => touch r = None \/ touch r = Some init) rows -> decided touch init rows = init.
Proof.
  induction rows as [|r rows IH] using rev_ind; intros Hall; [done|].
  apply Forall_app in Hall as [H1 H2]. apply Forall_cons in H2 as [H2 _].
  rewrite decided_snoc, IH by done. destruct H2 as [H2|H2]; by rewrite H2.
Qed.

(** The rows at the selected positions. *)
Definition select (rows : list R) (S : gset nat) : list R :=
  omap (fun i => rows !! i) (filter (fun i => i ∈ S) (seq 0 (length rows))).

Lemma omap_lookup_app (rows : list R) r l :
  Forall (fun i => i < length rows)%nat l -> omap (fun i => (rows ++ [r]) !! i) l = omap (fun i => rows !! i) l.
Proof.
  induction 1 as [|i l Hi _ IH]; [done|]. simpl. rewrite lookup_app_l by done.
  destruct (rows !! i); [f_equal|]; exact IH.
Qed.

Lemma select_snoc rows r S :
  select (rows ++ [r]) S = (select rows S ++ if decide (length rows ∈ S) then [r] else [])%list.
Proof.
  unfold select. rewrite length_app, seq_app, filter_app, omap_app. simpl. f_equal.
  - apply omap_lookup_app. apply Forall_forall. intros i [_ Hi]%list_elem_of_filter.
    apply elem_of_seq in Hi. lia.
  - rewrite filter_cons, filter_nil. case_decide; simpl; [|done].
    by rewrite lookup_app_r, Nat.sub_diag by done.
Qed.

Lemma elem_of_select rows S r : r ∈ select rows S -> exists i, i ∈ S /\ rows !! i = Some r.
Proof.
  intros (i & Hi & Hr)%list_elem_of_omap. apply list_elem_of_filter in Hi as [Hi _]. eauto.
Qed.

Lemma decided_select touch init rows S i :
  last_index (touches touch) rows = Some i -> i ∈ S ->
  decided touch init (select rows S) = decided touch init rows.
Proof.
  induction rows as [|r rows IH] using rev_ind; [done|].
  rewrite last_index_snoc, select_snoc, decided_snoc. unfold touches at 1.
  case_bool_decide as Ht.
  - intros [= <-] Hi. rewrite decide_True by done. rewrite decided_snoc. by destruct Ht as [v ->].
  - intros Hl Hi. rewrite <-eq_None_not_Some in Ht. rewrite Ht. simpl.
    case_decide; [rewrite decided_snoc, Ht|rewrite app_nil_r]; by apply IH.
Qed.

(** A narrower predicate that holds of the last row of a wider one has the same last row. *)
Lemma last_index_narrow (p q : R -> bool) rows i r :
  last_index p rows = Some i -> rows !! i = Some r -> q r = true ->
  (forall r', q r' = true -> p r' = true) -> last_index q rows = Some i.
Proof.
  intros Hi Hr Hq Hqp. revert i Hi Hr. induction rows as [|a rows IH] using rev_ind; intros i; [done|].
  rewrite !last_index_snoc. destruct (p a) eqn:Hp.
  - intros [= <-]. rewrite lookup_app_r, Nat.sub_diag by done. intros [= ->]. by rewrite Hq.
  - intros Hi Hr'. destruct (q a) eqn:Hqa; [by rewrite (Hqp _ Hqa) in Hp|].
    apply IH; [done|]. destruct (last_index_spec _ _ _ Hi) as (r0 & Hr0 & _).
    apply lookup_lt_Some in Hr0. by rewrite lookup_app_l in Hr' by done.
Qed.

End Decided.

(** ** The indexes as decisions of the rows *)
Section Projections.
Context `{C : Codec}.

Definition touch_unresolved (k : string) (row : journalRow) : option (option Receipt) :=
  if phase_is "authority" row || negb (String.eqb (rIdempotencyKey row) k) then None
  else if phase_is "active" row then Some (rReceipt row) else Some None.

(** What a row does to the completed authority of a key: the row that holds it, and
    whether it has been released. *)
Definition touch_completed (k : string) (row : journalRow) : option (option journalRow * bool) :=
  if negb (phase_is "complete" row) then None
  else match rResponse row, rReceipt row with
       | Some response, Some receipt =>
           if negb (rsOK response) then None
           else match rReleases row with
                | Some ref => if String.eqb (reference_key ref) k then Some (None, true)
                              else if String.eqb (receipt_key receipt) k then Some (Some row, false) else None
                | None => if String.eqb (receipt_key receipt) k then Some (Some row, false) else None
                end
       | _, _ => None
       end.

Definition touch_live (k : string) (row : journalRow) : option (option journalRow) :=
  match touch_completed k row with
  | Some (Some row, _) => if journalRowRetained row then Some (Some row) else None
  | Some (None, _) => Some None
  | None => None
  end.

Lemma validate_shape row :
  validateJournalRow row = None -> phase_is "authority" row = false ->
  (exists receipt, rReceipt row = Some receipt) /\
  (phase_is "active" row = true \/
   (phase_is "active" row = false /\ phase_is "complete" row = true /\ exists response, rResponse row = Some response)).
Proof.
  unfold validateJournalRow, validateCompleteRow, phase_is. intros Hv Hp. rewrite Hp in Hv.
  destruct (negb _); [done|]. destruct (rReceipt row) as [receipt|]; [|done].
  destruct (_ || _); [done|]. split; [eauto|]. destruct (String.eqb (rPhase row) "active"); [by left|]. right.
  split; [done|]. destruct (String.eqb (rPhase row) "complete"); [|done]. split; [done|].
  destruct (rResponse row); [eauto|done].
Qed.

(** The indexes that [index_row] starts its case analysis from. *)
Definition after_chain (s : buildState) (row : journalRow) (receipt : Receipt) : journalIndexes :=
  index_fence (index_chain s (bIndexes s) receipt) row.

Lemma after_chain_maps s row receipt :
  ixUnresolved (after_chain s row receipt) = ixUnresolved (bIndexes s) /\
  ixReplays (after_chain s row receipt) = ixReplays (bIndexes s) /\
  ixCompleted (after_chain s row receipt) = ixCompleted (bIndexes s) /\
  ixLiveCompleted (after_chain s row receipt) = ixLiveCompleted (bIndexes s) /\
  ixReleased (after_chain s row receipt) = ixReleased (bIndexes s).
Proof. unfold after_chain, index_fence, index_chain. repeat case_match; done. Qed.

(** The three kinds of iterations. *)
Inductive row_case (i : Z) (s : buildState) (row : journalRow) (s' : buildState) : Prop :=
| CaseAuthority a :
    phase_is "authority" row = true -> rAuthority row = Some a -> i = 0 -> bHasState s = false ->
    s' = mkBuild (mkIndexes (asSequence a) (asPreviousDigest a) (ixReplays (bIndexes s))
           (asFences a ∪ ixFences (bIndexes s)) (ixUnresolved (bIndexes s)) (ixCompleted (bIndexes s))
           (ixLiveCompleted (bIndexes s)) (ixReleased (bIndexes s))) (asSequence a) true (bLastSequence s) ->
    row_case i s row s'
| CaseActive receipt :
    phase_is "authority" row = false -> phase_is "active" row = true -> rReceipt row = Some receipt ->
    bLastSequence s <= rcSequence receipt ->
    s' = mkBuild (index_active (after_chain s row receipt) row receipt)
           (bStateSequence s) (bHasState s) (rcSequence receipt) ->
    row_case i s row s'
| CaseComplete receipt response :
    phase_is "authority" row = false -> phase_is "active" row = false -> phase_is "complete" row = true ->
    rReceipt row = Some receipt -> rResponse row = Some response ->
    bLastSequence s <= rcSequence receipt ->
    s' = mkBuild (index_complete (after_chain s row receipt) row receipt response)
           (bStateSequence s) (bHasState s) (rcSequence receipt) ->
    row_case i s row s'.

Lemma index_row_cases i s row s' : index_row i s row = Ok s' -> row_case i s row s'.
Proof.
  unfold index_row. destruct (validateJournalRow row) eqn:Hv; [done|].
  destruct (String.eqb (rPhase row) "authority") eqn:Hp.
  - destruct (rAuthority row) as [a|] eqn:Ha; [|done]. destruct (_ || _) eqn:Ei; [done|].
    intros [= <-]. apply (CaseAuthority _ _ _ _ a); try done; bools; tauto.
  - destruct (validate_shape row Hv Hp) as [[receipt Hr] Hshape]. rewrite Hr.
    destruct (_ <? _) eqn:Eseq; [done|]. intros [= <-].
    destruct Hshape as [Hact|(Hact & Hc & response & Hresp)]; unfold phase_is in Hact; rewrite Hact.
    + apply (CaseActive _ _ _ _ receipt); try done. lia.
    + rewrite Hresp. apply (CaseComplete _ _ _ _ receipt response); try done. lia.
Qed.

Lemma touch_unresolved_row k i s row s' :
  index_row i s row = Ok s' ->
  ixUnresolved (bIndexes s') !! k = default (ixUnresolved (bIndexes s) !! k) (touch_unresolved k row).
Proof.
  unfold touch_unresolved. intros [a Hp _ _ _ ->|receipt Hp Ha Hr _ ->|receipt response Hp Ha Hc Hr Hresp _ ->]%index_row_cases;
    rewrite Hp; simpl; try done; rewrite Ha.
  - rewrite (proj1 (after_chain_maps _ _ _)). destruct (String.eqb_spec (rIdempotencyKey row) k) as [->|Hne]; simpl.
    + by rewrite lookup_insert_eq, Hr.
    + by rewrite lookup_insert_ne.
  - assert (Hu : ixUnresolved (index_complete (after_chain s row receipt) row receipt response) =
                 delete (rIdempotencyKey row) (ixUnresolved (bIndexes s))).
    { unfold index_complete. rewrite (proj1 (after_chain_maps _ _ _)). by destruct (rsOK response), (rReleases row). }
    rewrite Hu. destruct (String.eqb_spec (rIdempotencyKey row) k) as [->|Hne]; simpl.
    + by rewrite lookup_delete_eq.
    + by rewrite lookup_delete_ne.
Qed.

(** The completed authority of a key. *)
Definition completed_at (k : string) (ix : journalIndexes) : option journalRow * bool :=
  (ixCompleted ix !! k, bool_decide (k ∈ ixReleased ix)).

Lemma completed_at_complete k ix row receipt :
  completed_at k (index_completed ix row receipt) =
  if String.eqb (receipt_key receipt) k then (Some row, false) else completed_at k ix.
Proof.
  unfold completed_at, index_completed. simpl. destruct (String.eqb_spec (receipt_key receipt) k) as [->|Hne].
  - rewrite lookup_insert_eq, bool_decide_eq_false_2; [done|]. set_solver.
  - rewrite lookup_insert_ne by done. f_equal. apply bool_decide_ext. set_solver.
Qed.

Lemma completed_at_release k ix ref :
  completed_at k (index_release ix ref) =
  if String.eqb (reference_key ref) k then (None, true) else completed_at k ix.
Proof.
  unfold completed_at, index_release. simpl. destruct (String.eqb_spec (reference_key ref) k) as [->|Hne].
  - rewrite lookup_delete_eq, bool_decide_eq_true_2; [done|]. set_solver.
  - rewrite lookup_delete_ne by done. f_equal. apply bool_decide_ext. set_solver.
Qed.

Lemma touch_completed_row k i s row s' :
  index_row i s row = Ok s' ->
  completed_at k (bIndexes s') = default (completed_at k (bIndexes s)) (touch_completed k row).
Proof.
  unfold touch_completed. intros [a Hp _ _ _ ->|receipt Hp Ha Hr _ ->|receipt response Hp Ha Hc Hr Hresp _ ->]%index_row_cases.
  - assert (phase_is "complete" row = false) as ->.
    { unfold phase_is in *. apply String.eqb_eq in Hp. by rewrite Hp. }
    done.
  - assert (phase_is "complete" row = false) as ->.
    { unfold phase_is in *. apply String.eqb_eq in Ha. by rewrite Ha. }
    simpl. destruct (after_chain_maps s row receipt) as (_ & _ & H1 & _ & H2).
    unfold completed_at. simpl. by rewrite H1, H2.
  - rewrite Hc, Hr, Hresp. simpl. destruct (after_chain_maps s row receipt) as (_ & _ & H1 & _ & H2).
    assert (H0 : forall m u, completed_at k (mkIndexes (ixSequence (after_chain s row receipt))
        (ixPrevious (after_chain s row receipt)) m (ixFences (after_chain s row receipt)) u
        (ixCompleted (after_chain s row receipt)) (ixLiveCompleted (after_chain s row receipt))
        (ixReleased (after_chain s row receipt))) = completed_at k (bIndexes s)).
    { intros m u. unfold completed_at. simpl. by rewrite H1, H2. }
    unfold index_complete. destruct (rsOK response); simpl; [|by destruct (rReleases row)].
    destruct (rReleases row) as [ref|].
    + rewrite completed_at_release, completed_at_complete, H0. by repeat case_match.
    + rewrite completed_at_complete, H0. by case_match.
Qed.

Lemma touch_live_row k i s row s' :
  index_row i s row = Ok s' ->
  ixLiveCompleted (bIndexes s') !! k = default (ixLiveCompleted (bIndexes s) !! k) (touch_live k row).
Proof.
  unfold touch_live, touch_completed.
  intros [a Hp _ _ _ ->|receipt Hp Ha Hr _ ->|receipt response Hp Ha Hc Hr Hresp _ ->]%index_row_cases.
  - assert (phase_is "complete" row = false) as ->.
    { unfold phase_is in *. apply String.eqb_eq in Hp. by rewrite Hp. }
    done.
  - assert (phase_is "complete" row = false) as ->.
    { unfold phase_is in *. apply String.eqb_eq in Ha. by rewrite Ha. }
    simpl. destruct (after_chain_maps s row receipt) as (_ & _ & _ & H1 & _). by rewrite H1.
  - rewrite Hc, Hr, Hresp. simpl. destruct (after_chain_maps s row receipt) as (_ & _ & _ & H1 & _).
    unfold index_complete. destruct (rsOK response); simpl; [|by destruct (rReleases row); simpl; rewrite H1].
    destruct (rReleases row) as [ref|]; simpl; rewrite H1;
      destruct (String.eqb_spec (receipt_key receipt) k) as [->|Hne]; simpl.
    + destruct (String.eqb_spec (reference_key ref) k) as [->|Hne']; simpl; [by rewrite lookup_delete_eq|].
      rewrite lookup_delete_ne by done. case_match; simpl; [by rewrite lookup_insert_eq|done].
    + destruct (String.eqb_spec (reference_key ref) k) as [->|Hne']; simpl; [by rewrite lookup_delete_eq|].
      rewrite lookup_delete_ne by done. case_match; [by rewrite lookup_insert_ne|done].
    + case_match; simpl; [by rewrite lookup_insert_eq|done].
    + case_match; [by rewrite lookup_insert_ne|done].
Qed.

Lemma index_rows_decided {V : Type} (proj : journalIndexes -> V) (touch : journalRow -> option V) :
  (forall i s row s', index_row i s row = Ok s' -> proj (bIndexes s') = default (proj (bIndexes s)) (touch row)) ->
  forall rows i s s', index_rows i s rows = Ok s' -> proj (bIndexes s') = decided touch (proj (bIndexes s)) rows.
Proof.
  intros Hrow. induction rows as [|row rows IH]; intros i s s'; simpl; [by intros [= <-]|].
  destruct (index_row i s row) as [s1|] eqn:E; [|done]. simpl. intros Hs. apply IH in Hs. rewrite Hs.
  unfold decided. simpl. f_equal. by eapply Hrow.
Qed.

Lemma build_decided {V : Type} (proj : journalIndexes -> V) (touch : journalRow -> option V) :
  (forall i s row s', index_row i s row = Ok s' -> proj (bIndexes s') = default (proj (bIndexes s)) (touch row)) ->
  forall rows ix, buildJournalIndexes rows = Ok ix -> proj ix = decided touch (proj newJournalIndexes) rows.
Proof.
  intros Hrow rows ix. unfold buildJournalIndexes. destruct (index_rows 0 initialBuild rows) as [s|] eqn:E; [|done].
  simpl. intros [= <-]. eapply (index_rows_decided proj touch Hrow) in E. exact E.
Qed.

Lemma build_unresolved rows ix k :
  buildJournalIndexes rows = Ok ix -> ixUnresolved ix !! k = decided (touch_unresolved k) None rows.
Proof. exact (build_decided (fun ix => ixUnresolved ix !! k) _ (touch_unresolved_row k) rows ix). Qed.

Lemma build_completed rows ix k :
  buildJournalIndexes rows = Ok ix -> completed_at k ix = decided (touch_completed k) (None, false) rows.
Proof. exact (build_decided (completed_at k) _ (touch_completed_row k) rows ix). Qed.

Lemma build_live rows ix k :
  buildJournalIndexes rows = Ok ix -> ixLiveCompleted ix !! k = decided (touch_live k) None rows.
Proof. exact (build_decided (fun ix => ixLiveCompleted ix !! k) _ (touch_live_row k) rows ix). Qed.

End Projections.

(** ** The chain and the fences of a selection *)
Section Chain.
Context `{C : Codec}.

Definition chain_good (s : buildState) : Prop :=
  bHasState s = true -> bStateSequence s <= ixSequence (bIndexes s).

Lemma index_chain_sequence s receipt row :
  chain_good s ->
  rcSequence receipt <= ixSequence (after_chain s row receipt) /\
  ixSequence (bIndexes s) <= ixSequence (after_chain s row receipt).
Proof.
  unfold chain_good, after_chain, index_fence, index_chain. intros Hc.
  destruct (negb (bHasState s) || _) eqn:E; bools.
  - repeat case_match; simpl; lia.
  - assert (bHasState s = true) by (destruct (bHasState s); [done|]; naive_solver).
    repeat case_match; simpl; naive_solver lia.
Qed.

Lemma index_row_chain i s row s' :
  chain_good s -> index_row i s row = Ok s' ->
  chain_good s' /\
  (phase_is "authority" row = false ->
   ixSequence (bIndexes s) <= ixSequence (bIndexes s') /\
   exists receipt, rReceipt row = Some receipt /\ rcSequence receipt <= ixSequence (bIndexes s')).
Proof.
  intros Hc [a Hp _ _ _ ->|receipt Hp Ha Hr _ ->|receipt response Hp Ha Hcm Hr Hresp _ ->]%index_row_cases;
    unfold chain_good; simpl.
  - split; [done|congruence].
  - destruct (index_chain_sequence s receipt row Hc). split; [intros H1; specialize (Hc H1); lia|]. eauto.
  - destruct (index_chain_sequence s receipt row Hc) as [H1 H2].
    assert (Hs : ixSequence (index_complete (after_chain s row receipt) row receipt response) =
                 ixSequence (after_chain s row receipt)).
    { unfold index_complete. by destruct (rsOK response), (rReleases row). }
    rewrite Hs. split; [intros H3; specialize (Hc H3); lia|]. eauto.
Qed.

Lemma index_rows_bounded rows : forall i s s',
  0 <= i -> chain_good s -> index_rows i s rows = Ok s' ->
  (0 < i -> ixSequence (bIndexes s) <= ixSequence (bIndexes s')) /\
  forall row, row ∈ rows -> phase_is "authority" row = false ->
    rFenceSequence row <= fence_of (ixFences (bIndexes s')) (rFenceResource row) /\
    exists receipt, rReceipt row = Some receipt /\ rcSequence receipt <= ixSequence (bIndexes s').
Proof.
  induction rows as [|row rows IH]; intros i s s' Hi Hc.
  - intros [= <-]. split; [lia|]. intros row Hin. by apply elem_of_nil in Hin.
  - cbn [index_rows]. destruct (index_row i s row) as [s1|] eqn:E; [|done]. cbn [rbind]. intros Hr.
    destruct (index_row_chain _ _ _ _ Hc E) as [Hc1 H1].
    destruct (IH (i + 1) s1 s' ltac:(lia) Hc1 Hr) as [Hm Hall]. specialize (Hm ltac:(lia)).
    assert (Hi1 : 0 < i + 1) by lia. pose proof (index_rows_le _ _ _ _ Hi1 Hr) as Hf. split.
    + intros Hpos. assert (Hne : i <> 0) by lia.
      destruct (H1 (index_row_not_first _ _ _ _ Hne E)) as [? _]. lia.
    + intros row' [->|Hin]%elem_of_cons Hp; [|by apply Hall].
      destruct (H1 Hp) as (Hle & receipt & Hrc & Hseq). split; [|exists receipt; split; [done|lia]].
      specialize (Hf (rFenceResource row)). rewrite (index_row_fences _ _ _ _ E Hp) in Hf.
      pose proof (index_fence_covers (bIndexes s) row). lia.
Qed.

Lemma build_bounded rows ix row :
  buildJournalIndexes rows = Ok ix -> row ∈ rows -> phase_is "authority" row = false ->
  rFenceSequence row <= fence_of (ixFences ix) (rFenceResource row) /\
  exists receipt, rReceipt row = Some receipt /\ rcSequence receipt <= ixSequence ix.
Proof.
  unfold buildJournalIndexes. destruct (index_rows 0 initialBuild rows) as [s|] eqn:E; [|done]. intros [= <-] Hin Hp.
  by apply (proj2 (index_rows_bounded rows 0 initialBuild s ltac:(lia) ltac:(done) E)).
Qed.

(** Rows that a snapshot already covers change neither the chain nor the fences. *)
Definition covered (ix : journalIndexes) (row : journalRow) : Prop :=
  phase_is "authority" row = false /\ rFenceSequence row <= fence_of (ixFences ix) (rFenceResource row) /\
  exists receipt, rReceipt row = Some receipt /\ rcSequence receipt <= ixSequence ix.

Definition same_chain (ix ix' : journalIndexes) : Prop :=
  ixSequence ix' = ixSequence ix /\ ixPrevious ix' = ixPrevious ix /\ ixFences ix' = ixFences ix.

Lemma index_row_covered i s row s' :
  bHasState s = true -> bStateSequence s = ixSequence (bIndexes s) -> covered (bIndexes s) row ->
  index_row i s row = Ok s' ->
  same_chain (bIndexes s) (bIndexes s') /\ bHasState s' = true /\ bStateSequence s' = bStateSequence s.
Proof.
  intros Hh Hst (Hp & Hf & receipt0 & Hr0 & Hseq) Hrow.
  assert (Hfence : forall receipt, rReceipt row = Some receipt -> after_chain s row receipt = bIndexes s).
  { intros receipt Hr. rewrite Hr0 in Hr. injection Hr as <-. unfold after_chain, index_chain. rewrite Hh. simpl.
    replace (bStateSequence s <? rcSequence receipt0) with false by lia. unfold index_fence.
    by replace (_ <? rFenceSequence row) with false by lia. }
  apply index_row_cases in Hrow as [a Hp' _ _ _ ->|receipt _ Ha Hr _ ->|receipt response _ Ha Hcm Hr Hresp _ ->];
    [congruence|rewrite (Hfence receipt Hr); done|]. rewrite (Hfence receipt Hr).
  split; [|done]. unfold same_chain, index_complete. simpl. by destruct (rsOK response), (rReleases row).
Qed.

Lemma index_rows_covered rows : forall i s s',
  bHasState s = true -> bStateSequence s = ixSequence (bIndexes s) -> Forall (covered (bIndexes s)) rows ->
  index_rows i s rows = Ok s' -> same_chain (bIndexes s) (bIndexes s').
Proof.
  induction rows as [|row rows IH]; intros i s s' Hh Hst Hall; [intros [= <-]; done|].
  apply Forall_cons in Hall as [Hrow Hall]. cbn [index_rows].
  destruct (index_row i s row) as [s1|] eqn:E; [|done]. cbn [rbind]. intros Hr.
  destruct (index_row_covered _ _ _ _ Hh Hst Hrow E) as ((H1 & H2 & H3) & Hh1 & Hst1).
  destruct (IH (i + 1) s1 s' Hh1) as (H4 & H5 & H6); [congruence| |done|].
  - eapply Forall_impl; [exact Hall|]. intros r. unfold covered. by rewrite H1, H3.
  - split_and!; congruence.
Qed.

Lemma build_snapshot ix rows ix' :
  Forall (covered ix) rows -> buildJournalIndexes (authorityRow ix :: rows) = Ok ix' -> same_chain ix ix'.
Proof.
  intros Hall Hb. change (authorityRow ix :: rows) with ([authorityRow ix] ++ rows) in Hb.
  apply build_app in Hb as (s & s' & Hs & _ & Hrest & ->). cbn [index_rows] in Hs.
  destruct (index_row 0 initialBuild (authorityRow ix)) as [s1|] eqn:E; [|done]. injection Hs as ->.
  apply index_row_cases in E as [a Hp Ha _ _ ->|receipt Hp|receipt response Hp]; try done.
  injection Ha as <-. cbn [asSequence asPreviousDigest asFences] in *.
  eapply index_rows_covered in Hrest; [|done|done|].
  - destruct Hrest as (H1 & H2 & H3). split_and!; [exact H1|exact H2|].
    rewrite H3. simpl. by rewrite (right_id_L ∅ (∪)).
  - eapply Forall_impl; [exact Hall|]. intros r (? & Hf & ?). split_and!; [done| |done].
    simpl. by rewrite (right_id_L ∅ (∪)).
Qed.

End Chain.

(** ** The selection *)
Section Selection.
Context `{C : Codec}.

Lemma foldl_required_err rows l e : foldl (select_required rows) (Err e) l = Err e.
Proof. by induction l. Qed.

Lemma foldl_history_err rows ix rb rr l e : foldl (select_history rows ix rb rr) (Err e) l = Err e.
Proof. by induction l. Qed.

(** The required loop selects the required rows that are not snapshots. *)
Lemma select_required_spec rows l : forall sel bytes sel' bytes',
  foldl (select_required rows) (Ok (sel, bytes)) l = Ok (sel', bytes') ->
  sel ⊆ sel' /\
  (forall i, i ∈ sel' -> i ∈ sel \/ (i ∈ l /\ exists row, rows !! i = Some row /\ phase_is "authority" row = false)) /\
  (forall i row, i ∈ l -> rows !! i = Some row -> phase_is "authority" row = false -> i ∈ sel').
Proof.
  induction l as [|i l IH]; intros sel bytes sel' bytes'; cbn [foldl].
  { intros [= <- <-]. split_and!; [done|by left|]. intros i row Hi. by apply elem_of_nil in Hi. }
  unfold select_required at 2. cbn [rbind].
  destruct (rows !! i) as [row|] eqn:Hi; [|intros Hf; by rewrite foldl_required_err in Hf].
  destruct (phase_is "authority" row) eqn:Hp.
  - intros Hf. destruct (IH _ _ _ _ Hf) as (H1 & H2 & H3). split_and!; [done| |].
    + intros k Hk. destruct (H2 k Hk) as [?|[? ?]]; [by left|right]. split; [by apply elem_of_cons; right|done].
    + intros k r [->|Hk]%elem_of_cons Hr Hpr; [congruence|by eapply H3].
  - destruct (encodeJournalRow row) as [line|]; cbn [rbind]; [|intros Hf; by rewrite foldl_required_err in Hf]. cbn [rbind]. intros Hf.
    destruct (IH _ _ _ _ Hf) as (H1 & H2 & H3). split_and!.
    + etrans; [|exact H1]. apply union_subseteq_r.
    + intros k Hk. destruct (H2 k Hk) as [[->%elem_of_singleton|?]%elem_of_union|[? ?]].
      * right. split; [by apply elem_of_cons; left|eauto].
      * by left.
      * right. split; [by apply elem_of_cons; right|done].
    + intros k r [->|Hk]%elem_of_cons Hr Hpr; [|by eapply H3].
      apply H1, elem_of_union. left. by apply elem_of_singleton.
Qed.

(** The history loop adds completed rows only. *)
Lemma select_history_spec rows ix rb rr l : forall sel bytes sel' bytes',
  foldl (select_history rows ix rb rr) (Ok (sel, bytes)) l = Ok (sel', bytes') ->
  sel ⊆ sel' /\
  (forall i, i ∈ sel' -> i ∈ sel \/ exists row, rows !! i = Some row /\ phase_is "complete" row = true).
Proof.
  induction l as [|i l IH]; intros sel bytes sel' bytes'; cbn [foldl].
  { intros [= <- <-]. split; [done|by left]. }
  unfold select_history at 2. cbn [rbind].
  destruct (rows !! i) as [row|] eqn:Hi; [|intros Hf; by rewrite foldl_history_err in Hf].
  destruct (bool_decide (i ∈ sel) || negb (phase_is "complete" row)) eqn:Hskip; [apply IH|].
  destruct (match completed_key row with Some key => _ | None => false end); [apply IH|].
  destruct (encodeJournalRow row) as [line|]; cbn [rbind]; [|intros Hf; by rewrite foldl_history_err in Hf]. cbn [rbind].
  destruct ((targetJournalRows <? _) || _); [apply IH|]. intros Hf. destruct (IH _ _ _ _ Hf) as [H1 H2]. split.
  - etrans; [|exact H1]. apply union_subseteq_r.
  - intros k Hk. destruct (H2 k Hk) as [[->%elem_of_singleton|?]%elem_of_union|?]; [|by left|by right].
    right. exists row. split; [done|]. apply orb_false_iff in Hskip as [_ Hs]. by apply negb_false_iff in Hs.
Qed.

(** What a successful projection gives: the snapshot and a selection that contains
    the required rows, and otherwise completed rows. *)
Lemma projection_spec rows required rb rr keep ix' output :
  retainedJournalProjection rows required rb rr = Ok (keep, ix', output) ->
  exists ix sel, buildJournalIndexes rows = Ok ix /\ keep = authorityRow ix :: select rows sel /\
    buildJournalIndexes keep = Ok ix' /\ output = encode_rows keep /\
    slen output + rb <= maxJournalFileBytes /\ Z.of_nat (length keep) + rr <= maxJournalRows /\
    (forall i row, i ∈ required_rows rows required ix -> rows !! i = Some row ->
       phase_is "authority" row = false -> i ∈ sel) /\
    (forall i row, i ∈ sel -> rows !! i = Some row ->
       phase_is "authority" row = false /\
       (i ∈ required_rows rows required ix \/ phase_is "complete" row = true)).
Proof.
  unfold retainedJournalProjection. destruct (buildJournalIndexes rows) as [ix|] eqn:Hix; [|done]. cbn [rbind].
  destruct (encodeJournalRow (authorityRow ix)) as [stateLine|] eqn:Hst; [|done]. cbn [rbind].
  destruct (foldl (select_required rows) _ _) as [[sel bytes]|] eqn:Hreq; [|done]. cbn [rbind].
  destruct (_ || _); [done|].
  destruct (foldl (select_history rows ix _ _) _ _) as [[sel' bytes']|] eqn:Hhist; [|done]. cbn [rbind].
  destruct (_ || _) eqn:Hbound; [done|].
  destruct (buildJournalIndexes (authorityRow ix :: _)) as [kix|] eqn:Hk; [|done]. cbn [rbind]. intros [= <- <- <-].
  apply select_required_spec in Hreq as (_ & Hreq1 & Hreq2). apply select_history_spec in Hhist as [Hh1 Hh2].
  exists ix, sel'. split_and!; try done.
  - assert (row_line (authorityRow ix) = stateLine) as <- by (unfold row_line; by rewrite Hst). done.
  - bools. lia.
  - bools. lia.
  - intros i row Hi Hr Hp. apply Hh1. eapply Hreq2; [|done..]. by apply elem_of_elements.
  - intros i row Hi Hr. destruct (Hh2 i Hi) as [Hsel|(row' & Hr' & Hcp)].
    + destruct (Hreq1 i Hsel) as [Hi0|(Hi0 & row' & Hr' & Hp)]; [by apply elem_of_empty in Hi0|].
      rewrite Hr in Hr'. injection Hr' as <-. split; [done|]. left. by apply elem_of_elements in Hi0.
    + rewrite Hr in Hr'. injection Hr' as <-. split; [|by right].
      unfold phase_is in *. apply String.eqb_eq in Hcp. by rewrite Hcp.
Qed.

Lemma elem_of_required rows required ix i :
  i ∈ required_rows rows required ix <->
  required = Some i \/ (exists k, is_Some (ixUnresolved ix !! k) /\ last_index (active_for k) rows = Some i) \/
  (exists k, is_Some (ixLiveCompleted ix !! k) /\ last_index (completed_for k) rows = Some i).
Proof.
  unfold required_rows. rewrite !elem_of_union, !elem_of_list_to_set, !list_elem_of_omap.
  assert (H1 : i ∈ (match required with Some i => {[i]} | None => ∅ end : gset nat) <-> required = Some i).
  { destruct required; [rewrite elem_of_singleton; naive_solver|]. split; [by intros ?%elem_of_empty|done]. }
  rewrite H1. split.
  - intros [[?|([k v] & Hk & Hl)]|([k v] & Hk & Hl)]; [by left|right; left|right; right];
      apply elem_of_map_to_list in Hk; exists k; simpl in Hl; eauto.
  - intros [?|[(k & [v Hk] & Hl)|(k & [v Hk] & Hl)]]; [by left; left|left; right|right];
      exists (k, v); rewrite elem_of_map_to_list; done.
Qed.

End Selection.

(** ** What compaction preserves *)
Section Preservation.
Context `{C : Codec}.

Lemma active_for_touches k row :
  active_for k row = true -> touches (touch_unresolved k) row = true.
Proof.
  unfold active_for, touches, touch_unresolved, phase_is. rewrite andb_true_iff.
  intros [Ha Hk]. apply String.eqb_eq in Ha as ->. rewrite Hk. done.
Qed.

Lemma touch_unresolved_some k row receipt :
  touch_unresolved k row = Some (Some receipt) -> active_for k row = true.
Proof.
  unfold touch_unresolved, active_for. destruct (phase_is "authority" row); [done|]. simpl.
  destruct (String.eqb (rIdempotencyKey row) k); [|done]. simpl. by destruct (phase_is "active" row).
Qed.

Lemma decided_last {R V : Type} (touch : R -> option V) init rows :
  match last_index (touches touch) rows with
  | Some i => exists r, rows !! i = Some r /\ touch r = Some (decided touch init rows)
  | None => decided touch init rows = init
  end.
Proof.
  induction rows as [|r rows IH] using rev_ind; [done|]. rewrite last_index_snoc, decided_snoc.
  unfold touches at 1. case_bool_decide as Ht.
  - destruct Ht as [v Hv]. exists r. rewrite lookup_app_r, Nat.sub_diag by done. by rewrite Hv.
  - rewrite <-eq_None_not_Some in Ht. rewrite Ht. simpl. destruct (last_index _ rows) as [i|]; [|done].
    destruct IH as (r' & Hr' & Hv). exists r'. split; [|done].
    rewrite lookup_app_l; [done|]. by eapply lookup_lt_Some.
Qed.

(** The row that keeps a mutation unresolved is required by compaction. *)
Lemma unresolved_required rows ix k receipt :
  buildJournalIndexes rows = Ok ix -> ixUnresolved ix !! k = Some receipt ->
  exists i row, last_index (touches (touch_unresolved k)) rows = Some i /\
    rows !! i = Some row /\ active_for k row = true /\ last_index (active_for k) rows = Some i.
Proof.
  intros Hb Hk. rewrite (build_unresolved _ _ k Hb) in Hk.
  pose proof (decided_last (touch_unresolved k) None rows) as Hl.
  destruct (last_index (touches (touch_unresolved k)) rows) as [i|] eqn:Hi; [|congruence].
  destruct Hl as (row & Hrow & Ht). rewrite Hk in Ht. apply touch_unresolved_some in Ht.
  exists i, row. split_and!; [done|done|done|]. eapply last_index_narrow; eauto using active_for_touches.
Qed.

Lemma active_not_authority k row : active_for k row = true -> phase_is "authority" row = false.
Proof.
  unfold active_for, phase_is. rewrite andb_true_iff. intros [Ha _]. apply String.eqb_eq in Ha as ->. done.
Qed.

Lemma completed_not_authority k row : completed_for k row = true -> phase_is "authority" row = false.
Proof.
  unfold completed_for, phase_is. rewrite andb_true_iff. intros [Ha _]. apply String.eqb_eq in Ha as ->. done.
Qed.

(** *** Unresolved mutations *)
Lemma selection_unresolved rows required ix sel k :
  buildJournalIndexes rows = Ok ix ->
  required = None \/ required = Some (length rows - 1)%nat ->
  (forall i row, i ∈ required_rows rows required ix -> rows !! i = Some row ->
     phase_is "authority" row = false -> i ∈ sel) ->
  (forall i row, i ∈ sel -> rows !! i = Some row ->
     phase_is "authority" row = false /\
     (i ∈ required_rows rows required ix \/ phase_is "complete" row = true)) ->
  decided (touch_unresolved k) None (select rows sel) = ixUnresolved ix !! k.
Proof.
  intros Hb Hreq Hin Hout. destruct (ixUnresolved ix !! k) as [receipt|] eqn:Hk.
  { destruct (unresolved_required _ _ _ _ Hb Hk) as (i & row & Hi & Hrow & Hact & Hl).
    rewrite (decided_select _ _ _ _ i Hi); [by rewrite <-(build_unresolved _ _ k Hb)|].
    eapply (Hin i row); [|done|by eapply active_not_authority].
    apply elem_of_required. right. left. exists k. split; [by rewrite Hk|done]. }
  apply decided_untouched. apply Forall_forall. intros row (i & Hi & Hrow)%elem_of_select.
  destruct (touch_unresolved k row) as [[receipt|]|] eqn:Ht; [exfalso|by right|by left].
  pose proof (touch_unresolved_some _ _ _ Ht) as Hact. destruct (Hout i row Hi Hrow) as [_ [Hr|Hcomp]].
  2:{ unfold active_for, phase_is in *. apply String.eqb_eq in Hcomp. by rewrite Hcomp in Hact. }
  apply elem_of_required in Hr as [Hr|[(k' & [v Hk'] & Hl)|(k' & _ & Hl)]].
  - destruct Hreq as [->| ->]; [done|]. injection Hr as <-.
    assert (last_index (touches (touch_unresolved k)) rows = Some (length rows - 1)%nat) as Hlast.
    { destruct rows as [|r0 rows' _] using rev_ind; [done|]. rewrite length_app in *. simpl in *.
      rewrite Nat.add_sub in *. rewrite lookup_app_r, Nat.sub_diag in Hrow by done. injection Hrow as ->.
      rewrite last_index_snoc. by rewrite active_for_touches. }
    pose proof (decided_last (touch_unresolved k) None rows) as Hd. rewrite Hlast in Hd.
    destruct Hd as (row' & Hrow' & Hd). rewrite Hrow in Hrow'. injection Hrow' as <-.
    rewrite <-(build_unresolved _ _ k Hb), Hk in Hd. congruence.
  - destruct (last_index_spec _ _ _ Hl) as (row' & Hrow' & Hact'). rewrite Hrow in Hrow'. injection Hrow' as <-.
    unfold active_for in *. bools. destruct Hact as [_ Hka], Hact' as [_ Hka']. congruence.
  - destruct (last_index_spec _ _ _ Hl) as (row' & Hrow' & Hcomp). rewrite Hrow in Hrow'. injection Hrow' as <-.
    unfold active_for, completed_for, phase_is in *. bools. destruct Hact as [Ha _], Hcomp as [Hc _]. congruence.
Qed.

(** *** Live completed authority *)
Lemma touch_completed_for k row row' b :
  touch_completed k row = Some (Some row', b) -> completed_for k row = true /\ row' = row /\ b = false.
Proof.
  unfold touch_completed, completed_for, completed_key. destruct (phase_is "complete" row); [|done]. simpl.
  destruct (rResponse row) as [response|]; [|done]. destruct (rReceipt row) as [receipt|]; [|done].
  destruct (rsOK response); [|done]. simpl.
  destruct (rReleases row) as [ref|]; [destruct (String.eqb (reference_key ref) k); [done|]|];
    (destruct (String.eqb_spec (receipt_key receipt) k) as [->|]; [|done]); intros [= <- <-];
    rewrite bool_decide_eq_true_2 by done; done.
Qed.

Lemma completed_for_touches k row : completed_for k row = true -> touches (touch_completed k) row = true.
Proof.
  unfold touches, touch_completed, completed_for, completed_key. destruct (phase_is "complete" row); [|done]. simpl.
  rewrite bool_decide_eq_true. destruct (rResponse row) as [response|]; [|done].
  destruct (rReceipt row) as [receipt|]; [|done]. destruct (rsOK response); [|done]. simpl.
  intros [= <-]. rewrite String.eqb_refl. apply bool_decide_eq_true_2.
  destruct (rReleases row) as [ref|]; [destruct (String.eqb _ _)|]; eauto.
Qed.

(** A live authority is the last completion of its key, and nothing released it since. *)
Lemma live_decided rows k :
  is_Some (decided (touch_live k) None rows) ->
  exists row, decided (touch_completed k) (None, false) rows = (Some row, false).
Proof.
  induction rows as [|r rows IH] using rev_ind; [by intros [? ?]|]. rewrite !decided_snoc.
  pose proof (eq_refl (touch_live k r)) as Hl. unfold touch_live at 2 in Hl. rewrite Hl. clear Hl.
  destruct (touch_completed k r) as [[[row|] b]|] eqn:Ht; simpl.
  - apply touch_completed_for in Ht as (_ & -> & ->). eauto.
  - by intros [? ?].
  - done.
Qed.

Lemma live_required rows ix k :
  buildJournalIndexes rows = Ok ix -> is_Some (ixLiveCompleted ix !! k) ->
  exists i row, last_index (touches (touch_completed k)) rows = Some i /\ rows !! i = Some row /\
    completed_for k row = true /\ last_index (completed_for k) rows = Some i /\
    completed_at k ix = (Some row, false).
Proof.
  intros Hb Hlive. rewrite (build_live _ _ k Hb) in Hlive. destruct (live_decided _ _ Hlive) as [row Hd].
  pose proof (decided_last (touch_completed k) (None, false) rows) as Hl. rewrite Hd in Hl.
  destruct (last_index (touches (touch_completed k)) rows) as [i|] eqn:Hi; [|done].
  destruct Hl as (row' & Hrow & Ht). destruct (touch_completed_for _ _ _ _ Ht) as (Hc & -> & _).
  exists i, row'. split_and!; [done|done|done| |by rewrite (build_completed _ _ k Hb)].
  eapply last_index_narrow; eauto using completed_for_touches.
Qed.

(** C12: Compaction forgets no authority.  Whenever it succeeds, the compacted rows
    index to the same receipt sequence, the same chain digest, the same fence of
    every resource and the same unresolved mutations as the rows it replaces; every
    completed mutation held for a later release stays available with the same row and
    is not reported released; what is written is the encoding of the kept rows, and
    it respects the bounds under which a journal can be reopened. *)
Theorem compaction_preserves_authority rows required reserveBytes reserveRows keep ix' output :
  required = None \/ required = Some (length rows - 1)%nat ->
  retainedJournalProjection rows required reserveBytes reserveRows = Ok (keep, ix', output) ->
  exists ix, buildJournalIndexes rows = Ok ix /\ buildJournalIndexes keep = Ok ix' /\
    ixSequence ix' = ixSequence ix /\ ixPrevious ix' = ixPrevious ix /\ ixFences ix' = ixFences ix /\
    ixUnresolved ix' = ixUnresolved ix /\
    (forall k, is_Some (ixLiveCompleted ix !! k) ->
       is_Some (ixCompleted ix !! k) /\ ixCompleted ix' !! k = ixCompleted ix !! k /\ k ∉ ixReleased ix') /\
    output = encode_rows keep /\ slen output + reserveBytes <= maxJournalFileBytes /\
    Z.of_nat (length keep) + reserveRows <= maxJournalRows.
Proof.
  intros Hreq Hp. destruct (projection_spec _ _ _ _ _ _ _ Hp) as
    (ix & sel & Hb & -> & Hb' & Hout & Hbytes & Hrows & Hin & Hsel).
  assert (Hcov : Forall (covered ix) (select rows sel)).
  { apply Forall_forall. intros row (i & Hi & Hrow)%elem_of_select. destruct (Hsel i row Hi Hrow) as [Hph _].
    split; [done|]. eapply build_bounded; [done| |done]. by eapply list_elem_of_lookup_2. }
  destruct (build_snapshot _ _ _ Hcov Hb') as (H1 & H2 & H3).
  exists ix. split_and!; try done.
  - apply map_eq. intros k. rewrite (build_unresolved _ _ k Hb').
    rewrite <-(selection_unresolved rows required ix sel k) by done. done.
  - intros k Hk. destruct (live_required _ _ _ Hb Hk) as (i & row & Hi & Hrow & Hc & Hl & Hat).
    assert (Hat' : completed_at k ix' = (Some row, false)).
    { rewrite (build_completed _ _ k Hb').
      change (decided (touch_completed k) (None, false) (select rows sel) = (Some row, false)).
      rewrite (decided_select _ _ _ _ i Hi); [by rewrite <-(build_completed _ _ k Hb)|].
      eapply (Hin i row); [|done|by eapply completed_not_authority].
      apply elem_of_required. right. right. eauto. }
    unfold completed_at in Hat, Hat'. injection Hat as Hat1 Hat2. injection Hat' as Hat3 Hat4.
    apply bool_decide_eq_false in Hat4. split_and!; [by rewrite Hat1|congruence|done].
Qed.

End Preservation.

(** ** Answers are replayed *)

(** What holds of the result of a computation, whatever the files and the faults. *)
Definition always {A : Type} (m : IO A) (Q : A -> Prop) : Prop :=
  triple (fun _ => True) m (fun a _ => Q a) (fun _ => True).

Lemma always_true {A : Type} (m : IO A) : always m (fun _ => True).
Proof. intros w _. by destruct (m w) as [[a|] w']. Qed.

Lemma always_from {A : Type} P (m : IO A) (Q : A -> Prop) :
  always m Q -> triple P m (fun a _ => Q a) (fun _ => True).
Proof. intros Hm w _. by apply Hm. Qed.

Lemma always_ret {A : Type} (a : A) (Q : A -> Prop) : Q a -> always (io_ret a) Q.
Proof. intros Ha. by apply triple_ret. Qed.

Lemma always_bind {A B : Type} (m : IO A) (k : A -> IO B) (Q : B -> Prop) :
  (forall a, always (k a) Q) -> always (io_bind m k) Q.
Proof.
  intros Hk. apply (triple_bind _ _ _ (fun _ _ => True)); [apply always_true|]. intros a. apply Hk.
Qed.

(** Walk through the calls of an operation, looking only at its result. *)
Ltac walk :=
  repeat first
    [ apply always_bind; intros ?
    | match goal with
      | |- always (match ?x with _ => _ end) _ => destruct x eqn:?
      | |- always (let _ := ?x in _) _ => cbv zeta
      | |- always (io_ret _) _ => apply always_ret
      end ].

Section Replay.
Context `{C : Codec}.

(** A successful append ends with the indexes of rows that end in the new one. *)
Definition ends_with (row : journalRow) (r : FileJournal * option ioError) : Prop :=
  r.2 = None -> exists rows, buildJournalIndexes (rows ++ [row]) = Ok (jIndexes r.1).

Lemma join_none errs : join errs = None -> Forall (fun e => e = None) errs.
Proof. induction errs as [|[e|] errs IH]; [constructor|done|]. intros H. constructor; [done|]. by apply IH. Qed.

(** A result that carries a joined error is not a success. *)
Ltac failure :=
  let Hn := fresh in intros Hn; simpl in Hn; apply join_none in Hn; rewrite ?Forall_cons in Hn; destruct_and?;
  repeat match goal with H : join _ = None |- _ => apply join_none in H; rewrite ?Forall_cons in H; destruct_and? end;
  subst; repeat match goal with H : short_write _ _ _ = None |- _ => rewrite H in *; clear H end; done.

Lemma compact_ends_with j rows row rb rr :
  phase_is "authority" row = false ->
  always (compact j (rows ++ [row]) (Some (length (rows ++ [row]) - 1)%nat) rb rr) (ends_with row).
Proof.
  intros Hp. unfold compact.
  destruct (retainedJournalProjection _ _ _ _) as [[[keep ix] output]|] eqn:E; [|by apply always_ret].
  destruct (projection_spec _ _ _ _ _ _ _ E) as (ix0 & sel & _ & -> & Hb & _ & _ & _ & Hin & _).
  assert (Hsel : length rows ∈ sel).
  { eapply (Hin _ row); [|by rewrite lookup_app_r, Nat.sub_diag by done|done].
    apply elem_of_required. left. rewrite length_app. simpl. f_equal. lia. }
  rewrite select_snoc, decide_True, app_comm_cons in Hb by done.
  walk; try done; try failure. unfold ends_with. simpl. eauto.
Qed.

Lemma append_ends_with j row rb rr :
  phase_is "authority" row = false -> always (append_row j row rb rr) (ends_with row).
Proof.
  intros Hp. unfold append_row. destruct (encodeJournalRow row) as [line|]; [|by apply always_ret].
  destruct (_ || _); [by apply compact_ends_with|]. walk; try done; try failure.
  unfold ends_with. simpl. eauto.
Qed.

Lemma build_snoc_replay rows row response ix :
  buildJournalIndexes (rows ++ [row]) = Ok ix -> phase_is "complete" row = true -> rResponse row = Some response ->
  ixReplays ix !! rIdempotencyKey row =
    Some (mkReplay (rRequestDigest row) (set_response response (rsReceipt response) (rPayload row))).
Proof.
  intros Hb Hc Hr. apply build_app in Hb as (s & s' & _ & _ & Hrow & ->). cbn [index_rows] in Hrow.
  destruct (index_row _ s row) as [s1|] eqn:E; [|done]. injection Hrow as <-.
  assert (Hna : phase_is "authority" row = false /\ phase_is "active" row = false).
  { unfold phase_is in *. apply String.eqb_eq in Hc. by rewrite Hc. }
  destruct Hna as [Hna Hact].
  apply index_row_cases in E as [a Hp|receipt _ Ha|receipt response' _ _ _ Hrc Hr' _ ->]; [congruence..|].
  rewrite Hr in Hr'. injection Hr' as <-. simpl. unfold index_complete.
  destruct (rsOK response), (rReleases row); simpl; by rewrite lookup_insert_eq.
Qed.

(** A successful [Commit] leaves the committed response in the replay index. *)
Lemma commit_replay_index j request receipt response policy now w j' committed w' :
  Commit j request receipt response policy now w = (Some (j', committed, None), w') ->
  ixReplays (jIndexes j') !! rqIdempotencyKey request = Some (mkReplay (requestAuthorityDigest request) committed).
Proof.
  intros Hc.
  enough (Ht : always (Commit j request receipt response policy now)
    (fun r => r.2 = None -> ixReplays (jIndexes r.1.1) !! rqIdempotencyKey request =
              Some (mkReplay (requestAuthorityDigest request) r.1.2))).
  { specialize (Ht w I). rewrite Hc in Ht. by apply Ht. }
  unfold Commit. destruct receipt as [receipt|]; [|by apply always_ret].
  destruct (_ && _); [by apply always_ret|].
  destruct (marshalResponse _) as [encoded|]; [|by apply always_ret]. cbv zeta.
  set (rc := completedReceipt _ _ _ _ _). eapply triple_bind; [by apply append_ends_with|].
  intros [j1 [e|]].
  - apply always_from. walk. done.
  - apply triple_ret. intros d Hends _. destruct (Hends eq_refl) as [rows Hb]. simpl in Hb |- *.
    exact (build_snoc_replay _ _ _ _ Hb eq_refl eq_refl).
Qed.

(** What [Begin] answers from the replay index. *)
Lemma Begin_replays j request peer digest now w rp :
  ixReplays (jIndexes j) !! rqIdempotencyKey request = Some rp ->
  Begin j request peer digest now w =
    if String.eqb (rpRequestDigest rp) digest
    then (Some (j, Ok (Some (set_replay (rpResponse rp)), rsReceipt (rpResponse rp))), w)
    else (Some (j, Err (PublicFailure
            (Failure CodeIdempotency "broker idempotency key conflicts with a prior request"))), w).
Proof. intros Hrp. unfold Begin. rewrite Hrp. by destruct (String.eqb _ _). Qed.

(** A committed answer is the answer from then on.  After a successful [Commit],
    whatever faults and compaction it met, beginning the same request again returns
    the committed response marked as a replay, with its receipt and without touching
    the files; a different request under the same idempotency key is refused as a
    conflict. *)
Theorem commit_is_replayed j request receipt response policy now w j' committed w' :
  Commit j request (Some receipt) response policy now w = (Some (j', committed, None), w') ->
  (forall peer now2 w2,
     Begin j' request peer (requestAuthorityDigest request) now2 w2 =
       (Some (j', Ok (Some (set_replay committed), rsReceipt committed)), w2)) /\
  (forall request2 peer digest now2 w2,
     rqIdempotencyKey request2 = rqIdempotencyKey request -> digest <> requestAuthorityDigest request ->
     Begin j' request2 peer digest now2 w2 =
       (Some (j', Err (PublicFailure
          (Failure CodeIdempotency "broker idempotency key conflicts with a prior request"))), w2)).
Proof.
  intros Hc%commit_replay_index. split.
  - intros peer now2 w2. by rewrite (Begin_replays _ _ _ _ _ _ _ Hc), String.eqb_refl.
  - intros request2 peer digest now2 w2 Hk Hd. rewrite <-Hk in Hc. rewrite (Begin_replays _ _ _ _ _ _ _ Hc).
    simpl. by rewrite (proj2 (String.eqb_neq _ _)) by done.
Qed.

End Replay.

(** ** The digest chain across a compaction *)
Section Unchained.
Context `{C : Codec}.

Lemma index_rows_no_state rows : forall i s s',
  bHasState s = false -> Forall (fun r => phase_is "authority" r = false) rows ->
  index_rows i s rows = Ok s' -> bHasState s' = false.
Proof.
  induction rows as [|row rows IH]; intros i s s' Hs Hall; [by intros [= <-]|].
  apply Forall_cons in Hall as [Hrow Hall]. cbn [index_rows].
  destruct (index_row i s row) as [s1|] eqn:E; [|done]. cbn [rbind]. apply IH; [|done].
  apply index_row_cases in E as [a Hp _ _ _ ->|receipt _ _ _ _ ->|receipt response _ _ _ _ _ _ ->]; [congruence|done|done].
Qed.

(** The completion of a mutation joins the digest chain only if its beginning did
    not compact the journal.  Without a snapshot, committing a row makes its receipt
    digest the chain's last one, which the next receipt will name as its predecessor.
    When the active row was written by a compaction, the snapshot already counts its
    sequence number, and the committed receipt, which has the same number, leaves the
    chain where it was: the next receipt skips the recorded outcome. *)
Theorem compacted_begin_skips_completion rows complete receipt ix2 :
  phase_is "complete" complete = true -> rReceipt complete = Some receipt ->
  (Forall (fun r => phase_is "authority" r = false) rows ->
   buildJournalIndexes (rows ++ [complete]) = Ok ix2 -> ixPrevious ix2 = rcReceiptDigest receipt) /\
  (forall keep ix1 output active activeReceipt required rb rr,
     retainedJournalProjection rows required rb rr = Ok (keep, ix1, output) ->
     active ∈ rows -> phase_is "active" active = true -> rReceipt active = Some activeReceipt ->
     rcSequence receipt = rcSequence activeReceipt -> rFenceResource complete = rFenceResource active ->
     rFenceSequence complete = rFenceSequence active ->
     buildJournalIndexes (keep ++ [complete]) = Ok ix2 -> ixPrevious ix2 = ixPrevious ix1).
Proof.
  intros Hc Hr. assert (Hna : phase_is "authority" complete = false /\ phase_is "active" complete = false).
  { unfold phase_is in *. apply String.eqb_eq in Hc. by rewrite Hc. }
  destruct Hna as [Hna Hact]. split.
  - intros Hall Hb. apply build_app in Hb as (s & s' & Hs & _ & Hrow & ->). cbn [index_rows] in Hrow.
    destruct (index_row _ s complete) as [s1|] eqn:E; [|done]. injection Hrow as <-.
    apply index_rows_no_state in Hs; [|done|done].
    apply index_row_cases in E as [a Hp|rc _ Ha|rc response _ _ _ Hrc Hr' _ ->]; [congruence..|].
    rewrite Hr in Hrc. injection Hrc as <-. simpl. unfold index_complete.
    assert (Hp : ixPrevious (after_chain s complete receipt) = rcReceiptDigest receipt).
    { unfold after_chain, index_chain. rewrite Hs. simpl. unfold index_fence. by case_match. }
    by destruct (rsOK response), (rReleases complete).
  - intros keep ix1 output active activeReceipt required rb rr Hp Hin Ha Hra Hseq Hfr Hfs Hb.
    destruct (projection_spec _ _ _ _ _ _ _ Hp) as (ix & sel & Hix & -> & Hk & _ & _ & _ & _ & Hsel).
    assert (Hcov : Forall (covered ix) (select rows sel)).
    { apply Forall_forall. intros row (i & Hi & Hrow)%elem_of_select. destruct (Hsel i row Hi Hrow) as [Hph _].
      split; [done|]. eapply build_bounded; [done| |done]. by eapply list_elem_of_lookup_2. }
    assert (Hcomp : covered ix complete).
    { assert (Hnaa : phase_is "authority" active = false).
      { unfold phase_is in *. apply String.eqb_eq in Ha. by rewrite Ha. }
      destruct (build_bounded _ _ _ Hix Hin Hnaa) as (Hf & rc & Hrc & Hle). rewrite Hra in Hrc. injection Hrc as <-.
      split_and!; [done|by rewrite Hfr, Hfs|]. exists receipt. split; [done|lia]. }
    destruct (build_snapshot _ _ _ Hcov Hk) as (_ & H1 & _).
    rewrite <-app_comm_cons in Hb. apply build_snapshot in Hb as (_ & H2 & _); [congruence|].
    apply Forall_app. split; [done|]. by constructor.
Qed.

End Unchained.

(** ** Concrete runs *)
Module CompactionExample.

Definition empty_world : world := mkWorld [] (mkDisk None None).

Definition request : Request := Example.request "k1" 1.

Definition opened : FileJournal := mkJournal "boot" newJournalIndexes [] 0.

Definition receipt : Receipt :=
  activeReceipt (set_sequence opened 1) request Example.peer Example.now.

Definition active : journalRow := activeRow request model_digest receipt.

Definition begun : FileJournal :=
  match Begin opened request Example.peer model_digest Example.now empty_world with
  | (Some (j, _), _) => j
  | _ => opened
  end.

Definition policy : CompletionPolicy := mkPolicy true "".

Definition commit : option (FileJournal * Response * option ioError) * world :=
  Commit begun request (Some receipt) (successResponse request) policy Example.now empty_world.

Definition committed : FileJournal := match commit with (Some (j, _, _), _) => j | _ => begun end.
Definition answer : Response := match commit with (Some (_, r, _), _) => r | _ => successResponse request end.

Lemma commit_succeeds : commit = (Some (committed, answer, None), snd commit).
Proof.
  assert (H : (match commit with (Some (_, _, None), _) => true | _ => false end) = true) by (vm_compute; reflexivity).
  unfold committed, answer. destruct commit as [[[[j r] [e|]]|] w]; [discriminate H|reflexivity|discriminate H].
Qed.

Definition complete : journalRow :=
  completeRow request (completedReceipt begun receipt true Example.now model_digest) (successResponse request) policy.

(** The result of a computation that succeeds. *)
Definition the_ok {E A : Type} (d : A) (r : result E A) : A := match r with Ok a => a | Err _ => d end.
Definition is_ok {E A : Type} (r : result E A) : bool := match r with Ok _ => true | Err _ => false end.

Lemma the_ok_eq {E A : Type} (d : A) (r : result E A) : is_ok r = true -> r = Ok (the_ok d r).
Proof. by destruct r. Qed.

Definition compaction (rows : list journalRow) (required : option nat) :=
  the_ok ([], newJournalIndexes, "") (retainedJournalProjection rows required 0 0).

Lemma compaction_eq rows required :
  is_ok (retainedJournalProjection rows required 0 0) = true ->
  retainedJournalProjection rows required 0 0 =
    Ok ((compaction rows required).1.1, (compaction rows required).1.2, (compaction rows required).2).
Proof.
  intros H. rewrite (the_ok_eq ([], newJournalIndexes, "") _ H) at 1. fold (compaction rows required).
  by destruct (compaction rows required) as [[? ?] ?].
Qed.

Definition final : journalIndexes :=
  the_ok newJournalIndexes (buildJournalIndexes ((compaction [active] (Some 0%nat)).1.1 ++ [complete])).

End CompactionExample.

Import CompactionExample.

Lemma compaction_preserves_authority_witness :
  exists ix, buildJournalIndexes (jRows committed) = Ok ix /\
    ixFences (compaction (jRows committed) None).1.2 = ixFences ix /\ ixFences ix !! "host" = Some 1.
Proof.
  destruct (compaction_preserves_authority (jRows committed) None 0 0
    (compaction (jRows committed) None).1.1 (compaction (jRows committed) None).1.2
    (compaction (jRows committed) None).2)
    as (ix & Hix & _ & _ & _ & Hf & _);
    [left; reflexivity|apply compaction_eq; vm_compute; reflexivity|].
  exists ix. split; [exact Hix|]. split; [exact Hf|]. rewrite <-Hf. vm_compute. reflexivity.
Defined.

Lemma commit_is_replayed_witness :
  Begin committed CompactionExample.request Example.peer
    (requestAuthorityDigest CompactionExample.request) Example.now empty_world =
  (Some (committed, Ok (Some (set_replay answer), rsReceipt answer)), empty_world) /\ rsOK answer = true.
Proof.
  split; [|vm_compute; reflexivity].
  exact (proj1 (commit_is_replayed begun CompactionExample.request receipt
    (successResponse CompactionExample.request) policy Example.now empty_world committed answer (snd commit)
    commit_succeeds) Example.peer Example.now empty_world).
Defined.

Lemma compacted_begin_skips_completion_witness :
  ixPrevious final = ixPrevious (compaction [active] (Some 0%nat)).1.2.
Proof.
  destruct (compacted_begin_skips_completion [active] complete
    (completedReceipt begun receipt true Example.now model_digest) final) as [_ H];
    [reflexivity|reflexivity|].
  apply (H (compaction [active] (Some 0%nat)).1.1 (compaction [active] (Some 0%nat)).1.2
           (compaction [active] (Some 0%nat)).2 active receipt (Some 0%nat) 0 0);
    [apply compaction_eq; vm_compute; reflexivity|apply list_elem_of_singleton; reflexivity|
     reflexivity|reflexivity|reflexivity|reflexivity|reflexivity|apply the_ok_eq; vm_compute; reflexivity].
Defined.
