(* ===== verification/BrokerAuthority.v ===== *)
(** * The privileged broker: authority generations ([privilegedbroker/authority.go])

    Every connection holds a lease on the attestor generation it started under;
    [RotateAuthority] fences new leases, waits for the old ones to drain and only
    then installs the next generation.  The mutex makes the body of each operation
    one step; a rotation is two of them, its start and its end (drained or timed
    out), with other steps between.  Channels are identities in a set of closed
    ones, so that closing one twice, a panic in Go, is visible as [None]. *)

From S2P Require Import Prelude GoStrings BrokerProtocol.

Open Scope string_scope.
Open Scope Z_scope.

(** What [AuthorityRevision] of an attestor returns, [None] for one without it. *)
Definition Attestor := option string.

Definition attestorRevision (a : Attestor) : option string :=
  match a with
  | Some revision => if digestPattern revision then Some revision else None
  | None => None
  end.

Record authorityLease := mkLease { lID : Z; lAttestor : Attestor; lRevision : string; lRevisioned : bool }.

Record Authority := mkAuthorityState {
  auAttestor : Attestor;
  auRevision : string;
  auRetiring : bool;
  auActive : Z;
  auSequence : Z;
  auCancels : gset Z;
  auIdle : Z;
  auClosed : gset Z;
  auChannels : Z
}.

(** [close(channel)]; closing a closed channel panics. *)
Definition close_channel (s : Authority) : option Authority :=
  if bool_decide (auIdle s ∈ auClosed s) then None
  else Some (mkAuthorityState (auAttestor s) (auRevision s) (auRetiring s) (auActive s) (auSequence s)
               (auCancels s) (auIdle s) ({[auIdle s]} ∪ auClosed s) (auChannels s)).

(** The authority of [NewServer]. *)
Definition newAuthority (attestor : Attestor) (initial : string) : Authority :=
  mkAuthorityState attestor (default initial (attestorRevision attestor)) false 0 0 ∅ 0 {[0]} 0.

Inductive leaseError := Retiring | Inconsistent.

(** The new state and the lease or the error; [None] is a panic. *)
Definition beginAuthority (s : Authority) : option (Authority * result leaseError authorityLease) :=
  if auRetiring s then Some (s, Err Retiring)
  else
    let fresh := auActive s =? 0 in
    let channel := if fresh then auChannels s + 1 else auIdle s in
    let id := wrapu64 (auSequence s + 1) in
    let s1 := mkAuthorityState (auAttestor s) (auRevision s) (auRetiring s) (wrapu64 (auActive s + 1)) id
                ({[id]} ∪ auCancels s) channel (auClosed s)
                (if fresh then auChannels s + 1 else auChannels s) in
    let revision := attestorRevision (auAttestor s) in
    let inconsistent := match revision with
                        | Some r => negb (String.eqb r (auRevision s))
                        | None => false
                        end in
    if inconsistent then
      let s2 := mkAuthorityState (auAttestor s1) (auRevision s1) (auRetiring s1) (wrapu64 (auActive s1 - 1)) id
                  (auCancels s1 ∖ {[id]}) (auIdle s1) (auClosed s1) (auChannels s1) in
      if auActive s2 =? 0 then s3 ← close_channel s2; Some (s3, Err Inconsistent)
      else Some (s2, Err Inconsistent)
    else Some (s1, Ok (mkLease id (auAttestor s) (auRevision s) (bool_decide (is_Some revision)))).

Definition releaseAuthority (s : Authority) (id : Z) : option Authority :=
  if bool_decide (id ∈ auCancels s) then
    let s1 := mkAuthorityState (auAttestor s) (auRevision s) (auRetiring s)
                (if 0 <? auActive s then auActive s - 1 else auActive s) (auSequence s)
                (auCancels s ∖ {[id]}) (auIdle s) (auClosed s) (auChannels s) in
    if auActive s1 =? 0 then close_channel s1 else Some s1
  else Some s.

Definition authorityCurrent (s : Authority) (revision : string) : bool :=
  negb (auRetiring s) && String.eqb (auRevision s) revision.

Inductive rotateResult :=
| RotateInvalid
| RotateAlreadyRetiring
| RotateUnchanged
| RotateWaits (idle : Z).

(** [RotateAuthority] until it waits on the idle channel it captured. *)
Definition rotateStart (s : Authority) (next : Attestor) (revision : string) : Authority * rotateResult :=
  if negb (digestPattern revision) then (s, RotateInvalid)
  else if match attestorRevision next with Some r => negb (String.eqb r revision) | None => false end
  then (s, RotateInvalid)
  else if auRetiring s then (s, RotateAlreadyRetiring)
  else if String.eqb (auRevision s) revision then (s, RotateUnchanged)
  else (mkAuthorityState (auAttestor s) (auRevision s) true (auActive s) (auSequence s) (auCancels s)
          (auIdle s) (auClosed s) (auChannels s), RotateWaits (auIdle s)).

(** [RotateAuthority] after the idle channel was found closed. *)
Definition rotateFinish (s : Authority) (next : Attestor) (revision : string) : Authority :=
  mkAuthorityState next revision false (auActive s) (auSequence s) (auCancels s) (auIdle s) (auClosed s)
    (auChannels s).

(** ** The system: connections, leases and rotations interleave *)
Record pendingRotation := mkPending { prNext : Attestor; prRevision : string; prIdle : Z }.

(** The outstanding leases are recorded under their identity. *)
Record system := mkSystem {
  sAuthority : Authority;
  sLeases : gmap Z authorityLease;
  sPending : list pendingRotation
}.

Definition initialSystem (attestor : Attestor) (initial : string) : system :=
  mkSystem (newAuthority attestor initial) ∅ [].

Inductive step : system -> system -> Prop :=
| StepBegin sys a lease :
    beginAuthority (sAuthority sys) = Some (a, Ok lease) ->
    step sys (mkSystem a (<[lID lease := lease]> (sLeases sys)) (sPending sys))
| StepRefused sys a e :
    beginAuthority (sAuthority sys) = Some (a, Err e) ->
    step sys (mkSystem a (sLeases sys) (sPending sys))
| StepRelease sys a id :
    releaseAuthority (sAuthority sys) id = Some a ->
    step sys (mkSystem a (delete id (sLeases sys)) (sPending sys))
| StepRotate sys a next revision idle :
    rotateStart (sAuthority sys) next revision = (a, RotateWaits idle) ->
    step sys (mkSystem a (sLeases sys) (mkPending next revision idle :: sPending sys))
| StepRotateRefused sys a next revision r :
    rotateStart (sAuthority sys) next revision = (a, r) -> (forall idle, r <> RotateWaits idle) ->
    step sys (mkSystem a (sLeases sys) (sPending sys))
| StepDrained sys before p after :
    sPending sys = (before ++ p :: after)%list -> prIdle p ∈ auClosed (sAuthority sys) ->
    step sys (mkSystem (rotateFinish (sAuthority sys) (prNext p) (prRevision p)) (sLeases sys)
                (before ++ after)%list)
| StepTimeout sys before p after :
    sPending sys = (before ++ p :: after)%list ->
    step sys (mkSystem (sAuthority sys) (sLeases sys) (before ++ after)%list).

(** Reachable in [n] steps. *)
Inductive reachable (attestor : Attestor) (initial : string) : Z -> system -> Prop :=
| ReachInitial : reachable attestor initial 0 (initialSystem attestor initial)
| ReachStep n sys sys' :
    reachable attestor initial n sys -> step sys sys' -> reachable attestor initial (n + 1) sys'.

(** ** The invariant *)
Record invariant (n : Z) (sys : system) : Prop := {
  inv_active : auActive (sAuthority sys) = Z.of_nat (size (auCancels (sAuthority sys)));
  inv_idle : auIdle (sAuthority sys) ∈ auClosed (sAuthority sys) <-> auActive (sAuthority sys) = 0;
  inv_sequence : 0 <= auSequence (sAuthority sys) <= n;
  inv_small : auActive (sAuthority sys) <= n;
  inv_cancels : forall id, id ∈ auCancels (sAuthority sys) -> 0 < id <= auSequence (sAuthority sys);
  inv_channels : forall c, c ∈ auClosed (sAuthority sys) \/ c = auIdle (sAuthority sys) -> c <= auChannels (sAuthority sys);
  inv_leases : dom (sLeases sys) = auCancels (sAuthority sys);
  inv_generation : forall id l, sLeases sys !! id = Some l -> lRevision l = auRevision (sAuthority sys);
  inv_pending : sPending sys = [] \/
    (auRetiring (sAuthority sys) = true /\
     exists p, sPending sys = [p] /\ prIdle p = auIdle (sAuthority sys))
}.

Lemma size_singleton_union (x : Z) (X : gset Z) : x ∉ X -> size ({[x]} ∪ X) = S (size X).
Proof. intros Hx. rewrite size_union by set_solver. by rewrite size_singleton. Qed.

Lemma size_difference_singleton (x : Z) (X : gset Z) : x ∈ X -> S (size (X ∖ {[x]})) = size X.
Proof.
  intros Hx. rewrite size_difference by set_solver. rewrite size_singleton.
  assert (size X <> 0%nat); [|lia]. intros H0%size_empty_inv. set_solver.
Qed.

Lemma wrapu64_id z : 0 <= z < 2 ^ 64 -> wrapu64 z = z.
Proof. unfold wrapu64. apply Z.mod_small. Qed.

Lemma invariant_mono n m sys : invariant n sys -> n <= m -> invariant m sys.
Proof. intros [] Hm. split; auto; lia. Qed.

Lemma not_retiring_idle n sys :
  invariant n sys -> auRetiring (sAuthority sys) = false -> sPending sys = [].
Proof. intros [_ _ _ _ _ _ _ _ [?|[? _]]] Hr; [done|congruence]. Qed.

Lemma beginAuthority_spec n sys :
  invariant n sys -> n + 1 < 2 ^ 64 ->
  exists a r, beginAuthority (sAuthority sys) = Some (a, r) /\
    match r with
    | Ok l => auRetiring (sAuthority sys) = false /\ lRevision l = auRevision (sAuthority sys) /\
        invariant (n + 1) (mkSystem a (<[lID l := l]> (sLeases sys)) (sPending sys))
    | Err _ => invariant (n + 1) (mkSystem a (sLeases sys) (sPending sys))
    end.
Proof.
  intros Hinv Hn. unfold beginAuthority. destruct (auRetiring (sAuthority sys)) eqn:Hret.
  { eexists _, _. split; [reflexivity|]. destruct sys. eapply invariant_mono; [exact Hinv|lia]. }
  pose proof (not_retiring_idle _ _ Hinv Hret) as Hpend. destruct Hinv as [Hact Hidle Hseq Hsmall Hcan Hch Hle Hgen _].
  destruct sys as [s leases pending]. simpl in *. subst pending.
  rewrite (wrapu64_id (auSequence s + 1)), (wrapu64_id (auActive s + 1)) by lia. set (id := auSequence s + 1) in *.
  assert (Hid : id ∉ auCancels s) by (intros Hin%Hcan; lia).
  assert (Hfresh : auActive s = 0 -> auChannels s + 1 ∉ auClosed s).
  { intros _ Hin. specialize (Hch _ (or_introl Hin)). lia. }
  set (channel := if auActive s =? 0 then auChannels s + 1 else auIdle s).
  assert (Hopen : channel ∉ auClosed s).
  { subst channel. destruct (auActive s =? 0) eqn:E; [apply Hfresh; lia|]. rewrite Hidle. lia. }
  assert (Hchan : forall c, c ∈ auClosed s \/ c = channel -> c <= (if auActive s =? 0 then auChannels s + 1 else auChannels s)).
  { intros c. subst channel. destruct (auActive s =? 0); intros [Hc|Hc].
    - specialize (Hch c (or_introl Hc)). lia.
    - lia.
    - apply Hch. by left.
    - apply Hch. by right. }
  destruct (match attestorRevision (auAttestor s) with Some r => _ | None => false end) eqn:Einc.
  - simpl. rewrite (wrapu64_id (auActive s + 1 - 1)) by lia. replace (auActive s + 1 - 1) with (auActive s) by lia.
    assert (Hset : ({[id]} ∪ auCancels s) ∖ {[id]} = auCancels s) by set_solver. rewrite Hset.
    destruct (auActive s =? 0) eqn:E0.
    + unfold close_channel. simpl. rewrite bool_decide_eq_false_2 by done. simpl. eexists _, _. split; [reflexivity|].
      split; simpl; auto; try lia.
      * split; [lia|]. intros _. set_solver.
      * intros i Hi%Hcan. lia.
      * intros c [[->%elem_of_singleton|Hc]%elem_of_union|Hc]; apply Hchan; auto.
    + eexists _, _. split; [reflexivity|]. split; simpl; auto; try lia. intros i Hi%Hcan. lia.
  - eexists _, _. split; [reflexivity|]. simpl. split_and!; [done|done|].
    split; simpl.
    + rewrite size_singleton_union by done. lia.
    + split; [done|lia].
    + lia.
    + lia.
    + intros i [->%elem_of_singleton|Hi%Hcan]%elem_of_union; lia.
    + exact Hchan.
    + by rewrite dom_insert_L, Hle.
    + intros i l. rewrite lookup_insert_Some. intros [[<- <-]|[_ Hl]]; [done|]. by eapply Hgen.
    + by left.
Qed.

Lemma releaseAuthority_spec n sys id :
  invariant n sys ->
  exists a, releaseAuthority (sAuthority sys) id = Some a /\ auRetiring a = auRetiring (sAuthority sys) /\
    invariant n (mkSystem a (delete id (sLeases sys)) (sPending sys)).
Proof.
  intros [Hact Hidle Hseq Hsmall Hcan Hch Hle Hgen Hpend]. destruct sys as [s leases pending]. simpl in *.
  unfold releaseAuthority. case_bool_decide as Hid.
  2:{ exists s. split_and!; [done|done|]. assert (delete id leases = leases) as ->.
      { apply delete_id, not_elem_of_dom. by rewrite Hle. }
      by split. }
  pose proof (size_difference_singleton _ _ Hid) as Hsz.
  assert (Hpos : 0 < auActive s) by lia. rewrite (proj2 (Z.ltb_lt _ _) Hpos). simpl.
  assert (Hopen : auIdle s ∉ auClosed s) by (rewrite Hidle; lia).
  destruct (auActive s - 1 =? 0) eqn:E0.
  - unfold close_channel. simpl. rewrite bool_decide_eq_false_2 by done. eexists. split_and!; [reflexivity|done|].
    split; simpl; auto; try lia.
    + split; [lia|]. intros _. set_solver.
    + intros i Hi. apply Hcan. set_solver.
    + intros c [[->%elem_of_singleton|Hc]%elem_of_union|Hc]; apply Hch; auto.
    + by rewrite dom_delete_L, Hle.
    + intros i l. rewrite lookup_delete_Some. intros [_ Hl]. by eapply Hgen.
  - eexists. split_and!; [reflexivity|done|]. split; simpl; auto; try lia.
    + split; [done|lia].
    + intros i Hi. apply Hcan. set_solver.
    + by rewrite dom_delete_L, Hle.
    + intros i l. rewrite lookup_delete_Some. intros [_ Hl]. by eapply Hgen.
Qed.

Lemma list_singleton_split {A : Type} (p q : A) before after :
  [q] = (before ++ p :: after)%list -> before = [] /\ after = [] /\ p = q.
Proof. destruct before as [|x [|y before]]; simpl; intros [= ]; subst; done. Qed.

Lemma rotateStart_spec s next revision :
  (exists r, rotateStart s next revision = (s, r) /\ forall idle, r <> RotateWaits idle) \/
  (auRetiring s = false /\ auRevision s <> revision /\
   rotateStart s next revision =
     (mkAuthorityState (auAttestor s) (auRevision s) true (auActive s) (auSequence s) (auCancels s)
        (auIdle s) (auClosed s) (auChannels s), RotateWaits (auIdle s))).
Proof.
  unfold rotateStart. destruct (negb _); [by left; eexists|].
  destruct (match attestorRevision next with Some r => _ | None => false end); [by left; eexists|].
  destruct (auRetiring s); [by left; eexists|].
  destruct (String.eqb_spec (auRevision s) revision); [by left; eexists|]. by right.
Qed.

Lemma step_invariant n sys sys' :
  invariant n sys -> n + 1 < 2 ^ 64 -> step sys sys' -> invariant (n + 1) sys'.
Proof.
  intros Hinv Hn Hstep. destruct Hstep as
    [sys a lease Hb|sys a e Hb|sys a id Hr|sys a next revision idle Hr|sys a next revision r Hr Hne
    |sys before p after Hp Hidle|sys before p after Hp].
  - destruct (beginAuthority_spec _ _ Hinv Hn) as (a' & r & Hb' & Hr). rewrite Hb in Hb'. injection Hb' as <- <-.
    apply Hr.
  - destruct (beginAuthority_spec _ _ Hinv Hn) as (a' & r & Hb' & Hr). rewrite Hb in Hb'. by injection Hb' as <- <-.
  - destruct (releaseAuthority_spec _ _ id Hinv) as (a' & Hr' & _ & Hi). rewrite Hr in Hr'. injection Hr' as <-.
    eapply invariant_mono; [exact Hi|lia].
  - destruct (rotateStart_spec (sAuthority sys) next revision) as [(r & Hs & Hr')|(Hret & _ & Hs)];
      rewrite Hs in Hr; [injection Hr as <- ->; by destruct (Hr' idle)|]. injection Hr as <- <-. apply (invariant_mono n); [|lia].
    rewrite (not_retiring_idle _ _ Hinv) by done. destruct Hinv. split; simpl; try done. right. eauto.
  - assert (a = sAuthority sys) as ->.
    { destruct (rotateStart_spec (sAuthority sys) next revision) as [(r' & Hs & _)|(_ & _ & Hs)];
        rewrite Hs in Hr; [by injection Hr|]. injection Hr as _ <-. by destruct (Hne (auIdle (sAuthority sys))). }
    destruct sys. eapply invariant_mono; [exact Hinv|simpl; lia].
  - pose proof Hinv as [Hact Hid Hseq Hsmall Hcan Hch Hle Hgen [Hnil|(Hret & q & Hq & Hqi)]].
    { rewrite Hnil in Hp. by destruct before. }
    rewrite Hp in Hq. apply eq_sym, list_singleton_split in Hq as (-> & -> & ->).
    rewrite Hqi in Hidle. assert (H0 : auActive (sAuthority sys) = 0) by (by apply Hid).
    assert (Hempty : auCancels (sAuthority sys) = ∅) by (apply leibniz_equiv, size_empty_iff; lia).
    split; simpl; auto; try lia. intros i l Hl. apply elem_of_dom_2 in Hl. rewrite Hle, Hempty in Hl. set_solver.
  - apply (invariant_mono n); [|lia]. pose proof Hinv as [Hact Hid Hseq Hsmall Hcan Hch Hle Hgen [Hnil|(Hret & q & Hq & Hqi)]].
    { rewrite Hnil in Hp. by destruct before. }
    rewrite Hp in Hq. apply eq_sym, list_singleton_split in Hq as (-> & -> & ->). split; auto.
Qed.

Lemma initial_invariant attestor initial : invariant 0 (initialSystem attestor initial).
Proof. split; simpl; try lia; try set_solver. Qed.

Lemma reachable_invariant attestor initial n sys :
  reachable attestor initial n sys -> n < 2 ^ 64 -> invariant n sys.
Proof.
  induction 1 as [|n sys sys' Hr IH Hs]; intros Hn; [apply initial_invariant|].
  eapply step_invariant; [apply IH; lia|lia|done].
Qed.

(** ** What leases and rotations guarantee *)

(** C35: Authority generations do not overlap.  In every interleaving of connections,
    releases and rotations (of fewer than 2^64 steps), every outstanding lease carries
    the current generation, [beginAuthority] and [releaseAuthority] never close a
    channel twice, a lease is only handed out under the current generation and never
    while one is retiring, and the count of active leases is exact, so that the idle
    channel is closed exactly when none is left. *)
Theorem authority_generations_exclusive attestor initial n sys :
  reachable attestor initial n sys -> n + 1 < 2 ^ 64 ->
  (forall id l, sLeases sys !! id = Some l -> lRevision l = auRevision (sAuthority sys)) /\
  auActive (sAuthority sys) = Z.of_nat (size (sLeases sys)) /\
  (auIdle (sAuthority sys) ∈ auClosed (sAuthority sys) <-> sLeases sys = ∅) /\
  (forall id, is_Some (releaseAuthority (sAuthority sys) id)) /\
  exists a r, beginAuthority (sAuthority sys) = Some (a, r) /\
    (auRetiring (sAuthority sys) = true -> r = Err Retiring) /\
    (forall l, r = Ok l -> lRevision l = auRevision (sAuthority sys)).
Proof.
  intros Hr Hn. pose proof (reachable_invariant _ _ _ _ Hr ltac:(lia)) as Hinv.
  pose proof Hinv as [Hact Hidle _ _ _ _ Hle Hgen _]. rewrite <-Hle in Hact. rewrite size_dom in Hact.
  split_and!; [done|done| | |].
  - rewrite Hidle, Hact. split; [|by intros ->]. intros H0. apply map_size_empty_inv. lia.
  - intros id. destruct (releaseAuthority_spec _ _ id Hinv) as (a & -> & _). eauto.
  - destruct (beginAuthority_spec _ _ Hinv Hn) as (a & r & Hb & Hs). exists a, r. split_and!; [done| |].
    + intros Hret. unfold beginAuthority in Hb. rewrite Hret in Hb. by injection Hb as _ <-.
    + intros l ->. tauto.
Qed.

Lemma authority_generations_exclusive_witness :
  exists sys, reachable None "g1" 2 sys /\
    (forall id l, sLeases sys !! id = Some l -> lRevision l = auRevision (sAuthority sys)).
Proof.
  assert (Hreach : exists sys, reachable None "g1" 2 sys /\ sLeases sys !! 1 <> None).
  { eexists. split.
    - change 2 with (0 + 1 + 1). eapply ReachStep; [eapply ReachStep; [apply ReachInitial|]|].
      + eapply StepBegin. vm_compute. reflexivity.
      + eapply StepBegin. vm_compute. reflexivity.
    - vm_compute. discriminate. }
  destruct Hreach as (sys & Hr & _). exists sys. split; [exact Hr|].
  exact (proj1 (authority_generations_exclusive None "g1" 2 sys Hr ltac:(vm_compute; reflexivity))).
Defined.

(** Reachable from a given system. *)
Inductive steps : system -> system -> Prop :=
| StepsNone sys : steps sys sys
| StepsMore sys sys' sys'' : steps sys sys' -> step sys' sys'' -> steps sys sys''.

(** A rotation that timed out closes the broker for good.  Once no rotation is
    waiting any more while the generation is still retiring, every later request and
    every later rotation is refused, whatever happens in between, and the generation
    never changes again. *)
Theorem timed_out_rotation_is_final sys sys' next revision :
  auRetiring (sAuthority sys) = true -> sPending sys = [] -> steps sys sys' ->
  beginAuthority (sAuthority sys') = Some (sAuthority sys', Err Retiring) /\
  (forall idle, (rotateStart (sAuthority sys') next revision).2 <> RotateWaits idle) /\
  (rotateStart (sAuthority sys') next revision).1 = sAuthority sys' /\
  auRevision (sAuthority sys') = auRevision (sAuthority sys).
Proof.
  intros Hret Hpend Hsteps.
  assert (Hinv : auRetiring (sAuthority sys') = true /\ sPending sys' = [] /\
                 auRevision (sAuthority sys') = auRevision (sAuthority sys)).
  { induction Hsteps as [sys|sys sys' sys'' Hs IH Hstep]; [done|]. destruct (IH Hret Hpend) as (H1 & H2 & H3).
    clear IH Hs. destruct Hstep as [s a l Hb|s a e Hb|s a id Hr|s a nx rv idle Hr|s a nx rv r Hr Hne|s b p af Hp|s b p af Hp].
    - unfold beginAuthority in Hb. by rewrite H1 in Hb.
    - unfold beginAuthority in Hb. rewrite H1 in Hb. by injection Hb as <- _.
    - unfold releaseAuthority, close_channel in Hr. repeat case_match; simplify_eq/=; done.
    - unfold rotateStart in Hr. rewrite H1 in Hr. repeat case_match; simplify_eq.
    - destruct (rotateStart_spec (sAuthority s) nx rv) as [(r' & Hs & _)|(H & _)]; [|congruence].
      rewrite Hs in Hr. by injection Hr as <- _.
    - rewrite H2 in Hp. by destruct b.
    - rewrite H2 in Hp. by destruct b. }
  destruct Hinv as (H1 & H2 & H3). split_and!; [|..|done].
  - unfold beginAuthority. by rewrite H1.
  - destruct (rotateStart_spec (sAuthority sys') next revision) as [(r & -> & Hr)|(H & _)]; [done|congruence].
  - destruct (rotateStart_spec (sAuthority sys') next revision) as [(r & -> & Hr)|(H & _)]; [done|congruence].
Qed.

Lemma timed_out_rotation_is_final_witness :
  exists sys, sPending sys = [] /\ auRetiring (sAuthority sys) = true /\
    beginAuthority (sAuthority sys) = Some (sAuthority sys, Err Retiring).
Proof.
  exists (mkSystem (fst (rotateStart (newAuthority None "g1") None
    "0123456789abcdef0123456789abcdef0123456789abcdef0123456789abcdef")) ∅ []).
  split; [reflexivity|]. split; [vm_compute; reflexivity|].
  refine (proj1 (timed_out_rotation_is_final _ _ None "g2" _ _ (StepsNone _))); vm_compute; reflexivity.
Defined.
