(* ===== verification/BrokerServer.v ===== *)
(** * The privileged broker: request handling ([privilegedbroker/server.go])

    [handle] takes a request from validation through the journal to the handler and
    back; [emitAudit] aggregates denials.  The mutation mutex makes a handled
    mutation one step of the broker.  The peer gate, the handler and the clock are
    the environment: their answers are arguments.  A handler run on the host is
    recorded in a log that outlives the process. *)

From Stdlib Require Import Sorting.Sorted.
From S2P Require Import Prelude GoStrings BrokerProtocol BrokerJournal BrokerCodecModel BrokerJournalSafety BrokerCompaction.

Open Scope string_scope.
Open Scope list_scope.
Open Scope Z_scope.

(** ** The environment of a request *)

(** What a handler does: returns nothing, a value with its JSON encoding, or one that
    cannot be encoded, fails, panics, or the process dies while it runs. *)
Inductive handlerOutcome :=
| ReturnsNil
| Returns (payload : string)
| ReturnsUnencodable
| Errors (err : brokerError)
| Panics
| HandlerDies.

(** The answers of the gate before [Begin] and before the handler: a refusal carries
    the class of the failed attestation; a server without a gate always passes. *)
Record environment := mkEnvironment {
  eNow : Z;
  eCommitNow : Z;
  eGateBefore : option string;
  eGateHandler : option string;
  eHandler : handlerOutcome
}.

Record Server := mkServer { svRegistry : gmap Verb Definition_; svBootID : string }.

(** The fences of the mutations whose handlers ran, oldest first. *)
Definition log : Type := list grant.

(** A computation over the files and the log. *)
Definition SIO (A : Type) : Type := world * log -> option A * (world * log).

Definition sio_ret {A : Type} (a : A) : SIO A := fun s => (Some a, s).

Definition sio_bind {A B : Type} (m : SIO A) (k : A -> SIO B) : SIO B :=
  fun s => match m s with
           | (Some a, s') => k a s'
           | (None, s') => (None, s')
           end.

Notation "'run' x ':=' m 'in' k" := (sio_bind m (fun x => k))
  (at level 10, x pattern, m at level 200, k at level 200).

Definition lift {A : Type} (m : IO A) : SIO A :=
  fun s => let '(r, w) := m s.1 in (r, (w, s.2)).

Section Server.
Context `{C : Codec}.

(** ** The handler *)
Definition MarshalPayload (encoded : string) : option (string * string) :=
  if (slen encoded =? 0) || (MaxArtifactBytes * 2 <? slen encoded) then None else Some (encoded, Digest encoded).

(** The result of [invokeHandler], a panic turned into an error; running the handler
    of a mutation is logged. *)
Definition invokeHandler (d : Definition_) (request : Request) (o : handlerOutcome)
  : SIO (result brokerError (option handlerOutcome)) :=
  fun s =>
    let s := if dMutation d
             then (s.1, s.2 ++ [(fResource (rqFence request), fSequence (rqFence request))]) else s in
    match o with
    | HandlerDies => (None, s)
    | Panics =>
        (Some (Err (if dMutation d
                    then Failure CodeRecoveryRequired "broker mutation outcome requires recovery"
                    else Failure CodeInternal "broker handler failed")), s)
    | Errors e => (Some (Err e), s)
    | ReturnsNil => (Some (Ok None), s)
    | o => (Some (Ok (Some o)), s)
    end.

Definition set_payload (r : Response) (payload digest : string) : Response :=
  mkResponse (rsProtocolVersion r) (rsCapabilityRevision r) (rsRequestID r) (rsOperationID r) (rsVerb r)
    (rsOK r) (rsCode r) (rsMessage r) (rsReplay r) (rsReceipt r) digest payload.

(** The response to a handler's result. *)
Definition handlerResponse (request : Request) (r : result brokerError (option handlerOutcome)) : Response :=
  match r with
  | Err e => let '(code, message) := publicFailure e in failureResponse request code message
  | Ok (Some (Returns payload)) =>
      match MarshalPayload payload with
      | Some (payload, digest) =>
          if MaxResponseBytes <? slen payload + 4096
          then failureResponse request CodeInternal "broker response exceeds its bounded contract"
          else set_payload (successResponse request) payload digest
      | None => failureResponse request CodeInternal "broker response exceeds its bounded contract"
      end
  | Ok (Some _) => failureResponse request CodeInternal "broker response exceeds its bounded contract"
  | Ok None => successResponse request
  end.

(** The error of the journal as [publicFailure] sees it. *)
Definition journalError (e : ioError) : brokerError :=
  match e with
  | PublicFailure err => err
  | _ => PlainError "journal"
  end.

Definition gateRefused (request : Request) : Response :=
  failureResponse request CodeUnauthorized "broker peer identity changed".

(** The handler behind its gate: the response and the class of a refusal. *)
Definition guardedHandler (d : Definition_) (request : Request) (env : environment) : SIO (Response * string) :=
  match eGateHandler env with
  | Some class => sio_ret (gateRefused request, class)
  | None => run r := invokeHandler d request (eHandler env) in sio_ret (handlerResponse request r, "")
  end.

(** [handle]: the journal afterwards, the response and the attestation class for the audit. *)
Definition handle (s : Server) (j : FileJournal) (request : Request) (peer : PeerIdentity) (env : environment)
  : SIO (FileJournal * Response * string) :=
  if pCapabilitiesOnly peer && negb (String.eqb (rqVerb request) VerbCapabilities)
  then sio_ret (j, failureResponse request CodeUnauthorized "broker client capability is restricted", "")
  else
    match definition (svRegistry s) (rqVerb request) with
    | None => sio_ret (j, failureResponse request CodeUnsupported "broker verb is not registered", "")
    | Some d =>
        if negb (String.eqb (rqBootID request) (svBootID s))
        then sio_ret (j, failureResponse request CodeCapability "broker boot identity changed", "")
        else
          match Validate Digest request (eNow env) d with
          | Some err =>
              let '(code, message) := publicFailure err in
              sio_ret (j, failureResponse request code message, "")
          | None =>
              let requestDigest := requestAuthorityDigest request in
              if dMutation d then
                match eGateBefore env with
                | Some class => sio_ret (j, gateRefused request, class)
                | None =>
                    run (j, begun) := lift (Begin j request peer requestDigest (eNow env)) in
                    match begun with
                    | Err e =>
                        let '(code, message) := publicFailure (journalError e) in
                        sio_ret (j, failureResponse request code message, "")
                    | Ok (Some replay, _) => sio_ret (j, replay, "")
                    | Ok (None, active) =>
                        run (response, class) := guardedHandler d request env in
                        let policy := mkPolicy (dRetainResultUntilRelease d) (dReleasesRetainedResultVerb d) in
                        run (j, committed, commitErr) :=
                          lift (Commit j request active response policy (eCommitNow env)) in
                        match commitErr with
                        | Some _ =>
                            sio_ret (j, failureResponse request CodeRecoveryRequired
                                          "broker receipt persistence requires recovery", class)
                        | None => sio_ret (j, committed, class)
                        end
                    end
                end
              else
                run (response, class) := guardedHandler d request env in
                sio_ret (j, response, class)
          end
    end.

(** ** Audit events *)
Record AuditEvent := mkAudit {
  aeVerb : Verb;
  aeOwnerDomain : string;
  aeOperationReference : string;
  aePeerRole : Role;
  aePeerRevision : string;
  aePeerAttestation : string;
  aeResultClass : string;
  aeDurationClass : string;
  aeRevisionTransition : string;
  aeRecoveryClass : string;
  aeAggregateCount : Z;
  aePhase : string
}.

Definition auditEvent (request : Request) (peer : PeerIdentity) (response : Response) (elapsed : Z) : AuditEvent :=
  let result :=
    if rsReplay response then "replay"
    else if negb (rsOK response) then "denied_" +:+ auditResultClass (rsCode response)
    else "success" in
  let recovery := if String.eqb (rsCode response) CodeRecoveryRequired then "manual_recovery_required" else "none" in
  let e := rqExpected request in
  let revision :=
    if negb (String.eqb (rvProvider e) "") || negb (String.eqb (rvBinary e) "") ||
       negb (String.eqb (rvService e) "") || negb (String.eqb (rvConfiguration e) "")
    then "expected_revision_present" else "none" in
  mkAudit (sanitizeAuditVerb (rqVerb request)) (ownerDomain (rqVerb request))
    (sanitizeAuditOperation (rqOperationID request)) (rqRole request) (sanitizeAuditDigest (pRevision peer))
    "" result (durationClass elapsed) revision recovery 0 "dispatch_gate".

Definition sanitizeEvent (e : AuditEvent) : AuditEvent :=
  let role := if negb (String.eqb (aePeerRole e) RolePanel) && negb (String.eqb (aePeerRole e) RoleSSHProof)
              then "unknown" else aePeerRole e in
  let verb := sanitizeAuditVerb (aeVerb e) in
  mkAudit verb (ownerDomain verb) (sanitizeAuditOperation (aeOperationReference e)) role
    (sanitizeAuditDigest (aePeerRevision e)) (sanitizePeerAttestation (aePeerAttestation e))
    (sanitizeAuditResult (aeResultClass e)) (sanitizeAuditDuration (aeDurationClass e))
    (sanitizeRevisionTransition (aeRevisionTransition e)) (sanitizeRecoveryClass (aeRecoveryClass e))
    (aeAggregateCount e) (sanitizeAuditPhase (aePhase e)).

Definition set_count (e : AuditEvent) (count : Z) : AuditEvent :=
  mkAudit (aeVerb e) (aeOwnerDomain e) (aeOperationReference e) (aePeerRole e) (aePeerRevision e)
    (aePeerAttestation e) (aeResultClass e) (aeDurationClass e) (aeRevisionTransition e) (aeRecoveryClass e)
    count (aePhase e).

Definition denialKey (e : AuditEvent) : string :=
  aePeerRole e +:+ String nul (aeResultClass e +:+ String nul (aePeerAttestation e)).

(** The counts of denials afterwards and the event handed to the sink. *)
Definition emitAudit (denials : gmap string Z) (e : AuditEvent) (denial : bool)
  : gmap string Z * option AuditEvent :=
  let e := sanitizeEvent e in
  if denial then
    let key := denialKey e in
    let count := default 0 (denials !! key) in
    let count := if count <? uint64_max then count + 1 else count in
    let denials := <[key := count]> denials in
    if negb (count =? 1) && negb (Z.land count (count - 1) =? 0) then (denials, None)
    else (denials, Some (set_count e count))
  else (denials, Some e).

(** The deferred audit of [handle]. *)
Definition audit_handled (denials : gmap string Z) (request : Request) (peer : PeerIdentity)
  (response : Response) (class : string) (elapsed : Z) : gmap string Z * option AuditEvent :=
  let e := auditEvent request peer response elapsed in
  let e := mkAudit (aeVerb e) (aeOwnerDomain e) (aeOperationReference e) (aePeerRole e) (aePeerRevision e)
             class (aeResultClass e) (aeDurationClass e) (aeRevisionTransition e) (aeRecoveryClass e)
             (aeAggregateCount e) (aePhase e) in
  emitAudit denials e (negb (rsOK response)).

End Server.

#[local] Arguments Begin : simpl never.
#[local] Arguments Commit : simpl never.
#[local] Arguments openFileJournal : simpl never.

(** ** Histories of the server *)
Section Histories.
Context `{C : Codec} `{!CodecLaws C}.

Inductive serverEvent :=
| SvStart (missing validateOwnership : bool)
| SvHandle (request : Request) (peer : PeerIdentity) (env : environment).

(** The journal of the running broker if there is one, the files and the log of handler runs. *)
Record serverState := mkServerState { ssJournal : option FileJournal; ssDisk : disk; ssLog : log }.

Definition server_event (s : Server) (st : serverState) (e : serverEvent * list outcome) : serverState :=
  let w := mkWorld e.2 (ssDisk st) in
  match e.1, ssJournal st with
  | SvStart missing vo, _ =>
      match openFileJournal (svBootID s) missing vo w with
      | (Some (Ok j), w') => mkServerState (Some j) (wDisk w') (ssLog st)
      | (_, w') => mkServerState None (wDisk w') (ssLog st)
      end
  | SvHandle request peer env, Some j =>
      match handle s j request peer env (w, ssLog st) with
      | (Some (j', _, _), (w', l)) => mkServerState (Some j') (wDisk w') l
      | (None, (w', l)) => mkServerState None (wDisk w') l
      end
  | SvHandle _ _ _, None => st
  end.

(** A fence sequence is an unsigned number. *)
Definition serverEvent_valid (e : serverEvent * list outcome) : Prop :=
  match e.1 with
  | SvHandle request _ _ => 0 <= fSequence (rqFence request)
  | SvStart _ _ => True
  end.

(** The log is part of the grants of the journal, in order. *)
Definition server_good (st : serverState) : Prop :=
  exists G, positive G /\ good G (ssDisk st) /\
    match ssJournal st with Some j => memory_good G j | None => True end /\
    (forall r, StronglySorted Z.lt (granted_for r G)) /\ ssLog st `sublist_of` G.

(** An accepted mutation carries a fence. *)
Lemma Validate_mutation request now d :
  Validate Digest request now d = None -> dMutation d = true ->
  safeIdentifier (fResource (rqFence request)) = true /\ fSequence (rqFence request) <> 0.
Proof.
  unfold Validate. intros Hv Hm. rewrite Hm in Hv.
  repeat match type of Hv with (if ?b then _ else _) = None => destruct b eqn:?; [done|] end. simpl in *.
  match goal with H : negb _ || _ || _ || _ = false |- _ => rename H into Hf end.
  bools. tauto.
Qed.

(** The handler changes only the log, by at most the request's fence. *)
Lemma guardedHandler_log d request env w l r w' l' :
  guardedHandler d request env (w, l) = (r, (w', l')) ->
  w' = w /\ (l' = l \/ (dMutation d = true /\ l' = l ++ [(fResource (rqFence request), fSequence (rqFence request))])).
Proof.
  unfold guardedHandler. destruct (eGateHandler env); [intros [= _ <- <-]; auto|].
  unfold sio_bind, invokeHandler. simpl.
  destruct (dMutation d), (eHandler env); intros [= _ <- <-]; auto.
Qed.

Lemma sorted_grant G j request :
  memory_good G j -> (forall r, StronglySorted Z.lt (granted_for r G)) ->
  fence_of (ixFences (jIndexes j)) (fResource (rqFence request)) < fSequence (rqFence request) ->
  forall r, StronglySorted Z.lt (granted_for r (G ++ [(fResource (rqFence request), fSequence (rqFence request))])).
Proof.
  intros [Hh _] Hs Hf r. rewrite granted_for_snoc. simpl. case_decide as Hr; [|by rewrite app_nil_r].
  subst r. apply StronglySorted_snoc; [done|]. by eapply granted_below.
Qed.

(** A handled request keeps the server good: the result of [handle] as a state. *)
Definition handled (r : option (FileJournal * Response * string) * (world * log)) : serverState :=
  mkServerState (match r.1 with Some (j, _, _) => Some j | None => None end) (wDisk r.2.1) r.2.2.

Lemma handle_good s j request peer env w l :
  server_good (mkServerState (Some j) (wDisk w) l) -> 0 <= fSequence (rqFence request) ->
  server_good (handled (handle s j request peer env (w, l))).
Proof.
  intros Hgood Hseq. pose proof Hgood as (G & Hpos & Hd & Hm & Hs & Hl). simpl in *. unfold handle.
  destruct (_ && _); [done|]. destruct (definition _ _) as [d|]; [|done]. destruct (negb _); [done|].
  destruct (Validate Digest request (eNow env) d) eqn:Hv; [by destruct (publicFailure _)|].
  destruct (dMutation d) eqn:Hmut.
  2:{ unfold sio_bind. destruct (guardedHandler d request env (w, l)) as [[[resp class]|] [w' l']] eqn:Eh;
        apply guardedHandler_log in Eh as [-> [->|[? _]]]; try congruence; unfold handled; simpl;
        exists G; simpl; tauto. }
  destruct (eGateBefore env); [done|]. destruct (Validate_mutation _ _ _ Hv Hmut) as [Hsafe Hne].
  pose proof (triple_Begin G j request peer (requestAuthorityDigest request) (eNow env) Hm Hpos Hsafe w Hd) as Hb.
  unfold sio_bind at 1. unfold lift at 1. simpl.
  destruct (Begin j request peer _ _ w) as [[[j1 [[[replay|] active]|e]]|] w1].
  - exists G. unfold handled. simpl. tauto.
  - destruct active as [receipt|].
    + destruct Hb as (Hf & Hd1 & Hm1). set (g := (fResource (rqFence request), fSequence (rqFence request))) in *.
      assert (Hpos1 : positive (G ++ [g])).
      { apply Forall_app. split; [done|]. constructor; [simpl; lia|constructor]. }
      pose proof (sorted_grant _ _ _ Hm Hs Hf) as Hs1. fold g in Hs1.
      unfold sio_bind at 1. destruct (guardedHandler d request env (w1, l)) as [[[resp class]|] [w2 l2]] eqn:Eh;
        apply guardedHandler_log in Eh as [-> Hl2].
      * assert (Hl2' : l2 `sublist_of` G ++ [g]).
        { destruct Hl2 as [->|[_ ->]]; [by apply sublist_inserts_r|by apply sublist_app]. }
        pose proof (triple_Commit (G ++ [g]) j1 request (Some receipt) resp
          (mkPolicy (dRetainResultUntilRelease d) (dReleasesRetainedResultVerb d)) (eCommitNow env) Hm1 Hpos1 w1 Hd1) as Hc.
        unfold sio_bind, lift. simpl.
        destruct (Commit j1 request _ resp _ _ w1) as [[[[j2 committed] [e|]]|] w3]; unfold handled; simpl;
          exists (G ++ [g]); (split; [exact Hpos1|]); (split; [apply Hc|]); (split; [first [done|apply Hc]|done]).
      * exists (G ++ [g]). unfold handled. simpl. split_and!; [done|done|done|done|].
        destruct Hl2 as [->|[_ ->]]; [by apply sublist_inserts_r|by apply sublist_app].
    + done.
  - destruct (publicFailure _). exists G. unfold handled. simpl. tauto.
  - exists G. unfold handled. simpl. tauto.
Qed.

Lemma server_event_good s st e : server_good st -> serverEvent_valid e -> server_good (server_event s st e).
Proof.
  destruct st as [oj d l]. intros Hgood Hv. destruct e as [[ms vo|q p env] o]; unfold server_event; simpl in *.
  - destruct Hgood as (G & Hpos & Hd & _ & Hs & Hl). simpl in *.
    pose proof (triple_open G (svBootID s) ms vo (mkWorld o d) Hd) as Ht.
    destruct (openFileJournal _ _ _ _) as [[[j|e]|] w']; exists G; simpl; tauto.
  - destruct oj as [j|]; [|done].
    pose proof (handle_good s j q p env (mkWorld o d) l Hgood Hv) as Hh.
    destruct (handle s j q p env _) as [[[[j' resp] class]|] [w' l']]; exact Hh.
Qed.

Lemma server_events_good s st events :
  server_good st -> Forall serverEvent_valid events -> server_good (foldl (server_event s) st events).
Proof.
  revert st. induction events as [|e events IH]; intros st Hg Hv; [done|]. apply Forall_cons in Hv as [He Hv].
  simpl. apply IH; [|done]. by apply server_event_good.
Qed.

Lemma StronglySorted_sublist (l k : list Z) : l `sublist_of` k -> StronglySorted Z.lt k -> StronglySorted Z.lt l.
Proof.
  induction 1 as [|x l k Hs IH|x l k Hs IH]; intros Hk; [done| |].
  - apply StronglySorted_inv in Hk as [Hk Hx]. constructor; [by apply IH|].
    rewrite Forall_forall in *. intros y Hy. apply Hx. by eapply elem_of_sublist.
  - apply StronglySorted_inv in Hk as [Hk _]. by apply IH.
Qed.

Lemma granted_for_sublist r l k : l `sublist_of` k -> granted_for r l `sublist_of` granted_for r k.
Proof.
  unfold granted_for. induction 1 as [|g l k Hs IH|g l k Hs IH]; simpl; [done| |].
  - rewrite !filter_cons. case_decide; simpl; [by apply sublist_skip|done].
  - rewrite filter_cons. case_decide; simpl; [by apply sublist_cons|done].
Qed.

(** C3: The broker executes a privileged mutation at most once.  From an empty state
    directory, over every history of broker starts and requests, with arbitrary
    registered verbs, peer-gate answers, handler results and panics, file-system
    failures, short writes, and deaths of the process at any system call or inside a
    handler: the fences of the mutations whose handlers ran are strictly increasing for
    each resource.  No retry, replay, crash or pruned history makes a handler run again
    for a fence it ran for. *)
Theorem server_runs_each_fence_once (s : Server) (d : disk) (events : list (serverEvent * list outcome)) (r : string) :
  dMain d = None -> Forall serverEvent_valid events ->
  StronglySorted Z.lt (granted_for r (ssLog (foldl (server_event s) (mkServerState None d []) events))).
Proof.
  intros Hd Hv. assert (H0 : server_good (mkServerState None d [])).
  { exists []. unfold good. simpl. rewrite Hd. repeat split; constructor. }
  destruct (server_events_good s _ _ H0 Hv) as (G & _ & _ & _ & Hs & Hl).
  eapply StronglySorted_sublist; [by apply granted_for_sublist|apply Hs].
Qed.

End Histories.

(** ** Acknowledged mutations *)
Section Acknowledged.
Context `{C : Codec}.

Lemma failureResponse_not_ok request code message : rsOK (failureResponse request code message) = false.
Proof. done. Qed.

Lemma set_replay_idem r : set_replay (set_replay r) = set_replay r.
Proof. done. Qed.

(** The successful answer to a mutation is in the replay index of the journal. *)
Lemma handle_ok_indexed s j request peer env w l j' response class w' l' d :
  handle s j request peer env (w, l) = (Some (j', response, class), (w', l')) ->
  definition (svRegistry s) (rqVerb request) = Some d -> dMutation d = true -> rsOK response = true ->
  exists rp, ixReplays (jIndexes j') !! rqIdempotencyKey request = Some rp /\
    rpRequestDigest rp = requestAuthorityDigest request /\ set_replay (rpResponse rp) = set_replay response.
Proof.
  unfold handle. intros Hh Hd Hm Hok. destruct (_ && _); [by injection Hh as _ <- _ _|]. rewrite Hd in Hh.
  destruct (negb _); [by injection Hh as _ <- _ _|].
  destruct (Validate _ _ _ _) as [err|]; [destruct (publicFailure err); by injection Hh as _ <- _ _|].
  rewrite Hm in Hh. destruct (eGateBefore env); [by injection Hh as _ <- _ _|].
  unfold sio_bind at 1 in Hh. unfold lift at 1 in Hh. simpl in Hh.
  destruct (Begin j request peer _ _ w) as [[[j1 [[[replay|] active]|e]]|] w1] eqn:Hb; [| | |done].
  - injection Hh as <- <- _ _ _. unfold Begin in Hb.
    destruct (ixReplays (jIndexes j) !! rqIdempotencyKey request) as [rp|] eqn:Hrp.
    + destruct (String.eqb_spec (rpRequestDigest rp) (requestAuthorityDigest request)) as [He|]; [|done].
      injection Hb as <- <- _ _. exists rp. by rewrite set_replay_idem.
    + exfalso. assert (Hn : always (Begin j request peer (requestAuthorityDigest request) (eNow env))
        (fun r => forall x y, r.2 <> Ok (Some x, y))).
      { unfold Begin. rewrite Hrp. walk; done. }
      unfold Begin in Hn. specialize (Hn w I). rewrite Hrp in Hn. rewrite Hb in Hn. by eapply Hn.
  - unfold sio_bind at 1 in Hh. destruct (guardedHandler d request env (w1, l)) as [[[resp cl]|] [w2 l2]]; [|done].
    unfold sio_bind, lift in Hh. simpl in Hh.
    destruct (Commit j1 request active resp _ _ w2) as [[[[j2 committed] [e|]]|] w3] eqn:Hc; simpl in Hh; [| |done].
    + by injection Hh as _ <- _ _.
    + injection Hh as <- <- _ _ _. exists (mkReplay (requestAuthorityDigest request) committed).
      split; [by eapply commit_replay_index|done].
  - destruct (publicFailure _). by injection Hh as _ <- _ _.
Qed.

(** An acknowledged mutation is not repeated.  Once [handle] has answered a
    mutation with success, sending the same request again, while its deadline and boot
    still hold and the peer passes the gate, returns the same answer marked as a
    replay: the handler does not run, and neither the files, the journal nor the log
    change. *)
Theorem acknowledged_mutation_is_replayed s j request peer env w l j' response class w' l' d :
  handle s j request peer env (w, l) = (Some (j', response, class), (w', l')) ->
  definition (svRegistry s) (rqVerb request) = Some d -> dMutation d = true -> rsOK response = true ->
  forall peer2 env2 st,
    pCapabilitiesOnly peer2 = false -> rqBootID request = svBootID s ->
    Validate Digest request (eNow env2) d = None -> eGateBefore env2 = None ->
    handle s j' request peer2 env2 st = (Some (j', set_replay response, ""), st).
Proof.
  intros Hh Hd Hm Hok peer2 env2 [w2 l2] Hcap Hboot Hv Hg.
  destruct (handle_ok_indexed _ _ _ _ _ _ _ _ _ _ _ _ _ Hh Hd Hm Hok) as (rp & Hrp & Hdig & Hresp).
  unfold handle. rewrite Hcap, Hd, Hboot, String.eqb_refl, Hv, Hm, Hg. simpl.
  unfold sio_bind, lift. simpl. rewrite (Begin_replays _ _ _ _ _ _ _ Hrp), Hdig, String.eqb_refl. simpl.
  by rewrite Hresp.
Qed.

End Acknowledged.

(** ** Audit aggregation *)
Section Audit.

(** [count & (count-1) == 0] recognises the powers of two. *)
Lemma land_pred_zero c : 0 < c -> Z.land c (c - 1) = 0 <-> exists b, c = 2 ^ b.
Proof.
  intros Hc. split.
  - intros Hl. exists (Z.log2 c). destruct (Z.log2_spec c Hc) as [Hlo Hhi].
    destruct (Z.eq_dec c (2 ^ Z.log2 c)) as [|Hne]; [done|exfalso].
    assert (Hlog : Z.log2 (c - 1) = Z.log2 c).
    { apply Z.log2_unique; [apply Z.log2_nonneg|]. lia. }
    assert (Hpos : 0 < c - 1).
    { assert (2 ^ 0 <= 2 ^ Z.log2 c) by (apply Z.pow_le_mono_r; [lia|apply Z.log2_nonneg]). lia. }
    assert (Ht : Z.testbit (Z.land c (c - 1)) (Z.log2 c) = true).
    { rewrite Z.land_spec, Z.bit_log2 by done. rewrite <-Hlog. by rewrite Z.bit_log2. }
    by rewrite Hl, Z.bits_0 in Ht.
  - intros [b ->]. destruct (Z.le_gt_cases 0 b) as [Hb|Hb]; [|rewrite Z.pow_neg_r in Hc by done; lia].
    replace (2 ^ b - 1) with (Z.ones b) by (rewrite Z.ones_equiv; lia).
    rewrite Z.land_ones by done. apply Z.mod_same. lia.
Qed.

Lemma log2_step n : 0 < n ->
  Z.log2 (n + 1) = Z.log2 n + (if Z.land (n + 1) n =? 0 then 1 else 0).
Proof.
  intros Hn. pose proof (land_pred_zero (n + 1) ltac:(lia)) as Hl. rewrite Z.add_simpl_r in Hl.
  pose proof (Z.log2_eq_succ_iff_pow2 n Hn) as Hp. rewrite <-!Z.add_1_r in Hp.
  destruct (Z.eqb_spec (Z.land (n + 1) n) 0) as [He|He].
  - apply Hp. by apply Hl.
  - rewrite Z.add_0_r. pose proof (Z.log2_succ_or n) as Ho. rewrite <-!Z.add_1_r in Ho.
    destruct Ho as [Ho|Ho]; [|lia]. exfalso. apply He, Hl, Hp, Ho.
Qed.

(** The counts and the emitted events after a sequence of denials. *)
Definition emit_denials (denials : gmap string Z) (events : list AuditEvent) : gmap string Z * list AuditEvent :=
  foldl (fun acc e => let '(denials, emitted) := emitAudit acc.1 e true in
                      (denials, acc.2 ++ match emitted with Some e => [e] | None => [] end))
    (denials, []) events.

Definition key_of (e : AuditEvent) : string := denialKey (sanitizeEvent e).

Definition occurrences (k : string) (events : list AuditEvent) : Z :=
  count_of (fun e => key_of e = k) events.

(** Sanitized events are fixed points, so that an emitted event has the key it was counted under. *)
Definition expected_emissions (n : Z) : Z := if n =? 0 then 0 else Z.log2 n + 1.

Lemma emit_denials_snoc denials events e :
  emit_denials denials (events ++ [e]) =
  (let '(d, em) := emitAudit (emit_denials denials events).1 e true in
   (d, (emit_denials denials events).2 ++ match em with Some e => [e] | None => [] end)).
Proof. unfold emit_denials. by rewrite foldl_app. Qed.

Lemma emit_counts k events :
  Z.of_nat (length events) <= uint64_max ->
  default 0 ((emit_denials ∅ events).1 !! k) = occurrences k events.
Proof.
  unfold occurrences. induction events as [|e events IH] using rev_ind; [done|].
  rewrite length_app, Nat2Z.inj_add, emit_denials_snoc, count_of_app, count_of_single. simpl length. intros Hlen.
  specialize (IH ltac:(lia)). destruct (emit_denials ∅ events) as [d em]. simpl in IH |- *. unfold emitAudit.
  cbv zeta. fold (key_of e). set (c := default 0 (d !! key_of e)).
  assert (Hc : key_of e = k -> (if c <? uint64_max then c + 1 else c) = count_of (fun e => key_of e = k) events + 1).
  { intros <-. subst c. rewrite IH. assert (count_of (fun e0 => key_of e0 = key_of e) events <= Z.of_nat (length events)).
    { unfold count_of. pose proof (length_filter (fun e0 => key_of e0 = key_of e) events). lia. }
    rewrite (proj2 (Z.ltb_lt _ _)) by lia. done. }
  assert (Hl : default 0 (<[key_of e := if c <? uint64_max then c + 1 else c]> d !! k) =
               count_of (fun e => key_of e = k) events + (if decide (key_of e = k) then 1 else 0)).
  { case_decide as Hk; [subst k; rewrite lookup_insert_eq; simpl; by apply Hc|].
    rewrite lookup_insert_ne by done. rewrite IH. lia. }
  destruct (_ && _); simpl; exact Hl.
Qed.

Lemma key_of_set_count e n : denialKey (set_count (sanitizeEvent e) n) = key_of e.
Proof. done. Qed.

(** Audit output is logarithmic in the number of denials.  Over every sequence of
    denied requests (fewer than 2^64), the events the sink receives for a class of
    denials (peer role, result and attestation class) number ⌊log2 n⌋ + 1, where n is
    how often the class occurred; each carries its count, which is a power of two. *)
Theorem audit_denials_logarithmic k events :
  Z.of_nat (length events) <= uint64_max ->
  count_of (fun e => denialKey e = k) (emit_denials ∅ events).2 = expected_emissions (occurrences k events) /\
  Forall (fun e => exists b, aeAggregateCount e = 2 ^ b) (emit_denials ∅ events).2.
Proof.
  induction events as [|e events IH] using rev_ind; [intros _; split; [done|constructor]|].
  rewrite length_app, Nat2Z.inj_add. simpl length. intros Hlen. destruct (IH ltac:(lia)) as [IH1 IH2]. clear IH.
  pose proof (emit_counts (key_of e) events ltac:(lia)) as Hcount. rewrite emit_denials_snoc.
  assert (Hle : occurrences (key_of e) events <= Z.of_nat (length events)).
  { unfold occurrences, count_of. pose proof (length_filter (fun e0 => key_of e0 = key_of e) events). lia. }
  pose proof (count_of_nonneg (fun e0 => key_of e0 = key_of e) events) as Hge. fold (occurrences (key_of e) events) in Hge.
  destruct (emit_denials ∅ events) as [d em]. simpl in *. unfold emitAudit. cbv zeta. fold (key_of e). rewrite Hcount.
  rewrite (proj2 (Z.ltb_lt _ _)) by lia.
  set (n := occurrences (key_of e) events) in *. replace (n + 1 - 1) with n by lia.
  assert (Hocc : occurrences k (events ++ [e]) = occurrences k events + (if decide (key_of e = k) then 1 else 0)).
  { unfold occurrences. by rewrite count_of_app, count_of_single. }
  assert (Hstep : expected_emissions (n + 1) =
    expected_emissions n + (if negb (n + 1 =? 1) && negb (Z.land (n + 1) n =? 0) then 0 else 1)).
  { unfold expected_emissions. destruct (Z.eqb_spec n 0) as [->|Hn]; [done|].
    rewrite (proj2 (Z.eqb_neq (n + 1) 0)), (proj2 (Z.eqb_neq (n + 1) 1)) by lia. simpl.
    rewrite log2_step by lia. destruct (Z.land (n + 1) n =? 0); simpl; lia. }
  destruct (negb (n + 1 =? 1) && negb (Z.land (n + 1) n =? 0)) eqn:Epow; simpl.
  - rewrite app_nil_r. split; [|done]. rewrite IH1, Hocc. case_decide as Hk; [|by rewrite Z.add_0_r].
    subst k. fold n. lia.
  - split.
    + rewrite count_of_app, count_of_single, IH1, Hocc. rewrite key_of_set_count.
      case_decide as Hk; [|by rewrite !Z.add_0_r]. subst k. fold n. lia.
    + apply Forall_app. split; [done|]. constructor; [|constructor]. simpl.
      destruct (Z.eqb_spec (n + 1) 1) as [->|Hne]; [by exists 0|]. simpl in Epow. apply negb_false_iff, Z.eqb_eq in Epow.
      apply (land_pred_zero (n + 1)); [lia|]. by replace (n + 1 - 1) with n by lia.
Qed.

Lemma size_list_to_set_le (l : list string) : (size (list_to_set l : gset string) <= length l)%nat.
Proof.
  induction l as [|x l IH]; simpl; [done|]. rewrite size_union_alt, size_singleton.
  assert (size ((list_to_set l : gset string) ∖ {[x]}) <= size (list_to_set l : gset string))%nat; [|lia].
  apply subseteq_size, subseteq_difference_l. done.
Qed.

(** The memory of the denial counters is bounded.  Whatever requests arrive, the
    table of denial counts holds at most 3 x 16 x 17 keys, one per peer role, result
    class and attestation class of the closed vocabulary. *)
Theorem audit_denials_bounded events :
  Z.of_nat (size (emit_denials ∅ events).1) <= 3 * 16 * 17.
Proof.
  set (keys := r ← [RolePanel; RoleSSHProof; "unknown"]; res ← audit_results; a ← "" :: attestation_classes;
               [r +:+ String nul (res +:+ String nul a)]).
  assert (Hkeys : length keys = (3 * 16 * 17)%nat) by reflexivity.
  assert (Hone : forall vs v fallback, fallback ∈ vs -> (if one_of vs v then v else fallback) ∈ vs).
  { intros vs v fb Hfb. destruct (one_of vs v) eqn:E; [|done]. unfold one_of in E.
    apply existsb_exists in E as (x & Hx & He). apply String.eqb_eq in He as ->. by apply list_elem_of_In. }
  assert (Hkey : forall e, key_of e ∈ keys).
  { intros e. unfold key_of, denialKey, sanitizeEvent. simpl. subst keys.
    apply list_elem_of_bind. eexists. split; [apply list_elem_of_bind; eexists; split;
      [apply list_elem_of_bind; eexists; split; [apply list_elem_of_singleton; reflexivity|]|]|].
    - apply Hone. unfold attestation_classes. set_solver.
    - apply Hone. unfold audit_results. set_solver.
    - destruct (String.eqb_spec (aePeerRole e) RolePanel) as [->|]; simpl; [set_solver|].
      destruct (String.eqb_spec (aePeerRole e) RoleSSHProof) as [->|]; simpl; set_solver. }
  clearbody keys.
  assert (Hdom : dom (emit_denials ∅ events).1 ⊆ list_to_set keys).
  { induction events as [|e events IH] using rev_ind; [apply empty_subseteq|].
    rewrite emit_denials_snoc. destruct (emit_denials ∅ events) as [d em]. simpl in IH. unfold emitAudit. cbv zeta.
    fold (key_of e). destruct (_ && _); simpl; rewrite dom_insert; apply union_subseteq; split; try done;
      apply singleton_subseteq_l, elem_of_list_to_set, Hkey. }
  apply subseteq_size in Hdom. rewrite size_dom in Hdom.
  assert (size (list_to_set keys : gset string) <= length keys)%nat by apply size_list_to_set_le. lia.
Qed.

End Audit.

(** ** Concrete histories *)
Module ServerExample.

Definition stage : Definition_ := mkDefinition RolePanel true true "" true.

Definition server : Server := mkServer {[VerbUpdateStage := stage]} "boot".

Definition request (key : string) (n : Z) : Request :=
  mkRequest 1 CapabilityRevision "boot" RolePanel VerbUpdateStage "req-1" "op-1" key
    (mkFence "host" n model_digest) (mkRevisions "" "" "" "") 2000 "" "" model_digest "{}".

Definition env (o : handlerOutcome) : environment :=
  mkEnvironment (unix_epoch + second) (unix_epoch + second) None None o.

(** A panicking handler, a crash inside a handler, retries of both, and a new fence. *)
Definition events : list (serverEvent * list outcome) :=
  [(SvStart true true, []);
   (SvHandle (request "k1" 1) Example.peer (env Panics), []);
   (SvHandle (request "k1" 1) Example.peer (env (Returns "{}")), []);
   (SvHandle (request "k2" 2) Example.peer (env (Returns "{}")), []);
   (SvHandle (request "k2" 2) Example.peer (env (Returns "{}")), []);
   (SvHandle (request "k3" 3) Example.peer (env HandlerDies), []);
   (SvStart false true, []);
   (SvHandle (request "k3" 3) Example.peer (env (Returns "{}")), [])].

Definition opened : FileJournal := mkJournal "boot" newJournalIndexes [] 0.

Definition start : world * log := (mkWorld [] (mkDisk None None), []).

Definition first := handle server opened (request "k1" 1) Example.peer (env (Returns "{}")) start.

Definition journal_after : FileJournal := match first with (Some (j, _, _), _) => j | _ => opened end.
Definition response : Response :=
  match first with (Some (_, r, _), _) => r | _ => successResponse (request "k1" 1) end.

Lemma first_succeeds : first = (Some (journal_after, response, ""), ((snd first).1, (snd first).2)).
Proof.
  assert (H : (match first with (Some (_, _, ""), _) => true | _ => false end) = true) by (vm_compute; reflexivity).
  unfold journal_after, response.
  destruct first as [[[[j r] [|c s]]|] [w l]]; [reflexivity|discriminate H|discriminate H].
Qed.

End ServerExample.

Lemma server_runs_each_fence_once_witness :
  ssLog (foldl (server_event ServerExample.server) (mkServerState None (mkDisk None None) []) ServerExample.events) =
    [("host", 1); ("host", 2); ("host", 3)] /\
  StronglySorted Z.lt (granted_for "host" (ssLog (foldl (server_event ServerExample.server)
    (mkServerState None (mkDisk None None) []) ServerExample.events))).
Proof.
  split; [vm_compute; reflexivity|].
  apply server_runs_each_fence_once; [reflexivity|].
  repeat (constructor; [vm_compute; first [exact I|discriminate]|]). constructor.
Defined.

Lemma acknowledged_mutation_is_replayed_witness :
  handle ServerExample.server ServerExample.journal_after (ServerExample.request "k1" 1) Example.peer
    (ServerExample.env Panics) ServerExample.start =
  (Some (ServerExample.journal_after, set_replay ServerExample.response, ""), ServerExample.start).
Proof.
  refine (acknowledged_mutation_is_replayed ServerExample.server ServerExample.opened
    (ServerExample.request "k1" 1) Example.peer (ServerExample.env (Returns "{}"))
    (mkWorld [] (mkDisk None None)) [] ServerExample.journal_after ServerExample.response ""
    (snd ServerExample.first).1 (snd ServerExample.first).2 ServerExample.stage
    ServerExample.first_succeeds _ _ _ Example.peer (ServerExample.env Panics) ServerExample.start _ _ _ _);
    vm_compute; reflexivity.
Defined.

Lemma audit_denials_logarithmic_witness :
  count_of (fun e => denialKey e = key_of (mkAudit "" "" "" "" "" "" "denied_peer" "" "" "" 0 ""))
    (emit_denials ∅ (replicate 9 (mkAudit "" "" "" "" "" "" "denied_peer" "" "" "" 0 ""))).2 = 4.
Proof.
  refine (eq_trans (proj1 (audit_denials_logarithmic _ _ _)) _); [vm_compute; discriminate|].
  vm_compute. reflexivity.
Defined.
