(* ===== verification/PaidOrders.v ===== *)
(** * Paid subscriptions ([components/paid-subscriptions])

    Payment orders and the grants they make: the arithmetic of [paid/grant.go], the
    order states and every store operation that moves an order between them
    ([paid/store]), with the unique indexes of [paid/schema.go].

    A database is its tables; an operation runs in a transaction, which either takes
    effect as a whole or leaves the database unchanged.  [Updates] is gorm's
    conditional update: it assigns columns of the rows a condition selects and
    counts them; breaking a unique index fails the transaction.  SQLite serializes
    writers, so an operation is one step of a history. *)

From S2P Require Import Prelude GoStrings.

Open Scope string_scope.
Open Scope list_scope.
Open Scope Z_scope.

(** ** Data *)
Inductive Status :=
| StatusPending | StatusPaid | StatusFailed | StatusExpired | StatusRefunded
| StatusInvoiceCreating | StatusRecoverable | StatusManualReview | StatusRefundPending.

#[export] Instance Status_eq_dec : EqDecision Status.
Proof. solve_decision. Defined.

Definition status_in (s : Status) (l : list Status) : bool := bool_decide (s ∈ l).

(** The part of a tariff that a grant consists of. *)
Record Tariff := mkTariff { tAddDays : Z; tAddTrafficBytes : Z }.

(** The columns of a client that payments read and write. *)
Record Client := mkClient {
  cEnable : bool;
  cAccessDisableReason : string;
  cName : string;
  cInbounds : string;
  cVolume : Z;
  cExpiry : Z;
  cDown : Z;
  cUp : Z;
  cTotalUp : Z;
  cTotalDown : Z
}.

Definition ClientDisabledManual : string := "MANUAL_DISABLED".
Definition ClientDisabledQuota : string := "QUOTA_EXHAUSTED".
Definition ClientDisabledExpired : string := "EXPIRED".

Record PaymentOrder := mkOrder {
  oId : Z;
  oClientId : Z;
  oTariffId : Z;
  oProvider : string;
  oAmount : Z;
  oCurrency : string;
  oStatus : Status;
  oTelegramUserId : Z;
  oIdempotencyKey : string;
  oProviderChargeID : string;
  oProviderPayload : string;
  oProviderRef : string;
  oReviewReason : string;
  oLegacyResolved : bool;
  oRefundRevoke : bool;
  oRefundClaim : string;
  oRefundClaimUntil : Z;
  oExternalURL : string;
  oCreatedAt : Z;
  oPaidAt : Z;
  oExpiresAt : Z;
  oGrantAddDays : Z;
  oGrantTraffic : Z;
  oGrantSnapshot : bool;
  oGrantedUp : Z;
  oGrantedDown : Z
}.

(** The columns that the operations update. *)
Inductive column :=
| ColStatus (v : Status)
| ColProviderChargeID (v : string)
| ColProviderPayload (v : string)
| ColProviderRef (v : string)
| ColReviewReason (v : string)
| ColLegacyResolved (v : bool)
| ColRefundRevoke (v : bool)
| ColRefundClaim (v : string)
| ColRefundClaimUntil (v : Z)
| ColExternalURL (v : string)
| ColPaidAt (v : Z)
| ColGrantedUp (v : Z)
| ColGrantedDown (v : Z).

(** One assignment of an [Updates] map. *)
Definition assign (o : PaymentOrder) (c : column) : PaymentOrder :=
  match c with
  | ColStatus v => mkOrder (oId o) (oClientId o) (oTariffId o) (oProvider o) (oAmount o) (oCurrency o) v
      (oTelegramUserId o) (oIdempotencyKey o) (oProviderChargeID o) (oProviderPayload o) (oProviderRef o)
      (oReviewReason o) (oLegacyResolved o) (oRefundRevoke o) (oRefundClaim o) (oRefundClaimUntil o)
      (oExternalURL o) (oCreatedAt o) (oPaidAt o) (oExpiresAt o) (oGrantAddDays o) (oGrantTraffic o)
      (oGrantSnapshot o) (oGrantedUp o) (oGrantedDown o)
  | ColProviderChargeID v => mkOrder (oId o) (oClientId o) (oTariffId o) (oProvider o) (oAmount o) (oCurrency o)
      (oStatus o) (oTelegramUserId o) (oIdempotencyKey o) v (oProviderPayload o) (oProviderRef o) (oReviewReason
      o) (oLegacyResolved o) (oRefundRevoke o) (oRefundClaim o) (oRefundClaimUntil o) (oExternalURL o)
      (oCreatedAt o) (oPaidAt o) (oExpiresAt o) (oGrantAddDays o) (oGrantTraffic o) (oGrantSnapshot o)
      (oGrantedUp o) (oGrantedDown o)
  | ColProviderPayload v => mkOrder (oId o) (oClientId o) (oTariffId o) (oProvider o) (oAmount o) (oCurrency o)
      (oStatus o) (oTelegramUserId o) (oIdempotencyKey o) (oProviderChargeID o) v (oProviderRef o)
      (oReviewReason o) (oLegacyResolved o) (oRefundRevoke o) (oRefundClaim o) (oRefundClaimUntil o)
      (oExternalURL o) (oCreatedAt o) (oPaidAt o) (oExpiresAt o) (oGrantAddDays o) (oGrantTraffic o)
      (oGrantSnapshot o) (oGrantedUp o) (oGrantedDown o)
  | ColProviderRef v => mkOrder (oId o) (oClientId o) (oTariffId o) (oProvider o) (oAmount o) (oCurrency o)
      (oStatus o) (oTelegramUserId o) (oIdempotencyKey o) (oProviderChargeID o) (oProviderPayload o) v
      (oReviewReason o) (oLegacyResolved o) (oRefundRevoke o) (oRefundClaim o) (oRefundClaimUntil o)
      (oExternalURL o) (oCreatedAt o) (oPaidAt o) (oExpiresAt o) (oGrantAddDays o) (oGrantTraffic o)
      (oGrantSnapshot o) (oGrantedUp o) (oGrantedDown o)
  | ColReviewReason v => mkOrder (oId o) (oClientId o) (oTariffId o) (oProvider o) (oAmount o) (oCurrency o)
      (oStatus o) (oTelegramUserId o) (oIdempotencyKey o) (oProviderChargeID o) (oProviderPayload o)
      (oProviderRef o) v (oLegacyResolved o) (oRefundRevoke o) (oRefundClaim o) (oRefundClaimUntil o)
      (oExternalURL o) (oCreatedAt o) (oPaidAt o) (oExpiresAt o) (oGrantAddDays o) (oGrantTraffic o)
      (oGrantSnapshot o) (oGrantedUp o) (oGrantedDown o)
  | ColLegacyResolved v => mkOrder (oId o) (oClientId o) (oTariffId o) (oProvider o) (oAmount o) (oCurrency o)
      (oStatus o) (oTelegramUserId o) (oIdempotencyKey o) (oProviderChargeID o) (oProviderPayload o)
      (oProviderRef o) (oReviewReason o) v (oRefundRevoke o) (oRefundClaim o) (oRefundClaimUntil o)
      (oExternalURL o) (oCreatedAt o) (oPaidAt o) (oExpiresAt o) (oGrantAddDays o) (oGrantTraffic o)
      (oGrantSnapshot o) (oGrantedUp o) (oGrantedDown o)
  | ColRefundRevoke v => mkOrder (oId o) (oClientId o) (oTariffId o) (oProvider o) (oAmount o) (oCurrency o)
      (oStatus o) (oTelegramUserId o) (oIdempotencyKey o) (oProviderChargeID o) (oProviderPayload o)
      (oProviderRef o) (oReviewReason o) (oLegacyResolved o) v (oRefundClaim o) (oRefundClaimUntil o)
      (oExternalURL o) (oCreatedAt o) (oPaidAt o) (oExpiresAt o) (oGrantAddDays o) (oGrantTraffic o)
      (oGrantSnapshot o) (oGrantedUp o) (oGrantedDown o)
  | ColRefundClaim v => mkOrder (oId o) (oClientId o) (oTariffId o) (oProvider o) (oAmount o) (oCurrency o)
      (oStatus o) (oTelegramUserId o) (oIdempotencyKey o) (oProviderChargeID o) (oProviderPayload o)
      (oProviderRef o) (oReviewReason o) (oLegacyResolved o) (oRefundRevoke o) v (oRefundClaimUntil o)
      (oExternalURL o) (oCreatedAt o) (oPaidAt o) (oExpiresAt o) (oGrantAddDays o) (oGrantTraffic o)
      (oGrantSnapshot o) (oGrantedUp o) (oGrantedDown o)
  | ColRefundClaimUntil v => mkOrder (oId o) (oClientId o) (oTariffId o) (oProvider o) (oAmount o) (oCurrency o)
      (oStatus o) (oTelegramUserId o) (oIdempotencyKey o) (oProviderChargeID o) (oProviderPayload o)
      (oProviderRef o) (oReviewReason o) (oLegacyResolved o) (oRefundRevoke o) (oRefundClaim o) v (oExternalURL
      o) (oCreatedAt o) (oPaidAt o) (oExpiresAt o) (oGrantAddDays o) (oGrantTraffic o) (oGrantSnapshot o)
      (oGrantedUp o) (oGrantedDown o)
  | ColExternalURL v => mkOrder (oId o) (oClientId o) (oTariffId o) (oProvider o) (oAmount o) (oCurrency o)
      (oStatus o) (oTelegramUserId o) (oIdempotencyKey o) (oProviderChargeID o) (oProviderPayload o)
      (oProviderRef o) (oReviewReason o) (oLegacyResolved o) (oRefundRevoke o) (oRefundClaim o)
      (oRefundClaimUntil o) v (oCreatedAt o) (oPaidAt o) (oExpiresAt o) (oGrantAddDays o) (oGrantTraffic o)
      (oGrantSnapshot o) (oGrantedUp o) (oGrantedDown o)
  | ColPaidAt v => mkOrder (oId o) (oClientId o) (oTariffId o) (oProvider o) (oAmount o) (oCurrency o) (oStatus
      o) (oTelegramUserId o) (oIdempotencyKey o) (oProviderChargeID o) (oProviderPayload o) (oProviderRef o)
      (oReviewReason o) (oLegacyResolved o) (oRefundRevoke o) (oRefundClaim o) (oRefundClaimUntil o)
      (oExternalURL o) (oCreatedAt o) v (oExpiresAt o) (oGrantAddDays o) (oGrantTraffic o) (oGrantSnapshot o)
      (oGrantedUp o) (oGrantedDown o)
  | ColGrantedUp v => mkOrder (oId o) (oClientId o) (oTariffId o) (oProvider o) (oAmount o) (oCurrency o)
      (oStatus o) (oTelegramUserId o) (oIdempotencyKey o) (oProviderChargeID o) (oProviderPayload o)
      (oProviderRef o) (oReviewReason o) (oLegacyResolved o) (oRefundRevoke o) (oRefundClaim o)
      (oRefundClaimUntil o) (oExternalURL o) (oCreatedAt o) (oPaidAt o) (oExpiresAt o) (oGrantAddDays o)
      (oGrantTraffic o) (oGrantSnapshot o) v (oGrantedDown o)
  | ColGrantedDown v => mkOrder (oId o) (oClientId o) (oTariffId o) (oProvider o) (oAmount o) (oCurrency o)
      (oStatus o) (oTelegramUserId o) (oIdempotencyKey o) (oProviderChargeID o) (oProviderPayload o)
      (oProviderRef o) (oReviewReason o) (oLegacyResolved o) (oRefundRevoke o) (oRefundClaim o)
      (oRefundClaimUntil o) (oExternalURL o) (oCreatedAt o) (oPaidAt o) (oExpiresAt o) (oGrantAddDays o)
      (oGrantTraffic o) (oGrantSnapshot o) (oGrantedUp o) v
  end.


Definition Updates_of (cols : list column) (o : PaymentOrder) : PaymentOrder := foldl assign o cols.

Record InvoiceCancellation := mkCancellation { icOrderID : Z; icRef : string; icCompleted : bool }.

Record Change := mkChange { chDateTime : Z; chActor : string; chAction : string; chObj : string }.

Definition ProviderCryptoBot : string := "cryptobot".
Definition ProviderStars : string := "stars".

Inductive InvoiceState := InvoiceActive | InvoicePaid | InvoiceTerminal | InvoiceUnknown.

#[export] Instance InvoiceState_eq_dec : EqDecision InvoiceState.
Proof. solve_decision. Defined.

Record RecoveredInvoice := mkRecovered {
  riRef : string; riState : InvoiceState; riVerified : bool; riPayURL : string
}.

Record Reconciliation := mkReconciliation {
  rnOrderID : Z; rnCandidates : list RecoveredInvoice; rnReviewReason : string
}.

(** ** Grant arithmetic ([grant.go]) *)
Definition seconds_per_day : Z := 86400.

Inductive grantError := ExpiryOverflow | AmountOverflow.

(** The columns of a client and of an order that a grant sets; [None] leaves one. *)
Record clientUpdates := mkClientUpdates {
  uEnable : option bool;
  uAccessDisableReason : option string;
  uExpiry : option Z;
  uVolume : option Z;
  uTotalUp : option Z;
  uTotalDown : option Z;
  uUp : option Z;
  uDown : option Z
}.

Definition addNonNegative (left right : Z) : result grantError Z :=
  if (left <? 0) || (right <? 0) || (int64_max - right <? left) then Err AmountOverflow else Ok (left + right).

Definition grantExpiry (client : Client) (tariff : Tariff) (now : Z) : result grantError (option Z) :=
  if 0 <? tAddDays tariff then
    if int64_max / seconds_per_day <? tAddDays tariff then Err ExpiryOverflow
    else
      let base := if cExpiry client <? now then now else cExpiry client in
      let extension := tAddDays tariff * seconds_per_day in
      if (base <? 0) || (int64_max - extension <? base) then Err ExpiryOverflow
      else Ok (Some (base + extension))
  else Ok None.

(** Whether a payment lifts the reason for which a client is disabled. *)
Definition renewable (reason : string) : bool :=
  String.eqb reason ClientDisabledQuota || String.eqb reason ClientDisabledExpired.

(** The second result is [granted_up] and [granted_down] of the order. *)
Definition BuildPaidClientUpdates (client : Client) (tariff : Tariff) (now : Z)
  : result grantError (clientUpdates * option (Z * Z)) :=
  let reason := cAccessDisableReason client in
  let blocked := negb (String.eqb reason "") && negb (renewable reason) in
  let enable := negb blocked in
  let reason := if blocked then reason else "" in
  let? expiry := grantExpiry client tariff now in
  if 0 <? tAddTrafficBytes tariff then
    let? volume := addNonNegative (cVolume client) (tAddTrafficBytes tariff) in
    let? totalUp := addNonNegative (cTotalUp client) (cUp client) in
    let? totalDown := addNonNegative (cTotalDown client) (cDown client) in
    Ok (mkClientUpdates (Some enable) (Some reason) expiry (Some volume) (Some totalUp) (Some totalDown)
          (Some 0) (Some 0),
        Some (cUp client, cDown client))
  else Ok (mkClientUpdates (Some enable) (Some reason) expiry None None None None None, None).

Definition BuildRefundClientUpdates (client : Client) (order : PaymentOrder) (tariff : Tariff) (now : Z)
  (restoreLiveUsage : bool) : clientUpdates :=
  let expiry :=
    if (0 <? tAddDays tariff) && (0 <? cExpiry client) then
      let newExpiry := wrap64 (cExpiry client - wrap64 (tAddDays tariff * seconds_per_day)) in
      Some (if newExpiry <? now then now else newExpiry)
    else None in
  if 0 <? tAddTrafficBytes tariff then
    let clamp v := if v <? 0 then 0 else v in
    let newVolume := clamp (wrap64 (cVolume client - tAddTrafficBytes tariff)) in
    let newTotalUp := clamp (wrap64 (cTotalUp client - oGrantedUp order)) in
    let newTotalDown := clamp (wrap64 (cTotalDown client - oGrantedDown order)) in
    mkClientUpdates None None expiry (Some newVolume) (Some newTotalUp) (Some newTotalDown)
      (if restoreLiveUsage then Some (oGrantedUp order) else None)
      (if restoreLiveUsage then Some (oGrantedDown order) else None)
  else mkClientUpdates None None expiry None None None None None.

(** Whether a refund's update map is empty. *)
Definition no_updates (u : clientUpdates) : bool :=
  match uExpiry u, uVolume u with None, None => true | _, _ => false end.

Definition applyClientUpdates (c : Client) (u : clientUpdates) : Client :=
  mkClient (default (cEnable c) (uEnable u)) (default (cAccessDisableReason c) (uAccessDisableReason u))
    (cName c) (cInbounds c) (default (cVolume c) (uVolume u)) (default (cExpiry c) (uExpiry u))
    (default (cDown c) (uDown u)) (default (cUp c) (uUp u))
    (default (cTotalUp c) (uTotalUp u)) (default (cTotalDown c) (uTotalDown u)).

(** ** The database *)
Record database := mkDatabase {
  dbOrders : gmap Z PaymentOrder;
  dbClients : gmap Z Client;
  dbCancellations : gmap Z InvoiceCancellation;
  dbChanges : list Change;
  dbNextOrder : Z;
  dbNextCancellation : Z
}.

Definition set_orders (d : database) (m : gmap Z PaymentOrder) : database :=
  mkDatabase m (dbClients d) (dbCancellations d) (dbChanges d) (dbNextOrder d) (dbNextCancellation d).
Definition set_clients (d : database) (m : gmap Z Client) : database :=
  mkDatabase (dbOrders d) m (dbCancellations d) (dbChanges d) (dbNextOrder d) (dbNextCancellation d).
Definition set_cancellations (d : database) (m : gmap Z InvoiceCancellation) : database :=
  mkDatabase (dbOrders d) (dbClients d) m (dbChanges d) (dbNextOrder d) (dbNextCancellation d).

Inductive storeError :=
| ErrOrderAlreadyFinalized
| ErrRefundInProgress
| ErrRecordNotFound
| ErrUnique
| ErrGrant (e : grantError)
| ErrText (text : string).

(** A computation inside a transaction. *)
Definition Tx (A : Type) : Type := database -> result storeError (A * database).

Definition tx_ret {A : Type} (a : A) : Tx A := fun d => Ok (a, d).
Definition tx_err {A : Type} (e : storeError) : Tx A := fun d => Err e.
Definition tx_bind {A B : Type} (m : Tx A) (k : A -> Tx B) : Tx B :=
  fun d => match m d with Ok (a, d') => k a d' | Err e => Err e end.

Notation "'let!' x ':=' m 'in' k" := (tx_bind m (fun x => k))
  (at level 10, x pattern, m at level 200, k at level 200).

(** [db.Transaction]: the result and the database, unchanged on an error. *)
Definition Transaction {A : Type} (m : Tx A) (d : database) : result storeError A * database :=
  match m d with
  | Ok (a, d') => (Ok a, d')
  | Err e => (Err e, d)
  end.

(** The unique indexes of [payment_orders]. *)
Definition active_purchase (o : PaymentOrder) : bool :=
  String.eqb (oProvider o) ProviderCryptoBot &&
  status_in (oStatus o) [StatusPending; StatusInvoiceCreating; StatusRecoverable].

Definition same_purchase (a b : PaymentOrder) : bool :=
  (oClientId a =? oClientId b) && (oTariffId a =? oTariffId b) && (oTelegramUserId a =? oTelegramUserId b) &&
  String.eqb (oProvider a) (oProvider b).

Definition conflict (a b : PaymentOrder) : bool :=
  String.eqb (oIdempotencyKey a) (oIdempotencyKey b) ||
  (negb (String.eqb (oProviderChargeID a) "") && String.eqb (oProvider a) (oProvider b) &&
     String.eqb (oProviderChargeID a) (oProviderChargeID b)) ||
  (negb (String.eqb (oProviderRef a) "") && String.eqb (oProvider a) (oProvider b) &&
     String.eqb (oProviderRef a) (oProviderRef b)) ||
  (active_purchase a && active_purchase b && same_purchase a b).

Definition unique_ok (m : gmap Z PaymentOrder) : bool :=
  forallb (fun p => forallb (fun q => (p.1 =? q.1) || negb (conflict p.2 q.2)) (map_to_list m)) (map_to_list m).

(** The orders after [Updates] of the selected rows. *)
Definition updated (sel : Z -> PaymentOrder -> bool) (cols : list column) (m : gmap Z PaymentOrder)
  : gmap Z PaymentOrder := map_imap (fun id o => Some (if sel id o then Updates_of cols o else o)) m.

Definition selected (sel : Z -> PaymentOrder -> bool) (m : gmap Z PaymentOrder) : Z :=
  Z.of_nat (length (List.filter (fun p => sel p.1 p.2) (map_to_list m))).

(** [Model(&PaymentOrder{}).Where(sel).Updates(cols)]: the rows affected. *)
Definition Updates (sel : Z -> PaymentOrder -> bool) (cols : list column) : Tx Z :=
  fun d => let m := updated sel cols (dbOrders d) in
           if unique_ok m then Ok (selected sel (dbOrders d), set_orders d m) else Err ErrUnique.

Definition by_id (id : Z) (p : PaymentOrder -> bool) : Z -> PaymentOrder -> bool := fun i o => (i =? id) && p o.

Definition has_status (s : Status) (o : PaymentOrder) : bool := bool_decide (oStatus o = s).

Definition FirstOrder (id : Z) : Tx PaymentOrder :=
  fun d => match dbOrders d !! id with Some o => Ok (o, d) | None => Err ErrRecordNotFound end.

Definition FirstClient (id : Z) : Tx Client :=
  fun d => match dbClients d !! id with Some c => Ok (c, d) | None => Err ErrRecordNotFound end.

Definition UpdateClient (id : Z) (f : Client -> Client) : Tx unit :=
  fun d => Ok (tt, set_clients d (alter f id (dbClients d))).

Definition CreateChange (c : Change) : Tx unit :=
  fun d => Ok (tt, mkDatabase (dbOrders d) (dbClients d) (dbCancellations d) (dbChanges d ++ [c])
                     (dbNextOrder d) (dbNextCancellation d)).

(** ** Grants and refunds ([order_grant_store.go]) *)
Definition grantForOrder (order : PaymentOrder) : result storeError Tariff :=
  if oGrantSnapshot order then
    if (oAmount order <=? 0) || (oGrantAddDays order <? 0) ||
       (int64_max / seconds_per_day <? oGrantAddDays order) || (oGrantTraffic order <? 0)
    then Err (ErrText "payment order grant snapshot is invalid")
    else Ok (mkTariff (oGrantAddDays order) (oGrantTraffic order))
  else Err (ErrText "payment order requires manual review: purchase snapshot missing").

Definition lift_result {A : Type} (r : result storeError A) : Tx A :=
  fun d => match r with Ok a => Ok (a, d) | Err e => Err e end.

(** The SQL [CASE] expressions that replace the enable and reason columns. *)
Definition sqlAccess (c : Client) (u : clientUpdates) : clientUpdates :=
  let reason := cAccessDisableReason c in
  mkClientUpdates (Some (String.eqb reason "" || renewable reason)) (Some (if renewable reason then "" else reason))
    (uExpiry u) (uVolume u) (uTotalUp u) (uTotalDown u) (uUp u) (uDown u).

Record AppliedOrderResult := mkApplied { arApplied : bool; arTelegramUserID : Z; arInbounds : string }.

Definition notApplied : AppliedOrderResult := mkApplied false 0 "".

(** The body of the transaction of [ApplyPaidOrderGrant]. *)
Definition applyGrant (orderID : Z) (chargeID : string) (now : Z) (actor : string) : Tx AppliedOrderResult :=
  let! rows := Updates (by_id orderID (has_status StatusPending))
                 [ColStatus StatusPaid; ColPaidAt now; ColProviderChargeID chargeID] in
  if negb (rows =? 1) then tx_err ErrOrderAlreadyFinalized
  else
    let! order := FirstOrder orderID in
    let! grant := lift_result (grantForOrder order) in
    let! client := FirstClient (oClientId order) in
    match BuildPaidClientUpdates client grant now with
    | Err e => tx_err (ErrGrant e)
    | Ok (updates, orderUpdates) =>
        let! _ := match orderUpdates with
                  | Some (up, down) =>
                      Updates (by_id orderID (fun _ => true)) [ColGrantedUp up; ColGrantedDown down]
                  | None => tx_ret 0
                  end in
        let! _ := UpdateClient (oClientId order) (fun c => applyClientUpdates c (sqlAccess c updates)) in
        let! _ := CreateChange (mkChange now actor "renew" (cName client)) in
        tx_ret (mkApplied true (oTelegramUserId order) (cInbounds client))
    end.

Definition ApplyPaidOrderGrant (orderID : Z) (chargeID : string) (now : Z) (actor : string) (d : database)
  : result storeError AppliedOrderResult * database :=
  if String.eqb chargeID "" then (Err (ErrText "payment charge identity is empty"), d)
  else Transaction (applyGrant orderID chargeID now actor) d.

(** The newer traffic orders that keep a refund from restoring live usage. *)
Definition newerTrafficOrders (order : PaymentOrder) (orderID : Z) (d : database) : Z :=
  selected (fun i o => (oClientId o =? oClientId order) && (orderID <? i) &&
              status_in (oStatus o) [StatusPaid; StatusRefundPending] &&
              oGrantSnapshot o && (0 <? oGrantTraffic o)) (dbOrders d).

Definition refundGrant (orderID : Z) (status : Status) (token : string) (revoke : bool) (now : Z) (actor : string)
  : Tx string :=
  let! rows := Updates (by_id orderID (fun o => has_status status o &&
                          (String.eqb token "" || String.eqb (oRefundClaim o) token)))
                 [ColStatus StatusRefunded; ColRefundClaim ""; ColRefundClaimUntil 0] in
  if negb (rows =? 1) then tx_err ErrOrderAlreadyFinalized
  else
    let! order := FirstOrder orderID in
    let revoke := if negb (String.eqb token "") then oRefundRevoke order else revoke in
    let! grant := lift_result (grantForOrder order) in
    if negb revoke then tx_ret ""
    else
      let! client := FirstClient (oClientId order) in
      let! newer := (fun d => Ok (newerTrafficOrders order orderID d, d)) in
      let restoreLiveUsage := if 0 <? tAddTrafficBytes grant then newer =? 0 else true in
      let updates := BuildRefundClientUpdates client order grant now restoreLiveUsage in
      if no_updates updates then tx_ret ""
      else
        let! _ := UpdateClient (oClientId order) (fun c => applyClientUpdates c updates) in
        let! _ := CreateChange (mkChange now actor "refund" (cName client)) in
        tx_ret (cInbounds client).

Definition finalizeRefundGrant (orderID : Z) (status : Status) (token : string) (revoke : bool) (now : Z)
  (actor : string) (d : database) : result storeError string * database :=
  Transaction (refundGrant orderID status token revoke now actor) d.

Definition FinalizeRefundGrant (orderID : Z) (revoke : bool) (now : Z) (actor : string) (d : database) :=
  finalizeRefundGrant orderID StatusPaid "" revoke now actor d.

Definition FinalizeClaimedRefundGrant (orderID : Z) (token : string) (now : Z) (actor : string) (d : database)
  : result storeError string * database :=
  if String.eqb token "" then (Err ErrRefundInProgress, d)
  else finalizeRefundGrant orderID StatusRefundPending token false now actor d.

(** ** Refund claims ([refund_claim_store.go]) *)
Definition refundClaimSeconds : Z := 120.

Definition claimRefund (id : Z) (revoke : bool) (token : string) (now : Z) : Tx PaymentOrder :=
  let! rows := Updates (by_id id (fun o => has_status StatusPaid o && String.eqb (oProvider o) ProviderStars))
                 [ColStatus StatusRefundPending; ColRefundRevoke revoke; ColRefundClaim token;
                  ColRefundClaimUntil (now + refundClaimSeconds)] in
  let! rows := if rows =? 0 then
                 Updates (by_id id (fun o => has_status StatusRefundPending o &&
                            String.eqb (oProvider o) ProviderStars && (oRefundClaimUntil o <=? now)))
                   [ColRefundClaim token; ColRefundClaimUntil (now + refundClaimSeconds)]
               else tx_ret rows in
  if rows =? 0 then tx_err ErrRefundInProgress
  else
    let! order := FirstOrder id in
    let! _ := lift_result (grantForOrder order) in
    if negb (String.eqb (oCurrency order) "XTR") || (oTelegramUserId order <=? 0) ||
       negb (HasPrefix (oProviderChargeID order) "tg:") ||
       String.eqb (TrimPrefix (oProviderChargeID order) "tg:") ""
    then tx_err (ErrText "refund charge identity invalid")
    else tx_ret order.

Definition ClaimStarsRefund (id : Z) (revoke : bool) (token : string) (now : Z) (d : database)
  : result storeError PaymentOrder * database :=
  if String.eqb token "" then (Err (ErrText "refund claim identity missing"), d)
  else Transaction (claimRefund id revoke token now) d.

Definition ReleaseRefundClaim (id : Z) (token : string) (d : database) : result storeError Z * database :=
  Transaction (Updates (by_id id (fun o => has_status StatusRefundPending o && String.eqb (oRefundClaim o) token))
    [ColRefundClaim ""; ColRefundClaimUntil 0]) d.

(** ** Orders ([order_store.go]) *)
Definition NewPendingOrder (clientID tariffID : Z) (tariff : Tariff) (kind : string) (amount : Z) (currency : string)
  (tgUserID : Z) (idempotencyKey : string) (now ttlMinutes : Z) : PaymentOrder :=
  mkOrder 0 clientID tariffID kind amount currency StatusPending tgUserID idempotencyKey "" "" "" "" false false
    "" 0 "" now 0 (now + ttlMinutes * 60) (tAddDays tariff) (tAddTrafficBytes tariff) true 0 0.

(** [Create] with the next identity. *)
Definition with_id (id : Z) (o : PaymentOrder) : PaymentOrder :=
  mkOrder id (oClientId o) (oTariffId o) (oProvider o) (oAmount o) (oCurrency o) (oStatus o) (oTelegramUserId o)
    (oIdempotencyKey o) (oProviderChargeID o) (oProviderPayload o) (oProviderRef o) (oReviewReason o)
    (oLegacyResolved o) (oRefundRevoke o) (oRefundClaim o) (oRefundClaimUntil o) (oExternalURL o) (oCreatedAt o)
    (oPaidAt o) (oExpiresAt o) (oGrantAddDays o) (oGrantTraffic o) (oGrantSnapshot o) (oGrantedUp o) (oGrantedDown o).

Definition insert_order (o : PaymentOrder) (d : database) : PaymentOrder * database :=
  let id := dbNextOrder d in
  (with_id id o,
   mkDatabase (<[id := with_id id o]> (dbOrders d)) (dbClients d) (dbCancellations d) (dbChanges d) (id + 1)
     (dbNextCancellation d)).

Definition conflicts (o : PaymentOrder) (d : database) : bool :=
  existsb (fun p => conflict o p.2) (map_to_list (dbOrders d)).

Definition CreateOrder (o : PaymentOrder) : Tx PaymentOrder :=
  fun d => if conflicts o d then Err ErrUnique else Ok (insert_order o d).

(** The first order in the order of identities that satisfies a condition. *)
Definition first_order (p : PaymentOrder -> bool) (d : database) : option PaymentOrder :=
  match List.filter (fun kv => p kv.2) (map_to_list (dbOrders d)) with
  | [] => None
  | kv :: rest => Some (foldl (fun a b => if b.1 <? a.1 then b else a) kv rest).2
  end.

Definition ActiveCryptoBotOrder (clientID tariffID tgID : Z) (d : database) : option PaymentOrder :=
  first_order (fun o => (oClientId o =? clientID) && (oTariffId o =? tariffID) && (oTelegramUserId o =? tgID) &&
    String.eqb (oProvider o) ProviderCryptoBot &&
    status_in (oStatus o) [StatusPending; StatusInvoiceCreating; StatusRecoverable; StatusManualReview]) d.

(** The resolved order and whether it was created. *)
Definition createIntent (order : PaymentOrder) : Tx (option PaymentOrder * bool) :=
  let order := assign order (ColStatus StatusInvoiceCreating) in
  let! held := Updates (fun _ o => same_purchase o order && has_status StatusManualReview o)
                 [ColStatus StatusManualReview] in
  if 0 <? held then
    fun d => Ok ((ActiveCryptoBotOrder (oClientId order) (oTariffId order) (oTelegramUserId order) d, false), d)
  else fun d =>
    if conflicts order d then
      match first_order (fun o => same_purchase o order &&
              status_in (oStatus o) [StatusInvoiceCreating; StatusRecoverable; StatusPending]) d with
      | Some existing => Ok ((Some existing, false), d)
      | None => Err ErrRecordNotFound
      end
    else let '(created, d') := insert_order order d in Ok ((Some created, true), d').

Definition CreateInvoiceIntent (order : PaymentOrder) (d : database) := Transaction (createIntent order) d.

Definition MarkInvoiceRecoverable (id : Z) (d : database) : result storeError Z * database :=
  Transaction (Updates (by_id id (has_status StatusInvoiceCreating))
    [ColStatus StatusRecoverable; ColReviewReason "invoice_creation_uncertain"]) d.

(** [payload] is the encoded reference. *)
Definition saveInvoice (orderID : Z) (payURL providerRef payload : string) : Tx unit :=
  let cols := [ColStatus StatusPending; ColReviewReason ""] ++
              (if negb (String.eqb payURL "") then [ColExternalURL payURL] else []) ++
              (if negb (String.eqb providerRef "") then [ColProviderRef providerRef; ColProviderPayload payload] else []) in
  let! rows := Updates (by_id orderID (fun o => status_in (oStatus o) [StatusPending; StatusInvoiceCreating] &&
                 (String.eqb (oProviderRef o) "" || String.eqb (oProviderRef o) providerRef))) cols in
  if negb (rows =? 1) then tx_err ErrOrderAlreadyFinalized else tx_ret tt.

(** [invoice] is the payment link and the reference of the provider's answer. *)
Definition SaveInvoiceResult (orderID : Z) (invoice : option (string * string)) (payload : string) (d : database)
  : result storeError unit * database :=
  match invoice with
  | None => (Err (ErrText "provider returned an empty invoice"), d)
  | Some (payURL, providerRef) => Transaction (saveInvoice orderID payURL providerRef payload) d
  end.

Definition markFailed (id : Z) : Tx unit :=
  let! rows := Updates (by_id id (has_status StatusPending)) [ColStatus StatusFailed] in
  if negb (rows =? 1) then tx_err ErrOrderAlreadyFinalized else tx_ret tt.

Definition MarkOrderFailed (id : Z) (d : database) := Transaction (markFailed id) d.

Definition ReviewProviderOrders (ids : list Z) (d : database) : result storeError Z * database :=
  Transaction (Updates (fun i o => bool_decide (i ∈ ids) &&
                 status_in (oStatus o) [StatusPending; StatusInvoiceCreating; StatusRecoverable])
    [ColStatus StatusManualReview; ColReviewReason "provider_metadata_or_identity_conflict"]) d.

Definition ExpireStaleOrders (now : Z) (d : database) : result storeError Z * database :=
  Transaction (Updates (fun _ o => has_status StatusPending o && negb (String.eqb (oProvider o) ProviderCryptoBot) &&
                 (0 <? oExpiresAt o) && (oExpiresAt o <? now)) [ColStatus StatusExpired]) d.

(** ** Provider work ([provider_work_store.go]) *)
Definition completeCancellation (id : Z) : Tx unit :=
  fun d =>
    match dbCancellations d !! id with
    | Some work =>
        if icCompleted work then Ok (tt, d)
        else
          let d := set_cancellations d
            (<[id := mkCancellation (icOrderID work) (icRef work) true]> (dbCancellations d)) in
          let outstanding := List.filter (fun kv => (icOrderID kv.2 =? icOrderID work) && negb (icCompleted kv.2))
                               (map_to_list (dbCancellations d)) in
          if Z.of_nat (length outstanding) =? 0 then
            (let! _ := Updates (by_id (icOrderID work) (fun o => negb (oGrantSnapshot o) &&
                         has_status StatusRecoverable o && String.eqb (oReviewReason o) "legacy_cancel_pending"))
                         [ColStatus StatusFailed; ColLegacyResolved true; ColReviewReason "legacy_cancelled"] in
             tx_ret tt) d
          else Ok (tt, d)
    | None => Ok (tt, d)
    end.

Definition CompleteCancellation (id : Z) (d : database) := Transaction (completeCancellation id) d.

(** The cancellation recorded for a reference. *)
Definition cancellation_for (ref : string) (d : database) : option InvoiceCancellation :=
  match List.filter (fun kv => String.eqb (icRef kv.2) ref) (map_to_list (dbCancellations d)) with
  | kv :: _ => Some kv.2
  | [] => None
  end.

Fixpoint queueCancellations (orderID : Z) (candidates : list RecoveredInvoice) : Tx unit :=
  match candidates with
  | [] => tx_ret tt
  | candidate :: rest =>
      if negb (bool_decide (riState candidate = InvoiceActive)) then queueCancellations orderID rest
      else fun d =>
        match cancellation_for (riRef candidate) d with
        | Some existing =>
            if negb (icOrderID existing =? orderID)
            then Err (ErrText "cancellation identity belongs to another order")
            else queueCancellations orderID rest d
        | None =>
            queueCancellations orderID rest
              (mkDatabase (dbOrders d) (dbClients d)
                 (<[dbNextCancellation d := mkCancellation orderID (riRef candidate) false]> (dbCancellations d))
                 (dbChanges d) (dbNextOrder d) (dbNextCancellation d + 1))
        end
  end.

(** The candidate loop: the active and the paid invoices, or [None] for a conflict. *)
Fixpoint sortCandidates (seen : list string) (candidates : list RecoveredInvoice)
  : option (list RecoveredInvoice * list RecoveredInvoice) :=
  match candidates with
  | [] => Some ([], [])
  | c :: rest =>
      if negb (riVerified c) || String.eqb (riRef c) "" || bool_decide (riRef c ∈ seen) ||
         bool_decide (riState c = InvoiceUnknown)
      then None
      else
        match sortCandidates (riRef c :: seen) rest with
        | None => None
        | Some (active, paidInvoices) =>
            Some (if bool_decide (riState c = InvoiceActive) then c :: active else active,
                  if bool_decide (riState c = InvoicePaid) then c :: paidInvoices else paidInvoices)
        end
  end.

Section Recovery.
(** The JSON evidence [{"ref": ref}] of an invoice. *)
Context (refPayload : string -> string).

Definition invoiceEvidence (originalRef canonicalRef : string) : string :=
  refPayload (if String.eqb originalRef "" then canonicalRef else originalRef).

Definition review (id : Z) (reason : string) : Tx AppliedOrderResult :=
  let! _ := Updates (by_id id (fun _ => true)) [ColStatus StatusManualReview; ColReviewReason reason] in
  tx_ret notApplied.

Definition on_order (id : Z) (cols : list column) : Tx AppliedOrderResult :=
  let! _ := Updates (by_id id (fun _ => true)) cols in tx_ret notApplied.

Definition evidence_columns (order : PaymentOrder) (ref : string) : list column :=
  if slen (oProviderPayload order) =? 0
  then [ColProviderPayload (invoiceEvidence (oProviderRef order) ref)] else [].

(** The order without a purchase snapshot. *)
Definition recoverLegacy (id : Z) (order : PaymentOrder) (active paidInvoices : list RecoveredInvoice)
  : Tx AppliedOrderResult :=
  match paidInvoices with
  | paidInvoice :: _ =>
      let! _ := queueCancellations id active in
      on_order id ([ColStatus StatusManualReview; ColReviewReason "legacy_snapshot_missing";
                    ColProviderRef (riRef paidInvoice); ColProviderChargeID ("cryptobot:" +:+ riRef paidInvoice)] ++
                   evidence_columns order (riRef paidInvoice))
  | [] =>
      let! _ := queueCancellations id active in
      match active with
      | _ :: _ => on_order id [ColReviewReason "legacy_cancel_pending"]
      | [] => on_order id [ColStatus StatusFailed; ColLegacyResolved true; ColReviewReason "legacy_terminal"]
      end
  end.

(** The order with a snapshot, once a canonical invoice is chosen. *)
Definition recoverCanonical (id : Z) (order : PaymentOrder) (active : list RecoveredInvoice)
  (canonical : RecoveredInvoice) (now : Z) : Tx AppliedOrderResult :=
  if bool_decide (riState canonical = InvoiceActive) && String.eqb (riPayURL canonical) ""
  then review id "provider_invoice_url_missing"
  else
    let! _ := Updates (by_id id (fun _ => true))
      ([ColStatus StatusPending; ColProviderRef (riRef canonical); ColExternalURL (riPayURL canonical);
        ColReviewReason ""] ++ evidence_columns order (riRef canonical)) in
    if negb (bool_decide (riState canonical = InvoicePaid)) then tx_ret notApplied
    else
      let! _ := queueCancellations id active in
      applyGrant id ("cryptobot:" +:+ riRef canonical) now "PaidSubBot".

Definition recoverOrder (recovered : Reconciliation) (now grace : Z) : Tx AppliedOrderResult :=
  let id := rnOrderID recovered in
  let! rows := Updates (by_id id (fun o => String.eqb (oProvider o) ProviderCryptoBot &&
                 (status_in (oStatus o) [StatusInvoiceCreating; StatusRecoverable] ||
                  (has_status StatusPending o && String.eqb (oProviderRef o) ""))))
                 [ColStatus StatusRecoverable] in
  if negb (rows =? 1) then tx_err ErrOrderAlreadyFinalized
  else
    let! order := FirstOrder id in
    if negb (String.eqb (rnReviewReason recovered) "") then review id (rnReviewReason recovered)
    else
      match rnCandidates recovered with
      | [] => tx_ret notApplied
      | candidates =>
          match sortCandidates [] candidates with
          | None => review id "provider_metadata_or_identity_conflict"
          | Some (active, paidInvoices) =>
              if 1 <? Z.of_nat (length paidInvoices) then review id "multiple_paid_invoices"
              else if negb (oGrantSnapshot order) then recoverLegacy id order active paidInvoices
              else
                match grantForOrder order with
                | Err _ => review id "purchase_snapshot_invalid"
                | Ok _ =>
                    match paidInvoices, active with
                    | [canonical], _ => recoverCanonical id order active canonical now
                    | _, [canonical] => recoverCanonical id order active canonical now
                    | _, _ :: _ => review id "multiple_active_invoices"
                    | _, [] =>
                        if (0 <? oCreatedAt order) && (oCreatedAt order <? now - grace)
                        then on_order id [ColStatus StatusExpired; ColReviewReason "provider_terminal"]
                        else tx_ret notApplied
                    end
                end
          end
      end.

Definition RecoverProviderOrder (recovered : Reconciliation) (now grace : Z) (d : database)
  : result storeError AppliedOrderResult * database :=
  match Transaction (recoverOrder recovered now grace) d with
  | (Err ErrOrderAlreadyFinalized, d') => (Ok notApplied, d')
  | r => r
  end.

Definition ExpireVerifiedProviderOrders (ids : list Z) (now grace : Z) (d : database)
  : result storeError Z * database :=
  Transaction (Updates (fun i o => bool_decide (i ∈ ids) && String.eqb (oProvider o) ProviderCryptoBot &&
                 has_status StatusPending o && (0 <? oCreatedAt o) && (oCreatedAt o <? now - grace))
    [ColStatus StatusExpired; ColReviewReason "provider_terminal"]) d.

End Recovery.
