(* ===== verification/PaidLedger.v ===== *)
(** * The payment ledger

    Histories of the store operations of [PaidOrders], interleaved with edits of
    clients by the rest of the panel, refine an abstract ledger: an order is
    credited at most once, a provider charge pays for at most one order, a credit is
    revoked at most once, and a client's quota is what it was plus the traffic of the
    orders credited and not revoked. *)

From S2P Require Import Prelude GoStrings PaidOrders.

Open Scope string_scope.
Open Scope list_scope.
Open Scope Z_scope.

(** ** Rows and the unique indexes *)

(** What a purchase was for: fixed when the order is created. *)
Definition terms (o : PaymentOrder) : Z * string * Z * Z * bool * Z :=
  (oClientId o, oProvider o, oGrantAddDays o, oGrantTraffic o, oGrantSnapshot o, oAmount o).

(** The statuses of an order whose grant was applied. *)
Definition settled (s : Status) : bool := status_in s [StatusPaid; StatusRefundPending; StatusRefunded].

Lemma Updates_of_terms cols o : terms (Updates_of cols o) = terms o.
Proof.
  revert o. induction cols as [|c cols IH]; intros o; [done|].
  change (Updates_of (c :: cols) o) with (Updates_of cols (assign o c)). rewrite IH. by destruct c.
Qed.

Lemma updated_lookup sel cols m id :
  updated sel cols m !! id = (fun o => if sel id o then Updates_of cols o else o) <$> m !! id.
Proof. unfold updated. rewrite map_lookup_imap. by destruct (m !! id). Qed.

(** How many rows a condition on one identity selects. *)
Lemma selected_by_id id p m :
  selected (by_id id p) m = match m !! id with Some o => if p o then 1 else 0 | None => 0 end.
Proof.
  unfold selected. pose proof (NoDup_map_to_list m) as Hnd.
  assert (Hin : forall i o, (i, o) ∈ List.filter (fun q => by_id id p q.1 q.2) (map_to_list m) <->
                            m !! i = Some o /\ i = id /\ p o = true).
  { intros i o. rewrite list_elem_of_In, filter_In, <- list_elem_of_In, elem_of_map_to_list.
    unfold by_id. simpl. rewrite andb_true_iff, Z.eqb_eq. tauto. }
  assert (Hnd' : NoDup (List.filter (fun q => by_id id p q.1 q.2) (map_to_list m)))
    by (apply NoDup_ListNoDup, List.NoDup_filter, NoDup_ListNoDup; exact Hnd).
  destruct (List.filter _ _) as [|[i o] [|[i' o'] l]] eqn:E.
  - destruct (m !! id) as [o|] eqn:Ho; [|done]. destruct (p o) eqn:Hp; [|done].
    exfalso. assert (Hx := proj2 (Hin id o) (conj Ho (conj eq_refl Hp))). by apply elem_of_nil in Hx.
  - destruct (proj1 (Hin i o)) as (Ho & -> & Hp); [set_solver|]. by rewrite Ho, Hp.
  - exfalso. destruct (proj1 (Hin i o)) as (Ho & -> & Hp); [set_solver|].
    destruct (proj1 (Hin i' o')) as (Ho' & -> & Hp'); [set_solver|].
    rewrite Ho in Ho'. injection Ho' as <-. apply NoDup_cons in Hnd' as [Hx _]. set_solver.
Qed.

Definition unique (m : gmap Z PaymentOrder) : Prop :=
  forall i j o p, m !! i = Some o -> m !! j = Some p -> i <> j -> conflict o p = false.

Lemma unique_ok_spec m : unique_ok m = true -> unique m.
Proof.
  unfold unique_ok. rewrite forallb_forall. intros H i j o p Hi Hj Hne.
  assert (Hio : In (i, o) (map_to_list m)) by (apply list_elem_of_In, elem_of_map_to_list; done).
  assert (Hjp : In (j, p) (map_to_list m)) by (apply list_elem_of_In, elem_of_map_to_list; done).
  specialize (H _ Hio). rewrite forallb_forall in H. specialize (H _ Hjp). simpl in H.
  rewrite orb_true_iff, Z.eqb_eq, negb_true_iff in H. tauto.
Qed.

Lemma conflict_sym a b : conflict a b = conflict b a.
Proof.
  unfold conflict, same_purchase.
  rewrite (String.eqb_sym (oIdempotencyKey b) (oIdempotencyKey a)), (String.eqb_sym (oProvider b) (oProvider a)),
    (String.eqb_sym (oProviderChargeID b) (oProviderChargeID a)), (String.eqb_sym (oProviderRef b) (oProviderRef a)),
    (Z.eqb_sym (oClientId b)), (Z.eqb_sym (oTariffId b)), (Z.eqb_sym (oTelegramUserId b)).
  rewrite (andb_comm (active_purchase b)).
  destruct (String.eqb_spec (oProviderChargeID a) (oProviderChargeID b)) as [->|];
    destruct (String.eqb_spec (oProviderRef a) (oProviderRef b)) as [->|]; rewrite ?andb_false_r; done.
Qed.

(** ** Databases that the store keeps *)
Record wf (d : database) : Prop := mkWf {
  wf_unique : unique (dbOrders d);
  wf_fresh : forall id o, dbOrders d !! id = Some o -> id < dbNextOrder d
}.

(** An order after an operation that neither credits nor revokes it. *)
Record keeps (o o' : PaymentOrder) : Prop := mkKeeps {
  keeps_terms : terms o' = terms o;
  keeps_settled : settled (oStatus o) = true ->
    oProviderChargeID o' = oProviderChargeID o /\
    (oStatus o' = oStatus o \/ (oStatus o = StatusPaid /\ oStatus o' = StatusRefundPending));
  keeps_open : settled (oStatus o) = false -> settled (oStatus o') = false
}.

#[export] Instance keeps_preorder : PreOrder keeps.
Proof.
  split.
  - intros o. constructor; auto.
  - intros o1 o2 o3 [T1 S1 O1] [T2 S2 O2]. constructor; [congruence| |auto].
    intros Hs. destruct (S1 Hs) as [C1 E1].
    assert (Hs2 : settled (oStatus o2) = true) by (destruct E1 as [->|[_ ->]]; done).
    destruct (S2 Hs2) as [C2 E2]. split; [congruence|].
    destruct E1 as [E1|[E1 E1']], E2 as [E2|[E2 E2']]; rewrite ?E1, ?E2 in *; intuition congruence.
Qed.

(** A step that neither credits nor revokes: no client changes, every order is kept. *)
Record quiet (d d' : database) : Prop := mkQuiet {
  quiet_clients : dbClients d' = dbClients d;
  quiet_orders : forall id o, dbOrders d !! id = Some o -> exists o', dbOrders d' !! id = Some o' /\ keeps o o';
  quiet_new : forall id o', dbOrders d' !! id = Some o' -> dbOrders d !! id = None -> settled (oStatus o') = false;
  quiet_wf : wf d -> wf d'
}.

#[export] Instance quiet_preorder : PreOrder quiet.
Proof.
  split.
  - intros d. constructor; auto; [|congruence]. intros id o H. exists o. split; [done|reflexivity].
  - intros d1 d2 d3 [C1 O1 N1 W1] [C2 O2 N2 W2]. constructor; [congruence| | |auto].
    + intros id o H. destruct (O1 id o H) as (o2 & H2 & K2). destruct (O2 id o2 H2) as (o3 & H3 & K3).
      exists o3. split; [done|by transitivity o2].
    + intros id o3 H3 H1. destruct (dbOrders d2 !! id) as [o2|] eqn:H2.
      * destruct (O2 id o2 H2) as (o3' & H3' & K). assert (o3' = o3) as -> by congruence.
        apply (keeps_open _ _ K). eauto.
      * eauto.
Qed.

(** ** A small logic of transactions *)
Definition open_at (id : Z) (d : database) : Prop :=
  forall o, dbOrders d !! id = Some o -> settled (oStatus o) = false.

Lemma quiet_open_at id d d' : quiet d d' -> open_at id d -> open_at id d'.
Proof.
  intros [_ Ho Hn _] Hopen o' Ho'. destruct (dbOrders d !! id) as [o|] eqn:E; [|eauto].
  destruct (Ho id o E) as (o2 & H2 & K). assert (o2 = o') as -> by congruence.
  apply (keeps_open _ _ K), Hopen, E.
Qed.

(** From databases that satisfy [P], a successful run is quiet. *)
Definition calm {A : Type} (P : database -> Prop) (m : Tx A) : Prop :=
  forall d a d', P d -> m d = Ok (a, d') -> quiet d d'.

Definition stable (P : database -> Prop) : Prop := forall d d', quiet d d' -> P d -> P d'.

Lemma calm_bind {A B : Type} P (m : Tx A) (k : A -> Tx B) :
  stable P -> calm P m -> (forall a, calm P (k a)) -> calm P (tx_bind m k).
Proof.
  intros Hst Hm Hk d b d' HP. unfold tx_bind. destruct (m d) as [[a d1]|e] eqn:E; [|done]. intros Hb.
  specialize (Hm _ _ _ HP E). transitivity d1; [done|]. exact (Hk a d1 b d' (Hst _ _ Hm HP) Hb).
Qed.

Lemma calm_ret {A : Type} P (a : A) : calm P (tx_ret a).
Proof. intros d b d' _ [= _ <-]. reflexivity. Qed.

Lemma calm_err {A : Type} P e : calm (A := A) P (tx_err e).
Proof. by intros d b d' _ H. Qed.

Lemma calm_lift {A : Type} P (r : result storeError A) : calm P (lift_result r).
Proof. intros d b d' _. unfold lift_result. destruct r; [|done]. intros [= _ <-]. reflexivity. Qed.

Lemma calm_first P id : calm P (FirstOrder id).
Proof. intros d b d' _. unfold FirstOrder. destruct (_ !! _); [|done]. intros [= _ <-]. reflexivity. Qed.

Lemma calm_if {A : Type} P (b : bool) (m1 m2 : Tx A) : calm P m1 -> calm P m2 -> calm P (if b then m1 else m2).
Proof. by destruct b. Qed.

Lemma stable_open id : stable (open_at id).
Proof. intros d d' H. by apply quiet_open_at. Qed.

Lemma stable_true : stable (fun _ => True).
Proof. by intros d d' _ _. Qed.

(** What a successful [Updates] does. *)
Lemma Updates_inv sel cols d n d' :
  Updates sel cols d = Ok (n, d') ->
  d' = set_orders d (updated sel cols (dbOrders d)) /\ n = selected sel (dbOrders d) /\
  unique (updated sel cols (dbOrders d)).
Proof.
  unfold Updates. destruct (unique_ok _) eqn:E; [|done]. intros [= <- <-]. split_and!; [done..|by apply unique_ok_spec].
Qed.

Lemma updated_fresh sel cols d :
  wf d -> unique (updated sel cols (dbOrders d)) -> wf (set_orders d (updated sel cols (dbOrders d))).
Proof.
  intros [_ Hf] Hu. constructor; [done|]. intros id o. simpl. rewrite updated_lookup, fmap_Some.
  intros (o' & Ho' & _). eauto.
Qed.

Lemma calm_Updates P sel cols :
  (forall d id o, P d -> dbOrders d !! id = Some o -> sel id o = true -> keeps o (Updates_of cols o)) ->
  calm P (Updates sel cols).
Proof.
  intros Hk d n d' HP (-> & -> & Hu)%Updates_inv. constructor.
  - done.
  - intros id o Ho. simpl. rewrite updated_lookup, Ho. simpl. eexists. split; [done|].
    destruct (sel id o) eqn:E; [eauto|reflexivity].
  - intros id o'. simpl. rewrite updated_lookup. intros Ho' Hn. by rewrite Hn in Ho'.
  - intros Hwf. by apply updated_fresh.
Qed.

(** An update that only touches open orders and leaves them open. *)
Lemma keeps_open_order cols o :
  settled (oStatus o) = false -> settled (oStatus (Updates_of cols o)) = false -> keeps o (Updates_of cols o).
Proof. intros H1 H2. constructor; [apply Updates_of_terms|congruence|done]. Qed.

Lemma calm_open_Updates id p cols :
  (forall o, settled (oStatus o) = false -> settled (oStatus (Updates_of cols o)) = false) ->
  calm (open_at id) (Updates (by_id id p) cols).
Proof.
  intros Hc. apply calm_Updates. unfold by_id. intros d i o Hopen Ho Hsel.
  apply andb_true_iff in Hsel as [->%Z.eqb_eq _]. apply keeps_open_order; [by apply Hopen|apply Hc; by apply Hopen].
Qed.

(** ** The quiet operations *)
Ltac calm :=
  repeat first
    [ progress intros
    | apply calm_bind; [apply stable_true || apply stable_open| |]
    | apply calm_ret | apply calm_err | apply calm_lift | apply calm_first | apply calm_if ].

Lemma has_status_eq s o : has_status s o = true -> oStatus o = s.
Proof. unfold has_status. by rewrite bool_decide_eq_true. Qed.

Lemma status_in_open s l : forallb (fun x => negb (settled x)) l = true -> status_in s l = true -> settled s = false.
Proof.
  unfold status_in. rewrite forallb_forall, bool_decide_eq_true. intros Hl Hs.
  apply negb_true_iff, Hl, list_elem_of_In, Hs.
Qed.

Lemma has_status_settled s o : has_status s o = true -> settled (oStatus o) = settled s.
Proof. by intros ->%has_status_eq. Qed.

(** Updates of open rows, by the status condition that selects them. *)
Lemma calm_Updates_open sel cols :
  (forall id o, sel id o = true -> settled (oStatus o) = false) ->
  (forall o, settled (oStatus o) = false -> settled (oStatus (Updates_of cols o)) = false) ->
  calm (fun _ => True) (Updates sel cols).
Proof. intros H1 H2. apply calm_Updates. intros d id o _ _ Hsel. apply keeps_open_order; eauto. Qed.

Ltac open_rows :=
  let Hsel := fresh "Hsel" in
  unfold by_id; intros ? ? Hsel; cbv beta in Hsel; rewrite ?andb_true_iff in Hsel;
  repeat match goal with H : _ /\ _ |- _ => destruct H end;
  match goal with
  | H : has_status _ _ = true |- _ => rewrite (has_status_settled _ _ H); reflexivity
  | H : status_in _ _ = true |- _ => refine (status_in_open _ _ _ H); reflexivity
  end.

Lemma calm_claimRefund id revoke token now : calm (fun _ => True) (claimRefund id revoke token now).
Proof.
  unfold claimRefund. calm; apply calm_Updates; unfold by_id; intros d i o _ _ Hsel; bools; constructor;
    try apply Updates_of_terms; destruct Hsel as (_ & Hs); destruct_and?;
    match goal with H : has_status _ _ = true |- _ => apply has_status_eq in H; rewrite H end; done || tauto.
Qed.

Lemma calm_release id token :
  calm (fun _ => True)
    (Updates (by_id id (fun o => has_status StatusRefundPending o && String.eqb (oRefundClaim o) token))
       [ColRefundClaim ""; ColRefundClaimUntil 0]).
Proof. apply calm_Updates. intros d i o _ _ _. constructor; [apply Updates_of_terms|simpl; tauto|done]. Qed.

Lemma calm_insert d o o' d' :
  wf d -> conflicts o d = false -> settled (oStatus o) = false -> insert_order o d = (o', d') -> quiet d d'.
Proof.
  intros [Hu Hf] Hc Hs. unfold insert_order. intros [= <- <-].
  assert (Hnone : dbOrders d !! dbNextOrder d = None).
  { destruct (_ !! _) as [p|] eqn:E; [|done]. apply Hf in E. lia. }
  assert (Hother : forall i p, dbOrders d !! i = Some p -> conflict o p = false).
  { intros i p Hp. unfold conflicts in Hc. destruct (conflict o p) eqn:E; [|done].
    exfalso. rewrite <- not_true_iff_false in Hc. apply Hc, existsb_exists. exists (i, p).
    split; [by apply list_elem_of_In, elem_of_map_to_list|done]. }
  constructor; simpl.
  - done.
  - intros id p Hp. exists p. split; [|reflexivity]. rewrite lookup_insert_ne; [done|]. intros <-. congruence.
  - intros id p Hp Hn. destruct (decide (id = dbNextOrder d)) as [->|Hne].
    + rewrite lookup_insert_eq in Hp. by injection Hp as <-.
    + rewrite lookup_insert_ne in Hp by done. congruence.
  - intros _. constructor; simpl.
    + intros i j p q Hi Hj Hne.
      apply lookup_insert_Some in Hi as [[<- <-]|[Hi' Hi]], Hj as [[<- <-]|[Hj' Hj]]; [done|..].
      * exact (Hother j q Hj).
      * rewrite conflict_sym. exact (Hother i p Hi).
      * eauto.
    + intros id p. destruct (decide (id = dbNextOrder d)) as [->|Hne]; [lia|].
      rewrite lookup_insert_ne by done. intros Hp%Hf. lia.
Qed.

Lemma calm_CreateOrder o : settled (oStatus o) = false -> calm wf (CreateOrder o).
Proof.
  intros Hs d a d' Hwf. unfold CreateOrder. destruct (conflicts o d) eqn:E; [done|].
  destruct (insert_order o d) as [o' d1] eqn:Ei. intros [= _ <-]. exact (calm_insert _ _ _ _ Hwf E Hs Ei).
Qed.

Lemma stable_wf : stable wf.
Proof. intros d d' H. apply (quiet_wf _ _ H). Qed.

Lemma calm_weaken {A : Type} (P Q : database -> Prop) (m : Tx A) : (forall d, P d -> Q d) -> calm Q m -> calm P m.
Proof. intros HPQ Hm d a d' HP. apply Hm; auto. Qed.

Lemma calm_createIntent o : calm wf (createIntent o).
Proof.
  unfold createIntent. apply calm_bind; [apply stable_wf| |intros held; apply calm_if].
  - apply (calm_weaken _ (fun _ => True)); [done|]. apply calm_Updates_open; [open_rows|done].
  - intros d a d' _ [= _ <-]. reflexivity.
  - intros d a d' Hwf. destruct (conflicts _ d) eqn:E.
    + destruct (first_order _ d); [|done]. intros [= _ <-]. reflexivity.
    + destruct (insert_order _ d) as [o' d1] eqn:Ei. intros [= _ <-].
      exact (calm_insert _ _ _ _ Hwf E eq_refl Ei).
Qed.

Lemma calm_saveInvoice id url ref payload : calm (fun _ => True) (saveInvoice id url ref payload).
Proof.
  unfold saveInvoice. calm. apply calm_Updates_open; [open_rows|].
  intros o _. unfold Updates_of. rewrite !foldl_app. by destruct (String.eqb url ""), (String.eqb ref "").
Qed.

Lemma calm_markFailed id : calm (fun _ => True) (markFailed id).
Proof. unfold markFailed. calm. apply calm_Updates_open; [open_rows|done]. Qed.

(** A change of the cancellations alone. *)
Lemma quiet_cancellations d m n :
  quiet d (mkDatabase (dbOrders d) (dbClients d) m (dbChanges d) (dbNextOrder d) n).
Proof.
  constructor; simpl; [done| |congruence|].
  - intros id o Ho. exists o. split; [done|reflexivity].
  - intros [Hu Hf]. by constructor.
Qed.

Lemma calm_completeCancellation id : calm (fun _ => True) (completeCancellation id).
Proof.
  intros d a d' _. unfold completeCancellation.
  destruct (dbCancellations d !! id) as [work|]; [|intros [= _ <-]; reflexivity].
  destruct (icCompleted work); [intros [= _ <-]; reflexivity|].
  intros H. transitivity (set_cancellations d
    (<[id := mkCancellation (icOrderID work) (icRef work) true]> (dbCancellations d)));
    [apply quiet_cancellations|]. revert H.
  destruct (_ =? 0); [|intros [= _ <-]; reflexivity].
  match goal with |- ?m _ = _ -> _ => assert (Hm : calm (fun _ => True) m) end.
  { calm. apply calm_Updates_open; [open_rows|done]. }
  by apply Hm.
Qed.

Lemma calm_queueCancellations P id l : calm P (queueCancellations id l).
Proof.
  intros d a d' _. revert d a d'. induction l as [|c l IH]; intros d a d'; simpl; [intros [= _ <-]; reflexivity|].
  destruct (negb _); [apply IH|]. destruct (cancellation_for _ d) as [x|].
  - destruct (negb _); [done|apply IH].
  - intros H%IH. etransitivity; [apply quiet_cancellations|exact H].
Qed.

(** ** The credit and the revocation of one order *)
Lemma updated_by_id id p cols m o :
  m !! id = Some o -> p o = true -> updated (by_id id p) cols m = <[id := Updates_of cols o]> m.
Proof.
  intros Ho Hp. apply map_eq. intros j. rewrite updated_lookup. unfold by_id.
  destruct (decide (j = id)) as [->|Hne].
  - rewrite lookup_insert_eq, Ho. simpl. by rewrite Z.eqb_refl, Hp.
  - rewrite lookup_insert_ne by done. apply Z.eqb_neq in Hne. rewrite Hne. by destruct (m !! j).
Qed.

(** An update by identity that affects one row. *)
Lemma Updates_one id p cols d n d' :
  Updates (by_id id p) cols d = Ok (n, d') -> n <> 0 -> wf d ->
  exists o, dbOrders d !! id = Some o /\ p o = true /\ n = 1 /\
    d' = set_orders d (<[id := Updates_of cols o]> (dbOrders d)) /\ wf d'.
Proof.
  intros (-> & -> & Hu)%Updates_inv Hn Hwf. rewrite selected_by_id in *.
  destruct (dbOrders d !! id) as [o|] eqn:Ho; [|done]. destruct (p o) eqn:Hp; [|done].
  exists o. pose proof (updated_fresh _ _ _ Hwf Hu) as Hwf'.
  rewrite (updated_by_id _ _ _ _ _ Ho Hp) in *. split_and!; done.
Qed.

(** The columns of a credited order. *)
Definition granted_columns (charge : string) (now : Z) (usage : option (Z * Z)) : list column :=
  [ColStatus StatusPaid; ColPaidAt now; ColProviderChargeID charge] ++
  match usage with Some (up, down) => [ColGrantedUp up; ColGrantedDown down] | None => [] end.

(** The whole effect of crediting order [id], which was [o]. *)
Record credit (id : Z) (charge : string) (now : Z) (actor : string) (d d' : database) (r : AppliedOrderResult)
  (o : PaymentOrder) (client : Client) (grant : Tariff) (updates : clientUpdates) (usage : option (Z * Z)) : Prop :=
  mkCredit {
  credit_order : dbOrders d !! id = Some o;
  credit_pending : oStatus o = StatusPending;
  credit_grant : grantForOrder o = Ok grant;
  credit_client : dbClients d !! oClientId o = Some client;
  credit_updates : BuildPaidClientUpdates client grant now = Ok (updates, usage);
  credit_orders : dbOrders d' = <[id := Updates_of (granted_columns charge now usage) o]> (dbOrders d);
  credit_clients : dbClients d' = <[oClientId o := applyClientUpdates client (sqlAccess client updates)]> (dbClients d);
  credit_changes : dbChanges d' = dbChanges d ++ [mkChange now actor "renew" (cName client)];
  credit_result : r = mkApplied true (oTelegramUserId o) (cInbounds client);
  credit_wf : wf d'
}.

Lemma grantForOrder_terms o o' : terms o' = terms o -> grantForOrder o' = grantForOrder o.
Proof. unfold terms, grantForOrder. intros [= _ _ H1 H2 H3 H4]. by rewrite H1, H2, H3, H4. Qed.

Lemma alter_insert {V : Type} (m : gmap Z V) (f : V -> V) k v : m !! k = Some v -> alter f k m = <[k := f v]> m.
Proof.
  intros Hk. apply map_eq. intros j. destruct (decide (j = k)) as [->|Hne].
  - by rewrite lookup_alter_eq, Hk, lookup_insert_eq.
  - by rewrite lookup_alter_ne, lookup_insert_ne by done.
Qed.

Lemma applyGrant_credit id charge now actor d r d' :
  wf d -> applyGrant id charge now actor d = Ok (r, d') ->
  exists o client grant updates usage, credit id charge now actor d d' r o client grant updates usage.
Proof.
  intros Hwf. unfold applyGrant, tx_bind at 1.
  destruct (Updates _ _ d) as [[n d1]|] eqn:E1; [|done].
  destruct (Z.eqb_spec n 1) as [->|]; [simpl|done].
  apply Updates_one in E1 as (o & Ho & Hp%has_status_eq & _ & -> & Hwf1); [|done..].
  set (o1 := Updates_of _ o). unfold tx_bind, FirstOrder at 1. simpl. rewrite lookup_insert_eq.
  unfold lift_result. rewrite (grantForOrder_terms o o1) by apply Updates_of_terms.
  destruct (grantForOrder o) as [grant|] eqn:Eg; [|done]. unfold FirstClient. simpl.
  destruct (dbClients d !! oClientId o) as [client|] eqn:Ec; [|done].
  destruct (BuildPaidClientUpdates client grant now) as [[u usage]|] eqn:Eb; [|done].
  assert (Hal : alter (fun c => applyClientUpdates c (sqlAccess c u)) (oClientId o) (dbClients d) =
                <[oClientId o := applyClientUpdates client (sqlAccess client u)]> (dbClients d)).
  { by rewrite (alter_insert _ _ _ _ Ec). }
  destruct usage as [[up down]|].
  - destruct (Updates _ _ _) as [[n d2]|] eqn:E2; [|done].
    apply Updates_inv in E2 as (-> & _ & Hu). intros [= <- <-].
    pose proof (updated_fresh _ _ _ Hwf1 Hu) as Hwf2.
    exists o, client, grant, u, (Some (up, down)). split; try done; simpl in *.
    + rewrite (updated_by_id _ _ _ _ o1) by (done || apply lookup_insert_eq).
      by rewrite insert_insert_eq.
    + destruct Hwf2. by constructor.
  - intros [= <- <-]. exists o, client, grant, u, None. split; try done. destruct Hwf1. by constructor.
Qed.

(** Whether a refund takes the grant back: a claimed refund keeps the choice made
    when it was claimed. *)
Definition revokes (token : string) (revoke : bool) (o : PaymentOrder) : bool :=
  if negb (String.eqb token "") then oRefundRevoke o else revoke.

Definition refunded_columns : list column := [ColStatus StatusRefunded; ColRefundClaim ""; ColRefundClaimUntil 0].

(** The whole effect of refunding order [id], which was [o]. *)
Record refund (id : Z) (status : Status) (token : string) (revoke : bool) (now : Z) (d d' : database)
  (o : PaymentOrder) (grant : Tariff) : Prop := mkRefund {
  refund_order : dbOrders d !! id = Some o;
  refund_status : oStatus o = status;
  refund_claim : token = "" \/ oRefundClaim o = token;
  refund_grant : grantForOrder o = Ok grant;
  refund_orders : dbOrders d' = <[id := Updates_of refunded_columns o]> (dbOrders d);
  refund_clients :
    if revokes token revoke o then
      exists client restore, dbClients d !! oClientId o = Some client /\
        restore = (if 0 <? tAddTrafficBytes grant then newerTrafficOrders o id d' =? 0 else true) /\
        dbClients d' = <[oClientId o :=
          applyClientUpdates client (BuildRefundClientUpdates client o grant now restore)]> (dbClients d)
    else dbClients d' = dbClients d;
  refund_wf : wf d'
}.

Lemma no_updates_apply c o t now b u :
  u = BuildRefundClientUpdates c o t now b -> no_updates u = true -> applyClientUpdates c u = c.
Proof.
  intros ->. unfold BuildRefundClientUpdates, no_updates, applyClientUpdates.
  destruct (0 <? tAddTrafficBytes t); simpl; [by destruct (_ && _)|].
  destruct (_ && _); [done|]. intros _. by destruct c.
Qed.

Lemma refundGrant_refund id status token revoke now actor d s d' :
  wf d -> refundGrant id status token revoke now actor d = Ok (s, d') ->
  exists o grant, refund id status token revoke now d d' o grant.
Proof.
  intros Hwf. unfold refundGrant, tx_bind at 1.
  destruct (Updates _ _ d) as [[n d1]|] eqn:E1; [|done].
  destruct (Z.eqb_spec n 1) as [->|]; [simpl|done].
  apply Updates_one in E1 as (o & Ho & Hp & _ & -> & Hwf1); [|done..].
  apply andb_true_iff in Hp as [Hs%has_status_eq Ht].
  assert (Hclaim : token = "" \/ oRefundClaim o = token).
  { apply orb_true_iff in Ht as [?%String.eqb_eq|?%String.eqb_eq]; tauto. }
  set (o1 := Updates_of _ o). unfold tx_bind, FirstOrder at 1. simpl. rewrite lookup_insert_eq.
  change (if negb (String.eqb token "") then oRefundRevoke o1 else revoke) with (revokes token revoke o).
  unfold lift_result. rewrite (grantForOrder_terms o o1) by apply Updates_of_terms.
  destruct (grantForOrder o) as [grant|] eqn:Eg; [|done]. simpl.
  destruct (revokes token revoke o) eqn:Er; simpl.
  2:{ intros [= <- <-]. exists o, grant. split; try done. by rewrite Er. }
  unfold FirstClient. simpl. destruct (dbClients d !! oClientId o) as [client|] eqn:Ec; [|done].
  change (newerTrafficOrders o1 id) with (newerTrafficOrders o id).
  change (BuildRefundClientUpdates client o1) with (BuildRefundClientUpdates client o).
  set (restore := if 0 <? tAddTrafficBytes grant then _ else true).
  destruct (no_updates _) eqn:En.
  - intros [= <- <-]. exists o, grant. split; try done. rewrite Er. exists client, restore. split_and!; try done.
    rewrite (no_updates_apply _ _ _ _ _ _ eq_refl En). simpl. by rewrite insert_id.
  - intros [= <- <-]. exists o, grant. split; try done.
    + rewrite Er. exists client, restore. split_and!; try done. simpl. by rewrite (alter_insert _ _ _ _ Ec).
    + destruct Hwf1. by constructor.
Qed.

(** ** Recovery is quiet or ends in one credit *)
Definition recovers (P : database -> Prop) (id now : Z) (m : Tx AppliedOrderResult) : Prop :=
  forall d r d', wf d -> P d -> m d = Ok (r, d') ->
    (arApplied r = false /\ quiet d d') \/
    (exists charge actor d1, charge <> "" /\ quiet d d1 /\ applyGrant id charge now actor d1 = Ok (r, d')).

Lemma recovers_bind {A : Type} P id now (m : Tx A) k :
  stable P -> calm P m -> (forall a, recovers P id now (k a)) -> recovers P id now (tx_bind m k).
Proof.
  intros Hst Hm Hk d r d' Hwf HP. unfold tx_bind. destruct (m d) as [[a d1]|e] eqn:E; [|done]. intros Hr.
  specialize (Hm _ _ _ HP E).
  destruct (Hk a d1 r d' (quiet_wf _ _ Hm Hwf) (Hst _ _ Hm HP) Hr) as [[Ha Hq]|(c & ac & d2 & Hc & Hq & Hg)].
  - left. split; [done|]. by transitivity d1.
  - right. exists c, ac, d2. split_and!; [done|by transitivity d1|done].
Qed.

Lemma recovers_quiet P id now : recovers P id now (tx_ret notApplied).
Proof. intros d r d' _ _ [= <- <-]. left. split; [done|reflexivity]. Qed.

Lemma recovers_if P id now (b : bool) m1 m2 :
  recovers P id now m1 -> recovers P id now m2 -> recovers P id now (if b then m1 else m2).
Proof. by destruct b. Qed.

Lemma recovers_on_order id now cols :
  (forall o, settled (oStatus o) = false -> settled (oStatus (Updates_of cols o)) = false) ->
  recovers (open_at id) id now (on_order id cols).
Proof.
  intros Hc. apply recovers_bind; [apply stable_open|by apply calm_open_Updates|]. intros _. apply recovers_quiet.
Qed.

Lemma recovers_review id now reason : recovers (open_at id) id now (review id reason).
Proof. apply recovers_on_order. done. Qed.

Lemma evidence_status refPayload o ref x :
  oStatus (Updates_of (evidence_columns refPayload o ref) x) = oStatus x.
Proof. unfold evidence_columns. by destruct (_ =? 0). Qed.

Lemma Updates_of_app l1 l2 o : Updates_of (l1 ++ l2) o = Updates_of l2 (Updates_of l1 o).
Proof. apply foldl_app. Qed.

#[export] Hint Resolve recovers_review recovers_quiet stable_open calm_queueCancellations : solovey.

Lemma recovers_legacy refPayload id now o active paids :
  recovers (open_at id) id now (recoverLegacy refPayload id o active paids).
Proof.
  unfold recoverLegacy. destruct paids as [|p ps]; (apply recovers_bind; [auto with solovey..|]; intros _).
  - destruct active; by apply recovers_on_order.
  - apply recovers_on_order. intros x _. by rewrite Updates_of_app, evidence_status.
Qed.

Lemma recovers_canonical refPayload id now o active c :
  recovers (open_at id) id now (recoverCanonical refPayload id o active c now).
Proof.
  unfold recoverCanonical. apply recovers_if; [auto with solovey|].
  apply recovers_bind; [auto with solovey| |intros _].
  { apply calm_open_Updates. intros x _. by rewrite Updates_of_app, evidence_status. }
  apply recovers_if; [auto with solovey|]. apply recovers_bind; [auto with solovey..|]. intros _ d r d' _ _ Hg.
  right. eexists _, _, d. split_and!; [|reflexivity|exact Hg]. done.
Qed.

Lemma recoverOrder_recovers refPayload recovered now grace d r d' :
  wf d -> recoverOrder refPayload recovered now grace d = Ok (r, d') ->
  (arApplied r = false /\ quiet d d') \/
  (exists charge actor d1, charge <> "" /\ quiet d d1 /\ applyGrant (rnOrderID recovered) charge now actor d1 = Ok (r, d')).
Proof.
  intros Hwf. unfold recoverOrder. set (id := rnOrderID recovered). unfold tx_bind at 1.
  destruct (Updates _ _ d) as [[n d1]|] eqn:E1; [|done].
  destruct (Z.eqb_spec n 1) as [->|]; [|done]. simpl negb.
  assert (Hq1 : quiet d d1).
  { eapply (calm_Updates_open _ _); [| |exact I|exact E1]; [|done].
    unfold by_id. intros i o Hs. rewrite !andb_true_iff, orb_true_iff, andb_true_iff in Hs.
    destruct Hs as (_ & _ & [Hs|[Hs _]]); [refine (status_in_open _ _ _ Hs); reflexivity|].
    by rewrite (has_status_settled _ _ Hs). }
  apply Updates_one in E1 as (o & Ho & _ & _ & E1 & Hwf1); [|done..].
  assert (Hopen : open_at id d1).
  { intros x. rewrite E1. simpl. rewrite lookup_insert_eq. by intros [= <-]. }
  intros Hr. match type of Hr with ?m d1 = _ => assert (Hm : recovers (open_at id) id now m) end.
  { clear. apply recovers_bind; [auto with solovey|apply calm_first|intros o].
    apply recovers_if; [auto with solovey|].
    destruct (rnCandidates recovered) as [|c cs]; [auto with solovey|].
    destruct (sortCandidates [] (c :: cs)) as [[active paids]|]; [|auto with solovey].
    apply recovers_if; [auto with solovey|]. apply recovers_if; [apply recovers_legacy|].
    destruct (grantForOrder o); [|auto with solovey].
    destruct paids as [|p [|? ?]], active as [|x [|? ?]]; try apply recovers_canonical; auto with solovey;
      (apply recovers_if; [by apply recovers_on_order|auto with solovey]). }
  destruct (Hm _ _ _ Hwf1 Hopen Hr) as [[Ha Hq]|(ch & ac & d2 & Hc & Hq & Hg)].
  - left. split; [done|by transitivity d1].
  - right. exists ch, ac, d2. split_and!; [done|by transitivity d1|done].
Qed.

(** ** Histories *)

(** One call of the store, or an edit of a client's other columns by the panel. *)
Inductive operation :=
| OpApply (id : Z) (charge : string) (now : Z) (actor : string)
| OpRefund (id : Z) (revoke : bool) (now : Z) (actor : string)
| OpFinalizeClaimed (id : Z) (token : string) (now : Z) (actor : string)
| OpClaim (id : Z) (revoke : bool) (token : string) (now : Z)
| OpRelease (id : Z) (token : string)
| OpCreate (client tariff : Z) (t : Tariff) (kind : string) (amount : Z) (currency : string) (tg : Z)
    (key : string) (now ttl : Z)
| OpIntent (o : PaymentOrder)
| OpUncertain (id : Z)
| OpSaveInvoice (id : Z) (invoice : option (string * string)) (payload : string)
| OpFail (id : Z)
| OpReview (ids : list Z)
| OpExpire (now : Z)
| OpCancelled (id : Z)
| OpRecover (recovered : Reconciliation) (now grace : Z)
| OpExpireVerified (ids : list Z) (now grace : Z)
| OpEdit (id : Z) (edit : Client).

(** What a caller that got a successful result did to the ledger. *)
Inductive event :=
| Credited (id client traffic : Z) (provider charge : string)
| Refunded (id : Z) (revoked : bool).

Definition credit_event (id : Z) (r : result storeError AppliedOrderResult) (d' : database) : list event :=
  match r, dbOrders d' !! id with
  | Ok res, Some o =>
      if arApplied res
      then [Credited id (oClientId o) (oGrantTraffic o) (oProvider o) (oProviderChargeID o)] else []
  | _, _ => []
  end.

Definition refund_event {A : Type} (id : Z) (token : string) (revoke : bool) (r : result storeError A)
  (d : database) : list event :=
  match r, dbOrders d !! id with
  | Ok _, Some o => [Refunded id (revokes token revoke o)]
  | _, _ => []
  end.

(** An edit keeps the volume. *)
Definition edited (edit c : Client) : Client :=
  mkClient (cEnable edit) (cAccessDisableReason edit) (cName edit) (cInbounds edit) (cVolume c) (cExpiry edit)
    (cDown edit) (cUp edit) (cTotalUp edit) (cTotalDown edit).

Section Histories.
Context (refPayload : string -> string).

Definition step (op : operation) (d : database) : list event * database :=
  match op with
  | OpApply id charge now actor =>
      let '(r, d') := ApplyPaidOrderGrant id charge now actor d in (credit_event id r d', d')
  | OpRefund id revoke now actor =>
      let '(r, d') := FinalizeRefundGrant id revoke now actor d in (refund_event id "" revoke r d, d')
  | OpFinalizeClaimed id token now actor =>
      let '(r, d') := FinalizeClaimedRefundGrant id token now actor d in (refund_event id token false r d, d')
  | OpClaim id revoke token now => ([], (ClaimStarsRefund id revoke token now d).2)
  | OpRelease id token => ([], (ReleaseRefundClaim id token d).2)
  | OpCreate client tariff t kind amount currency tg key now ttl =>
      ([], (Transaction (CreateOrder (NewPendingOrder client tariff t kind amount currency tg key now ttl)) d).2)
  | OpIntent o => ([], (CreateInvoiceIntent o d).2)
  | OpUncertain id => ([], (MarkInvoiceRecoverable id d).2)
  | OpSaveInvoice id invoice payload => ([], (SaveInvoiceResult id invoice payload d).2)
  | OpFail id => ([], (MarkOrderFailed id d).2)
  | OpReview ids => ([], (ReviewProviderOrders ids d).2)
  | OpExpire now => ([], (ExpireStaleOrders now d).2)
  | OpCancelled id => ([], (CompleteCancellation id d).2)
  | OpRecover recovered now grace =>
      let '(r, d') := RecoverProviderOrder refPayload recovered now grace d in
      (credit_event (rnOrderID recovered) r d', d')
  | OpExpireVerified ids now grace => ([], (ExpireVerifiedProviderOrders ids now grace d).2)
  | OpEdit id edit => ([], set_clients d (alter (edited edit) id (dbClients d)))
  end.

Fixpoint run (ops : list operation) (d : database) : list event * database :=
  match ops with
  | [] => ([], d)
  | op :: rest =>
      let '(e1, d1) := step op d in
      let '(e2, d2) := run rest d1 in (e1 ++ e2, d2)
  end.

End Histories.

(** ** The abstract ledger *)
Inductive entry_state := Held | Kept | Revoked.

#[export] Instance entry_state_eq_dec : EqDecision entry_state.
Proof. solve_decision. Defined.

Record entry := mkEntry {
  eId : Z; eClient : Z; eTraffic : Z; eProvider : string; eCharge : string; eState : entry_state
}.

Definition same_charge (p c : string) (e : entry) : bool := String.eqb (eProvider e) p && String.eqb (eCharge e) c.

(** A refund closes an entry that is held; any other refund is refused. *)
Fixpoint close_entry (id : Z) (revoked : bool) (l : list entry) : option (list entry) :=
  match l with
  | [] => None
  | e :: l' =>
      if eId e =? id then
        if bool_decide (eState e = Held)
        then Some (mkEntry (eId e) (eClient e) (eTraffic e) (eProvider e) (eCharge e)
                     (if revoked then Revoked else Kept) :: l')
        else None
      else l'' ← close_entry id revoked l'; Some (e :: l'')
  end.

(** The ledger credits an order once, a charge once, and closes an entry once. *)
Definition post (l : list entry) (e : event) : option (list entry) :=
  match e with
  | Credited id client traffic provider charge =>
      if existsb (fun x => (eId x =? id) || same_charge provider charge x) l then None
      else Some (mkEntry id client traffic provider charge Held :: l)
  | Refunded id revoked => close_entry id revoked l
  end.

Fixpoint posts (l : list entry) (es : list event) : option (list entry) :=
  match es with
  | [] => Some l
  | e :: es' => l' ← post l e; posts l' es'
  end.

(** The traffic a client holds. *)
Definition entry_value (c : Z) (e : entry) : Z :=
  if (eClient e =? c) && negb (bool_decide (eState e = Revoked)) then eTraffic e else 0.

Fixpoint balance (c : Z) (l : list entry) : Z :=
  match l with
  | [] => 0
  | e :: l' => entry_value c e + balance c l'
  end.

Lemma posts_app es1 es2 l : posts l (es1 ++ es2) = l' ← posts l es1; posts l' es2.
Proof. revert l. induction es1 as [|e es1 IH]; intros l; simpl; [done|]. destruct (post l e); simpl; auto. Qed.

(** Closing an entry: what it becomes and what the others stay. *)
Lemma close_entry_spec id revoked l e :
  e ∈ l -> eId e = id -> eState e = Held -> NoDup (eId <$> l) ->
  exists l', close_entry id revoked l = Some l' /\ eId <$> l' = eId <$> l /\
    (forall c, balance c l' = balance c l - (if revoked && (eClient e =? c) then eTraffic e else 0)) /\
    (forall x, x ∈ l' -> (x ∈ l /\ eId x <> id) \/
       x = mkEntry id (eClient e) (eTraffic e) (eProvider e) (eCharge e) (if revoked then Revoked else Kept)).
Proof.
  intros Hin Hid Hst. revert Hin. induction l as [|x l IH]; intros Hin Hnd; [set_solver|].
  simpl in *. apply NoDup_cons in Hnd as [Hx Hnd]. apply elem_of_cons in Hin as [<-|Hin].
  - rewrite Hid, Z.eqb_refl, (bool_decide_eq_true_2 _ Hst). eexists. split; [done|]. simpl. split_and!.
    + done.
    + intros c. unfold entry_value. simpl. rewrite Hst. destruct (eClient e =? c), revoked; simpl; lia.
    + intros y [->|Hy]%elem_of_cons; [by right|left]. split; [set_solver|]. intros Hyid.
      apply Hx. apply list_elem_of_fmap. exists y. split; [congruence|done].
  - destruct (Z.eqb_spec (eId x) id) as [Hxid|Hne].
    { exfalso. apply Hx. apply list_elem_of_fmap. exists e. split; [congruence|done]. }
    destruct (IH Hin Hnd) as (l' & -> & Hids & Hbal & Hel). eexists. split; [done|]. simpl. split_and!.
    + f_equal. exact Hids.
    + intros c. rewrite Hbal. lia.
    + intros y [->|Hy]%elem_of_cons; [left; set_solver|]. destruct (Hel y Hy) as [[? ?]|?]; [left; set_solver|by right].
Qed.

Lemma balance_nonneg c l : (forall e, e ∈ l -> 0 <= eTraffic e) -> 0 <= balance c l.
Proof.
  induction l as [|e l IH]; intros H; simpl; [lia|]. specialize (IH ltac:(set_solver)).
  specialize (H e ltac:(set_solver)). unfold entry_value. destruct (_ && _); lia.
Qed.

Lemma balance_ge c l e :
  (forall x, x ∈ l -> 0 <= eTraffic x) -> e ∈ l -> eClient e = c -> eState e = Held -> eTraffic e <= balance c l.
Proof.
  intros Hn Hin Hc Hs. induction l as [|x l IH]; [set_solver|]. simpl.
  apply elem_of_cons in Hin as [<-|Hin].
  - pose proof (balance_nonneg c l ltac:(set_solver)). unfold entry_value.
    rewrite (proj2 (Z.eqb_eq _ _) Hc), Hs. simpl. lia.
  - specialize (IH ltac:(set_solver) Hin). specialize (Hn x ltac:(set_solver)). unfold entry_value.
    destruct (_ && _); lia.
Qed.

(** ** The simulation *)
Definition status_of_entry (s : entry_state) (st : Status) : Prop :=
  match s with
  | Held => st = StatusPaid \/ st = StatusRefundPending
  | Kept | Revoked => st = StatusRefunded
  end.

(** The order that an entry stands for. *)
Definition backs (e : entry) (o : PaymentOrder) : Prop :=
  eClient e = oClientId o /\ eTraffic e = oGrantTraffic o /\ eProvider e = oProvider o /\
  eCharge e = oProviderChargeID o /\ eCharge e <> "" /\ 0 <= eTraffic e /\ status_of_entry (eState e) (oStatus o).

Record sim (base : gmap Z Z) (d : database) (l : list entry) : Prop := mkSim {
  sim_wf : wf d;
  sim_ids : NoDup (eId <$> l);
  sim_entries : forall e, e ∈ l -> exists o, dbOrders d !! eId e = Some o /\ backs e o;
  sim_settled : forall id o, dbOrders d !! id = Some o -> settled (oStatus o) = true -> exists e, e ∈ l /\ eId e = id;
  sim_volume : forall c, cVolume <$> dbClients d !! c = (fun b => b + balance c l) <$> base !! c;
  sim_base : forall c b, base !! c = Some b -> 0 <= b;
  sim_range : forall c client, dbClients d !! c = Some client -> cVolume client <= int64_max
}.

Lemma backs_keeps e o o' : backs e o -> keeps o o' -> backs e o'.
Proof.
  intros (H1 & H2 & H3 & H4 & H5 & H6 & H7) [Ht Hs _]. unfold terms in Ht. injection Ht as T1 T2 T3 T4 T5 T6.
  assert (Hset : settled (oStatus o) = true) by (destruct (eState e); [destruct H7 as [->| ->]|rewrite H7..]; done).
  destruct (Hs Hset) as [Hc Hst]. unfold backs. rewrite T1, T2, T4, Hc. split_and!; try done.
  destruct (eState e); [|rewrite H7 in Hst..]; simpl in *; intuition congruence.
Qed.

Lemma sim_quiet base d d' l : sim base d l -> quiet d d' -> sim base d' l.
Proof.
  intros [W I E S V B R] [C O N Wq]. constructor; auto.
  - intros e He. destruct (E e He) as (o & Ho & Hb). destruct (O _ _ Ho) as (o' & Ho' & K).
    exists o'. split; [done|by eapply backs_keeps].
  - intros id o' Ho' Hs. destruct (dbOrders d !! id) as [o|] eqn:Ho.
    + destruct (O _ _ Ho) as (o2 & Ho2 & K). assert (o2 = o') as -> by congruence. apply (S id o Ho).
      destruct (settled (oStatus o)) eqn:Eo; [done|]. by rewrite (keeps_open _ _ K Eo) in Hs.
    + by rewrite (N _ _ Ho' Ho) in Hs.
  - intros c. by rewrite C.
  - intros c client. rewrite C. apply R.
Qed.

Lemma sim_edit base d l id edit : sim base d l -> sim base (set_clients d (alter (edited edit) id (dbClients d))) l.
Proof.
  intros [[Wu Wf] I E S V B R]. constructor; try done; simpl.
  - intros c. rewrite <- V. destruct (decide (c = id)) as [->|Hne].
    + rewrite lookup_alter_eq. by destruct (dbClients d !! id).
    + by rewrite lookup_alter_ne.
  - intros c client. destruct (decide (c = id)) as [->|Hne].
    + rewrite lookup_alter_eq. destruct (dbClients d !! id) as [c0|] eqn:E0; simpl; [|done].
      intros [= <-]. simpl. eauto.
    + rewrite lookup_alter_ne by done. apply R.
Qed.

Lemma grantForOrder_inv o grant :
  grantForOrder o = Ok grant ->
  grant = mkTariff (oGrantAddDays o) (oGrantTraffic o) /\ 0 <= oGrantTraffic o /\ 0 <= oGrantAddDays o /\
  oGrantAddDays o <= int64_max / seconds_per_day /\ 0 < oAmount o /\ oGrantSnapshot o = true.
Proof.
  unfold grantForOrder. destruct (oGrantSnapshot o); [|done]. destruct (_ || _) eqn:E; [done|].
  intros [= <-]. bools. destruct_and?. split_and!; done || lia.
Qed.

(** The volume after a grant. *)
Lemma BuildPaid_volume client grant now u usage :
  BuildPaidClientUpdates client grant now = Ok (u, usage) -> 0 <= tAddTrafficBytes grant ->
  cVolume client <= int64_max ->
  default (cVolume client) (uVolume u) = cVolume client + tAddTrafficBytes grant /\
  cVolume client + tAddTrafficBytes grant <= int64_max.
Proof.
  unfold BuildPaidClientUpdates. intros Hb Hnn Hmax.
  destruct (grantExpiry client grant now) as [ex|]; [simpl in Hb|done].
  destruct (Z.ltb_spec 0 (tAddTrafficBytes grant)).
  - unfold addNonNegative in Hb. destruct (_ || _ || _) eqn:E1 in Hb; [done|simpl in Hb].
    destruct (_ || _ || _) in Hb; [done|simpl in Hb]. destruct (_ || _ || _) in Hb; [done|simpl in Hb].
    injection Hb as <- <-. simpl. bools. lia.
  - injection Hb as <- <-. simpl. lia.
Qed.

Lemma charge_conflict o p :
  oProvider o = oProvider p -> oProviderChargeID o = oProviderChargeID p -> oProviderChargeID o <> "" ->
  conflict o p = true.
Proof.
  intros Hp Hc Hn. unfold conflict. rewrite Hp, Hc, !String.eqb_refl. apply String.eqb_neq in Hn.
  rewrite <- Hc, Hn. by rewrite orb_true_r.
Qed.

Lemma granted_columns_of charge now usage o :
  let o' := Updates_of (granted_columns charge now usage) o in
  oStatus o' = StatusPaid /\ oProviderChargeID o' = charge /\ oClientId o' = oClientId o /\
  oGrantTraffic o' = oGrantTraffic o /\ oProvider o' = oProvider o.
Proof. unfold granted_columns. by destruct usage as [[? ?]|]. Qed.

Lemma existsb_false {A : Type} (p : A -> bool) l : (forall x, x ∈ l -> p x = false) -> existsb p l = false.
Proof.
  induction l as [|x l IH]; intros H; simpl; [done|]. rewrite (H x) by set_solver. apply IH. set_solver.
Qed.

Lemma backs_settled e o : backs e o -> settled (oStatus o) = true.
Proof. intros (_ & _ & _ & _ & _ & _ & H). destruct (eState e); [destruct H as [->| ->]|rewrite H..]; done. Qed.

Section SimCredit.
Context (base : gmap Z Z) (id : Z) (charge : string) (now : Z) (actor : string) (d d' : database)
  (r : AppliedOrderResult) (o : PaymentOrder) (client : Client) (grant : Tariff) (updates : clientUpdates)
  (usage : option (Z * Z)) (l : list entry).
Context (Hsim : sim base d l) (Hcharge : charge <> "")
  (Hcredit : credit id charge now actor d d' r o client grant updates usage).

Lemma credit_entry_other x : x ∈ l -> eId x <> id.
Proof.
  intros Hx Heq. destruct (sim_entries _ _ _ Hsim x Hx) as (p & Hp & Hb%backs_settled).
  rewrite Heq, (credit_order _ _ _ _ _ _ _ _ _ _ _ _ Hcredit) in Hp. injection Hp as <-.
  by rewrite (credit_pending _ _ _ _ _ _ _ _ _ _ _ _ Hcredit) in Hb.
Qed.

Lemma credit_accepted :
  post l (Credited id (oClientId o) (oGrantTraffic o) (oProvider o) charge) =
  Some (mkEntry id (oClientId o) (oGrantTraffic o) (oProvider o) charge Held :: l).
Proof.
  simpl. rewrite existsb_false; [done|]. intros x Hx. pose proof (credit_entry_other x Hx) as Hne.
  apply orb_false_iff. split; [by apply Z.eqb_neq|]. unfold same_charge.
  destruct (sim_entries _ _ _ Hsim x Hx) as (p & Hp & _ & _ & Hprov & Hch & _).
  destruct (String.eqb_spec (eProvider x) (oProvider o)) as [E1|]; [simpl|done].
  destruct (String.eqb_spec (eCharge x) charge) as [E2|]; [exfalso|done].
  destruct Hcredit as [_ _ _ _ _ Ho' _ _ _ [Hu _]]. set (o' := Updates_of _ o) in Ho'.
  destruct (granted_columns_of charge now usage o) as (_ & Hc' & _ & _ & Hpr').
  assert (conflict p o' = false) as Hcf.
  { apply (Hu (eId x) id); [|by rewrite Ho', lookup_insert_eq|done]. rewrite Ho', lookup_insert_ne by done. exact Hp. }
  rewrite charge_conflict in Hcf; [done|subst o'; congruence..].
Qed.

Lemma sim_credit : sim base d' (mkEntry id (oClientId o) (oGrantTraffic o) (oProvider o) charge Held :: l).
Proof.
  pose proof Hcredit as [Ho Hpend Hg Hc Hb Ho' Hc' _ _ Hwf']. pose proof Hsim as [W I E S V B R].
  destruct (grantForOrder_inv _ _ Hg) as (Hgr & Hnn & _).
  destruct (BuildPaid_volume _ _ _ _ _ Hb) as [Hv Hr]; [rewrite Hgr; exact Hnn|by eapply R|].
  assert (Htr : tAddTrafficBytes grant = oGrantTraffic o) by (rewrite Hgr; done). rewrite Htr in Hv, Hr.
  destruct (granted_columns_of charge now usage o) as (G1 & G2 & G3 & G4 & G5).
  set (o' := Updates_of (granted_columns charge now usage) o) in *. clearbody o'.
  constructor; try done.
  - apply NoDup_cons. split; [|done]. intros (x & Hxe & Hx)%list_elem_of_fmap.
    by apply (credit_entry_other x Hx).
  - rewrite Ho'. intros e [->|He]%elem_of_cons.
    + exists o'. simpl. rewrite lookup_insert_eq. split; [done|]. unfold backs. simpl. split_and!; auto.
    + destruct (E e He) as (p & Hp & Hbk). exists p. split; [|done].
      rewrite lookup_insert_ne; [done|]. intros Heq. by apply (credit_entry_other e He).
  - intros j p. rewrite Ho'. intros [[<- _]|[Hne Hp]]%lookup_insert_Some Hs.
    + eexists. split; [apply list_elem_of_here|done].
    + destruct (S j p Hp Hs) as (e & He & <-). exists e. split; [by apply list_elem_of_further|done].
  - intros c. rewrite Hc'. simpl. specialize (V c). destruct (decide (c = oClientId o)) as [->|Hne].
    + rewrite lookup_insert_eq. simpl. unfold entry_value. simpl. rewrite Z.eqb_refl. simpl.
      rewrite Hc in V. destruct (base !! oClientId o); [|done]. simpl in *. injection V as V. f_equal. lia.
    + rewrite lookup_insert_ne by done. rewrite V. destruct (base !! c); simpl; [|done]. f_equal.
      unfold entry_value. simpl. rewrite (proj2 (Z.eqb_neq (oClientId o) c)) by done. simpl. lia.
  - intros c cl. rewrite Hc'. intros [[<- <-]|[_ Hp]]%lookup_insert_Some; [simpl; lia|eauto].
Qed.
End SimCredit.

(** The volume after a revocation that the ledger covers. *)
Lemma BuildRefund_volume client o grant now restore :
  0 <= tAddTrafficBytes grant -> tAddTrafficBytes grant <= cVolume client -> cVolume client <= int64_max ->
  default (cVolume client) (uVolume (BuildRefundClientUpdates client o grant now restore)) =
  cVolume client - tAddTrafficBytes grant.
Proof.
  unfold BuildRefundClientUpdates, int64_max. intros H1 H2 H3.
  destruct (Z.ltb_spec 0 (tAddTrafficBytes grant)); simpl; [|lia].
  rewrite wrap64_id by (unfold in_int64, int64_min, int64_max; lia).
  destruct (Z.ltb_spec (cVolume client - tAddTrafficBytes grant) 0); lia.
Qed.

Lemma sim_refund base id status token revoke now d d' o grant l :
  sim base d l -> refund id status token revoke now d d' o grant ->
  status = StatusPaid \/ status = StatusRefundPending ->
  exists l', post l (Refunded id (revokes token revoke o)) = Some l' /\ sim base d' l'.
Proof.
  intros [W I E S V B R] [Ho Hst _ Hg Ho' Hc' Hwf'] Hstatus.
  destruct (grantForOrder_inv _ _ Hg) as (Hgr & Hnn & _).
  destruct (S id o Ho) as (e & He & Hid); [by rewrite Hst; destruct Hstatus as [->| ->]|].
  destruct (E e He) as (p & Hp & Hbk). rewrite Hid, Ho in Hp. injection Hp as <-.
  pose proof Hbk as (B1 & B2 & B3 & B4 & B5 & B6 & B7).
  assert (Hheld : eState e = Held).
  { destruct (eState e); [done|exfalso; simpl in B7; destruct Hstatus; congruence..]. }
  destruct (close_entry_spec id (revokes token revoke o) l e He Hid Hheld I) as (l' & Hpost & Hids & Hbal & Hel).
  exists l'. split; [done|].
  assert (Hnonneg : forall x, x ∈ l -> 0 <= eTraffic x).
  { intros x Hx. destruct (E x Hx) as (q & _ & Q). apply Q. }
  assert (Htr : tAddTrafficBytes grant = eTraffic e) by (rewrite Hgr; done).
  constructor; try done.
  - by rewrite Hids.
  - rewrite Ho'. intros x Hx. destruct (Hel x Hx) as [[Hxl Hne]| ->].
    + destruct (E x Hxl) as (q & Hq & Hqb). exists q. by rewrite lookup_insert_ne.
    + simpl. rewrite lookup_insert_eq. eexists. split; [done|]. unfold backs. simpl. split_and!; try done.
      by destruct (revokes token revoke o).
  - intros j q. rewrite Ho'. intros Hq Hs. assert (Hj : j ∈ eId <$> l').
    { rewrite Hids. apply lookup_insert_Some in Hq as [[<- _]|[_ Hq]].
      - apply list_elem_of_fmap. by exists e.
      - destruct (S j q Hq Hs) as (x & Hx & <-). apply list_elem_of_fmap. by exists x. }
    apply list_elem_of_fmap in Hj as (x & -> & Hx). by exists x.
  - intros c. rewrite Hbal. specialize (V c). destruct (revokes token revoke o); [|rewrite Hc'; simpl].
    + destruct Hc' as (client & restore & Hcl & _ & Hc'). rewrite Hc', B1.
      destruct (Z.eqb_spec (oClientId o) c) as [<-|Hne]; simpl.
      * rewrite lookup_insert_eq. rewrite Hcl in V. simpl in *.
        destruct (base !! oClientId o) as [b|] eqn:Eb; [|done]. simpl in *. injection V as V. f_equal.
        pose proof (balance_ge (oClientId o) l e Hnonneg He B1 Hheld). pose proof (B _ _ Eb).
        rewrite BuildRefund_volume by (rewrite ?Htr; lia || eauto). lia.
      * rewrite lookup_insert_ne by done. by rewrite Z.sub_0_r.
    + by rewrite Z.sub_0_r.
  - intros c cl. destruct (revokes token revoke o); [|rewrite Hc'; apply R].
    destruct Hc' as (client & restore & Hcl & _ & Hc'). rewrite Hc'.
    intros [[<- <-]|[_ Hq]]%lookup_insert_Some; [|eauto]. simpl.
    pose proof (R _ _ Hcl). unfold BuildRefundClientUpdates. destruct (0 <? _); simpl; [|done].
    destruct (wrap64_range (cVolume client - tAddTrafficBytes grant)).
    destruct (_ <? 0); unfold int64_max in *; lia.
Qed.

Lemma Transaction_quiet {A : Type} (P : database -> Prop) (m : Tx A) d :
  calm P m -> P d -> quiet d (Transaction m d).2.
Proof.
  intros Hm HP. unfold Transaction. destruct (m d) as [[a d']|] eqn:E; simpl; [by eapply Hm|reflexivity].
Qed.

(** The ledger follows one step. *)
Definition followed (base : gmap Z Z) (l : list entry) (es : list event) (d' : database) : Prop :=
  exists l', posts l es = Some l' /\ sim base d' l'.

Lemma followed_quiet base d d' l : sim base d l -> quiet d d' -> followed base l [] d'.
Proof. intros Hs Hq. exists l. split; [done|by eapply sim_quiet]. Qed.

Lemma followed_transaction {A : Type} base P (m : Tx A) d l :
  sim base d l -> calm P m -> P d -> followed base l [] (Transaction m d).2.
Proof. intros. eapply followed_quiet; [done|]. by eapply Transaction_quiet. Qed.

Lemma followed_applyGrant base id charge now actor d r d' l :
  sim base d l -> charge <> "" -> applyGrant id charge now actor d = Ok (r, d') ->
  followed base l (credit_event id (Ok r) d') d'.
Proof.
  intros Hs Hc Hg. destruct (applyGrant_credit _ _ _ _ _ _ _ (sim_wf _ _ _ Hs) Hg) as (o & cl & g & u & us & Hcr).
  unfold credit_event. rewrite (credit_orders _ _ _ _ _ _ _ _ _ _ _ _ Hcr), lookup_insert_eq.
  rewrite (credit_result _ _ _ _ _ _ _ _ _ _ _ _ Hcr). simpl arApplied. cbv iota.
  destruct (granted_columns_of charge now us o) as (_ & -> & -> & -> & ->).
  assert (Hp : post l (Credited id (oClientId o) (oGrantTraffic o) (oProvider o) charge) =
    Some (mkEntry id (oClientId o) (oGrantTraffic o) (oProvider o) charge Held :: l))
    by (eapply credit_accepted; eassumption).
  eexists. split; [|by eapply sim_credit]. unfold posts. by rewrite Hp.
Qed.

Lemma followed_refund base id status token revoke now actor d l :
  sim base d l -> status = StatusPaid \/ status = StatusRefundPending ->
  let '(r, d') := finalizeRefundGrant id status token revoke now actor d in
  followed base l (refund_event id token revoke r d) d'.
Proof.
  intros Hs Hst. unfold finalizeRefundGrant, Transaction.
  destruct (refundGrant _ _ _ _ _ _ d) as [[s d']|] eqn:E.
  - destruct (refundGrant_refund _ _ _ _ _ _ _ _ _ (sim_wf _ _ _ Hs) E) as (o & g & Hr).
    unfold refund_event. rewrite (refund_order _ _ _ _ _ _ _ _ _ Hr).
    destruct (sim_refund _ _ _ _ _ _ _ _ _ _ _ Hs Hr Hst) as (l' & Hp & Hs'). exists l'. split; [|done].
    simpl in *. by rewrite Hp.
  - by apply followed_quiet with d.
Qed.

Lemma followed_recover base refPayload recovered now grace d l :
  sim base d l ->
  let '(r, d') := RecoverProviderOrder refPayload recovered now grace d in
  followed base l (credit_event (rnOrderID recovered) r d') d'.
Proof.
  intros Hs. unfold RecoverProviderOrder, Transaction.
  destruct (recoverOrder refPayload recovered now grace d) as [[r d']|e] eqn:E.
  - destruct (recoverOrder_recovers _ _ _ _ _ _ _ (sim_wf _ _ _ Hs) E) as [[Ha Hq]|(ch & ac & d1 & Hc & Hq & Hg)].
    + unfold credit_event. rewrite Ha. destruct (dbOrders d' !! _); by eapply followed_quiet.
    + eapply followed_applyGrant; [by eapply sim_quiet|done..].
  - destruct e; unfold credit_event; simpl; try (by apply followed_quiet with d).
    destruct (dbOrders d !! _); by apply followed_quiet with d.
Qed.

Lemma step_followed base refPayload op d l :
  sim base d l -> followed base l (step refPayload op d).1 (step refPayload op d).2.
Proof.
  intros Hs. pose proof (sim_wf _ _ _ Hs) as Hwf. destruct op; simpl.
  - unfold ApplyPaidOrderGrant. destruct (String.eqb_spec charge "") as [->|Hc]; [by eapply followed_quiet|].
    unfold Transaction. destruct (applyGrant id charge now actor d) as [[r d']|] eqn:E; simpl.
    + by eapply followed_applyGrant.
    + by apply followed_quiet with d.
  - unfold FinalizeRefundGrant.
    pose proof (followed_refund base id StatusPaid "" revoke now actor d l Hs (or_introl eq_refl)).
    by destruct (finalizeRefundGrant _ _ _ _ _ _ d).
  - unfold FinalizeClaimedRefundGrant. destruct (String.eqb token ""); [by eapply followed_quiet|].
    pose proof (followed_refund base id StatusRefundPending token false now actor d l Hs (or_intror eq_refl)).
    by destruct (finalizeRefundGrant _ _ _ _ _ _ d).
  - unfold ClaimStarsRefund. destruct (String.eqb token ""); [by eapply followed_quiet|].
    by eapply followed_transaction; [|apply calm_claimRefund|].
  - by eapply followed_transaction; [|apply calm_release|].
  - by eapply followed_transaction; [|apply calm_CreateOrder|].
  - by eapply followed_transaction; [|apply calm_createIntent|].
  - eapply followed_transaction; [done|apply calm_Updates_open; [open_rows|done]|done].
  - destruct invoice as [[url ref]|]; [|by eapply followed_quiet].
    by eapply followed_transaction; [|apply calm_saveInvoice|].
  - by eapply followed_transaction; [|apply calm_markFailed|].
  - eapply followed_transaction; [done|apply calm_Updates_open; [open_rows|done]|done].
  - eapply followed_transaction; [done|apply calm_Updates_open; [open_rows|done]|done].
  - by eapply followed_transaction; [|apply calm_completeCancellation|].
  - pose proof (followed_recover base refPayload recovered now grace d l Hs).
    by destruct (RecoverProviderOrder _ _ _ _ d).
  - eapply followed_transaction; [done|apply calm_Updates_open; [open_rows|done]|done].
  - exists l. split; [done|by apply sim_edit].
Qed.

Lemma run_followed base refPayload ops d l :
  sim base d l -> followed base l (run refPayload ops d).1 (run refPayload ops d).2.
Proof.
  revert d l. induction ops as [|op ops IH]; intros d l Hs; simpl; [by exists l|].
  pose proof (step_followed base refPayload op d l Hs) as (l1 & Hp1 & Hs1).
  destruct (step refPayload op d) as [e1 d1]. simpl in *.
  destruct (IH d1 l1 Hs1) as (l2 & Hp2 & Hs2). destruct (run refPayload ops d1) as [e2 d2]. simpl in *.
  exists l2. split; [|done]. rewrite posts_app, Hp1. exact Hp2.
Qed.

(** A database from which the ledger starts empty. *)
Definition unpaid (d : database) : Prop :=
  wf d /\ (forall id o, dbOrders d !! id = Some o -> settled (oStatus o) = false) /\
  (forall c client, dbClients d !! c = Some client -> 0 <= cVolume client <= int64_max).

Lemma unpaid_sim d : unpaid d -> sim (cVolume <$> dbClients d) d [].
Proof.
  intros (W & O & V). constructor; try done.
  - apply NoDup_nil_2.
  - intros e He. by apply elem_of_nil in He.
  - intros id o Ho Hs. by rewrite (O id o Ho) in Hs.
  - intros c. rewrite lookup_fmap. destruct (dbClients d !! c); simpl; [f_equal; lia|done].
  - intros c b. rewrite lookup_fmap. destruct (dbClients d !! c) as [cl|] eqn:E; [|done]. intros [= <-].
    by apply (V c).
  - intros c cl H. by apply (V c).
Qed.

(** C5: every history of store calls (creating, cancelling, recovering, crediting, claiming and refunding orders,
    failures included) interleaved with edits of the clients' other columns is a history of the abstract ledger,
    which credits an order at most once, lets a provider's charge pay for at most one order, and closes a credit at
    most once; and each client's quota is its initial quota plus the traffic of the orders credited to it and not
    revoked. *)
Theorem payments_refine_ledger refPayload ops d :
  unpaid d ->
  exists l, posts [] (run refPayload ops d).1 = Some l /\
    forall c, cVolume <$> dbClients (run refPayload ops d).2 !! c =
              (fun client => cVolume client + balance c l) <$> dbClients d !! c.
Proof.
  intros Hu. destruct (run_followed _ refPayload ops d [] (unpaid_sim d Hu)) as (l & Hp & Hs).
  exists l. split; [done|]. intros c. rewrite (sim_volume _ _ _ Hs c), lookup_fmap. by destruct (dbClients d !! c).
Qed.

Module PaymentsExample.
Definition reader : Client := mkClient false "QUOTA_EXHAUSTED" "reader" "[1]" 100 1000 30 20 5 6.

Definition shop : database := mkDatabase ∅ {[ 7 := reader ]} ∅ [] 1 1.

Definition stars_order (key : string) : operation :=
  OpCreate 7 1 (mkTariff 30 500) ProviderStars 250 "XTR" 42 key 2000 30.

(** Two purchases; a repeated confirmation, a confirmation of the second order with the first one's charge and a
    payment of a failed order change nothing; the first purchase is refunded and revoked once. *)
Definition afternoon : list operation :=
  [stars_order "a"; stars_order "b"; OpApply 1 "tg:x" 2100 "bot"; OpApply 1 "tg:x" 2101 "bot";
   OpApply 2 "tg:x" 2102 "bot"; OpApply 2 "tg:y" 2103 "bot"; OpApply 3 "tg:z" 2104 "bot";
   OpClaim 1 true "t1" 2200; OpClaim 1 true "t2" 2210; OpFinalizeClaimed 1 "t2" 2211 "admin";
   OpFinalizeClaimed 1 "t1" 2212 "admin"; OpFinalizeClaimed 1 "t1" 2213 "admin"].

Lemma afternoon_events :
  (run id afternoon shop).1 =
  [Credited 1 7 500 ProviderStars "tg:x"; Credited 2 7 500 ProviderStars "tg:y"; Refunded 1 true].
Proof. vm_compute. reflexivity. Qed.

Lemma shop_unpaid : unpaid shop.
Proof.
  split_and!.
  - constructor; [intros i j o p Ho|intros i o Ho]; simpl in Ho; by rewrite lookup_empty in Ho.
  - intros i o Ho. simpl in Ho. by rewrite lookup_empty in Ho.
  - intros c cl Hc. unfold shop in Hc. simpl in Hc. apply lookup_singleton_Some in Hc as [_ <-]. unfold int64_max. simpl. lia.
Qed.

Lemma payments_refine_ledger_witness :
  unpaid shop /\
  exists l, posts [] (run id afternoon shop).1 = Some l /\
    forall c, cVolume <$> dbClients (run id afternoon shop).2 !! c =
              (fun client => cVolume client + balance c l) <$> dbClients shop !! c.
Proof. exact (conj shop_unpaid (payments_refine_ledger id afternoon shop shop_unpaid)). Defined.
End PaymentsExample.
