(* ===== verification/PaidProperties.v ===== *)
(** * What one payment, one refund and one recovery do

    The effect of a successful grant on every column of the client, the refund that
    undoes it, the exclusivity of refund claims, and the evidence on which recovery
    credits an order. *)

From S2P Require Import Prelude GoStrings PaidOrders PaidLedger.

Open Scope string_scope.
Open Scope list_scope.
Open Scope Z_scope.

(** ** Grants *)
Lemma addNonNegative_inv a b r :
  addNonNegative a b = Ok r -> r = a + b /\ 0 <= a /\ 0 <= b /\ r <= int64_max.
Proof. unfold addNonNegative. destruct (_ || _) eqn:E; [done|]. intros [= <-]. bools. lia. Qed.

Lemma grantExpiry_inv client t now r :
  grantExpiry client t now = Ok r ->
  (tAddDays t <= 0 /\ r = None) \/
  (0 < tAddDays t /\ 0 <= Z.max (cExpiry client) now /\
   r = Some (Z.max (cExpiry client) now + tAddDays t * seconds_per_day) /\
   Z.max (cExpiry client) now + tAddDays t * seconds_per_day <= int64_max).
Proof.
  unfold grantExpiry. destruct (Z.ltb_spec 0 (tAddDays t)); [|intros [= <-]; left; split; [lia|done]].
  destruct (_ <? tAddDays t); [done|].
  assert (Hb : (if cExpiry client <? now then now else cExpiry client) = Z.max (cExpiry client) now)
    by (destruct (Z.ltb_spec (cExpiry client) now); lia).
  rewrite Hb. destruct (_ || _) eqn:E; [done|]. intros [= <-]. bools. right. split_and!; lia || done.
Qed.

(** The client after a grant, column by column. *)
Definition granted_client (t : Tariff) (now : Z) (c c' : Client) : Prop :=
  cEnable c' = (String.eqb (cAccessDisableReason c) "" || renewable (cAccessDisableReason c)) /\
  cAccessDisableReason c' = (if renewable (cAccessDisableReason c) then "" else cAccessDisableReason c) /\
  cExpiry c' = (if 0 <? tAddDays t then Z.max (cExpiry c) now + tAddDays t * seconds_per_day else cExpiry c) /\
  (0 < tAddDays t -> 0 <= cExpiry c' <= int64_max) /\
  (if 0 <? tAddTrafficBytes t then
     cVolume c' = cVolume c + tAddTrafficBytes t /\ cTotalUp c' = cTotalUp c + cUp c /\
     cTotalDown c' = cTotalDown c + cDown c /\ cUp c' = 0 /\ cDown c' = 0 /\
     cVolume c' <= int64_max /\ cTotalUp c' <= int64_max /\ cTotalDown c' <= int64_max
   else cVolume c' = cVolume c /\ cTotalUp c' = cTotalUp c /\ cTotalDown c' = cTotalDown c /\
        cUp c' = cUp c /\ cDown c' = cDown c) /\
  cName c' = cName c /\ cInbounds c' = cInbounds c.

(** What [BuildPaidClientUpdates] returns on success. *)
Lemma BuildPaid_inv c t now u usage :
  BuildPaidClientUpdates c t now = Ok (u, usage) ->
  exists expiry, grantExpiry c t now = Ok expiry /\ uExpiry u = expiry /\
    (if 0 <? tAddTrafficBytes t then
       uVolume u = Some (cVolume c + tAddTrafficBytes t) /\ uTotalUp u = Some (cTotalUp c + cUp c) /\
       uTotalDown u = Some (cTotalDown c + cDown c) /\ uUp u = Some 0 /\ uDown u = Some 0 /\
       usage = Some (cUp c, cDown c) /\ 0 <= cVolume c /\ 0 <= cTotalUp c /\ 0 <= cTotalDown c /\
       0 <= cUp c /\ 0 <= cDown c /\ cVolume c + tAddTrafficBytes t <= int64_max /\
       cTotalUp c + cUp c <= int64_max /\ cTotalDown c + cDown c <= int64_max
     else uVolume u = None /\ uTotalUp u = None /\ uTotalDown u = None /\ uUp u = None /\ uDown u = None /\
          usage = None).
Proof.
  unfold BuildPaidClientUpdates. destruct (grantExpiry c t now) as [ex|]; [simpl|done]. intros H. exists ex.
  split; [done|]. destruct (0 <? tAddTrafficBytes t).
  - destruct (addNonNegative (cVolume c) _) as [v|] eqn:E1; [simpl in H|done].
    destruct (addNonNegative (cTotalUp c) _) as [tu|] eqn:E2; [simpl in H|done].
    destruct (addNonNegative (cTotalDown c) _) as [td|] eqn:E3; [simpl in H|done]. injection H as <- <-.
    apply addNonNegative_inv in E1, E2, E3. simpl. destruct_and!. split_and!; done || lia || (f_equal; lia).
  - by injection H as <- <-.
Qed.

Lemma BuildPaid_granted c t now u usage :
  BuildPaidClientUpdates c t now = Ok (u, usage) -> granted_client t now c (applyClientUpdates c (sqlAccess c u)).
Proof.
  intros (ex & He & Hu & Ht)%BuildPaid_inv. apply grantExpiry_inv in He. unfold granted_client. simpl.
  rewrite Hu. split_and!; try done.
  - destruct He as [[Hd ->]|(Hd & _ & -> & _)]; simpl.
    + by rewrite (proj2 (Z.ltb_ge 0 (tAddDays t))) by lia.
    + by rewrite (proj2 (Z.ltb_lt 0 (tAddDays t))) by lia.
  - intros Hd. destruct He as [[? _]|(_ & Hb & -> & Hm)]; [lia|]. simpl. unfold seconds_per_day in *. nia.
  - destruct (0 <? tAddTrafficBytes t).
    + destruct Ht as (-> & -> & -> & -> & -> & _ & Ht). simpl. destruct_and!. split_and!; done.
    + by destruct Ht as (-> & -> & -> & -> & -> & _).
Qed.

(** confirming a payment either fails and changes nothing, or finds the order pending with a valid purchase
    snapshot, marks it paid with the charge, and gives its client exactly the snapshot: the expiry is extended from
    the later of now and the old expiry, the quota grows by the traffic, live usage moves into the totals, no column
    overflows, and access is restored when it was blocked for quota or expiry but not when it was disabled by hand;
    no other order or client changes. *)
Theorem paid_order_effect id charge now actor d :
  wf d ->
  (exists e, ApplyPaidOrderGrant id charge now actor d = (Err e, d)) \/
  (exists r d' o c c', ApplyPaidOrderGrant id charge now actor d = (Ok r, d') /\ charge <> "" /\ arApplied r = true /\
     dbOrders d !! id = Some o /\ oStatus o = StatusPending /\ oGrantSnapshot o = true /\
     dbClients d !! oClientId o = Some c /\ dbClients d' = <[oClientId o := c']> (dbClients d) /\
     granted_client (mkTariff (oGrantAddDays o) (oGrantTraffic o)) now c c' /\
     (exists o', dbOrders d' = <[id := o']> (dbOrders d) /\ oStatus o' = StatusPaid /\
        oProviderChargeID o' = charge /\ oPaidAt o' = now)).
Proof.
  intros Hwf. unfold ApplyPaidOrderGrant. destruct (String.eqb_spec charge "") as [->|Hc]; [left; by eexists|].
  unfold Transaction. destruct (applyGrant id charge now actor d) as [[r d']|e] eqn:E; [right|left; by exists e].
  destruct (applyGrant_credit _ _ _ _ _ _ _ Hwf E) as (o & c & g & u & us & [Ho Hp Hg Hcl Hb Ho' Hc' _ Hr _]).
  destruct (grantForOrder_inv _ _ Hg) as (-> & _ & _ & _ & _ & Hsnap).
  exists r, d', o, c, (applyClientUpdates c (sqlAccess c u)). split_and!; try done.
  - by rewrite Hr.
  - by eapply BuildPaid_granted.
  - eexists. split; [exact Ho'|]. unfold granted_columns. by destruct us as [[? ?]|].
Qed.

(** The SQL expressions that decide access at the moment of the update agree with the values computed from the row
    that was read. *)
Lemma access_agrees c t now u usage :
  BuildPaidClientUpdates c t now = Ok (u, usage) ->
  uEnable u = uEnable (sqlAccess c u) /\ uAccessDisableReason u = uAccessDisableReason (sqlAccess c u).
Proof.
  unfold BuildPaidClientUpdates, sqlAccess. simpl.
  destruct (grantExpiry c t now) as [ex|]; [simpl|done]. intros H.
  assert (Hu : uEnable u = Some (negb (negb (String.eqb (cAccessDisableReason c) "") &&
                 negb (renewable (cAccessDisableReason c)))) /\
               uAccessDisableReason u = Some (if negb (String.eqb (cAccessDisableReason c) "") &&
                 negb (renewable (cAccessDisableReason c)) then cAccessDisableReason c else "")).
  { destruct (0 <? tAddTrafficBytes t).
    - destruct (addNonNegative (cVolume c) _); [simpl in H|done].
      destruct (addNonNegative (cTotalUp c) _); [simpl in H|done].
      destruct (addNonNegative (cTotalDown c) _); [simpl in H|done]. by injection H as <- _.
    - by injection H as <- _. }
  destruct Hu as [-> ->]. simpl.
  destruct (String.eqb_spec (cAccessDisableReason c) "") as [->|]; simpl; [done|].
  by destruct (renewable (cAccessDisableReason c)).
Qed.

Lemma shop_order_wf : wf (run id (firstn 1 PaymentsExample.afternoon) PaymentsExample.shop).2.
Proof.
  destruct (run_followed _ id (firstn 1 PaymentsExample.afternoon) _ [] (unpaid_sim _ PaymentsExample.shop_unpaid))
    as (l & _ & Hs).
  apply (sim_wf _ _ _ Hs).
Qed.

Lemma paid_order_effect_witness :
  let d := (run id (firstn 1 PaymentsExample.afternoon) PaymentsExample.shop).2 in
  (ApplyPaidOrderGrant 1 "tg:x" 2100 "bot" d).1 = Ok (mkApplied true 42 "[1]") /\
  ((exists e, ApplyPaidOrderGrant 1 "tg:x" 2100 "bot" d = (Err e, d)) \/
   (exists r d' o c c', ApplyPaidOrderGrant 1 "tg:x" 2100 "bot" d = (Ok r, d') /\ "tg:x" <> "" /\ arApplied r = true /\
     dbOrders d !! 1 = Some o /\ oStatus o = StatusPending /\ oGrantSnapshot o = true /\
     dbClients d !! oClientId o = Some c /\ dbClients d' = <[oClientId o := c']> (dbClients d) /\
     granted_client (mkTariff (oGrantAddDays o) (oGrantTraffic o)) 2100 c c' /\
     (exists o', dbOrders d' = <[1 := o']> (dbOrders d) /\ oStatus o' = StatusPaid /\
        oProviderChargeID o' = "tg:x" /\ oPaidAt o' = 2100))).
Proof.
  split; [vm_compute; reflexivity|].
  exact (paid_order_effect 1 "tg:x" 2100 "bot" _ shop_order_wf).
Defined.

(** ** Refunds *)
Lemma unique_ok_complete m : unique m -> unique_ok m = true.
Proof.
  intros Hu. unfold unique_ok. apply forallb_forall. intros [i o] Hi%list_elem_of_In%elem_of_map_to_list.
  apply forallb_forall. intros [j p] Hj%list_elem_of_In%elem_of_map_to_list. simpl.
  destruct (Z.eqb_spec i j); [done|]. simpl. by rewrite (Hu i j o p).
Qed.

(** Replacing an order that is no active purchase by one that is none either. *)
Lemma unique_insert m id o o' :
  unique m -> m !! id = Some o -> active_purchase o' = false ->
  oIdempotencyKey o' = oIdempotencyKey o -> oProvider o' = oProvider o ->
  oProviderChargeID o' = oProviderChargeID o -> oProviderRef o' = oProviderRef o -> unique (<[id := o']> m).
Proof.
  intros Hu Ho Ha' Hk Hp Hc Hr. set (m' := <[id := o']> m).
  assert (Hcf : forall j p, j <> id -> m !! j = Some p -> conflict o' p = false).
  { intros j p Hne Hj. pose proof (Hu id j o p Ho Hj (not_eq_sym Hne)) as H. revert H. unfold conflict.
    rewrite Ha', Hk, Hp, Hc, Hr. rewrite !orb_false_iff. tauto. }
  intros i j a b Hi Hj Hne. apply lookup_insert_Some in Hi as [[<- <-]|[Hi' Hi]], Hj as [[<- <-]|[Hj' Hj]]; [done|..].
  - by apply (Hcf j).
  - rewrite conflict_sym. by apply (Hcf i).
  - eauto.
Qed.

Lemma refundGrant_ok id token revoke now actor d o g c status :
  wf d -> dbOrders d !! id = Some o -> oStatus o = status -> token = "" \/ oRefundClaim o = token ->
  grantForOrder o = Ok g -> dbClients d !! oClientId o = Some c ->
  exists s d', refundGrant id status token revoke now actor d = Ok (s, d').
Proof.
  intros Hwf Ho Hs Ht Hg Hc. unfold refundGrant, tx_bind at 1. unfold Updates at 1.
  set (sel := fun o => has_status status o && _).
  assert (Hsel : sel o = true).
  { unfold sel, has_status. rewrite Hs, bool_decide_true by done. simpl.
    destruct Ht as [->| ->]; [done|]. rewrite String.eqb_refl. by rewrite orb_true_r. }
  rewrite selected_by_id, Ho, Hsel, (updated_by_id _ _ _ _ _ Ho Hsel).
  rewrite unique_ok_complete.
  2:{ apply (unique_insert _ _ o); try done; [apply Hwf|]. unfold active_purchase.
      cbn [oStatus assign Updates_of foldl]. apply andb_false_r. }
  cbn [Z.eqb Pos.eqb negb]. set (o1 := Updates_of _ o). unfold tx_bind, FirstOrder at 1. simpl. rewrite lookup_insert_eq.
  unfold lift_result. rewrite (grantForOrder_terms o o1) by apply Updates_of_terms. rewrite Hg.
  destruct (negb _); [by eexists _, _|]. unfold FirstClient. simpl. rewrite Hc.
  destruct (no_updates _); by eexists _, _.
Qed.

Lemma selected_zero sel m : selected sel m = 0 <-> forall i o, m !! i = Some o -> sel i o = false.
Proof.
  unfold selected. split.
  - intros Hz i o Ho. destruct (sel i o) eqn:E; [|done].
    assert (Hin : In (i, o) (List.filter (fun p => sel p.1 p.2) (map_to_list m))).
    { apply filter_In. split; [by apply list_elem_of_In, elem_of_map_to_list|done]. }
    by destruct (List.filter _ _).
  - intros H. destruct (List.filter _ _) as [|[i o] l] eqn:E; [done|].
    assert (Hin : In (i, o) (List.filter (fun p => sel p.1 p.2) (map_to_list m))) by (rewrite E; by left).
    apply filter_In in Hin as [Hi%list_elem_of_In%elem_of_map_to_list Hs]. simpl in Hs. by rewrite (H i o Hi) in Hs.
Qed.

(** Orders other than [id] decide whether live usage is restored. *)
Lemma newer_frame o id d d' o1 :
  dbOrders d' = <[id := o1]> (dbOrders d) -> newerTrafficOrders o id d' = 0 <-> newerTrafficOrders o id d = 0.
Proof.
  unfold newerTrafficOrders. rewrite !selected_zero. intros ->. split; intros Hz i p Hp.
  - destruct (decide (i = id)) as [->|Hne]; [by rewrite Z.ltb_irrefl, andb_false_r|]. apply Hz. by rewrite lookup_insert_ne.
  - apply lookup_insert_Some in Hp as [[<- <-]|[Hne Hp]]; [by rewrite Z.ltb_irrefl, andb_false_r|eauto].
Qed.

(** The columns that a refund restores; [latest] is the later of the two times. *)
Definition restored (t : Tariff) (latest : Z) (live : bool) (c c2 : Client) : Prop :=
  cVolume c2 = cVolume c /\ cTotalUp c2 = cTotalUp c /\ cTotalDown c2 = cTotalDown c /\
  (cUp c2, cDown c2) = (if live then (cUp c, cDown c) else (0, 0)) /\
  cExpiry c2 = (if 0 <? tAddDays t then Z.max (cExpiry c) latest else cExpiry c).

Lemma refund_expiry c t now now' ex c1 o b :
  grantExpiry c t now = Ok ex -> cExpiry c1 = default (cExpiry c) ex -> 0 < now ->
  default (cExpiry c1) (uExpiry (BuildRefundClientUpdates c1 o t now' b)) =
  if 0 <? tAddDays t then Z.max (cExpiry c) (Z.max now now') else cExpiry c.
Proof.
  intros He Hex Hnow.
  assert (Hu : uExpiry (BuildRefundClientUpdates c1 o t now' b) =
    if (0 <? tAddDays t) && (0 <? cExpiry c1) then
      let newExpiry := wrap64 (cExpiry c1 - wrap64 (tAddDays t * seconds_per_day)) in
      Some (if newExpiry <? now' then now' else newExpiry)
    else None) by (unfold BuildRefundClientUpdates; by destruct (0 <? tAddTrafficBytes t)).
  rewrite Hu, Hex. clear Hu Hex.
  destruct (grantExpiry_inv _ _ _ _ He) as [[Hd ->]|(Hd & Hb0 & -> & Hm)].
  - by rewrite (proj2 (Z.ltb_ge 0 (tAddDays t))) by lia.
  - rewrite (proj2 (Z.ltb_lt 0 (tAddDays t))) by lia. simpl default.
    unfold seconds_per_day, int64_max in *.
    rewrite (proj2 (Z.ltb_lt 0 (Z.max (cExpiry c) now + tAddDays t * 86400))) by lia. simpl andb. cbv iota zeta.
    rewrite (wrap64_id (tAddDays t * 86400)) by (unfold in_int64, int64_min, int64_max; lia).
    rewrite wrap64_id by (unfold in_int64, int64_min, int64_max; lia). simpl.
    match goal with |- (if ?b then _ else _) = _ => destruct b eqn:E end; bools; lia.
Qed.

(** The refund arithmetic inverts the grant arithmetic. *)
Lemma BuildRefund_inverts c t now now' u usage o live :
  BuildPaidClientUpdates c t now = Ok (u, usage) -> 0 < now ->
  (forall up down, usage = Some (up, down) -> oGrantedUp o = up /\ oGrantedDown o = down) ->
  restored t (Z.max now now') (negb (0 <? tAddTrafficBytes t) || live) c (applyClientUpdates (applyClientUpdates c (sqlAccess c u))
    (BuildRefundClientUpdates (applyClientUpdates c (sqlAccess c u)) o t now' live)).
Proof.
  intros Hb Hnow Huse. pose proof (BuildPaid_inv _ _ _ _ _ Hb) as (ex & He & Hu & Ht).
  assert (Hexp := refund_expiry c t now now' ex (applyClientUpdates c (sqlAccess c u)) o live He
                    ltac:(simpl; by rewrite Hu) Hnow).
  unfold restored. split_and!; try exact Hexp; clear Hexp; unfold BuildRefundClientUpdates;
    (destruct (Z.ltb_spec 0 (tAddTrafficBytes t));
     [destruct Ht as (V & TU & TD & U & D & Hus & Hr); destruct (Huse _ _ Hus) as [GU GD]; simpl;
      rewrite ?V, ?TU, ?TD, ?U, ?D, ?GU, ?GD; simpl; try (by destruct live);
      rewrite wrap64_id by (unfold in_int64, int64_min, int64_max in *; lia);
      match goal with |- (if ?b then _ else _) = _ => destruct b eqn:E end; bools; lia
     |destruct Ht as (V & TU & TD & U & D & _); simpl; rewrite ?V, ?TU, ?TD, ?U, ?D; done]).
Qed.

(** C33: refunding a credited order with revocation always succeeds and undoes its grant:
    quota and totals are exactly what they were before the payment, and so is the live
    usage, unless the order granted traffic and a newer traffic order of its client was
    credited, when the usage stays as the grant reset it; where the order added days, the
    expiry is what it was, or the later of the times of payment and refund where that is
    later. *)
Theorem refund_undoes_grant id charge now now' actor actor' d r d1 o :
  wf d -> ApplyPaidOrderGrant id charge now actor d = (Ok r, d1) -> dbOrders d !! id = Some o -> 0 < now ->
  exists s d2 c c2, FinalizeRefundGrant id true now' actor' d1 = (Ok s, d2) /\
    dbClients d !! oClientId o = Some c /\ dbClients d2 = <[oClientId o := c2]> (dbClients d) /\
    restored (mkTariff (oGrantAddDays o) (oGrantTraffic o)) (Z.max now now') (negb (0 <? oGrantTraffic o) || (newerTrafficOrders o id d =? 0)) c c2.
Proof.
  intros Hwf Ha Ho Hnow. unfold ApplyPaidOrderGrant in Ha. destruct (String.eqb charge ""); [done|].
  unfold Transaction in Ha. destruct (applyGrant id charge now actor d) as [[r' d1']|] eqn:E; [|done].
  injection Ha as -> ->.
  destruct (applyGrant_credit _ _ _ _ _ _ _ Hwf E) as (o0 & c & g & u & us & [Ho0 Hp Hg Hcl Hb Ho' Hc' _ _ Hwf1]).
  rewrite Ho in Ho0. injection Ho0 as <-.
  destruct (grantForOrder_inv _ _ Hg) as (Hgr & _).
  set (o1 := Updates_of (granted_columns charge now us) o) in *.
  assert (Ho1 : dbOrders d1 !! id = Some o1) by (by rewrite Ho', lookup_insert_eq).
  assert (Hcl1 : oClientId o1 = oClientId o) by (unfold o1, granted_columns; by destruct us as [[? ?]|]).
  assert (Hg1 : grantForOrder o1 = Ok g) by (rewrite (grantForOrder_terms o o1); [done|apply Updates_of_terms]).
  assert (Hus : forall up down, us = Some (up, down) -> oGrantedUp o1 = up /\ oGrantedDown o1 = down)
    by (intros up down ->; done).
  assert (Hst1 : oStatus o1 = StatusPaid) by (unfold o1, granted_columns; by destruct us as [[? ?]|]).
  clearbody o1.
  unfold FinalizeRefundGrant, finalizeRefundGrant, Transaction.
  destruct (refundGrant_ok id "" true now' actor' d1 o1 g (applyClientUpdates c (sqlAccess c u)) StatusPaid)
    as (s & d2 & Hr); try done; [by left|rewrite Hcl1, Hc'; apply lookup_insert_eq|].
  rewrite Hr.
  destruct (refundGrant_refund _ _ _ _ _ _ _ _ _ Hwf1 Hr) as (o2 & g2 & [Ho2 _ _ Hg2 Hord Hcls _]).
  rewrite Ho1 in Ho2. injection Ho2 as <-. rewrite Hg1 in Hg2. injection Hg2 as <-.
  simpl in Hcls. destruct Hcls as (c1 & restore & Hc1 & Hres & Hc2).
  rewrite Hcl1, Hc', lookup_insert_eq in Hc1. injection Hc1 as <-.
  assert (Hz : (newerTrafficOrders o1 id d2 =? 0) = (newerTrafficOrders o id d =? 0)).
  { replace (newerTrafficOrders o1 id d2) with (newerTrafficOrders o id d2) by (unfold newerTrafficOrders; by rewrite Hcl1).
    apply eq_true_iff_eq. rewrite !Z.eqb_eq. rewrite (newer_frame o id d1 d2 _ Hord). by eapply newer_frame. }
  exists s, d2, c. eexists. split_and!; [done..|rewrite Hc2, Hcl1, Hc'; apply insert_insert_eq|].
  replace (negb (0 <? oGrantTraffic o) || (newerTrafficOrders o id d =? 0)) with (negb (0 <? tAddTrafficBytes g) || restore)
    by (rewrite Hres, Hz, Hgr; simpl; by destruct (0 <? oGrantTraffic o)).
  rewrite <- Hgr. by eapply BuildRefund_inverts.
Qed.

Lemma refund_undoes_grant_witness :
  let d := (run id (firstn 1 PaymentsExample.afternoon) PaymentsExample.shop).2 in
  let o := with_id 1 (NewPendingOrder 7 1 (mkTariff 30 500) ProviderStars 250 "XTR" 42 "a" 2000 30) in
  exists s d2 c c2, FinalizeRefundGrant 1 true 2500 "admin" (ApplyPaidOrderGrant 1 "tg:x" 2100 "bot" d).2 = (Ok s, d2) /\
    dbClients d !! oClientId o = Some c /\ dbClients d2 = <[oClientId o := c2]> (dbClients d) /\
    restored (mkTariff (oGrantAddDays o) (oGrantTraffic o)) 2500 true c c2.
Proof.
  refine (refund_undoes_grant 1 "tg:x" 2100 2500 "bot" "admin" _ (mkApplied true 42 "[1]") _ _
            shop_order_wf _ _ _).
  - vm_compute. reflexivity.
  - vm_compute. reflexivity.
  - lia.
Defined.

(** ** Refund claims *)
Lemma Updates_none id p cols d :
  wf d -> (forall o, dbOrders d !! id = Some o -> p o = false) -> Updates (by_id id p) cols d = Ok (0, d).
Proof.
  intros Hwf Hp.
  assert (Hm : updated (by_id id p) cols (dbOrders d) = dbOrders d).
  { apply map_eq. intros j. rewrite updated_lookup. unfold by_id.
    destruct (dbOrders d !! j) as [o|] eqn:Ho; simpl; [|done].
    destruct (Z.eqb_spec j id) as [->|]; simpl; [|done]. by rewrite (Hp o Ho). }
  unfold Updates. rewrite Hm, unique_ok_complete by apply Hwf. rewrite selected_by_id.
  destruct (dbOrders d !! id) as [o|] eqn:Ho; [rewrite (Hp o eq_refl)|]; by destruct d.
Qed.

(** The order under a granted claim. *)
Record claimed (id : Z) (token : string) (now : Z) (o : PaymentOrder) (d1 : database) : Prop := mkClaimed {
  cl_order : dbOrders d1 !! id = Some o;
  cl_status : oStatus o = StatusRefundPending;
  cl_token : oRefundClaim o = token;
  cl_until : oRefundClaimUntil o = now + refundClaimSeconds;
  cl_grant : exists g, grantForOrder o = Ok g;
  cl_wf : wf d1
}.

Lemma claim_claimed id revoke token now d o d1 :
  wf d -> ClaimStarsRefund id revoke token now d = (Ok o, d1) -> claimed id token now o d1.
Proof.
  intros Hwf. unfold ClaimStarsRefund. destruct (String.eqb token ""); [done|]. unfold Transaction.
  destruct (claimRefund id revoke token now d) as [[o' d1']|] eqn:E; [|done]. intros [= <- <-].
  unfold claimRefund, tx_bind at 1 in E. destruct (Updates _ _ d) as [[n da]|] eqn:E1; [|done].
  assert (Hb : exists db o2, dbOrders db !! id = Some o2 /\ oStatus o2 = StatusRefundPending /\
    oRefundClaim o2 = token /\ oRefundClaimUntil o2 = now + refundClaimSeconds /\ wf db /\
    (let! order := FirstOrder id in
     let! _ := lift_result (grantForOrder order) in
     if negb (String.eqb (oCurrency order) "XTR") || (oTelegramUserId order <=? 0) ||
        negb (HasPrefix (oProviderChargeID order) "tg:") ||
        String.eqb (TrimPrefix (oProviderChargeID order) "tg:") ""
     then tx_err (ErrText "refund charge identity invalid")
     else tx_ret order) db = Ok (o', d1')).
  { destruct (Z.eqb_spec n 0) as [->|Hn].
    - unfold tx_bind at 1 in E. destruct (Updates _ _ da) as [[n2 db]|] eqn:E2; [|done].
      destruct (Z.eqb_spec n2 0) as [->|Hn2]; [done|].
      assert (Hwfa : wf da) by (apply Updates_inv in E1 as (-> & _ & Hu); by apply updated_fresh).
      apply Updates_one in E2 as (x & Hx & Hs & _ & -> & Hw); [|done..].
      apply andb_true_iff in Hs as [Hs _]. apply andb_true_iff in Hs as [Hs%has_status_eq _].
      eexists _, _. split_and!; [| | | |exact Hw|exact E]; [simpl; apply lookup_insert_eq|done..].
    - unfold tx_bind at 1, tx_ret at 1 in E. rewrite (proj2 (Z.eqb_neq n 0) Hn) in E.
      apply Updates_one in E1 as (x & Hx & Hs & _ & -> & Hw); [|done..].
      eexists _, _. split_and!; [| | | |exact Hw|exact E]; [simpl; apply lookup_insert_eq|done..]. }
  destruct Hb as (db & o2 & Ho2 & S2 & T2 & U2 & Hw & Hrest).
  unfold tx_bind, FirstOrder, lift_result in Hrest. rewrite Ho2 in Hrest.
  destruct (grantForOrder o2) as [g|] eqn:Eg; [|done].
  destruct (_ || _) in Hrest; [done|]. injection Hrest as <- <-. constructor; eauto.
Qed.

(** a granted refund claim is exclusive: until its 120 seconds are over no other claim of the order succeeds, no
    other token and no unclaimed refund finalizes it, and its own token does, whenever the client still exists; every
    refused call leaves the database as it was. *)
Theorem refund_claim_exclusive id revoke token now d o d1 :
  wf d -> ClaimStarsRefund id revoke token now d = (Ok o, d1) ->
  (forall revoke' token' now', now' < now + refundClaimSeconds -> token' <> "" ->
     ClaimStarsRefund id revoke' token' now' d1 = (Err ErrRefundInProgress, d1)) /\
  (forall token' now' actor, token' <> token ->
     exists e, FinalizeClaimedRefundGrant id token' now' actor d1 = (Err e, d1)) /\
  (forall revoke' now' actor, FinalizeRefundGrant id revoke' now' actor d1 = (Err ErrOrderAlreadyFinalized, d1)) /\
  (forall now' actor c, token <> "" -> dbClients d1 !! oClientId o = Some c ->
     exists s d2, FinalizeClaimedRefundGrant id token now' actor d1 = (Ok s, d2)).
Proof.
  intros Hwf Hc. destruct (claim_claimed _ _ _ _ _ _ _ Hwf Hc) as [Ho Hs Ht Hu [g Hg] Hw]. split_and!.
  - intros revoke' token' now' Hlt Hne. unfold ClaimStarsRefund, Transaction.
    rewrite (proj2 (String.eqb_neq _ _) Hne). unfold claimRefund, tx_bind at 1.
    rewrite Updates_none; [|done|intros x Hx; rewrite Ho in Hx; injection Hx as <-; unfold has_status; by rewrite Hs].
    simpl. unfold tx_bind at 1. rewrite Updates_none; [done|done|].
    intros x Hx. rewrite Ho in Hx. injection Hx as <-. rewrite Hu.
    rewrite (proj2 (Z.leb_gt _ now')) by done. apply andb_false_r.
  - intros token' now' actor Hne. unfold FinalizeClaimedRefundGrant.
    destruct (String.eqb_spec token' ""); [by eexists|]. unfold finalizeRefundGrant, Transaction, refundGrant, tx_bind at 1.
    rewrite Updates_none; [by eexists|done|]. intros x Hx. rewrite Ho in Hx. injection Hx as <-.
    rewrite Ht, (proj2 (String.eqb_neq token' "")), (proj2 (String.eqb_neq token token')) by congruence.
    apply andb_false_r.
  - intros revoke' now' actor. unfold FinalizeRefundGrant, finalizeRefundGrant, Transaction, refundGrant, tx_bind at 1.
    rewrite Updates_none; [done|done|]. intros x Hx. rewrite Ho in Hx. injection Hx as <-.
    unfold has_status. by rewrite Hs.
  - intros now' actor c Hne Hcl. unfold FinalizeClaimedRefundGrant. rewrite (proj2 (String.eqb_neq _ _) Hne).
    unfold finalizeRefundGrant, Transaction.
    destruct (refundGrant_ok id token false now' actor d1 o g c StatusRefundPending Hw Ho Hs (or_intror Ht) Hg Hcl)
      as (s & d2 & ->). by exists s, d2.
Qed.

Lemma claimed_shop_wf : wf (run id (firstn 7 PaymentsExample.afternoon) PaymentsExample.shop).2.
Proof.
  destruct (run_followed _ id (firstn 7 PaymentsExample.afternoon) _ [] (unpaid_sim _ PaymentsExample.shop_unpaid))
    as (l & _ & Hs).
  apply (sim_wf _ _ _ Hs).
Qed.

Lemma refund_claim_exclusive_witness :
  let d := (run id (firstn 7 PaymentsExample.afternoon) PaymentsExample.shop).2 in
  let d1 := (ClaimStarsRefund 1 true "t1" 2200 d).2 in
  ClaimStarsRefund 1 true "t2" 2319 d1 = (Err ErrRefundInProgress, d1).
Proof.
  intros d d1.
  assert (Hc : exists o, ClaimStarsRefund 1 true "t1" 2200 d = (Ok o, d1)).
  { eexists. subst d d1. vm_compute. reflexivity. }
  destruct Hc as [o Hc].
  refine (proj1 (refund_claim_exclusive 1 true "t1" 2200 d o d1 claimed_shop_wf Hc) true "t2" 2319 _ _).
  - unfold refundClaimSeconds. lia.
  - discriminate.
Defined.

(** ** Recovery *)
Definition is_state (s : InvoiceState) (c : RecoveredInvoice) : bool := bool_decide (riState c = s).

Lemma sortCandidates_spec seen l active paids :
  sortCandidates seen l = Some (active, paids) ->
  active = List.filter (is_state InvoiceActive) l /\ paids = List.filter (is_state InvoicePaid) l /\
  (forall c, c ∈ l -> riVerified c = true /\ riRef c <> "" /\ riState c <> InvoiceUnknown) /\
  NoDup (riRef <$> l) /\ (forall c, c ∈ l -> riRef c ∉ seen).
Proof.
  revert seen active paids. induction l as [|c l IH]; intros seen active paids; simpl.
  { intros [= <- <-]. split_and!; try done; [by intros c ?%elem_of_nil|apply NoDup_nil_2|by intros c ?%elem_of_nil]. }
  destruct (_ || _) eqn:E; [done|].
  destruct (sortCandidates (riRef c :: seen) l) as [[a p]|] eqn:Es; [|done].
  destruct (IH _ _ _ Es) as (-> & -> & Hv & Hnd & Hseen). intros [= <- <-]. bools. destruct_and?.
  split_and!.
  - by unfold is_state at 2.
  - by unfold is_state at 2.
  - intros x [->|Hx]%elem_of_cons; [done|eauto].
  - apply NoDup_cons. split; [|done]. intros (y & Heq & Hy)%list_elem_of_fmap. apply (Hseen y Hy). rewrite <- Heq. apply list_elem_of_here.
  - intros x [->|Hx]%elem_of_cons; [done|]. pose proof (Hseen x Hx). set_solver.
Qed.

(** A computation that credits nothing. *)
Definition silent (m : Tx AppliedOrderResult) : Prop := forall d r d', m d = Ok (r, d') -> arApplied r = false.

Lemma silent_ret : silent (tx_ret notApplied).
Proof. by intros d r d' [= <- _]. Qed.

Lemma silent_bind {A : Type} (m : Tx A) k : (forall a, silent (k a)) -> silent (tx_bind m k).
Proof. intros Hk d r d'. unfold tx_bind. destruct (m d) as [[a d1]|]; [apply Hk|done]. Qed.

Lemma silent_review id reason : silent (review id reason).
Proof. apply silent_bind. intros _. apply silent_ret. Qed.

Lemma silent_on_order id cols : silent (on_order id cols).
Proof. apply silent_bind. intros _. apply silent_ret. Qed.

Lemma silent_legacy refPayload id o active paids : silent (recoverLegacy refPayload id o active paids).
Proof.
  unfold recoverLegacy. destruct paids; apply silent_bind; intros _; [destruct active|]; apply silent_on_order.
Qed.

#[export] Hint Resolve silent_ret silent_review silent_on_order silent_legacy : solovey.

(** Identities of cancellations are fresh. *)
Definition cancellations_fresh (d : database) : Prop :=
  forall k w, dbCancellations d !! k = Some w -> k < dbNextCancellation d.

Definition cancelling (id : Z) (ref : string) (d : database) : Prop :=
  exists k w, dbCancellations d !! k = Some w /\ icRef w = ref /\ icOrderID w = id.

Lemma cancellation_for_Some ref d w :
  cancellation_for ref d = Some w -> exists k, dbCancellations d !! k = Some w /\ icRef w = ref.
Proof.
  unfold cancellation_for. destruct (List.filter _ _) as [|[k x] l] eqn:E; [done|]. intros [= <-].
  assert (Hin : In (k, x) (List.filter (fun kv => String.eqb (icRef kv.2) ref) (map_to_list (dbCancellations d))))
    by (rewrite E; by left).
  apply filter_In in Hin as [Hk%list_elem_of_In%elem_of_map_to_list Hr%String.eqb_eq]. by exists k.
Qed.

Lemma queueCancellations_spec id l d a d' :
  cancellations_fresh d -> queueCancellations id l d = Ok (a, d') ->
  (forall ref, cancelling id ref d -> cancelling id ref d') /\
  (forall c, c ∈ l -> riState c = InvoiceActive -> cancelling id (riRef c) d') /\ dbOrders d' = dbOrders d.
Proof.
  revert d a d'. induction l as [|c l IH]; intros d a d' Hf.
  { intros [= _ <-]. split_and!; try done. by intros c ?%elem_of_nil. }
  simpl. destruct (bool_decide (riState c = InvoiceActive)) eqn:Eact; simpl.
  2:{ intros H. destruct (IH _ _ _ Hf H) as (H1 & H2 & H3). split_and!; try done.
      intros x [->|Hx]%elem_of_cons Hx'; [|eauto]. by apply bool_decide_eq_false in Eact. }
  destruct (cancellation_for (riRef c) d) as [w|] eqn:Ew.
  - destruct (Z.eqb_spec (icOrderID w) id) as [Hid|]; [simpl|done]. intros H.
    destruct (IH _ _ _ Hf H) as (H1 & H2 & H3). split_and!; try done.
    intros x [->|Hx]%elem_of_cons Hx'; [|eauto]. apply H1.
    apply cancellation_for_Some in Ew as (k & Hk & Hr). by exists k, w.
  - set (d1 := mkDatabase _ _ _ _ _ _). intros H.
    assert (Hf1 : cancellations_fresh d1).
    { intros k w. simpl. intros [[<- _]|[_ Hk%Hf]]%lookup_insert_Some; lia. }
    destruct (IH _ _ _ Hf1 H) as (H1 & H2 & H3). split_and!; [| |done].
    + intros ref (k & w & Hk & Hr). apply H1. exists k, w. split; [|done]. simpl.
      rewrite lookup_insert_ne; [done|]. intros <-. apply Hf in Hk. lia.
    + intros x [->|Hx]%elem_of_cons Hx'; [|eauto]. apply H1.
      exists (dbNextCancellation d), (mkCancellation id (riRef c) false). simpl. by rewrite lookup_insert_eq.
Qed.

Lemma Updates_frame sel cols d n d' :
  Updates sel cols d = Ok (n, d') ->
  dbCancellations d' = dbCancellations d /\ dbNextCancellation d' = dbNextCancellation d.
Proof. by intros (-> & _)%Updates_inv. Qed.

Lemma applyGrant_cancellations id charge now actor d r d' :
  applyGrant id charge now actor d = Ok (r, d') -> dbCancellations d' = dbCancellations d.
Proof.
  unfold applyGrant, tx_bind at 1. destruct (Updates _ _ d) as [[n d1]|] eqn:E1; [|done].
  destruct (Updates_frame _ _ _ _ _ E1) as [<- _]. destruct (negb _); [done|].
  unfold tx_bind, FirstOrder, lift_result, FirstClient. destruct (dbOrders d1 !! id) as [o|]; [|done].
  destruct (grantForOrder o) as [g|]; [|done]. destruct (dbClients d1 !! _) as [c|]; [|done].
  destruct (BuildPaidClientUpdates c g now) as [[u [[up down]|]]|]; [| |done].
  - destruct (Updates _ _ d1) as [[n2 d2]|] eqn:E2; [|done]. intros [= _ <-]. simpl. by apply (Updates_frame _ _ _ _ _ E2).
  - by intros [= _ <-].
Qed.

(** A recovery that credits the canonical invoice. *)
Lemma recoverCanonical_credit refPayload id o active c now d r d' :
  wf d -> cancellations_fresh d -> recoverCanonical refPayload id o active c now d = Ok (r, d') -> arApplied r = true ->
  riState c = InvoicePaid /\
  (exists o', dbOrders d' !! id = Some o' /\ oStatus o' = StatusPaid /\
     oProviderChargeID o' = "cryptobot:" +:+ riRef c) /\
  (forall x, x ∈ active -> riState x = InvoiceActive -> cancelling id (riRef x) d').
Proof.
  intros Hwf Hf. unfold recoverCanonical. destruct (_ && _); [intros H Ha; by rewrite (silent_review _ _ _ _ _ H) in Ha|].
  unfold tx_bind at 1. destruct (Updates _ _ d) as [[n d1]|] eqn:E1; [|done].
  destruct (bool_decide (riState c = InvoicePaid)) eqn:Ep; cbn [negb]; [|by intros Hret Ha; rewrite (silent_ret _ _ _ Hret) in Ha].
  apply bool_decide_eq_true in Ep. unfold tx_bind.
  destruct (queueCancellations id active d1) as [[a d2]|] eqn:E2; [|done]. intros Hg _.
  destruct (Updates_frame _ _ _ _ _ E1) as [Hc1 Hn1].
  destruct (queueCancellations_spec id active d1 a d2) as (_ & Hq & Ho2); [|done|].
  { intros k w. rewrite Hc1, Hn1. apply Hf. }
  assert (Hwf2 : wf d2).
  { apply (quiet_wf d1); [by eapply (calm_queueCancellations (fun _ => True))|].
    apply Updates_inv in E1 as (-> & _ & Hu). by apply updated_fresh. }
  destruct (applyGrant_credit _ _ _ _ _ _ _ Hwf2 Hg) as (o2 & cl & g & u & us & [_ _ _ _ _ Hord _ _ _ _]).
  destruct (granted_columns_of ("cryptobot:" +:+ riRef c) now us o2) as (G1 & G2 & _).
  split_and!; [done| |].
  - eexists. split; [rewrite Hord; apply lookup_insert_eq|done].
  - intros x Hx Hxa. destruct (Hq x Hx Hxa) as (k & w & Hk & Hw). exists k, w. split; [|done].
    by rewrite (applyGrant_cancellations _ _ _ _ _ _ _ Hg).
Qed.

(** recovery credits an order only on complete evidence: no review was asked for, every invoice found for the
    order is verified, in a known state and has its own reference, and exactly one of them is paid; the order is then
    paid with the charge of that invoice, and every invoice of it that is still open is queued for cancellation. *)
Theorem recovery_credits_on_evidence refPayload recovered now grace d r d' :
  wf d -> cancellations_fresh d ->
  RecoverProviderOrder refPayload recovered now grace d = (Ok r, d') -> arApplied r = true ->
  rnReviewReason recovered = "" /\
  (forall c, c ∈ rnCandidates recovered -> riVerified c = true /\ riRef c <> "" /\ riState c <> InvoiceUnknown) /\
  NoDup (riRef <$> rnCandidates recovered) /\
  exists paidInvoice o', List.filter (is_state InvoicePaid) (rnCandidates recovered) = [paidInvoice] /\
    dbOrders d' !! rnOrderID recovered = Some o' /\ oStatus o' = StatusPaid /\
    oProviderChargeID o' = "cryptobot:" +:+ riRef paidInvoice /\
    forall c, c ∈ rnCandidates recovered -> riState c = InvoiceActive -> cancelling (rnOrderID recovered) (riRef c) d'.
Proof.
  intros Hwf Hf HR Happ. unfold RecoverProviderOrder, Transaction in HR.
  destruct (recoverOrder refPayload recovered now grace d) as [[r0 d0]|[]] eqn:E; try congruence;
    [|injection HR as <- <-; done]. injection HR as -> ->.
  unfold recoverOrder, tx_bind at 1 in E. destruct (Updates _ _ d) as [[n d1]|] eqn:E1; [|done].
  destruct (n =? 1); [cbn [negb] in E|done].
  destruct (Updates_frame _ _ _ _ _ E1) as [Hc1 Hn1].
  assert (Hwf1 : wf d1) by (apply Updates_inv in E1 as (-> & _ & Hu); by apply updated_fresh).
  assert (Hf1 : cancellations_fresh d1) by (intros k w; rewrite Hc1, Hn1; apply Hf). clear E1 Hwf Hf Hc1 Hn1.
  unfold tx_bind, FirstOrder in E. destruct (dbOrders d1 !! _) as [o|]; [|done].
  destruct (String.eqb_spec (rnReviewReason recovered) "") as [Hr|]; cbn [negb] in E.
  2:{ by rewrite (silent_review _ _ _ _ _ E) in Happ. }
  destruct (rnCandidates recovered) as [|c0 cs] eqn:Ecs; [by rewrite (silent_ret _ _ _ E) in Happ|].
  destruct (sortCandidates [] (c0 :: cs)) as [[active paids]|] eqn:Es.
  2:{ by rewrite (silent_review _ _ _ _ _ E) in Happ. }
  destruct (sortCandidates_spec _ _ _ _ Es) as (Hact & Hpaid & Hv & Hnd & _).
  destruct (1 <? _); [by rewrite (silent_review _ _ _ _ _ E) in Happ|].
  destruct (oGrantSnapshot o); cbn [negb] in E; [|by rewrite (silent_legacy _ _ _ _ _ _ _ _ E) in Happ].
  destruct (grantForOrder o) as [g|]; [|by rewrite (silent_review _ _ _ _ _ E) in Happ].
  assert (Hdone : forall c, (paids = [c] \/ active = [c]) ->
    recoverCanonical refPayload (rnOrderID recovered) o active c now d1 = Ok (r, d') ->
    exists paidInvoice o', paids = [paidInvoice] /\ dbOrders d' !! rnOrderID recovered = Some o' /\
      oStatus o' = StatusPaid /\ oProviderChargeID o' = "cryptobot:" +:+ riRef paidInvoice /\
      forall x, x ∈ c0 :: cs -> riState x = InvoiceActive -> cancelling (rnOrderID recovered) (riRef x) d').
  { intros c Hc HE. destruct (recoverCanonical_credit _ _ _ _ _ _ _ _ _ Hwf1 Hf1 HE Happ) as (Hp & (o' & Ho' & Hs & Hch) & Hq).
    destruct Hc as [->|Hc].
    - exists c, o'. split_and!; try done. intros x Hx Hxa. apply Hq; [|done]. rewrite Hact.
      apply list_elem_of_In, filter_In. split; [by apply list_elem_of_In|by apply bool_decide_eq_true].
    - exfalso. assert (Hin : c ∈ active) by (rewrite Hc; apply list_elem_of_here). rewrite Hact in Hin.
      apply list_elem_of_In, filter_In in Hin as [_ Hin]. apply bool_decide_eq_true in Hin. congruence. }
  split_and!; try done. rewrite <- Hpaid.
  destruct paids as [|p [|p2 ps]], active as [|a [|a2 as']]; try (by eapply Hdone; [|exact E]; auto);
    try (by rewrite (silent_review _ _ _ _ _ E) in Happ);
    (destruct (_ && _); [by rewrite (silent_on_order _ _ _ _ _ E) in Happ|by rewrite (silent_ret _ _ _ E) in Happ]).
Qed.

Module RecoveryExample.
(** An order whose invoice creation was interrupted, found paid at the provider next to an open duplicate. *)
Definition interrupted : list operation :=
  [OpIntent (NewPendingOrder 7 1 (mkTariff 30 500) ProviderCryptoBot 250 "USD" 42 "a" 2000 30); OpUncertain 1].

Definition found : Reconciliation :=
  mkReconciliation 1 [mkRecovered "101" InvoiceTerminal true ""; mkRecovered "102" InvoicePaid true "https://pay/102";
                      mkRecovered "103" InvoiceActive true "https://pay/103"] "".

Definition before : database := (run id interrupted PaymentsExample.shop).2.

Lemma before_wf : wf before.
Proof.
  destruct (run_followed _ id interrupted _ [] (unpaid_sim _ PaymentsExample.shop_unpaid)) as (l & _ & Hs).
  apply (sim_wf _ _ _ Hs).
Qed.

Lemma before_fresh : cancellations_fresh before.
Proof.
  intros k w Hk. assert (He : dbCancellations before = ∅) by (vm_compute; reflexivity).
  by rewrite He, lookup_empty in Hk.
Qed.

Lemma recovery_credits_on_evidence_witness :
  let after := (RecoverProviderOrder id found 3000 600 before).2 in
  NoDup (riRef <$> rnCandidates found) /\
  exists paidInvoice o', List.filter (is_state InvoicePaid) (rnCandidates found) = [paidInvoice] /\
    dbOrders after !! 1 = Some o' /\ oStatus o' = StatusPaid /\
    oProviderChargeID o' = "cryptobot:" +:+ riRef paidInvoice /\
    forall c, c ∈ rnCandidates found -> riState c = InvoiceActive -> cancelling 1 (riRef c) after.
Proof.
  intros after.
  assert (Hr : RecoverProviderOrder id found 3000 600 before = (Ok (mkApplied true 42 "[1]"), after))
    by (subst after; vm_compute; reflexivity).
  exact (proj2 (proj2 (recovery_credits_on_evidence id found 3000 600 before _ after before_wf before_fresh Hr eq_refl))).
Defined.
End RecoveryExample.
