(* ===== verification/RestartManager.v ===== *)
(** * Exclusive restarts ([internal/singbox/restart])

    The manager lets one restart or apply operation run at a time and debounces
    scheduled restarts with one timer.  Every critical section of its mutex is one
    operation below; goroutines, timers and their interleavings are the steps of a
    transition system.  A goroutine that waits on the condition variable holds
    nothing: it retries its critical section in a later step. *)

From S2P Require Import Prelude.

Open Scope Z_scope.

Definition threadId := Z.
Definition timerId := Z.

(** [signalDelay] and [signal] do not change after [NewManager]; timers are named by
    identities. *)
Record Manager := mkManager {
  inFlight : bool;
  pendingTimer : option timerId;
  signalDelay : Z
}.

Definition NewManager (delay : Z) : Manager := mkManager false None delay.

(** ** The critical sections *)
Definition begin (m : Manager) : bool * Manager :=
  if inFlight m then (false, m) else (true, mkManager true (pendingTimer m) (signalDelay m)).

(** One pass of the loop of [beginBlocking]: [None] waits. *)
Definition beginBlocking (m : Manager) : option Manager :=
  if inFlight m then None else Some (mkManager true (pendingTimer m) (signalDelay m)).

(** One pass of the loop of [beginBlockingContext]; [cancelled] is [ctx.Err() != nil]. *)
Inductive contextResult := Wait | Abandoned | Acquired (m : Manager).

Definition beginBlockingContext (cancelled : bool) (m : Manager) : contextResult :=
  if inFlight m then (if cancelled then Abandoned else Wait)
  else if cancelled then Abandoned
  else Acquired (mkManager true (pendingTimer m) (signalDelay m)).

Definition end_ (m : Manager) : Manager := mkManager false (pendingTimer m) (signalDelay m).

Definition endPending (t : timerId) (m : Manager) : Manager :=
  mkManager false (if bool_decide (pendingTimer m = Some t) then None else pendingTimer m) (signalDelay m).

Definition effectiveDelay (delay : Z) (m : Manager) : Z := if delay <=? 0 then signalDelay m else delay.

(** [time.AfterFunc] makes timer [t]. *)
Definition armRestartTimer (t : timerId) (m : Manager) : Manager := mkManager (inFlight m) (Some t) (signalDelay m).

(** One pass of the loop of [ScheduleRestartBlocking]. *)
Inductive scheduleResult := AlreadyPending | ScheduleWait | Reserved (m : Manager).

Definition scheduleBlocking (m : Manager) : scheduleResult :=
  if inFlight m then
    match pendingTimer m with Some _ => AlreadyPending | None => ScheduleWait end
  else Reserved (mkManager true (pendingTimer m) (signalDelay m)).

(** [stopped] is the answer of [timer.Stop]. *)
Definition cancelPending (stopped : bool) (m : Manager) : Manager :=
  match pendingTimer m with
  | None => m
  | Some _ => mkManager (if stopped then false else inFlight m) None (signalDelay m)
  end.

(** ** The system *)

(** A timer waits to fire; its callback has started; the callback has released the
    manager and is about to send the signal; it has sent it; or it was stopped. *)
Inductive timerState := Armed | Firing | Released | Signalled | Stopped.

#[export] Instance timerState_eq_dec : EqDecision timerState.
Proof. solve_decision. Defined.

(** What a goroutine that owns the manager is doing. *)
Inductive phase := Running | Arming (delay : Z).

Record system := mkSystem {
  sManager : Manager;
  sOwners : gmap threadId phase;
  sTimers : gmap timerId timerState;
  sSignals : Z
}.

Definition start (delay : Z) : system := mkSystem (NewManager delay) ∅ ∅ 0.

(** The steps: [t] is a goroutine without other business, [k] a new timer. *)
Inductive step : system -> system -> Prop :=
| step_run m m' os ts n t :
    begin m = (true, m') -> os !! t = None ->
    step (mkSystem m os ts n) (mkSystem m' (<[t := Running]> os) ts n)
| step_run_blocking m m' os ts n t :
    beginBlocking m = Some m' -> os !! t = None ->
    step (mkSystem m os ts n) (mkSystem m' (<[t := Running]> os) ts n)
| step_run_context m m' os ts n t c :
    beginBlockingContext c m = Acquired m' -> os !! t = None ->
    step (mkSystem m os ts n) (mkSystem m' (<[t := Running]> os) ts n)
| step_end m os ts n t :
    os !! t = Some Running ->
    step (mkSystem m os ts n) (mkSystem (end_ m) (delete t os) ts n)
| step_schedule m m' os ts n t d :
    begin m = (true, m') -> os !! t = None ->
    step (mkSystem m os ts n) (mkSystem m' (<[t := Arming (effectiveDelay d m)]> os) ts n)
| step_schedule_blocking m m' os ts n t d :
    scheduleBlocking m = Reserved m' -> os !! t = None ->
    step (mkSystem m os ts n) (mkSystem m' (<[t := Arming (effectiveDelay d m)]> os) ts n)
| step_arm m os ts n t d k :
    os !! t = Some (Arming d) -> ts !! k = None ->
    step (mkSystem m os ts n) (mkSystem (armRestartTimer k m) (delete t os) (<[k := Armed]> ts) n)
| step_fire m os ts n k :
    ts !! k = Some Armed ->
    step (mkSystem m os ts n) (mkSystem m os (<[k := Firing]> ts) n)
| step_release m os ts n k :
    ts !! k = Some Firing ->
    step (mkSystem m os ts n) (mkSystem (endPending k m) os (<[k := Released]> ts) n)
| step_signal m os ts n k :
    ts !! k = Some Released ->
    step (mkSystem m os ts n) (mkSystem m os (<[k := Signalled]> ts) (n + 1))
| step_cancel_armed m os ts n k :
    pendingTimer m = Some k -> ts !! k = Some Armed ->
    step (mkSystem m os ts n) (mkSystem (cancelPending true m) os (<[k := Stopped]> ts) n)
| step_cancel_late m os ts n k :
    pendingTimer m = Some k -> ts !! k <> Some Armed ->
    step (mkSystem m os ts n) (mkSystem (cancelPending false m) os ts n).

(** ** Ownership
    The manager is owned by a goroutine or by a timer whose callback has not
    released it. *)
Definition holds (s : timerState) : bool := bool_decide (s = Armed) || bool_decide (s = Firing).

Definition holding (ts : gmap timerId timerState) : gmap timerId timerState := filter (fun kv => holds kv.2 = true) ts.

Definition owner_count (s : system) : nat := (size (sOwners s) + size (holding (sTimers s)))%nat.

Record inv (s : system) : Prop := mkInv {
  inv_one : owner_count s = if inFlight (sManager s) then 1%nat else 0%nat;
  inv_pending : forall k, pendingTimer (sManager s) = Some k -> exists st, sTimers s !! k = Some st /\ holds st = true;
  inv_armed : forall k, sTimers s !! k = Some Armed -> pendingTimer (sManager s) = Some k
}.

Lemma holding_lookup ts k st : holding ts !! k = Some st <-> ts !! k = Some st /\ holds st = true.
Proof. unfold holding. rewrite map_lookup_filter_Some. done. Qed.

Lemma holding_insert_new ts k st : ts !! k = None -> holds st = true -> size (holding (<[k := st]> ts)) = S (size (holding ts)).
Proof.
  intros Hk Hs. unfold holding. rewrite map_filter_insert_True by done. apply map_size_insert_None.
  apply map_lookup_filter_None. by left.
Qed.

Lemma holding_insert_keep ts k st st' :
  ts !! k = Some st -> holds st = true -> holds st' = true -> size (holding (<[k := st']> ts)) = size (holding ts).
Proof.
  intros Hk Hs Hs'. unfold holding. rewrite map_filter_insert_True by done. apply map_size_insert_Some.
  exists st. apply map_lookup_filter_Some. done.
Qed.

Lemma holding_insert_drop ts k st st' :
  ts !! k = Some st -> holds st = true -> holds st' = false -> S (size (holding (<[k := st']> ts))) = size (holding ts).
Proof.
  intros Hk Hs Hs'. unfold holding. rewrite map_filter_insert_False by (simpl; congruence).
  assert (Hin : holding ts !! k = Some st) by (by apply holding_lookup).
  rewrite map_filter_delete, map_size_delete_Some by (by exists st). unfold holding in *.
  destruct (size _) eqn:E; [|lia]. apply map_size_empty_inv in E. rewrite E in Hin. by rewrite lookup_empty in Hin.
Qed.

Lemma holding_insert_none ts k st st' :
  ts !! k = Some st -> holds st = false -> holds st' = false -> size (holding (<[k := st']> ts)) = size (holding ts).
Proof.
  intros Hk Hs Hs'. unfold holding. rewrite map_filter_insert_False by (simpl; congruence).
  rewrite map_filter_delete, delete_id; [done|]. apply map_lookup_filter_None. right. simpl.
  intros x Hx. rewrite Hk in Hx. injection Hx as <-. congruence.
Qed.

(** Taking the manager when nobody has it. *)
Lemma inv_acquire m os ts n t p :
  inv (mkSystem m os ts n) -> inFlight m = false -> os !! t = None ->
  inv (mkSystem (mkManager true (pendingTimer m) (signalDelay m)) (<[t := p]> os) ts n).
Proof.
  intros [H1 H2 H3] Hf Ht. unfold owner_count in *. simpl in *. constructor; try done.
  unfold owner_count. simpl. rewrite map_size_insert_None by done. rewrite Hf in H1. lia.
Qed.

(** A goroutine that owns the manager is its only owner. *)
Lemma inv_owner m os ts n t p :
  inv (mkSystem m os ts n) -> os !! t = Some p ->
  inFlight m = true /\ size (delete t os) = 0%nat /\ size (holding ts) = 0%nat.
Proof.
  intros [H1 _ _] Ht. unfold owner_count in H1. simpl in H1.
  rewrite map_size_delete_Some by (by exists p).
  assert (Hs : size os <> 0%nat).
  { intros E%map_size_empty_inv. rewrite E in Ht. by rewrite lookup_empty in Ht. }
  destruct (inFlight m); [split_and!; lia|lia].
Qed.

Lemma no_holding ts : size (holding ts) = 0%nat -> forall k st, ts !! k = Some st -> holds st = false.
Proof.
  intros E%map_size_empty_inv k st Hk. destruct (holds st) eqn:Hs; [|done].
  assert (holding ts !! k = Some st) as Hin by (by apply holding_lookup). rewrite E in Hin.
  by rewrite lookup_empty in Hin.
Qed.

(** A timer that holds the manager is its only owner. *)
Lemma inv_timer m os ts n k st :
  inv (mkSystem m os ts n) -> ts !! k = Some st -> holds st = true ->
  inFlight m = true /\ size os = 0%nat /\ size (holding ts) = 1%nat /\
  forall k' st', ts !! k' = Some st' -> holds st' = true -> k' = k.
Proof.
  intros [H1 _ _] Hk Hs. unfold owner_count in H1. simpl in H1.
  assert (Hin : holding ts !! k = Some st) by (by apply holding_lookup).
  assert (Hne : size (holding ts) <> 0%nat).
  { intros E%map_size_empty_inv. rewrite E in Hin. by rewrite lookup_empty in Hin. }
  assert (Hone : size (holding ts) = 1%nat) by (destruct (inFlight m); lia).
  split_and!; [by destruct (inFlight m); [|lia]|destruct (inFlight m); lia|done|].
  intros k' st' Hk' Hs'. assert (Hin' : holding ts !! k' = Some st') by (by apply holding_lookup).
  destruct (decide (k' = k)) as [|Hd]; [done|exfalso].
  assert (Hdel : size (delete k (holding ts)) = 0%nat) by (rewrite map_size_delete_Some by (by exists st); lia).
  apply map_size_empty_inv in Hdel. assert (Hx : delete k (holding ts) !! k' = Some st') by (by rewrite lookup_delete_ne).
  rewrite Hdel in Hx. by rewrite lookup_empty in Hx.
Qed.

Lemma begin_true m m' : begin m = (true, m') -> inFlight m = false /\ m' = mkManager true (pendingTimer m) (signalDelay m).
Proof. unfold begin. destruct (inFlight m); [done|]. by intros [= <-]. Qed.

Lemma inv_step s s' : inv s -> step s s' -> inv s'.
Proof.
  intros Hinv Hstep. destruct Hstep as
    [m m' os ts n t Hb Ht|m m' os ts n t Hb Ht|m m' os ts n t c Hb Ht|m os ts n t Ht|m m' os ts n t d Hb Ht
    |m m' os ts n t d Hb Ht|m os ts n t d k Ht Hk|m os ts n k Hk|m os ts n k Hk|m os ts n k Hk
    |m os ts n k Hp Hk|m os ts n k Hp Hk].
  - apply begin_true in Hb as [Hf ->]. by apply inv_acquire.
  - unfold beginBlocking in Hb. destruct (inFlight m) eqn:Hf; [done|]. injection Hb as <-. by apply inv_acquire.
  - unfold beginBlockingContext in Hb. destruct (inFlight m) eqn:Hf; [by destruct c|].
    destruct c; [done|]. injection Hb as <-. by apply inv_acquire.
  - destruct (inv_owner _ _ _ _ _ _ Hinv Ht) as (Hf & Hos & Hts). constructor; simpl.
    + unfold owner_count. simpl. lia.
    + apply Hinv.
    + intros k Hk. by specialize (no_holding _ Hts k _ Hk).
  - apply begin_true in Hb as [Hf ->]. by apply inv_acquire.
  - unfold scheduleBlocking in Hb. destruct (inFlight m) eqn:Hf; [by destruct (pendingTimer m)|].
    injection Hb as <-. by apply inv_acquire.
  - destruct (inv_owner _ _ _ _ _ _ Hinv Ht) as (Hf & Hos & Hts). constructor; simpl.
    + unfold owner_count. simpl. rewrite Hf, holding_insert_new by done. lia.
    + intros k' [= <-]. exists Armed. by rewrite lookup_insert_eq.
    + intros k' [[<- _]|[_ Hk']]%lookup_insert_Some; [done|]. by specialize (no_holding _ Hts k' _ Hk').
  - pose proof Hinv as [H1 H2 H3]. constructor; simpl in *.
    + rewrite <- H1. unfold owner_count. simpl. by rewrite (holding_insert_keep ts k Armed Firing).
    + intros k' Hk'. destruct (decide (k' = k)) as [->|Hne]; [exists Firing; by rewrite lookup_insert_eq|].
      rewrite lookup_insert_ne by done. eauto.
    + intros k' [[_ [=]]|[_ Hk']]%lookup_insert_Some. eauto.
  - destruct (inv_timer _ _ _ _ _ _ Hinv Hk eq_refl) as (Hf & Hos & Hone & Huniq). pose proof Hinv as [H1 H2 H3].
    constructor; simpl in *.
    + unfold owner_count. simpl. pose proof (holding_insert_drop ts k Firing Released Hk eq_refl eq_refl). lia.
    + intros k'. case_bool_decide as Hp; [done|]. intros Hk'. destruct (H2 k' Hk') as (st & Hst & Hh).
      pose proof (Huniq k' st Hst Hh). congruence.
    + intros k' [[_ [=]]|[Hne Hk']]%lookup_insert_Some. pose proof (Huniq k' Armed Hk' eq_refl). congruence.
  - pose proof Hinv as [H1 H2 H3]. constructor; simpl in *.
    + rewrite <- H1. unfold owner_count. simpl. by rewrite (holding_insert_none ts k Released Signalled).
    + intros k' Hk'. destruct (H2 k' Hk') as (st & Hst & Hh). exists st. split; [|done].
      rewrite lookup_insert_ne; [done|]. intros <-. rewrite Hk in Hst. injection Hst as <-. done.
    + intros k' [[_ [=]]|[_ Hk']]%lookup_insert_Some. eauto.
  - destruct (inv_timer _ _ _ _ _ _ Hinv Hk eq_refl) as (Hf & Hos & Hone & Huniq).
    unfold cancelPending. rewrite Hp. constructor; simpl; [|done|].
    + unfold owner_count. simpl. pose proof (holding_insert_drop ts k Armed Stopped Hk eq_refl eq_refl). lia.
    + intros k' [[_ [=]]|[Hne Hk']]%lookup_insert_Some. pose proof (Huniq k' Armed Hk' eq_refl). congruence.
  - pose proof Hinv as [H1 H2 H3]. unfold cancelPending. rewrite Hp. constructor; simpl in *; [done..|].
    intros k' Hk'. pose proof (H3 k' Hk'). congruence.
Qed.

Lemma inv_start d : inv (start d).
Proof. constructor; simpl; done. Qed.

Lemma inv_reachable d s : rtc step (start d) s -> inv s.
Proof.
  intros H. assert (Hg : forall a b, rtc step a b -> inv a -> inv b)
    by (induction 1; eauto using inv_step). eapply Hg; [exact H|apply inv_start].
Qed.

(** A timer that holds the manager is on its way to its signal. *)
Lemma timer_signals m os ts n k st :
  ts !! k = Some st -> holds st = true ->
  exists m' ts', rtc step (mkSystem m os ts n) (mkSystem m' os ts' (n + 1)) /\ ts' !! k = Some Signalled /\
    inFlight m' = false.
Proof.
  intros Hk Hs.
  assert (Hfire : exists ts1, rtc step (mkSystem m os ts n) (mkSystem m os ts1 n) /\ ts1 !! k = Some Firing).
  { destruct st; try done.
    - exists (<[k := Firing]> ts). split; [apply rtc_once; by apply step_fire|apply lookup_insert_eq].
    - exists ts. split; [apply rtc_refl|done]. }
  destruct Hfire as (ts1 & H1 & Hk1).
  exists (endPending k m), (<[k := Signalled]> (<[k := Released]> ts1)).
  split_and!; [|apply lookup_insert_eq|done].
  etransitivity; [exact H1|]. eapply rtc_l; [by apply step_release|]. apply rtc_once. apply step_signal.
  apply lookup_insert_eq.
Qed.

(** C23: in every interleaving, at most one goroutine or timer owns the manager, so two restart or apply operations
    never run at the same time and never next to a scheduled restart; the in-flight flag is set exactly while there is
    an owner; and at most one timer is waiting to fire, the pending one. *)
Theorem restarts_exclusive delay s :
  rtc step (start delay) s ->
  (forall t1 t2 p1 p2, sOwners s !! t1 = Some p1 -> sOwners s !! t2 = Some p2 -> t1 = t2) /\
  (forall t p k st, sOwners s !! t = Some p -> sTimers s !! k = Some st -> holds st = false) /\
  (forall k1 k2 st1 st2, sTimers s !! k1 = Some st1 -> sTimers s !! k2 = Some st2 ->
     holds st1 = true -> holds st2 = true -> k1 = k2) /\
  (inFlight (sManager s) = true <->
     (exists t p, sOwners s !! t = Some p) \/ (exists k st, sTimers s !! k = Some st /\ holds st = true)) /\
  (forall k, sTimers s !! k = Some Armed -> pendingTimer (sManager s) = Some k).
Proof.
  intros Hr%inv_reachable. destruct s as [m os ts n]. simpl. split_and!.
  - intros t1 t2 p1 p2 H1 H2. destruct (inv_owner _ _ _ _ _ _ Hr H1) as (_ & Hd%map_size_empty_inv & _).
    destruct (decide (t1 = t2)) as [|Hne]; [done|]. exfalso.
    assert (Hx : delete t1 os !! t2 = Some p2) by (by rewrite lookup_delete_ne). rewrite Hd in Hx.
    by rewrite lookup_empty in Hx.
  - intros t p k st Ht Hk. destruct (inv_owner _ _ _ _ _ _ Hr Ht) as (_ & _ & Hts). by apply (no_holding _ Hts k).
  - intros k1 k2 st1 st2 H1 H2 Hh1 Hh2. destruct (inv_timer _ _ _ _ _ _ Hr H2 Hh2) as (_ & _ & _ & Hu). eauto.
  - split.
    + intros Hf. destruct Hr as [H1 _ _]. unfold owner_count in H1. simpl in H1. rewrite Hf in H1.
      destruct (decide (os = ∅)) as [->|Hos].
      * right. rewrite map_size_empty in H1. destruct (map_choose (holding ts)) as (k & st & Hk).
        { intros E. rewrite E, map_size_empty in H1. lia. }
        exists k, st. by apply holding_lookup.
      * left. destruct (map_choose os Hos) as (t & p & Ht). by exists t, p.
    + intros [(t & p & Ht)|(k & st & Hk & Hs)]; [by apply (inv_owner _ _ _ _ _ _ Hr Ht)|
        by apply (inv_timer _ _ _ _ _ _ Hr Hk Hs)].
  - apply Hr.
Qed.

(** C37: A blocking schedule that returns because a restart is already pending is right to: in every reachable state in
    which it does so, the pending timer still holds the manager and the run in which nothing cancels it sends one more
    signal. *)
Theorem schedule_blocking_is_covered delay s :
  rtc step (start delay) s -> scheduleBlocking (sManager s) = AlreadyPending ->
  exists k st s', pendingTimer (sManager s) = Some k /\ sTimers s !! k = Some st /\ holds st = true /\
    rtc step s s' /\ sTimers s' !! k = Some Signalled /\ sSignals s' = sSignals s + 1.
Proof.
  intros Hr%inv_reachable Hs. destruct s as [m os ts n]. simpl in *. unfold scheduleBlocking in Hs.
  destruct (inFlight m); [|done]. destruct (pendingTimer m) as [k|] eqn:Hp; [|done].
  destruct (inv_pending _ Hr k Hp) as (st & Hk & Hh). simpl in Hk.
  destruct (timer_signals m os ts n k st Hk Hh) as (m' & ts' & Hrun & Hsig & _).
  exists k, st, (mkSystem m' os ts' (n + 1)). done.
Qed.

(** A timer number that was never used. *)
Lemma fresh_timer (ts : gmap timerId timerState) : exists k, ts !! k = None.
Proof. exists (fresh (dom ts)). apply not_elem_of_dom, is_fresh. Qed.

(** the manager is never leaked: from every reachable state the current owner alone can run to the point where
    the manager is free again, so a waiting restart can always proceed. *)
Theorem manager_never_leaked delay s :
  rtc step (start delay) s -> exists s', rtc step s s' /\ inFlight (sManager s') = false.
Proof.
  intros Hr%inv_reachable. destruct s as [m os ts n].
  destruct (inFlight m) eqn:Hf; [|by exists (mkSystem m os ts n); split; [apply rtc_refl|]].
  assert (Htimer : forall m ts k st, ts !! k = Some st -> holds st = true ->
            exists s', rtc step (mkSystem m ∅ ts n) s' /\ inFlight (sManager s') = false).
  { intros m0 ts0 k st Hk Hs. destruct (timer_signals m0 ∅ ts0 n k st Hk Hs) as (m' & ts' & H1 & _ & H2).
    by exists (mkSystem m' ∅ ts' (n + 1)). }
  destruct (decide (os = ∅)) as [->|Hos].
  - pose proof (inv_one _ Hr) as H1. unfold owner_count in H1. simpl in H1. rewrite Hf, map_size_empty in H1.
    destruct (map_choose (holding ts)) as (k & st & Hk); [intros E; rewrite E, map_size_empty in H1; lia|].
    apply holding_lookup in Hk as [Hk Hs]. eauto.
  - destruct (map_choose os Hos) as (t & p & Ht). destruct p as [|d].
    + eexists. split; [apply rtc_once, (step_end _ _ _ _ t), Ht|done].
    + destruct (inv_owner _ _ _ _ _ _ Hr Ht) as (_ & Hd%map_size_empty_inv & _). destruct (fresh_timer ts) as (k & Hk).
      destruct (Htimer (armRestartTimer k m) (<[k := Armed]> ts) k Armed) as (s' & Hrun & Hfree);
        [apply lookup_insert_eq|done|].
      exists s'. split; [|done]. eapply rtc_l; [by eapply (step_arm _ _ _ _ t d k)|]. by rewrite Hd.
Qed.

Module RestartExample.
(** A scheduled restart whose timer is firing while another schedule asks for one. *)
Definition scheduled : system := mkSystem (mkManager true (Some 1) 3) ∅ {[ 1 := Armed ]} 0.

Lemma scheduled_reachable : rtc step (start 3) scheduled.
Proof.
  eapply rtc_l; [eapply (step_schedule _ _ _ _ _ 7 0); reflexivity|].
  eapply rtc_l; [eapply (step_arm _ _ _ _ 7 3 1); reflexivity|].
  apply rtc_refl.
Qed.

Lemma restarts_exclusive_witness :
  inFlight (sManager scheduled) = true /\
  forall k1 k2 st1 st2, sTimers scheduled !! k1 = Some st1 -> sTimers scheduled !! k2 = Some st2 ->
    holds st1 = true -> holds st2 = true -> k1 = k2.
Proof. exact (conj eq_refl (proj1 (proj2 (proj2 (restarts_exclusive 3 scheduled scheduled_reachable))))). Defined.

Lemma schedule_blocking_is_covered_witness :
  exists k st s', pendingTimer (sManager scheduled) = Some k /\ sTimers scheduled !! k = Some st /\ holds st = true /\
    rtc step scheduled s' /\ sTimers s' !! k = Some Signalled /\ sSignals s' = sSignals scheduled + 1.
Proof. exact (schedule_blocking_is_covered 3 scheduled scheduled_reachable eq_refl). Defined.

Lemma manager_never_leaked_witness : exists s', rtc step scheduled s' /\ inFlight (sManager s') = false.
Proof. exact (manager_never_leaked 3 scheduled scheduled_reachable). Defined.
End RestartExample.
