(* ===== verification/VersionPolicy.v ===== *)
(** * Release versions ([config/versionpolicy])

    Parsing, normalizing and ordering of release versions.  The update service and
    the settings migration decide with these functions whether a version is newer;
    the theorems show that the order they decide by is a strict weak order on all
    strings and that normalizing a version keeps what was parsed. *)

From S2P Require Import Prelude GoStrings.

Open Scope string_scope.
Open Scope list_scope.
Open Scope Z_scope.

(** ** [strconv] on non-negative decimal numbers *)
Definition digit_value (c : Ascii.ascii) : Z := code c - 48.

Definition digit_char (d : Z) : Ascii.ascii := Ascii.ascii_of_nat (Z.to_nat (48 + d)).

(** The value of a string of digits that follows the digits of [v]. *)
Fixpoint decimal_from (v : Z) (s : string) : Z :=
  match s with
  | "" => v
  | String c s' => decimal_from (10 * v + digit_value c) s'
  end.

(** [strconv.Atoi] of a non-empty string of digits: [None] when out of range. *)
Definition Atoi (s : string) : option Z :=
  let v := decimal_from 0 s in if v <=? int64_max then Some v else None.

Fixpoint decimal_digits (fuel : nat) (n : Z) (acc : string) : string :=
  match fuel with
  | O => acc
  | S fuel' =>
      if n <? 10 then String (digit_char n) acc
      else decimal_digits fuel' (n / 10) (String (digit_char (n mod 10)) acc)
  end.

(** [strconv.Itoa] of a non-negative [int]: it has at most nineteen digits. *)
Definition Itoa (n : Z) : string := decimal_digits 20 n "".

(** ** Data *)
Record Semver := mkSemver {
  Major : Z;
  Minor : Z;
  Patch : Z;
  Prerelease : list string;
  Build : string
}.

Definition dot : Ascii.ascii := Ascii.ascii_of_nat 46.
Definition hyphen : Ascii.ascii := Ascii.ascii_of_nat 45.
Definition plus : Ascii.ascii := Ascii.ascii_of_nat 43.
Definition zero : Ascii.ascii := Ascii.ascii_of_nat 48.

(** ** Parsing *)
Definition isAllDigits (value : string) : bool := all_chars is_digit value && negb (String.eqb value "").

(** [strconv.Atoi]. *)
Definition AtoiSigned (s : string) : option Z :=
  let '(negative, digits) :=
    match s with
    | String c rest =>
        if Ascii.eqb c hyphen then (true, rest) else if Ascii.eqb c plus then (false, rest) else (false, s)
    | "" => (false, s)
    end in
  if negb (isAllDigits digits) then None
  else
    let v := (if negative then -1 else 1) * decimal_from 0 digits in
    if (int64_min <=? v) && (v <=? int64_max) then Some v else None.

Definition parseNumericIdentifier (value : string) : option Z :=
  match value with
  | "" => None
  | String c rest =>
      if (1 <? slen value) && Ascii.eqb c zero then None
      else if negb (all_chars is_digit value) then None
      else match Atoi value with
           | Some parsed => if 0 <=? parsed then Some parsed else None
           | None => None
           end
  end.

Definition identifier_char (c : Ascii.ascii) : bool := is_digit c || is_upper c || is_lower c || Ascii.eqb c hyphen.

(** One identifier of the loop of [validIdentifierList]. *)
Definition validIdentifier (rejectZeroPaddedNumbers : bool) (id : string) : bool :=
  negb (String.eqb id "") && all_chars identifier_char id &&
  negb (rejectZeroPaddedNumbers &&
        match parseNumericIdentifier id with None => isAllDigits id | Some _ => false end).

Definition validIdentifierList (value : string) (rejectZeroPaddedNumbers : bool) : bool :=
  if String.eqb value "" then false
  else forallb (validIdentifier rejectZeroPaddedNumbers) (Split value dot).

(** The three numbers of the core. *)
Definition parseCore (coreFields : list string) : option (Z * Z * Z) :=
  match coreFields with
  | [a; b; c] =>
      match parseNumericIdentifier a, parseNumericIdentifier b, parseNumericIdentifier c with
      | Some x, Some y, Some z => Some (x, y, z)
      | _, _, _ => None
      end
  | _ => None
  end.

(** The core and the prerelease of a version, with its build metadata. *)
Definition parseRelease (coreAndPrerelease build : string) (allowLegacyMinor : bool) : option Semver :=
  let '(corePart, prerelease, _) := Cut coreAndPrerelease hyphen in
  let coreFields := Split corePart dot in
  let coreFields := if (Nat.eqb (length coreFields) 2) && allowLegacyMinor then coreFields ++ ["0"] else coreFields in
  match parseCore coreFields with
  | None => None
  | Some (major, minor, patch) =>
      if String.eqb prerelease "" then Some (mkSemver major minor patch [] build)
      else if negb (validIdentifierList prerelease true) then None
      else Some (mkSemver major minor patch (Split prerelease dot) build)
  end.

Definition parseVersion (version : string) (allowLegacyMinor : bool) : option Semver :=
  let version := TrimSpace version in
  let version := TrimPrefix (TrimPrefix version "v") "V" in
  if String.eqb version "" then None
  else
    match Split version plus with
    | [core] => parseRelease core "" allowLegacyMinor
    | [core; build] => if negb (validIdentifierList build false) then None else parseRelease core build allowLegacyMinor
    | _ => None
    end.

Definition ParseSemver (version : string) : option Semver := parseVersion version false.

(** ** Ordering *)

(** [strings.Compare]: bytewise. *)
Fixpoint Compare (left right : string) : Z :=
  match left, right with
  | "", "" => 0
  | "", _ => -1
  | _, "" => 1
  | String a left', String b right' =>
      if code a <? code b then -1 else if code b <? code a then 1 else Compare left' right'
  end.

Definition compare_int (x y : Z) : Z := if y <? x then 1 else if x <? y then -1 else 0.

Definition comparePrereleaseIdentifier (left right : string) : Z :=
  match parseNumericIdentifier left, parseNumericIdentifier right with
  | Some leftNum, Some rightNum => compare_int leftNum rightNum
  | Some _, None => -1
  | None, Some _ => 1
  | None, None => Compare left right
  end.

(** The loop over the common identifiers and the comparison of the lengths. *)
Fixpoint compareIdentifiers (left right : list string) : Z :=
  match left, right with
  | [], [] => 0
  | [], _ => -1
  | _, [] => 1
  | a :: left', b :: right' =>
      let cmp := comparePrereleaseIdentifier a b in
      if negb (cmp =? 0) then cmp else compareIdentifiers left' right'
  end.

Definition comparePrerelease (left right : list string) : Z :=
  match left, right with
  | [], [] => 0
  | [], _ => 1
  | _, [] => -1
  | _, _ => compareIdentifiers left right
  end.

Definition compareSemver (left right : Semver) : Z :=
  if negb (compare_int (Major left) (Major right) =? 0) then compare_int (Major left) (Major right)
  else if negb (compare_int (Minor left) (Minor right) =? 0) then compare_int (Minor left) (Minor right)
  else if negb (compare_int (Patch left) (Patch right) =? 0) then compare_int (Patch left) (Patch right)
  else comparePrerelease (Prerelease left) (Prerelease right).

Definition CompareVersions (left right : string) : option Z :=
  match parseVersion left true, parseVersion right true with
  | Some leftVersion, Some rightVersion => Some (compareSemver leftVersion rightVersion)
  | _, _ => None
  end.

(** ** Normalizing *)
Definition format (v : Semver) : string :=
  Itoa (Major v) +:+ "." +:+ Itoa (Minor v) +:+ "." +:+ Itoa (Patch v) +:+
  (match Prerelease v with [] => "" | ids => "-" +:+ Join ids "." end) +:+
  (if String.eqb (Build v) "" then "" else "+" +:+ Build v).

Definition NormalizeVersion (version : string) : string :=
  match parseVersion version true with None => "" | Some semver => format semver end.

Definition VersionIsNewer (candidate current : string) : bool :=
  match CompareVersions candidate current with
  | None => negb (String.eqb (NormalizeVersion candidate) "") &&
            negb (String.eqb (NormalizeVersion candidate) (NormalizeVersion current))
  | Some cmp => 0 <? cmp
  end.

Definition ValidateReleaseVersion (version : string) : result string unit :=
  let trimmed := TrimSpace version in
  if String.eqb trimmed "" then Err "version is empty"
  else if HasPrefix trimmed "v" || HasPrefix trimmed "V" then Err "config/identity/version must not include a leading v"
  else if Contains trimmed "+" then Err "config/identity/version must not include build metadata"
  else
    match ParseSemver trimmed with
    | None => Err "version must be MAJOR.MINOR.PATCH[-PRERELEASE]"
    | Some semver =>
        if forallb (fun id => String.eqb id (ToLower id)) (Prerelease semver) then Ok tt
        else Err "prerelease identifiers must be lowercase"
    end.

Example normalize_example : NormalizeVersion " v2025.4-rc.1+b.7 " = "2025.4.0-rc.1+b.7".
Proof. vm_compute. reflexivity. Qed.

Example newer_example :
  VersionIsNewer "v2025.4.0" "2025.4.0-rc.2" = true /\ VersionIsNewer "2025.4.0-rc.10" "2025.4.0-rc.9" = true /\
  VersionIsNewer "2025.4.0-1" "2025.4.0-beta" = false /\ VersionIsNewer "2025.4.0" "unknown" = true.
Proof. vm_compute. done. Qed.

Example validate_example :
  ValidateReleaseVersion "2025.4.0-rc.1" = Ok tt /\ ValidateReleaseVersion "2025.04.0" <> Ok tt /\
  ValidateReleaseVersion "2025.4.0-99999999999999999999" <> Ok tt.
Proof. vm_compute. done. Qed.

(** ** Comparisons
    What every comparison function of this package promises to its callers. *)
Class Comparison {A : Type} (cmp : A -> A -> Z) : Prop := {
  cmp_sign : forall a b, -1 <= cmp a b <= 1;
  cmp_antisym : forall a b, cmp b a = - cmp a b;
  cmp_trans : forall a b c, cmp a b <= 0 -> cmp b c <= 0 -> cmp a c <= 0
}.

Section ComparisonFacts.
Context {A : Type} (cmp : A -> A -> Z) `{!Comparison cmp}.

(** All that a case analysis over three values needs. *)
Lemma cmp_facts a b c :
  (cmp a b <= 0 -> cmp b c <= 0 -> cmp a c <= 0) /\
  (cmp a b < 0 -> cmp b c <= 0 -> cmp a c < 0) /\
  (cmp a b <= 0 -> cmp b c < 0 -> cmp a c < 0) /\
  (cmp a b = 0 -> cmp b c = 0 -> cmp a c = 0) /\
  -1 <= cmp a b <= 1 /\ -1 <= cmp b c <= 1 /\ -1 <= cmp a c <= 1.
Proof.
  pose proof (cmp_trans a b c). pose proof (cmp_trans c a b). pose proof (cmp_trans b c a).
  pose proof (cmp_trans c b a). pose proof (cmp_trans b a c). pose proof (cmp_trans a c b).
  pose proof (cmp_antisym a b). pose proof (cmp_antisym b c). pose proof (cmp_antisym a c).
  pose proof (cmp_sign a b). pose proof (cmp_sign b c). pose proof (cmp_sign a c). lia.
Qed.

Lemma cmp_refl a : cmp a a = 0.
Proof. pose proof (cmp_antisym a a). lia. Qed.
End ComparisonFacts.

(** Comparing by a first criterion and, when it ties, by a second. *)
Definition then_by (c1 c2 : Z) : Z := if negb (c1 =? 0) then c1 else c2.

#[export] Instance then_by_comparison {A : Type} (f g : A -> A -> Z) :
  Comparison f -> Comparison g -> Comparison (fun a b => then_by (f a b) (g a b)).
Proof.
  intros Hf Hg. unfold then_by. split.
  - intros a b. pose proof (cmp_sign (cmp := f) a b). pose proof (cmp_sign (cmp := g) a b).
    destruct (f a b =? 0); simpl; lia.
  - intros a b. rewrite (cmp_antisym (cmp := f) a b), (cmp_antisym (cmp := g) a b).
    destruct (Z.eqb_spec (f a b) 0), (Z.eqb_spec (- f a b) 0); simpl; lia.
  - intros a b c. pose proof (cmp_facts f a b c). pose proof (cmp_facts g a b c).
    destruct (Z.eqb_spec (f a b) 0), (Z.eqb_spec (f b c) 0), (Z.eqb_spec (f a c) 0); simpl; lia.
Qed.

(** Comparing images. *)
Lemma on_comparison {A B : Type} (cmp : B -> B -> Z) (key : A -> B) :
  Comparison cmp -> Comparison (fun a b => cmp (key a) (key b)).
Proof.
  intros H. split; intros; [apply cmp_sign|apply cmp_antisym|].
  by eapply (cmp_trans (cmp := cmp)).
Qed.

#[export] Instance compare_int_comparison : Comparison compare_int.
Proof.
  split; unfold compare_int; intros.
  - destruct (b <? a), (a <? b); lia.
  - destruct (Z.ltb_spec a b), (Z.ltb_spec b a); lia.
  - revert H H0. destruct (Z.ltb_spec b a), (Z.ltb_spec a b), (Z.ltb_spec c b), (Z.ltb_spec b c), (Z.ltb_spec c a),
      (Z.ltb_spec a c); lia.
Qed.

Lemma Compare_cons a s b t : Compare (String a s) (String b t) = then_by (compare_int (code a) (code b)) (Compare s t).
Proof.
  simpl. unfold then_by, compare_int. destruct (Z.ltb_spec (code a) (code b)), (Z.ltb_spec (code b) (code a)); simpl; lia.
Qed.

#[export] Instance Compare_comparison : Comparison Compare.
Proof.
  split.
  - intros a. induction a as [|x a IH]; intros [|y b]; [simpl; lia..|]. rewrite Compare_cons. specialize (IH b).
    pose proof (cmp_sign (cmp := compare_int) (code x) (code y)). unfold then_by. destruct (negb _); lia.
  - intros a. induction a as [|x a IH]; intros [|y b]; [simpl; lia..|]. rewrite !Compare_cons, IH. unfold then_by.
    rewrite (cmp_antisym (cmp := compare_int) (code x) (code y)).
    destruct (Z.eqb_spec (compare_int (code x) (code y)) 0), (Z.eqb_spec (- compare_int (code x) (code y)) 0); simpl; lia.
  - intros a. induction a as [|x a IH]; intros [|y b] [|z c]; try (simpl; lia). rewrite !Compare_cons. unfold then_by.
    specialize (IH b c). pose proof (cmp_facts compare_int (code x) (code y) (code z)).
    destruct (Z.eqb_spec (compare_int (code x) (code y)) 0), (Z.eqb_spec (compare_int (code y) (code z)) 0),
      (Z.eqb_spec (compare_int (code x) (code z)) 0); simpl; lia.
Qed.

#[export] Instance identifier_comparison : Comparison comparePrereleaseIdentifier.
Proof.
  split; unfold comparePrereleaseIdentifier.
  - intros a b. repeat case_match; try lia; apply cmp_sign.
  - intros a b. repeat case_match; try lia; apply cmp_antisym.
  - intros a b c. destruct (parseNumericIdentifier a), (parseNumericIdentifier b), (parseNumericIdentifier c);
      try lia; apply cmp_trans.
Qed.

Lemma compareIdentifiers_cons a s b t :
  compareIdentifiers (a :: s) (b :: t) = then_by (comparePrereleaseIdentifier a b) (compareIdentifiers s t).
Proof. done. Qed.

#[export] Instance identifiers_comparison : Comparison compareIdentifiers.
Proof.
  split.
  - intros a. induction a as [|x a IH]; intros [|y b]; [simpl; lia..|]. rewrite compareIdentifiers_cons.
    specialize (IH b). pose proof (cmp_sign (cmp := comparePrereleaseIdentifier) x y). unfold then_by. destruct (negb _); lia.
  - intros a. induction a as [|x a IH]; intros [|y b]; [simpl; lia..|]. rewrite !compareIdentifiers_cons, IH. unfold then_by.
    rewrite (cmp_antisym (cmp := comparePrereleaseIdentifier) x y).
    destruct (Z.eqb_spec (comparePrereleaseIdentifier x y) 0), (Z.eqb_spec (- comparePrereleaseIdentifier x y) 0); simpl; lia.
  - intros a. induction a as [|x a IH]; intros [|y b] [|z c]; try (simpl; lia). rewrite !compareIdentifiers_cons. unfold then_by.
    specialize (IH b c). pose proof (cmp_facts comparePrereleaseIdentifier x y z).
    destruct (Z.eqb_spec (comparePrereleaseIdentifier x y) 0), (Z.eqb_spec (comparePrereleaseIdentifier y z) 0),
      (Z.eqb_spec (comparePrereleaseIdentifier x z) 0); simpl; lia.
Qed.

#[export] Instance prerelease_comparison : Comparison comparePrerelease.
Proof.
  split.
  - intros [|x a] [|y b]; cbn [comparePrerelease]; [lia..|apply cmp_sign].
  - intros [|x a] [|y b]; cbn [comparePrerelease]; [lia..|apply cmp_antisym].
  - intros [|x a] [|y b] [|z c]; cbn [comparePrerelease]; try lia. apply cmp_trans.
Qed.

#[export] Instance semver_comparison : Comparison compareSemver.
Proof.
  change compareSemver with (fun a b => then_by (compare_int (Major a) (Major b))
    (then_by (compare_int (Minor a) (Minor b)) (then_by (compare_int (Patch a) (Patch b))
      (comparePrerelease (Prerelease a) (Prerelease b))))).
  repeat apply then_by_comparison;
    [apply (on_comparison compare_int Major)|apply (on_comparison compare_int Minor)|
     apply (on_comparison compare_int Patch)|apply (on_comparison comparePrerelease Prerelease)]; apply _.
Qed.

(** ** Decimal numbers *)

(** Linear arithmetic with division by constants. *)
Ltac dlia := Z.to_euclidean_division_equations; lia.

Lemma code_range c : 0 <= code c <= 255.
Proof. unfold code. pose proof (Ascii.nat_ascii_bounded c). lia. Qed.

Lemma code_ascii n : 0 <= n < 256 -> code (Ascii.ascii_of_nat (Z.to_nat n)) = n.
Proof. intros H. unfold code. rewrite Ascii.nat_ascii_embedding by lia. lia. Qed.

Lemma code_inj a b : code a = code b -> a = b.
Proof. unfold code. intros H. rewrite <- (Ascii.ascii_nat_embedding a), <- (Ascii.ascii_nat_embedding b). f_equal. lia. Qed.

Lemma is_digit_value c : is_digit c = true <-> 0 <= digit_value c <= 9.
Proof. unfold is_digit, between, digit_value. rewrite andb_true_iff, !Z.leb_le. lia. Qed.

Lemma digit_char_value d : 0 <= d <= 9 -> digit_value (digit_char d) = d.
Proof. intros H. unfold digit_value, digit_char. rewrite code_ascii by lia. lia. Qed.

Lemma digit_char_of c : is_digit c = true -> digit_char (digit_value c) = c.
Proof.
  intros H%is_digit_value. apply code_inj. unfold digit_char, digit_value in *. rewrite code_ascii; lia.
Qed.

Lemma decimal_digits_value fuel n acc :
  0 <= n < 10 ^ Z.of_nat fuel -> decimal_from 0 (decimal_digits fuel n acc) = decimal_from n acc.
Proof.
  revert n acc. induction fuel as [|fuel IH]; intros n acc Hn; [simpl in *; f_equal; lia|].
  cbn [decimal_digits]. destruct (Z.ltb_spec n 10).
  - cbn [decimal_from]. rewrite digit_char_value by lia. f_equal; lia.
  - rewrite IH.
    + cbn [decimal_from]. rewrite digit_char_value by dlia. f_equal; dlia.
    + rewrite Nat2Z.inj_succ, Z.pow_succ_r in Hn by lia. dlia.
Qed.

Lemma decimal_digits_all fuel n acc :
  0 <= n -> all_chars is_digit acc = true -> all_chars is_digit (decimal_digits fuel n acc) = true.
Proof.
  revert n acc. induction fuel as [|fuel IH]; intros n acc Hn Ha; [done|]. cbn [decimal_digits].
  destruct (Z.ltb_spec n 10).
  - cbn [all_chars]. rewrite Ha, andb_true_r. apply is_digit_value. rewrite digit_char_value; lia.
  - apply IH; [dlia|]. cbn [all_chars]. rewrite Ha, andb_true_r. apply is_digit_value. rewrite digit_char_value; dlia.
Qed.

Lemma decimal_digits_length (k : nat) fuel n acc :
  0 <= n < 10 ^ Z.of_nat (S k) -> slen (decimal_digits fuel n acc) <= Z.of_nat (S k) + slen acc.
Proof.
  revert fuel n acc. induction k as [|k IH]; intros [|fuel] n acc Hn; cbn [decimal_digits]; try lia.
  - destruct (Z.ltb_spec n 10); [unfold slen; simpl; lia|]. simpl in Hn. lia.
  - destruct (Z.ltb_spec n 10); [unfold slen; simpl; lia|].
    assert (Hd : 0 <= n / 10 < 10 ^ Z.of_nat (S k)).
    { split; [apply Z.div_pos; lia|]. apply Z.div_lt_upper_bound; [lia|].
      rewrite <- Z.pow_succ_r by lia. replace (Z.succ (Z.of_nat (S k))) with (Z.of_nat (S (S k))) by lia. lia. }
    specialize (IH fuel (n / 10) (String (digit_char (n mod 10)) acc) Hd). unfold slen in *. cbn [String.length] in IH. lia.
Qed.

Lemma decimal_digits_lead fuel n acc :
  0 < n < 10 ^ Z.of_nat fuel -> exists c s, decimal_digits fuel n acc = String c s /\ c <> zero.
Proof.
  revert n acc. induction fuel as [|fuel IH]; intros n acc Hn; [simpl in *; lia|]. cbn [decimal_digits].
  destruct (Z.ltb_spec n 10).
  - eexists _, _. split; [done|]. intros Hz. assert (Hv := digit_char_value n ltac:(lia)). rewrite Hz in Hv.
    vm_compute in Hv. lia.
  - apply IH. rewrite Nat2Z.inj_succ, Z.pow_succ_r in Hn by lia. dlia.
Qed.

(** Reading digits and printing the number gives the digits back. *)
Lemma decimal_digits_from s fuel v acc :
  0 < v -> all_chars is_digit s = true ->
  decimal_digits (fuel + String.length s) (decimal_from v s) acc = decimal_digits fuel v (s +:+ acc).
Proof.
  revert fuel v acc. induction s as [|c s IH]; intros fuel v acc Hv Hs.
  - cbn [String.length decimal_from]. by rewrite Nat.add_0_r.
  - cbn [all_chars] in Hs. apply andb_true_iff in Hs as [Hc Hs]. pose proof (proj1 (is_digit_value c) Hc) as Hd.
    cbn [String.length decimal_from]. rewrite Nat.add_succ_r, <- Nat.add_succ_l, IH by (lia || done).
    cbn [decimal_digits]. destruct (Z.ltb_spec (10 * v + digit_value c) 10); [lia|].
    replace ((10 * v + digit_value c) / 10) with v by dlia.
    replace ((10 * v + digit_value c) mod 10) with (digit_value c) by dlia.
    by rewrite digit_char_of.
Qed.

Lemma decimal_from_ge s v :
  0 <= v -> all_chars is_digit s = true -> v * 10 ^ slen s <= decimal_from v s.
Proof.
  revert v. induction s as [|c s IH]; intros v Hv Hs; [change (v * 10 ^ 0 <= v); lia|]. cbn [all_chars] in Hs.
  apply andb_true_iff in Hs as [Hc%is_digit_value Hs]. cbn [decimal_from].
  specialize (IH (10 * v + digit_value c) ltac:(lia) Hs).
  assert (Hl : slen (String c s) = Z.succ (slen s)) by (unfold slen; cbn [String.length]; lia).
  rewrite Hl, Z.pow_succ_r by apply slen_nonneg.
  pose proof (Z.pow_nonneg 10 (slen s) ltac:(lia)). nia.
Qed.

Lemma int64_digits : int64_max < 10 ^ 19.
Proof. unfold int64_max. lia. Qed.

Lemma parse_Itoa n : 0 <= n <= int64_max -> parseNumericIdentifier (Itoa n) = Some n.
Proof.
  intros Hn. pose proof int64_digits.
  assert (Hlt : n < 10 ^ Z.of_nat 20) by (change (10 ^ Z.of_nat 20) with (10 ^ 19 * 10); lia).
  assert (Hv : decimal_from 0 (Itoa n) = n) by (unfold Itoa; rewrite decimal_digits_value by lia; done).
  assert (Hd : all_chars is_digit (Itoa n) = true) by (apply decimal_digits_all; [lia|done]).
  destruct (decide (n = 0)) as [->|Hnz]; [done|].
  destruct (decimal_digits_lead 20 n "" ltac:(lia)) as (c & s & Hs & Hc). unfold Itoa in *. rewrite Hs in *.
  unfold parseNumericIdentifier. rewrite (proj2 (Ascii.eqb_neq c zero) Hc), andb_false_r, Hd. simpl negb.
  cbv iota. unfold Atoi. rewrite Hv. rewrite (proj2 (Z.leb_le n int64_max)) by lia.
  by rewrite (proj2 (Z.leb_le 0 n)) by lia.
Qed.

Lemma parse_canonical s n : parseNumericIdentifier s = Some n -> s = Itoa n /\ 0 <= n <= int64_max.
Proof.
  destruct s as [|c s]; [done|]. unfold parseNumericIdentifier. destruct (_ && _) eqn:Ez; [done|].
  destruct (all_chars is_digit (String c s)) eqn:Hd; [simpl negb|done]. cbv iota. unfold Atoi.
  destruct (Z.leb_spec (decimal_from 0 (String c s)) int64_max) as [Hm|]; [|done].
  destruct (Z.leb_spec 0 (decimal_from 0 (String c s))) as [H0|]; [|done].
  intros Hn. assert (n = decimal_from 0 (String c s)) as -> by congruence. clear Hn. split; [|split; assumption].
  cbn [all_chars] in Hd. apply andb_true_iff in Hd as [Hc Hs]. pose proof (proj1 (is_digit_value c) Hc) as Hcv.
  cbn [decimal_from] in *. replace (10 * 0 + digit_value c) with (digit_value c) in * by lia.
  destruct (decide (digit_value c = 0)) as [Hz|Hnz].
  - assert (c = zero) as -> by (apply code_inj; unfold digit_value in Hz; change (code zero) with 48; lia).
    rewrite Ascii.eqb_refl, andb_true_r in Ez. apply Z.ltb_ge in Ez.
    destruct s as [|d s]; [done|]. unfold slen in Ez. cbn [String.length] in Ez. lia.
  - assert (Hl : (String.length s < 19)%nat).
    { pose proof (decimal_from_ge s (digit_value c) ltac:(lia) Hs). pose proof int64_digits.
      destruct (decide (String.length s < 19)%nat); [done|exfalso].
      assert (10 ^ 19 <= 10 ^ slen s) by (apply Z.pow_le_mono_r; unfold slen; lia). nia. }
    unfold Itoa. replace 20%nat with (S (19 - String.length s) + String.length s)%nat by lia.
    rewrite decimal_digits_from by (lia || done). cbn [decimal_digits].
    destruct (Z.ltb_spec (digit_value c) 10); [|lia]. rewrite digit_char_of by done. by rewrite app_empty_r.
Qed.

(** ** What a parsed version is made of *)
Definition prerelease_ids (pre : string) : list string := if String.eqb pre "" then [] else Split pre dot.

Inductive parsed : Semver -> Prop :=
| parsed_intro a b c pre build :
    0 <= a <= int64_max -> 0 <= b <= int64_max -> 0 <= c <= int64_max ->
    (pre = "" \/ validIdentifierList pre true = true) -> (build = "" \/ validIdentifierList build false = true) ->
    parsed (mkSemver a b c (prerelease_ids pre) build).

Lemma parseCore_range l a b c :
  parseCore l = Some (a, b, c) -> 0 <= a <= int64_max /\ 0 <= b <= int64_max /\ 0 <= c <= int64_max.
Proof.
  destruct l as [|x [|y [|z [|]]]]; try done. simpl.
  destruct (parseNumericIdentifier x) eqn:Ex, (parseNumericIdentifier y) eqn:Ey, (parseNumericIdentifier z) eqn:Ez; try done.
  intros [= <- <- <-]. apply parse_canonical in Ex, Ey, Ez. tauto.
Qed.

Lemma parseRelease_parsed core build legacy v :
  parseRelease core build legacy = Some v -> (build = "" \/ validIdentifierList build false = true) -> parsed v.
Proof.
  unfold parseRelease. destruct (Cut core hyphen) as [[corePart pre] found].
  destruct (parseCore _) as [[[a b] c]|] eqn:Ec; [|done]. apply parseCore_range in Ec as (Ha & Hb & Hc).
  destruct (String.eqb_spec pre "") as [->|Hpre].
  - intros [= <-] Hbuild. apply (parsed_intro a b c "" build); auto.
  - destruct (validIdentifierList pre true) eqn:Ev; [simpl|done]. intros [= <-] Hbuild.
    assert (Hids : Split pre dot = prerelease_ids pre)
      by (unfold prerelease_ids; by rewrite (proj2 (String.eqb_neq pre "") Hpre)).
    rewrite Hids. apply parsed_intro; auto.
Qed.

Lemma parseVersion_parsed s legacy v : parseVersion s legacy = Some v -> parsed v.
Proof.
  unfold parseVersion. destruct (String.eqb _ ""); [done|].
  destruct (Split _ plus) as [|core [|build [|]]]; try done.
  - intros H. eapply parseRelease_parsed; [exact H|by left].
  - destruct (validIdentifierList build false) eqn:Ev; [simpl|done]. intros H.
    eapply parseRelease_parsed; [exact H|by right].
Qed.

(** ** Strings of a formatted version *)
Lemma no_char (p : Ascii.ascii -> bool) c s : all_chars p s = true -> p c = false -> has_char c s = false.
Proof.
  intros Hs Hc. unfold has_char. apply negb_false_iff. revert Hs. apply all_chars_impl. intros d Hd.
  apply negb_true_iff. destruct (Ascii.eqb_spec d c) as [->|]; congruence.
Qed.

Lemma Join_Split s sep : Join (Split s sep) (String sep "") = s.
Proof.
  induction s as [|c s IH]; [done|]. simpl. destruct (Ascii.eqb_spec c sep) as [->|].
  - destruct (Split s sep) eqn:E; [by apply Split_not_nil in E|].
    change (String sep (Join (s0 :: l) (String sep "")) = String sep s). by rewrite IH.
  - destruct (Split s sep) as [|p l] eqn:E; [by apply Split_not_nil in E|].
    destruct l as [|q l].
    + simpl in *. by rewrite IH.
    + change (String c (Join (p :: q :: l) (String sep "")) = String c s). by rewrite IH.
Qed.

Lemma Split_chars p s sep : forallb (all_chars p) (Split s sep) = true -> all_chars (fun c => p c || Ascii.eqb c sep) s = true.
Proof.
  induction s as [|c s IH]; [done|]. cbn [Split all_chars]. destruct (Ascii.eqb c sep) eqn:E.
  - cbn [forallb]. intros H. rewrite orb_true_r. apply IH. done.
  - destruct (Split s sep) as [|q l]; cbn [forallb all_chars].
    + rewrite !andb_true_iff. intros [[Hc _] _]. rewrite Hc. split; [done|]. by apply IH.
    + rewrite !andb_true_iff. intros [[Hc Hq] Hl]. rewrite Hc. split; [done|]. apply IH. cbn [forallb]. by rewrite Hq, Hl.
Qed.

(** The bytes of prereleases and build metadata. *)
Definition version_char (c : Ascii.ascii) : bool := identifier_char c || Ascii.eqb c dot.

Lemma identifier_list_chars s b : validIdentifierList s b = true -> all_chars version_char s = true.
Proof.
  unfold validIdentifierList. destruct (String.eqb s ""); [done|]. intros H. apply Split_chars.
  rewrite forallb_forall in *. intros id Hid. specialize (H id Hid). unfold validIdentifier in H.
  rewrite !andb_true_iff in H. tauto.
Qed.

Lemma version_char_code c : version_char c = true -> 45 <= code c <= 46 \/ 48 <= code c <= 57 \/ 65 <= code c <= 90 \/ 97 <= code c <= 122.
Proof.
  unfold version_char, identifier_char, is_digit, is_upper, is_lower, between.
  destruct (Ascii.eqb_spec c hyphen) as [->|]; [change (code hyphen) with 45; lia|].
  destruct (Ascii.eqb_spec c dot) as [->|]; [change (code dot) with 46; lia|].
  rewrite !orb_false_r, !orb_true_iff, !andb_true_iff, !Z.leb_le. lia.
Qed.

Lemma version_char_visible c : version_char c = true -> visible c = true.
Proof. intros H%version_char_code. unfold visible, between. rewrite andb_true_iff, !Z.leb_le. lia. Qed.

Lemma digit_version_char c : is_digit c = true -> version_char c = true.
Proof. unfold version_char, identifier_char. intros ->. done. Qed.

Lemma Itoa_digits n : 0 <= n -> all_chars is_digit (Itoa n) = true.
Proof. intros H. by apply decimal_digits_all. Qed.

Lemma Itoa_head n : 0 <= n -> exists c s, Itoa n = String c s /\ is_digit c = true.
Proof.
  intros Hn. pose proof (Itoa_digits n Hn) as Hd. destruct (Itoa n) as [|c s] eqn:E.
  - exfalso. unfold Itoa in E. cbn [decimal_digits] in E.
    assert (Hne : forall fuel m acc, acc <> "" -> decimal_digits fuel m acc <> "").
    { intros fuel. induction fuel as [|fuel IH]; intros m acc Ha; [done|]. simpl. destruct (m <? 10); [done|]. by apply IH. }
    destruct (n <? 10); [done|]. revert E. apply (Hne 19%nat). done.
  - exists c, s. simpl in Hd. apply andb_true_iff in Hd. tauto.
Qed.

Definition core_string (a b c : Z) : string := Itoa a +:+ "." +:+ Itoa b +:+ "." +:+ Itoa c.

Lemma core_fields a b c : 0 <= a -> 0 <= b -> 0 <= c -> Split (core_string a b c) dot = [Itoa a; Itoa b; Itoa c].
Proof.
  intros Ha Hb Hc. unfold core_string.
  change ("." +:+ Itoa b +:+ "." +:+ Itoa c) with (String dot (Itoa b +:+ String dot (Itoa c))).
  rewrite Split_app by (apply (no_char is_digit); [by apply Itoa_digits|done]).
  rewrite Split_app by (apply (no_char is_digit); [by apply Itoa_digits|done]).
  rewrite Split_no_sep by (apply (no_char is_digit); [by apply Itoa_digits|done]). done.
Qed.

Lemma core_chars a b c (p : Ascii.ascii -> bool) :
  0 <= a -> 0 <= b -> 0 <= c -> (forall d, is_digit d = true -> p d = true) -> p dot = true ->
  all_chars p (core_string a b c) = true.
Proof.
  intros Ha Hb Hc Hp Hd. unfold core_string.
  assert (Hi : forall n, 0 <= n -> all_chars p (Itoa n) = true)
    by (intros n Hn; apply (all_chars_impl is_digit); [done|by apply Itoa_digits]).
  rewrite !all_chars_app, !Hi by done. change (all_chars p ".") with (p dot && true). by rewrite Hd.
Qed.

(** The text of a version with prerelease [pre] and build metadata [build]. *)
Definition release_string (a b c : Z) (pre : string) : string :=
  core_string a b c +:+ (if String.eqb pre "" then "" else String hyphen pre).

Lemma format_string a b c pre build :
  format (mkSemver a b c (prerelease_ids pre) build) =
  release_string a b c pre +:+ (if String.eqb build "" then "" else String plus build).
Proof.
  unfold format, release_string, core_string, prerelease_ids. cbn [Major Minor Patch Prerelease Build].
  rewrite <- !app_assoc_str. do 5 f_equal. destruct (String.eqb pre "") eqn:E; [done|].
  pose proof (Join_Split pre dot) as Hj. destruct (Split pre dot) eqn:Es; [by apply Split_not_nil in Es|].
  rewrite <- Hj. done.
Qed.

Lemma parseRelease_string a b c pre build legacy :
  0 <= a <= int64_max -> 0 <= b <= int64_max -> 0 <= c <= int64_max ->
  (pre = "" \/ validIdentifierList pre true = true) ->
  parseRelease (release_string a b c pre) build legacy = Some (mkSemver a b c (prerelease_ids pre) build).
Proof.
  intros Ha Hb Hc Hpre. unfold parseRelease, release_string, prerelease_ids.
  assert (Hh : has_char hyphen (core_string a b c) = false).
  { apply (no_char (fun d => is_digit d || Ascii.eqb d dot)); [|done].
    apply core_chars; try lia; [|done]. intros d ->. done. }
  assert (Hcut : Cut (core_string a b c +:+ (if String.eqb pre "" then "" else String hyphen pre)) hyphen =
                 (core_string a b c, pre, negb (String.eqb pre ""))).
  { destruct (String.eqb_spec pre "") as [->|]; [by rewrite app_empty_r, Cut_no_sep|by rewrite Cut_app]. }
  rewrite Hcut, core_fields by lia. cbn [length Nat.eqb andb]. unfold parseCore. rewrite !parse_Itoa by done.
  destruct (String.eqb_spec pre "") as [->|Hne]; [done|]. destruct Hpre as [|Hv]; [done|]. by rewrite Hv.
Qed.

Lemma release_chars a b c pre :
  0 <= a -> 0 <= b -> 0 <= c -> (pre = "" \/ validIdentifierList pre true = true) ->
  all_chars version_char (release_string a b c pre) = true.
Proof.
  intros Ha Hb Hc Hpre. unfold release_string. rewrite all_chars_app, core_chars by (done || apply digit_version_char).
  destruct (String.eqb_spec pre ""); [done|]. destruct Hpre as [|Hv]; [done|].
  cbn [all_chars]. by rewrite (identifier_list_chars _ _ Hv).
Qed.

(** A version that starts with a digit keeps its text. *)
Lemma trim_version s : all_chars (fun c => version_char c || Ascii.eqb c plus) s = true ->
  (exists c t, s = String c t /\ is_digit c = true) ->
  TrimPrefix (TrimPrefix (TrimSpace s) "v") "V" = s.
Proof.
  intros Hs (c & t & -> & Hc). rewrite TrimSpace_visible.
  2:{ revert Hs. apply all_chars_impl. intros d [Hd|Hd]%orb_true_iff; [by apply version_char_visible|].
      apply Ascii.eqb_eq in Hd as ->. done. }
  assert (Hno : forall d, is_digit d = false -> HasPrefix (String c t) (String d "") = false).
  { intros d Hd. unfold HasPrefix. simpl. destruct (Ascii.ascii_dec d c) as [->|]; [congruence|done]. }
  assert (Hv : HasPrefix (String c t) "v" = false) by (by apply Hno).
  assert (HV : HasPrefix (String c t) "V" = false) by (by apply Hno).
  unfold TrimPrefix. by rewrite Hv, HV.
Qed.

Lemma parse_format v legacy : parsed v -> parseVersion (format v) legacy = Some v.
Proof.
  intros [a b c pre build Ha Hb Hc Hpre Hbuild]. rewrite format_string.
  pose proof (release_chars a b c pre ltac:(lia) ltac:(lia) ltac:(lia) Hpre) as Hrel.
  assert (Hplus : has_char plus (release_string a b c pre) = false) by (apply (no_char version_char); done).
  assert (Hall : all_chars (fun d => version_char d || Ascii.eqb d plus)
            (release_string a b c pre +:+ (if String.eqb build "" then "" else String plus build)) = true).
  { rewrite all_chars_app. apply andb_true_iff. split.
    - revert Hrel. apply all_chars_impl. by intros d ->.
    - destruct (String.eqb_spec build ""); [done|]. destruct Hbuild as [|Hv]; [done|]. cbn [all_chars].
      rewrite orb_true_r. apply identifier_list_chars in Hv. revert Hv. apply all_chars_impl. by intros d ->. }
  destruct (Itoa_head a ltac:(lia)) as (d & t & Hi & Hd).
  assert (Hhead : exists d t, release_string a b c pre +:+ (if String.eqb build "" then "" else String plus build) =
                              String d t /\ is_digit d = true).
  { unfold release_string, core_string. rewrite Hi. simpl. by eexists _, _. }
  unfold parseVersion. rewrite trim_version by done.
  destruct (String.eqb_spec (release_string a b c pre +:+ (if String.eqb build "" then "" else String plus build)) "")
    as [He|_]; [destruct Hhead as (d' & t' & Hh & _); congruence|].
  destruct (String.eqb_spec build "") as [->|Hne].
  - rewrite app_empty_r, Split_no_sep by done. by apply parseRelease_string.
  - destruct Hbuild as [|Hv]; [done|].
    assert (Hb2 : has_char plus build = false) by (apply (no_char version_char); [by eapply identifier_list_chars|done]).
    rewrite Split_app, (Split_no_sep build) by done. rewrite Hv. simpl negb. cbv iota. by apply parseRelease_string.
Qed.

(** ** Ties *)
Lemma compare_int_zero x y : compare_int x y = 0 -> x = y.
Proof. unfold compare_int. destruct (Z.ltb_spec y x), (Z.ltb_spec x y); lia. Qed.

Lemma then_by_zero c1 c2 : then_by c1 c2 = 0 -> c1 = 0 /\ c2 = 0.
Proof. unfold then_by. destruct (Z.eqb_spec c1 0); simpl; lia. Qed.

Lemma Compare_zero s t : Compare s t = 0 -> s = t.
Proof.
  revert t. induction s as [|a s IH]; intros [|b t]; try done. rewrite Compare_cons.
  intros [H1%compare_int_zero H2]%then_by_zero. by rewrite (code_inj _ _ H1), (IH t H2).
Qed.

Lemma identifier_zero a b : comparePrereleaseIdentifier a b = 0 -> a = b.
Proof.
  unfold comparePrereleaseIdentifier.
  destruct (parseNumericIdentifier a) as [x|] eqn:Ea, (parseNumericIdentifier b) as [y|] eqn:Eb; try done.
  - intros ->%compare_int_zero. apply parse_canonical in Ea as [-> _], Eb as [-> _]. done.
  - apply Compare_zero.
Qed.

Lemma prerelease_zero l r : comparePrerelease l r = 0 -> l = r.
Proof.
  assert (Hids : forall l r, compareIdentifiers l r = 0 -> l = r).
  { clear. induction l as [|a l IH]; intros [|b r]; try done. rewrite compareIdentifiers_cons.
    intros [H1%identifier_zero H2]%then_by_zero. by rewrite H1, (IH r H2). }
  destruct l, r; try done. apply Hids.
Qed.

(** The same release: everything but the build metadata. *)
Definition same_release (v w : Semver) : Prop :=
  Major v = Major w /\ Minor v = Minor w /\ Patch v = Patch w /\ Prerelease v = Prerelease w.

Lemma compareSemver_zero v w : compareSemver v w = 0 -> same_release v w.
Proof.
  change (compareSemver v w) with (then_by (compare_int (Major v) (Major w))
    (then_by (compare_int (Minor v) (Minor w)) (then_by (compare_int (Patch v) (Patch w))
      (comparePrerelease (Prerelease v) (Prerelease w))))).
  intros [H1%compare_int_zero [H2%compare_int_zero [H3%compare_int_zero H4%prerelease_zero]%then_by_zero]%then_by_zero]%then_by_zero.
  done.
Qed.

(** [VersionIsNewer] as an order on parse results, with the unparsable strings below every version. *)
Definition newer (v w : option Semver) : bool :=
  match v, w with
  | Some x, Some y => 0 <? compareSemver x y
  | Some _, None => true
  | None, _ => false
  end.

Lemma format_nonempty v : parsed v -> format v <> "".
Proof. intros Hp He. pose proof (parse_format v true Hp) as H. rewrite He in H. vm_compute in H. discriminate. Qed.

Lemma VersionIsNewer_newer a b : VersionIsNewer a b = newer (parseVersion a true) (parseVersion b true).
Proof.
  unfold VersionIsNewer, CompareVersions, NormalizeVersion, newer.
  destruct (parseVersion a true) as [v|] eqn:Ea, (parseVersion b true) as [w|]; try done.
  apply parseVersion_parsed, format_nonempty, String.eqb_neq in Ea. by rewrite Ea.
Qed.

(** "newer than" on version strings is a strict weak order on all strings, malformed ones included (they are older
    than every version): nothing is newer than itself, no two versions are newer than each other, the relation and its
    complement are transitive, and two strings of which neither is newer are both malformed or name the same release
    up to build metadata. *)
Theorem version_newer_strict_order a b c :
  VersionIsNewer a a = false /\
  (VersionIsNewer a b = true -> VersionIsNewer b a = false) /\
  (VersionIsNewer a b = true -> VersionIsNewer b c = true -> VersionIsNewer a c = true) /\
  (VersionIsNewer a b = false -> VersionIsNewer b c = false -> VersionIsNewer a c = false) /\
  (VersionIsNewer a b = false -> VersionIsNewer b a = false ->
     (parseVersion a true = None /\ parseVersion b true = None) \/
     (exists v w, parseVersion a true = Some v /\ parseVersion b true = Some w /\ same_release v w)).
Proof.
  rewrite !VersionIsNewer_newer.
  destruct (parseVersion a true) as [v|], (parseVersion b true) as [w|], (parseVersion c true) as [u|]; simpl;
    rewrite ?(cmp_refl compareSemver); try (split_and!; intros; try done; by left);
    repeat match goal with
    | v : Semver, w : Semver |- _ =>
        lazymatch goal with
        | _ : compareSemver w v = - compareSemver v w |- _ => fail
        | _ : compareSemver v w = - compareSemver w v |- _ => fail
        | _ => pose proof (cmp_antisym (cmp := compareSemver) v w)
        end
    end;
    rewrite ?Z.ltb_lt, ?Z.ltb_ge in *; split_and!; intros; rewrite ?Z.ltb_lt, ?Z.ltb_ge in *; try done; try lia;
    try (right; exists v, w; split_and!; [done..|apply compareSemver_zero; lia]);
    try (pose proof (cmp_facts compareSemver v w u); pose proof (cmp_facts compareSemver u w v);
         pose proof (cmp_antisym (cmp := compareSemver) v w); pose proof (cmp_antisym (cmp := compareSemver) w u);
         pose proof (cmp_antisym (cmp := compareSemver) v u); lia).
Qed.

(** normalizing a version loses nothing: the normal form parses, also without the legacy two-field shorthand, to
    exactly the numbers, prerelease identifiers and build metadata of the original, and is its own normal form. *)
Theorem normalize_keeps_version s v :
  parseVersion s true = Some v ->
  ParseSemver (NormalizeVersion s) = Some v /\ NormalizeVersion (NormalizeVersion s) = NormalizeVersion s.
Proof.
  intros Hs. pose proof (parseVersion_parsed _ _ _ Hs) as Hp. unfold NormalizeVersion at 1 3. rewrite Hs.
  split; [by apply parse_format|]. unfold NormalizeVersion. by rewrite Hs, parse_format.
Qed.

Lemma normalize_keeps_version_witness :
  ParseSemver (NormalizeVersion " v2025.4-rc.1+b.7 ") = Some (mkSemver 2025 4 0 ["rc"; "1"] "b.7") /\
  NormalizeVersion (NormalizeVersion " v2025.4-rc.1+b.7 ") = NormalizeVersion " v2025.4-rc.1+b.7 ".
Proof. exact (normalize_keeps_version " v2025.4-rc.1+b.7 " _ eq_refl). Defined.

(** A version that ends in a hyphen is accepted as the release without a prerelease. *)
Lemma trailing_hyphen_accepted :
  ValidateReleaseVersion "2025.4.0-" = Ok tt /\ ParseSemver "2025.4.0-" = ParseSemver "2025.4.0".
Proof. vm_compute. done. Qed.
