(* ===== verification/ResourcePressure.v ===== *)
(** * Resource pressure ([internal/ops/resourcepressure], [service/resourcepressure])

    Signals are compared with thresholds, and a small state machine with
    confirmation and recovery delays turns the result into the pressure state on
    which admission decisions are made.

    A [float64] is an exact rational, an infinity or NaN: the source only compares
    values and shifts ratio thresholds by [RatioHysteresis], and rounding is not
    modelled.  The observation digest is left out of the snapshot: nothing decides by
    it. *)

From Stdlib Require Import QArith.
From S2P Require Import Prelude GoStrings.

Open Scope string_scope.
Open Scope list_scope.
Open Scope Z_scope.

(** ** Numbers *)
Inductive float64 := Fin (q : Q) | Inf (negative : bool) | NaN.

Definition Qleb (a b : Q) : bool := Qle_bool a b.

Definition fle (a b : float64) : bool :=
  match a, b with
  | NaN, _ | _, NaN => false
  | Inf true, _ => true
  | _, Inf false => true
  | Fin x, Fin y => Qleb x y
  | _, _ => false
  end.

Definition flt (a b : float64) : bool :=
  match a, b with
  | NaN, _ | _, NaN => false
  | _, _ => negb (fle b a)
  end.

Definition is_nan (a : float64) : bool := match a with NaN => true | _ => false end.
Definition is_inf (a : float64) : bool := match a with Inf _ => true | _ => false end.

(** [a + d] for a finite shift [d]. *)
Definition fshift (a : float64) (d : Q) : float64 :=
  match a with Fin x => Fin (Qplus x d) | other => other end.

(** [math.Max] and [math.Min]. *)
Definition fmax (a b : float64) : float64 :=
  if is_nan a || is_nan b then NaN else if fle a b then b else a.
Definition fmin (a b : float64) : float64 :=
  if is_nan a || is_nan b then NaN else if fle a b then a else b.

Definition fint (n : Z) : float64 := Fin (inject_Z n).

(** ** Data *)
Definition MaxSignals : Z := 96.
Definition MaxReasonCodes : Z := 16.
Definition DefaultFreshness : Z := 2 * minute.
Definition SampleInterval : Z := 15 * second.
Definition RecoveryWindow : Z := 5 * minute.
Definition RatioHysteresis : Q := (5 # 100)%Q.

Inductive State := StateUnknown | StateNormal | StateWarning | StateConstrained | StateCritical | StateRecovering.

#[export] Instance State_eq_dec : EqDecision State.
Proof. solve_decision. Defined.

Definition state_name (s : State) : string :=
  match s with
  | StateUnknown => "UNKNOWN" | StateNormal => "NORMAL" | StateWarning => "WARNING"
  | StateConstrained => "CONSTRAINED" | StateCritical => "CRITICAL" | StateRecovering => "RECOVERING"
  end.

Inductive ProviderStatus :=
| ProviderSupported | ProviderUnavailable | ProviderUnsupported | ProviderStale | ProviderError | ProviderOther (s : string).

#[export] Instance ProviderStatus_eq_dec : EqDecision ProviderStatus.
Proof. solve_decision. Defined.

Inductive Direction := HigherIsWorse | LowerIsWorse | OtherDirection (s : string).

#[export] Instance Direction_eq_dec : EqDecision Direction.
Proof. solve_decision. Defined.

(** Times are Unix seconds. *)
Record Signal := mkSignal {
  sgID : string;
  sgStatus : ProviderStatus;
  sgValue : float64;
  sgUnit : string;
  sgObservedAt : Z;
  sgExpiresAt : Z;
  sgReasonCode : string
}.

Record Threshold := mkThreshold {
  thID : string;
  thDirection : Direction;
  thWarning : float64;
  thConstrained : float64;
  thCritical : float64;
  thRequired : bool
}.

Record Snapshot := mkSnapshot {
  snState : State;
  snPreviousState : State;
  snSignals : list Signal;
  snReasonCodes : list string;
  snRevision : Z;
  snObservedAt : Z;
  snChangedAt : Z
}.

(** [pending] is [None] for the empty string. *)
Record Evaluator := mkEvaluator {
  eThresholds : list Threshold;
  eCurrent : Snapshot;
  ePending : option State;
  ePendingN : Z;
  ePendingAt : Z;
  eRecoverAt : Z
}.

Definition with_pending (e : Evaluator) (p : option State) (n at_ : Z) : Evaluator :=
  mkEvaluator (eThresholds e) (eCurrent e) p n at_ (eRecoverAt e).
Definition with_recoverAt (e : Evaluator) (at_ : Z) : Evaluator :=
  mkEvaluator (eThresholds e) (eCurrent e) (ePending e) (ePendingN e) (ePendingAt e) at_.
Definition with_current (e : Evaluator) (s : Snapshot) : Evaluator :=
  mkEvaluator (eThresholds e) s (ePending e) (ePendingN e) (ePendingAt e) (eRecoverAt e).

(** ** Thresholds *)
Definition ratio_threshold (id : string) (dir : Direction) (w c k : Q) (required : bool) : Threshold :=
  mkThreshold id dir (Fin w) (Fin c) (Fin k) required.

Definition count_threshold (id : string) (dir : Direction) (w c k : Z) (required : bool) : Threshold :=
  mkThreshold id dir (fint w) (fint c) (fint k) required.

Definition DefaultThresholds : list Threshold :=
  [ratio_threshold "filesystem.data.free_ratio" LowerIsWorse (20 # 100) (10 # 100) (5 # 100) true;
   count_threshold "filesystem.data.free_bytes" LowerIsWorse (Z.shiftl 2 30) (Z.shiftl 1 30) (Z.shiftl 512 20) true;
   ratio_threshold "filesystem.data.free_inode_ratio" LowerIsWorse (10 # 100) (5 # 100) (2 # 100) false;
   ratio_threshold "filesystem.temp.free_ratio" LowerIsWorse (20 # 100) (10 # 100) (5 # 100) false;
   count_threshold "filesystem.temp.free_bytes" LowerIsWorse (Z.shiftl 2 30) (Z.shiftl 1 30) (Z.shiftl 512 20) false;
   ratio_threshold "filesystem.temp.free_inode_ratio" LowerIsWorse (10 # 100) (5 # 100) (2 # 100) false;
   count_threshold "sqlite.wal.bytes" HigherIsWorse (Z.shiftl 256 20) (Z.shiftl 512 20) (Z.shiftl 1 30) false;
   ratio_threshold "sqlite.busy.rate" HigherIsWorse (2 # 100) (8 # 100) (20 # 100) false;
   ratio_threshold "memory.used_ratio" HigherIsWorse (80 # 100) (90 # 100) (96 # 100) false;
   ratio_threshold "cgroup.memory.used_ratio" HigherIsWorse (80 # 100) (90 # 100) (96 # 100) false;
   count_threshold "psi.memory.some_avg10" HigherIsWorse 10 30 60 false;
   ratio_threshold "process.fd.used_ratio" HigherIsWorse (70 # 100) (85 # 100) (95 # 100) false;
   count_threshold "process.goroutines" HigherIsWorse 1500 4000 8000 false;
   count_threshold "http.active" HigherIsWorse 200 500 1000 false;
   ratio_threshold "audit.queue.used_ratio" HigherIsWorse (60 # 100) (80 # 100) (95 # 100) false;
   count_threshold "operations.heavy.active" HigherIsWorse 2 4 8 false].

Definition safeID (value : string) : bool :=
  if String.eqb value "" || (96 <? slen value) then false
  else all_chars (fun c => is_lower c || is_digit c || char_in c "._:-") value.

Definition validThresholdBounds (t : Threshold) : bool :=
  let values := [thWarning t; thConstrained t; thCritical t] in
  if existsb (fun v => is_nan v || is_inf v || flt v (fint 0)) values then false
  else
    let bound := if HasSuffix (thID t) ".ratio" then fint 1 else fint (Z.shiftl 1 50) in
    forallb (fun v => fle v bound) values.

(** The checks of one threshold of [NewEvaluator]. *)
Definition validThreshold (t : Threshold) : bool :=
  safeID (thID t) && validThresholdBounds t &&
  match thDirection t with
  | HigherIsWorse => flt (thWarning t) (thConstrained t) && flt (thConstrained t) (thCritical t)
  | LowerIsWorse => flt (thConstrained t) (thWarning t) && flt (thCritical t) (thConstrained t)
  | OtherDirection _ => false
  end.

Fixpoint no_duplicates (ids : list string) : bool :=
  match ids with
  | [] => true
  | id :: rest => negb (bool_decide (id ∈ rest)) && no_duplicates rest
  end.

Definition emptySnapshot : Snapshot := mkSnapshot StateUnknown StateUnknown [] [] 0 0 0.

Definition NewEvaluator (thresholds : list Threshold) : option Evaluator :=
  if (Z.of_nat (length thresholds) =? 0) || (MaxSignals <? Z.of_nat (length thresholds)) then None
  else if forallb validThreshold thresholds && no_duplicates (thID <$> thresholds)
  then Some (mkEvaluator thresholds emptySnapshot None 0 0 0) else None.

(** ** Signals *)
Definition validProviderStatus (s : ProviderStatus) : bool :=
  match s with ProviderOther _ => false | _ => true end.

Definition invalidSignalValue (s : Signal) : bool :=
  if is_nan (sgValue s) || is_inf (sgValue s) || flt (sgValue s) (fint 0) then true
  else String.eqb (sgUnit s) "ratio" && flt (fint 1) (sgValue s).

(** The adjustments that [normalizeSignals] makes to one signal; [now] in Unix seconds. *)
Definition normalizeSignal (now : Z) (s : Signal) : Signal :=
  let s := if sgObservedAt s =? 0
    then mkSignal (sgID s) (sgStatus s) (sgValue s) (sgUnit s) now (sgExpiresAt s) (sgReasonCode s) else s in
  let s := if sgExpiresAt s =? 0
    then mkSignal (sgID s) (sgStatus s) (sgValue s) (sgUnit s) (sgObservedAt s) (now + DefaultFreshness / second) (sgReasonCode s)
    else s in
  let s := if bool_decide (sgStatus s = ProviderSupported) && invalidSignalValue s
    then mkSignal (sgID s) ProviderError (fint 0) (sgUnit s) (sgObservedAt s) (sgExpiresAt s) "provider_numeric_value_invalid"
    else s in
  let s := if (sgExpiresAt s <=? now) && bool_decide (sgStatus s = ProviderSupported)
    then mkSignal (sgID s) ProviderStale (sgValue s) (sgUnit s) (sgObservedAt s) (sgExpiresAt s) "observation_expired" else s in
  if 96 <? slen (sgReasonCode s)
  then mkSignal (sgID s) (sgStatus s) (sgValue s) (sgUnit s) (sgObservedAt s) (sgExpiresAt s) "provider_reason_too_large" else s.

(** The loop of [normalizeSignals] over the signals kept so far. *)
Fixpoint collectSignals (now : Z) (seen : list string) (signals : list Signal) : list Signal :=
  match signals with
  | [] => []
  | s :: rest =>
      if negb (safeID (sgID s)) || negb (validProviderStatus (sgStatus s)) || bool_decide (sgID s ∈ seen)
      then collectSignals now seen rest
      else normalizeSignal now s :: collectSignals now (sgID s :: seen) rest
  end.

(** The sort by identity is left out: identities are distinct and signals are looked up by them. *)
Definition normalizeSignals (now : Z) (signals : list Signal) : list Signal :=
  collectSignals now [] (firstn (Z.to_nat MaxSignals) signals).

(** ** Classification *)
Definition severity (s : State) : Z :=
  match s with
  | StateCritical => 4 | StateConstrained => 3 | StateWarning => 2 | StateRecovering => 1 | StateNormal => 0
  | StateUnknown => -1
  end.

Definition maxState (left right : State) : State := if severity left <? severity right then right else left.

Definition appendBounded (values : list string) (value : string) : list string :=
  if MaxReasonCodes <=? Z.of_nat (length values) then values else values ++ [value].

(** The thresholds that count once the state is degraded. *)
Definition exitBounds (t : Threshold) (exitThresholds : bool) : float64 * float64 * float64 :=
  if exitThresholds && HasSuffix (thID t) ".ratio" then
    if bool_decide (thDirection t = HigherIsWorse) then
      (fmax (fint 0) (fshift (thWarning t) (- RatioHysteresis)),
       fmax (fint 0) (fshift (thConstrained t) (- RatioHysteresis)),
       fmax (fint 0) (fshift (thCritical t) (- RatioHysteresis)))
    else
      (fmin (fint 1) (fshift (thWarning t) RatioHysteresis),
       fmin (fint 1) (fshift (thConstrained t) RatioHysteresis),
       fmin (fint 1) (fshift (thCritical t) RatioHysteresis))
  else (thWarning t, thConstrained t, thCritical t).

Definition thresholdState (value : float64) (t : Threshold) (exitThresholds : bool) : State :=
  let '(warning, constrained, critical) := exitBounds t exitThresholds in
  let reaches bound := if bool_decide (thDirection t = HigherIsWorse) then fle bound value else fle value bound in
  if reaches critical then StateCritical
  else if reaches constrained then StateConstrained
  else if reaches warning then StateWarning
  else StateNormal.

Definition signal_for (signals : list Signal) (id : string) : option Signal :=
  List.find (fun s => String.eqb (sgID s) id) signals.

(** One threshold of the loop of [classify]. *)
Definition classifyOne (now : Z) (signals : list Signal) (exitThresholds : bool)
  (acc : State * list string) (t : Threshold) : State * list string :=
  let '(worst, reasons) := acc in
  let missing :=
    if thRequired t
    then (maxState worst StateWarning, appendBounded reasons ("required_signal_unavailable:" +:+ thID t))
    else (worst, reasons) in
  match signal_for signals (thID t) with
  | None => missing
  | Some s =>
      if bool_decide (sgStatus s = ProviderUnsupported) then (worst, reasons)
      else if negb (bool_decide (sgStatus s = ProviderSupported)) || (sgExpiresAt s <=? now) then missing
      else
        let state := thresholdState (sgValue s) t exitThresholds in
        (maxState worst state,
         if bool_decide (state = StateNormal) then reasons
         else appendBounded reasons (state_name state +:+ ":" +:+ thID t))
  end.

Definition classify (e : Evaluator) (now : Z) (signals : list Signal) (exitThresholds : bool) : State * list string :=
  let '(worst, reasons) := foldl (classifyOne now signals exitThresholds) (StateNormal, []) (eThresholds e) in
  (worst, if Z.of_nat (length reasons) =? 0 then ["within_configured_bounds"] else reasons).

(** ** Transitions
    [now] is a time; [Unix] drops the fraction of a second. *)
Definition Unix (now : Z) : Z := now / second.
Definition since (now at_ : Z) : Z := now - at_ * second.

Definition resetPending (e : Evaluator) : Evaluator := with_pending e None 0 0.

Definition confirmed (e : Evaluator) (now : Z) (target : State) (count : Z) : bool * Evaluator :=
  if negb (bool_decide (ePending e = Some target)) then (count <=? 1, with_pending e (Some target) 1 (Unix now))
  else
    let elapsed := since now (ePendingAt e) in
    if DefaultFreshness <? elapsed then (count <=? 1, with_pending e (ePending e) 1 (Unix now))
    else
      let e := if SampleInterval <=? elapsed then with_pending e (ePending e) (ePendingN e + 1) (Unix now) else e in
      (count <=? ePendingN e, e).

Definition confirm (e : Evaluator) (now : Z) (target : State) (count : Z) (result : State) : State * Evaluator :=
  let '(ok, e) := confirmed e now target count in
  if ok then (result, resetPending e) else (snState (eCurrent e), e).

Definition transition (e : Evaluator) (now : Z) (current target : State) : State * Evaluator :=
  if bool_decide (target = StateCritical) then (StateCritical, with_recoverAt (resetPending e) 0)
  else if bool_decide (current = StateUnknown) then confirm e now target 2 target
  else if bool_decide (current = StateRecovering) then
    if bool_decide (target = StateNormal) then
      let e := if eRecoverAt e =? 0 then with_recoverAt e (Unix now) else e in
      let '(ok, e) := confirmed e now StateNormal 2 in
      if ok && (RecoveryWindow <=? since now (eRecoverAt e))
      then (StateNormal, with_recoverAt (resetPending e) 0)
      else (StateRecovering, e)
    else confirm (with_recoverAt e 0) now target 2 target
  else if severity current <? severity target then confirm (with_recoverAt e 0) now target 2 target
  else if severity target <? severity current then
    if bool_decide (target = StateNormal) then
      let '(next, e) := confirm e now target 2 StateRecovering in
      (next, if bool_decide (next = StateRecovering) then with_recoverAt e (Unix now) else e)
    else confirm (with_recoverAt e 0) now target 2 target
  else (current, resetPending e).

(** [Evaluate]: the new snapshot and the evaluator that keeps it. *)
Definition Evaluate (e : Evaluator) (now : Z) (signals : list Signal) : Snapshot * Evaluator :=
  let copySignals := normalizeSignals (Unix now) signals in
  let previous := snState (eCurrent e) in
  let exitThresholds := bool_decide (previous = StateRecovering) || (severity StateWarning <=? severity previous) in
  let '(target, reasons) := classify e (Unix now) copySignals exitThresholds in
  let '(next, e) := transition e now previous target in
  let changedAt :=
    if negb (bool_decide (next = previous)) || (snChangedAt (eCurrent e) =? 0) then Unix now else snChangedAt (eCurrent e) in
  let revision := if bool_decide (next = previous) then snRevision (eCurrent e) else wrapu64 (snRevision (eCurrent e) + 1) in
  let revision := if revision =? 0 then 1 else revision in
  let snapshot := mkSnapshot next previous copySignals reasons revision (Unix now) changedAt in
  (snapshot, with_current e snapshot).

(** ** Admission *)
Record Admission := mkAdmission { adAllowed : bool; adReasonCode : string; adRetryAfter : Z }.

Definition one_of (s : string) (l : list string) : bool := existsb (String.eqb s) l.

Definition Decide (state : State) (pressureClass : string) : Admission :=
  if one_of pressureClass ["essential"; "recovery_essential"] then mkAdmission true "essential_operation_preserved" 0
  else
    let allowed := mkAdmission true "pressure_admission_allowed" 0 in
    match state with
    | StateCritical =>
        if one_of pressureClass ["interactive"; "status"; "security_critical"]
        then mkAdmission true "critical_read_or_security_preserved" 0
        else mkAdmission false "resource_pressure_critical" 30
    | StateConstrained =>
        if one_of pressureClass ["expensive"; "optional"; "heavy_mutation"; "bounded_component"]
        then mkAdmission false "resource_pressure_constrained" 10 else allowed
    | StateWarning => if one_of pressureClass ["optional"] then mkAdmission false "resource_pressure_warning" 5 else allowed
    | StateRecovering =>
        if one_of pressureClass ["expensive"; "optional"; "heavy_mutation"; "bounded_component"]
        then mkAdmission false "resource_pressure_recovering" 15 else allowed
    | StateUnknown =>
        if one_of pressureClass ["heavy_mutation"] then mkAdmission false "resource_pressure_unknown" 10 else allowed
    | StateNormal => allowed
    end.

(** [Manager.Current]: a stale snapshot counts as unknown. *)
Definition currentState (snapshot : Snapshot) (now : Z) : State :=
  if (0 <? snObservedAt snapshot) && (snObservedAt snapshot * second + DefaultFreshness <? now)
  then StateUnknown else snState snapshot.

Definition managerAdmission (snapshot : Snapshot) (now : Z) (pressureClass : string) : Admission :=
  Decide (currentState snapshot now) pressureClass.

Example default_evaluator : exists e, NewEvaluator DefaultThresholds = Some e.
Proof. eexists. vm_compute. reflexivity. Qed.

(** ** Histories of evaluations
    The log holds, newest first, the time of an evaluation, the state its signals
    call for and the state the evaluator went to. *)
Record observation := mkObservation { obTime : Z; obTarget : State; obState : State }.

Definition target_of (e : Evaluator) (now : Z) (signals : list Signal) : State :=
  let previous := snState (eCurrent e) in
  (classify e (Unix now) (normalizeSignals (Unix now) signals)
     (bool_decide (previous = StateRecovering) || (severity StateWarning <=? severity previous))).1.

Definition observe (st : Evaluator * list observation) (input : Z * list Signal) : Evaluator * list observation :=
  let '(e, log) := st in
  let '(now, signals) := input in
  let '(snapshot, e') := Evaluate e now signals in
  (e', mkObservation now (target_of e now signals) (snState snapshot) :: log).

Definition observations (e : Evaluator) (history : list (Z * list Signal)) : Evaluator * list observation :=
  foldl observe (e, []) history.

(** An evaluation is a transition to the classified target. *)
Lemma Evaluate_transition e now signals :
  snState (Evaluate e now signals).1 = (transition e now (snState (eCurrent e)) (target_of e now signals)).1 /\
  exists s, snState s = (transition e now (snState (eCurrent e)) (target_of e now signals)).1 /\
    (Evaluate e now signals).2 = with_current (transition e now (snState (eCurrent e)) (target_of e now signals)).2 s.
Proof.
  unfold Evaluate, target_of. destruct (classify _ _ _ _) as [target reasons]. simpl.
  destruct (transition e now _ target) as [next e']. simpl. split; [done|]. eexists. split; [|reflexivity]. done.
Qed.

(** The states a threshold comparison can call for. *)
Definition classifiable (s : State) : bool := negb (bool_decide (s = StateUnknown)) && negb (bool_decide (s = StateRecovering)).

Lemma thresholdState_classifiable v t b : classifiable (thresholdState v t b) = true.
Proof. unfold thresholdState. destruct (exitBounds t b) as [[w c] k]. by repeat case_match. Qed.

Lemma maxState_classifiable a b : classifiable a = true -> classifiable b = true -> classifiable (maxState a b) = true.
Proof. unfold maxState. by destruct (_ <? _). Qed.

Lemma classifyOne_classifiable now sigs b acc t :
  classifiable acc.1 = true -> classifiable (classifyOne now sigs b acc t).1 = true.
Proof.
  destruct acc as [worst reasons]. simpl. intros H. unfold classifyOne.
  assert (Hm : classifiable (if thRequired t
    then (maxState worst StateWarning, appendBounded reasons ("required_signal_unavailable:" +:+ thID t))
    else (worst, reasons)).1 = true) by (destruct (thRequired t); [by apply maxState_classifiable|done]).
  destruct (signal_for sigs (thID t)) as [s|]; [|done]. destruct (bool_decide _); [done|].
  destruct (_ || _); [done|]. simpl. apply maxState_classifiable; [done|apply thresholdState_classifiable].
Qed.

Lemma target_classifiable e now signals : classifiable (target_of e now signals) = true.
Proof.
  unfold target_of, classify.
  assert (H : forall now sigs b l a, classifiable a.1 = true -> classifiable (foldl (classifyOne now sigs b) a l).1 = true).
  { intros now' sigs b l. induction l as [|t l IH]; intros a Ha; [done|]. simpl. apply IH. by apply classifyOne_classifiable. }
  match goal with |- context [foldl (classifyOne ?n ?g ?b) _ _] =>
    specialize (H n g b (eThresholds e) (StateNormal, []) eq_refl) end.
  by destruct (foldl _ _ _).
Qed.

(** ** Confirmation *)
Definition agreed (log : list observation) (now : Z) (target : State) : Prop :=
  exists o, o ∈ log /\ obTarget o = target /\ SampleInterval <= since now (Unix (obTime o)).

Lemma agreed_later log o now now' target : agreed log now target -> now <= now' -> agreed (o :: log) now' target.
Proof. intros (x & Hx & Ht & Hs) Hle. exists x. unfold since in *. split_and!; [by apply list_elem_of_further|done|lia]. Qed.

(** What the pending target of an evaluator says about its log. *)
Record pending_ok (e : Evaluator) (log : list observation) (last : Z) : Prop := mkPendingOk {
  po_seen : forall tg, ePending e = Some tg -> exists o, o ∈ log /\ obTarget o = tg /\ Unix (obTime o) = ePendingAt e;
  po_twice : forall tg, ePending e = Some tg -> 2 <= ePendingN e -> agreed log last tg
}.

Lemma pending_reset e log last : ePending e = None -> pending_ok e log last.
Proof. intros H. constructor; congruence. Qed.

(** The evaluator after [confirmed] on the next observation, and what a confirmation means. *)
Lemma confirmed_ok e log last now target s :
  pending_ok e log last -> last <= now ->
  let '(ok, e') := confirmed e now target 2 in
  pending_ok e' (mkObservation now target s :: log) now /\ eCurrent e' = eCurrent e /\ eRecoverAt e' = eRecoverAt e /\
  eThresholds e' = eThresholds e /\ (ok = true -> agreed log now target).
Proof.
  intros [Hseen Htwice] Hle. unfold confirmed.
  destruct (bool_decide (ePending e = Some target)) eqn:Ep; simpl negb; cbv iota.
  2:{ split_and!; try done. constructor; simpl.
      - intros tg [= <-]. exists (mkObservation now target s). split_and!; [apply list_elem_of_here|done..].
      - intros tg _ H. lia. }
  apply bool_decide_eq_true in Ep. destruct (Hseen target Ep) as (o & Ho & Hto & Hat).
  destruct (Z.ltb_spec DefaultFreshness (since now (ePendingAt e))).
  { split_and!; try done. constructor; simpl.
    - intros tg Htg. assert (tg = target) as -> by congruence.
      exists (mkObservation now target s). split_and!; [apply list_elem_of_here|done..].
    - intros tg _ H'. lia. }
  destruct (Z.leb_spec SampleInterval (since now (ePendingAt e))) as [Hel|Hel].
  - assert (Hag : agreed log now target) by (exists o; rewrite Hat; done).
    split_and!; try done. constructor; simpl.
    + intros tg Htg. assert (tg = target) as -> by congruence.
      exists (mkObservation now target s). split_and!; [apply list_elem_of_here|done..].
    + intros tg Htg _. assert (tg = target) as -> by congruence. apply (agreed_later log _ now); [done|lia].
  - assert (Hag : 2 <= ePendingN e -> agreed log now target).
    { intros Hn. destruct (Htwice target Ep Hn) as (x & Hx & Hxt & Hxs). exists x. unfold since in *.
      split_and!; [done..|lia]. }
    split_and!; try done.
    + constructor.
      * intros tg Htg. destruct (Hseen tg Htg) as (x & Hx & Hxt & Hxa). exists x. split_and!; [by apply list_elem_of_further|done..].
      * intros tg Htg Hn. assert (tg = target) as -> by congruence. apply (agreed_later log _ now); [auto|lia].
    + intros Hc%Z.leb_le. auto.
Qed.

(** ** The invariant of a run *)
Definition degraded (s : State) : bool := severity StateWarning <=? severity s.

(** The state before the newest entry of a log. *)
Definition state_after (log : list observation) : State := match log with [] => StateUnknown | o :: _ => obState o end.

(** What the newest entry did is justified by the entries before it. *)
Definition justified (o : observation) (log : list observation) : Prop :=
  (obState o = state_after log \/ (obTarget o = StateCritical /\ obState o = StateCritical) \/
   (agreed log (obTime o) (obTarget o) /\
    (obState o = obTarget o \/ (obTarget o = StateNormal /\ obState o = StateRecovering)))) /\
  (obState o = StateNormal -> forall x, x ∈ log -> degraded (obState x) = true -> RecoveryWindow - second < obTime o - obTime x).

Fixpoint all_justified (log : list observation) : Prop :=
  match log with
  | [] => True
  | o :: rest => justified o rest /\ all_justified rest
  end.

Record run_ok (e : Evaluator) (log : list observation) (last : Z) : Prop := mkRunOk {
  ro_pending : pending_ok e log last;
  ro_state : snState (eCurrent e) = state_after log;
  ro_times : forall o, o ∈ log -> obTime o <= last;
  ro_unknown : snState (eCurrent e) = StateUnknown -> forall o, o ∈ log -> degraded (obState o) = false;
  ro_recover : snState (eCurrent e) = StateRecovering ->
    eRecoverAt e = 0 \/ forall o, o ∈ log -> degraded (obState o) = true -> obTime o < (eRecoverAt e + 1) * second;
  ro_normal : snState (eCurrent e) = StateNormal ->
    forall o, o ∈ log -> degraded (obState o) = true -> RecoveryWindow - second < last - obTime o;
  ro_log : all_justified log
}.

Lemma Unix_bounds now : Unix now * second <= now < (Unix now + 1) * second.
Proof. unfold Unix, second, millisecond. pose proof (Z.div_mod now (1000 * 1000000) ltac:(lia)).
  pose proof (Z.mod_pos_bound now (1000 * 1000000) ltac:(lia)). lia. Qed.

(** Keeping a state that is not degraded. *)
Lemma run_ok_stay e e' log last now target s :
  run_ok e log last -> last <= now -> snState (eCurrent e) = snState s ->
  pending_ok e' (mkObservation now target (snState s) :: log) now -> 
  (snState s = StateRecovering -> eRecoverAt e' = 0 \/
     forall o, o ∈ log -> degraded (obState o) = true -> obTime o < (eRecoverAt e' + 1) * second) ->
  run_ok (with_current e' s) (mkObservation now target (snState s) :: log) now.
Proof.
  intros [P S T U R N L] Hle Hs HP HR. assert (T' : forall o, o ∈ log -> obTime o <= now).
  { intros o Ho. specialize (T o Ho). lia. }
  constructor; simpl; try done.
  - destruct HP as [H1 H2]. by constructor.
  - intros o [->|Ho]%elem_of_cons; [simpl; lia|auto].
  - intros Hu o [->|Ho]%elem_of_cons; [simpl; by rewrite Hu|apply U; [congruence|done]].
  - intros Hr. destruct (HR Hr) as [H|H]; [by left|right]. intros o [->|Ho]%elem_of_cons Hd; [|auto].
    simpl in Hd. by rewrite Hr in Hd.
  - intros Hn o [->|Ho]%elem_of_cons Hd; [simpl in Hd; by rewrite Hn in Hd|].
    specialize (N ltac:(congruence) o Ho Hd). lia.
  - split; [|done]. split; [left; simpl; congruence|]. simpl. intros Hn x Hx Hd.
    specialize (N ltac:(congruence) x Hx Hd). lia.
Qed.

(** Moving to a state other than normal. *)
Lemma run_ok_move e e' log last now target s :
  run_ok e log last -> last <= now -> snState s <> StateNormal -> snState s <> StateUnknown ->
  pending_ok e' (mkObservation now target (snState s) :: log) now ->
  (snState s = StateRecovering -> eRecoverAt e' = Unix now) ->
  (target = StateCritical /\ snState s = StateCritical) \/
  (agreed log now target /\ (snState s = target \/ (target = StateNormal /\ snState s = StateRecovering))) ->
  run_ok (with_current e' s) (mkObservation now target (snState s) :: log) now.
Proof.
  intros [P S T U R N L] Hle Hn Hu HP HR HJ. assert (T' : forall o, o ∈ log -> obTime o <= now).
  { intros o Ho. specialize (T o Ho). lia. }
  constructor; simpl; try done.
  - destruct HP as [H1 H2]. by constructor.
  - intros o [->|Ho]%elem_of_cons; [simpl; lia|auto].
  - intros Hr. right. rewrite (HR Hr). intros o [->|Ho]%elem_of_cons Hd; simpl.
    + apply Unix_bounds.
    + specialize (T' o Ho). pose proof (Unix_bounds now). lia.
  - split; [|done]. split; [by right|]. simpl. done.
Qed.

(** Reaching the normal state. *)
Lemma run_ok_normal e e' log last now s :
  run_ok e log last -> last <= now -> snState s = StateNormal ->
  pending_ok e' (mkObservation now StateNormal (snState s) :: log) now -> agreed log now StateNormal ->
  (forall o, o ∈ log -> degraded (obState o) = true -> RecoveryWindow - second < now - obTime o) ->
  run_ok (with_current e' s) (mkObservation now StateNormal (snState s) :: log) now.
Proof.
  intros [P S T U R N L] Hle Hs HP HA HD. rewrite Hs in HP. constructor; simpl; try done; rewrite ?Hs; try done.
  - destruct HP as [H1 H2]. by constructor.
  - intros o [->|Ho]%elem_of_cons; [simpl; lia|specialize (T o Ho); lia].
  - intros _ o [->|Ho]%elem_of_cons Hd; [exfalso; simpl in Hd; rewrite ?Hs in Hd; discriminate Hd|]. auto.
  - split; [|done]. split; [right; right; simpl; split; [done|by left]|]. done.
Qed.

Lemma pending_of_reset e o log now : pending_ok (resetPending e) (o :: log) now.
Proof. by apply pending_reset. Qed.

(** The two outcomes of [confirm]. *)
Lemma confirm_spec e log last now target result next e' :
  pending_ok e log last -> last <= now -> confirm e now target 2 result = (next, e') ->
  eRecoverAt e' = eRecoverAt e /\ (forall s, pending_ok e' (mkObservation now target s :: log) now) /\
  ((next = result /\ agreed log now target) \/ next = snState (eCurrent e)).
Proof.
  intros Hp Hle. unfold confirm. pose proof (fun s => confirmed_ok e log last now target s Hp Hle) as Hc.
  destruct (confirmed e now target 2) as [ok e1]. destruct ok; intros [= <- <-].
  - destruct (Hc StateNormal) as (_ & _ & Hr & _ & Hag). split_and!; [done|intros s; apply pending_of_reset|left; auto].
  - split_and!; [by destruct (Hc StateNormal) as (_ & _ & ? & _)|intros s; apply (Hc s)|right].
    destruct (Hc StateNormal) as (_ & -> & _). done.
Qed.

Lemma pending_recoverAt e x log last : pending_ok e log last -> pending_ok (with_recoverAt e x) log last.
Proof. intros [H1 H2]. by constructor. Qed.

(** A confirmed move to a degraded or normal-but-recovering state, or none. *)
Lemma confirm_step e e0 log last now target result next e' x s :
  run_ok e log last -> last <= now -> pending_ok e0 log last -> eCurrent e0 = eCurrent e ->
  confirm e0 now target 2 result = (next, e') -> snState s = next ->
  result <> StateNormal -> result <> StateUnknown ->
  result = target \/ (target = StateNormal /\ result = StateRecovering) ->
  (next = StateRecovering -> x = 0 \/ x = Unix now) -> (result = StateRecovering -> next = StateRecovering -> x = Unix now) ->
  run_ok (with_current (with_recoverAt e' x) s) (mkObservation now target next :: log) now.
Proof.
  intros Hok Hle Hp Hcur Hc Hs Hn Hu Hres Hx Hx'. destruct (confirm_spec _ _ _ _ _ _ _ _ Hp Hle Hc) as (_ & Hp' & Hout).
  rewrite <- Hs. destruct Hout as [[-> Hag]|Hst].
  - eapply run_ok_move; [exact Hok|done|congruence|congruence|apply pending_recoverAt, Hp'| |].
    + intros Hr. simpl. apply Hx'; congruence.
    + right. split; [done|]. rewrite Hs. done.
  - eapply run_ok_stay; [exact Hok|done|congruence|apply pending_recoverAt, Hp'|].
    intros Hr. simpl. destruct (Hx ltac:(congruence)) as [->| ->]; [by left|right].
    intros o Ho _. pose proof (ro_times _ _ _ Hok o Ho). pose proof (Unix_bounds now). lia.
Qed.

Lemma with_recoverAt_id e : with_recoverAt e (eRecoverAt e) = e.
Proof. by destruct e. Qed.

Lemma confirm_recoverAt e now target result next e' :
  confirm e now target 2 result = (next, e') -> eRecoverAt e' = eRecoverAt e.
Proof.
  unfold confirm, confirmed. repeat case_match; intros; simplify_eq/=; done.
Qed.

(** From the unknown state. *)
Lemma unknown_step e log last now target next e' s :
  run_ok e log last -> last <= now -> snState (eCurrent e) = StateUnknown -> classifiable target = true ->
  confirm e now target 2 target = (next, e') -> snState s = next ->
  run_ok (with_current e' s) (mkObservation now target next :: log) now.
Proof.
  intros Hok Hle Hcur Hcl Hc Hs. rewrite <- (with_recoverAt_id e').
  destruct (decide (target = StateNormal)) as [->|Hn].
  - destruct (confirm_spec _ _ _ _ _ _ _ _ (ro_pending _ _ _ Hok) Hle Hc) as (_ & Hp' & [[-> Hag]| ->]).
    + rewrite <- Hs at 2. apply (run_ok_normal e _ log last); try done.
      * apply pending_recoverAt, Hp'.
      * intros o Ho Hd. by rewrite (ro_unknown _ _ _ Hok Hcur o Ho) in Hd.
    + rewrite <- Hs. eapply run_ok_stay; [exact Hok|done|congruence|apply pending_recoverAt, Hp'|congruence].
  - eapply confirm_step; [exact Hok|exact Hle|apply Hok|done|exact Hc|done|done| |by left| |].
    + by destruct target.
    + destruct (confirm_spec _ _ _ _ _ _ _ _ (ro_pending _ _ _ Hok) Hle Hc) as (_ & _ & [[-> _]| ->]);
        [by destruct target|congruence].
    + by destruct target.
Qed.

(** From the recovering state with signals back to normal. *)
Lemma recovering_step e log last now next e' s :
  run_ok e log last -> last <= now -> second <= now -> snState (eCurrent e) = StateRecovering ->
  (let e1 := if eRecoverAt e =? 0 then with_recoverAt e (Unix now) else e in
   let '(ok, e1) := confirmed e1 now StateNormal 2 in
   if ok && (RecoveryWindow <=? since now (eRecoverAt e1))
   then (StateNormal, with_recoverAt (resetPending e1) 0) else (StateRecovering, e1)) = (next, e') ->
  snState s = next -> run_ok (with_current e' s) (mkObservation now StateNormal next :: log) now.
Proof.
  intros Hok Hle Hpos Hcur. set (e1 := if eRecoverAt e =? 0 then _ else e).
  assert (Hp1 : pending_ok e1 log last).
  { subst e1. destruct (_ =? 0); [apply pending_recoverAt|]; apply Hok. }
  assert (Hrec : forall o, o ∈ log -> degraded (obState o) = true -> obTime o < (eRecoverAt e1 + 1) * second).
  { intros o Ho Hd. subst e1. pose proof (Unix_bounds now). pose proof (ro_times _ _ _ Hok o Ho).
    destruct (Z.eqb_spec (eRecoverAt e) 0) as [Hz|Hz]; simpl; [lia|].
    destruct (ro_recover _ _ _ Hok Hcur) as [|H']; [done|]. by apply H'. }
  clearbody e1. pose proof (fun s0 => confirmed_ok e1 log last now StateNormal s0 Hp1 Hle) as Hc. cbv zeta.
  destruct (confirmed e1 now StateNormal 2) as [ok e2]. destruct (Hc StateNormal) as (_ & _ & Hr2 & _ & Hag).
  destruct (ok && _) eqn:E; intros [= <- <-] Hs.
  - rewrite <- Hs at 2. apply andb_true_iff in E as [-> Hw%Z.leb_le]. refine (run_ok_normal e _ log last now s Hok Hle Hs _ (Hag eq_refl) _).
    + apply pending_recoverAt, pending_of_reset.
    + intros o Ho Hd. specialize (Hrec o Ho Hd). rewrite Hr2 in Hw. unfold since, RecoveryWindow, minute, second, millisecond in *. lia.
  - rewrite <- Hs. eapply run_ok_stay; [exact Hok|done|congruence|apply Hc|]. intros _. right. by rewrite Hr2.
Qed.

(** Every transition keeps the invariant. *)
Lemma transition_ok e log last now target s :
  run_ok e log last -> last <= now -> second <= now -> classifiable target = true ->
  snState s = (transition e now (snState (eCurrent e)) target).1 ->
  run_ok (with_current (transition e now (snState (eCurrent e)) target).2 s)
    (mkObservation now target (snState s) :: log) now.
Proof.
  intros Hok Hle Hpos Hcl Hs. set (cur := snState (eCurrent e)) in *. assert (Hcur : cur = snState (eCurrent e)) by done.
  clearbody cur. unfold transition in *.
  destruct (bool_decide (target = StateCritical)) eqn:Ecrit.
  { apply bool_decide_eq_true in Ecrit as ->. simpl in *. eapply run_ok_move; [exact Hok|done|congruence|congruence| | |];
      [apply pending_recoverAt, pending_of_reset|congruence|by left]. }
  apply bool_decide_eq_false in Ecrit.
  assert (Hmove : forall x, (snState s = StateRecovering -> x = 0) -> target <> StateNormal ->
    forall next e', confirm (with_recoverAt e 0) now target 2 target = (next, e') -> snState s = next -> eRecoverAt e' = x ->
    run_ok (with_current e' s) (mkObservation now target (snState s) :: log) now).
  { intros x Hx Hn next e' Hc Hs' Hr. rewrite <- (with_recoverAt_id e'), Hr, Hs'.
    eapply confirm_step; [exact Hok|exact Hle|apply pending_recoverAt, Hok|done|exact Hc|done|done| |by left| |].
    - by destruct target.
    - intros Hn'. left. apply Hx. congruence.
    - by destruct target. }
  destruct (bool_decide (cur = StateUnknown)) eqn:Eu.
  { apply bool_decide_eq_true in Eu. destruct (confirm e now target 2 target) as [next e'] eqn:Ec. simpl in *.
    rewrite Hs. eapply unknown_step; [exact Hok|done|congruence|done|exact Ec|done]. }
  destruct (bool_decide (cur = StateRecovering)) eqn:Er.
  - apply bool_decide_eq_true in Er. destruct (bool_decide (target = StateNormal)) eqn:En.
    + apply bool_decide_eq_true in En as ->.
      match type of Hs with _ = (?t).1 => destruct t as [next e'] eqn:Ec end. simpl in *. rewrite Hs.
      eapply recovering_step; [exact Hok|done|done|congruence|exact Ec|done].
    + apply bool_decide_eq_false in En. destruct (confirm (with_recoverAt e 0) now target 2 target) as [next e'] eqn:Ec.
      simpl in *. eapply (Hmove 0); [done|done|reflexivity|done|]. by apply confirm_recoverAt in Ec.
  - destruct (severity cur <? severity target) eqn:Eup.
    + destruct (confirm (with_recoverAt e 0) now target 2 target) as [next e'] eqn:Ec. simpl in *.
      eapply (Hmove 0); [done| |reflexivity|done|by apply confirm_recoverAt in Ec]. intros ->.
      apply Z.ltb_lt in Eup. destruct cur; simpl in Eup; try lia. by apply bool_decide_eq_false in Eu.
    + destruct (severity target <? severity cur) eqn:Edn.
      * destruct (bool_decide (target = StateNormal)) eqn:En.
        -- apply bool_decide_eq_true in En as ->. destruct (confirm e now StateNormal 2 StateRecovering) as [next e'] eqn:Ec.
           simpl in *. rewrite Hs. assert (Hx : exists x, (if bool_decide (next = StateRecovering) then with_recoverAt e' (Unix now) else e') =
             with_recoverAt e' x /\ (next = StateRecovering -> x = Unix now)).
           { destruct (bool_decide (next = StateRecovering)) eqn:Eq; [by exists (Unix now)|]. exists (eRecoverAt e').
             split; [by rewrite with_recoverAt_id|]. by apply bool_decide_eq_false in Eq. }
           destruct Hx as (x & -> & Hx).
           eapply confirm_step; [exact Hok|exact Hle|apply Hok|done|exact Ec|done|done|done|by right|auto|auto].
        -- apply bool_decide_eq_false in En. destruct (confirm (with_recoverAt e 0) now target 2 target) as [next e'] eqn:Ec.
           simpl in *. eapply (Hmove 0); [done|done|reflexivity|done|]. by apply confirm_recoverAt in Ec.
      * simpl in *. eapply run_ok_stay; [exact Hok|done|congruence|apply pending_of_reset|].
        intros Hr. by apply bool_decide_eq_false in Er; congruence.
Qed.

Lemma observe_ok e log last now signals :
  run_ok e log last -> last <= now -> second <= now ->
  let '(e', log') := observe (e, log) (now, signals) in run_ok e' log' now.
Proof.
  intros Hok Hle Hpos. simpl. destruct (Evaluate_transition e now signals) as (H1 & s & Hs & He).
  destruct (Evaluate e now signals) as [snapshot e']. simpl in *. rewrite H1, <- Hs, He.
  apply (transition_ok e log last); try done. apply target_classifiable.
Qed.

Definition new_evaluator (e : Evaluator) : Prop := eCurrent e = emptySnapshot /\ ePending e = None.

Lemma observations_ok e history :
  new_evaluator e -> nondecreasing second (fst <$> history) ->
  exists last, run_ok (observations e history).1 (observations e history).2 last.
Proof.
  intros [Hcur Hpend] Hnd.
  assert (Hgen : forall h e log last, run_ok e log last -> second <= last -> nondecreasing last (fst <$> h) ->
            exists last', run_ok (foldl observe (e, log) h).1 (foldl observe (e, log) h).2 last').
  { clear. induction h as [|[now sig] h IH]; intros e log last Hok Hpos Hnd; [by exists last|].
    simpl in Hnd. destruct Hnd as [Hle Hnd]. pose proof (observe_ok e log last now sig Hok Hle ltac:(lia)) as Ho.
    simpl. simpl in Ho. destruct (Evaluate e now sig) as [snapshot e']. apply (IH _ _ now); [done|lia|done]. }
  apply (Hgen history e [] second); [|lia|done]. constructor; simpl; try done.
  - by apply pending_reset.
  - by rewrite Hcur.
  - intros o Ho. by apply elem_of_nil in Ho.
  - intros _ o Ho. by apply elem_of_nil in Ho.
  - rewrite Hcur. done.
  - rewrite Hcur. done.
Qed.

Lemma all_justified_app l1 o l2 : all_justified (l1 ++ o :: l2) -> justified o l2.
Proof. induction l1 as [|x l1 IH]; simpl; [tauto|]. intros [_ H]. auto. Qed.

Lemma NewEvaluator_fresh thresholds e : NewEvaluator thresholds = Some e -> new_evaluator e.
Proof. unfold NewEvaluator. destruct (_ || _); [done|]. destruct (_ && _); [|done]. by intros [= <-]. Qed.

(** the pressure state does not flap: apart from the critical state, which is entered at once whenever the signals
    call for it, an evaluation changes the state only when an earlier evaluation, at least fifteen seconds before,
    called for the same target, and it then goes to that target, or to recovering on the way to normal. *)
Theorem pressure_changes_confirmed thresholds e history newer o older :
  NewEvaluator thresholds = Some e -> nondecreasing second (fst <$> history) ->
  (observations e history).2 = newer ++ o :: older ->
  (forall e' now signals, target_of e' now signals = StateCritical -> snState (Evaluate e' now signals).1 = StateCritical) /\
  (obState o <> state_after older -> obState o <> StateCritical ->
   agreed older (obTime o) (obTarget o) /\
   (obState o = obTarget o \/ (obTarget o = StateNormal /\ obState o = StateRecovering))).
Proof.
  intros He%NewEvaluator_fresh Hnd Hlog. split.
  - intros e' now signals Ht. destruct (Evaluate_transition e' now signals) as [-> _]. rewrite Ht. done.
  - destruct (observations_ok e history He Hnd) as [last Hok]. pose proof (ro_log _ _ _ Hok) as Hj. rewrite Hlog in Hj.
    apply all_justified_app in Hj as [[H|[[_ H]|H]] _]; [done|done|auto].
Qed.

(** recovery is slow: an evaluation that reports the normal state comes more than the recovery window, less the
    second that timestamps are rounded by, after every earlier evaluation that reported warning, constrained or
    critical pressure. *)
Theorem pressure_recovery_window thresholds e history newer o older :
  NewEvaluator thresholds = Some e -> nondecreasing second (fst <$> history) ->
  (observations e history).2 = newer ++ o :: older -> obState o = StateNormal ->
  forall x, x ∈ older -> degraded (obState x) = true -> RecoveryWindow - second < obTime o - obTime x.
Proof.
  intros He%NewEvaluator_fresh Hnd Hlog Hn.
  destruct (observations_ok e history He Hnd) as [last Hok]. pose proof (ro_log _ _ _ Hok) as Hj. rewrite Hlog in Hj.
  apply all_justified_app in Hj as [_ H]. auto.
Qed.

(** the hysteresis of ratio signals never applies: for every default threshold the state of a value is the same
    whether or not the evaluator asks for exit thresholds, because the identities end in [_ratio] and the code looks
    for [.ratio]. *)
Theorem ratio_hysteresis_unused t value :
  t ∈ DefaultThresholds -> thresholdState value t true = thresholdState value t false.
Proof.
  intros Ht. assert (Hs : forallb (fun t => negb (HasSuffix (thID t) ".ratio")) DefaultThresholds = true)
    by (vm_compute; reflexivity).
  rewrite forallb_forall in Hs. specialize (Hs t (proj1 (list_elem_of_In _ _) Ht)). apply negb_true_iff in Hs.
  unfold thresholdState, exitBounds. by rewrite Hs.
Qed.

Module PressureExample.
Definition sample (free : Q) : list Signal :=
  [mkSignal "filesystem.data.free_ratio" ProviderSupported (Fin free) "ratio" 0 0 "";
   mkSignal "filesystem.data.free_bytes" ProviderUnsupported (fint 0) "" 0 0 "small_volume"].

(** Healthy, then short of space, then healthy again until the state is normal. *)
Definition day : list (Z * list Signal) :=
  [(100 * second, sample (1 # 2)); (120 * second, sample (1 # 2)); (140 * second, sample (8 # 100));
   (160 * second, sample (8 # 100)); (180 * second, sample (1 # 2)); (200 * second, sample (1 # 2));
   (300 * second, sample (1 # 2)); (400 * second, sample (1 # 2)); (500 * second, sample (1 # 2))].

Definition evaluator : Evaluator := mkEvaluator DefaultThresholds emptySnapshot None 0 0 0.

Lemma evaluator_new : NewEvaluator DefaultThresholds = Some evaluator.
Proof. vm_compute. reflexivity. Qed.

Lemma day_states :
  obState <$> (observations evaluator day).2 =
  [StateNormal; StateRecovering; StateRecovering; StateRecovering; StateConstrained; StateConstrained; StateNormal;
   StateNormal; StateUnknown].
Proof. vm_compute. reflexivity. Qed.

Lemma day_times : nondecreasing second (fst <$> day).
Proof. simpl. unfold second, millisecond. lia. Qed.

(** The newest observation of the day and the ones before it. *)
Definition evening : observation := mkObservation (500 * second) StateNormal StateNormal.
Definition earlier : list observation := List.tl (observations evaluator day).2.

Lemma day_log : (observations evaluator day).2 = [] ++ evening :: earlier.
Proof. vm_compute. reflexivity. Qed.

Lemma pressure_changes_confirmed_witness : agreed earlier (500 * second) StateNormal.
Proof.
  refine (proj1 (proj2 (pressure_changes_confirmed DefaultThresholds evaluator day [] evening earlier
    evaluator_new day_times day_log) _ _)); vm_compute; discriminate.
Defined.

Lemma pressure_recovery_window_witness :
  exists x, x ∈ earlier /\ degraded (obState x) = true /\ RecoveryWindow - second < 500 * second - obTime x.
Proof.
  assert (Hx : mkObservation (180 * second) StateNormal StateConstrained ∈ earlier).
  { assert (E : earlier = take 3 earlier ++ mkObservation (180 * second) StateNormal StateConstrained :: drop 4 earlier)
      by (vm_compute; reflexivity).
    rewrite E. apply elem_of_app. right. apply list_elem_of_here. }
  exists (mkObservation (180 * second) StateNormal StateConstrained). split; [exact Hx|]. split; [reflexivity|].
  exact (pressure_recovery_window DefaultThresholds evaluator day [] evening earlier evaluator_new day_times day_log
           eq_refl _ Hx eq_refl).
Defined.

Lemma ratio_hysteresis_unused_witness :
  thresholdState (Fin (22 # 100)) (ratio_threshold "filesystem.data.free_ratio" LowerIsWorse (20 # 100) (10 # 100) (5 # 100) true) true =
  thresholdState (Fin (22 # 100)) (ratio_threshold "filesystem.data.free_ratio" LowerIsWorse (20 # 100) (10 # 100) (5 # 100) true) false.
Proof. refine (ratio_hysteresis_unused _ _ _). apply list_elem_of_here. Defined.
End PressureExample.
