(* ===== verification/RequestBudget.v ===== *)
(** * Request budgets ([middleware/requestbudget])

    Every admin API route has a policy: its body limit, its admission class, its
    pressure class, its audit policy.  The middleware refuses a request that breaks its
    budget and holds the semaphores of its class while the request runs.

    [DeclareGinRoutes] and [Middleware] are the operations of a registry; the
    semaphores are counters, and concurrent requests are steps of a transition
    system.  The media type, the JSON tokens of a body and the hash that picks a
    session lane are parameters. *)

From S2P Require Import Prelude GoStrings VersionPolicy ResourcePressure.

Open Scope string_scope.
Open Scope list_scope.
Open Scope Z_scope.

(** ** Policies *)
Definition AuthTinyBytes : Z := 16 * 1024.
Definition JSONBytes : Z := 1 * 1024 * 1024.
Definition ConfigBytes : Z := 8 * 1024 * 1024.
Definition DatabaseBytes : Z := 512 * 1024 * 1024.
Definition MaxPageSize : Z := 200.
Definition MaxJSONNestingDepth : Z := 64.
Definition sessionAdmissionLanes : Z := 64.

Inductive BodyClass := BodyNone | BodyAuthTiny | BodyJSON | BodyConfig | BodyComponent | BodyDatabase.

#[export] Instance BodyClass_eq_dec : EqDecision BodyClass.
Proof. solve_decision. Defined.

Record Policy := mkPolicy {
  pMethod : string;
  pRoute : string;
  pAuthentication : string;
  pActionScope : string;
  pBodyClass : BodyClass;
  pMaxBodyBytes : Z;
  pConcurrencyClass : string;
  pPressureClass : string;
  pAuditPolicy : string;
  pResponseClass : string;
  pStepUpOperation : string
}.

Definition set_authentication (v : string) (p : Policy) : Policy :=
  mkPolicy (pMethod p) (pRoute p) v (pActionScope p) (pBodyClass p) (pMaxBodyBytes p) (pConcurrencyClass p)
    (pPressureClass p) (pAuditPolicy p) (pResponseClass p) (pStepUpOperation p).
Definition set_scope (v : string) (p : Policy) : Policy :=
  mkPolicy (pMethod p) (pRoute p) (pAuthentication p) v (pBodyClass p) (pMaxBodyBytes p) (pConcurrencyClass p)
    (pPressureClass p) (pAuditPolicy p) (pResponseClass p) (pStepUpOperation p).
Definition set_body (c : BodyClass) (n : Z) (p : Policy) : Policy :=
  mkPolicy (pMethod p) (pRoute p) (pAuthentication p) (pActionScope p) c n (pConcurrencyClass p)
    (pPressureClass p) (pAuditPolicy p) (pResponseClass p) (pStepUpOperation p).
Definition set_concurrency (v : string) (p : Policy) : Policy :=
  mkPolicy (pMethod p) (pRoute p) (pAuthentication p) (pActionScope p) (pBodyClass p) (pMaxBodyBytes p) v
    (pPressureClass p) (pAuditPolicy p) (pResponseClass p) (pStepUpOperation p).
Definition set_pressure (v : string) (p : Policy) : Policy :=
  mkPolicy (pMethod p) (pRoute p) (pAuthentication p) (pActionScope p) (pBodyClass p) (pMaxBodyBytes p)
    (pConcurrencyClass p) v (pAuditPolicy p) (pResponseClass p) (pStepUpOperation p).
Definition set_audit (v : string) (p : Policy) : Policy :=
  mkPolicy (pMethod p) (pRoute p) (pAuthentication p) (pActionScope p) (pBodyClass p) (pMaxBodyBytes p)
    (pConcurrencyClass p) (pPressureClass p) v (pResponseClass p) (pStepUpOperation p).
Definition set_stepup (v : string) (p : Policy) : Policy :=
  mkPolicy (pMethod p) (pRoute p) (pAuthentication p) (pActionScope p) (pBodyClass p) (pMaxBodyBytes p)
    (pConcurrencyClass p) (pPressureClass p) (pAuditPolicy p) (pResponseClass p) v.

Definition isMutationMethod (method : string) : bool := one_of method ["POST"; "PUT"; "PATCH"; "DELETE"].

(** *** [classify], part by part *)
Definition initialPolicy (method route : string) : Policy :=
  let policy := mkPolicy method route "browser_session" "read" BodyNone 0 "" "interactive" "standard"
                  "bounded_safe_envelope" "" in
  if isMutationMethod method then
    let policy := set_concurrency "session_mutation" (set_body BodyJSON JSONBytes (set_scope "write" policy)) in
    if String.eqb method "DELETE" then set_body BodyNone 0 policy else policy
  else policy.

Definition classifyAuthentication (lower : string) (p : Policy) : Policy :=
  let p := if Contains lower "/apiv2/" then set_authentication "bearer_token" p else p in
  if HasSuffix lower "/login" || HasSuffix lower "/csrf"
  then set_pressure "essential" (set_scope "authenticate" (set_authentication "public_preauth" p)) else p.

(** A security-audited scope, with the operation that needs a step-up, if any. *)
Definition secured (scope stepup : string) (p : Policy) : Policy :=
  set_audit "security" (set_stepup (if String.eqb stepup "" then pStepUpOperation p else stepup) (set_scope scope p)).

Definition databaseImportRoute (lower : string) : bool := Contains lower "/import-".
Definition restoreRoute (lower : string) : bool := Contains lower "/v1/operations/data/restore".

(** The first switch: action scope, step-up operation and audit policy. *)
Definition classifyScope (lower : string) (p : Policy) : Policy :=
  if HasSuffix lower "/inbound-call-room" || HasSuffix lower "/endpoint-peer-config" then
    set_audit "security" (set_concurrency "config" (set_body (pBodyClass p) 1024 (set_scope "admin" p)))
  else if HasSuffix lower "/changepass" || HasSuffix lower "/v1/security/password/change" then
    secured "credential_change" "admin.credential" p
  else if HasSuffix lower "/addadmin" then secured "admin_create" "admin.create" p
  else if HasSuffix lower "/deleteadmin" then secured "admin_delete" "admin.delete" p
  else if HasSuffix lower "/addtoken" then secured "token_create" "token.create" p
  else if HasSuffix lower "/deletetoken" then secured "token_revoke" "token.revoke" p
  else if HasSuffix lower "/settokenenabled" then secured "token_change" "token.change" p
  else if HasSuffix lower "/importdb" then secured "backup_restore" "backup.restore" p
  else if restoreRoute lower && negb (HasSuffix lower "/rehearsal") then secured "backup_restore" "backup.restore" p
  else if restoreRoute lower then secured "backup_restore_rehearsal" "" p
  else if databaseImportRoute lower && HasSuffix lower "/plan" then secured "database_import" "" p
  else if databaseImportRoute lower then secured "database_import" "backup.restore" p
  else if Contains lower "/update/components/" && HasSuffix lower "/remove" then
    secured "component_remove" "component.remove" p
  else if HasSuffix lower "/v1/security/sessions/adopt-bounded" then
    secured "session_policy_adopt" "sessions.adopt_bounded" p
  else if HasSuffix lower "/v1/security/sessions/revoke-others" then
    secured "session_revoke_others" "sessions.revoke_others" p
  else if HasSuffix lower "/v1/security/mfa/enroll" then secured "mfa_enroll" "mfa.enroll" p
  else if HasSuffix lower "/v1/security/mfa/recovery/rotate" then secured "mfa_recovery_rotate" "mfa.recovery.rotate" p
  else if HasSuffix lower "/v1/security/mfa/disable" then secured "mfa_disable" "mfa.disable" p
  else if HasSuffix lower "/v1/operations/ssh/candidate" then secured "ssh_candidate_apply" "ssh.candidate.apply" p
  else if HasSuffix lower "/reconnect/confirm" && Contains lower "/v1/operations/ssh/candidate/" then
    secured "ssh_candidate_confirm" "ssh.candidate.confirm" p
  else if HasSuffix lower "/rollback" && Contains lower "/v1/operations/ssh/candidate/" then
    secured "ssh_candidate_rollback" "ssh.candidate.rollback" p
  else if HasSuffix lower "/v1/operations/deployment/migration" then secured "deployment_migrate" "deployment.migrate" p
  else if HasSuffix lower "/confirm" && Contains lower "/v1/operations/deployment/migration/" then
    secured "deployment_confirm" "deployment.confirm" p
  else if HasSuffix lower "/rollback" && Contains lower "/v1/operations/deployment/migration/" then
    set_pressure "recovery_essential" (secured "deployment_rollback" "deployment.rollback" p)
  else if HasSuffix lower "/v1/operations/update/provider/maintain" then
    secured "update_maintain" "update.provider-maintenance" p
  else if (HasSuffix lower "/prepare" || HasSuffix lower "/preflight") && Contains lower "/v1/operations/update/" then
    secured "update_prepare" "update.prepare" p
  else if HasSuffix lower "/activate" && Contains lower "/v1/operations/update/" then
    secured "update_activate" "update.activate" p
  else if HasSuffix lower "/rollback" && Contains lower "/v1/operations/update/" then
    set_pressure "recovery_essential" (secured "update_rollback" "update.rollback" p)
  else if HasSuffix lower "/drop" && Contains lower "/v1/operations/data/" then secured "data_drop" "data.drop" p
  else if Contains lower "/v1/operations/update/" then secured "update_lifecycle" "" p
  else if Contains lower "/v1/operations/data/" then secured "data_lifecycle" "" p
  else if Contains lower "/v1/operations/deployment/" then secured "deployment_management" "" p
  else if Contains lower "/v1/operations/ssh/" then secured "ssh_management" "" p
  else if Contains lower "/v1/security/" then secured "security" "" p
  else p.

(** The lane of a rollback. *)
Definition rollbackLane (lower : string) : string :=
  if Contains lower "/v1/operations/ssh/" then "ssh_candidate"
  else if Contains lower "/v1/operations/deployment/" then "deployment_migration"
  else if Contains lower "/v1/operations/update/" then "update"
  else "data_lifecycle".

Definition lane (concurrency pressure : string) (p : Policy) : Policy :=
  set_pressure pressure (set_concurrency concurrency p).

(** The second switch: admission and pressure class. *)
Definition classifyAdmission (method lower : string) (p : Policy) : Policy :=
  let isMutation := isMutationMethod method in
  let isGet := String.eqb method "GET" in
  if (isGet && Contains lower "/v1/operations/update/") || (isGet && Contains lower "/v1/operations/data/") ||
     Contains lower "/v1/operations/pressure" || Contains lower "/v1/operations/resource-pressure" ||
     Contains lower "/v1/operations/sqlite" || HasSuffix lower "/v1/operations/status"
  then set_pressure "essential" p
  else if HasSuffix lower "/v1/operations/update/check" then set_pressure "interactive" p
  else if HasSuffix lower "/rollback" && Contains lower "/v1/operations/" then
    set_concurrency (rollbackLane lower) (set_pressure "recovery_essential" p)
  else if Contains lower "/v1/operations/update/" then lane "update" "heavy_mutation" p
  else if Contains lower "/v1/operations/data/" then lane "data_lifecycle" "heavy_mutation" p
  else if Contains lower "/importdb" || restoreRoute lower || databaseImportRoute lower || Contains lower "/backup" ||
          Contains lower "/getdb" then lane "backup" "expensive" p
  else if Contains lower "/diagnostic" || Contains lower "/doctor" then lane "diagnostics" "optional" p
  else if Contains lower "/components/" then lane "component" "bounded_component" p
  else if isMutation && Contains lower "/v1/operations/ssh/" then lane "ssh_candidate" "security_critical" p
  else if isMutation && Contains lower "/v1/operations/deployment/" then lane "deployment_migration" "security_critical" p
  else if HasSuffix lower "/save" || HasSuffix lower "/reorder" || Contains lower "/inbounddrafts/" then
    lane "config" "configuration" p
  else p.

(** The third switch: body class and limit of mutations. *)
Definition classifyBody (lower : string) (p : Policy) : Policy :=
  if HasSuffix lower "/login" || HasSuffix lower "/changepass" || Contains lower "/v1/security/" ||
     Contains lower "/v1/operations/ssh/" || Contains lower "/v1/operations/deployment/" ||
     HasSuffix lower "/addadmin" || HasSuffix lower "/deleteadmin" || HasSuffix lower "/addtoken" ||
     HasSuffix lower "/deletetoken" || HasSuffix lower "/settokenenabled"
  then set_body BodyAuthTiny AuthTinyBytes p
  else if HasSuffix lower "/update/apply" || (Contains lower "/update/components/" && HasSuffix lower "/remove")
  then set_body BodyAuthTiny AuthTinyBytes p
  else if Contains lower "/importdb" || restoreRoute lower || (databaseImportRoute lower && negb (HasSuffix lower "/rollback"))
  then set_body BodyDatabase DatabaseBytes p
  else if databaseImportRoute lower && HasSuffix lower "/rollback" then set_body BodyAuthTiny AuthTinyBytes p
  else if Contains lower "/components/" && (HasSuffix lower "/assets" || HasSuffix lower "/import")
  then set_body BodyConfig ConfigBytes p
  else if HasSuffix lower "/save" || HasSuffix lower "/reorder" || Contains lower "/inbounddrafts/"
  then set_body BodyConfig ConfigBytes p
  else p.

Definition classifyRoute (method route : string) : Policy :=
  let lower := ToLower route in
  let p := classifyAdmission method lower (classifyScope lower (classifyAuthentication lower (initialPolicy method route))) in
  if negb (isMutationMethod method) then p else classifyBody lower p.

(** ** The registry *)
Record PressureDecision := mkPressure { pdAllowed : bool; pdReason : string; pdRetryAfter : Z }.

Record Registry := mkRegistry {
  rBasePath : string;
  rPolicies : gmap string Policy;
  rPressure : option (Policy -> PressureDecision)
}.

Definition NewRegistry (basePath : string) : Registry := mkRegistry (TrimRight basePath "/") ∅ None.

Definition SetPressureGate (gate : Policy -> PressureDecision) (r : Registry) : Registry :=
  mkRegistry (rBasePath r) (rPolicies r) (Some gate).

Definition pressureDecision (r : Registry) (p : Policy) : PressureDecision :=
  match rPressure r with None => mkPressure true "" 0 | Some gate => gate p end.

Definition policyKey (method route : string) : string := ToUpper method +:+ " " +:+ route.

Definition protected (r : Registry) (path : string) : bool :=
  let apiBase := rBasePath r +:+ "/api" in
  let apiV2Base := rBasePath r +:+ "/apiv2" in
  String.eqb path apiBase || HasPrefix path (apiBase +:+ "/") ||
  String.eqb path apiV2Base || HasPrefix path (apiV2Base +:+ "/").

(** [routes] are the methods and paths that gin registered. *)
Definition DeclareGinRoutes (routes : list (string * string)) (r : Registry) : Registry :=
  mkRegistry (rBasePath r)
    (foldl (fun policies route =>
       if negb (protected r route.2) then policies
       else <[policyKey route.1 route.2 := classifyRoute route.1 route.2]> policies) (rPolicies r) routes)
    (rPressure r).

Definition Lookup (method route : string) (r : Registry) : option Policy := rPolicies r !! policyKey method route.

(** The gate that [web.go] installs: the pressure manager decides by pressure class. *)
Definition webPressureGate (snapshot : Snapshot) (now : Z) (p : Policy) : PressureDecision :=
  let decision := managerAdmission snapshot now (pPressureClass p) in
  mkPressure (adAllowed decision) (adReasonCode decision) (adRetryAfter decision).

(** ** Admission *)
Inductive semaphore := Global (class : string) | Lane (index : Z).

#[export] Instance semaphore_eq_dec : EqDecision semaphore.
Proof. solve_decision. Defined.

(** How many requests hold each semaphore. *)
Record admission := mkAdmissionState { aGlobal : gmap string Z; aLanes : gmap Z Z }.

Definition global_capacity : list (string * Z) :=
  [("config", 1); ("backup", 1); ("component", 2); ("diagnostics", 2); ("ssh_candidate", 1);
   ("deployment_migration", 1); ("update", 1); ("data_lifecycle", 1)].

Definition capacity_of (class : string) : option Z :=
  snd <$> List.find (fun kv => String.eqb kv.1 class) global_capacity.

(** The capacity of a semaphore; a class without one is a nil channel. *)
Definition capacity (s : semaphore) : option Z :=
  match s with Global class => capacity_of class | Lane _ => Some 1 end.

Definition newAdmission : admission := mkAdmissionState ∅ ∅.

Definition in_use (s : semaphore) (a : admission) : Z :=
  match s with
  | Global class => default 0 (aGlobal a !! class)
  | Lane i => default 0 (aLanes a !! i)
  end.

Definition set_use (s : semaphore) (n : Z) (a : admission) : admission :=
  match s with
  | Global class => mkAdmissionState (<[class := n]> (aGlobal a)) (aLanes a)
  | Lane i => mkAdmissionState (aGlobal a) (<[i := n]> (aLanes a))
  end.

(** The non-blocking send of [acquireOne]: the releases it adds, or failure. *)
Definition acquireOne (s : semaphore) (a : admission) : option (list semaphore * admission) :=
  match capacity s with
  | None => Some ([], a)
  | Some cap => if in_use s a <? cap then Some ([s], set_use s (in_use s a + 1) a) else None
  end.

Definition releaseOne (s : semaphore) (a : admission) : admission := set_use s (in_use s a - 1) a.

(** [releaseAll] receives in the reverse order of acquisition. *)
Definition releaseAll (held : list semaphore) (a : admission) : admission := foldr releaseOne a held.

Record request := mkRequest {
  rqMethod : string;
  rqRoute : string;
  rqContentLength : Z;
  rqTransferEncoding : list string;
  rqQuery : string -> string;
  rqContentType : string;
  rqBody : option (string * bool);
  rqSession : option string;
  rqAuthorization : string;
  rqRemoteAddr : string
}.

(** [json.Token], as far as the depth check looks at it. *)
Inductive jsonToken := OpenDelim | CloseDelim | OtherToken.

Section Middleware.
(** The media type of a header, the tokens of a body up to its end or first error, and the first eight bytes of a
    SHA-256 sum. *)
Context (ParseMediaType : string -> option string) (jsonTokens : string -> list jsonToken) (sha64 : string -> Z).

Definition laneKey (r : request) : string :=
  match rqSession r with
  | Some value => "session:" +:+ value
  | None =>
      let authorization := TrimSpace (rqAuthorization r) in
      if negb (String.eqb authorization "") then "authorization:" +:+ authorization else "peer:" +:+ rqRemoteAddr r
  end.

(** A mutation outside the login needs its session lane; an expensive class needs its global lane as well. *)
Definition laneOf (r : request) : semaphore := Lane (sha64 (laneKey r) mod sessionAdmissionLanes).

Definition wantsLane (r : request) (p : Policy) : bool :=
  isMutationMethod (rqMethod r) && negb (String.eqb (pAuthentication p) "public_preauth").

Definition wantsGlobal (p : Policy) : bool :=
  negb (String.eqb (pConcurrencyClass p) "") && negb (String.eqb (pConcurrencyClass p) "session_mutation").

Definition acquire (r : request) (p : Policy) (a : admission) : option (list semaphore * admission) :=
  match (if wantsLane r p then acquireOne (laneOf r) a else Some ([], a)) with
  | None => None
  | Some (held, a1) =>
      if wantsGlobal p then
        match acquireOne (Global (pConcurrencyClass p)) a1 with
        | None => None
        | Some (held2, a2) => Some (held ++ held2, a2)
        end
      else Some (held, a1)
  end.

(** What [acquire] leaves behind when it refuses: the lane it had taken is given back. *)
Definition acquireState (r : request) (p : Policy) (a : admission) : admission :=
  match acquire r p a with
  | Some (_, a') => a'
  | None =>
      match (if wantsLane r p then acquireOne (laneOf r) a else Some ([], a)) with
      | None => a
      | Some (held, a1) => releaseAll held a1
      end
  end.

(** ** The checks of the middleware *)

Definition enforcePageSize (r : request) : bool :=
  forallb (fun key =>
    let raw := TrimSpace (rqQuery r key) in
    if String.eqb raw "" then true
    else match AtoiSigned raw with
         | None => false
         | Some value => (1 <=? value) && (value <=? MaxPageSize)
         end) ["limit"; "pageSize"; "perPage"].

(** Whether the request may go on, and the limit of its body reader. *)
Definition enforceBody (r : request) (p : Policy) : bool * option Z :=
  if bool_decide (pBodyClass p = BodyNone) then
    (negb ((0 <? rqContentLength r) || (0 <? Z.of_nat (length (rqTransferEncoding r)))), None)
  else if pMaxBodyBytes p <=? 0 then (true, None)
  else if pMaxBodyBytes p <? rqContentLength r then (false, None)
  else (true, Some (pMaxBodyBytes p)).

(** [io.ReadAll] of the body behind [http.MaxBytesReader]; an error is the status of its answer. *)
Definition readBody (limit : option Z) (body : string * bool) : string + Z :=
  let '(data, broken) := body in
  match limit with
  | Some n => if n <? slen data then inr 413 else if broken then inr 400 else inl data
  | None => if broken then inr 400 else inl data
  end.

Fixpoint depthWithin (depth : Z) (tokens : list jsonToken) : bool :=
  match tokens with
  | [] => true
  | OpenDelim :: rest => if MaxJSONNestingDepth <? depth + 1 then false else depthWithin (depth + 1) rest
  | CloseDelim :: rest => depthWithin (depth - 1) rest
  | OtherToken :: rest => depthWithin depth rest
  end.

(** The status of the answer that aborts the request, if it does. *)
Definition enforceJSONDepth (r : request) (limit : option Z) : option Z :=
  match rqBody r with
  | None => None
  | Some body =>
      match ParseMediaType (rqContentType r) with
      | None => None
      | Some contentType =>
          if negb (String.eqb contentType "application/json") && negb (HasSuffix contentType "+json") then None
          else match readBody limit body with
               | inr status => Some status
               | inl data =>
                   if String.eqb (TrimSpace data) "" then None
                   else if depthWithin 0 (jsonTokens data) then None else Some 400
               end
      end
  end.

Inductive verdict :=
| Unprotected
| Rejected (status : Z) (reason : string)
| Accepted (policy : Policy) (limit : option Z) (held : list semaphore).

(** [Middleware] up to [c.Next()]. *)
Definition Middleware (registry : Registry) (r : request) (a : admission) : verdict * admission :=
  if String.eqb (rqRoute r) "" || negb (protected registry (rqRoute r)) then (Unprotected, a)
  else
    match Lookup (rqMethod r) (rqRoute r) registry with
    | None => (Rejected 500 "undeclared_route", a)
    | Some policy =>
        let pressure := pressureDecision registry policy in
        if negb (pdAllowed pressure) then (Rejected 503 ("pressure_rejected:" +:+ pdReason pressure), a)
        else if negb (enforcePageSize r) then (Rejected 400 "invalid_page_size", a)
        else
          let '(bodyOk, limit) := enforceBody r policy in
          if negb bodyOk then (Rejected 413 "body_limit", a)
          else
            match enforceJSONDepth r limit with
            | Some status => (Rejected status "json_depth", a)
            | None =>
                match acquire r policy a with
                | None => (Rejected 429 "concurrency_limit", acquireState r policy a)
                | Some (held, a') => (Accepted policy limit held, a')
                end
            end
    end.

End Middleware.

(** ** Classification *)

(** The routes of the login, which are open to everybody. *)
Definition preauthRoute (lower : string) : bool := HasSuffix lower "/login" || HasSuffix lower "/csrf".

(** What every policy satisfies; [open] tells whether the route is one of the login. *)
Record sound_policy (open : bool) (p : Policy) : Prop := mkSound {
  sp_body : pBodyClass p = BodyNone \/ 0 < pMaxBodyBytes p <= DatabaseBytes;
  sp_lane : wantsGlobal p = true -> is_Some (capacity_of (pConcurrencyClass p));
  sp_stepup : pStepUpOperation p <> "" -> pAuditPolicy p = "security";
  sp_open : String.eqb (pAuthentication p) "public_preauth" = open
}.

Lemma sound_secured a scope stepup p : sound_policy a p -> sound_policy a (secured scope stepup p).
Proof. intros [H1 H2 H3 H4]. constructor; done. Qed.

Lemma sound_pressure a v p : sound_policy a p -> sound_policy a (set_pressure v p).
Proof. intros [H1 H2 H3 H4]. constructor; done. Qed.

Lemma sound_scope a v p : sound_policy a p -> sound_policy a (set_scope v p).
Proof. intros [H1 H2 H3 H4]. constructor; done. Qed.

Lemma sound_authentication v p : v <> "public_preauth" -> sound_policy false p -> sound_policy false (set_authentication v p).
Proof. intros Hv [H1 H2 H3 H4]. constructor; try done. by apply String.eqb_neq. Qed.

Lemma sound_preauth a p : sound_policy a p -> sound_policy true (set_authentication "public_preauth" p).
Proof. intros [H1 H2 H3 H4]. by constructor. Qed.

Lemma sound_concurrency a v p :
  is_Some (capacity_of v) -> sound_policy a p -> sound_policy a (set_concurrency v p).
Proof.
  intros Hc [H1 H2 H3 H4]. by constructor.
Qed.

Lemma sound_body a c n p : 0 < n <= DatabaseBytes -> sound_policy a p -> sound_policy a (set_body c n p).
Proof. intros Hn [H1 H2 H3 H4]. constructor; try done. by right. Qed.

Lemma sound_if a (c : bool) p q : sound_policy a p -> sound_policy a q -> sound_policy a (if c then p else q).
Proof. by destruct c. Qed.

Lemma rollbackLane_capacity lower : is_Some (capacity_of (rollbackLane lower)).
Proof. unfold rollbackLane. repeat case_match; by eexists. Qed.

#[export] Hint Resolve sound_secured sound_pressure sound_scope sound_if rollbackLane_capacity : solovey.

Lemma sound_initial method route : sound_policy false (initialPolicy method route).
Proof.
  unfold initialPolicy. destruct (isMutationMethod method).
  - destruct (String.eqb method "DELETE"); constructor; simpl; try done; [by left|right; unfold JSONBytes, DatabaseBytes; lia].
  - constructor; simpl; try done. by left.
Qed.

Lemma sound_classifyScope a lower p : sound_policy a p -> sound_policy a (classifyScope lower p).
Proof.
  intros H. unfold classifyScope. apply sound_if.
  - assert (H' : sound_policy a (set_concurrency "config" (set_body (pBodyClass p) 1024 (set_scope "admin" p)))).
    { apply sound_concurrency; [by eexists|]. apply sound_body; [unfold DatabaseBytes; lia|]. by apply sound_scope. }
    destruct H'. constructor; done.
  - repeat (apply sound_if; [auto with solovey|]). exact H.
Qed.

Lemma sound_classifyAdmission a method lower p : sound_policy a p -> sound_policy a (classifyAdmission method lower p).
Proof.
  intros H. unfold classifyAdmission, lane. cbv zeta.
  repeat (apply sound_if; [first [by auto with solovey|apply sound_pressure, sound_concurrency; [by eexists|done]|
    apply sound_concurrency; [apply rollbackLane_capacity|by apply sound_pressure]]|]).
  exact H.
Qed.

Lemma sound_classifyBody a lower p : sound_policy a p -> sound_policy a (classifyBody lower p).
Proof.
  intros H. unfold classifyBody.
  repeat (apply sound_if; [apply sound_body; [unfold AuthTinyBytes, ConfigBytes, DatabaseBytes; lia|done]|]). exact H.
Qed.

Lemma sound_classifyAuthentication lower p : sound_policy false p -> sound_policy (preauthRoute lower) (classifyAuthentication lower p).
Proof.
  intros H. unfold classifyAuthentication, preauthRoute. cbv zeta. assert (H' : sound_policy false (if Contains lower "/apiv2/" then set_authentication "bearer_token" p else p)).
  { apply sound_if; [by apply sound_authentication|done]. }
  destruct (_ || _); [|done]. eapply sound_pressure, sound_scope, sound_preauth, H'.
Qed.

Lemma sound_classifyRoute method route : sound_policy (preauthRoute (ToLower route)) (classifyRoute method route).
Proof.
  unfold classifyRoute. cbv zeta.
  assert (H : sound_policy (preauthRoute (ToLower route)) (classifyAdmission method (ToLower route)
            (classifyScope (ToLower route) (classifyAuthentication (ToLower route) (initialPolicy method route))))).
  { apply sound_classifyAdmission, sound_classifyScope, sound_classifyAuthentication, sound_initial. }
  destruct (negb (isMutationMethod method)) eqn:E; [exact H|]. by apply sound_classifyBody.
Qed.

(** ** Declared routes *)
Lemma declared_lookup routes r key p :
  rPolicies (DeclareGinRoutes routes r) !! key = Some p ->
  rPolicies r !! key = Some p \/
  exists route, route ∈ routes /\ policyKey route.1 route.2 = key /\ p = classifyRoute route.1 route.2.
Proof.
  unfold DeclareGinRoutes. simpl.
  assert (H : forall l (m : gmap string Policy), foldl (fun policies route =>
      if negb (protected r route.2) then policies
      else <[policyKey route.1 route.2 := classifyRoute route.1 route.2]> policies) m l !! key = Some p ->
    m !! key = Some p \/ exists route, route ∈ l /\ policyKey route.1 route.2 = key /\ p = classifyRoute route.1 route.2).
  { induction l as [|x l IH]; intros m Hl; [by left|]. simpl in Hl. apply IH in Hl as [Hl|(y & Hy & Hk & Hp)].
    - destruct (negb _); [by left|]. apply lookup_insert_Some in Hl as [[Hk Hp]|[_ Hl]]; [right|by left].
      exists x. split_and!; [apply list_elem_of_here|done|done].
    - right. exists y. split_and!; [by apply list_elem_of_further|done|done]. }
  apply H.
Qed.

(** ** JSON depth *)

(** How deep a prefix of the tokens nests. *)
Definition nesting (tokens : list jsonToken) : Z :=
  foldl (fun d t => match t with OpenDelim => d + 1 | CloseDelim => d - 1 | OtherToken => d end) 0 tokens.

Lemma nesting_snoc l t :
  nesting (l ++ [t]) = match t with OpenDelim => nesting l + 1 | CloseDelim => nesting l - 1 | OtherToken => nesting l end.
Proof. unfold nesting. rewrite foldl_app. done. Qed.

Lemma depthWithin_spec seen tokens :
  depthWithin (nesting seen) tokens = true <->
  forall rest before, tokens = before ++ OpenDelim :: rest -> nesting (seen ++ before ++ [OpenDelim]) <= MaxJSONNestingDepth.
Proof.
  revert seen. induction tokens as [|t tokens IH]; intros seen.
  { simpl. split; [|done]. intros _ rest [|? ?]; discriminate. }
  assert (Hmid : forall x b, nesting (seen ++ (x :: b) ++ [OpenDelim]) = nesting ((seen ++ [x]) ++ b ++ [OpenDelim])).
  { intros x b. by rewrite <- app_assoc. }
  assert (Hrec : (forall rest before, tokens = before ++ OpenDelim :: rest ->
      nesting ((seen ++ [t]) ++ before ++ [OpenDelim]) <= MaxJSONNestingDepth) <->
    (forall rest before, t :: tokens = (t :: before) ++ OpenDelim :: rest ->
      nesting (seen ++ (t :: before) ++ [OpenDelim]) <= MaxJSONNestingDepth)).
  { split; intros H rest before Heq; [rewrite Hmid; apply (H rest); by simplify_eq/=|rewrite <- Hmid; apply (H rest); by rewrite Heq]. }
  assert (Hd : nesting (seen ++ [OpenDelim]) = nesting seen + 1) by apply nesting_snoc.
  destruct t; cbn [depthWithin].
  - destruct (Z.ltb_spec MaxJSONNestingDepth (nesting seen + 1)).
    + split; [done|]. intros H'. specialize (H' tokens [] eq_refl). rewrite app_nil_l, Hd in H'. lia.
    + rewrite <- Hd, IH, Hrec. split.
      * intros H' rest [|x before] Heq; simpl in Heq; simplify_eq; [rewrite app_nil_l, Hd; lia|by apply (H' rest)].
      * intros H' rest before Heq. by apply (H' rest).
  - rewrite <- (nesting_snoc seen CloseDelim), IH, Hrec. split.
    + intros H' rest [|x before] Heq; simpl in Heq; simplify_eq. by apply (H' rest).
    + intros H' rest before Heq. by apply (H' rest).
  - rewrite <- (nesting_snoc seen OtherToken), IH, Hrec. split.
    + intros H' rest [|x before] Heq; simpl in Heq; simplify_eq. by apply (H' rest).
    + intros H' rest before Heq. by apply (H' rest).
Qed.

Section Accepted.
Context (ParseMediaType : string -> option string) (jsonTokens : string -> list jsonToken) (sha64 : string -> Z).

(** The content type of a request is JSON. *)
Definition json_request (r : request) : Prop :=
  exists t, ParseMediaType (rqContentType r) = Some t /\ (t = "application/json" \/ HasSuffix t "+json" = true).

(** whatever routes the panel declares, a request that the middleware lets through to its handler has a declared
    policy and is within its budget: it announces no body, or every read of its body is limited to a positive number
    of bytes, at most 512 MiB; a JSON body that is not blank has been read whole within that limit and never nests
    deeper than 64; its page sizes are between 1 and 200; and the pressure gate allowed its class. *)
Theorem admitted_within_budget base routes gate r a p limit held a' :
  Middleware ParseMediaType jsonTokens sha64 (SetPressureGate gate (DeclareGinRoutes routes (NewRegistry base))) r a = (Accepted p limit held, a') ->
  (exists route, route ∈ routes /\ p = classifyRoute route.1 route.2) /\
  pdAllowed (gate p) = true /\
  ((rqContentLength r <= 0 /\ rqTransferEncoding r = [] /\ limit = None) \/
   (exists n, limit = Some n /\ 0 < n <= DatabaseBytes /\ rqContentLength r <= n)) /\
  (forall data broken, rqBody r = Some (data, broken) -> json_request r ->
     (forall n, limit = Some n -> slen data <= n) /\ broken = false /\
     (TrimSpace data <> "" -> forall before rest, jsonTokens data = before ++ OpenDelim :: rest ->
        nesting (before ++ [OpenDelim]) <= MaxJSONNestingDepth)) /\
  (forall key v, key ∈ ["limit"; "pageSize"; "perPage"] -> TrimSpace (rqQuery r key) <> "" ->
     AtoiSigned (TrimSpace (rqQuery r key)) = Some v -> 1 <= v <= MaxPageSize).
Proof.
  intros H. unfold Middleware in H. destruct (_ || _) in H; [done|].
  destruct (Lookup _ _ _) as [policy|] eqn:Hl; [|done].
  destruct (pdAllowed (pressureDecision _ policy)) eqn:Hpd; [cbn [negb] in H|done].
  destruct (enforcePageSize r) eqn:Hps; [cbn [negb] in H|done].
  destruct (enforceBody r policy) as [bodyOk lim] eqn:Hb. destruct bodyOk; [cbn [negb] in H|done].
  destruct (enforceJSONDepth _ _ r lim) eqn:Hd; [done|].
  destruct (acquire sha64 r policy a) as [[h2 a2]|]; [|done]. injection H as <- <- <- <-.
  apply declared_lookup in Hl as [Hl|(route & Hin & _ & Hp)]; [simpl in Hl; by rewrite lookup_empty in Hl|].
  split_and!; [by exists route|done| | |].
  - unfold enforceBody in Hb. pose proof (sound_classifyRoute route.1 route.2) as Hs. rewrite <- Hp in Hs.
    destruct (bool_decide (pBodyClass policy = BodyNone)) eqn:Ebc.
    + injection Hb as Hb <-. left. apply negb_true_iff, orb_false_iff in Hb as [Hc%Z.ltb_ge Ht%Z.ltb_ge].
      split_and!; [lia| |done]. destruct (rqTransferEncoding r); [done|]. simpl in Ht. lia.
    + right. apply bool_decide_eq_false in Ebc. destruct (sp_body _ _ Hs) as [|Hn]; [done|].
      destruct (Z.leb_spec (pMaxBodyBytes policy) 0); [lia|]. destruct (Z.ltb_spec (pMaxBodyBytes policy) (rqContentLength r)); [done|].
      injection Hb as <-. exists (pMaxBodyBytes policy). split_and!; [done|lia|lia|lia].
  - intros data broken Hbody (t & Ht & Hj). unfold enforceJSONDepth in Hd. rewrite Hbody, Ht in Hd.
    assert (Hc : negb (String.eqb t "application/json") && negb (HasSuffix t "+json") = false).
    { destruct Hj as [->| ->]; [done|apply andb_false_r]. }
    rewrite Hc in Hd. unfold readBody in Hd.
    assert (Hrd : (forall n, lim = Some n -> slen data <= n) /\ broken = false /\
      (TrimSpace data <> "" -> depthWithin 0 (jsonTokens data) = true)).
    { assert (Hdepth : (if String.eqb (TrimSpace data) "" then None else
        if depthWithin 0 (jsonTokens data) then None else Some 400) = None -> TrimSpace data <> "" ->
        depthWithin 0 (jsonTokens data) = true).
      { intros Hn Hne. rewrite (proj2 (String.eqb_neq _ _) Hne) in Hn. by destruct (depthWithin _ _). }
      destruct lim as [n|].
      - destruct (Z.ltb_spec n (slen data)); [done|]. destruct broken; [done|]. split_and!; [intros ? [= <-]; lia|done|auto].
      - destruct broken; [done|]. split_and!; [done|done|auto]. }
    destruct Hrd as (Hr1 & Hr2 & Hr3). split_and!; [done|done|]. intros Hne before rest Htok.
    specialize (Hr3 Hne). change 0 with (nesting []) in Hr3.
    by apply (proj1 (depthWithin_spec [] _) Hr3 rest).
  - intros key v Hk Hne Hv. unfold enforcePageSize in Hps. rewrite forallb_forall in Hps.
    specialize (Hps key (proj1 (list_elem_of_In _ _) Hk)). cbv zeta in Hps.
    rewrite (proj2 (String.eqb_neq _ _) Hne), Hv, andb_true_iff, !Z.leb_le in Hps. done.
Qed.
End Accepted.

(** C36: every policy is usable: a route that may have a body has a positive limit of at most 512 MiB, every
    concurrency class it names has a semaphore, so no class is unlimited by accident, every operation that asks for a
    step-up is audited as security, and a request needs the lane of its session exactly when it is a mutation and its
    route is not one of the login and CSRF routes, which are open. *)
Theorem policies_sound method route :
  let p := classifyRoute method route in
  (pBodyClass p = BodyNone \/ 0 < pMaxBodyBytes p <= DatabaseBytes) /\
  (wantsGlobal p = true -> is_Some (capacity_of (pConcurrencyClass p))) /\
  (pStepUpOperation p <> "" -> pAuditPolicy p = "security") /\
  (forall r, rqMethod r = method -> wantsLane r p = isMutationMethod method && negb (preauthRoute (ToLower route))).
Proof.
  destruct (sound_classifyRoute method route) as [H1 H2 H3 H4]. cbv zeta. split_and!; [done|done|done|]. intros r <-. unfold wantsLane. by rewrite H4.
Qed.

(** ** Pressure *)
Lemma HasSuffix_app s suffix : HasSuffix s suffix = true -> exists before, s = before +:+ suffix.
Proof.
  induction s as [|c s IH]; cbn [HasSuffix]; rewrite orb_true_iff, String.eqb_eq.
  - intros [<-|]; [by exists ""|done].
  - intros [<-|H]; [by exists ""|]. destruct (IH H) as [b ->]. by exists (String c b).
Qed.

Lemma rollback_not_check s : HasSuffix s "/v1/operations/update/check" = true -> HasSuffix s "/rollback" = true -> False.
Proof.
  intros [p Hp]%HasSuffix_app [q Hq]%HasSuffix_app. rewrite Hp in Hq.
  apply (f_equal srev) in Hq. rewrite !srev_app in Hq. discriminate Hq.
Qed.

Lemma classifyBody_pressure lower p : pPressureClass (classifyBody lower p) = pPressureClass p.
Proof. unfold classifyBody. repeat case_match; done. Qed.

(** The class of a rollback route. *)
Lemma rollback_class method route :
  HasSuffix (ToLower route) "/rollback" = true -> Contains (ToLower route) "/v1/operations/" = true ->
  pPressureClass (classifyRoute method route) = "essential" \/
  pPressureClass (classifyRoute method route) = "recovery_essential".
Proof.
  intros Hs Hc. unfold classifyRoute. cbv zeta.
  set (p0 := classifyScope (ToLower route) (classifyAuthentication (ToLower route) (initialPolicy method route))).
  clearbody p0.
  assert (Hadm : pPressureClass (classifyAdmission method (ToLower route) p0) = "essential" \/
                 pPressureClass (classifyAdmission method (ToLower route) p0) = "recovery_essential").
  { unfold classifyAdmission. cbv zeta. destruct (_ || _); [by left|].
    destruct (HasSuffix (ToLower route) "/v1/operations/update/check") eqn:E; [by destruct (rollback_not_check _ E Hs)|].
    rewrite Hs, Hc. by right. }
  destruct (negb _); [done|]. by rewrite classifyBody_pressure.
Qed.

(** resource pressure never blocks a rollback: whatever the pressure state and however stale its snapshot, the
    gate admits every operation route that ends in [/rollback]. *)
Theorem rollback_admitted_under_pressure snapshot now method route :
  HasSuffix (ToLower route) "/rollback" = true -> Contains (ToLower route) "/v1/operations/" = true ->
  pdAllowed (webPressureGate snapshot now (classifyRoute method route)) = true.
Proof.
  intros Hs Hc. unfold webPressureGate, managerAdmission, Decide. simpl.
  destruct (rollback_class method route Hs Hc) as [->| ->]; done.
Qed.

Lemma rollback_admitted_under_pressure_witness :
  let critical := mkSnapshot StateCritical StateNormal [] [] 2 1000 1000 in
  pdAllowed (webPressureGate critical (1010 * second) (classifyRoute "POST" "/panel/api/v1/operations/update/:id/rollback")) = true /\
  pdAllowed (webPressureGate critical (1010 * second) (classifyRoute "POST" "/panel/api/v1/operations/update/:id/activate")) = false.
Proof.
  intros critical. split; [|vm_compute; reflexivity].
  refine (rollback_admitted_under_pressure critical (1010 * second) "POST" "/panel/api/v1/operations/update/:id/rollback" _ _);
    vm_compute; reflexivity.
Defined.

(** ** Concurrent requests *)
Record flight := mkFlight { fRequest : request; fPolicy : Policy; fHeld : list semaphore }.

Record traffic := mkTraffic { tAdmission : admission; tInFlight : list flight }.

Definition held_by (s : semaphore) (held : list semaphore) : Z := count_of (fun x => x = s) held.

Fixpoint holders (s : semaphore) (fs : list flight) : Z :=
  match fs with
  | [] => 0
  | f :: rest => held_by s (fHeld f) + holders s rest
  end.

Lemma holders_app s l1 l2 : holders s (l1 ++ l2) = holders s l1 + holders s l2.
Proof. induction l1 as [|f l1 IH]; simpl; lia. Qed.

Lemma held_by_nonneg s l : 0 <= held_by s l.
Proof. apply count_of_nonneg. Qed.

Lemma holders_nonneg s l : 0 <= holders s l.
Proof. induction l as [|f l IH]; simpl; [lia|]. pose proof (held_by_nonneg s (fHeld f)). lia. Qed.

Lemma in_use_set s s' n a : in_use s (set_use s' n a) = if decide (s' = s) then n else in_use s a.
Proof.
  destruct (decide (s' = s)) as [->|Hne].
  - destruct s; simpl; by rewrite lookup_insert_eq.
  - destruct s as [c|i], s' as [c'|i']; simpl; rewrite ?lookup_insert_ne by congruence; done.
Qed.

Section Traffic.
Context (sha64 : string -> Z).

Inductive arrival : traffic -> traffic -> Prop :=
| arrive_admitted a a' fs r p held :
    acquire sha64 r p a = Some (held, a') ->
    arrival (mkTraffic a fs) (mkTraffic a' (mkFlight r p held :: fs))
| arrive_refused a fs r p :
    acquire sha64 r p a = None ->
    arrival (mkTraffic a fs) (mkTraffic (acquireState sha64 r p a) fs)
| depart a l1 f l2 :
    arrival (mkTraffic a (l1 ++ f :: l2)) (mkTraffic (releaseAll (fHeld f) a) (l1 ++ l2)).

(** What a request holds while it runs. *)
Definition holding_of (r : request) (p : Policy) : list semaphore :=
  (if wantsLane r p then [laneOf sha64 r] else []) ++
  (if wantsGlobal p && (if capacity_of (pConcurrencyClass p) is Some _ then true else false)
   then [Global (pConcurrencyClass p)] else []).

(** The counters count the requests in flight and stay within their capacities. *)
Record balanced (t : traffic) : Prop := mkBalanced {
  bal_count : forall s, in_use s (tAdmission t) = holders s (tInFlight t);
  bal_bound : forall s cap, capacity s = Some cap -> in_use s (tAdmission t) <= cap;
  bal_held : forall f, f ∈ tInFlight t -> fHeld f = holding_of (fRequest f) (fPolicy f)
}.

Lemma acquireOne_spec s a held a' :
  acquireOne s a = Some (held, a') ->
  held = (if capacity s is Some _ then [s] else []) /\
  (forall x, in_use x a' = in_use x a + held_by x held) /\
  (forall cap, capacity s = Some cap -> in_use s a' <= cap).
Proof.
  unfold acquireOne. destruct (capacity s) as [cap|] eqn:Ec.
  - destruct (Z.ltb_spec (in_use s a) cap); [|done]. intros [= <- <-]. split_and!; [done| |].
    + intros x. rewrite in_use_set. unfold held_by. rewrite count_of_single. destruct (decide (s = x)) as [->|]; lia.
    + intros cap' [= <-]. rewrite in_use_set, decide_True by done. lia.
  - intros [= <- <-]. split_and!; [done| |congruence]. intros x. unfold held_by. rewrite count_of_nil. lia.
Qed.

Lemma releaseAll_spec held a s : in_use s (releaseAll held a) = in_use s a - held_by s held.
Proof.
  unfold held_by. induction held as [|x held IH]; simpl; [rewrite count_of_nil; lia|].
  unfold releaseOne. rewrite in_use_set.
  change (x :: held) with ([x] ++ held). rewrite count_of_app, count_of_single.
  destruct (decide (x = s)) as [->|]; rewrite IH; lia.
Qed.

Lemma acquire_spec r p a held a' :
  acquire sha64 r p a = Some (held, a') ->
  held = holding_of r p /\ (forall s, in_use s a' = in_use s a + held_by s held) /\
  ((forall s cap, capacity s = Some cap -> in_use s a <= cap) -> forall s cap, capacity s = Some cap -> in_use s a' <= cap).
Proof.
  unfold acquire, holding_of.
  assert (Hlane : forall h1 a1, (if wantsLane r p then acquireOne (laneOf sha64 r) a else Some ([], a)) = Some (h1, a1) ->
    h1 = (if wantsLane r p then [laneOf sha64 r] else []) /\ (forall s, in_use s a1 = in_use s a + held_by s h1) /\
    ((forall s cap, capacity s = Some cap -> in_use s a <= cap) -> forall s cap, capacity s = Some cap -> in_use s a1 <= cap)).
  { intros h1 a1. destruct (wantsLane r p).
    - intros (Hh & Hu & Hb)%acquireOne_spec. split_and!; [done|done|]. intros Hold s cap Hc.
      destruct (decide (s = laneOf sha64 r)) as [->|Hne]; [auto|]. change (h1 = [laneOf sha64 r]) in Hh.
      rewrite Hu, Hh. unfold held_by. rewrite count_of_single, decide_False by congruence. specialize (Hold s cap Hc). lia.
    - intros [= <- <-]. split_and!; [done| |done]. intros s. unfold held_by. rewrite count_of_nil. lia. }
  destruct (if wantsLane r p then _ else _) as [[h1 a1]|]; [|done].
  destruct (Hlane h1 a1 eq_refl) as (-> & Hu1 & Hb1). destruct (wantsGlobal p).
  - destruct (acquireOne (Global (pConcurrencyClass p)) a1) as [[h2 a2]|] eqn:E2; [|done]. intros [= <- <-].
    apply acquireOne_spec in E2 as (-> & Hu2 & Hb2). split_and!.
    + f_equal. simpl. by destruct (capacity_of (pConcurrencyClass p)).
    + intros s. rewrite Hu2, Hu1. unfold held_by. rewrite count_of_app. lia.
    + intros Hold s cap Hc. destruct (decide (s = Global (pConcurrencyClass p))) as [->|Hne]; [auto|].
      rewrite Hu2. specialize (Hb1 Hold s cap Hc). unfold held_by. destruct (capacity _).
      * rewrite count_of_single, decide_False by congruence. lia.
      * rewrite count_of_nil. lia.
  - intros [= <- <-]. split_and!; [by rewrite app_nil_r|done|done].
Qed.

(** A refused request leaves the counters as they were. *)
Lemma acquire_refused r p a s : acquire sha64 r p a = None -> in_use s (acquireState sha64 r p a) = in_use s a.
Proof.
  intros H. unfold acquireState. rewrite H. destruct (wantsLane r p).
  - destruct (acquireOne (laneOf sha64 r) a) as [[h1 a1]|] eqn:E; [|done].
    apply acquireOne_spec in E as (_ & Hu & _). rewrite releaseAll_spec, Hu. lia.
  - rewrite releaseAll_spec. unfold held_by. rewrite count_of_nil. lia.
Qed.

Lemma balanced_arrival t t' : balanced t -> arrival t t' -> balanced t'.
Proof.
  intros [Hc Hb Hh] Hs. destruct Hs as [a a' fs r p held Ha|a fs r p Ha|a l1 f l2]; simpl in *.
  - destruct (acquire_spec _ _ _ _ _ Ha) as (Hheld & Hu & Hbound). constructor; simpl.
    + intros s. rewrite Hu, Hc. lia.
    + by apply Hbound.
    + intros f [->|Hf]%elem_of_cons; [done|auto].
  - constructor; simpl.
    + intros s. by rewrite acquire_refused.
    + intros s cap Hcap. rewrite acquire_refused by done. eauto.
    + done.
  - constructor; simpl.
    + intros s. rewrite releaseAll_spec, Hc, !holders_app. simpl. lia.
    + intros s cap Hcap. rewrite releaseAll_spec. specialize (Hb s cap Hcap). pose proof (held_by_nonneg s (fHeld f)). lia.
    + intros x Hx. apply Hh. rewrite elem_of_app, elem_of_cons. rewrite elem_of_app in Hx. tauto.
Qed.

Definition quiet_panel : traffic := mkTraffic newAdmission [].

Lemma balanced_reachable t : rtc arrival quiet_panel t -> balanced t.
Proof.
  assert (Hg : forall x y, rtc arrival x y -> balanced x -> balanced y) by (induction 1; eauto using balanced_arrival).
  intros H. apply (Hg _ _ H). constructor; simpl.
  - intros [c|i]; simpl; by rewrite lookup_empty.
  - intros [c|i] cap; simpl; rewrite lookup_empty; simpl.
    + unfold capacity_of. destruct (List.find _ _) as [[k n]|] eqn:E; [|done]. intros [= <-].
      apply find_some in E as [Hin _]. simpl in *. repeat (destruct Hin as [Hin|Hin]; [injection Hin as <- <-; lia|]). done.
    + intros [= <-]. lia.
  - intros f Hf. by apply elem_of_nil in Hf.
Qed.

Lemma holders_two s l1 f l2 g l3 :
  s ∈ fHeld f -> s ∈ fHeld g -> 2 <= holders s (l1 ++ f :: l2 ++ g :: l3).
Proof.
  intros Hf Hg. assert (Hone : forall h, s ∈ h -> 1 <= held_by s h).
  { intros h Hh. unfold held_by. apply list_elem_of_split in Hh as (h1 & h2 & ->).
    change (s :: h2) with ([s] ++ h2). rewrite !count_of_app, count_of_single, decide_True by done.
    pose proof (count_of_nonneg (fun x => x = s) h1). pose proof (count_of_nonneg (fun x => x = s) h2). lia. }
  rewrite holders_app. simpl. rewrite holders_app. simpl.
  pose proof (Hone _ Hf). pose proof (Hone _ Hg). pose proof (holders_nonneg s l1). pose proof (holders_nonneg s l2).
  pose proof (holders_nonneg s l3). lia.
Qed.

(** C8: however requests arrive and finish, admitted or refused, the number of requests in flight in an expensive
    class never exceeds the capacity of the class, two mutations of the same session (or token, or peer) are never in
    flight together, and when no request is in flight every semaphore is free, so refusals leak nothing. *)
Theorem admission_is_exclusive t :
  rtc arrival quiet_panel t ->
  (forall class cap, capacity_of class = Some cap -> holders (Global class) (tInFlight t) <= cap) /\
  (forall l1 f l2 g l3, tInFlight t = l1 ++ f :: l2 ++ g :: l3 ->
     wantsLane (fRequest f) (fPolicy f) = true -> wantsLane (fRequest g) (fPolicy g) = true ->
     laneKey (fRequest f) <> laneKey (fRequest g)) /\
  (tInFlight t = [] -> forall s, in_use s (tAdmission t) = 0).
Proof.
  intros [Hc Hb Hh]%balanced_reachable. split_and!.
  - intros class cap Hcap. rewrite <- Hc. by apply Hb.
  - intros l1 f l2 g l3 Hfl Hf Hg Hk.
    assert (Hlane : forall x, x ∈ tInFlight t -> wantsLane (fRequest x) (fPolicy x) = true -> laneOf sha64 (fRequest x) ∈ fHeld x).
    { intros x Hx Hw. rewrite (Hh x Hx). unfold holding_of. rewrite Hw. apply list_elem_of_here. }
    assert (Hf' := Hlane f ltac:(rewrite Hfl; set_solver) Hf). assert (Hg' := Hlane g ltac:(rewrite Hfl; set_solver) Hg).
    assert (He : laneOf sha64 (fRequest f) = laneOf sha64 (fRequest g)) by (unfold laneOf; by rewrite Hk).
    rewrite <- He in Hg'. pose proof (holders_two _ l1 f l2 g l3 Hf' Hg') as H2. rewrite <- Hfl, <- Hc in H2.
    specialize (Hb (laneOf sha64 (fRequest f)) 1 eq_refl). lia.
  - intros Hn s. by rewrite Hc, Hn.
Qed.
End Traffic.

(** ** Examples *)
Module BudgetExample.

Definition routes : list (string * string) :=
  [("POST", "/panel/api/save"); ("GET", "/panel/api/clients"); ("GET", "/panel/assets")].
Definition gate (_ : Policy) : PressureDecision := mkPressure true "" 0.
Definition registry : Registry := SetPressureGate gate (DeclareGinRoutes routes (NewRegistry "/panel/")).
Definition query (key : string) : string := if String.eqb key "limit" then " 50 " else "".
Definition save (session : string) : request :=
  mkRequest "POST" "/panel/api/save" 2 [] query "application/json" (Some ("{}", false)) (Some session) "" "192.0.2.1:1".
Definition media (_ : string) : option string := Some "application/json".
Definition tokens (data : string) : list jsonToken := if String.eqb data "{}" then [OpenDelim; CloseDelim] else [].
Definition policy : Policy := classifyRoute "POST" "/panel/api/save".

Lemma admitted_within_budget_witness :
  exists held a', Middleware media tokens slen registry (save "alice") newAdmission = (Accepted policy (Some ConfigBytes) held, a') /\
  slen "{}" <= ConfigBytes /\ pdAllowed (gate policy) = true.
Proof.
  destruct (Middleware media tokens slen registry (save "alice") newAdmission) as [v a'] eqn:H.
  assert (Hv : v = Accepted policy (Some ConfigBytes) [Lane 13; Global "config"]).
  { change v with (v, a').1. rewrite <- H. vm_compute. reflexivity. }
  exists [Lane 13; Global "config"], a'. rewrite Hv in H. rewrite Hv. split; [reflexivity|].
  destruct (admitted_within_budget media tokens slen "/panel/" routes gate (save "alice") newAdmission policy
              (Some ConfigBytes) [Lane 13; Global "config"] a' H) as (_ & Hg & _ & Hj & _).
  split; [|exact Hg].
  destruct (Hj "{}" false eq_refl) as (Hlen & _).
  - exists "application/json". split; [reflexivity|by left].
  - apply Hlen. reflexivity.
Defined.

Definition busy : admission :=
  match acquire slen (save "alice") policy newAdmission with Some (_, a) => a | None => newAdmission end.

Lemma admission_is_exclusive_witness :
  exists t, rtc (arrival slen) quiet_panel t /\ length (tInFlight t) = 1%nat /\
  acquire slen (save "alice") policy (tAdmission t) = None /\ holders (Global "config") (tInFlight t) <= 1.
Proof.
  set (t := mkTraffic busy [mkFlight (save "alice") policy [Lane 13; Global "config"]]).
  assert (Hr : rtc (arrival slen) quiet_panel t).
  { apply rtc_once. apply arrive_admitted. vm_compute. reflexivity. }
  exists t. split; [exact Hr|]. split; [reflexivity|]. split; [vm_compute; reflexivity|].
  destruct (admission_is_exclusive slen t Hr) as (Hc & _). apply Hc. reflexivity.
Defined.

End BudgetExample.
