(* ===== verification/Totp.v ===== *)
(** * Time-based one-time passwords ([util/totp])

    [Verify] of the RFC 6238 profile: six digits, a period of thirty seconds, one period
    of tolerance on both sides, and a monotonic counter against replays.

    The code is computed as in [Code], from the bytes of an HMAC-SHA-1 sum; the
    sum itself and the base-32 decoder of the standard library are parameters.
    Bytes are integers, counters 64-bit integers. *)

From S2P Require Import Prelude GoStrings VersionPolicy.

Open Scope string_scope.
Open Scope list_scope.
Open Scope Z_scope.

Definition Digits : Z := 6.
Definition Period : Z := 30.
Definition Window : Z := 1.

Inductive totpError := ErrInvalidSecret | ErrInvalidCode | ErrReplay.

(** [binary.BigEndian.PutUint64]. *)
Definition PutUint64 (n : Z) : list Z :=
  (fun i => Z.land (Z.shiftr n (8 * i)) 255) <$> [7; 6; 5; 4; 3; 2; 1; 0].

(** [fmt.Sprintf] with the verb for a zero-padded decimal. *)
Fixpoint zeros (n : nat) : string :=
  match n with O => "" | S n' => String zero (zeros n') end.

Definition pad_zero (digits n : Z) : string :=
  let s := Itoa n in zeros (Z.to_nat (digits - slen s)) +:+ s.

(** Branch-free choice: [choice] is 0 or 1. *)
Definition selectInt64 (choice whenTrue whenFalse : Z) : Z :=
  let mask := - choice in
  Z.lor (Z.land whenTrue mask) (Z.land whenFalse (Z.lnot mask)).

Definition ConstantTimeCompare (x y : string) : Z := if String.eqb x y then 1 else 0.

Section Totp.
(** [hmac.New(sha1.New, secret)] on a message, and [base32NoPadding.DecodeString]. *)
Context (hmac_sha1 : list Z -> list Z -> list Z) (base32 : string -> option (list Z)).

Definition truncated (sum : list Z) : Z :=
  let offset := Z.land (List.last sum 0) 15 in
  let byte i := List.nth (Z.to_nat (offset + i)) sum 0 in
  Z.lor (Z.lor (Z.lor (Z.shiftl (Z.land (byte 0) 127) 24) (Z.shiftl (Z.land (byte 1) 255) 16))
    (Z.shiftl (Z.land (byte 2) 255) 8)) (Z.land (byte 3) 255).

Definition Code (secret : list Z) (counter digits : Z) : string :=
  let sum := hmac_sha1 secret (PutUint64 counter) in
  let modulus := 10 ^ digits mod 2 ^ 32 in
  pad_zero digits (truncated sum mod modulus).

Definition DecodeSecret (secret : string) : result totpError (list Z) :=
  let secret := ToUpper (TrimSpace secret) in
  if String.eqb secret "" || (256 <? slen secret) then Err ErrInvalidSecret
  else
    match base32 secret with
    | None => Err ErrInvalidSecret
    | Some raw =>
        let n := Z.of_nat (length raw) in
        if (n <? 16) || (64 <? n) then Err ErrInvalidSecret else Ok raw
    end.

(** The loop over the window, which keeps the last counter that matches. *)
Definition matchCounter (raw : list Z) (code : string) (current : Z) : Z :=
  foldl (fun matched offset =>
    let counter := current + offset in
    if counter <? 0 then matched
    else selectInt64 (ConstantTimeCompare (Code raw counter Digits) code) counter matched)
    (-1) [- Window; 0; Window].

(** [now] in seconds since the epoch; the division of Go truncates. *)
Definition Verify (secret code : string) (now lastAcceptedCounter : Z) : result totpError Z :=
  if negb (slen code =? Digits) then Err ErrInvalidCode
  else if negb (all_chars is_digit code) then Err ErrInvalidCode
  else
    let? raw := DecodeSecret secret in
    let current := Z.quot now Period in
    let matched := matchCounter raw code current in
    if matched <? 0 then Err ErrInvalidCode
    else if matched <=? lastAcceptedCounter then Err ErrReplay
    else Ok matched.

(** ** Correctness *)
Lemma selectInt64_one a b : selectInt64 1 a b = a.
Proof.
  unfold selectInt64. change (- (1)) with (-1). change (Z.lnot (-1)) with 0. by rewrite Z.land_m1_r, Z.land_0_r, Z.lor_0_r.
Qed.

Lemma selectInt64_zero a b : selectInt64 0 a b = b.
Proof. unfold selectInt64. change (- 0) with 0. change (Z.lnot 0) with (-1). by rewrite Z.land_0_r, Z.land_m1_r. Qed.

Lemma select_compare x y a b : selectInt64 (ConstantTimeCompare x y) a b = if String.eqb x y then a else b.
Proof. unfold ConstantTimeCompare. destruct (String.eqb x y); [apply selectInt64_one|apply selectInt64_zero]. Qed.

(** The counters that the window admits at a time. *)
Definition in_window (current counter : Z) : Prop := 0 <= counter /\ current - Window <= counter <= current + Window.

Lemma window_search (f : Z -> string) code current :
  let m := foldl (fun matched offset =>
    let counter := current + offset in
    if counter <? 0 then matched else selectInt64 (ConstantTimeCompare (f counter) code) counter matched)
    (-1) [- Window; 0; Window] in
  (m = -1 /\ forall n, in_window current n -> f n <> code) \/
  (in_window current m /\ f m = code /\ forall n, in_window current n -> f n = code -> n <= m).
Proof.
  cbv zeta. unfold in_window, Window. cbn [foldl]. change (- (1)) with (-1). rewrite !select_compare.
  assert (Hwin : forall n, 0 <= n /\ current - 1 <= n <= current + 1 -> n = current + - 1 \/ n = current + 0 \/ n = current + 1) by lia.
  destruct (Z.ltb_spec (current + - 1) 0), (Z.ltb_spec (current + 0) 0), (Z.ltb_spec (current + 1) 0); try lia;
    repeat match goal with |- context [String.eqb ?x ?y] => destruct (String.eqb_spec x y) end;
    first [right; split_and!; [lia|lia|lia|assumption|intros k Hk Hc; destruct (Hwin k Hk) as [->|[->| ->]]; first [contradiction|lia|exfalso; lia]]
          |left; split; [lia|intros k Hk; destruct (Hwin k Hk) as [->|[->| ->]]; first [assumption|exfalso; lia]]].
Qed.

Lemma matchCounter_spec raw code current :
  let m := matchCounter raw code current in
  (m = -1 /\ forall n, in_window current n -> Code raw n Digits <> code) \/
  (in_window current m /\ Code raw m Digits = code /\ forall n, in_window current n -> Code raw n Digits = code -> n <= m).
Proof. exact (window_search (fun n => Code raw n Digits) code current). Qed.

Lemma zeros_spec n : slen (zeros n) = Z.of_nat n /\ all_chars is_digit (zeros n) = true.
Proof.
  induction n as [|n [IH1 IH2]]; [done|]. split; [|exact IH2].
  unfold slen in *. cbn [zeros String.length]. lia.
Qed.

Lemma truncated_nonneg sum : 0 <= truncated sum.
Proof.
  unfold truncated. cbv zeta. rewrite !Z.lor_nonneg, !Z.shiftl_nonneg. split_and!; apply Z.land_nonneg; right; lia.
Qed.

Lemma Code_shape secret counter : slen (Code secret counter Digits) = Digits /\ all_chars is_digit (Code secret counter Digits) = true.
Proof.
  unfold Code, pad_zero. cbv zeta. change (10 ^ Digits mod 2 ^ 32) with 1000000.
  set (n := truncated _ mod 1000000). assert (Hn : 0 <= n < 1000000) by (apply Z.mod_pos_bound; lia). clearbody n.
  destruct (zeros_spec (Z.to_nat (Digits - slen (Itoa n)))) as [Hl Hd].
  pose proof (decimal_digits_length 5 20 n "" ltac:(lia)) as Hlen. change (slen "") with 0 in Hlen.
  fold (Itoa n) in Hlen. split.
  - rewrite slen_app, Hl. unfold Digits in *. lia.
  - rewrite all_chars_app, Hd, Itoa_digits by lia. done.
Qed.

(** An accepted code is the code of the accepted counter, within the window, and newer than the last one. *)
Lemma Verify_sound secret code now last counter :
  Verify secret code now last = Ok counter ->
  exists raw, DecodeSecret secret = Ok raw /\ Code raw counter Digits = code /\
    in_window (Z.quot now Period) counter /\ last < counter.
Proof.
  unfold Verify. destruct (negb (slen code =? Digits)); [done|]. destruct (negb (all_chars is_digit code)); [done|].
  destruct (DecodeSecret secret) as [raw|] eqn:Hr; simpl; [|done].
  pose proof (matchCounter_spec raw code (Z.quot now Period)) as Hm. cbv zeta in Hm.
  destruct (Z.ltb_spec (matchCounter raw code (Z.quot now Period)) 0); [done|].
  destruct (Z.leb_spec (matchCounter raw code (Z.quot now Period)) last); [done|]. intros [= <-].
  exists raw. destruct Hm as [[Hm _]|(Hw & Hc & _)]; [lia|]. split_and!; done || lia.
Qed.

(** The code of any counter in the window is accepted unless a counter at least as new was accepted before. *)
Lemma Verify_accepts secret raw now last counter :
  DecodeSecret secret = Ok raw -> in_window (Z.quot now Period) counter -> last < counter ->
  exists accepted, Verify secret (Code raw counter Digits) now last = Ok accepted /\ counter <= accepted.
Proof.
  intros Hr Hw Hl. unfold Verify. destruct (Code_shape raw counter) as [Hlen Hdig]. rewrite Hlen, Hdig, Hr. cbn [Z.eqb negb rbind].
  rewrite Z.eqb_refl. cbn [negb].
  pose proof (matchCounter_spec raw (Code raw counter Digits) (Z.quot now Period)) as Hm. cbv zeta in Hm.
  destruct Hm as [[_ Hno]|(Hin & _ & Hmax)]; [by destruct (Hno counter Hw)|]. specialize (Hmax counter Hw eq_refl).
  destruct Hin as [Hpos _].
  set (m := matchCounter _ _ _) in *. clearbody m.
  destruct (Z.ltb_spec m 0); [lia|]. destruct (Z.leb_spec m last); [lia|]. by exists m.
Qed.

End Totp.
