(* ===== verification/Mfa.v ===== *)
(** * Multi-factor authentication ([service/mfa.go])

    The TOTP factor and the recovery codes of one administrator: every query of the
    service selects rows by [user_id], so the model is the part of the tables that
    belongs to one user.  Calls that read the factor outside of a transaction and
    write it later are split at that point ([...Check], then [...Commit]); the whole call is their composition, and concurrent calls are
    interleavings of the halves.

    A transaction of SQLite is one step.  Times are Unix seconds.  HMAC, base 32,
    the secret box and the verifier of a recovery code are parameters; the outcomes
    of the random generator are arguments. *)

From S2P Require Import Prelude GoStrings VersionPolicy Totp.

Open Scope string_scope.
Open Scope list_scope.
Open Scope Z_scope.

(** ** The tables *)
Inductive MFAState :=
| MFAStatePending
| MFAStatePendingAcknowledgment
| MFAStateActive
| MFAStateActivePendingRotation
| MFAStateActiveRotationAck
| MFAStateActiveRecoveryAck.

#[export] Instance MFAState_eq_dec : EqDecision MFAState.
Proof. solve_decision. Defined.

Definition MFAPendingTTL : Z := 600.
Definition RecoveryCodeCount : nat := 10.
Definition RecoveryCodeBytes : Z := 16.

Record AdminMFAFactor := mkFactor {
  mState : MFAState;
  mPendingSecret : string;
  mPendingExpiresAt : Z;
  mPendingAcceptedCounter : Z;
  mPendingRecoveryGeneration : Z;
  mActiveSecret : string;
  mLastAcceptedCounter : Z;
  mRecoveryGeneration : Z;
  mRecoveryAcknowledged : bool;
  mUpdatedAt : Z
}.

Record AdminRecoveryCode := mkRecoveryCode {
  cGeneration : Z;
  cVerifier : string;
  cCreatedAt : Z;
  cUsedAt : Z
}.

(** The factor and codes of the administrator, and [mfa_generation] of the user row. *)
Record mfaStore := mkMfaStore {
  sFactor : option AdminMFAFactor;
  sCodes : list AdminRecoveryCode;
  sMfaGeneration : Z
}.

Definition activeMFAStates : list MFAState :=
  [MFAStateActive; MFAStateActivePendingRotation; MFAStateActiveRotationAck; MFAStateActiveRecoveryAck].

Definition isActiveMFAState (s : MFAState) : bool := bool_decide (s ∈ activeMFAStates).

Definition isMFAAcknowledgmentState (s : MFAState) : bool :=
  bool_decide (s ∈ [MFAStatePendingAcknowledgment; MFAStateActiveRotationAck; MFAStateActiveRecoveryAck]).

Definition deleteGeneration (g : Z) (codes : list AdminRecoveryCode) : list AdminRecoveryCode :=
  List.filter (fun c => negb (cGeneration c =? g)) codes.

Definition keepGeneration (g : Z) (codes : list AdminRecoveryCode) : list AdminRecoveryCode :=
  List.filter (fun c => cGeneration c =? g) codes.

(** [tx.Create] under the unique index of generation and verifier. *)
Definition createCodes (rows codes : list AdminRecoveryCode) : result string (list AdminRecoveryCode) :=
  let all := codes ++ rows in
  if bool_decide (NoDup ((fun c => (cGeneration c, cVerifier c)) <$> all)) then Ok all else Err "constraint failed".

(** ** Recovery codes *)
Fixpoint ReplaceAll (s : string) (old : Ascii.ascii) : string :=
  match s with
  | "" => ""
  | String c rest => if Ascii.eqb c old then ReplaceAll rest old else String c (ReplaceAll rest old)
  end.

Definition space : Ascii.ascii := Ascii.ascii_of_nat 32.

Definition normalizeRecoveryCode (code : string) : string :=
  ReplaceAll (ReplaceAll (ToUpper (TrimSpace code)) hyphen) space.

(** The groups of four of [formatRecoveryCode]; the code shrinks at every turn. *)
Fixpoint recoveryGroups (fuel : nat) (code : string) : list string :=
  match fuel with
  | O => []
  | S fuel' =>
      if 4 <? slen code then String.substring 0 4 code :: recoveryGroups fuel' (drop_chars 4 code)
      else if String.eqb code "" then [] else [code]
  end.

Definition formatRecoveryCode (code : string) : string := Join (recoveryGroups (S (String.length code)) code) "-".

(** ** Status *)
Record MFAStatus := mkMFAStatus {
  stEnabled : bool;
  stPending : bool;
  stPendingExpiresAt : Z;
  stRecoveryAcknowledged : bool;
  stRecoveryRemaining : Z;
  stAwaitingAcknowledgment : bool
}.

Definition Status (now : Z) (st : mfaStore) : MFAStatus :=
  match sFactor st with
  | None => mkMFAStatus false false 0 false 0 false
  | Some f =>
      let remaining :=
        if 0 <? mRecoveryGeneration f
        then Z.of_nat (length (List.filter (fun c => (cGeneration c =? mRecoveryGeneration f) && (cUsedAt c =? 0)) (sCodes st)))
        else 0 in
      mkMFAStatus (isActiveMFAState (mState f))
        (negb (String.eqb (mPendingSecret f) "") && (now <? mPendingExpiresAt f))
        (mPendingExpiresAt f) (mRecoveryAcknowledged f) remaining
        (isMFAAcknowledgmentState (mState f) && (now <? mPendingExpiresAt f))
  end.

Section Service.
(** HMAC-SHA-1, base 32 without padding, opening a sealed setting, and the verifier of a normalized recovery code:
    an HMAC under a key derived from the settings secret, when the settings can be read. *)
Context (hmac_sha1 : list Z -> list Z -> list Z) (base32 : string -> option (list Z)).
Context (openBox : string -> option string) (recoveryMac : string -> option string).

Definition boxPrefix : string := "sbox:v1:".

(** [Codec.DecryptString]: plain values pass through. *)
Definition decryptSettingValue (value : string) : option string :=
  if String.eqb value "" || negb (HasPrefix value boxPrefix) then Some value else openBox value.

Definition recoveryVerifier (code : string) : option string :=
  let normalized := normalizeRecoveryCode code in
  match base32 normalized with
  | None => None
  | Some raw => if negb (Z.of_nat (length raw) =? RecoveryCodeBytes) then None else recoveryMac normalized
  end.

(** [random] are the base-32 texts of the bytes that the random generator returned. *)
Definition generateRecoveryRows (generation now : Z) (random : list string)
  : result string (list string * list AdminRecoveryCode * Z) :=
  let generation := if generation =? 0 then 1 else generation in
  let drawn := take RecoveryCodeCount random in
  if negb (bool_decide (length drawn = RecoveryCodeCount)) then Err "random generator failed"
  else
    match mapM recoveryVerifier drawn with
    | None => Err "invalid recovery code"
    | Some verifiers =>
        Ok (formatRecoveryCode <$> drawn, (fun v => mkRecoveryCode generation v now 0) <$> verifiers, generation)
    end.

(** ** Enrollment *)
Definition validAdministrator (userID : Z) (username : string) : bool :=
  negb ((userID =? 0) || String.eqb (TrimSpace username) "").

(** The state that [BeginEnrollment] chooses from the factor it read. *)
Definition beginState (current : option AdminMFAFactor) : MFAState :=
  match current with
  | Some f => if negb (String.eqb (mActiveSecret f) "") then MFAStateActivePendingRotation else MFAStatePending
  | None => MFAStatePending
  end.

(** The upsert: on a conflict only the pending columns are assigned; an insert takes the column defaults. *)
Definition upsertPending (state : MFAState) (encrypted : string) (now : Z) (f : option AdminMFAFactor) : AdminMFAFactor :=
  match f with
  | None => mkFactor state encrypted (now + MFAPendingTTL) (-1) 0 "" (-1) 0 false now
  | Some f => mkFactor state encrypted (now + MFAPendingTTL) (-1) 0 (mActiveSecret f) (mLastAcceptedCounter f)
                (mRecoveryGeneration f) (mRecoveryAcknowledged f) now
  end.

(** The transaction of [BeginEnrollment]; [current] is the factor read before it. *)
Definition beginCommit (encrypted : string) (now : Z) (current : option AdminMFAFactor) (st : mfaStore) : mfaStore :=
  let codes :=
    match current with
    | Some f =>
        if 0 <? mPendingRecoveryGeneration f then deleteGeneration (mPendingRecoveryGeneration f) (sCodes st) else sCodes st
    | None => sCodes st
    end in
  mkMfaStore (Some (upsertPending (beginState current) encrypted now (sFactor st))) codes (sMfaGeneration st).

Definition BeginEnrollment (userID : Z) (username encrypted : string) (now : Z) (st : mfaStore) : result string Z * mfaStore :=
  if negb (validAdministrator userID username) then (Err "invalid administrator", st)
  else (Ok (now + MFAPendingTTL), beginCommit encrypted now (sFactor st) st).

(** What a confirmation has decided before its transaction. *)
Record confirmation := mkConfirmation {
  fnFactor : AdminMFAFactor;
  fnNow : Z;
  fnCode : string;
  fnCounter : Z;
  fnCodes : list string;
  fnRows : list AdminRecoveryCode;
  fnGeneration : Z
}.

Definition nextGeneration (f : AdminMFAFactor) : Z :=
  let next := wrapu64 (mRecoveryGeneration f + 1) in
  if next <=? mPendingRecoveryGeneration f then wrapu64 (mPendingRecoveryGeneration f + 1) else next.

Definition confirmCheck (code : string) (now : Z) (random : list string) (st : mfaStore) : result string confirmation :=
  match sFactor st with
  | None => Err "record not found"
  | Some f =>
      if String.eqb (mPendingSecret f) "" || (mPendingExpiresAt f <=? now) then Err "MFA enrollment expired"
      else if negb (bool_decide (mState f = MFAStatePending)) && negb (bool_decide (mState f = MFAStateActivePendingRotation))
      then Err "MFA enrollment is not awaiting confirmation"
      else
        match decryptSettingValue (mPendingSecret f) with
        | None => Err "secret setting decrypt failed"
        | Some secret =>
            match Verify hmac_sha1 base32 secret code now (-1) with
            | Err _ => Err "invalid MFA code"
            | Ok counter =>
                let? drawn := generateRecoveryRows (nextGeneration f) now random in
                let '(codes, rows, generation) := drawn in Ok (mkConfirmation f now code counter codes rows generation)
            end
        end
  end.

(** The condition of the update, on the row as it is now. *)
Definition confirmMatches (n : confirmation) (f : AdminMFAFactor) : bool :=
  bool_decide (mState f = mState (fnFactor n)) && String.eqb (mPendingSecret f) (mPendingSecret (fnFactor n)) &&
  (fnNow n <? mPendingExpiresAt f).

Definition confirmState (snapshot : AdminMFAFactor) : MFAState :=
  if negb (String.eqb (mActiveSecret snapshot) "") then MFAStateActiveRotationAck else MFAStatePendingAcknowledgment.

Definition confirmCommit (n : confirmation) (st : mfaStore) : result string mfaStore :=
  match sFactor st with
  | Some f =>
      if negb (confirmMatches n f) then Err "MFA enrollment changed"
      else
        let f' := mkFactor (confirmState (fnFactor n)) (mPendingSecret f) (mPendingExpiresAt f) (fnCounter n) (fnGeneration n)
                    (mActiveSecret f) (mLastAcceptedCounter f) (mRecoveryGeneration f) false (fnNow n) in
        let? codes := createCodes (fnRows n) (deleteGeneration (fnGeneration n) (sCodes st)) in
        Ok (mkMfaStore (Some f') codes (sMfaGeneration st))
  | None => Err "MFA enrollment changed"
  end.

Definition ConfirmEnrollment (code : string) (now : Z) (random : list string) (st : mfaStore)
  : result string (list string) * mfaStore :=
  match confirmCheck code now random st with
  | Err e => (Err e, st)
  | Ok n => match confirmCommit n st with Err e => (Err e, st) | Ok st' => (Ok (fnCodes n), st') end
  end.

(** ** Acknowledgment *)
Definition acknowledgedFactor (now : Z) (f : AdminMFAFactor) : AdminMFAFactor :=
  if negb (bool_decide (mState f = MFAStateActiveRecoveryAck)) then
    mkFactor MFAStateActive "" 0 (-1) 0 (mPendingSecret f) (mPendingAcceptedCounter f) (mPendingRecoveryGeneration f) true now
  else
    mkFactor MFAStateActive (mPendingSecret f) 0 (mPendingAcceptedCounter f) 0 (mActiveSecret f) (mLastAcceptedCounter f)
      (mPendingRecoveryGeneration f) true now.

Definition AcknowledgeRecoveryCodes (now : Z) (st : mfaStore) : result string mfaStore :=
  match sFactor st with
  | Some f =>
      if isMFAAcknowledgmentState (mState f) && (0 <? mPendingRecoveryGeneration f) && (now <? mPendingExpiresAt f)
      then Ok (mkMfaStore (Some (acknowledgedFactor now f)) (keepGeneration (mPendingRecoveryGeneration f) (sCodes st))
                 (sMfaGeneration st + 1))
      else Err "recovery acknowledgement is not pending"
  | None => Err "recovery acknowledgement is not pending"
  end.

(** ** Verification *)
Record verification := mkVerification { vfSecret : string; vfCode : string; vfCounter : Z; vfNow : Z }.

Definition verifyCheck (code : string) (now : Z) (st : mfaStore) : result string verification :=
  match sFactor st with
  | Some f =>
      if negb (isActiveMFAState (mState f)) then Err "MFA is not enabled"
      else
        match decryptSettingValue (mActiveSecret f) with
        | None => Err "secret setting decrypt failed"
        | Some secret =>
            match Verify hmac_sha1 base32 secret code now (mLastAcceptedCounter f) with
            | Err _ => Err "invalid MFA code"
            | Ok counter => Ok (mkVerification (mActiveSecret f) code counter now)
            end
        end
  | None => Err "MFA is not enabled"
  end.

Definition with_last (counter now : Z) (f : AdminMFAFactor) : AdminMFAFactor :=
  mkFactor (mState f) (mPendingSecret f) (mPendingExpiresAt f) (mPendingAcceptedCounter f) (mPendingRecoveryGeneration f)
    (mActiveSecret f) counter (mRecoveryGeneration f) (mRecoveryAcknowledged f) now.

Definition verifyCommit (v : verification) (st : mfaStore) : result string mfaStore :=
  match sFactor st with
  | Some f =>
      if String.eqb (mActiveSecret f) (vfSecret v) && isActiveMFAState (mState f) && (mLastAcceptedCounter f <? vfCounter v)
      then Ok (mkMfaStore (Some (with_last (vfCounter v) (vfNow v) f)) (sCodes st) (sMfaGeneration st))
      else Err "MFA code already used"
  | None => Err "MFA code already used"
  end.

Definition VerifyTOTP (code : string) (now : Z) (st : mfaStore) : result string unit * mfaStore :=
  match verifyCheck code now st with
  | Err e => (Err e, st)
  | Ok v => match verifyCommit v st with Err e => (Err e, st) | Ok st' => (Ok tt, st') end
  end.

(** ** Recovery *)
Definition unused_code (generation : Z) (verifier : string) (c : AdminRecoveryCode) : bool :=
  (cGeneration c =? generation) && String.eqb (cVerifier c) verifier && (cUsedAt c =? 0).

Definition ConsumeRecoveryCode (code : string) (now : Z) (st : mfaStore) : result string mfaStore :=
  match recoveryVerifier code with
  | None => Err "invalid recovery code"
  | Some verifier =>
      match sFactor st with
      | Some f =>
          if negb (isActiveMFAState (mState f)) then Err "MFA is not enabled"
          else
            let hit := unused_code (mRecoveryGeneration f) verifier in
            if negb (bool_decide (length (List.filter hit (sCodes st)) = 1%nat)) then Err "invalid recovery code"
            else
              let mark c := if hit c then mkRecoveryCode (cGeneration c) (cVerifier c) (cCreatedAt c) now else c in
              Ok (mkMfaStore (Some f) (mark <$> sCodes st) (sMfaGeneration st))
      | None => Err "MFA is not enabled"
      end
  end.

Record rotation := mkRotation {
  rtGeneration : Z;
  rtNow : Z;
  rtCodes : list string;
  rtRows : list AdminRecoveryCode;
  rtNext : Z
}.

Definition rotateCheck (now : Z) (random : list string) (st : mfaStore) : result string rotation :=
  match sFactor st with
  | Some f =>
      if negb (bool_decide (mState f = MFAStateActive)) then Err "MFA is not enabled"
      else
        let? drawn := generateRecoveryRows (wrapu64 (mRecoveryGeneration f + 1)) now random in
        let '(codes, rows, generation) := drawn in Ok (mkRotation (mRecoveryGeneration f) now codes rows generation)
  | None => Err "MFA is not enabled"
  end.

Definition rotateCommit (r : rotation) (st : mfaStore) : result string mfaStore :=
  let? codes := createCodes (rtRows r) (deleteGeneration (rtNext r) (sCodes st)) in
  match sFactor st with
  | Some f =>
      if negb (mRecoveryGeneration f =? rtGeneration r) then Err "MFA factor changed"
      else Ok (mkMfaStore (Some (mkFactor MFAStateActiveRecoveryAck (mPendingSecret f) (rtNow r + MFAPendingTTL)
                (mPendingAcceptedCounter f) (rtNext r) (mActiveSecret f) (mLastAcceptedCounter f) (mRecoveryGeneration f)
                false (rtNow r))) codes (sMfaGeneration st))
  | None => Err "MFA factor changed"
  end.

Definition RotateRecoveryCodes (now : Z) (random : list string) (st : mfaStore) : result string (list string) * mfaStore :=
  match rotateCheck now random st with
  | Err e => (Err e, st)
  | Ok r => match rotateCommit r st with Err e => (Err e, st) | Ok st' => (Ok (rtCodes r), st') end
  end.

Definition Disable (st : mfaStore) : mfaStore := mkMfaStore None [] (sMfaGeneration st + 1).

End Service.
