(* ===== verification/MfaProperties.v ===== *)
(** * Properties of multi-factor authentication

    Concurrent calls of the MFA service are steps of [mfaStep]: a call reads, and
    later commits against the store as it is then, or is abandoned.  The log, newest
    event first, records what was accepted, issued, acknowledged and consumed.

    Two assumptions on the random generator are premises of the steps: a sealed
    secret is new, and the verifiers of a batch of recovery codes are new. *)

From Stdlib Require Import Sorted.
From S2P Require Import Prelude GoStrings VersionPolicy Totp Mfa.

Open Scope string_scope.
Open Scope list_scope.
Open Scope Z_scope.

(** ** Worlds *)
Inductive mfaEvent :=
| Enrolled (secret : string)
| AcceptedCode (secret code : string) (counter now : Z)
| Issued (verifiers : list string)
| Acknowledged (verifiers : list string)
| Consumed (verifier : string)
| DisabledMFA.

Inductive mfaCall :=
| BeginCall (current : option AdminMFAFactor)
| ConfirmCall (n : confirmation)
| VerifyCall (v : verification)
| RotateCall (r : rotation).

Record mfaWorld := mkMfaWorld { wStore : mfaStore; wCalls : list mfaCall; wLog : list mfaEvent }.

Definition secrets (log : list mfaEvent) : list string :=
  omap (fun e => match e with Enrolled s => Some s | _ => None end) log.

Definition counters (secret : string) (log : list mfaEvent) : list Z :=
  omap (fun e => match e with AcceptedCode s _ n _ => if decide (s = secret) then Some n else None | _ => None end) log.

Definition issued (log : list mfaEvent) : list string :=
  concat ((fun e => match e with Issued vs => vs | _ => [] end) <$> log).

Definition consumed (log : list mfaEvent) : list string :=
  omap (fun e => match e with Consumed v => Some v | _ => None end) log.

#[local] Arguments secrets : simpl never.
#[local] Arguments counters : simpl never.
#[local] Arguments issued : simpl never.
#[local] Arguments consumed : simpl never.

(** The recovery codes that were acknowledged last, and not disabled since. *)
Fixpoint current_batch (log : list mfaEvent) : list string :=
  match log with
  | [] => []
  | Acknowledged vs :: _ => vs
  | DisabledMFA :: _ => []
  | _ :: rest => current_batch rest
  end.

(** Every consumed code was one of the codes acknowledged last at that time. *)
Fixpoint from_current (log : list mfaEvent) : Prop :=
  match log with
  | [] => True
  | Consumed v :: rest => v ∈ current_batch rest /\ from_current rest
  | _ :: rest => from_current rest
  end.

Definition verifiers (rows : list AdminRecoveryCode) : list string := cVerifier <$> rows.

Definition fresh_batch (rows : list AdminRecoveryCode) (log : list mfaEvent) : Prop :=
  NoDup (verifiers rows) /\ forall v, v ∈ verifiers rows -> v ∉ issued log.

Section Interleavings.
Context (hmac_sha1 : list Z -> list Z -> list Z) (base32 : string -> option (list Z)).
Context (openBox : string -> option string) (recoveryMac : string -> option string).

#[local] Abbreviation decryptSettingValue := (decryptSettingValue openBox).
#[local] Abbreviation recoveryVerifier := (recoveryVerifier base32 recoveryMac).
#[local] Abbreviation confirmCheck := (confirmCheck hmac_sha1 base32 openBox recoveryMac).
#[local] Abbreviation verifyCheck := (verifyCheck hmac_sha1 base32 openBox).
#[local] Abbreviation ConsumeRecoveryCode := (ConsumeRecoveryCode base32 recoveryMac).
#[local] Abbreviation rotateCheck := (rotateCheck base32 recoveryMac).

Inductive mfaStep : mfaWorld -> mfaWorld -> Prop :=
| step_begin_read st calls log userID username :
    validAdministrator userID username = true ->
    mfaStep (mkMfaWorld st calls log) (mkMfaWorld st (BeginCall (sFactor st) :: calls) log)
| step_begin_commit st l1 l2 log current encrypted now :
    encrypted <> "" -> encrypted ∉ secrets log ->
    mfaStep (mkMfaWorld st (l1 ++ BeginCall current :: l2) log)
            (mkMfaWorld (beginCommit encrypted now current st) (l1 ++ l2) (Enrolled encrypted :: log))
| step_confirm_read st calls log code now random n :
    confirmCheck code now random st = Ok n ->
    mfaStep (mkMfaWorld st calls log) (mkMfaWorld st (ConfirmCall n :: calls) log)
| step_confirm_commit st st' l1 l2 log n :
    confirmCommit n st = Ok st' -> fresh_batch (fnRows n) log ->
    mfaStep (mkMfaWorld st (l1 ++ ConfirmCall n :: l2) log)
            (mkMfaWorld st' (l1 ++ l2)
               (AcceptedCode (mPendingSecret (fnFactor n)) (fnCode n) (fnCounter n) (fnNow n) :: Issued (verifiers (fnRows n)) :: log))
| step_acknowledge st st' calls log now :
    AcknowledgeRecoveryCodes now st = Ok st' ->
    mfaStep (mkMfaWorld st calls log) (mkMfaWorld st' calls (Acknowledged (verifiers (sCodes st')) :: log))
| step_verify_read st calls log code now v :
    verifyCheck code now st = Ok v ->
    mfaStep (mkMfaWorld st calls log) (mkMfaWorld st (VerifyCall v :: calls) log)
| step_verify_commit st st' l1 l2 log v :
    verifyCommit v st = Ok st' ->
    mfaStep (mkMfaWorld st (l1 ++ VerifyCall v :: l2) log)
            (mkMfaWorld st' (l1 ++ l2) (AcceptedCode (vfSecret v) (vfCode v) (vfCounter v) (vfNow v) :: log))
| step_consume st st' calls log code verifier now :
    0 < now -> recoveryVerifier code = Some verifier -> ConsumeRecoveryCode code now st = Ok st' ->
    mfaStep (mkMfaWorld st calls log) (mkMfaWorld st' calls (Consumed verifier :: log))
| step_rotate_read st calls log now random r :
    rotateCheck now random st = Ok r ->
    mfaStep (mkMfaWorld st calls log) (mkMfaWorld st (RotateCall r :: calls) log)
| step_rotate_commit st st' l1 l2 log r :
    rotateCommit r st = Ok st' -> fresh_batch (rtRows r) log ->
    mfaStep (mkMfaWorld st (l1 ++ RotateCall r :: l2) log)
            (mkMfaWorld st' (l1 ++ l2) (Issued (verifiers (rtRows r)) :: log))
| step_disable st calls log :
    mfaStep (mkMfaWorld st calls log) (mkMfaWorld (Disable st) calls (DisabledMFA :: log))
| step_abandon st l1 l2 log c :
    mfaStep (mkMfaWorld st (l1 ++ c :: l2) log) (mkMfaWorld st (l1 ++ l2) log).

Definition new_user (generation : Z) : mfaWorld := mkMfaWorld (mkMfaStore None [] generation) [] [].

(** A code that [Verify] accepted for a sealed secret. *)
Definition valid_code (secret code : string) (counter now : Z) : Prop :=
  exists plain raw, decryptSettingValue secret = Some plain /\ DecodeSecret base32 plain = Ok raw /\
    Code hmac_sha1 raw counter Digits = code /\ in_window (Z.quot now Period) counter.

(** ** Invariant *)
Definition waiting (f : AdminMFAFactor) : Prop := mState f = MFAStatePending \/ mState f = MFAStateActivePendingRotation.

Definition confirmed_pending (f : AdminMFAFactor) : Prop :=
  mState f = MFAStatePendingAcknowledgment \/ mState f = MFAStateActiveRotationAck.

Record factor_ok (log : list mfaEvent) (f : AdminMFAFactor) : Prop := mkFactorOk {
  fo_active : forall n, n ∈ counters (mActiveSecret f) log -> n <= mLastAcceptedCounter f;
  fo_waiting : waiting f -> counters (mPendingSecret f) log = [];
  fo_confirmed : confirmed_pending f -> forall n, n ∈ counters (mPendingSecret f) log -> n <= mPendingAcceptedCounter f;
  fo_distinct : mPendingSecret f <> "" -> mPendingSecret f <> mActiveSecret f;
  fo_pending_known : mPendingSecret f <> "" -> mPendingSecret f ∈ secrets log;
  fo_active_known : mActiveSecret f <> "" -> mActiveSecret f ∈ secrets log
}.

(** As long as the row still matches a confirmation, it is the row the confirmation read. *)
Definition unchanged_for (n : confirmation) (f : option AdminMFAFactor) : Prop :=
  match f with
  | None => True
  | Some f =>
      mState f = mState (fnFactor n) -> mPendingSecret f = mPendingSecret (fnFactor n) ->
      mActiveSecret f = mActiveSecret (fnFactor n) /\ mRecoveryGeneration f = mRecoveryGeneration (fnFactor n) /\
      mPendingRecoveryGeneration f = mPendingRecoveryGeneration (fnFactor n)
  end.

Definition call_ok (f : option AdminMFAFactor) (log : list mfaEvent) (c : mfaCall) : Prop :=
  match c with
  | BeginCall _ | RotateCall _ => True
  | VerifyCall v => vfSecret v <> "" /\ valid_code (vfSecret v) (vfCode v) (vfCounter v) (vfNow v)
  | ConfirmCall n =>
      waiting (fnFactor n) /\ mPendingSecret (fnFactor n) ∈ secrets log /\ mPendingSecret (fnFactor n) <> "" /\
      valid_code (mPendingSecret (fnFactor n)) (fnCode n) (fnCounter n) (fnNow n) /\ unchanged_for n f
  end.

Record log_ok (log : list mfaEvent) : Prop := mkLogOk {
  lo_sorted : forall secret, StronglySorted Z.gt (counters secret log);
  lo_valid : forall secret code counter now, AcceptedCode secret code counter now ∈ log ->
    secret <> "" /\ secret ∈ secrets log /\ valid_code secret code counter now
}.

Record mfa_ok (w : mfaWorld) : Prop := mkMfaOk {
  mo_log : log_ok (wLog w);
  mo_factor : forall f, sFactor (wStore w) = Some f -> factor_ok (wLog w) f;
  mo_calls : forall c, c ∈ wCalls w -> call_ok (sFactor (wStore w)) (wLog w) c
}.

(** *** Logs *)
Lemma elem_of_counters s n log : n ∈ counters s log <-> exists code now, AcceptedCode s code n now ∈ log.
Proof.
  unfold counters. rewrite list_elem_of_omap. split.
  - intros ([| ? ? ? ?| | | |] & Hin & He); try done. case_decide; simplify_eq. eauto.
  - intros (code & now & Hin). eexists. split; [exact Hin|]. simpl. by rewrite decide_True.
Qed.

Lemma counters_known log s n : log_ok log -> n ∈ counters s log -> s <> "" /\ s ∈ secrets log.
Proof. intros [_ Hv] (code & now & Hin)%elem_of_counters. destruct (Hv _ _ _ _ Hin) as (? & ? & _). done. Qed.

Lemma counters_none log s : log_ok log -> (s = "" \/ s ∉ secrets log) -> counters s log = [].
Proof.
  intros Hl Hs. destruct (counters s log) as [|n l] eqn:E; [done|].
  destruct (counters_known log s n Hl) as [? ?]; [rewrite E; apply list_elem_of_here|]. tauto.
Qed.

Lemma secrets_cons e log s : s ∈ secrets log -> s ∈ secrets (e :: log).
Proof. unfold secrets. simpl. case_match; [intros; by apply list_elem_of_further|done]. Qed.

Lemma secrets_new s log : s ∈ secrets (Enrolled s :: log).
Proof. unfold secrets. simpl. apply list_elem_of_here. Qed.

(** An event that accepts no code. *)
Definition quiet_event (e : mfaEvent) : Prop := match e with AcceptedCode _ _ _ _ => False | _ => True end.

Lemma counters_quiet e log s : quiet_event e -> counters s (e :: log) = counters s log.
Proof. by destruct e. Qed.

Lemma log_ok_quiet e log : quiet_event e -> log_ok log -> log_ok (e :: log).
Proof.
  intros He [Hs Hv]. split.
  - intros secret. by rewrite counters_quiet.
  - intros s c n t [<-|Hin]%elem_of_cons; [done|]. destruct (Hv _ _ _ _ Hin) as (? & ? & ?). eauto using secrets_cons.
Qed.

Lemma log_ok_accept log s c n t :
  log_ok log -> s <> "" -> s ∈ secrets log -> valid_code s c n t -> (forall m, m ∈ counters s log -> m < n) ->
  log_ok (AcceptedCode s c n t :: log).
Proof.
  intros [Hs Hv] Hne Hk Hc Hlt. split.
  - intros secret. unfold counters. simpl. case_decide as Hd; [subst|apply Hs]. constructor; [apply Hs|].
    apply List.Forall_forall. intros m Hm%list_elem_of_In. apply Z.lt_gt, Hlt, Hm.
  - intros s' c' n' t' [Heq|Hin]%elem_of_cons; [by simplify_eq|]. destruct (Hv _ _ _ _ Hin) as (? & ? & ?). done.
Qed.

Lemma counters_accept_other s c n t log s' : s' <> s -> counters s' (AcceptedCode s c n t :: log) = counters s' log.
Proof. intros Hne. unfold counters. simpl. by rewrite decide_False. Qed.

Lemma counters_accept_same s c n t log : counters s (AcceptedCode s c n t :: log) = n :: counters s log.
Proof. unfold counters. simpl. by rewrite decide_True. Qed.

Lemma factor_ok_quiet e log f : quiet_event e -> factor_ok log f -> factor_ok (e :: log) f.
Proof.
  intros He [H1 H2 H3 H4 H5 H6]. split; try done; rewrite ?counters_quiet by done; auto using secrets_cons.
Qed.

(** *** Calls in flight *)

(** What the store may do without changing a row under a confirmation. *)
Definition undisturbed (log : list mfaEvent) (f f' : option AdminMFAFactor) : Prop :=
  match f' with
  | None => True
  | Some g' =>
      ~ waiting g' \/ mPendingSecret g' ∉ secrets log \/
      exists g, f = Some g /\ mState g' = mState g /\ mPendingSecret g' = mPendingSecret g /\ mActiveSecret g' = mActiveSecret g /\
        mRecoveryGeneration g' = mRecoveryGeneration g /\ mPendingRecoveryGeneration g' = mPendingRecoveryGeneration g
  end.

Lemma undisturbed_refl log f : undisturbed log f f.
Proof. destruct f as [g|]; [|done]. right. right. by exists g. Qed.

Lemma call_ok_step log log' f f' c :
  (forall s, s ∈ secrets log -> s ∈ secrets log') -> undisturbed log f f' -> call_ok f log c -> call_ok f' log' c.
Proof.
  intros Hs Hu. destruct c as [cur|n|v|r]; simpl; try done.
  intros (Hw & Hk & Hne & Hv & Hf). split_and!; auto. destruct f' as [g'|]; [|done]. simpl. intros Est Epend.
  destruct Hu as [Hnw|[Hnk|(g & -> & H1 & H2 & H3 & H4 & H5)]].
  - destruct Hnw. unfold waiting in *. by rewrite Est.
  - by rewrite Epend in Hnk.
  - rewrite H3, H4, H5. apply Hf; congruence.
Qed.

Lemma calls_step log log' f f' (calls calls' : list mfaCall) :
  (forall s, s ∈ secrets log -> s ∈ secrets log') -> undisturbed log f f' -> (forall c, c ∈ calls' -> c ∈ calls) ->
  (forall c, c ∈ calls -> call_ok f log c) -> forall c, c ∈ calls' -> call_ok f' log' c.
Proof. intros Hs Hu Hsub Hc c Hin. apply (call_ok_step log log' f f'); auto. Qed.

Lemma elem_of_removed {A} (x c : A) l1 l2 : c ∈ l1 ++ l2 -> c ∈ l1 ++ x :: l2.
Proof. rewrite !elem_of_app, elem_of_cons. tauto. Qed.

(** *** What the checks establish *)
Lemma Verify_valid secret plain code now last counter :
  decryptSettingValue secret = Some plain -> Verify hmac_sha1 base32 plain code now last = Ok counter ->
  secret <> "" /\ valid_code secret code counter now.
Proof.
  intros Hd (raw & Hr & Hc & Hw & _)%Verify_sound. split; [|by exists plain, raw].
  intros ->. injection Hd as <-. discriminate Hr.
Qed.

Lemma confirmCheck_ok code now random st n :
  confirmCheck code now random st = Ok n ->
  sFactor st = Some (fnFactor n) /\ waiting (fnFactor n) /\ mPendingSecret (fnFactor n) <> "" /\
  valid_code (mPendingSecret (fnFactor n)) (fnCode n) (fnCounter n) (fnNow n) /\
  generateRecoveryRows base32 recoveryMac (nextGeneration (fnFactor n)) (fnNow n) random = Ok (fnCodes n, fnRows n, fnGeneration n).
Proof.
  unfold Mfa.confirmCheck. destruct (sFactor st) as [f|]; [|done].
  destruct (String.eqb_spec (mPendingSecret f) "") as [|Hne]; [done|]. destruct (_ <=? now); [done|]. cbn [orb].
  destruct (negb (bool_decide (mState f = MFAStatePending)) && _) eqn:Ew; [done|].
  destruct (decryptSettingValue _) as [plain|] eqn:Ed; [|done].
  destruct (Verify _ _ plain code now (-1)) as [counter|] eqn:Ev; [|done].
  destruct (generateRecoveryRows _ _ _ _ _) as [[[codes rows] g]|] eqn:Eg; cbn [rbind]; [|done]. intros [= <-]. simpl.
  split_and!; [done| |done|by apply (Verify_valid _ plain _ _ (-1))|done].
  apply andb_false_iff in Ew as [Ew|Ew]; apply negb_false_iff, bool_decide_eq_true in Ew; [by left|by right].
Qed.

Lemma verifyCheck_ok code now st v :
  verifyCheck code now st = Ok v -> vfSecret v <> "" /\ valid_code (vfSecret v) (vfCode v) (vfCounter v) (vfNow v).
Proof.
  unfold Mfa.verifyCheck. destruct (sFactor st) as [f|]; [|done]. destruct (negb _); [done|].
  destruct (decryptSettingValue _) as [plain|] eqn:Ed; [|done].
  destruct (Verify _ _ plain code now _) as [counter|] eqn:Ev; [|done]. intros [= <-]. simpl. by apply (Verify_valid _ plain _ _ _ _ Ed Ev).
Qed.

Lemma confirmCommit_ok n st st' :
  confirmCommit n st = Ok st' ->
  exists f, sFactor st = Some f /\ mState f = mState (fnFactor n) /\ mPendingSecret f = mPendingSecret (fnFactor n) /\
    sFactor st' = Some (mkFactor (confirmState (fnFactor n)) (mPendingSecret f) (mPendingExpiresAt f) (fnCounter n) (fnGeneration n)
                    (mActiveSecret f) (mLastAcceptedCounter f) (mRecoveryGeneration f) false (fnNow n)) /\
    sCodes st' = deleteGeneration (fnGeneration n) (sCodes st) ++ fnRows n.
Proof.
  unfold confirmCommit. destruct (sFactor st) as [f|]; [|done]. destruct (confirmMatches n f) eqn:Em; [cbn [negb]|done].
  unfold createCodes. case_bool_decide; cbn [rbind]; [|done]. intros [= <-]. exists f.
  unfold confirmMatches in Em. rewrite !andb_true_iff, bool_decide_eq_true, String.eqb_eq in Em. tauto.
Qed.

Lemma acknowledge_ok now st st' :
  AcknowledgeRecoveryCodes now st = Ok st' ->
  exists f, sFactor st = Some f /\ isMFAAcknowledgmentState (mState f) = true /\ 0 < mPendingRecoveryGeneration f /\
    sFactor st' = Some (acknowledgedFactor now f) /\ sCodes st' = keepGeneration (mPendingRecoveryGeneration f) (sCodes st).
Proof.
  unfold AcknowledgeRecoveryCodes. destruct (sFactor st) as [f|]; [|done]. destruct (_ && _) eqn:E; [|done]. intros [= <-].
  rewrite !andb_true_iff, Z.ltb_lt in E. exists f. tauto.
Qed.

Lemma verifyCommit_ok v st st' :
  verifyCommit v st = Ok st' ->
  exists f, sFactor st = Some f /\ mActiveSecret f = vfSecret v /\ mLastAcceptedCounter f < vfCounter v /\
    sFactor st' = Some (with_last (vfCounter v) (vfNow v) f) /\ sCodes st' = sCodes st.
Proof.
  unfold verifyCommit. destruct (sFactor st) as [f|]; [|done]. destruct (_ && _) eqn:E; [|done]. intros [= <-].
  rewrite !andb_true_iff, String.eqb_eq, Z.ltb_lt in E. exists f. tauto.
Qed.

Lemma rotateCommit_ok r st st' :
  rotateCommit r st = Ok st' ->
  exists f, sFactor st = Some f /\ mRecoveryGeneration f = rtGeneration r /\
    sFactor st' = Some (mkFactor MFAStateActiveRecoveryAck (mPendingSecret f) (rtNow r + MFAPendingTTL)
                (mPendingAcceptedCounter f) (rtNext r) (mActiveSecret f) (mLastAcceptedCounter f) (mRecoveryGeneration f)
                false (rtNow r)) /\
    sCodes st' = deleteGeneration (rtNext r) (sCodes st) ++ rtRows r.
Proof.
  unfold rotateCommit, createCodes. case_bool_decide; cbn [rbind]; [|done]. destruct (sFactor st) as [f|]; [|done].
  destruct (Z.eqb_spec (mRecoveryGeneration f) (rtGeneration r)); cbn [negb]; [|done]. intros [= <-]. by exists f.
Qed.

Lemma consume_ok code now st st' v :
  recoveryVerifier code = Some v -> ConsumeRecoveryCode code now st = Ok st' ->
  exists f, sFactor st = Some f /\ isActiveMFAState (mState f) = true /\ sFactor st' = Some f /\
    (exists c, c ∈ sCodes st /\ unused_code (mRecoveryGeneration f) v c = true) /\
    sCodes st' = (fun c => if unused_code (mRecoveryGeneration f) v c
                           then mkRecoveryCode (cGeneration c) (cVerifier c) (cCreatedAt c) now else c) <$> sCodes st.
Proof.
  intros Hv. unfold Mfa.ConsumeRecoveryCode. rewrite Hv. destruct (sFactor st) as [f|]; [|done].
  destruct (isActiveMFAState (mState f)) eqn:Ea; [cbn [negb]|done]. case_bool_decide as El; cbn [negb]; [|done]. intros [= <-].
  exists f. split_and!; try done. destruct (List.filter _ _) as [|c l] eqn:Ef; [done|]. exists c.
  assert (Hin : In c (List.filter (unused_code (mRecoveryGeneration f) v) (sCodes st))) by (rewrite Ef; by left).
  apply filter_In in Hin as [Hin Hu]. split; [by apply list_elem_of_In|done].
Qed.

(** *** Steps *)
Lemma not_waiting f : mState f <> MFAStatePending -> mState f <> MFAStateActivePendingRotation -> ~ waiting f.
Proof. unfold waiting. tauto. Qed.

Lemma waiting_begin current : beginState current = MFAStatePending \/ beginState current = MFAStateActivePendingRotation.
Proof. destruct current as [f|]; simpl; [destruct (negb _)|]; tauto. Qed.

Lemma begin_factor_ok log encrypted now current f :
  log_ok log -> encrypted <> "" -> encrypted ∉ secrets log -> (forall g, f = Some g -> factor_ok log g) ->
  factor_ok (Enrolled encrypted :: log) (upsertPending (beginState current) encrypted now f).
Proof.
  intros Hl Hne Hnew Hf.
  assert (Hnone : counters encrypted (Enrolled encrypted :: log) = []) by (apply (counters_none log); [done|by right]).
  assert (Hempty : counters "" (Enrolled encrypted :: log) = []) by (apply (counters_none log); [done|by left]).
  assert (Hconf : forall g, mState g = beginState current -> ~ confirmed_pending g).
  { intros g Hg [H|H]; rewrite Hg in H; destruct (waiting_begin current); congruence. }
  destruct f as [g|]; simpl; split; simpl; try done.
  - destruct (Hf g eq_refl) as [H1 _ _ _ _ _]. exact H1.
  - intros H. by apply Hconf in H.
  - intros _ ->. destruct (Hf g eq_refl) as [_ _ _ _ _ H6]. by apply Hnew, H6.
  - intros _. apply secrets_new.
  - intros H. apply secrets_cons. by apply (Hf g eq_refl).
  - intros n Hn. change (n ∈ counters "" (Enrolled encrypted :: log)) in Hn. rewrite Hempty in Hn. by apply elem_of_nil in Hn.
  - intros H. by apply Hconf in H.
  - intros _. apply secrets_new.
Qed.

Lemma confirmState_cases f : confirmState f = MFAStateActiveRotationAck \/ confirmState f = MFAStatePendingAcknowledgment.
Proof. unfold confirmState. destruct (negb _); tauto. Qed.

Lemma confirm_factor_ok log f state p c n t expires g rg acked u :
  log_ok log -> factor_ok log f -> waiting f -> mPendingSecret f = p -> p <> "" ->
  state = MFAStateActiveRotationAck \/ state = MFAStatePendingAcknowledgment ->
  factor_ok (AcceptedCode p c n t :: log)
    (mkFactor state p expires n g (mActiveSecret f) (mLastAcceptedCounter f) rg acked u).
Proof.
  intros Hl [H1 H2 H3 H4 H5 H6] Hw Hp Hne Hst. rewrite Hp in *. assert (Hd := H4 Hne). split; simpl.
  - rewrite counters_accept_other by congruence. exact H1.
  - intros [H|H]; simpl in H; destruct Hst; congruence.
  - intros _ m. rewrite counters_accept_same, (H2 Hw). intros [->|Hm]%elem_of_cons; [lia|by apply elem_of_nil in Hm].
  - done.
  - intros _. by apply secrets_cons, H5.
  - intros H. by apply secrets_cons, H6.
Qed.

Lemma acknowledge_factor_ok log now f :
  factor_ok log f -> log_ok log -> isMFAAcknowledgmentState (mState f) = true -> factor_ok log (acknowledgedFactor now f).
Proof.
  intros [H1 H2 H3 H4 H5 H6] Hl Ha. unfold acknowledgedFactor. case_bool_decide as Hs; cbn [negb]; split; simpl; try done.
  1,2: by intros [|].
  - apply H3. unfold isMFAAcknowledgmentState in Ha. apply bool_decide_eq_true in Ha. unfold confirmed_pending.
    rewrite !elem_of_cons, elem_of_nil in Ha. tauto.
  - intros _. apply counters_none; [done|by left].
  - by intros [|].
Qed.

Lemma verify_factor_ok log f c n t u :
  factor_ok log f -> mActiveSecret f <> "" -> mLastAcceptedCounter f < n ->
  factor_ok (AcceptedCode (mActiveSecret f) c n t :: log) (with_last n u f).
Proof.
  intros [H1 H2 H3 H4 H5 H6] Hne Hlt.
  assert (Hp : mPendingSecret f <> mActiveSecret f) by (intros He; apply (H4 ltac:(congruence) He)).
  split; simpl; try done; rewrite ?(counters_accept_other _ _ _ _ _ _ Hp); try done.
  - rewrite counters_accept_same. intros m [->|Hm]%elem_of_cons; [lia|]. specialize (H1 m Hm). lia.
Qed.

Lemma mfa_ok_step w w' : mfa_ok w -> mfaStep w w' -> mfa_ok w'.
Proof.
  intros [Hl Hf Hc] Hs. destruct Hs as [st calls log ? ? _|st l1 l2 log cur enc now Hne Hnew|st calls log code now random n Hn
    |st st' l1 l2 log n Hn Hfresh|st st' calls log now Ha|st calls log code now v Hv|st st' l1 l2 log v Hv
    |st st' calls log code v now Hpos Hver Hcons|st calls log now random r Hr|st st' l1 l2 log r Hr Hfresh|st calls log|st l1 l2 log c];
    simpl in *.
  - split; simpl; try done. intros c [->|Hin]%elem_of_cons; [done|auto].
  - split; simpl.
    + by apply log_ok_quiet.
    + intros f [= <-]. by apply begin_factor_ok.
    + refine (calls_step log _ (sFactor st) _ _ _ (secrets_cons _ log) _ (fun c => elem_of_removed _ c l1 l2) Hc). right. left.
      by destruct (sFactor st).
  - split; simpl; try done. intros c [->|Hin]%elem_of_cons; [|auto].
    apply confirmCheck_ok in Hn as (Hst & Hw & Hne & Hval & _). simpl. split_and!; try done.
    + apply (fo_pending_known log); auto.
    + by rewrite Hst.
  - assert (Hcn := Hc (ConfirmCall n) ltac:(set_solver)). destruct Hcn as (Hw & Hk & Hne & Hval & _).
    destruct (confirmCommit_ok _ _ _ Hn) as (f & Hf0 & Est & Epend & Hst' & _). specialize (Hf f Hf0).
    assert (Hwf : waiting f) by (unfold waiting in *; by rewrite Est).
    split; simpl.
    + apply log_ok_accept; [by apply log_ok_quiet|done|done|done|].
      rewrite counters_quiet by done. rewrite <- Epend, (fo_waiting _ _ Hf Hwf). intros m Hm. by apply elem_of_nil in Hm.
    + rewrite Hst'. intros g [= <-]. rewrite Epend. apply confirm_factor_ok; try done; [by apply log_ok_quiet|by apply factor_ok_quiet|apply confirmState_cases].
    + refine (calls_step log _ (sFactor st) _ _ _ (fun s H => H) _ (fun c => elem_of_removed _ c l1 l2) Hc). rewrite Hst'. left.
      apply not_waiting; simpl; destruct (confirmState_cases (fnFactor n)); congruence.
  - destruct (acknowledge_ok _ _ _ Ha) as (f & Hf0 & Hack & _ & Hst' & _). split; simpl.
    + by apply log_ok_quiet.
    + rewrite Hst'. intros g [= <-]. apply factor_ok_quiet; [done|]. by apply acknowledge_factor_ok; [apply Hf| |].
    + refine (calls_step log _ (sFactor st) _ _ _ (fun s H => H) _ (fun c H => H) Hc). rewrite Hst'. left.
      unfold acknowledgedFactor. case_bool_decide; by apply not_waiting.
  - split; simpl; try done. intros c [->|Hin]%elem_of_cons; [|auto]. exact (verifyCheck_ok _ _ _ _ Hv).
  - assert (Hcv := Hc (VerifyCall v) ltac:(set_solver)). destruct Hcv as (Hne & Hval).
    destruct (verifyCommit_ok _ _ _ Hv) as (f & Hf0 & Eact & Hlt & Hst' & _). specialize (Hf f Hf0). rewrite <- Eact in *.
    split; simpl.
    + apply log_ok_accept; [done|done|by apply Hf|done|]. intros m Hm. pose proof (fo_active _ _ Hf m Hm). lia.
    + rewrite Hst'. intros g [= <-]. by apply verify_factor_ok.
    + refine (calls_step log _ (sFactor st) _ _ _ (fun s H => H) _ (fun c => elem_of_removed _ c l1 l2) Hc). rewrite Hst'. right. right. by exists f.
  - destruct (consume_ok _ _ _ _ _ Hver Hcons) as (f & Hf0 & _ & Hst' & _). split; simpl.
    + by apply log_ok_quiet.
    + rewrite Hst'. intros g [= <-]. apply factor_ok_quiet; [done|auto].
    + refine (calls_step log _ (sFactor st) _ _ _ (fun s H => H) _ (fun c H => H) Hc). rewrite Hst', Hf0. apply undisturbed_refl.
  - split; simpl; try done. intros c [->|Hin]%elem_of_cons; [done|auto].
  - destruct (rotateCommit_ok _ _ _ Hr) as (f & Hf0 & _ & Hst' & _). destruct (Hf f Hf0) as [H1 H2 H3 H4 H5 H6]. split; simpl.
    + by apply log_ok_quiet.
    + rewrite Hst'. intros g [= <-]. apply factor_ok_quiet; [done|]. split; simpl; try done; by intros [|].
    + refine (calls_step log _ (sFactor st) _ _ _ (fun s H => H) _ (fun c => elem_of_removed _ c l1 l2) Hc). rewrite Hst'. left. by apply not_waiting.
  - split; simpl; try done; [by apply log_ok_quiet|].
    refine (calls_step log _ (sFactor st) _ _ _ (fun s H => H) _ (fun c H => H) Hc). done.
  - split; simpl; try done. intros c' Hin. apply Hc. by apply elem_of_removed.
Qed.

Lemma mfa_ok_reachable g w : rtc mfaStep (new_user g) w -> mfa_ok w.
Proof.
  assert (Hg : forall x y, rtc mfaStep x y -> mfa_ok x -> mfa_ok y) by (induction 1; eauto using mfa_ok_step).
  intros H. apply (Hg _ _ H). split; simpl; try done.
  - split; [intros; constructor|]. intros ? ? ? ? Hin. by apply elem_of_nil in Hin.
  - intros c Hin. by apply elem_of_nil in Hin.
Qed.

(** ** Claims on codes of the authenticator *)

(** C7: in every interleaving of calls, confirmations included, the counters accepted for a secret strictly increase,
    so no one-time code is accepted twice, not even the one that confirmed the enrollment; and every accepted code is
    the code of its counter under an enrolled secret, at most one period away from the time of the call. *)
Theorem totp_codes_single_use g w :
  rtc mfaStep (new_user g) w ->
  (forall secret, StronglySorted Z.gt (counters secret (wLog w))) /\
  (forall secret code counter now, AcceptedCode secret code counter now ∈ wLog w ->
     secret ∈ secrets (wLog w) /\ valid_code secret code counter now).
Proof.
  intros [[Hs Hv] _ _]%mfa_ok_reachable. split; [exact Hs|].
  intros secret code counter now Hin. by destruct (Hv _ _ _ _ Hin) as (_ & ? & ?).
Qed.

(** ** Claims on the factor *)
Definition has_secret (st : mfaStore) : Prop := exists f, sFactor st = Some f /\ mActiveSecret f <> "".

Definition read_no_secret (current : option AdminMFAFactor) : Prop := forall f, current = Some f -> mActiveSecret f = "".

Lemma enabled_factor now st : stEnabled (Status now st) = true <-> exists f, sFactor st = Some f /\ isActiveMFAState (mState f) = true.
Proof.
  unfold Status. destruct (sFactor st) as [f|]; simpl; split; try done; [by exists f| |]; intros (? & ? & ?); by simplify_eq.
Qed.

(** a factor that is enabled with a secret is switched off by two kinds of steps only: [Disable], and the transaction of a
    [BeginEnrollment] that had read the factor before it got its secret.  Confirming, acknowledging, verifying,
    consuming and rotating never switch it off, however they interleave. *)
Theorem mfa_switched_off_by g w w' now now' :
  rtc mfaStep (new_user g) w -> mfaStep w w' ->
  has_secret (wStore w) -> stEnabled (Status now (wStore w)) = true -> stEnabled (Status now' (wStore w')) = false ->
  wLog w' = DisabledMFA :: wLog w \/
  exists current encrypted, BeginCall current ∈ wCalls w /\ read_no_secret current /\ wLog w' = Enrolled encrypted :: wLog w.
Proof.
  intros [_ _ Hc]%mfa_ok_reachable Hs (f0 & Hf0 & Hsec) (f1 & Hf1 & Hen)%enabled_factor Hoff. rewrite Hf0 in Hf1. injection Hf1 as <-.
  assert (Hout : forall f', sFactor (wStore w') = Some f' -> isActiveMFAState (mState f') = true -> False).
  { intros f' H1 H2. rewrite (proj2 (enabled_factor now' (wStore w'))) in Hoff; [done|by exists f']. }
  clear Hoff. destruct Hs as [st calls log ? ? _|st l1 l2 log cur enc t Hne Hnew|st calls log code t random n Hn
    |st st' l1 l2 log n Hn Hfresh|st st' calls log t Ha|st calls log code t v Hv|st st' l1 l2 log v Hv
    |st st' calls log code v t Hpos Hver Hcons|st calls log t random r Hr|st st' l1 l2 log r Hr Hfresh|st calls log|st l1 l2 log c];
    simpl in *; try (by destruct (Hout f0 Hf0 Hen)); [| | | | | |by left].
  - right. exists cur, enc. split_and!; [set_solver| |done]. intros f ->.
    destruct (String.eqb_spec (mActiveSecret f) "") as [|Hne']; [done|]. destruct (Hout _ eq_refl).
    simpl. rewrite (proj2 (String.eqb_neq _ _) Hne'), Hf0. done.
  - destruct (confirmCommit_ok _ _ _ Hn) as (f & Hf & Est & Epend & Hst' & _). rewrite Hf in Hf0. injection Hf0 as ->.
    destruct (Hc (ConfirmCall n) ltac:(set_solver)) as (_ & _ & _ & _ & Hun). rewrite Hf in Hun. destruct (Hun Est Epend) as [Hact _].
    destruct (Hout _ Hst'). unfold confirmState. simpl. rewrite <- Hact, (proj2 (String.eqb_neq _ _) Hsec). done.
  - destruct (acknowledge_ok _ _ _ Ha) as (f & Hf & _ & _ & Hst' & _). destruct (Hout _ Hst').
    unfold acknowledgedFactor. by case_bool_decide.
  - destruct (verifyCommit_ok _ _ _ Hv) as (f & Hf & _ & _ & Hst' & _). rewrite Hf in Hf0. injection Hf0 as ->. by destruct (Hout _ Hst').
  - destruct (consume_ok _ _ _ _ _ Hver Hcons) as (f & Hf & Hact & Hst' & _). by destruct (Hout _ Hst').
  - destruct (rotateCommit_ok _ _ _ Hr) as (f & Hf & _ & Hst' & _). by destruct (Hout _ Hst').
Qed.

(** ** Recovery codes *)
Record table_ok (codes : list AdminRecoveryCode) (log : list mfaEvent) : Prop := mkTableOk {
  to_issued : forall c, c ∈ codes -> cVerifier c ∈ issued log /\ 1 <= cGeneration c;
  to_nodup : NoDup (verifiers codes);
  to_used : forall c, c ∈ codes -> cVerifier c ∈ consumed log -> cUsedAt c <> 0
}.

(** The rows of the acknowledged generation are codes that were acknowledged last. *)
Definition current_ok (f : option AdminMFAFactor) (codes : list AdminRecoveryCode) (log : list mfaEvent) : Prop :=
  forall g c, f = Some g -> c ∈ codes -> cGeneration c = mRecoveryGeneration g -> cVerifier c ∈ current_batch log.

Definition batches (log : list mfaEvent) : Z := Z.of_nat (length (issued log)).

Definition factor_bounds (log : list mfaEvent) (f : AdminMFAFactor) : Prop :=
  0 <= mRecoveryGeneration f <= batches log /\ 0 <= mPendingRecoveryGeneration f <= batches log.

Definition positive (generation : Z) : Z := if generation =? 0 then 1 else generation.

Definition rows_of (generation : Z) (rows : list AdminRecoveryCode) : Prop :=
  rows <> [] /\ forall c, c ∈ rows -> cGeneration c = generation /\ cUsedAt c = 0.

Definition batch_ok (log : list mfaEvent) (c : mfaCall) : Prop :=
  match c with
  | ConfirmCall n =>
      factor_bounds log (fnFactor n) /\ fnGeneration n = positive (nextGeneration (fnFactor n)) /\ rows_of (fnGeneration n) (fnRows n)
  | RotateCall r =>
      0 <= rtGeneration r <= batches log /\ rtNext r = positive (wrapu64 (rtGeneration r + 1)) /\ rows_of (rtNext r) (rtRows r)
  | _ => True
  end.

Record codes_ok (w : mfaWorld) : Prop := mkCodesOk {
  ko_table : table_ok (sCodes (wStore w)) (wLog w);
  ko_current : current_ok (sFactor (wStore w)) (sCodes (wStore w)) (wLog w);
  ko_consumed : forall v, v ∈ consumed (wLog w) -> v ∈ issued (wLog w);
  ko_once : NoDup (consumed (wLog w));
  ko_from : from_current (wLog w);
  ko_bounds : forall f, sFactor (wStore w) = Some f -> factor_bounds (wLog w) f;
  ko_calls : forall c, c ∈ wCalls w -> batch_ok (wLog w) c
}.

Lemma issued_cons e log : issued (e :: log) = match e with Issued vs => vs | _ => [] end ++ issued log.
Proof. done. Qed.

Lemma consumed_cons e log : consumed (e :: log) = match e with Consumed v => [v] | _ => [] end ++ consumed log.
Proof. by destruct e. Qed.

Lemma generate_ok generation now random codes rows g :
  generateRecoveryRows base32 recoveryMac generation now random = Ok (codes, rows, g) ->
  g = positive generation /\ rows_of g rows.
Proof.
  unfold generateRecoveryRows, positive. set (g0 := if generation =? 0 then 1 else generation). clearbody g0.
  case_bool_decide as Hlen; cbn [negb]; [|done].
  destruct (mapM recoveryVerifier _) as [vs|] eqn:Em; [|done]. intros [= <- <- <-]. split; [done|]. split.
  - apply mapM_Some, Forall2_length in Em. rewrite Hlen in Em. by destruct vs.
  - intros c (v & -> & _)%list_elem_of_fmap. done.
Qed.

Lemma batches_mono e log : batches log <= batches (e :: log).
Proof. unfold batches. rewrite issued_cons, length_app. lia. Qed.

Lemma factor_bounds_mono e log f : factor_bounds log f -> factor_bounds (e :: log) f.
Proof. unfold factor_bounds. pose proof (batches_mono e log). lia. Qed.

Lemma batch_ok_mono e log c : batch_ok log c -> batch_ok (e :: log) c.
Proof.
  destruct c as [cur|n|v|r]; simpl; try done; intros (H & ? & ?); split_and!; try done.
  - by apply factor_bounds_mono.
  - lia.
  - pose proof (batches_mono e log). lia.
Qed.

Lemma batches_issued rows log : rows <> [] -> batches log + 1 <= batches (Issued (verifiers rows) :: log).
Proof.
  intros Hne. unfold batches. rewrite issued_cons, length_app. unfold verifiers. rewrite length_fmap. destruct rows; [done|]. simpl. lia.
Qed.

(** With fewer than 2^64-1 codes issued, the next generation is beyond both generations of the factor. *)
Lemma nextGeneration_beyond log f :
  factor_bounds log f -> batches log < uint64_max ->
  let g := positive (nextGeneration f) in mRecoveryGeneration f < g /\ 1 <= g <= batches log + 1.
Proof.
  unfold factor_bounds, nextGeneration, positive, wrapu64, uint64_max. intros [H1 H2] Hb. cbv zeta.
  rewrite !Z.mod_small by lia. destruct (Z.leb_spec (mRecoveryGeneration f + 1) (mPendingRecoveryGeneration f));
    case_match eqn:E; rewrite ?Z.eqb_eq, ?Z.eqb_neq in E; lia.
Qed.

(** *** The table of codes *)
Lemma elem_of_filter_list {A} (p : A -> bool) l x : x ∈ List.filter p l <-> x ∈ l /\ p x = true.
Proof. by rewrite !list_elem_of_In, filter_In. Qed.

Lemma verifiers_filter p codes v : v ∈ verifiers (List.filter p codes) -> v ∈ verifiers codes.
Proof. unfold verifiers. intros (c & -> & [Hc _]%elem_of_filter_list)%list_elem_of_fmap. by apply list_elem_of_fmap_2. Qed.

Lemma verifiers_filter_NoDup p codes : NoDup (verifiers codes) -> NoDup (verifiers (List.filter p codes)).
Proof.
  unfold verifiers. induction codes as [|c codes IH]; [done|]. rewrite fmap_cons, NoDup_cons. intros [Hnot Hnd]. simpl.
  destruct (p c); [|auto]. rewrite fmap_cons, NoDup_cons. split; [|auto]. intros Hin. apply Hnot. by apply (verifiers_filter p).
Qed.

Lemma table_ok_filter p codes log : table_ok codes log -> table_ok (List.filter p codes) log.
Proof.
  intros [H1 H2 H3]. split; [|by apply verifiers_filter_NoDup|].
  - intros c [Hc _]%elem_of_filter_list. auto.
  - intros c [Hc _]%elem_of_filter_list. auto.
Qed.

Lemma table_ok_same codes log log' :
  issued log' = issued log -> consumed log' = consumed log -> table_ok codes log -> table_ok codes log'.
Proof. intros E1 E2 [H1 H2 H3]. split; rewrite ?E1, ?E2; done. Qed.

Lemma table_ok_insert g codes rows log :
  table_ok codes log -> rows_of g rows -> 1 <= g -> fresh_batch rows log -> (forall v, v ∈ consumed log -> v ∈ issued log) ->
  table_ok (deleteGeneration g codes ++ rows) (Issued (verifiers rows) :: log).
Proof.
  intros Ht [_ Hrows] Hg [Hnd Hfresh] Hcons. destruct (table_ok_filter (fun c => negb (cGeneration c =? g)) _ _ Ht) as [H1 H2 H3].
  assert (Hin : forall c, c ∈ rows -> cVerifier c ∈ verifiers rows) by (intros c Hc; by apply list_elem_of_fmap_2).
  split; rewrite ?issued_cons, ?consumed_cons.
  - intros c [Hc|Hc]%elem_of_app; rewrite elem_of_app; [destruct (H1 c Hc); split; [by right|done]|].
    split; [left; auto|]. destruct (Hrows c Hc) as [-> _]. done.
  - unfold verifiers. rewrite fmap_app. apply NoDup_app. split_and!; [done| |done].
    intros v (c & -> & Hc)%list_elem_of_fmap Hv. by apply (Hfresh _ Hv), H1.
  - intros c [Hc|Hc]%elem_of_app Hv; [by apply H3|]. destruct (Hfresh (cVerifier c) (Hin c Hc)). by apply Hcons.
Qed.

Lemma table_ok_consume codes log generation v now :
  table_ok codes log -> 0 < now ->
  table_ok ((fun c => if unused_code generation v c then mkRecoveryCode (cGeneration c) (cVerifier c) (cCreatedAt c) now else c) <$> codes)
    (Consumed v :: log) \/ (forall c, c ∈ codes -> unused_code generation v c = false).
Proof.
  intros [H1 H2 H3] Hpos. destruct (existsb (unused_code generation v) codes) eqn:E.
  2: { right. intros c Hc. apply not_true_iff_false. intros Ht. apply not_true_iff_false in E. apply E, existsb_exists.
       exists c. split; [by apply list_elem_of_In|done]. }
  left. apply existsb_exists in E as (c0 & Hc0%list_elem_of_In & Hu0).
  assert (Hv0 : cVerifier c0 = v) by (unfold unused_code in Hu0; rewrite !andb_true_iff, String.eqb_eq in Hu0; tauto).
  assert (Hver : verifiers ((fun c => if unused_code generation v c
     then mkRecoveryCode (cGeneration c) (cVerifier c) (cCreatedAt c) now else c) <$> codes) = verifiers codes).
  { unfold verifiers. rewrite <- list_fmap_compose. apply list_fmap_ext. intros i c _. unfold compose. by destruct (unused_code generation v c). }
  split.
  - intros c (c1 & -> & Hc1)%list_elem_of_fmap. rewrite issued_cons. simpl. destruct (unused_code generation v c1); exact (H1 c1 Hc1).
  - by rewrite Hver.
  - intros c (c1 & -> & Hc1)%list_elem_of_fmap. rewrite consumed_cons. destruct (unused_code generation v c1) eqn:Eu; simpl.
    + intros _. lia.
    + intros [Hv|Hv]%elem_of_cons; [|by apply H3]. intros _.
      assert (Heq : c1 = c0); [|congruence].
      apply list_elem_of_lookup in Hc1 as [i Hi]. apply list_elem_of_lookup in Hc0 as [j Hj].
      assert (Hij : i = j); [|subst; congruence].
      apply (proj1 (NoDup_alt _) H2 i j v); unfold verifiers; rewrite list_lookup_fmap, ?Hi, ?Hj; simpl; congruence.
Qed.

(** *** Steps *)
Lemma current_ok_quiet f codes e log :
  current_batch (e :: log) = current_batch log -> current_ok f codes log -> current_ok f codes (e :: log).
Proof. unfold current_ok. intros ->. done. Qed.

(** A batch that replaces the rows of a generation beyond the acknowledged one. *)
Lemma current_ok_insert f codes rows log g :
  current_ok (Some f) codes log -> rows_of g rows -> mRecoveryGeneration f < g ->
  current_ok (Some f) (deleteGeneration g codes ++ rows) log.
Proof.
  intros Hc [_ Hrows] Hlt f' c [= <-] [Hin|Hin]%elem_of_app Hg.
  - apply elem_of_filter_list in Hin as [Hin _]. by apply (Hc f).
  - destruct (Hrows c Hin) as [Hgen _]. lia.
Qed.

Lemma current_ok_factor f g codes log :
  mRecoveryGeneration f = mRecoveryGeneration g -> current_ok (Some f) codes log -> current_ok (Some g) codes log.
Proof. intros E Hc g' c [= <-] Hin Hg. apply (Hc f); [done|done|]. congruence. Qed.

Lemma begin_codes_ok st calls calls' log current encrypted now :
  codes_ok (mkMfaWorld st calls log) -> (forall c, c ∈ calls' -> c ∈ calls) ->
  codes_ok (mkMfaWorld (beginCommit encrypted now current st) calls' (Enrolled encrypted :: log)).
Proof.
  intros [Ht Hc Hi Ho Hf Hb Hk] Hsub. simpl in *.
  assert (Hcodes : exists codes, sCodes (beginCommit encrypted now current st) = codes /\
    (codes = sCodes st \/ exists g, codes = deleteGeneration g (sCodes st))).
  { eexists. split; [reflexivity|]. simpl. destruct current as [f|]; [|by left]. destruct (0 <? _); [right; by eexists|by left]. }
  destruct Hcodes as (codes & Ecodes & Hcodes). cbn [sCodes beginCommit] in Ecodes.
  assert (Hin : forall c, c ∈ codes -> c ∈ sCodes st).
  { intros c. destruct Hcodes as [->|[g ->]]; [done|]. by intros [? _]%elem_of_filter_list. }
  split; cbn [wStore wLog wCalls]; cbn [sCodes sFactor beginCommit]; rewrite ?Ecodes; try done.
  - apply (table_ok_same _ log); [done|done|]. destruct Hcodes as [->|[g ->]]; [done|by apply table_ok_filter].
  - intros f c [= <-] Hcin%Hin Hg. simpl. destruct (sFactor st) as [f|] eqn:Ef; simpl in Hg; [by apply (Hc f)|].
    destruct (to_issued _ _ Ht c Hcin). lia.
  - intros f [= <-]. unfold factor_bounds. change (batches (Enrolled encrypted :: log)) with (batches log).
    destruct (sFactor st) as [f|]; simpl; [destruct (Hb f eq_refl)|]; unfold batches in *; lia.
  - intros c Hc'. apply batch_ok_mono. auto.
Qed.

(** The store after a batch was issued: the factor keeps its generation and points to the new one. *)
Lemma issue_codes_ok st st' calls calls' log f f' g rows :
  codes_ok (mkMfaWorld st calls log) -> (forall c, c ∈ calls' -> c ∈ calls) -> fresh_batch rows log -> rows_of g rows ->
  sFactor st = Some f -> sFactor st' = Some f' -> sCodes st' = deleteGeneration g (sCodes st) ++ rows ->
  mRecoveryGeneration f' = mRecoveryGeneration f -> mPendingRecoveryGeneration f' = g ->
  mRecoveryGeneration f < g -> 1 <= g <= batches log + 1 ->
  codes_ok (mkMfaWorld st' calls' (Issued (verifiers rows) :: log)).
Proof.
  intros [Ht Hc Hi Ho Hf Hb Hk] Hsub Hfresh Hrows Ef Ef' Ecodes Egen Epend Hlt Hg. simpl in *.
  assert (Hmore := batches_issued rows log (proj1 Hrows)).
  split; simpl; rewrite ?Ecodes, ?Ef'; try done.
  - apply table_ok_insert; try done. lia.
  - apply (current_ok_factor f); [done|]. apply current_ok_quiet; [done|]. rewrite Ef in Hc. by apply current_ok_insert.
  - intros v Hv. rewrite issued_cons, elem_of_app. right. auto.
  - intros h [= <-]. destruct (Hb f Ef). unfold factor_bounds. lia.
  - intros c Hin. apply batch_ok_mono. auto.
Qed.

Lemma acknowledge_codes_ok st st' calls log now :
  codes_ok (mkMfaWorld st calls log) -> AcknowledgeRecoveryCodes now st = Ok st' ->
  codes_ok (mkMfaWorld st' calls (Acknowledged (verifiers (sCodes st')) :: log)).
Proof.
  intros [Ht Hc Hi Ho Hf Hb Hk] (f & Ef & _ & Hpos & Ef' & Ecodes)%acknowledge_ok. simpl in *.
  split; simpl; rewrite ?Ecodes; try done.
  - apply (table_ok_same _ log); [done|done|]. by apply table_ok_filter.
  - intros g c Hg Hin _. by apply list_elem_of_fmap_2.
  - rewrite Ef'. intros g [= <-]. destruct (Hb f Ef). unfold factor_bounds, acknowledgedFactor.
    change (batches (Acknowledged _ :: log)) with (batches log). case_bool_decide; simpl; unfold batches in *; lia.
Qed.

Lemma consume_codes_ok st st' calls log code v now :
  codes_ok (mkMfaWorld st calls log) -> 0 < now -> recoveryVerifier code = Some v -> ConsumeRecoveryCode code now st = Ok st' ->
  codes_ok (mkMfaWorld st' calls (Consumed v :: log)).
Proof.
  intros [Ht Hc Hi Ho Hf Hb Hk] Hpos Hv Hok. simpl in *.
  destruct (consume_ok _ _ _ _ _ Hv Hok) as (f & Ef & _ & Ef' & (c0 & Hc0 & Hu0) & Ecodes). rewrite Ef in *.
  assert (Hu := Hu0). unfold unused_code in Hu0. rewrite !andb_true_iff, !Z.eqb_eq, String.eqb_eq in Hu0. destruct Hu0 as [[Hgen Hver] Hused].
  destruct (table_ok_consume (sCodes st) log (mRecoveryGeneration f) v now Ht Hpos) as [Ht'|Hno]; [|by rewrite Hno in Hu].
  split; simpl; rewrite ?Ecodes, ?Ef'; try done.
  - intros g c [= <-] (c1 & -> & Hin)%list_elem_of_fmap Hg. simpl. revert Hg. destruct (unused_code _ _ c1); intros Hg; by apply (Hc f c1).
  - intros v'. rewrite consumed_cons, issued_cons. intros [->|Hv']%elem_of_cons; [|by apply Hi]. rewrite <- Hver. by apply Ht.
  - rewrite consumed_cons. apply NoDup_cons. split; [|done]. rewrite <- Hver. intros Hin. by apply (to_used _ _ Ht c0 Hc0 Hin).
  - split; [|done]. rewrite <- Hver. by apply (Hc f).
Qed.

Lemma confirm_codes_ok st st' calls calls' log n s c t k :
  mfa_ok (mkMfaWorld st calls log) -> codes_ok (mkMfaWorld st calls log) -> batches log < uint64_max -> ConfirmCall n ∈ calls ->
  (forall c, c ∈ calls' -> c ∈ calls) -> confirmCommit n st = Ok st' -> fresh_batch (fnRows n) log ->
  codes_ok (mkMfaWorld st' calls' (AcceptedCode s c k t :: Issued (verifiers (fnRows n)) :: log)).
Proof.
  intros Hm Hok Hbound Hin Hsub (f & Ef & Est & Epend & Ef' & Ecodes)%confirmCommit_ok Hfresh.
  destruct (mo_calls _ Hm _ Hin) as (_ & _ & _ & _ & Hun). destruct (ko_calls _ Hok _ Hin) as (Hb & Hg & Hrows). simpl in *.
  rewrite Ef in Hun. destruct (Hun Est Epend) as (_ & Egen & _).
  destruct (nextGeneration_beyond log (fnFactor n) Hb Hbound) as [Hlt Hrange]. rewrite <- Hg in Hlt, Hrange.
  assert (Hk : codes_ok (mkMfaWorld st' calls' (Issued (verifiers (fnRows n)) :: log))).
  { refine (issue_codes_ok st st' calls calls' log f _ (fnGeneration n) (fnRows n) Hok Hsub Hfresh Hrows Ef Ef' Ecodes _ _ _ _);
      simpl; lia || done. }
  destruct Hk as [H1 H2 H3 H4 H5 H6 H7]. split; try done. by apply (table_ok_same _ (Issued (verifiers (fnRows n)) :: log)).
Qed.

Lemma rotate_codes_ok st st' calls calls' log r :
  codes_ok (mkMfaWorld st calls log) -> batches log < uint64_max -> RotateCall r ∈ calls ->
  (forall c, c ∈ calls' -> c ∈ calls) -> rotateCommit r st = Ok st' -> fresh_batch (rtRows r) log ->
  codes_ok (mkMfaWorld st' calls' (Issued (verifiers (rtRows r)) :: log)).
Proof.
  intros Hok Hbound Hin Hsub (f & Ef & Egen & Ef' & Ecodes)%rotateCommit_ok Hfresh.
  destruct (ko_calls _ Hok _ Hin) as (Hb & Hg & Hrows). simpl in *.
  assert (Hnext : rtNext r = rtGeneration r + 1).
  { rewrite Hg. unfold positive, wrapu64, uint64_max in *. rewrite Z.mod_small by lia. destruct (Z.eqb_spec (rtGeneration r + 1) 0); lia. }
  refine (issue_codes_ok st st' calls calls' log f _ (rtNext r) (rtRows r) Hok Hsub Hfresh Hrows Ef Ef' Ecodes _ _ _ _);
    simpl; lia || done.
Qed.

Lemma codes_ok_step w w' :
  mfa_ok w -> codes_ok w -> batches (wLog w) < uint64_max -> mfaStep w w' -> codes_ok w'.
Proof.
  intros Hm Hok Hbound Hs. destruct Hs as [st calls log ? ? _|st l1 l2 log cur enc now Hne Hnew|st calls log code now random n Hn
    |st st' l1 l2 log n Hn Hfresh|st st' calls log now Ha|st calls log code now v Hv|st st' l1 l2 log v Hv
    |st st' calls log code v now Hpos Hver Hcons|st calls log now random r Hr|st st' l1 l2 log r Hr Hfresh|st calls log|st l1 l2 log c].
  - destruct Hok as [H1 H2 H3 H4 H5 H6 H7]. split; try done. intros c [->|Hin]%elem_of_cons; [done|auto].
  - apply (begin_codes_ok _ _ _ _ _ _ _ Hok). intros c. apply elem_of_removed.
  - destruct Hok as [H1 H2 H3 H4 H5 H6 H7]. split; try done. intros c [->|Hin]%elem_of_cons; [|by apply H7].
    apply confirmCheck_ok in Hn as (Hst & _ & _ & _ & Hgen). destruct (generate_ok _ _ _ _ _ _ Hgen) as [Hg Hrows]. simpl. auto.
  - apply (confirm_codes_ok _ _ _ _ _ _ _ _ _ _ Hm Hok Hbound); [set_solver|intros c; apply elem_of_removed|done|done].
  - by apply (acknowledge_codes_ok _ _ _ _ now Hok).
  - destruct Hok as [H1 H2 H3 H4 H5 H6 H7]. split; try done. intros c [->|Hin]%elem_of_cons; [done|auto].
  - destruct (verifyCommit_ok _ _ _ Hv) as (f & Ef & _ & _ & Ef' & Ecodes). destruct Hok as [H1 H2 H3 H4 H5 H6 H7]. simpl in *.
    split; simpl; rewrite ?Ecodes, ?Ef'; try done.
    + by apply (table_ok_same _ log).
    + apply (current_ok_factor f); [done|]. rewrite Ef in H2. by apply current_ok_quiet.
    + intros g [= <-]. exact (H6 f Ef).
    + intros c Hin. apply H7. by apply elem_of_removed.
  - by apply (consume_codes_ok _ _ _ _ code v now Hok).
  - destruct Hok as [H1 H2 H3 H4 H5 H6 H7]. split; try done. intros c [->|Hin]%elem_of_cons; [|by apply H7]. simpl in *.
    unfold Mfa.rotateCheck in Hr. destruct (sFactor st) as [f|] eqn:Ef; [|done]. destruct (negb _); [done|].
    destruct (generateRecoveryRows _ _ _ _ _) as [[[codes rows] g]|] eqn:Eg; cbn [rbind] in Hr; [|done]. injection Hr as <-. simpl.
    destruct (generate_ok _ _ _ _ _ _ Eg) as [Hg Hrows]. destruct (H6 f eq_refl). auto.
  - apply (rotate_codes_ok _ _ _ _ _ _ Hok Hbound); [set_solver|intros c; apply elem_of_removed|done|done].
  - destruct Hok as [H1 H2 H3 H4 H5 H6 H7]. split; try done; simpl.
    split; simpl; [|constructor|]; intros c Hin; by apply elem_of_nil in Hin.
  - destruct Hok as [H1 H2 H3 H4 H5 H6 H7]. split; try done. intros c' Hin. apply H7. by apply elem_of_removed.
Qed.

Lemma mfaStep_batches w w' : mfaStep w w' -> batches (wLog w) <= batches (wLog w').
Proof. intros Hs. destruct Hs; simpl; rewrite ?Z.le_refl; try done; repeat (etrans; [|apply batches_mono]); done. Qed.

Lemma codes_ok_reachable g w : rtc mfaStep (new_user g) w -> batches (wLog w) < uint64_max -> codes_ok w.
Proof.
  intros H. assert (Hg : forall x y, rtc mfaStep x y -> mfa_ok x -> (batches (wLog x) < uint64_max -> codes_ok x) ->
    batches (wLog y) < uint64_max -> codes_ok y).
  { clear. induction 1 as [|x y z Hxy Hyz IH]; [auto|]. intros Hm Hk. apply IH; [by apply (mfa_ok_step x)|].
    intros Hb. pose proof (mfaStep_batches _ _ Hxy). apply (codes_ok_step x); auto with lia. }
  apply (Hg _ _ H).
  - apply (mfa_ok_reachable g). constructor.
  - intros _. split; simpl; try done; try (intros ? Hin; by apply elem_of_nil in Hin); [|constructor].
    split; simpl; [|constructor|]; intros c Hin; by apply elem_of_nil in Hin.
Qed.

(** C13: in every interleaving of calls, as long as fewer than 2^64-1 codes were issued, no recovery code is consumed
    twice, and every consumed code belongs to the batch that was acknowledged last: codes of replaced batches, of
    batches that were never acknowledged and of disabled factors are never accepted. *)
Theorem recovery_codes_single_use g w :
  rtc mfaStep (new_user g) w -> batches (wLog w) < uint64_max ->
  NoDup (consumed (wLog w)) /\ from_current (wLog w).
Proof. intros H Hb. destruct (codes_ok_reachable g w H Hb). done. Qed.

End Interleavings.

(** ** Text of recovery codes *)
Definition base32_char (c : Ascii.ascii) : bool := is_upper c || between 50 55 c.

Lemma append_cons c s t : String c s +:+ t = String c (s +:+ t).
Proof. done. Qed.

Lemma ReplaceAll_app s t old : ReplaceAll (s +:+ t) old = ReplaceAll s old +:+ ReplaceAll t old.
Proof. induction s as [|c s IH]; [done|]. simpl. rewrite IH. by destruct (Ascii.eqb c old). Qed.

Lemma ReplaceAll_none s old : all_chars (fun c => negb (Ascii.eqb c old)) s = true -> ReplaceAll s old = s.
Proof.
  induction s as [|c s IH]; [done|]. cbn [all_chars ReplaceAll]. rewrite andb_true_iff, negb_true_iff. intros [-> H]. by rewrite (IH H).
Qed.

Lemma substring_drop n s : String.substring 0 n s +:+ drop_chars n s = s.
Proof. revert s. induction n as [|n IH]; intros [|c s]; try done. simpl. by rewrite append_cons, IH. Qed.

Lemma drop_chars_length n s : (String.length (drop_chars n s) = String.length s - n)%nat.
Proof. revert s. induction n as [|n IH]; intros [|c s]; try done. cbn [drop_chars String.length]. rewrite IH. lia. Qed.

Lemma groups_concat fuel code : (String.length code < fuel)%nat -> foldr String.append "" (recoveryGroups fuel code) = code.
Proof.
  revert code. induction fuel as [|fuel IH]; intros code Hf; [lia|]. cbn [recoveryGroups]. destruct (Z.ltb_spec 4 (slen code)).
  - cbn [foldr]. unfold slen in *. rewrite IH by (rewrite drop_chars_length; lia). apply substring_drop.
  - destruct (String.eqb_spec code "") as [->|]; [done|]. simpl. apply app_empty_r.
Qed.

Lemma Join_chars p parts sep :
  all_chars p (foldr String.append "" parts) = true -> all_chars p sep = true -> all_chars p (Join parts sep) = true.
Proof.
  intros H Hs. induction parts as [|s [|t parts] IH]; [done|simpl in *; by rewrite app_empty_r in H|].
  cbn [foldr] in H, IH. rewrite all_chars_app, andb_true_iff in H. destruct H as [H1 H2].
  change (Join (s :: t :: parts) sep) with (s +:+ sep +:+ Join (t :: parts) sep). rewrite !all_chars_app, H1, Hs. by apply IH.
Qed.

Lemma Join_strip parts :
  ReplaceAll (Join parts "-") hyphen = ReplaceAll (foldr String.append "" parts) hyphen.
Proof.
  induction parts as [|s [|t parts] IH]; [done|simpl; by rewrite app_empty_r|].
  change (Join (s :: t :: parts) "-") with (s +:+ "-" +:+ Join (t :: parts) "-"). cbn [foldr] in *. rewrite !ReplaceAll_app, IH, ?ReplaceAll_app. done.
Qed.

Lemma ToUpper_id s : all_chars (fun c => negb (is_lower c)) s = true -> ToUpper s = s.
Proof.
  induction s as [|c s IH]; [done|]. cbn [all_chars ToUpper]. rewrite andb_true_iff, negb_true_iff. intros [Hc H].
  unfold upper_char. by rewrite Hc, (IH H).
Qed.

Lemma ReplaceAll_chars p s old : all_chars p s = true -> all_chars p (ReplaceAll s old) = true.
Proof.
  induction s as [|c s IH]; [done|]. cbn [all_chars ReplaceAll]. rewrite andb_true_iff. intros [Hc H].
  destruct (Ascii.eqb c old); [auto|]. cbn [all_chars]. by rewrite Hc, (IH H).
Qed.

Definition code_char (c : Ascii.ascii) : bool := base32_char c || Ascii.eqb c hyphen.

Lemma code_char_implies (q : Ascii.ascii -> bool) :
  forallb (fun n => implb (code_char (Ascii.ascii_of_nat n)) (q (Ascii.ascii_of_nat n))) (seq 0 256) = true ->
  forall c, code_char c = true -> q c = true.
Proof.
  intros Hq c Hb. rewrite forallb_forall in Hq. specialize (Hq (Ascii.nat_of_ascii c)).
  rewrite Ascii.ascii_nat_embedding, Hb in Hq. apply Hq. apply in_seq. pose proof (Ascii.nat_ascii_bounded c). lia.
Qed.

Lemma normalize_plain s : all_chars code_char s = true -> normalizeRecoveryCode s = ReplaceAll s hyphen.
Proof.
  intros Hs. unfold normalizeRecoveryCode.
  assert (Hall : forall q : Ascii.ascii -> bool, (forall c, code_char c = true -> q c = true) -> all_chars q s = true).
  { intros q Hq. by apply (all_chars_impl code_char). }
  rewrite TrimSpace_visible by (apply Hall, code_char_implies; vm_compute; reflexivity).
  rewrite ToUpper_id by (apply Hall, code_char_implies; vm_compute; reflexivity).
  apply ReplaceAll_none, ReplaceAll_chars, Hall, code_char_implies. vm_compute. reflexivity.
Qed.

Lemma base32_code_char s : all_chars base32_char s = true -> all_chars code_char s = true.
Proof. apply all_chars_impl. unfold code_char. by intros c ->. Qed.

Lemma base32_no_hyphen s : all_chars base32_char s = true -> ReplaceAll s hyphen = s.
Proof.
  intros H. apply ReplaceAll_none. revert H. apply all_chars_impl. intros c Hc. apply negb_true_iff, not_true_iff_false.
  intros ->%Ascii.eqb_eq. discriminate Hc.
Qed.

(** A code, formatted or not, reads back as the code itself. *)
Lemma normalize_text code : all_chars base32_char code = true -> normalizeRecoveryCode code = code.
Proof. intros H. rewrite normalize_plain by by apply base32_code_char. by apply base32_no_hyphen. Qed.

Lemma normalize_format code : all_chars base32_char code = true -> normalizeRecoveryCode (formatRecoveryCode code) = code.
Proof.
  intros H. unfold formatRecoveryCode. set (parts := recoveryGroups _ _).
  assert (Hparts : foldr String.append "" parts = code) by (apply groups_concat; lia).
  rewrite normalize_plain, Join_strip, Hparts; [by apply base32_no_hyphen|].
  apply Join_chars; [|done]. rewrite Hparts. by apply base32_code_char.
Qed.
