(* ===== verification/MfaLifecycle.v ===== *)
(** * The life of a factor

    The sequential round trip of an enrollment, from [BeginEnrollment] to the use of
    its codes, and two histories in which calls of the service hurt each other: an
    enrollment that had read the factor before it was acknowledged, and a rotation of
    recovery codes that nobody acknowledges in time. *)

From Stdlib Require Import Sorted.
From S2P Require Import Prelude GoStrings VersionPolicy Totp Mfa MfaProperties.

Open Scope string_scope.
Open Scope list_scope.
Open Scope Z_scope.

Section Lifecycle.
Context (hmac_sha1 : list Z -> list Z -> list Z) (base32 : string -> option (list Z)).
Context (openBox : string -> option string) (recoveryMac : string -> option string).

(** ** Tables of one batch *)
Definition batch (generation now : Z) (vs : list string) : list AdminRecoveryCode :=
  (fun v => mkRecoveryCode generation v now 0) <$> vs.

Lemma filter_all {A} (p : A -> bool) l : (forall x, x ∈ l -> p x = true) -> List.filter p l = l.
Proof.
  induction l as [|x l IH]; intros H; [done|]. simpl. rewrite (H x) by apply list_elem_of_here. f_equal.
  apply IH. intros y Hy. by apply H, list_elem_of_further.
Qed.

Lemma filter_none {A} (p : A -> bool) l : (forall x, x ∈ l -> p x = false) -> List.filter p l = [].
Proof.
  induction l as [|x l IH]; intros H; [done|]. simpl. rewrite (H x) by apply list_elem_of_here.
  apply IH. intros y Hy. by apply H, list_elem_of_further.
Qed.

Lemma batch_rows g now vs c : c ∈ batch g now vs -> cGeneration c = g /\ cUsedAt c = 0.
Proof. by intros (v & -> & _)%list_elem_of_fmap. Qed.

Lemma batch_unused g now vs v :
  NoDup vs -> v ∈ vs -> length (List.filter (unused_code g v) (batch g now vs)) = 1%nat.
Proof.
  intros Hnd Hin. unfold batch. induction vs as [|u vs IH]; [by apply elem_of_nil in Hin|].
  apply NoDup_cons in Hnd as [Hu Hnd]. rewrite fmap_cons. cbn [List.filter]. unfold unused_code at 1. simpl. rewrite Z.eqb_refl. simpl.
  destruct (String.eqb_spec u v) as [->|Hne]; simpl.
  - rewrite filter_none; [done|]. intros c (x & -> & Hx)%list_elem_of_fmap. unfold unused_code. simpl.
    rewrite (proj2 (String.eqb_neq x v)); [by rewrite andb_false_r|]. intros ->. done.
  - apply IH; [done|]. apply elem_of_cons in Hin as [->|]; done.
Qed.

Lemma batch_unique g now vs : NoDup vs -> NoDup ((fun c => (cGeneration c, cVerifier c)) <$> batch g now vs).
Proof. intros Hnd. unfold batch. rewrite <- list_fmap_compose. apply NoDup_fmap_2; [|done]. intros x y [= ->]. done. Qed.

Lemma createCodes_batch g now vs : NoDup vs -> createCodes (batch g now vs) [] = Ok (batch g now vs).
Proof. intros H. unfold createCodes. rewrite app_nil_l, bool_decide_true by by apply batch_unique. done. Qed.

Lemma marked_code_used g v now codes :
  0 < now -> List.filter (unused_code g v)
    ((fun c => if unused_code g v c then mkRecoveryCode (cGeneration c) (cVerifier c) (cCreatedAt c) now else c) <$> codes) = [].
Proof.
  intros Hpos. apply filter_none. intros c (x & -> & _)%list_elem_of_fmap. destruct (unused_code g v x) eqn:E; [|done].
  unfold unused_code. simpl. rewrite (proj2 (Z.eqb_neq now 0)) by lia. by rewrite andb_false_r.
Qed.

(** An unused code of the acknowledged batch is accepted once. *)
Lemma consume_once st f code v now created vs :
  sFactor st = Some f -> isActiveMFAState (mState f) = true -> sCodes st = batch (mRecoveryGeneration f) created vs ->
  NoDup vs -> v ∈ vs -> recoveryVerifier base32 recoveryMac code = Some v -> 0 < now ->
  exists st', ConsumeRecoveryCode base32 recoveryMac code now st = Ok st' /\
    forall later, ConsumeRecoveryCode base32 recoveryMac code later st' = Err "invalid recovery code".
Proof.
  intros Hf Hact Hcodes Hnd Hin Hv Hpos. unfold ConsumeRecoveryCode. rewrite Hv, Hf, Hact. cbn [negb].
  rewrite Hcodes, batch_unused by done. eexists. split; [reflexivity|]. intros later. cbn [sFactor sCodes]. rewrite Hact. cbn [negb].
  by rewrite marked_code_used.
Qed.

(** ** Enrollment *)
Definition enrolledFactor (encrypted : string) (t0 : Z) : AdminMFAFactor :=
  mkFactor MFAStatePending encrypted (t0 + MFAPendingTTL) (-1) 0 "" (-1) 0 false t0.

Lemma confirm_enrolled st encrypted secret raw t0 t1 random vs :
  sFactor st = Some (enrolledFactor encrypted t0) -> sCodes st = [] -> encrypted <> "" ->
  decryptSettingValue openBox encrypted = Some secret -> DecodeSecret base32 secret = Ok raw ->
  0 <= t1 < t0 + MFAPendingTTL ->
  length random = RecoveryCodeCount -> mapM (recoveryVerifier base32 recoveryMac) random = Some vs -> NoDup vs ->
  exists counter, counter <= Z.quot t1 Period + 1 /\
  ConfirmEnrollment hmac_sha1 base32 openBox recoveryMac (Code hmac_sha1 raw (Z.quot t1 Period) Digits) t1 random st =
    (Ok (formatRecoveryCode <$> random),
     mkMfaStore (Some (mkFactor MFAStatePendingAcknowledgment encrypted (t0 + MFAPendingTTL) counter 1 "" (-1) 0 false t1))
       (batch 1 t1 vs) (sMfaGeneration st)).
Proof.
  intros Hf Hcodes Hne Hdec Hraw Ht Hlen Hmap Hnd.
  assert (Hq : 0 <= Z.quot t1 Period) by (apply Z.quot_pos; unfold Period; lia).
  assert (Hw : in_window (Z.quot t1 Period) (Z.quot t1 Period)) by (unfold in_window, Window; lia).
  destruct (Verify_accepts hmac_sha1 base32 secret raw t1 (-1) _ Hraw Hw ltac:(lia)) as (counter & Hver & _).
  destruct (Verify_sound hmac_sha1 base32 _ _ _ _ _ Hver) as (_ & _ & _ & Hin & _). unfold in_window, Window in Hin.
  exists counter. split; [lia|]. unfold ConfirmEnrollment, confirmCheck. rewrite Hf. cbn [mPendingSecret mPendingExpiresAt mState enrolledFactor].
  rewrite (proj2 (String.eqb_neq _ _) Hne), (proj2 (Z.leb_gt _ _)) by lia. cbn [orb]. rewrite bool_decide_true by done. cbn [negb andb].
  rewrite Hdec, Hver. unfold generateRecoveryRows. cbv zeta. rewrite (take_ge random) by lia. rewrite (bool_decide_true _ Hlen). cbn [negb].
  rewrite Hmap. cbn [rbind]. unfold confirmCommit, confirmMatches. rewrite Hf. cbn [fnFactor fnNow mState mPendingSecret mPendingExpiresAt enrolledFactor].
  rewrite bool_decide_true, String.eqb_refl, (proj2 (Z.ltb_lt _ _)) by done || lia. cbn [andb negb fnRows fnGeneration].
  rewrite Hcodes. change (nextGeneration (enrolledFactor encrypted t0)) with 1. change (1 =? 0) with false. cbv iota.
  change (deleteGeneration 1 []) with (@nil AdminRecoveryCode). fold (batch 1 t1 vs). rewrite createCodes_batch by done. done.
Qed.

(** C32: enrolling works end to end.  For an administrator without a factor, the code that the authenticator shows
    confirms the enrollment within its ten minutes, the ten codes handed out are the formatted random codes, and
    after the acknowledgment MFA is enabled, every one of the ten codes as it was handed out is accepted once and
    then refused, and the authenticator's code of every later period is accepted. *)
Theorem enrollment_roundtrip st userID username encrypted secret raw random vs t0 t1 t2 :
  sFactor st = None -> sCodes st = [] -> validAdministrator userID username = true -> encrypted <> "" ->
  decryptSettingValue openBox encrypted = Some secret -> DecodeSecret base32 secret = Ok raw ->
  0 <= t1 < t0 + MFAPendingTTL -> t2 < t0 + MFAPendingTTL ->
  length random = RecoveryCodeCount -> (forall code, code ∈ random -> all_chars base32_char code = true) ->
  mapM (recoveryVerifier base32 recoveryMac) random = Some vs -> NoDup vs ->
  exists st1 st2 st3,
    BeginEnrollment userID username encrypted t0 st = (Ok (t0 + MFAPendingTTL), st1) /\
    ConfirmEnrollment hmac_sha1 base32 openBox recoveryMac (Code hmac_sha1 raw (Z.quot t1 Period) Digits) t1 random st1 =
      (Ok (formatRecoveryCode <$> random), st2) /\
    AcknowledgeRecoveryCodes t2 st2 = Ok st3 /\
    stEnabled (Status t2 st3) = true /\ stRecoveryRemaining (Status t2 st3) = 10 /\
    (forall code now, code ∈ formatRecoveryCode <$> random -> 0 < now ->
       exists st4, ConsumeRecoveryCode base32 recoveryMac code now st3 = Ok st4 /\
         forall later, ConsumeRecoveryCode base32 recoveryMac code later st4 = Err "invalid recovery code") /\
    (forall now counter, Z.quot t1 Period + 1 < counter -> in_window (Z.quot now Period) counter ->
       exists st4, VerifyTOTP hmac_sha1 base32 openBox (Code hmac_sha1 raw counter Digits) now st3 = (Ok tt, st4)).
Proof.
  intros Hf Hcodes Hadm Hne Hdec Hraw Ht1 Ht2 Hlen Htext Hmap Hnd.
  set (st1 := mkMfaStore (Some (enrolledFactor encrypted t0)) [] (sMfaGeneration st)).
  destruct (confirm_enrolled st1 encrypted secret raw t0 t1 random vs eq_refl eq_refl Hne Hdec Hraw Ht1 Hlen Hmap Hnd) as (counter & Hc & Hconf).
  set (f3 := mkFactor MFAStateActive "" 0 (-1) 0 encrypted counter 1 true t2).
  set (st3 := mkMfaStore (Some f3) (batch 1 t1 vs) (sMfaGeneration st + 1)).
  assert (Hlv : length vs = RecoveryCodeCount).
  { rewrite <- Hlen. symmetry. apply mapM_Some, Forall2_length in Hmap. exact Hmap. }
  assert (Hrows : forall c, c ∈ batch 1 t1 vs -> (cGeneration c =? 1) = true).
  { intros c Hin. apply Z.eqb_eq. apply (batch_rows _ _ _ _ Hin). }
  exists st1, (mkMfaStore (Some (mkFactor MFAStatePendingAcknowledgment encrypted (t0 + MFAPendingTTL) counter 1 "" (-1) 0 false t1))
       (batch 1 t1 vs) (sMfaGeneration st1)), st3. split_and!.
  - unfold BeginEnrollment. rewrite Hadm. cbn [negb]. unfold beginCommit. by rewrite Hf, Hcodes.
  - exact Hconf.
  - unfold AcknowledgeRecoveryCodes. cbn [sFactor mState mPendingRecoveryGeneration mPendingExpiresAt].
    rewrite (proj2 (Z.ltb_lt t2 (t0 + MFAPendingTTL))) by lia. unfold st3. do 2 f_equal. apply filter_all, Hrows.
  - done.
  - unfold Status, st3. cbn [sFactor sCodes f3 mRecoveryGeneration stRecoveryRemaining]. change (0 <? 1) with true. cbv iota.
    rewrite filter_all; [unfold batch; by rewrite length_fmap, Hlv|]. intros c Hin. rewrite (Hrows c Hin).
    destruct (batch_rows _ _ _ _ Hin) as [_ ->]. done.
  - intros code now (c & -> & Hin)%list_elem_of_fmap Hpos.
    assert (Hv : exists v, recoveryVerifier base32 recoveryMac c = Some v /\ v ∈ vs).
    { apply mapM_Some in Hmap. apply list_elem_of_lookup in Hin as [i Hi]. destruct (Forall2_lookup_l _ _ _ _ _ Hmap Hi) as (v & Hv & E).
      exists v. split; [done|]. by apply list_elem_of_lookup_2 in Hv. }
    destruct Hv as (v & Hv & Hvs). apply (consume_once st3 f3 _ v now t1 vs); try done.
    unfold recoveryVerifier in *. rewrite normalize_format by auto.
    by rewrite normalize_text in Hv by auto.
  - intros now k Hk Hw. destruct (Verify_accepts hmac_sha1 base32 secret raw now counter k Hraw Hw ltac:(lia)) as (m & Hm & _).
    destruct (Verify_sound hmac_sha1 base32 _ _ _ _ _ Hm) as (_ & _ & _ & _ & Hlt).
    unfold VerifyTOTP, verifyCheck. cbn [sFactor st3 f3 mState mActiveSecret mLastAcceptedCounter].
    change (isActiveMFAState MFAStateActive) with true. cbn [negb]. rewrite Hdec, Hm. unfold verifyCommit.
    cbn [sFactor st3 f3 mState mActiveSecret mLastAcceptedCounter vfSecret vfCounter]. rewrite String.eqb_refl, (proj2 (Z.ltb_lt _ _) Hlt). by eexists.
Qed.

(** ** Calls that hurt each other *)
Lemma keep_delete g codes : deleteGeneration g (keepGeneration g codes) = [].
Proof. apply filter_none. intros c [_ H]%elem_of_filter_list. by rewrite H. Qed.

(** a [BeginEnrollment] that reads the factor while an enrollment awaits its acknowledgment, and commits after the
    acknowledgment, switches the fresh MFA off without a call of [Disable]: the status turns from enabled to not
    enabled, the acknowledged recovery codes are deleted, and every one-time code is refused, although the active
    secret is still in the row. *)
Theorem stale_enrollment_disables_mfa st f encrypted now later :
  sFactor st = Some f -> mState f = MFAStatePendingAcknowledgment -> mPendingSecret f <> "" -> mActiveSecret f = "" ->
  0 < mPendingRecoveryGeneration f -> now < mPendingExpiresAt f ->
  exists st' stale, AcknowledgeRecoveryCodes now st = Ok st' /\ stEnabled (Status now st') = true /\
    stale = beginCommit encrypted later (Some f) st' /\
    stEnabled (Status later stale) = false /\ stRecoveryRemaining (Status later stale) = 0 /\ has_secret stale /\
    (forall code t, VerifyTOTP hmac_sha1 base32 openBox code t stale = (Err "MFA is not enabled", stale)).
Proof.
  intros Hf Hstate Hpend Hact Hgen Hexp. unfold AcknowledgeRecoveryCodes. rewrite Hf, Hstate.
  rewrite (proj2 (Z.ltb_lt _ _) Hgen), (proj2 (Z.ltb_lt _ _) Hexp). do 2 eexists. split; [reflexivity|].
  unfold acknowledgedFactor. rewrite Hstate. cbn [bool_decide negb]. split; [done|]. split; [reflexivity|]. unfold beginCommit, beginState.
  rewrite (proj2 (Z.ltb_lt _ _) Hgen), Hact. cbn [sCodes sFactor]. rewrite keep_delete. split_and!; [done| | |done].
  - unfold Status. simpl. by destruct (0 <? _).
  - eexists. split; [reflexivity|]. exact Hpend.
Qed.

(** A rotation of recovery codes that is not acknowledged within ten minutes can be neither acknowledged nor repeated. *)
Lemma expired_rotation_stuck st st' codes random now :
  RotateRecoveryCodes base32 recoveryMac now random st = (Ok codes, st') ->
  forall later, now + MFAPendingTTL <= later ->
  AcknowledgeRecoveryCodes later st' = Err "recovery acknowledgement is not pending" /\
  forall more, RotateRecoveryCodes base32 recoveryMac later more st' = (Err "MFA is not enabled", st').
Proof.
  unfold RotateRecoveryCodes at 1. destruct (rotateCheck _ _ now random st) as [r|] eqn:Er; [|done].
  destruct (rotateCommit r st) as [s|] eqn:Ec; [|done]. intros [= _ <-] later Hlate.
  assert (Hnow : rtNow r = now).
  { unfold rotateCheck in Er. destruct (sFactor st) as [f|]; [|done]. destruct (negb _); [done|].
    destruct (generateRecoveryRows _ _ _ _ _) as [[[a b] c]|]; simpl in Er; [|done]. by injection Er as <-. }
  destruct (rotateCommit_ok _ _ _ Ec) as (f & _ & _ & Hf & _). unfold AcknowledgeRecoveryCodes, RotateRecoveryCodes, rotateCheck.
  rewrite Hf. cbn [mState mPendingExpiresAt mPendingRecoveryGeneration]. rewrite Hnow, (proj2 (Z.ltb_ge _ _) Hlate).
  split; [|done]. by rewrite andb_false_r.
Qed.

End Lifecycle.

(** ** Examples *)
Module MfaExample.

(** A sum whose truncation is the low half of the counter, a decoder of base 32 and a box that only prefixes. *)
Definition sum (_ msg : list Z) : list Z := msg ++ [0; 0; 0; 0; 0; 0; 0; 0; 0; 0; 0; 4].

Definition digit32 (c : Ascii.ascii) : option Z :=
  if is_upper c then Some (code c - 65) else if between 50 55 c then Some (code c - 24) else None.

Fixpoint value32 (acc : Z) (s : string) : option Z :=
  match s with
  | "" => Some acc
  | String c rest => match digit32 c with Some d => value32 (acc * 32 + d) rest | None => None end
  end.

Definition decode32 (s : string) : option (list Z) :=
  let bits := 5 * slen s in
  (fun v => (fun i => Z.land (Z.shiftr v (bits - 8 * (Z.of_nat i + 1))) 255) <$> seq 0 (Z.to_nat (bits / 8))) <$> value32 0 s.

Definition box (v : string) : option string := Some (TrimPrefix v boxPrefix).
Definition mac (s : string) : option string := Some s.

Definition secret : string := "JBSWY3DPEHPK3PXPJBSWY3DPEHPK3PXP".
Definition sealed : string := boxPrefix +:+ secret.
Definition random : list string :=
  (fun c => c +:+ "ABCDEFGHIJKLMNOPQRSTUVWXY") <$> ["A"; "B"; "C"; "D"; "E"; "F"; "G"; "H"; "I"; "J"].

Definition step := mfaStep sum decode32 box mac.

Definition st0 : mfaStore := mkMfaStore None [] 1.
Definition st1 : mfaStore := beginCommit sealed 3000000 None st0.
Definition nobody : AdminMFAFactor := enrolledFactor "" 0.
Definition n1 : confirmation :=
  match confirmCheck sum decode32 box mac "100001" 3000030 random st1 with
  | Ok n => n | Err _ => mkConfirmation nobody 0 "" 0 [] [] 0
  end.
Definition st2 : mfaStore := match confirmCommit n1 st1 with Ok s => s | Err _ => st1 end.
Definition st3 : mfaStore := match AcknowledgeRecoveryCodes 3000060 st2 with Ok s => s | Err _ => st2 end.
Definition v1 : verification :=
  match verifyCheck sum decode32 box "100003" 3000090 st3 with Ok v => v | Err _ => mkVerification "" "" 0 0 end.
Definition st4 : mfaStore := match verifyCommit v1 st3 with Ok s => s | Err _ => st3 end.
Definition st5 : mfaStore := match ConsumeRecoveryCode decode32 mac "CABC-DEFG-HIJK-LMNO-PQRS-TUVW-XY" 3000100 st4 with Ok s => s | Err _ => st4 end.

Definition log1 : list mfaEvent := [Enrolled sealed].
Definition log2 : list mfaEvent := AcceptedCode sealed "100001" 100001 3000030 :: Issued (verifiers (fnRows n1)) :: log1.
Definition log3 : list mfaEvent := Acknowledged (verifiers (sCodes st3)) :: log2.
Definition log4 : list mfaEvent := AcceptedCode sealed "100003" 100003 3000090 :: log3.
Definition log5 : list mfaEvent := Consumed "CABCDEFGHIJKLMNOPQRSTUVWXY" :: log4.

(** A second enrollment reads the factor before the acknowledgment. *)
Definition w3 : mfaWorld := mkMfaWorld st3 [BeginCall (sFactor st2)] log3.
Definition w5 : mfaWorld := mkMfaWorld st5 [BeginCall (sFactor st2)] log5.

Lemma fresh1 : fresh_batch (fnRows n1) log1.
Proof.
  split; [apply (bool_decide_eq_true_1 (NoDup (verifiers (fnRows n1)))); vm_compute; reflexivity|].
  intros v _ Hin. change (v ∈ []) in Hin. by apply elem_of_nil in Hin.
Qed.

Lemma acknowledged_reachable : rtc step (new_user 1) w3.
Proof.
  eapply rtc_l; [exact (step_begin_read sum decode32 box mac st0 [] [] 1 "admin" eq_refl)|].
  eapply rtc_l.
  { refine (step_begin_commit sum decode32 box mac st0 [] [] [] None sealed 3000000 _ _); [discriminate|].
    intros Hin. by apply elem_of_nil in Hin. }
  eapply rtc_l.
  { refine (step_confirm_read sum decode32 box mac st1 [] log1 "100001" 3000030 random n1 _). vm_compute. reflexivity. }
  eapply rtc_l.
  { refine (step_confirm_commit sum decode32 box mac st1 st2 [] [] log1 n1 _ fresh1). vm_compute. reflexivity. }
  eapply rtc_l; [exact (step_begin_read sum decode32 box mac st2 [] log2 1 "admin" eq_refl)|].
  eapply rtc_l; [|apply rtc_refl].
  refine (step_acknowledge sum decode32 box mac st2 st3 [BeginCall (sFactor st2)] log2 3000060 _). vm_compute. reflexivity.
Qed.

Lemma used_reachable : rtc step (new_user 1) w5.
Proof.
  etrans; [exact acknowledged_reachable|]. eapply rtc_l.
  { refine (step_verify_read sum decode32 box mac st3 [BeginCall (sFactor st2)] log3 "100003" 3000090 v1 _). vm_compute. reflexivity. }
  eapply rtc_l.
  { refine (step_verify_commit sum decode32 box mac st3 st4 [] [BeginCall (sFactor st2)] log3 v1 _). vm_compute. reflexivity. }
  eapply rtc_l; [|apply rtc_refl].
  refine (step_consume sum decode32 box mac st4 st5 _ log4 "CABC-DEFG-HIJK-LMNO-PQRS-TUVW-XY" "CABCDEFGHIJKLMNOPQRSTUVWXY" 3000100 _ _ _);
    [lia|vm_compute; reflexivity|vm_compute; reflexivity].
Qed.

Lemma totp_codes_single_use_witness :
  rtc step (new_user 1) w5 /\ counters sealed (wLog w5) = [100003; 100001] /\ StronglySorted Z.gt (counters sealed (wLog w5)).
Proof.
  split; [exact used_reachable|]. split; [vm_compute; reflexivity|].
  apply (totp_codes_single_use sum decode32 box mac 1 w5 used_reachable).
Defined.

Lemma recovery_codes_single_use_witness :
  rtc step (new_user 1) w5 /\ consumed (wLog w5) = ["CABCDEFGHIJKLMNOPQRSTUVWXY"] /\ NoDup (consumed (wLog w5)) /\ from_current (wLog w5).
Proof.
  split; [exact used_reachable|]. split; [vm_compute; reflexivity|].
  apply (recovery_codes_single_use sum decode32 box mac 1 w5 used_reachable). vm_compute. reflexivity.
Defined.

Lemma mfa_switched_off_by_witness :
  exists w', step w3 w' /\ stEnabled (Status 3000060 (wStore w3)) = true /\ stEnabled (Status 3000090 (wStore w')) = false /\
  exists current, BeginCall current ∈ wCalls w3 /\ read_no_secret current.
Proof.
  set (other := boxPrefix +:+ "KRSXG5CTMVRXEZLUKRSXG5CTMVRXEZLU").
  assert (Hs : step w3 (mkMfaWorld (beginCommit other 3000090 (sFactor st2) st3) [] (Enrolled other :: log3))).
  { refine (step_begin_commit sum decode32 box mac st3 [] [] log3 (sFactor st2) other 3000090 _ _); [discriminate|].
    intros [H|H]%elem_of_cons; [discriminate H|by apply elem_of_nil in H]. }
  eexists. split; [exact Hs|]. split; [vm_compute; reflexivity|]. split; [vm_compute; reflexivity|].
  destruct (mfa_switched_off_by sum decode32 box mac 1 w3 _ 3000060 3000090 acknowledged_reachable Hs) as [H|(cur & e & H1 & H2 & _)].
  - eexists. split; [vm_compute; reflexivity|]. discriminate.
  - vm_compute. reflexivity.
  - vm_compute. reflexivity.
  - discriminate H.
  - exists cur. by split.
Defined.

Lemma random_text code : code ∈ random -> all_chars base32_char code = true.
Proof. intros (c & -> & Hc)%list_elem_of_fmap. repeat (apply elem_of_cons in Hc as [->|Hc]; [vm_compute; reflexivity|]). by apply elem_of_nil in Hc. Qed.

Lemma enrollment_roundtrip_witness :
  exists raw st3', DecodeSecret decode32 secret = Ok raw /\ stEnabled (Status 3000060 st3') = true /\ stRecoveryRemaining (Status 3000060 st3') = 10.
Proof.
  destruct (DecodeSecret decode32 secret) as [raw|] eqn:Hraw; [|vm_compute in Hraw; discriminate Hraw].
  exists raw.
  destruct (enrollment_roundtrip sum decode32 box mac st0 1 "admin" sealed secret raw random random 3000000 3000030 3000060)
    as (s1 & s2 & s3 & _ & _ & _ & Hen & Hrem & _); try (exact Hraw || reflexivity || discriminate || (unfold MFAPendingTTL; lia) || (vm_compute; reflexivity)).
  - exact random_text.
  - apply (bool_decide_eq_true_1 (NoDup random)). vm_compute. reflexivity.
  - exists s3. by split.
Defined.

Lemma stale_enrollment_disables_mfa_witness :
  exists f stale, sFactor st2 = Some f /\ stEnabled (Status 3000090 stale) = false /\ has_secret stale.
Proof.
  destruct (sFactor st2) as [f|] eqn:Hf; [|vm_compute in Hf; discriminate Hf].
  assert (Hm : mState f = MFAStatePendingAcknowledgment /\ mPendingSecret f <> "" /\ mActiveSecret f = "" /\
    0 < mPendingRecoveryGeneration f /\ 3000060 < mPendingExpiresAt f).
  { vm_compute in Hf. injection Hf as <-. split_and!; reflexivity || discriminate. }
  destruct Hm as (H1 & H2 & H3 & H4 & H5).
  destruct (stale_enrollment_disables_mfa sum decode32 box st2 f sealed 3000060 3000090 Hf H1 H2 H3 H4 H5)
    as (s & stale & _ & _ & _ & Hoff & _ & Hsec & _).
  exists f, stale. by split_and!.
Defined.

End MfaExample.
