(* ===== verification/StepUp.v ===== *)
(** * Step-up grants ([service/step_up.go])

    A sensitive operation asks for a one-time grant, bound to the user, the session,
    the credential and MFA generations, the operation, the target and the assurance
    of the verification that earned it.  [Consume] is one conditional update, so
    concurrent calls are sequences of operations.

    The keyed digest of a token and SHA-256 are parameters; tokens and revisions are
    the outcomes of the random generator and arguments of [Issue].  Times are Unix
    seconds. *)

From S2P Require Import Prelude GoStrings.

Open Scope string_scope.
Open Scope list_scope.
Open Scope Z_scope.

Definition StepUpTTL : Z := 300.
Definition stepUpSessionRefMaxBytes : Z := 256.
Definition stepUpRevisionMaxBytes : Z := 128.
Definition stepUpOperationMaxBytes : Z := 128.

Definition AssurancePassword : string := "password".
Definition AssuranceMFA : string := "mfa".
Definition AssuranceRecovery : string := "recovery".

Record StepUpBinding := mkBinding {
  bUserID : Z;
  bSessionRef : string;
  bSessionGenerationRevision : string;
  bCredentialGeneration : Z;
  bMFAGeneration : Z;
  bClientIdentityRevision : string;
  bOperationKind : string;
  bTargetDigest : string;
  bAssurance : string
}.

Record StepUpGrant := mkGrant {
  gDigest : string;
  gRevision : string;
  gUserID : Z;
  gSessionRef : string;
  gSessionGenerationRevision : string;
  gCredentialGeneration : Z;
  gMFAGeneration : Z;
  gOperationKind : string;
  gTargetDigest : string;
  gAssurance : string;
  gCreatedAt : Z;
  gExpiresAt : Z;
  gConsumedAt : Z
}.

(** [hex.DecodeString] gives that many bytes. *)
Definition is_hex (c : Ascii.ascii) : bool := is_digit c || between 97 102 c || between 65 70 c.

Definition hexBytes (s : string) : option Z :=
  if all_chars is_hex s && Z.even (slen s) then Some (slen s / 2) else None.

Definition validDigestText (s : string) : bool :=
  match hexBytes s with Some n => (n =? 32) && String.eqb s (ToLower s) | None => false end.

Definition validateStepUpBinding (b : StepUpBinding) : bool :=
  let sessionRef := TrimSpace (bSessionRef b) in
  let revision := TrimSpace (bSessionGenerationRevision b) in
  let operation := TrimSpace (bOperationKind b) in
  let targetDigest := TrimSpace (bTargetDigest b) in
  let clientIdentityRevision := TrimSpace (bClientIdentityRevision b) in
  let assurance := TrimSpace (bAssurance b) in
  if (bUserID b =? 0) || String.eqb sessionRef "" || String.eqb revision "" || String.eqb operation "" ||
     (bCredentialGeneration b =? 0) || (bMFAGeneration b =? 0) || String.eqb clientIdentityRevision "" then false
  else if (stepUpSessionRefMaxBytes <? slen sessionRef) || (stepUpRevisionMaxBytes <? slen revision) ||
          (stepUpOperationMaxBytes <? slen operation) then false
  else if negb (validDigestText targetDigest) then false
  else if negb (validDigestText clientIdentityRevision) then false
  else String.eqb assurance AssurancePassword || String.eqb assurance AssuranceMFA || String.eqb assurance AssuranceRecovery.

Section StepUp.
(** The hexadecimal HMAC of a token under the derived key, when the settings can be read, and SHA-256 in hexadecimal. *)
Context (tokenMac : string -> option string) (sha256hex : string -> string).

Definition digest (token : string) : option string :=
  let token := TrimSpace token in
  if (slen token <? 32) || (256 <? slen token) then None else tokenMac token.

Definition newline : string := String nl "".

Definition boundStepUpTargetDigest (targetDigest clientIdentityRevision : string) : string :=
  sha256hex ("step-up-target-client-binding-v1" +:+ newline +:+ targetDigest +:+ newline +:+ clientIdentityRevision +:+ newline).

Definition grantOf (d revision : string) (b : StepUpBinding) (now : Z) : StepUpGrant :=
  mkGrant d revision (bUserID b) (bSessionRef b) (bSessionGenerationRevision b) (bCredentialGeneration b) (bMFAGeneration b)
    (bOperationKind b) (boundStepUpTargetDigest (bTargetDigest b) (bClientIdentityRevision b)) (bAssurance b)
    now (now + StepUpTTL) 0.

(** [Create] under the primary key [digest] and the unique index of [revision]. *)
Definition createGrant (g : StepUpGrant) (table : list StepUpGrant) : option (list StepUpGrant) :=
  if existsb (fun h => String.eqb (gDigest h) (gDigest g) || String.eqb (gRevision h) (gRevision g)) table then None
  else Some (table ++ [g]).

Definition Issue (b : StepUpBinding) (token revision : string) (now : Z) (table : list StepUpGrant) : option (list StepUpGrant) :=
  if negb (validateStepUpBinding b) then None
  else match digest token with None => None | Some d => createGrant (grantOf d revision b now) table end.

(** The condition of the update in [Consume]. *)
Definition grantMatches (d : string) (b : StepUpBinding) (now : Z) (g : StepUpGrant) : bool :=
  String.eqb (gDigest g) d && (gUserID g =? bUserID b) && String.eqb (gSessionRef g) (bSessionRef b) &&
  String.eqb (gSessionGenerationRevision g) (bSessionGenerationRevision b) &&
  (gCredentialGeneration g =? bCredentialGeneration b) && (gMFAGeneration g =? bMFAGeneration b) &&
  String.eqb (gOperationKind g) (bOperationKind b) &&
  String.eqb (gTargetDigest g) (boundStepUpTargetDigest (bTargetDigest b) (bClientIdentityRevision b)) &&
  String.eqb (gAssurance g) (bAssurance b) && (now <? gExpiresAt g) && (gConsumedAt g =? 0).

Definition consumeGrant (at_ : Z) (g : StepUpGrant) : StepUpGrant :=
  mkGrant (gDigest g) (gRevision g) (gUserID g) (gSessionRef g) (gSessionGenerationRevision g) (gCredentialGeneration g)
    (gMFAGeneration g) (gOperationKind g) (gTargetDigest g) (gAssurance g) (gCreatedAt g) (gExpiresAt g) at_.

(** [now] is read for the condition and again for the new value. *)
Definition Consume (token : string) (b : StepUpBinding) (now now2 : Z) (table : list StepUpGrant) : option (list StepUpGrant) :=
  if negb (validateStepUpBinding b) then None
  else
    match digest token with
    | None => None
    | Some d =>
        let hit := grantMatches d b now in
        if negb (bool_decide (length (List.filter hit table) = 1%nat)) then None
        else Some ((fun g => if hit g then consumeGrant now2 g else g) <$> table)
    end.

Definition DeleteExpired (now : Z) (table : list StepUpGrant) : list StepUpGrant :=
  List.filter (fun g => negb ((gExpiresAt g <=? now) || (0 <? gConsumedAt g))) table.

Definition InvalidateUser (userID : Z) (table : list StepUpGrant) : list StepUpGrant :=
  if userID =? 0 then table else List.filter (fun g => negb (gUserID g =? userID)) table.

Definition InvalidateSession (sessionRef : string) (table : list StepUpGrant) : list StepUpGrant :=
  let sessionRef := TrimSpace sessionRef in
  if String.eqb sessionRef "" then table else List.filter (fun g => negb (String.eqb (gSessionRef g) sessionRef)) table.

(** ** Histories *)
Inductive grantEvent :=
| GrantIssued (d : string) (b : StepUpBinding) (now : Z)
| GrantConsumed (d : string) (b : StepUpBinding) (now : Z).

Definition event_digest (e : grantEvent) : string := match e with GrantIssued d _ _ | GrantConsumed d _ _ => d end.

(** Newest event first. *)
Inductive grantStep : list StepUpGrant * list grantEvent -> list StepUpGrant * list grantEvent -> Prop :=
| grant_issue table table' log b token revision now d :
    digest token = Some d -> Issue b token revision now table = Some table' ->
    grantStep (table, log) (table', GrantIssued d b now :: log)
| grant_consume table table' log b token now now2 d :
    digest token = Some d -> 0 < now2 -> Consume token b now now2 table = Some table' ->
    grantStep (table, log) (table', GrantConsumed d b now :: log)
| grant_expire table log now : grantStep (table, log) (DeleteExpired now table, log)
| grant_user table log userID : grantStep (table, log) (InvalidateUser userID table, log)
| grant_session table log ref : grantStep (table, log) (InvalidateSession ref table, log).

(** The last event about a token. *)
Definition last_about (d : string) (log : list grantEvent) : option grantEvent :=
  List.find (fun e => String.eqb (event_digest e) d) log.

(** Two bindings that a grant does not tell apart. *)
Definition same_binding (b b' : StepUpBinding) : Prop :=
  bUserID b = bUserID b' /\ bSessionRef b = bSessionRef b' /\ bSessionGenerationRevision b = bSessionGenerationRevision b' /\
  bCredentialGeneration b = bCredentialGeneration b' /\ bMFAGeneration b = bMFAGeneration b' /\
  bOperationKind b = bOperationKind b' /\ bAssurance b = bAssurance b' /\
  boundStepUpTargetDigest (bTargetDigest b) (bClientIdentityRevision b) =
  boundStepUpTargetDigest (bTargetDigest b') (bClientIdentityRevision b').

(** Every consumption answers an issue of the same token that was not consumed in between. *)
Fixpoint consumptions_earned (log : list grantEvent) : Prop :=
  match log with
  | [] => True
  | GrantConsumed d b now :: rest =>
      (exists b' issuedAt, last_about d rest = Some (GrantIssued d b' issuedAt) /\ same_binding b' b /\ now < issuedAt + StepUpTTL) /\
      consumptions_earned rest
  | _ :: rest => consumptions_earned rest
  end.

(** An unconsumed grant is the last thing that happened to its token. *)
Definition grant_ok (log : list grantEvent) (g : StepUpGrant) : Prop :=
  gConsumedAt g = 0 -> exists b now revision, last_about (gDigest g) log = Some (GrantIssued (gDigest g) b now) /\ g = grantOf (gDigest g) revision b now.

Record grants_ok (s : list StepUpGrant * list grantEvent) : Prop := mkGrantsOk {
  gk_unique : NoDup (gDigest <$> s.1);
  gk_grants : forall g, g ∈ s.1 -> grant_ok s.2 g;
  gk_earned : consumptions_earned s.2
}.

Lemma digests_filter_NoDup (p : StepUpGrant -> bool) table : NoDup (gDigest <$> table) -> NoDup (gDigest <$> List.filter p table).
Proof.
  induction table as [|g table IH]; [done|]. rewrite fmap_cons, NoDup_cons. intros [Hnot Hnd]. simpl.
  destruct (p g); [|auto]. rewrite fmap_cons, NoDup_cons. split; [|auto]. intros Hin. apply Hnot.
  apply list_elem_of_fmap in Hin as (h & -> & Hh). apply list_elem_of_fmap_2. apply list_elem_of_In, filter_In in Hh as [Hh _].
  by apply list_elem_of_In.
Qed.

Lemma grants_filter (p : StepUpGrant -> bool) table log : grants_ok (table, log) -> grants_ok (List.filter p table, log).
Proof.
  intros [H1 H2 H3]. split; simpl in *; [by apply digests_filter_NoDup| |done].
  intros g Hg. apply H2. apply list_elem_of_In, filter_In in Hg as [Hg _]. by apply list_elem_of_In.
Qed.

Lemma last_about_other e log d : event_digest e <> d -> last_about d (e :: log) = last_about d log.
Proof. intros Hne. unfold last_about. simpl. by rewrite (proj2 (String.eqb_neq _ _) Hne). Qed.

Lemma last_about_same e log : last_about (event_digest e) (e :: log) = Some e.
Proof. unfold last_about. simpl. by rewrite String.eqb_refl. Qed.

Lemma grant_ok_other e log g : event_digest e <> gDigest g -> grant_ok log g -> grant_ok (e :: log) g.
Proof. intros Hne H Hz. destruct (H Hz) as (b & now & rev & Hl & Hg). exists b, now, rev. by rewrite last_about_other. Qed.

Lemma issue_grants_ok table table' log b token revision now d :
  grants_ok (table, log) -> digest token = Some d -> Issue b token revision now table = Some table' ->
  grants_ok (table', GrantIssued d b now :: log).
Proof.
  intros [H1 H2 H3] Hd. unfold Issue. destruct (negb _); [done|]. rewrite Hd. unfold createGrant. destruct (existsb _ table) eqn:E; [done|].
  intros [= <-]. simpl in *.
  assert (Hnew : forall g, g ∈ table -> gDigest g <> d).
  { intros g Hg Heq. apply not_true_iff_false in E. apply E, existsb_exists. exists g. split; [by apply list_elem_of_In|].
    simpl. by rewrite Heq, String.eqb_refl. }
  split; simpl; [| |done].
  - rewrite fmap_app, NoDup_app. split_and!; [done| |apply NoDup_singleton].
    intros x (g & -> & Hg)%list_elem_of_fmap Heq%list_elem_of_singleton. by apply (Hnew g Hg).
  - intros g [Hg| ->%list_elem_of_singleton]%elem_of_app.
    + apply grant_ok_other; [|auto]. simpl. intros ->. by apply (Hnew g).
    + intros _. exists b, now, revision. split; [|done]. exact (last_about_same (GrantIssued d b now) log).
Qed.

Lemma grantMatches_spec d b now g :
  grantMatches d b now g = true ->
  gDigest g = d /\ gConsumedAt g = 0 /\ now < gExpiresAt g /\
  forall b' revision t, g = grantOf d revision b' t -> same_binding b' b.
Proof.
  unfold grantMatches. rewrite !andb_true_iff, !String.eqb_eq, !Z.eqb_eq, Z.ltb_lt.
  intros ((((((((((E1 & E2) & E3) & E4) & E5) & E6) & E7) & E8) & E9) & E10) & E11).
  split_and!; try done. intros b' revision t ->. unfold same_binding. simpl in *. by split_and!.
Qed.

Lemma consume_grants_ok table table' log b token now now2 d :
  grants_ok (table, log) -> digest token = Some d -> 0 < now2 -> Consume token b now now2 table = Some table' ->
  grants_ok (table', GrantConsumed d b now :: log).
Proof.
  intros [H1 H2 H3] Hd Hpos. unfold Consume. destruct (negb (validateStepUpBinding b)); [done|]. rewrite Hd.
  case_bool_decide as Hlen; cbn [negb]; [|done]. intros [= <-]. simpl in *.
  destruct (List.filter (grantMatches d b now) table) as [|h l] eqn:Ef; [done|].
  assert (Hh : h ∈ table /\ grantMatches d b now h = true).
  { assert (Hin : In h (List.filter (grantMatches d b now) table)) by (rewrite Ef; by left).
    apply filter_In in Hin. by rewrite list_elem_of_In. }
  destruct Hh as [Hin Hm]. destruct (grantMatches_spec _ _ _ _ Hm) as (Hdig & Hzero & Hexp & Hsame).
  assert (Hdigests : gDigest <$> ((fun g => if grantMatches d b now g then consumeGrant now2 g else g) <$> table) = gDigest <$> table).
  { rewrite <- list_fmap_compose. apply list_fmap_ext. intros i g _. unfold compose. by destruct (grantMatches d b now g). }
  split; simpl; [by rewrite Hdigests| |].
  - intros g (g0 & -> & Hg0)%list_elem_of_fmap. destruct (grantMatches d b now g0) eqn:E0.
    + intros Hz. simpl in Hz. lia.
    + apply grant_ok_other; [|auto]. simpl. intros Heq. assert (Hgh : g0 = h); [|congruence].
      apply list_elem_of_lookup in Hg0 as [i Hi]. apply list_elem_of_lookup in Hin as [j Hj].
      assert (Hij : i = j); [|subst; congruence].
      apply (proj1 (NoDup_alt _) H1 i j d); rewrite list_lookup_fmap, ?Hi, ?Hj; simpl; congruence.
  - split; [|done]. destruct (H2 h Hin Hzero) as (b' & t & revision & Hl & Hg). rewrite Hdig in *. exists b', t.
    split_and!; [done|by apply (Hsame b' revision t)|]. rewrite Hg in Hexp. exact Hexp.
Qed.

Lemma grants_ok_step s s' : grants_ok s -> grantStep s s' -> grants_ok s'.
Proof.
  intros Hok Hs. destruct Hs; [by eapply issue_grants_ok|by eapply consume_grants_ok|by apply grants_filter| |].
  - unfold InvalidateUser. destruct (_ =? 0); [done|by apply grants_filter].
  - unfold InvalidateSession. destruct (String.eqb _ ""); [done|by apply grants_filter].
Qed.

(** C14: in every sequence of issues, consumptions, expirations and invalidations, a consumption answers the latest
    issue of its token, which was not consumed since, with the same user, session, session, credential and MFA
    generations, operation, assurance and bound target, less than five minutes after it was issued; so a grant is
    consumed at most once and for nothing but what it was issued for. *)
Theorem step_up_grants_single_use table log :
  rtc grantStep ([], []) (table, log) -> consumptions_earned log.
Proof.
  intros H. assert (Hg : forall x y, rtc grantStep x y -> grants_ok x -> grants_ok y) by (induction 1; eauto using grants_ok_step).
  apply (gk_earned (table, log)), (Hg _ _ H). split; simpl; [constructor| |done]. intros g Hin. by apply elem_of_nil in Hin.
Qed.

End StepUp.

(** ** Example *)
Module StepUpExample.

Definition mac (token : string) : option string := Some token.
Definition sha (text : string) : string := text.
Definition digest0 : string := "00112233445566778899aabbccddeeff00112233445566778899aabbccddeeff".
Definition binding : StepUpBinding := mkBinding 1 "session" "generation" 1 1 digest0 "mfa.disable" digest0 AssuranceMFA.
Definition token : string := "0123456789abcdef0123456789abcdef0123456789abcdef".

Definition table1 : list StepUpGrant := match Issue mac sha binding token "r1" 1000 [] with Some t => t | None => [] end.
Definition table2 : list StepUpGrant := match Consume mac sha token binding 1100 1100 table1 with Some t => t | None => [] end.
Definition history : list grantEvent := [GrantConsumed token binding 1100; GrantIssued token binding 1000].

Lemma step_up_grants_single_use_witness :
  length table2 = 1%nat /\ Consume mac sha token binding 1101 1101 table2 = None /\ consumptions_earned sha history.
Proof.
  split; [vm_compute; reflexivity|]. split; [vm_compute; reflexivity|].
  apply (step_up_grants_single_use mac sha table2 history).
  eapply rtc_l.
  { refine (grant_issue mac sha [] table1 [] binding token "r1" 1000 token _ _); vm_compute; reflexivity. }
  eapply rtc_l; [|apply rtc_refl].
  refine (grant_consume mac sha table1 table2 _ binding token 1100 1100 token _ _ _); [vm_compute; reflexivity|lia|vm_compute; reflexivity].
Defined.

End StepUpExample.
