(* ===== verification/IpMonitor.v ===== *)
(** * The IP limit of clients ([ipmonitor])

    A client in enforce mode may connect from at most [limit_ip] sources.  Accepted
    sources are held in memory ([pending]), moved to a transaction-owned batch
    ([flushing]), written to the history in the database, and published to a cache of
    policies that is invalidated by a revision counter.  Admission counts the union of
    the three.

    Every critical section of the two mutexes, and every transaction, is one
    operation; concurrent admissions, policy loads, flushes, invalidations, deletions
    of history, observations that bypass the limit ([Record]) and edits of the clients
    are steps of a transition system.  Times are nanoseconds; [last_seen] is in seconds.
    The salt of the installation and SHA-256 are parameters. *)

From S2P Require Import Prelude GoStrings.

Open Scope string_scope.
Open Scope list_scope.
Open Scope Z_scope.

Definition ModeMonitor : string := "monitor".
Definition ModeEnforce : string := "enforce".
Definition allowCacheTTL : Z := 30 * second.

(** ** State *)
Record pendingIP := mkPendingIP { pLastSeen : Z; pDisplay : option string }.

Abbreviation snapshot := (gmap string (gmap string pendingIP)).

Record allowCacheEntry := mkCacheEntry {
  eLimit : Z;
  eMode : string;
  eIps : gset string;
  eExpiresAt : Z
}.

(** A batch of [pending.flushing] is known by its identity, the pointer. *)
Record FlushBatch := mkBatch { fbID : nat; fbSnapshot : snapshot }.

Record monitor := mkMonitor {
  mPending : snapshot;
  mFlushing : list FlushBatch;
  mCache : gmap string allowCacheEntry;
  mRevision : Z
}.

(** The columns of a client that the monitor reads. *)
Record clientRow := mkClientRow { clEnable : bool; clLimitIP : Z; clIPLimitMode : string }.

Record ClientIP := mkClientIP {
  ipClientName : string;
  ipIP : string;
  ipIPHash : string;
  ipDisplay : option string;
  ipFirstSeen : Z;
  ipLastSeen : Z
}.

Definition of_client (c : string) (p : snapshot) : gmap string pendingIP := default ∅ (p !! c).

(** The hashes of a client that batches own. *)
Definition flushing_hashes (c : string) (batches : list FlushBatch) : gset string :=
  ⋃ ((fun b => dom (of_client c (fbSnapshot b))) <$> batches).

(** The map [seen] of [admitPrepared], before the new source. *)
Definition seen (c : string) (e : allowCacheEntry) (m : monitor) : gset string :=
  eIps e ∪ dom (of_client c (mPending m)) ∪ flushing_hashes c (mFlushing m).

(** ** Operations on the cache and the pending sources *)
Definition with_cache (cache : gmap string allowCacheEntry) (m : monitor) : monitor :=
  mkMonitor (mPending m) (mFlushing m) cache (mRevision m).

Definition with_ips (ips : gset string) (e : allowCacheEntry) : allowCacheEntry :=
  mkCacheEntry (eLimit e) (eMode e) ips (eExpiresAt e).

Definition cacheAddIPLocked (c ip : string) (m : monitor) : monitor :=
  match mCache m !! c with
  | None => m
  | Some e => with_cache (<[c := with_ips ({[ip]} ∪ eIps e) e]> (mCache m)) m
  end.

Definition recordLocked (c ipHash : string) (display : option string) (now : Z) (m : monitor) : monitor :=
  let pending := <[c := <[ipHash := mkPendingIP now display]> (of_client c (mPending m))]> (mPending m) in
  cacheAddIPLocked c ipHash (mkMonitor pending (mFlushing m) (mCache m) (mRevision m)).

(** [now] in nanoseconds. *)
Definition admitPrepared (c ipHash : string) (display : option string) (observe : bool) (revision now : Z) (m : monitor)
  : bool * monitor :=
  match mCache m !! c with
  | None => (false, m)
  | Some e =>
      if negb (revision =? mRevision m) || negb (now <? eExpiresAt e) then (false, m)
      else
        let allowed :=
          if String.eqb (eMode e) ModeEnforce && (0 <? eLimit e) then
            bool_decide (ipHash ∈ seen c e m) || (Z.of_nat (size ({[ipHash]} ∪ seen c e m)) <=? eLimit e)
          else true in
        (allowed, if allowed && observe then recordLocked c ipHash display (now / second) m else m)
  end.

Definition bump (m : monitor) : monitor := mkMonitor (mPending m) (mFlushing m) (mCache m) (wrapu64 (mRevision m + 1)).

Definition invalidateCache (c : string) (m : monitor) : monitor := bump (with_cache (delete c (mCache m)) m).
Definition InvalidateAllCache (m : monitor) : monitor := bump (with_cache ∅ m).

Section IpMonitor.
(** The installation salt, when it can be read, SHA-256 in hexadecimal, and the clients. *)
Context (salt : option string) (sha256hex : string -> string) (clients : gmap string clientRow).

Definition hashIP (ip : string) : option string := (fun s => sha256hex (s +:+ ip)) <$> salt.

Definition is_hex_digit (c : Ascii.ascii) : bool := is_digit c || between 97 102 c || between 65 70 c.

Definition looksLikeSHA256Hex (value : string) : bool := (slen value =? 64) && all_chars is_hex_digit value.

(** The hash of a row of the history; rows of older versions may hold the address itself. *)
Definition rowHash (r : ClientIP) : option string :=
  if negb (String.eqb (ipIPHash r) "") then Some (ipIPHash r)
  else if String.eqb (ipIP r) "" then Some ""
  else if looksLikeSHA256Hex (ipIP r) then Some (ipIP r) else hashIP (ipIP r).

Definition rows_of_client (c : string) (rows : list ClientIP) : list ClientIP :=
  List.filter (fun r => String.eqb (ipClientName r) c) rows.

(** The hashes that a list of rows contributes; an empty hash is skipped. *)
Definition hashes (rows : list ClientIP) : gset string :=
  list_to_set (omap (fun r => match rowHash r with Some h => if String.eqb h "" then None else Some h | None => None end) rows).

(** [hashLegacyIPValue]: a failure is an empty hash. *)
Definition hashLegacyIPValue (ip : string) : string := if looksLikeSHA256Hex ip then ip else default "" (hashIP ip).

Definition warmHash (r : ClientIP) : string :=
  if String.eqb (ipIPHash r) "" then hashLegacyIPValue (ipIP r) else ipIPHash r.

Definition warmHashes (rows : list ClientIP) : gset string :=
  list_to_set (List.filter (fun h => negb (String.eqb h "")) (warmHash <$> rows)).

(** [None] when the policy cannot be loaded. *)
Definition loadCacheEntry (c : string) (rows : list ClientIP) (now : Z) : option allowCacheEntry :=
  match clients !! c with
  | None => None
  | Some client =>
      if negb (clEnable client) then Some (mkCacheEntry 0 "" ∅ (now + allowCacheTTL))
      else if negb (String.eqb (clIPLimitMode client) ModeEnforce) || (clLimitIP client <=? 0)
      then Some (mkCacheEntry (clLimitIP client) (clIPLimitMode client) ∅ (now + allowCacheTTL))
      else if forallb (fun r => match rowHash r with Some _ => true | None => false end) (rows_of_client c rows)
      then Some (mkCacheEntry (clLimitIP client) (clIPLimitMode client) (hashes (rows_of_client c rows)) (now + allowCacheTTL))
      else None
  end.

(** The first critical section of the refresh: whether a load is needed, after dropping an expired entry. *)
Definition refreshStart (c : string) (revision now : Z) (m : monitor) : option monitor :=
  if negb (revision =? mRevision m) then None
  else
    match mCache m !! c with
    | Some e => if now <? eExpiresAt e then None else Some (with_cache (delete c (mCache m)) m)
    | None => Some m
    end.

(** The last one: a loaded policy is stored unless the cache was invalidated. *)
Definition refreshStore (c : string) (revision now : Z) (e : allowCacheEntry) (m : monitor) : monitor :=
  if negb (revision =? mRevision m) then m
  else with_cache (<[c := mkCacheEntry (eLimit e) (eMode e) (eIps e) (now + allowCacheTTL)]> (mCache m)) m.

Definition enforced (client : clientRow) : bool :=
  clEnable client && String.eqb (clIPLimitMode client) ModeEnforce && (0 <? clLimitIP client).

Definition loadActiveEnforceEntries (rows : list ClientIP) (now : Z) : gmap string allowCacheEntry :=
  map_imap (fun c client =>
    if enforced client
    then Some (mkCacheEntry (clLimitIP client) (clIPLimitMode client) (warmHashes (rows_of_client c rows)) (now + allowCacheTTL))
    else None) clients.

(** At start-up, before the first connection; it fails without a salt. *)
Definition WarmUp (rows : list ClientIP) (now : Z) (m : monitor) : option monitor :=
  match salt with
  | None => None
  | Some _ => Some (bump (with_cache (loadActiveEnforceEntries rows now) m))
  end.

(** [Record]: an observation without a decision, unless the policies changed since
    [revision] was read. *)
Definition RecordIP (c ip : string) (display : option string) (revision now : Z) (m : monitor) : monitor :=
  if String.eqb c "" || String.eqb ip "" then m
  else
    match hashIP ip with
    | None => m
    | Some ipHash => if negb (revision =? mRevision m) then m else recordLocked c ipHash display now m
    end.

(** ** Flushing *)
Definition BeginFlush (id : nat) (m : monitor) : FlushBatch * monitor :=
  let batch := mkBatch id (mPending m) in
  (batch, mkMonitor ∅ (if bool_decide (mPending m = ∅) then mFlushing m else batch :: mFlushing m) (mCache m) (mRevision m)).

Definition upsertRow (c ipHash : string) (item : pendingIP) (rows : list ClientIP) : list ClientIP :=
  let same r := String.eqb (ipClientName r) c && String.eqb (ipIPHash r) ipHash in
  if existsb same rows then
    (fun r => if same r then mkClientIP (ipClientName r) (ipIP r) (ipIPHash r) (pDisplay item) (ipFirstSeen r) (pLastSeen item) else r) <$> rows
  else rows ++ [mkClientIP c "" ipHash (pDisplay item) (pLastSeen item) (pLastSeen item)].

(** [flushSnapshot], on the history. *)
Definition flushSnapshot (s : snapshot) (rows : list ClientIP) : list ClientIP :=
  foldl (fun rows kv => foldl (fun rows item => upsertRow kv.1 item.1 item.2 rows) rows (map_to_list kv.2)) rows (map_to_list s).

Definition mergePending (current observation : pendingIP) : pendingIP :=
  if pLastSeen current <? pLastSeen observation then observation else current.

Definition requeuePendingSnapshotLocked (s pending : snapshot) : snapshot :=
  union_with (fun current observations =>
    Some (union_with (fun a b => Some (mergePending a b)) current observations)) pending s.

Definition is_batch (id : nat) (b : FlushBatch) : bool := Nat.eqb (fbID b) id.

Definition drop_batch (id : nat) (batches : list FlushBatch) : list FlushBatch :=
  List.filter (fun b => negb (is_batch id b)) batches.

Definition Requeue (b : FlushBatch) (m : monitor) : monitor :=
  if existsb (is_batch (fbID b)) (mFlushing m) then
    mkMonitor (requeuePendingSnapshotLocked (fbSnapshot b) (mPending m)) (drop_batch (fbID b) (mFlushing m)) (mCache m) (mRevision m)
  else m.

(** Every hash of the batch is added to the cached policy of its client, if there is one. *)
Definition cacheAddBatch (s : snapshot) (cache : gmap string allowCacheEntry) : gmap string allowCacheEntry :=
  map_imap (fun c e => Some (with_ips (eIps e ∪ dom (of_client c s)) e)) cache.

Definition Commit (b : FlushBatch) (m : monitor) : monitor :=
  if existsb (is_batch (fbID b)) (mFlushing m) then
    mkMonitor (mPending m) (drop_batch (fbID b) (mFlushing m)) (cacheAddBatch (fbSnapshot b) (mCache m)) (wrapu64 (mRevision m + 1))
  else m.

(** ** Deletions of history *)
Definition clearHistory (c : string) (rows : list ClientIP) : list ClientIP :=
  List.filter (fun r => negb (String.eqb (ipClientName r) c)) rows.

Definition pruneHistory (before : Z) (rows : list ClientIP) : list ClientIP :=
  List.filter (fun r => negb (ipLastSeen r <? before)) rows.

(** ** Histories *)

(** A policy load in flight: its client, the revision it read, and the policy once it is loaded. *)
Record load := mkLoad { ldClient : string; ldRevision : Z; ldEntry : option allowCacheEntry }.

(** A flush in flight, and whether its transaction has committed. *)
Record flush := mkFlush { flBatch : FlushBatch; flWritten : bool }.

Record ipWorld := mkIpWorld { wMonitor : monitor; wRows : list ClientIP; wLoads : list load; wFlushes : list flush }.

(** Steps that delete history, and those that record a source of a client without a
    decision, are told apart. *)
Inductive kind := Keeps | Deletes | Records (c : string).

Inductive ipStep : kind -> ipWorld -> ipWorld -> Prop :=
| ip_admit m rows loads flushes c ip h display observe revision now :
    hashIP ip = Some h ->
    ipStep Keeps (mkIpWorld m rows loads flushes)
      (mkIpWorld (admitPrepared c h display observe revision now m).2 rows loads flushes)
| ip_refresh_start m m' rows loads flushes c revision now :
    refreshStart c revision now m = Some m' ->
    (forall l, l ∈ loads -> ldClient l = c -> ldRevision l <> revision) ->
    ipStep Keeps (mkIpWorld m rows loads flushes) (mkIpWorld m' rows (mkLoad c revision None :: loads) flushes)
| ip_refresh_load m rows l1 l2 flushes c revision now e :
    loadCacheEntry c rows now = Some e ->
    ipStep Keeps (mkIpWorld m rows (l1 ++ mkLoad c revision None :: l2) flushes)
      (mkIpWorld m rows (l1 ++ mkLoad c revision (Some e) :: l2) flushes)
| ip_refresh_store m rows l1 l2 flushes c revision now e :
    ipStep Keeps (mkIpWorld m rows (l1 ++ mkLoad c revision (Some e) :: l2) flushes)
      (mkIpWorld (refreshStore c revision now e m) rows (l1 ++ l2) flushes)
| ip_refresh_fail m rows l1 l2 flushes c revision :
    ipStep Keeps (mkIpWorld m rows (l1 ++ mkLoad c revision None :: l2) flushes) (mkIpWorld m rows (l1 ++ l2) flushes)
| ip_flush_begin m rows loads flushes id :
    (forall b, b ∈ mFlushing m -> fbID b <> id) -> (forall f, f ∈ flushes -> fbID (flBatch f) <> id) ->
    ipStep Keeps (mkIpWorld m rows loads flushes)
      (mkIpWorld (BeginFlush id m).2 rows loads (mkFlush (BeginFlush id m).1 false :: flushes))
| ip_flush_write m rows loads l1 l2 b :
    ipStep Keeps (mkIpWorld m rows loads (l1 ++ mkFlush b false :: l2))
      (mkIpWorld m (flushSnapshot (fbSnapshot b) rows) loads (l1 ++ mkFlush b true :: l2))
| ip_flush_commit m rows loads l1 l2 b :
    ipStep Keeps (mkIpWorld m rows loads (l1 ++ mkFlush b true :: l2)) (mkIpWorld (Commit b m) rows loads (l1 ++ l2))
| ip_flush_requeue m rows loads l1 l2 b written :
    ipStep Keeps (mkIpWorld m rows loads (l1 ++ mkFlush b written :: l2)) (mkIpWorld (Requeue b m) rows loads (l1 ++ l2))
| ip_warm_up m m' rows loads flushes now :
    WarmUp rows now m = Some m' -> ipStep Keeps (mkIpWorld m rows loads flushes) (mkIpWorld m' rows loads flushes)
| ip_invalidate m rows loads flushes c :
    ipStep Keeps (mkIpWorld m rows loads flushes) (mkIpWorld (invalidateCache c m) rows loads flushes)
| ip_invalidate_all m rows loads flushes :
    ipStep Keeps (mkIpWorld m rows loads flushes) (mkIpWorld (InvalidateAllCache m) rows loads flushes)
| ip_clear m rows loads flushes c :
    ipStep Deletes (mkIpWorld m rows loads flushes) (mkIpWorld m (clearHistory c rows) loads flushes)
| ip_prune m rows loads flushes before :
    ipStep Deletes (mkIpWorld m rows loads flushes) (mkIpWorld m (pruneHistory before rows) loads flushes)
| ip_record m rows loads flushes c ip display revision now :
    ipStep (Records c) (mkIpWorld m rows loads flushes) (mkIpWorld (RecordIP c ip display revision now m) rows loads flushes).

Definition anyStep (w w' : ipWorld) : Prop := exists k, ipStep k w w'.

Definition fresh_monitor : monitor := mkMonitor ∅ [] ∅ 0.
Definition started (rows : list ClientIP) : ipWorld := mkIpWorld fresh_monitor rows [] [].

(** The sources of a client: those of its history, those in memory and those on their way to the history. *)
Definition sources (c : string) (w : ipWorld) : gset string :=
  hashes (rows_of_client c (wRows w)) ∪ dom (of_client c (mPending (wMonitor w))) ∪ flushing_hashes c (mFlushing (wMonitor w)).

(** ** Sets of sources *)
Definition held (c : string) (m : monitor) : gset string := dom (of_client c (mPending m)) ∪ flushing_hashes c (mFlushing m).

Lemma seen_held c e m : seen c e m = eIps e ∪ held c m.
Proof. unfold seen, held. set_solver. Qed.

Lemma sources_held c w : sources c w = hashes (rows_of_client c (wRows w)) ∪ held c (wMonitor w).
Proof. unfold sources, held. set_solver. Qed.

Lemma elem_of_flushing h c bs : h ∈ flushing_hashes c bs <-> exists b, b ∈ bs /\ h ∈ dom (of_client c (fbSnapshot b)).
Proof.
  unfold flushing_hashes. rewrite elem_of_union_list. split.
  - intros (X & (b & -> & Hb)%list_elem_of_fmap & Hh). eauto.
  - intros (b & Hb & Hh). exists (dom (of_client c (fbSnapshot b))). split; [|done]. by apply (list_elem_of_fmap_2 (fun b => dom (of_client c (fbSnapshot b)))).
Qed.

Lemma elem_of_drop id b bs : b ∈ drop_batch id bs <-> b ∈ bs /\ fbID b <> id.
Proof. unfold drop_batch, is_batch. by rewrite list_elem_of_In, filter_In, <- list_elem_of_In, negb_true_iff, Nat.eqb_neq. Qed.

Lemma unique_batch bs b b' : NoDup (fbID <$> bs) -> b ∈ bs -> b' ∈ bs -> fbID b = fbID b' -> b = b'.
Proof.
  intros Hnd [i Hi]%list_elem_of_lookup [j Hj]%list_elem_of_lookup He.
  assert (i = j); [|subst; congruence].
  apply (proj1 (NoDup_alt _) Hnd i j (fbID b)); rewrite list_lookup_fmap, ?Hi, ?Hj; simpl; congruence.
Qed.

Lemma flushing_drop c b bs :
  NoDup (fbID <$> bs) -> b ∈ bs ->
  flushing_hashes c bs = dom (of_client c (fbSnapshot b)) ∪ flushing_hashes c (drop_batch (fbID b) bs).
Proof.
  intros Hnd Hb. apply set_eq. intros h. rewrite elem_of_union, !elem_of_flushing. split.
  - intros (b' & Hb' & Hh). destruct (decide (fbID b' = fbID b)) as [He|He].
    + left. by rewrite (unique_batch bs b b') by done.
    + right. exists b'. by rewrite elem_of_drop.
  - intros [Hh|(b' & [Hb' _]%elem_of_drop & Hh)]; eauto.
Qed.

Lemma drop_batch_NoDup id bs : NoDup (fbID <$> bs) -> NoDup (fbID <$> drop_batch id bs).
Proof.
  unfold drop_batch. induction bs as [|b bs IH]; [done|]. rewrite fmap_cons, NoDup_cons. intros [Hn Hnd]. simpl.
  destruct (negb (is_batch id b)); [|auto]. rewrite fmap_cons, NoDup_cons. split; [|auto].
  intros (b' & He & [Hb' _]%elem_of_drop)%list_elem_of_fmap. apply Hn. rewrite He. by apply list_elem_of_fmap_2.
Qed.

Lemma existsb_batch id bs : existsb (is_batch id) bs = true <-> exists b, b ∈ bs /\ fbID b = id.
Proof.
  rewrite existsb_exists. split; intros (b & Hb & He); exists b; [rewrite list_elem_of_In|rewrite <- list_elem_of_In]; split; try done;
    [by apply Nat.eqb_eq|by apply Nat.eqb_eq].
Qed.

Lemma dom_merge_pending (x y : gmap string pendingIP) :
  dom (union_with (fun a b => Some (mergePending a b)) x y) = dom x ∪ dom y.
Proof.
  apply set_eq. intros h. rewrite elem_of_union, !elem_of_dom, lookup_union_with.
  destruct (x !! h), (y !! h); cbn; unfold is_Some; naive_solver.
Qed.

Lemma requeue_dom c s p : dom (of_client c (requeuePendingSnapshotLocked s p)) = dom (of_client c p) ∪ dom (of_client c s).
Proof.
  unfold of_client, requeuePendingSnapshotLocked. rewrite lookup_union_with.
  destruct (p !! c) as [x|], (s !! c) as [y|]; cbn [union_with option_union_with default from_option id].
  - apply dom_merge_pending.
  - set_solver.
  - set_solver.
  - set_solver.
Qed.

(** *** Rows *)
Lemma elem_of_hashes h rows : h ∈ hashes rows <-> h <> "" /\ exists r, r ∈ rows /\ rowHash r = Some h.
Proof.
  unfold hashes. rewrite elem_of_list_to_set, list_elem_of_omap. split.
  - intros (r & Hr & He). destruct (rowHash r) as [h'|] eqn:E; [|done]. destruct (String.eqb_spec h' ""); [done|]. injection He as ->. eauto.
  - intros (Hne & r & Hr & He). exists r. split; [done|]. rewrite He. by rewrite (proj2 (String.eqb_neq _ _) Hne).
Qed.

Lemma elem_of_rows_of r c rows : r ∈ rows_of_client c rows <-> r ∈ rows /\ ipClientName r = c.
Proof. unfold rows_of_client. by rewrite list_elem_of_In, filter_In, <- list_elem_of_In, String.eqb_eq. Qed.

Lemma hashes_mono c rows rows' : (forall r, r ∈ rows -> r ∈ rows') -> hashes (rows_of_client c rows) ⊆ hashes (rows_of_client c rows').
Proof.
  intros H h. rewrite !elem_of_hashes. intros (Hne & r & [Hr Hc]%elem_of_rows_of & He). split; [done|]. exists r.
  split; [|done]. apply elem_of_rows_of. auto.
Qed.

Lemma elem_of_kept {A} (f : A -> bool) x l : x ∈ List.filter f l -> x ∈ l.
Proof. rewrite !list_elem_of_In, filter_In. tauto. Qed.

(** What an upsert does to the hashes of a client. *)
Lemma upsert_hashes c c' h item rows :
  hashes (rows_of_client c (upsertRow c' h item rows)) ⊆ hashes (rows_of_client c rows) ∪ (if decide (c' = c) then {[h]} else ∅) /\
  hashes (rows_of_client c rows) ⊆ hashes (rows_of_client c (upsertRow c' h item rows)) /\
  (h <> "" -> h ∈ hashes (rows_of_client c' (upsertRow c' h item rows))).
Proof.
  unfold upsertRow. cbv zeta. set (same := fun r => String.eqb (ipClientName r) c' && String.eqb (ipIPHash r) h).
  set (touch := fun r => if String.eqb (ipClientName r) c' && String.eqb (ipIPHash r) h then mkClientIP (ipClientName r) (ipIP r) (ipIPHash r) (pDisplay item) (ipFirstSeen r) (pLastSeen item) else r).
  assert (Htouch : forall r, ipClientName (touch r) = ipClientName r /\ rowHash (touch r) = rowHash r).
  { intros r. unfold touch. by destruct (_ && _). }
  destruct (existsb same rows) eqn:E.
  - assert (Heq : forall c0 x, x ∈ hashes (rows_of_client c0 (touch <$> rows)) <-> x ∈ hashes (rows_of_client c0 rows)).
    { intros c0 x. rewrite !elem_of_hashes. split; intros (Hne & r & [Hr Hc]%elem_of_rows_of & He); (split; [done|]).
      - apply list_elem_of_fmap in Hr as (r0 & -> & Hr0). destruct (Htouch r0) as [E1 E2]. exists r0. rewrite elem_of_rows_of. split_and!; congruence.
      - exists (touch r). destruct (Htouch r) as [E1 E2]. rewrite elem_of_rows_of. split_and!; [by apply list_elem_of_fmap_2|congruence|congruence]. }
    split_and!; [intros x; rewrite Heq; set_solver|intros x; by rewrite Heq|]. intros Hne. apply Heq, elem_of_hashes. split; [done|].
    apply existsb_exists in E as (r & Hr%list_elem_of_In & [Hc%String.eqb_eq Hh%String.eqb_eq]%andb_true_iff). exists r.
    rewrite elem_of_rows_of. split; [done|]. unfold rowHash. by rewrite Hh, (proj2 (String.eqb_neq _ _) Hne).
  - split_and!.
    + intros x. rewrite elem_of_union, !elem_of_hashes. intros (Hne & r & [[Hr|Hr]%elem_of_app Hc]%elem_of_rows_of & He).
      * left. split; [done|]. exists r. by rewrite elem_of_rows_of.
      * apply list_elem_of_singleton in Hr as ->. simpl in Hc. subst c'. rewrite decide_True by done. right. apply elem_of_singleton.
        unfold rowHash in He. simpl in He. destruct (String.eqb_spec h ""); simpl in He; congruence.
    + apply hashes_mono. intros r Hr. apply elem_of_app. by left.
    + intros Hne. apply elem_of_hashes. split; [done|]. eexists. rewrite elem_of_rows_of, elem_of_app, list_elem_of_singleton.
      split; [split; [by right|done]|]. unfold rowHash. simpl. by rewrite (proj2 (String.eqb_neq _ _) Hne).
Qed.

Definition writes (c' : string) (rows : list ClientIP) (items : list (string * pendingIP)) : list ClientIP :=
  foldl (fun rows item => upsertRow c' item.1 item.2 rows) rows items.

Lemma writes_hashes c c' items rows :
  hashes (rows_of_client c (writes c' rows items)) ⊆ hashes (rows_of_client c rows) ∪ (if decide (c' = c) then list_to_set items.*1 else ∅) /\
  hashes (rows_of_client c rows) ⊆ hashes (rows_of_client c (writes c' rows items)) /\
  (c' = c -> forall h, h <> "" -> h ∈ items.*1 -> h ∈ hashes (rows_of_client c (writes c' rows items))).
Proof.
  revert rows. induction items as [|[h item] items IH]; intros rows; simpl.
  - split_and!; [set_solver|done|]. intros _ h _ Hin. by apply elem_of_nil in Hin.
  - destruct (IH (upsertRow c' h item rows)) as (H1 & H2 & H3). destruct (upsert_hashes c c' h item rows) as (U1 & U2 & U3).
    split_and!.
    + etrans; [exact H1|]. destruct (decide (c' = c)); set_solver.
    + etrans; [exact U2|exact H2].
    + intros -> x Hne [->|Hx]%elem_of_cons; [|by apply H3]. by apply H2, U3.
Qed.

Lemma flush_list_hashes c (l : list (string * gmap string pendingIP)) rows :
  NoDup l.*1 ->
  let rows' := foldl (fun rows kv => writes kv.1 rows (map_to_list kv.2)) rows l in
  hashes (rows_of_client c rows') ⊆ hashes (rows_of_client c rows) ∪ ⋃ ((fun kv => if decide (kv.1 = c) then dom kv.2 else ∅) <$> l) /\
  hashes (rows_of_client c rows) ⊆ hashes (rows_of_client c rows') /\
  (forall p h, (c, p) ∈ l -> h <> "" -> h ∈ dom p -> h ∈ hashes (rows_of_client c rows')).
Proof.
  cbv zeta. revert rows. induction l as [|[c' p] l IH]; intros rows Hnd; simpl.
  - split_and!; [set_solver|done|]. intros p h Hin. by apply elem_of_nil in Hin.
  - apply NoDup_cons in Hnd as [_ Hnd]. destruct (IH (writes c' rows (map_to_list p)) Hnd) as (H1 & H2 & H3).
    destruct (writes_hashes c c' (map_to_list p) rows) as (W1 & W2 & W3).
    assert (Hdom : forall h, h ∈ dom p <-> h ∈ (map_to_list p).*1).
    { intros h. rewrite elem_of_dom, list_elem_of_fmap. split.
      - intros [x Hx]. exists (h, x). by rewrite elem_of_map_to_list.
      - intros ([h' x] & -> & Hx%elem_of_map_to_list). by exists x. }
    split_and!.
    + etrans; [exact H1|]. intros x [Hx|Hx]%elem_of_union; [|set_solver]. apply W1 in Hx.
      destruct (decide (c' = c)); [|set_solver]. rewrite elem_of_union, elem_of_list_to_set, <- Hdom in Hx. set_solver.
    + etrans; [exact W2|exact H2].
    + intros q h [Heq|Hin]%elem_of_cons Hne Hh; [|by apply (H3 q)]. injection Heq as <- <-. apply H2, W3; [done|done|]. by apply Hdom.
Qed.

Lemma flushSnapshot_hashes c s rows :
  hashes (rows_of_client c (flushSnapshot s rows)) ⊆ hashes (rows_of_client c rows) ∪ dom (of_client c s) /\
  hashes (rows_of_client c rows) ⊆ hashes (rows_of_client c (flushSnapshot s rows)) /\
  (forall h, h <> "" -> h ∈ dom (of_client c s) -> h ∈ hashes (rows_of_client c (flushSnapshot s rows))).
Proof.
  destruct (flush_list_hashes c (map_to_list s) rows (NoDup_fst_map_to_list s)) as (H1 & H2 & H3).
  unfold flushSnapshot. fold writes. split_and!; [|exact H2|].
  - etrans; [exact H1|]. apply union_mono_l. intros h (X & ([c' p] & -> & Hin%elem_of_map_to_list)%list_elem_of_fmap & Hh)%elem_of_union_list.
    simpl in Hh. destruct (decide (c' = c)) as [->|]; [|set_solver]. unfold of_client. by rewrite Hin.
  - intros h Hne Hh. unfold of_client in Hh. destruct (s !! c) as [p|] eqn:E; simpl in Hh; [|set_solver].
    by apply (H3 p); [apply elem_of_map_to_list| |].
Qed.

(** ** Invariant *)
Definition sourced (r : ClientIP) : Prop := ipIPHash r <> "" \/ ipIP r <> "".

Definition no_blank (s : snapshot) : Prop := forall c, "" ∉ dom (of_client c s).

Record plumbing (n : Z) (w : ipWorld) : Prop := mkPlumbing {
  pl_revision : 0 <= mRevision (wMonitor w) <= n;
  pl_loads_le : forall l, l ∈ wLoads w -> ldRevision l <= mRevision (wMonitor w);
  pl_loads_once : NoDup ((fun l => (ldClient l, ldRevision l)) <$> wLoads w);
  pl_ids : NoDup (fbID <$> mFlushing (wMonitor w));
  pl_flush_ids : NoDup ((fun f => fbID (flBatch f)) <$> wFlushes w);
  pl_flushes : forall f, f ∈ wFlushes w -> flBatch f ∈ mFlushing (wMonitor w) \/
    (fbSnapshot (flBatch f) = ∅ /\ forall b, b ∈ mFlushing (wMonitor w) -> fbID b <> fbID (flBatch f));
  pl_rows : forall r, r ∈ wRows w -> sourced r;
  pl_pending : no_blank (mPending (wMonitor w));
  pl_batches : forall b, b ∈ mFlushing (wMonitor w) -> no_blank (fbSnapshot b)
}.

Context (sha_not_blank : forall s, sha256hex s <> "").

Lemma of_client_empty c : dom (of_client c (∅ : snapshot)) = ∅.
Proof. unfold of_client. rewrite lookup_empty. simpl. apply dom_empty_L. Qed.

Lemma of_client_insert c c' x (p : snapshot) : of_client c (<[c' := x]> p) = if decide (c' = c) then x else of_client c p.
Proof. unfold of_client. destruct (decide (c' = c)) as [->|Hne]; [by rewrite lookup_insert_eq|by rewrite lookup_insert_ne]. Qed.

(** What a decision may change. *)
Lemma admit_effect c h display observe revision now m :
  let m' := (admitPrepared c h display observe revision now m).2 in
  mFlushing m' = mFlushing m /\ mRevision m' = mRevision m /\
  (m' = m \/ exists e, mCache m !! c = Some e /\ (admitPrepared c h display observe revision now m).1 = true /\ revision = mRevision m /\
     mPending m' = <[c := <[h := mkPendingIP (now / second) display]> (of_client c (mPending m))]> (mPending m) /\
     mCache m' = <[c := with_ips ({[h]} ∪ eIps e) e]> (mCache m)).
Proof.
  cbv zeta. unfold admitPrepared. destruct (mCache m !! c) as [e|] eqn:Ee; [|simpl; auto].
  destruct (Z.eqb_spec revision (mRevision m)) as [->|]; cbn [negb orb]; [|simpl; auto]. destruct (now <? eExpiresAt e); cbn [negb]; [|simpl; auto].
  set (allowed := if _ && _ then _ else _). destruct (allowed && observe) eqn:Ea; simpl; [|auto].
  unfold recordLocked, cacheAddIPLocked. cbn [mCache]. rewrite Ee. split_and!; try done. right. exists e.
  apply andb_true_iff in Ea as [-> _]. done.
Qed.

(** What a bare observation may change. *)
Lemma record_effect c ip display revision now m :
  let m' := RecordIP c ip display revision now m in
  m' = m \/ exists h, hashIP ip = Some h /\ mFlushing m' = mFlushing m /\ mRevision m' = mRevision m /\
    mPending m' = <[c := <[h := mkPendingIP now display]> (of_client c (mPending m))]> (mPending m) /\ (forall c', c <> c' -> mCache m' !! c' = mCache m !! c').
Proof.
  cbv zeta. unfold RecordIP. destruct (_ || _); [by left|]. destruct (hashIP ip) as [h|]; [|by left]. destruct (negb _); [by left|]. right. exists h.
  unfold recordLocked, cacheAddIPLocked. cbn [mCache]. destruct (mCache m !! c) as [e|]; simpl; split_and!; try done. intros c' Hne. by rewrite lookup_insert_ne.
Qed.

Lemma no_blank_insert c h item (p : snapshot) :
  no_blank p -> h <> "" -> no_blank (<[c := <[h := item]> (of_client c p)]> p).
Proof.
  intros Hp Hh c'. rewrite of_client_insert. destruct (decide (c = c')) as [->|]; [|apply Hp].
  rewrite dom_insert, elem_of_union, elem_of_singleton. intros [He|He]; [by apply Hh|by apply (Hp c')].
Qed.

Lemma no_blank_requeue s p : no_blank s -> no_blank p -> no_blank (requeuePendingSnapshotLocked s p).
Proof. intros Hs Hp c. rewrite requeue_dom, elem_of_union. intros [H|H]; [by apply (Hp c)|by apply (Hs c)]. Qed.

Lemma upsert_sourced c h item rows : h <> "" -> (forall r, r ∈ rows -> sourced r) -> forall r, r ∈ upsertRow c h item rows -> sourced r.
Proof.
  intros Hh Hs r. unfold upsertRow. cbv zeta. destruct (existsb _ _).
  - intros (r0 & -> & Hr0)%list_elem_of_fmap. destruct (_ && _); [|auto]. exact (Hs r0 Hr0).
  - intros [Hr| ->%list_elem_of_singleton]%elem_of_app; [auto|]. by left.
Qed.

Lemma flush_sourced s rows : no_blank s -> (forall r, r ∈ rows -> sourced r) -> forall r, r ∈ flushSnapshot s rows -> sourced r.
Proof.
  intros Hs. unfold flushSnapshot.
  assert (Hitems : forall kv, kv ∈ map_to_list s -> forall item, item ∈ map_to_list kv.2 -> item.1 <> "").
  { intros [c p] Hin%elem_of_map_to_list [h x] Hx%elem_of_map_to_list Hh. simpl in *. subst h. apply (Hs c). unfold of_client. rewrite Hin.
    apply elem_of_dom. by exists x. }
  revert Hitems. generalize (map_to_list s). intros l. revert rows.
  induction l as [|[c p] l IH]; intros rows Hl Hr; [done|]. simpl. apply IH; [intros kv Hkv; apply Hl; by apply list_elem_of_further|].
  specialize (Hl (c, p) (list_elem_of_here _ _)). simpl in Hl. revert rows Hr Hl. generalize (map_to_list p). intros items. clear.
  induction items as [|[h x] items IH]; intros rows Hr Hl; [done|]. simpl. apply IH.
  - apply upsert_sourced; [|done]. apply (Hl (h, x)). apply list_elem_of_here.
  - intros it Hit. apply Hl. by apply list_elem_of_further.
Qed.

(** *** Plumbing of each kind of step *)
Lemma plumbing_cache n w m' :
  plumbing n w -> mFlushing m' = mFlushing (wMonitor w) -> mRevision m' = mRevision (wMonitor w) -> no_blank (mPending m') ->
  plumbing n (mkIpWorld m' (wRows w) (wLoads w) (wFlushes w)).
Proof. intros [H1 H2 H3 H4 H5 H6 H7 H8 H9] E1 E2 Hp. split; simpl; rewrite ?E1, ?E2; done. Qed.

Lemma plumbing_loads n m rows loads loads' flushes :
  plumbing n (mkIpWorld m rows loads flushes) ->
  (forall l, l ∈ loads' -> ldRevision l <= mRevision m) -> NoDup ((fun l => (ldClient l, ldRevision l)) <$> loads') ->
  plumbing n (mkIpWorld m rows loads' flushes).
Proof. intros [H1 H2 H3 H4 H5 H6 H7 H8 H9] L1 L2. split; done. Qed.

Lemma plumbing_bump n w m' :
  plumbing n w -> n + 1 < 2 ^ 64 -> mFlushing m' = mFlushing (wMonitor w) -> mRevision m' = wrapu64 (mRevision (wMonitor w) + 1) ->
  mPending m' = mPending (wMonitor w) ->
  plumbing (n + 1) (mkIpWorld m' (wRows w) (wLoads w) (wFlushes w)) /\ mRevision m' = mRevision (wMonitor w) + 1.
Proof.
  intros [H1 H2 H3 H4 H5 H6 H7 H8 H9] Hn E1 E2 E3. unfold wrapu64 in E2. rewrite Z.mod_small in E2 by lia.
  split; [|done]. split; simpl; rewrite ?E1, ?E2, ?E3; try done; [lia|]. intros l Hl. specialize (H2 l Hl). lia.
Qed.

Lemma NoDup_remove {A B} (f : A -> B) l1 x l2 : NoDup (f <$> (l1 ++ x :: l2)) -> NoDup (f <$> (l1 ++ l2)) /\ forall y, y ∈ l1 ++ l2 -> f y <> f x.
Proof.
  rewrite !fmap_app, fmap_cons, !NoDup_app, NoDup_cons. intros (H1 & H2 & H3 & H4). split.
  - split_and!; [done| |done]. intros y Hy. specialize (H2 y Hy). set_solver.
  - intros y [Hy|Hy]%elem_of_app Heq.
    + apply (H2 (f y)); [by apply list_elem_of_fmap_2|]. rewrite Heq. apply list_elem_of_here.
    + apply H3. rewrite <- Heq. by apply list_elem_of_fmap_2.
Qed.

(** Ending a flush, by a commit or a requeue. *)
Lemma plumbing_end n m m' rows loads l1 l2 b written :
  plumbing n (mkIpWorld m rows loads (l1 ++ mkFlush b written :: l2)) ->
  mFlushing m' = drop_batch (fbID b) (mFlushing m) -> mRevision m <= mRevision m' <= n -> no_blank (mPending m') ->
  plumbing n (mkIpWorld m' rows loads (l1 ++ l2)).
Proof.
  intros [H1 H2 H3 H4 H5 H6 H7 H8 H9] E1 E2 Hp. simpl in *. destruct (NoDup_remove _ _ _ _ H5) as [Hnd Hne].
  split; simpl; rewrite ?E1; try done.
  - lia.
  - intros l Hl. specialize (H2 l Hl). lia.
  - by apply drop_batch_NoDup.
  - intros f Hf. destruct (H6 f) as [Hin|[Hem Hno]]; [rewrite elem_of_app, elem_of_cons; rewrite elem_of_app in Hf; tauto| |].
    + left. rewrite elem_of_drop. split; [done|]. exact (Hne f Hf).
    + right. split; [done|]. intros b' [Hb' _]%elem_of_drop. auto.
  - intros b' [Hb' _]%elem_of_drop. auto.
Qed.

Lemma drop_absent id bs : (forall b, b ∈ bs -> fbID b <> id) -> drop_batch id bs = bs.
Proof.
  unfold drop_batch. induction bs as [|b bs IH]; intros H; [done|]. simpl.
  unfold is_batch at 1. rewrite (proj2 (Nat.eqb_neq _ _) (H b (list_elem_of_here _ _))). simpl. f_equal.
  apply IH. intros b' Hb'. apply H. by apply list_elem_of_further.
Qed.

Lemma warm_rowHash s r : salt = Some s -> sourced r -> rowHash r = Some (warmHash r).
Proof.
  intros Hs Hr. unfold rowHash, warmHash, hashLegacyIPValue, hashIP. rewrite Hs. destruct (String.eqb_spec (ipIPHash r) "") as [E|]; simpl; [|done].
  destruct Hr as [|Hip]; [done|]. rewrite (proj2 (String.eqb_neq _ _) Hip). by destruct (looksLikeSHA256Hex (ipIP r)).
Qed.

Lemma warmHashes_eq s rows : salt = Some s -> (forall r, r ∈ rows -> sourced r) -> warmHashes rows = hashes rows.
Proof.
  intros Hs Hr. apply set_eq. intros h. rewrite elem_of_hashes. unfold warmHashes.
  rewrite elem_of_list_to_set, list_elem_of_In, filter_In, <- list_elem_of_In, negb_true_iff, String.eqb_neq, list_elem_of_fmap.
  split.
  - intros ((r & -> & Hin) & Hne). split; [done|]. exists r. split; [done|]. by apply (warm_rowHash s); auto.
  - intros (Hne & r & Hin & He). split; [|done]. exists r. rewrite (warm_rowHash s) in He by auto. split; [congruence|done].
Qed.

Lemma flush_known n m rows loads l1 l2 b written :
  plumbing n (mkIpWorld m rows loads (l1 ++ mkFlush b written :: l2)) ->
  b ∈ mFlushing m \/ (fbSnapshot b = ∅ /\ Commit b m = m /\ Requeue b m = m /\ drop_batch (fbID b) (mFlushing m) = mFlushing m).
Proof.
  intros Hp. destruct (pl_flushes _ _ Hp (mkFlush b written)) as [H|[He Hno]]; [simpl; set_solver|by left|]. right. simpl in *.
  assert (Hex : existsb (is_batch (fbID b)) (mFlushing m) = false).
  { apply not_true_iff_false. intros (b' & Hb' & Heq)%existsb_batch. by apply (Hno b'). }
  unfold Commit, Requeue. rewrite Hex, drop_absent by done. done.
Qed.

Lemma held_record c h item m m' :
  mFlushing m' = mFlushing m -> mPending m' = <[c := <[h := item]> (of_client c (mPending m))]> (mPending m) ->
  held c m' = {[h]} ∪ held c m.
Proof. intros E1 E2. unfold held. rewrite E1, E2, of_client_insert, decide_True by done. rewrite dom_insert_L. set_solver. Qed.

Lemma held_other c c0 x m m' : c0 <> c -> mFlushing m' = mFlushing m -> mPending m' = <[c0 := x]> (mPending m) -> held c m' = held c m.
Proof. intros Hne E1 E2. unfold held. rewrite E1, E2, of_client_insert, decide_False by done. done. Qed.

Lemma held_begin c id m : held c (BeginFlush id m).2 = held c m.
Proof.
  unfold held, BeginFlush. simpl. unfold of_client at 1. rewrite lookup_empty. simpl. case_bool_decide as E.
  - rewrite E. unfold of_client. rewrite lookup_empty. simpl. done.
  - unfold flushing_hashes. simpl. set_solver.
Qed.

Lemma held_requeue c b m : NoDup (fbID <$> mFlushing m) -> b ∈ mFlushing m -> held c (Requeue b m) = held c m.
Proof.
  intros Hnd Hb. unfold Requeue. rewrite (proj2 (existsb_batch _ _)) by (by exists b). unfold held. cbn [mPending mFlushing].
  rewrite requeue_dom, (flushing_drop c b (mFlushing m)) by done. set_solver.
Qed.

Lemma held_commit c b m :
  NoDup (fbID <$> mFlushing m) -> b ∈ mFlushing m -> held c m = dom (of_client c (fbSnapshot b)) ∪ held c (Commit b m).
Proof.
  intros Hnd Hb. unfold Commit. rewrite (proj2 (existsb_batch _ _)) by (by exists b). unfold held. cbn [mPending mFlushing].
  rewrite (flushing_drop c b (mFlushing m)) by done. set_solver.
Qed.

(** *** One enforced client *)
Section Client.
Context (c : string) (client : clientRow) (Hclient : clients !! c = Some client) (Henf : enforced client = true).
(** The limit of the client, or the number of its sources when the limit came into force. *)
Context (bound : Z) (Hbound : clLimitIP client <= bound).

Record entry_ok (D H : gset string) (e : allowCacheEntry) : Prop := mkEntryOk {
  en_mode : eMode e = ModeEnforce;
  en_limit : eLimit e = clLimitIP client;
  en_covers : D ⊆ eIps e ∪ H;
  en_size : Z.of_nat (size (eIps e ∪ H)) <= bound
}.

Definition history (w : ipWorld) : gset string := hashes (rows_of_client c (wRows w)).

Record limited (w : ipWorld) : Prop := mkLimited {
  li_cache : forall e, mCache (wMonitor w) !! c = Some e -> entry_ok (history w) (held c (wMonitor w)) e;
  li_load : forall l, l ∈ wLoads w -> ldClient l = c -> ldRevision l = mRevision (wMonitor w) ->
    mCache (wMonitor w) !! c = None /\ forall e, ldEntry l = Some e -> entry_ok (history w) (held c (wMonitor w)) e;
  li_size : Z.of_nat (size (history w ∪ held c (wMonitor w))) <= bound
}.

Lemma size_le (X Y : gset string) n : X ⊆ Y -> Z.of_nat (size Y) <= n -> Z.of_nat (size X) <= n.
Proof. intros H%subseteq_size Hn. lia. Qed.

Lemma entry_ok_history D D' H e : D' ⊆ D ∪ H -> entry_ok D H e -> entry_ok D' H e.
Proof. intros HD [H1 H2 H3 H4]. split; try done. etrans; [exact HD|]. set_solver. Qed.

(** Steps that keep the sources in memory, the cached policy of the client and the revision. *)
Lemma limited_frame w w' :
  limited w -> history w' ⊆ history w ∪ held c (wMonitor w) -> held c (wMonitor w') = held c (wMonitor w) ->
  mCache (wMonitor w') !! c = mCache (wMonitor w) !! c -> mRevision (wMonitor w') = mRevision (wMonitor w) ->
  (forall l, l ∈ wLoads w' -> l ∈ wLoads w) -> limited w'.
Proof.
  intros [H1 H2 H3] HD HH Hc Hr Hl. split; rewrite HH.
  - intros e He. apply (entry_ok_history (history w)); [done|]. apply H1. congruence.
  - intros l Hin Hlc Hlr. destruct (H2 l) as [Hn He]; [auto|done|congruence|]. split; [congruence|].
    intros e Hle. apply (entry_ok_history (history w)); [done|auto].
  - apply (size_le _ (history w ∪ held c (wMonitor w))); [set_solver|done].
Qed.

Lemma enforced_policy : clEnable client = true /\ clIPLimitMode client = ModeEnforce /\ 0 < clLimitIP client.
Proof. unfold enforced in Henf. rewrite !andb_true_iff, String.eqb_eq, Z.ltb_lt in Henf. tauto. Qed.

Lemma loaded_entry rows now e : loadCacheEntry c rows now = Some e ->
  eMode e = ModeEnforce /\ eLimit e = clLimitIP client /\ eIps e = hashes (rows_of_client c rows).
Proof.
  destruct enforced_policy as (He & Hm & Hl). unfold loadCacheEntry. rewrite Hclient, He, Hm. cbn [negb].
  rewrite String.eqb_refl, (proj2 (Z.leb_gt _ _)) by lia. cbn [negb orb]. destruct (forallb _ _); [|done]. by intros [= <-].
Qed.

Lemma limited_admit c0 h display observe revision now m rows loads flushes :
  limited (mkIpWorld m rows loads flushes) ->
  limited (mkIpWorld (admitPrepared c0 h display observe revision now m).2 rows loads flushes).
Proof.
  intros Hlim. destruct (admit_effect c0 h display observe revision now m) as (Ef & Er & [->|(e & Ec & Hok & -> & Ep & Ecache)]); [done|].
  set (m' := (admitPrepared c0 h display observe (mRevision m) now m).2) in *. destruct (decide (c0 = c)) as [->|Hne].
  - destruct Hlim as [H1 H2 H3]. simpl in *. specialize (H1 e Ec). destruct H1 as [Em El Ecov Es]. destruct enforced_policy as (_ & _ & Hpos).
    assert (Hsize : Z.of_nat (size ({[h]} ∪ (eIps e ∪ held c m))) <= bound).
    { unfold admitPrepared in Hok. rewrite Ec, Z.eqb_refl in Hok. cbn [negb orb] in Hok. destruct (now <? eExpiresAt e); simpl in Hok; [|done].
      rewrite Em, String.eqb_refl, El, (proj2 (Z.ltb_lt _ _) Hpos), seen_held in Hok. cbn [andb] in Hok.
      apply orb_true_iff in Hok as [Hin%bool_decide_eq_true|Hle%Z.leb_le]; [|lia].
      apply (size_le _ (eIps e ∪ held c m)); [set_solver|done]. }
    assert (Eh : held c m' = {[h]} ∪ held c m) by (by apply (held_record c h (mkPendingIP (now / second) display))).
    split; simpl; rewrite ?Eh.
    + rewrite Ecache, lookup_insert_eq. intros e' [= <-]. split; simpl; [done|done| |].
      * etrans; [exact Ecov|]. set_solver.
      * apply (size_le _ ({[h]} ∪ (eIps e ∪ held c m))); [set_solver|done].
    + intros l Hl Hlc Hlr. destruct (H2 l Hl Hlc) as [Hn _]; [congruence|]. congruence.
    + apply (size_le _ ({[h]} ∪ (eIps e ∪ held c m))); [|done]. unfold history in *. simpl in *. set_solver.
  - apply (limited_frame _ _ Hlim); simpl; [set_solver| |by rewrite Ecache, lookup_insert_ne|done|done].
    by apply (held_other c c0 (<[h := mkPendingIP (now / second) display]> (of_client c0 (mPending m)))).
Qed.

Lemma limited_bump w w' :
  limited w -> (forall l, l ∈ wLoads w -> ldRevision l <= mRevision (wMonitor w)) -> mRevision (wMonitor w') = mRevision (wMonitor w) + 1 -> wLoads w' = wLoads w ->
  (forall e, mCache (wMonitor w') !! c = Some e -> entry_ok (history w') (held c (wMonitor w')) e) ->
  history w' ∪ held c (wMonitor w') ⊆ history w ∪ held c (wMonitor w) -> limited w'.
Proof.
  intros [H1 H2 H3] Hp Hr Hl Hc Hs. split; [done| |].
  - intros l Hin _ Hrev. rewrite Hl in Hin. specialize (Hp l Hin). lia.
  - apply (size_le _ (history w ∪ held c (wMonitor w))); done.
Qed.

(** A batch in flight is one of the batches of the monitor, or it is empty and nothing. *)
Lemma limited_commit n m rows loads l1 l2 b :
  plumbing n (mkIpWorld m rows loads (l1 ++ mkFlush b true :: l2)) -> n + 1 < 2 ^ 64 ->
  limited (mkIpWorld m rows loads (l1 ++ mkFlush b true :: l2)) -> limited (mkIpWorld (Commit b m) rows loads (l1 ++ l2)).
Proof.
  intros Hp Hn Hlim. destruct (flush_known _ _ _ _ _ _ _ _ Hp) as [Hb|(_ & -> & _)]; [|by apply (limited_frame _ _ Hlim); simpl; [set_solver|..]].
  pose proof (held_commit c b m (pl_ids _ _ Hp) Hb) as Eh. destruct (pl_revision _ _ Hp) as [Hr0 Hr1]. simpl in *.
  assert (Hcm : Commit b m = mkMonitor (mPending m) (drop_batch (fbID b) (mFlushing m)) (cacheAddBatch (fbSnapshot b) (mCache m)) (mRevision m + 1)).
  { unfold Commit. rewrite (proj2 (existsb_batch _ _)) by (by exists b). unfold wrapu64. by rewrite Z.mod_small by lia. }
  apply (limited_bump _ _ Hlim); simpl; [exact (pl_loads_le _ _ Hp)|by rewrite Hcm|done| |set_solver].
  intros e. rewrite Hcm at 1. cbn [mCache]. unfold cacheAddBatch. rewrite map_lookup_imap. destruct (mCache m !! c) as [e0|] eqn:E0; simpl; [|done].
  intros [= <-]. destruct (li_cache _ Hlim e0 E0) as [Em El Ecov Es]. simpl in *. rewrite Eh in Ecov, Es. split; simpl; [done|done| |].
  - etrans; [exact Ecov|]. set_solver.
  - apply (size_le _ (eIps e0 ∪ (dom (of_client c (fbSnapshot b)) ∪ held c (Commit b m)))); [set_solver|done].
Qed.

Lemma limited_warm_up n m m' rows loads flushes now :
  plumbing n (mkIpWorld m rows loads flushes) -> n + 1 < 2 ^ 64 -> limited (mkIpWorld m rows loads flushes) ->
  WarmUp rows now m = Some m' -> limited (mkIpWorld m' rows loads flushes).
Proof.
  intros Hp Hn Hlim. unfold WarmUp. destruct salt as [s|] eqn:Hs; [|done]. intros [= <-]. destruct (pl_revision _ _ Hp). simpl in *.
  apply (limited_bump _ _ Hlim); simpl; [exact (pl_loads_le _ _ Hp)|unfold wrapu64; by rewrite Z.mod_small by lia|done| |done].
  intros e. unfold loadActiveEnforceEntries. rewrite map_lookup_imap, Hclient. simpl. rewrite Henf. intros [= <-].
  destruct enforced_policy as (_ & Hm & _).
  assert (Ew : warmHashes (rows_of_client c rows) = hashes (rows_of_client c rows)).
  { apply (warmHashes_eq s); [done|]. intros r [Hr _]%elem_of_rows_of. by apply (pl_rows _ _ Hp). }
  assert (Eh : history (mkIpWorld m rows loads flushes) = hashes (rows_of_client c rows)) by done.
  split; simpl; [done|done|rewrite Ew; set_solver|]. rewrite Ew. exact (li_size _ Hlim).
Qed.

Lemma limited_store n m rows l1 l2 flushes c0 revision now e :
  plumbing n (mkIpWorld m rows (l1 ++ mkLoad c0 revision (Some e) :: l2) flushes) ->
  limited (mkIpWorld m rows (l1 ++ mkLoad c0 revision (Some e) :: l2) flushes) ->
  limited (mkIpWorld (refreshStore c0 revision now e m) rows (l1 ++ l2) flushes).
Proof.
  intros Hp Hlim. assert (Hsub : forall l, l ∈ l1 ++ l2 -> l ∈ l1 ++ mkLoad c0 revision (Some e) :: l2) by (intros l; rewrite !elem_of_app, elem_of_cons; tauto).
  unfold refreshStore. destruct (Z.eqb_spec revision (mRevision m)) as [->|]; cbn [negb].
  2: { apply (limited_frame _ _ Hlim); simpl; [set_solver|done|done|done|done]. }
  destruct (decide (c0 = c)) as [->|Hne].
  - destruct (NoDup_remove _ _ _ _ (pl_loads_once _ _ Hp)) as [_ Hother]. destruct Hlim as [H1 H2 H3]. simpl in *.
    destruct (H2 (mkLoad c (mRevision m) (Some e))) as [_ He]; [set_solver|done|done|]. destruct (He e eq_refl) as [Em El Ecov Es].
    split; simpl; [| |done].
    + rewrite lookup_insert_eq. intros e' [= <-]. by split.
    + intros l Hl Hlc Hlr. destruct (Hother l Hl). simpl. congruence.
  - apply (limited_frame _ _ Hlim); simpl; [set_solver|done|by rewrite lookup_insert_ne|done|done].
Qed.

Lemma held_cache cache m : held c (with_cache cache m) = held c m.
Proof. done. Qed.

Lemma limited_refresh_start m m' rows loads flushes c0 revision now :
  limited (mkIpWorld m rows loads flushes) -> refreshStart c0 revision now m = Some m' ->
  limited (mkIpWorld m' rows (mkLoad c0 revision None :: loads) flushes).
Proof.
  intros Hlim Hs. unfold refreshStart in Hs. destruct (Z.eqb_spec revision (mRevision m)) as [->|]; cbn [negb] in Hs; [|done].
  assert (Hm : (m' = m /\ mCache m !! c0 = None) \/ m' = with_cache (delete c0 (mCache m)) m).
  { destruct (mCache m !! c0) as [e|] eqn:E; [destruct (now <? eExpiresAt e); [done|]|]; injection Hs as <-; auto. }
  assert (Hnone : mCache m' !! c0 = None) by (destruct Hm as [[-> H]| ->]; [done|simpl; by rewrite lookup_delete_eq]).
  assert (Hother : c0 <> c -> mCache m' !! c = mCache m !! c) by (intros Hne; destruct Hm as [[-> _]| ->]; [done|simpl; by rewrite lookup_delete_ne]).
  assert (Heq : held c m' = held c m /\ mRevision m' = mRevision m) by (destruct Hm as [[-> _]| ->]; done). destruct Heq as [Eh Er].
  destruct Hlim as [H1 H2 H3]. split; simpl in *; rewrite ?Eh; [| |done].
  - destruct (decide (c0 = c)) as [->|Hne]; [congruence|]. rewrite Hother by done. exact H1.
  - intros l [->|Hl]%elem_of_cons Hlc Hlr; simpl in *.
    + subst c0. split; [done|discriminate].
    + destruct (H2 l Hl Hlc) as [Hn He]; [congruence|]. split; [|done]. destruct (decide (c0 = c)) as [->|Hne]; [done|]. by rewrite Hother.
Qed.

Lemma limited_refresh_load m rows l1 l2 flushes c0 revision now e :
  limited (mkIpWorld m rows (l1 ++ mkLoad c0 revision None :: l2) flushes) -> loadCacheEntry c0 rows now = Some e ->
  limited (mkIpWorld m rows (l1 ++ mkLoad c0 revision (Some e) :: l2) flushes).
Proof.
  intros [H1 H2 H3] Hload. split; simpl in *; [done| |done].
  intros l Hl Hlc Hlr. rewrite elem_of_app, elem_of_cons in Hl.
  assert (Hold : l = mkLoad c0 revision (Some e) \/ l ∈ l1 ++ mkLoad c0 revision None :: l2) by (rewrite elem_of_app, elem_of_cons; tauto).
  destruct Hold as [->|Hold]; [|by apply H2].
  simpl in *. subst c0. destruct (H2 (mkLoad c revision None)) as [Hn _]; [set_solver|done|done|]. split; [done|].
  intros e' [= <-]. destruct (loaded_entry _ _ _ Hload) as (Em & El & Ei). split; [done|done|rewrite Ei; set_solver|by rewrite Ei].
Qed.

Lemma limited_write n m rows loads l1 l2 b :
  plumbing n (mkIpWorld m rows loads (l1 ++ mkFlush b false :: l2)) -> limited (mkIpWorld m rows loads (l1 ++ mkFlush b false :: l2)) ->
  limited (mkIpWorld m (flushSnapshot (fbSnapshot b) rows) loads (l1 ++ mkFlush b true :: l2)).
Proof.
  intros Hp Hlim. apply (limited_frame _ _ Hlim); simpl; [|done|done|done|done].
  intros h Hh. apply (proj1 (flushSnapshot_hashes c (fbSnapshot b) rows)) in Hh. apply elem_of_union in Hh as [Hh|Hh]; [by apply elem_of_union_l|].
  apply elem_of_union_r. destruct (flush_known _ _ _ _ _ _ _ _ Hp) as [Hb|[E _]].
  - unfold held. apply elem_of_union_r, elem_of_flushing. eauto.
  - unfold of_client in Hh. rewrite E, lookup_empty in Hh. simpl in Hh. set_solver.
Qed.

Lemma limited_record c0 ip display revision now m rows loads flushes :
  c0 <> c -> limited (mkIpWorld m rows loads flushes) -> limited (mkIpWorld (RecordIP c0 ip display revision now m) rows loads flushes).
Proof.
  intros Hne Hlim. destruct (record_effect c0 ip display revision now m) as [->|(h & _ & Ef & Er & Ep & Ec)]; [done|].
  apply (limited_frame _ _ Hlim); simpl; [set_solver|by eapply held_other|by apply Ec|done|done].
Qed.

Lemma limited_step n k w w' :
  plumbing n w -> n + 1 < 2 ^ 64 -> limited w -> k <> Records c -> ipStep k w w' -> limited w'.
Proof.
  intros Hp Hn Hlim Hk Hs. destruct Hs as [m rows loads flushes c0 ip h display observe revision now Hh|m m' rows loads flushes c0 revision now Hst Hone
    |m rows l1 l2 flushes c0 revision now e Hload|m rows l1 l2 flushes c0 revision now e|m rows l1 l2 flushes c0 revision
    |m rows loads flushes id Hid1 Hid2|m rows loads l1 l2 b|m rows loads l1 l2 b|m rows loads l1 l2 b written
    |m m' rows loads flushes now Hw|m rows loads flushes c0|m rows loads flushes|m rows loads flushes c0|m rows loads flushes before|m rows loads flushes c0 ip display revision now].
  - by apply limited_admit.
  - by apply (limited_refresh_start m _ _ _ _ _ _ now).
  - by apply (limited_refresh_load _ _ _ _ _ _ _ now).
  - by apply (limited_store n).
  - apply (limited_frame _ _ Hlim); simpl; [set_solver|done|done|done|]. intros l. rewrite !elem_of_app, elem_of_cons. tauto.
  - apply (limited_frame _ _ Hlim); simpl; [set_solver|apply held_begin|done|done|done].
  - by apply (limited_write n).
  - by apply (limited_commit n).
  - destruct (flush_known _ _ _ _ _ _ _ _ Hp) as [Hb|(_ & _ & -> & _)].
    + apply (limited_frame _ _ Hlim); simpl; [set_solver|apply held_requeue; [exact (pl_ids _ _ Hp)|done]| | |done];
        unfold Requeue; by destruct (existsb _ _).
    + apply (limited_frame _ _ Hlim); simpl; [set_solver|done|done|done|done].
  - by apply (limited_warm_up n m _ _ _ _ now).
  - destruct (pl_revision _ _ Hp). apply (limited_bump _ _ Hlim); simpl; [exact (pl_loads_le _ _ Hp)|unfold wrapu64; by rewrite Z.mod_small by (simpl in *; lia)|done| |done].
    intros e [_ He]%lookup_delete_Some. by apply (li_cache _ Hlim).
  - destruct (pl_revision _ _ Hp). apply (limited_bump _ _ Hlim); simpl; [exact (pl_loads_le _ _ Hp)|unfold wrapu64; by rewrite Z.mod_small by (simpl in *; lia)|done| |done].
    intros e He. by rewrite lookup_empty in He.
  - apply (limited_frame _ _ Hlim); simpl; [|done|done|done|done]. etrans; [|apply union_subseteq_l]. apply hashes_mono.
    intros r. apply elem_of_kept.
  - apply (limited_frame _ _ Hlim); simpl; [|done|done|done|done]. etrans; [|apply union_subseteq_l]. apply hashes_mono.
    intros r. apply elem_of_kept.
  - apply limited_record; [congruence|done].
Qed.

End Client.

Lemma NoDup_replace {A B} (f : A -> B) l1 x y l2 : f x = f y -> NoDup (f <$> (l1 ++ x :: l2)) -> NoDup (f <$> (l1 ++ y :: l2)).
Proof. intros E. by rewrite !fmap_app, !fmap_cons, E. Qed.

Lemma plumbing_weaken n n' w : n <= n' -> plumbing n w -> plumbing n' w.
Proof. intros H [H1 H2 H3 H4 H5 H6 H7 H8 H9]. split; try done. lia. Qed.

Lemma plumbing_begin n m rows loads flushes id :
  plumbing n (mkIpWorld m rows loads flushes) ->
  (forall b, b ∈ mFlushing m -> fbID b <> id) -> (forall f, f ∈ flushes -> fbID (flBatch f) <> id) ->
  plumbing n (mkIpWorld (BeginFlush id m).2 rows loads (mkFlush (BeginFlush id m).1 false :: flushes)).
Proof.
  intros Hp Hid1 Hid2. destruct Hp as [H1 H2 H3 H4 H5 H6 H7 H8 H9]. unfold BeginFlush. split; simpl in *; try done.
  - case_bool_decide; [done|]. rewrite fmap_cons, NoDup_cons. split; [|done]. intros (b & He & Hb)%list_elem_of_fmap. by apply (Hid1 b Hb).
  - rewrite NoDup_cons. split; [|done]. intros (f & He & Hf)%list_elem_of_fmap. by apply (Hid2 f Hf).
  - intros f [->|Hf]%elem_of_cons; simpl.
    + case_bool_decide as E; [right; split; [done|]; intros b Hb; by apply Hid1|left; apply list_elem_of_here].
    + destruct (H6 f Hf) as [Hb|[He Hno]]; case_bool_decide; [by left|left; by apply list_elem_of_further|by right|]. right. split; [done|].
      intros b [->|Hb]%elem_of_cons; [|auto]. simpl. intros Heq. by apply (Hid2 f Hf).
  - case_bool_decide; [done|]. intros b [->|Hb]%elem_of_cons; [done|auto].
Qed.

Lemma plumbing_write n m rows loads l1 l2 b :
  plumbing n (mkIpWorld m rows loads (l1 ++ mkFlush b false :: l2)) ->
  plumbing n (mkIpWorld m (flushSnapshot (fbSnapshot b) rows) loads (l1 ++ mkFlush b true :: l2)).
Proof.
  intros Hp. destruct (flush_known _ _ _ _ _ _ _ _ Hp) as [Hb|[Hb _]]; destruct Hp as [H1 H2 H3 H4 H5 H6 H7 H8 H9];
    simpl in *; (split; simpl; try done; [by apply (NoDup_replace _ _ (mkFlush b false))| |]).
  1,3: intros f Hf; rewrite elem_of_app, elem_of_cons in Hf; destruct Hf as [Hf|[->|Hf]];
    [apply H6; set_solver|exact (H6 (mkFlush b false) ltac:(set_solver))|apply H6; set_solver].
  - apply flush_sourced; auto.
  - rewrite Hb. exact H7.
Qed.

Lemma plumbing_commit n m rows loads l1 l2 b written :
  plumbing n (mkIpWorld m rows loads (l1 ++ mkFlush b written :: l2)) -> n + 1 < 2 ^ 64 ->
  plumbing (n + 1) (mkIpWorld (Commit b m) rows loads (l1 ++ l2)).
Proof.
  intros Hp Hn. pose proof (pl_revision _ _ Hp) as Hr. simpl in Hr. destruct (flush_known _ _ _ _ _ _ _ _ Hp) as [Hb|(_ & Ec & _ & Ed)].
  - apply (plumbing_end (n + 1) m _ _ _ _ _ b written); [by apply (plumbing_weaken n); [lia|]| | |];
      unfold Commit; rewrite (proj2 (existsb_batch _ _)) by (by exists b); simpl; [done| |exact (pl_pending _ _ Hp)].
    unfold wrapu64. rewrite Z.mod_small by lia. lia.
  - apply (plumbing_end (n + 1) m _ _ _ _ _ b written); [by apply (plumbing_weaken n); [lia|]|by rewrite Ec, Ed|rewrite Ec; lia|].
    rewrite Ec. exact (pl_pending _ _ Hp).
Qed.

Lemma plumbing_requeue n m rows loads l1 l2 b written :
  plumbing n (mkIpWorld m rows loads (l1 ++ mkFlush b written :: l2)) ->
  plumbing n (mkIpWorld (Requeue b m) rows loads (l1 ++ l2)).
Proof.
  intros Hp. pose proof (pl_revision _ _ Hp) as Hr. simpl in Hr. destruct (flush_known _ _ _ _ _ _ _ _ Hp) as [Hb|(_ & _ & Ec & Ed)];
    apply (plumbing_end n m _ _ _ _ _ b written Hp);
    try (rewrite Ec); try (unfold Requeue; rewrite (proj2 (existsb_batch _ _)) by (by exists b)); simpl; try done; try lia.
  - apply no_blank_requeue; [by apply (pl_batches _ _ Hp)|exact (pl_pending _ _ Hp)].
  - exact (pl_pending _ _ Hp).
Qed.

Lemma plumbing_refresh_start n m m' rows loads flushes c0 revision now :
  plumbing n (mkIpWorld m rows loads flushes) -> refreshStart c0 revision now m = Some m' ->
  (forall l, l ∈ loads -> ldClient l = c0 -> ldRevision l <> revision) ->
  plumbing n (mkIpWorld m' rows (mkLoad c0 revision None :: loads) flushes).
Proof.
  intros Hp Hst Hone. unfold refreshStart in Hst. destruct (Z.eqb_spec revision (mRevision m)) as [->|]; cbn [negb] in Hst; [|done].
  assert (Hm : plumbing n (mkIpWorld m' rows loads flushes) /\ mRevision m' = mRevision m).
  { destruct (mCache m !! c0) as [e|]; [destruct (now <? eExpiresAt e); [done|]|]; injection Hst as <-; (split; [|done]); [|done].
    apply (plumbing_cache n _ _ Hp); [done|done|exact (pl_pending _ _ Hp)]. }
  destruct Hm as [Hm Er]. apply (plumbing_loads n m' rows loads); [done| |].
  - intros l [->|Hl]%elem_of_cons; [simpl; lia|]. exact (pl_loads_le _ _ Hm l Hl).
  - rewrite fmap_cons, NoDup_cons. split; [|exact (pl_loads_once _ _ Hm)].
    intros (l & He & Hl)%list_elem_of_fmap. injection He as E1 E2. by apply (Hone l Hl).
Qed.

Lemma plumbing_refresh_load n m rows l1 l2 flushes c0 revision e :
  plumbing n (mkIpWorld m rows (l1 ++ mkLoad c0 revision None :: l2) flushes) ->
  plumbing n (mkIpWorld m rows (l1 ++ mkLoad c0 revision (Some e) :: l2) flushes).
Proof.
  intros Hp. apply (plumbing_loads _ _ _ _ _ _ Hp).
  - intros l Hl. pose proof (pl_loads_le _ _ Hp) as Hle. simpl in Hle. rewrite elem_of_app, elem_of_cons in Hl.
    destruct Hl as [Hl|[->|Hl]]; [apply Hle; set_solver|apply (Hle (mkLoad c0 revision None)); set_solver|apply Hle; set_solver].
  - apply (NoDup_replace _ _ (mkLoad c0 revision None)); [done|]. exact (pl_loads_once _ _ Hp).
Qed.

Lemma plumbing_refresh_end n m rows l1 l l2 flushes :
  plumbing n (mkIpWorld m rows (l1 ++ l :: l2) flushes) -> plumbing n (mkIpWorld m rows (l1 ++ l2) flushes).
Proof.
  intros Hp. apply (plumbing_loads _ _ _ _ _ _ Hp); [|exact (proj1 (NoDup_remove _ _ _ _ (pl_loads_once _ _ Hp)))].
  intros l0 Hl. apply (pl_loads_le _ _ Hp). simpl. rewrite elem_of_app, elem_of_cons. rewrite elem_of_app in Hl. tauto.
Qed.

Lemma plumbing_admit n m rows loads flushes c ip h display observe revision now :
  plumbing n (mkIpWorld m rows loads flushes) -> hashIP ip = Some h ->
  plumbing n (mkIpWorld (admitPrepared c h display observe revision now m).2 rows loads flushes).
Proof.
  intros Hp Hh. destruct (admit_effect c h display observe revision now m) as (Ef & Er & Hcase).
  apply (plumbing_cache n _ _ Hp); [done|done|]. destruct Hcase as [->|(e & _ & _ & _ & -> & _)]; [exact (pl_pending _ _ Hp)|].
  apply no_blank_insert; [exact (pl_pending _ _ Hp)|]. unfold hashIP in Hh. destruct salt; simpl in Hh; [|done]. injection Hh as <-. apply sha_not_blank.
Qed.

Lemma plumbing_record n m rows loads flushes c ip display revision now :
  plumbing n (mkIpWorld m rows loads flushes) -> plumbing n (mkIpWorld (RecordIP c ip display revision now m) rows loads flushes).
Proof.
  intros Hp. destruct (record_effect c ip display revision now m) as [->|(h & Hh & Ef & Er & Ep & _)]; [done|].
  apply (plumbing_cache n _ _ Hp); [done|done|]. rewrite Ep. apply no_blank_insert; [exact (pl_pending _ _ Hp)|].
  unfold hashIP in Hh. destruct salt; simpl in Hh; [|done]. injection Hh as <-. apply sha_not_blank.
Qed.

Lemma plumbing_delete n m rows loads flushes f :
  plumbing n (mkIpWorld m rows loads flushes) -> plumbing n (mkIpWorld m (List.filter f rows) loads flushes).
Proof. intros [H1 H2 H3 H4 H5 H6 H7 H8 H9]. split; try done. intros r Hr%elem_of_kept. by apply H7. Qed.

Lemma plumbing_step n k w w' : plumbing n w -> n + 1 < 2 ^ 64 -> ipStep k w w' -> plumbing (n + 1) w'.
Proof.
  intros Hp Hn Hs. pose proof (plumbing_weaken n (n + 1) w ltac:(lia) Hp) as Hp'.
  destruct Hs as [| | |m rows l1 l2 flushes c0 revision now e| | | | | |m m' rows loads flushes now Hw|m rows loads flushes c0|m rows loads flushes| | |].
  - by eapply plumbing_admit.
  - by eapply plumbing_refresh_start.
  - by eapply plumbing_refresh_load.
  - apply (plumbing_refresh_end _ _ _ _ (mkLoad c0 revision (Some e))). unfold refreshStore. destruct (negb _); [done|].
    apply (plumbing_cache (n + 1) _ _ Hp'); [done|done|exact (pl_pending _ _ Hp)].
  - by eapply plumbing_refresh_end.
  - by apply plumbing_begin.
  - by apply plumbing_write.
  - by eapply plumbing_commit.
  - by eapply plumbing_requeue.
  - unfold WarmUp in Hw. destruct salt; [|done]. injection Hw as <-. by apply (plumbing_bump n _ _ Hp).
  - by apply (plumbing_bump n _ (invalidateCache c0 m) Hp).
  - by apply (plumbing_bump n _ (InvalidateAllCache m) Hp).
  - by apply plumbing_delete.
  - by apply plumbing_delete.
  - by apply plumbing_record.
Qed.

(** ** Histories of any length *)
Lemma plumbing_started rows : (forall r, r ∈ rows -> sourced r) -> plumbing 0 (started rows).
Proof.
  intros Hr. split; simpl; try done; try (by apply NoDup_nil_2); try (intros ? ?%elem_of_nil; done).
Qed.

Lemma plumbing_reachable n rows w :
  (forall r, r ∈ rows -> sourced r) -> Z.of_nat n < 2 ^ 64 -> nsteps anyStep n (started rows) w -> plumbing (Z.of_nat n) w.
Proof.
  intros Hr. revert w. induction n as [|n IH]; intros w Hn Hs.
  - inversion Hs; subst. by apply plumbing_started.
  - apply nsteps_inv_r in Hs as (w0 & Hs & k & Hk). rewrite Nat2Z.inj_succ, <- Z.add_1_r. apply (plumbing_step _ k w0); [|lia|done]. apply IH; [lia|done].
Qed.

(** ** Steps that keep the history *)
Definition written_ok (w : ipWorld) : Prop :=
  forall f c h, f ∈ wFlushes w -> flWritten f = true -> h ∈ dom (of_client c (fbSnapshot (flBatch f))) ->
    h ∈ hashes (rows_of_client c (wRows w)).

Lemma written_flushes w w' :
  written_ok w -> (forall f, f ∈ wFlushes w' -> f ∈ wFlushes w \/ flWritten f = false) ->
  (forall c, hashes (rows_of_client c (wRows w)) ⊆ hashes (rows_of_client c (wRows w'))) -> written_ok w'.
Proof. intros Hw Hf Hh f c h Hin Hwr Hd. destruct (Hf f Hin) as [Hold|Hnew]; [|congruence]. by apply Hh, (Hw f). Qed.

Lemma written_write n m rows loads l1 l2 b :
  plumbing n (mkIpWorld m rows loads (l1 ++ mkFlush b false :: l2)) -> written_ok (mkIpWorld m rows loads (l1 ++ mkFlush b false :: l2)) ->
  written_ok (mkIpWorld m (flushSnapshot (fbSnapshot b) rows) loads (l1 ++ mkFlush b true :: l2)).
Proof.
  intros Hp Hw f c h Hin Hwr Hd. simpl in *. destruct (flushSnapshot_hashes c (fbSnapshot b) rows) as (_ & Hkeep & Hnew).
  rewrite elem_of_app, elem_of_cons in Hin.
  assert (Hcase : f = mkFlush b true \/ f ∈ l1 ++ mkFlush b false :: l2) by (rewrite elem_of_app, elem_of_cons; tauto).
  destruct Hcase as [->|Hold]; [|by apply Hkeep, (Hw f)]. simpl in Hd. apply Hnew; [|done]. intros ->.
  destruct (flush_known _ _ _ _ _ _ _ _ Hp) as [Hb|[E _]]; [by apply (pl_batches _ _ Hp b Hb c)|].
  rewrite E, of_client_empty in Hd. by apply not_elem_of_empty in Hd.
Qed.

Lemma sources_frame c w w' :
  hashes (rows_of_client c (wRows w)) ⊆ hashes (rows_of_client c (wRows w')) -> held c (wMonitor w) ⊆ held c (wMonitor w') ->
  sources c w ⊆ sources c w'.
Proof. intros H1 H2. rewrite !sources_held. set_solver. Qed.

Lemma held_admit c c0 h display observe revision now m :
  held c m ⊆ held c (admitPrepared c0 h display observe revision now m).2.
Proof.
  destruct (admit_effect c0 h display observe revision now m) as (Ef & _ & [->|(e & _ & _ & _ & Ep & _)]); [done|].
  destruct (decide (c0 = c)) as [->|Hne].
  - rewrite (held_record c h _ _ _ Ef Ep). set_solver.
  - by rewrite (held_other c c0 _ _ _ Hne Ef Ep).
Qed.

Lemma kept_step n w w' :
  plumbing n w -> written_ok w -> ipStep Keeps w w' -> written_ok w' /\ forall c, sources c w ⊆ sources c w'.
Proof.
  intros Hp Hw Hs. remember Keeps as kept eqn:Hk.
  destruct Hs as [m rows loads flushes c0 ip h display observe revision now Hh|m m' rows loads flushes c0 revision now Hst Hone
    |m rows l1 l2 flushes c0 revision now e Hload|m rows l1 l2 flushes c0 revision now e|m rows l1 l2 flushes c0 revision
    |m rows loads flushes id Hid1 Hid2|m rows loads l1 l2 b|m rows loads l1 l2 b|m rows loads l1 l2 b written
    |m m' rows loads flushes now Hwarm|m rows loads flushes c0|m rows loads flushes|m rows loads flushes c0|m rows loads flushes before|m rows loads flushes c0 ip display revision now]; try discriminate Hk.
  - split; [by apply (written_flushes _ _ Hw); simpl; [auto|]|]. intros c. apply sources_frame; [done|]. apply held_admit.
  - split; [by apply (written_flushes _ _ Hw); simpl; [auto|]|]. intros c. apply sources_frame; [done|]. simpl.
    unfold refreshStart in Hst. destruct (negb _); [done|]. destruct (mCache m !! c0) as [e|]; [destruct (now <? eExpiresAt e); [done|]|]; by injection Hst as <-.
  - split; [by apply (written_flushes _ _ Hw); simpl; [auto|]|]. intros c. by apply sources_frame.
  - split; [by apply (written_flushes _ _ Hw); simpl; [auto|]|]. intros c. apply sources_frame; [done|]. simpl. unfold refreshStore. by destruct (negb _).
  - split; [by apply (written_flushes _ _ Hw); simpl; [auto|]|]. intros c. by apply sources_frame.
  - split; [apply (written_flushes _ _ Hw); simpl; [|done]; intros f [->|Hf]%elem_of_cons; auto|].
    intros c. apply sources_frame; [done|]. cbn [wMonitor]. by rewrite (held_begin c id m).
  - split; [by apply (written_write n)|]. intros c. apply sources_frame; [|done]. apply flushSnapshot_hashes.
  - split; [apply (written_flushes _ _ Hw); simpl; [|done]; intros f; rewrite !elem_of_app, elem_of_cons; tauto|].
    intros c. rewrite !sources_held. simpl. destruct (flush_known _ _ _ _ _ _ _ _ Hp) as [Hb|(_ & -> & _)]; [|done].
    rewrite (held_commit c b m (pl_ids _ _ Hp) Hb). pose proof (Hw (mkFlush b true) c) as Hin. simpl in Hin.
    assert (mkFlush b true ∈ l1 ++ mkFlush b true :: l2) by set_solver. set_solver.
  - split; [apply (written_flushes _ _ Hw); simpl; [|done]; intros f; rewrite !elem_of_app, elem_of_cons; tauto|].
    intros c. apply sources_frame; [done|]. simpl. destruct (flush_known _ _ _ _ _ _ _ _ Hp) as [Hb|(_ & _ & -> & _)]; [|done].
    by rewrite (held_requeue c b m (pl_ids _ _ Hp) Hb).
  - split; [by apply (written_flushes _ _ Hw); simpl; [auto|]|]. intros c. apply sources_frame; [done|]. simpl.
    unfold WarmUp in Hwarm. destruct salt; [|done]. by injection Hwarm as <-.
  - split; [by apply (written_flushes _ _ Hw); simpl; [auto|]|]. intros c. by apply sources_frame.
  - split; [by apply (written_flushes _ _ Hw); simpl; [auto|]|]. intros c. by apply sources_frame.
Qed.

Lemma kept_any n w w' : nsteps (ipStep Keeps) n w w' -> nsteps anyStep n w w'.
Proof. induction 1; [constructor|]. econstructor; [by exists Keeps|done]. Qed.

Lemma limited_reachable n c client rows w :
  clients !! c = Some client -> enforced client = true ->
  (forall r, r ∈ rows -> sourced r) -> Z.of_nat (size (hashes (rows_of_client c rows))) <= clLimitIP client ->
  Z.of_nat n < 2 ^ 64 -> nsteps (ipStep Keeps) n (started rows) w -> limited c client (clLimitIP client) w.
Proof.
  intros Hc He Hr Hsz. revert w. induction n as [|n IH]; intros w Hn Hs.
  - inversion Hs; subst. split; simpl; [intros e; by rewrite lookup_empty|intros l ?%elem_of_nil; done|].
    unfold history, held. simpl. rewrite of_client_empty. unfold flushing_hashes. simpl. by rewrite !(right_id_L ∅ (∪)).
  - apply nsteps_inv_r in Hs as (w0 & Hs & Hk). apply (limited_step c client Hc He _ (Z.le_refl _) (Z.of_nat n) Keeps w0); [|lia| |done|done].
    + apply (plumbing_reachable n rows); [done|lia|by apply kept_any].
    + apply IH; [lia|done].
Qed.

Lemma written_reachable n rows w :
  (forall r, r ∈ rows -> sourced r) -> Z.of_nat n < 2 ^ 64 -> nsteps (ipStep Keeps) n (started rows) w -> written_ok w.
Proof.
  intros Hr. revert w. induction n as [|n IH]; intros w Hn Hs.
  - inversion Hs; subst. intros f c h Hf. simpl in Hf. by apply elem_of_nil in Hf.
  - apply nsteps_inv_r in Hs as (w0 & Hs & Hk). apply (kept_step (Z.of_nat n) w0); [|apply IH; [lia|done]|done].
    apply (plumbing_reachable n rows); [done|lia|by apply kept_any].
Qed.

Lemma sources_kept n k rows w w' c :
  (forall r, r ∈ rows -> sourced r) -> Z.of_nat (n + k) < 2 ^ 64 ->
  nsteps (ipStep Keeps) n (started rows) w -> nsteps (ipStep Keeps) k w w' -> sources c w ⊆ sources c w'.
Proof.
  intros Hr. revert w'. induction k as [|k IH]; intros w' Hn Hs Hk.
  - by inversion Hk; subst.
  - apply nsteps_inv_r in Hk as (w0 & Hk & Hlast). etrans; [apply (IH w0); [lia|done|done]|].
    pose proof (nsteps_trans _ _ _ _ _ Hs Hk) as Hall.
    apply (kept_step (Z.of_nat (n + k)) w0); [apply (plumbing_reachable (n + k) rows); [done|lia|by apply kept_any]| |done].
    apply (written_reachable (n + k) rows); [done|lia|done].
Qed.

(** A known source of an enforced client is allowed by a current policy. *)
Lemma known_allowed c client w h display observe now e :
  enforced client = true -> limited c client (clLimitIP client) w -> h ∈ sources c w ->
  mCache (wMonitor w) !! c = Some e -> now < eExpiresAt e ->
  (admitPrepared c h display observe (mRevision (wMonitor w)) now (wMonitor w)).1 = true.
Proof.
  intros He Hlim Hh Hc Hnow. unfold admitPrepared. rewrite Hc, Z.eqb_refl, (proj2 (Z.ltb_lt _ _) Hnow). cbn [negb orb fst].
  destruct (li_cache _ _ _ _ Hlim e Hc) as [_ _ Hcov _]. destruct (_ && _); [|done].
  rewrite bool_decide_eq_true_2; [done|]. rewrite seen_held. rewrite sources_held in Hh. unfold history in Hcov. set_solver.
Qed.

Lemma observed_source c h display now m m1 rows loads flushes :
  admitPrepared c h display true (mRevision m) now m = (true, m1) -> h ∈ sources c (mkIpWorld m1 rows loads flushes).
Proof.
  intros Ha. rewrite sources_held. apply elem_of_union_r. simpl. unfold admitPrepared in Ha.
  destruct (mCache m !! c) as [e|] eqn:Ee; [|done]. destruct (negb _ || negb _); [done|]. set (allowed := if _ && _ then _ else _) in Ha.
  destruct allowed; [|done]. injection Ha as <-. unfold held, recordLocked, cacheAddIPLocked. cbn [mCache]. rewrite Ee. simpl.
  rewrite of_client_insert, decide_True by done. rewrite dom_insert. set_solver.
Qed.

(** a source that was accepted is never turned away later while no history is
    deleted: after any further admissions, loads, flushes, commits, requeues and
    invalidations, every decision taken on a current policy allows it again, even when
    the client is at its limit. *)
Theorem accepted_source_readmitted n k c client rows w ip h display now m1 w' e display' observe' now' :
  clients !! c = Some client -> enforced client = true ->
  (forall r, r ∈ rows -> sourced r) -> Z.of_nat (size (hashes (rows_of_client c rows))) <= clLimitIP client ->
  Z.of_nat (S n + k) < 2 ^ 64 -> nsteps (ipStep Keeps) n (started rows) w -> hashIP ip = Some h ->
  admitPrepared c h display true (mRevision (wMonitor w)) now (wMonitor w) = (true, m1) ->
  nsteps (ipStep Keeps) k (mkIpWorld m1 (wRows w) (wLoads w) (wFlushes w)) w' ->
  mCache (wMonitor w') !! c = Some e -> now' < eExpiresAt e ->
  (admitPrepared c h display' observe' (mRevision (wMonitor w')) now' (wMonitor w')).1 = true.
Proof.
  intros Hc He Hr Hs Hn Hw Hip Ha Hk Hcache Hnow.
  assert (Hw1 : nsteps (ipStep Keeps) (S n) (started rows) (mkIpWorld m1 (wRows w) (wLoads w) (wFlushes w))).
  { apply (nsteps_r n _ w); [done|]. destruct w as [m r0 loads flushes]. simpl in *.
    replace m1 with (admitPrepared c h display true (mRevision m) now m).2 by (by rewrite Ha). by apply (ip_admit m r0 loads flushes c ip). }
  apply (known_allowed c client w' h _ _ _ e He); [|by apply (sources_kept (S n) k rows _ _ c Hr Hn Hw1 Hk), (observed_source c h display now (wMonitor w))|done|done].
  apply (limited_reachable (S n + k) c client rows); [done..|]. exact (nsteps_trans _ _ _ _ _ Hw1 Hk).
Qed.

End IpMonitor.

(** ** Histories in which clients are edited *)
Section Panel.
Context (salt : option string) (sha256hex : string -> string) (sha_not_blank : forall s, sha256hex s <> "").

Abbreviation panel := (gmap string clientRow * ipWorld)%type.

(** A step of the monitor with the clients of the moment, or an edit of the clients. *)
Inductive panelStep : kind -> panel -> panel -> Prop :=
| ps_monitor k clients w w' : ipStep salt sha256hex clients k w w' -> panelStep k (clients, w) (clients, w')
| ps_edit clients clients' w : panelStep Keeps (clients, w) (clients', w).

Definition panelAny (p p' : panel) : Prop := exists k, panelStep k p p'.

(** A step under which the row of a client stays as it is and no source of it is recorded
    without a decision. *)
Definition governed (c : string) (client : clientRow) (p p' : panel) : Prop := exists k, panelStep k p p' /\ k <> Records c /\ p'.1 !! c = Some client.

(** No policy of the client is cached, or on its way to the cache. *)
Definition uncached (c : string) (w : ipWorld) : Prop :=
  mCache (wMonitor w) !! c = None /\ forall l, l ∈ wLoads w -> ldClient l = c -> ldRevision l <> mRevision (wMonitor w).

Lemma panel_plumbing n clients rows p :
  (forall r, r ∈ rows -> sourced r) -> Z.of_nat n < 2 ^ 64 -> nsteps panelAny n (clients, started rows) p -> plumbing (Z.of_nat n) p.2.
Proof.
  intros Hr. revert p. induction n as [|n IH]; intros p Hn Hs.
  - inversion Hs; subst. by apply plumbing_started.
  - apply nsteps_inv_r in Hs as (p0 & Hs & k & Hk). rewrite Nat2Z.inj_succ, <- Z.add_1_r. specialize (IH p0 ltac:(lia) Hs).
    destruct Hk as [k cl w w' Hk|cl cl' w]; simpl in *; [by apply (plumbing_step salt sha256hex cl sha_not_blank _ k w); [|lia|]|apply (plumbing_weaken (Z.of_nat n)); [lia|done]].
Qed.

(** An invalidation leaves no policy of the client. *)
Lemma invalidated_uncached n c clients m rows loads flushes :
  plumbing n (mkIpWorld m rows loads flushes) -> n + 1 < 2 ^ 64 ->
  uncached c (mkIpWorld (InvalidateAllCache m) rows loads flushes) /\ panelAny (clients, mkIpWorld m rows loads flushes) (clients, mkIpWorld (InvalidateAllCache m) rows loads flushes).
Proof.
  intros Hp Hn. split; [|exists Keeps; apply ps_monitor, ip_invalidate_all]. destruct (pl_revision _ _ Hp). simpl in *. split; simpl; [apply lookup_empty|].
  intros l Hl _. pose proof (pl_loads_le _ _ Hp l Hl) as Hle. simpl in Hle. unfold wrapu64. rewrite Z.mod_small by lia. lia.
Qed.

Lemma governed_any n c client p p' : nsteps (governed c client) n p p' -> nsteps panelAny n p p'.
Proof. induction 1 as [|n p1 p2 p3 (k & Hk & _) _ IH]; [constructor|]. econstructor; [by exists k|done]. Qed.

Lemma governed_limited n k c client clients rows p p' :
  (forall r, r ∈ rows -> sourced r) -> Z.of_nat (n + k) < 2 ^ 64 -> nsteps panelAny n (clients, started rows) p ->
  uncached c p.2 -> p.1 !! c = Some client -> enforced client = true -> nsteps (governed c client) k p p' ->
  p'.1 !! c = Some client /\ limited salt sha256hex c client (Z.max (clLimitIP client) (Z.of_nat (size (sources salt sha256hex c p.2)))) p'.2.
Proof.
  intros Hr Hn Hs [Hu1 Hu2] Hc He. set (bound := Z.max _ _). revert p'. induction k as [|k IH]; intros p' Hk.
  - inversion Hk; subst. split; [done|]. split; [congruence|intros l Hl Hlc Hlr; by destruct (Hu2 l Hl Hlc)|].
    subst bound. rewrite sources_held. unfold history. lia.
  - apply nsteps_inv_r in Hk as (p0 & Hk & kd & Hstep & Hkd & Hrow). destruct (IH ltac:(lia) p0 Hk) as [Hrow0 Hlim]. split; [done|].
    pose proof (panel_plumbing (n + k) clients rows p0 Hr ltac:(lia) (nsteps_trans _ _ _ _ _ Hs (governed_any _ _ _ _ _ Hk))) as Hp.
    destruct Hstep as [kd cl w w' Hstep|cl cl' w]; simpl in *; [|done].
    apply (limited_step salt sha256hex cl sha_not_blank c client Hrow0 He bound ltac:(subst bound; lia) (Z.of_nat (n + k)) kd w); [done|lia|done|done|done].
Qed.

(** C27: the limit of a client in enforce mode holds from the moment its policy is in force.
    Take any history of admissions, policy loads, flushes, requeues, invalidations, deletions
    of history, bare observations and edits of the clients, at the end of which the cache
    holds no policy of the client, as at start-up and after every invalidation, and a row of
    the client in enforce mode.  As long as that row stays and no source of the client is
    recorded without a decision, the client never has more distinct sources, in its history,
    in memory and in the batches being written together, than its limit, or than it had at
    that moment if it had more. *)
Theorem ip_limit_enforced n k c client clients rows p p' :
  (forall r, r ∈ rows -> sourced r) -> Z.of_nat (n + k) < 2 ^ 64 ->
  nsteps panelAny n (clients, started rows) p ->
  uncached c p.2 -> p.1 !! c = Some client -> enforced client = true ->
  nsteps (governed c client) k p p' ->
  Z.of_nat (size (sources salt sha256hex c p'.2)) <= Z.max (clLimitIP client) (Z.of_nat (size (sources salt sha256hex c p.2))).
Proof.
  intros Hr Hn Hs Hu Hc He Hk. rewrite (sources_held _ _ _ p'.2). destruct (governed_limited n k c client clients rows p p') as [_ Hlim]; [done..|].
  exact (li_size _ _ _ _ _ _ Hlim).
Qed.
End Panel.

(** ** A run *)
Module IpExample.
Definition shaX (s : string) : string := "h" +:+ s.
Definition alice : clientRow := mkClientRow true 2 ModeEnforce.
Definition people : gmap string clientRow := {[ "alice" := alice ]}.
Definition old : ClientIP := mkClientIP "alice" "" "h#10.0.0.1" None 5 5.

Lemma shaX_not_blank s : shaX s <> "".
Proof. discriminate. Qed.

(** Start-up with one known source, then a second one. *)
Definition warm : monitor := default fresh_monitor (WarmUp (Some "#") shaX people [old] 0 fresh_monitor).
Definition two : monitor := (admitPrepared "alice" "h#10.0.0.2" None true 1 (1 * second) warm).2.

Lemma run_warm : ipStep (Some "#") shaX people Keeps (started [old]) (mkIpWorld warm [old] [] []).
Proof. by apply (ip_warm_up (Some "#") shaX people fresh_monitor warm [old] [] [] 0). Qed.

(** The client is put into monitor mode, accepts a second source, and is put back into
    enforce mode with a limit of one. *)
Definition strict : gmap string clientRow := {[ "alice" := mkClientRow true 1 ModeEnforce ]}.
Definition lenient : gmap string clientRow := {[ "alice" := mkClientRow true 1 ModeMonitor ]}.
Definition at_ (clients : gmap string clientRow) (m : monitor) (loads : list load) : gmap string clientRow * ipWorld := (clients, mkIpWorld m [old] loads []).

Definition policy (clients : gmap string clientRow) : allowCacheEntry := default (mkCacheEntry 0 "" ∅ 0) (loadCacheEntry (Some "#") shaX clients "alice" [old] (1 * second)).
Definition m1 : monitor := InvalidateAllCache fresh_monitor.
Definition m2 : monitor := refreshStore "alice" 1 (1 * second) (policy lenient) m1.
Definition m3 : monitor := (admitPrepared "alice" "h#10.0.0.2" None true 1 (2 * second) m2).2.
Definition m4 : monitor := InvalidateAllCache m3.
Definition m5 : monitor := refreshStore "alice" 2 (3 * second) (policy strict) m4.
Definition m6 : monitor := (admitPrepared "alice" "h#10.0.0.3" None true 2 (4 * second) m5).2.

Lemma run_lenient : nsteps (panelAny (Some "#") shaX) 8 (strict, started [old]) (at_ strict m4 []).
Proof.
  apply (nsteps_l _ _ _ (at_ lenient fresh_monitor [])); [exists Keeps; apply ps_edit|].
  apply (nsteps_l _ _ _ (at_ lenient m1 [])); [exists Keeps; apply ps_monitor, ip_invalidate_all|].
  apply (nsteps_l _ _ _ (at_ lenient m1 [mkLoad "alice" 1 None])); [exists Keeps; apply ps_monitor, (ip_refresh_start _ _ _ _ _ _ _ _ _ _ (1 * second)); [reflexivity|intros l Hl; by apply elem_of_nil in Hl]|].
  apply (nsteps_l _ _ _ (at_ lenient m1 [mkLoad "alice" 1 (Some (policy lenient))])); [exists Keeps; apply ps_monitor, (ip_refresh_load _ _ _ _ _ [] [] _ _ _ (1 * second)); vm_compute; reflexivity|].
  apply (nsteps_l _ _ _ (at_ lenient m2 [])); [exists Keeps; apply ps_monitor, (ip_refresh_store _ _ _ _ _ [] [])|].
  apply (nsteps_l _ _ _ (at_ lenient m3 [])); [exists Keeps; apply ps_monitor, (ip_admit _ _ _ _ _ _ _ _ "10.0.0.2"); reflexivity|].
  apply (nsteps_l _ _ _ (at_ strict m3 [])); [exists Keeps; apply ps_edit|].
  apply nsteps_once. exists Keeps. apply ps_monitor, ip_invalidate_all.
Qed.

Lemma run_strict : nsteps (governed (Some "#") shaX "alice" (mkClientRow true 1 ModeEnforce)) 4 (at_ strict m4 []) (at_ strict m6 []).
Proof.
  apply (nsteps_l _ _ _ (at_ strict m4 [mkLoad "alice" 2 None]));
    [exists Keeps; split; [apply ps_monitor, (ip_refresh_start _ _ _ _ _ _ _ _ _ _ (3 * second)); [reflexivity|intros l Hl; by apply elem_of_nil in Hl]|by split]|].
  apply (nsteps_l _ _ _ (at_ strict m4 [mkLoad "alice" 2 (Some (policy strict))])); [exists Keeps; split; [apply ps_monitor, (ip_refresh_load _ _ _ _ _ [] [] _ _ _ (1 * second)); vm_compute; reflexivity|by split]|].
  apply (nsteps_l _ _ _ (at_ strict m5 [])); [exists Keeps; split; [apply ps_monitor, (ip_refresh_store _ _ _ _ _ [] [])|by split]|].
  apply nsteps_once. exists Keeps. split; [apply ps_monitor, (ip_admit _ _ _ _ _ _ _ _ "10.0.0.3"); reflexivity|by split].
Qed.

Lemma old_sourced : forall r, r ∈ [old] -> sourced r.
Proof. intros r ->%list_elem_of_singleton. by left. Qed.
End IpExample.
Import IpExample.

(** A third source is refused, and the two known ones are not. *)
Example third_source_refused : (admitPrepared "alice" "h#10.0.0.3" None true 1 (2 * second) two).1 = false.
Proof. vm_compute. reflexivity. Qed.

(** The client keeps its two sources, and a third is refused. *)
Lemma ip_limit_enforced_witness :
  size (sources (Some "#") shaX "alice" (at_ strict m4 []).2) = 2%nat /\ (admitPrepared "alice" "h#10.0.0.3" None true 2 (4 * second) m5).1 = false /\
  Z.of_nat (size (sources (Some "#") shaX "alice" (at_ strict m6 []).2)) <= Z.max 1 (Z.of_nat (size (sources (Some "#") shaX "alice" (at_ strict m4 []).2))).
Proof.
  split; [vm_compute; reflexivity|]. split; [vm_compute; reflexivity|].
  apply (ip_limit_enforced (Some "#") shaX shaX_not_blank 8 4 "alice" (mkClientRow true 1 ModeEnforce) strict [old] (at_ strict m4 []) (at_ strict m6 [])).
  - exact old_sourced.
  - reflexivity.
  - exact run_lenient.
  - split; [vm_compute; reflexivity|]. intros l Hl. by apply elem_of_nil in Hl.
  - reflexivity.
  - reflexivity.
  - exact run_strict.
Defined.

Lemma accepted_source_readmitted_witness : (admitPrepared "alice" "h#10.0.0.2" None false 1 (2 * second) two).1 = true.
Proof.
  refine (accepted_source_readmitted (Some "#") shaX people shaX_not_blank 1 0 "alice" alice [old] (mkIpWorld warm [old] [] []) "10.0.0.2" "h#10.0.0.2"
    None (1 * second) two (mkIpWorld two [old] [] []) (mkCacheEntry 2 ModeEnforce {["h#10.0.0.1"; "h#10.0.0.2"]} (30 * second)) None false (2 * second)
    _ _ _ _ _ _ _ _ _ _ _).
  - reflexivity.
  - reflexivity.
  - exact old_sourced.
  - vm_compute. discriminate.
  - reflexivity.
  - apply nsteps_once. apply run_warm.
  - reflexivity.
  - vm_compute. reflexivity.
  - constructor.
  - vm_compute. reflexivity.
  - reflexivity.
Defined.
