(* ===== verification/Programs.v ===== *)
(** * Programs over atomic actions

    A call of a Go component that other goroutines, other processes or a crash may
    interleave with is a [prog]: a tree of atomic actions, each one with the type of its
    answer, that ends in a value.  [E] says which actions the component has.

    [wp] is what a program does from a state: every action it takes is allowed there,
    whatever the earlier answers and whatever others did in between, and the program ends
    in the postcondition. *)

From S2P Require Import Prelude.

Open Scope list_scope.

Inductive prog (E : Type -> Type) (A : Type) : Type :=
| Ret (a : A)
| Do {B} (e : E B) (k : B -> prog E A).
Arguments Ret {E A} a.
Arguments Do {E A B} e k.

Section Programs.
Context {E : Type -> Type}.

Fixpoint pbind {A B} (p : prog E A) (f : A -> prog E B) : prog E B :=
  match p with
  | Ret a => f a
  | Do e k => Do e (fun b => pbind (k b) f)
  end.

#[global] Instance prog_ret : MRet (prog E) := fun A a => Ret a.
#[global] Instance prog_bind : MBind (prog E) := fun A B f p => pbind p f.

Definition act {B} (e : E B) : prog E B := Do e Ret.

(** [x, err := p; if err != nil { return err }; k] *)
Definition attempt {X A B} (p : prog E (result X A)) (k : A -> prog E (result X B)) : prog E (result X B) :=
  pbind p (fun r => match r with Ok a => k a | Err e => Ret (Err e) end).

Definition fail {X A} (e : X) : prog E (result X A) := Ret (Err e).
End Programs.

Notation "'let??' x ':=' p 'in' k" := (attempt p (fun x => k)) (at level 10, x pattern, p at level 200, k at level 200) : go_scope.

(** ** Weakest preconditions
    [ok e s]: action [e] may be taken in state [s]; [answer e s b s']: the program may go
    on with answer [b] in state [s'], after the effect of the action and of whatever
    others did meanwhile. *)
Section Wp.
Context {E : Type -> Type} {S : Type}.
Context (ok : forall B, E B -> S -> Prop) (answer : forall B, E B -> S -> B -> S -> Prop).

Fixpoint wp {A} (p : prog E A) (Q : A -> S -> Prop) (s : S) : Prop :=
  match p with
  | Ret a => Q a s
  | Do e k => ok _ e s /\ forall b s', answer _ e s b s' -> wp (k b) Q s'
  end.

Lemma wp_ret {A} (a : A) (Q : A -> S -> Prop) s : Q a s -> wp (Ret a) Q s.
Proof. done. Qed.

Lemma wp_act {B} (e : E B) (Q : B -> S -> Prop) s : ok _ e s -> (forall b s', answer _ e s b s' -> Q b s') -> wp (act e) Q s.
Proof. done. Qed.

Lemma wp_mono {A} (p : prog E A) (Q Q' : A -> S -> Prop) s : wp p Q s -> (forall a s', Q a s' -> Q' a s') -> wp p Q' s.
Proof.
  revert s. induction p as [a|B e k IH]; simpl; intros s Hp HQ; [auto|]. destruct Hp as [Ho Hk]. split; [done|]. intros b s' Ha. apply IH; auto.
Qed.

Lemma wp_bind {A B} (p : prog E A) (f : A -> prog E B) (Q : B -> S -> Prop) s : wp p (fun a => wp (f a) Q) s -> wp (p ≫= f) Q s.
Proof.
  unfold mbind, prog_bind. revert s. induction p as [a|C e k IH]; simpl; intros s Hp; [done|]. destruct Hp as [Ho Hk]. split; [done|].
  intros b s' Ha. apply IH. auto.
Qed.

Lemma wp_attempt {X A B} (p : prog E (result X A)) (k : A -> prog E (result X B)) (Q : result X B -> S -> Prop) s :
  wp p (fun r s' => match r with Ok a => wp (k a) Q s' | Err e => Q (Err e) s' end) s -> wp (attempt p k) Q s.
Proof. intros H. unfold attempt. apply (wp_bind p). eapply wp_mono; [exact H|]. by intros [a|e]. Qed.
End Wp.

Arguments wp {E S} ok answer {A} p Q s.
