(* ===== verification/OperationLocks.v ===== *)
(** * Server protection: the table of operation locks ([service/repository/operations.go])

    Every dangerous operation of the server-protection component (firewall, fronting,
    node, native fallback, local proxy) has a row that is its lock, its state and its
    fence: an owner, a lease and a revision that every change of state advances.

    The table is the list of its rows in the order of their primary keys.  A store
    operation is one transaction: it returns the table after it, which is the table
    before it when it fails.  Failures of the database itself are added where calls
    are interleaved ([OperationManager]).  Times are Unix seconds; revisions are far
    from the end of their range and are plain integers. *)

From S2P Require Import Prelude GoStrings.

Open Scope string_scope.
Open Scope list_scope.
Open Scope Z_scope.

(** ** States and kinds *)
Definition StatePrepared : string := "prepared".
Definition StateApplying : string := "applying".
Definition StateRestoringRuntime : string := "restoring_runtime".
Definition StateHealth : string := "health".
Definition StateHealthFailed : string := "health_failed".
Definition StateRollingBack : string := "rolling_back".
Definition StateLockSuspect : string := "lock_suspect".
Definition StateApplied : string := "applied".
Definition StateRolledBack : string := "rolled_back".
Definition StateRollbackFailed : string := "rollback_failed".
Definition StateReconcileRequired : string := "reconcile_required".
Definition StateAbandoned : string := "abandoned".
Definition StateForceUnlocked : string := "force_unlocked".
Definition StateForgotten : string := "forgotten".
Definition StateCancelled : string := "cancelled".

Definition KindFirewall : string := "firewall".
Definition KindFronting : string := "fronting".
Definition KindNode : string := "node".
Definition KindNativeFallback : string := "native_fallback".
Definition KindLocalProxy : string := "local_proxy".

Definition nonTerminalOperationLockStates : list string :=
  [StatePrepared; StateApplying; StateHealth; StateHealthFailed; StateRollingBack; StateLockSuspect; StateRestoringRuntime].

Definition containsOperationState (states : list string) (state : string) : bool := existsb (String.eqb state) states.

Definition non_terminal (state : string) : bool := containsOperationState nonTerminalOperationLockStates state.

(** ** Rows *)
Record OperationLock := mkOperationLock {
  olOperationID : string;
  olKind : string;
  olResourceID : string;
  olProtocol : string;
  olListen : string;
  olPort : option Z;
  olState : string;
  olRevision : Z;
  olIdempotencyKey : string;
  olPlanRevision : string;
  olHelperRevision : string;
  olLockedByPID : option Z;
  olLockedByInstanceID : string;
  olActor : string;
  olRecoveryAttempts : Z;
  olLastRecoveryAt : option Z;
  olRecoveryErrorCode : string;
  olHeartbeatAt : Z;
  olExpiresAt : Z;
  olCreatedAt : Z;
  olUpdatedAt : Z
}.

Abbreviation lockTable := (list OperationLock).

Inductive opError :=
| ErrOperationConflict
| ErrOperationFenced
| ErrRevisionConflict
| ErrRecordNotFound
| ErrConfirmationRequired
| ErrAuditUnavailable
| ErrDatabase
| ErrInvalid (what : string)
| ErrBackend
| ErrRuntimeRecovery (step : string).

(** One assignment of gorm's [Updates]. *)
Inductive column :=
| ColState (v : string)
| ColRevision (v : Z)
| ColHelperRevision (v : string)
| ColLockedByPID (v : Z)
| ColLockedByInstanceID (v : string)
| ColRecoveryAttempts (v : Z)
| ColLastRecoveryAt (v : Z)
| ColRecoveryErrorCode (v : string)
| ColHeartbeatAt (v : Z)
| ColExpiresAt (v : Z)
| ColUpdatedAt (v : Z).

Definition assign (r : OperationLock) (c : column) : OperationLock := {|
  olOperationID := olOperationID r;
  olKind := olKind r;
  olResourceID := olResourceID r;
  olProtocol := olProtocol r;
  olListen := olListen r;
  olPort := olPort r;
  olState := match c with ColState v => v | _ => olState r end;
  olRevision := match c with ColRevision v => v | _ => olRevision r end;
  olIdempotencyKey := olIdempotencyKey r;
  olPlanRevision := olPlanRevision r;
  olHelperRevision := match c with ColHelperRevision v => v | _ => olHelperRevision r end;
  olLockedByPID := match c with ColLockedByPID v => Some v | _ => olLockedByPID r end;
  olLockedByInstanceID := match c with ColLockedByInstanceID v => v | _ => olLockedByInstanceID r end;
  olActor := olActor r;
  olRecoveryAttempts := match c with ColRecoveryAttempts v => v | _ => olRecoveryAttempts r end;
  olLastRecoveryAt := match c with ColLastRecoveryAt v => Some v | _ => olLastRecoveryAt r end;
  olRecoveryErrorCode := match c with ColRecoveryErrorCode v => v | _ => olRecoveryErrorCode r end;
  olHeartbeatAt := match c with ColHeartbeatAt v => v | _ => olHeartbeatAt r end;
  olExpiresAt := match c with ColExpiresAt v => v | _ => olExpiresAt r end;
  olCreatedAt := olCreatedAt r;
  olUpdatedAt := match c with ColUpdatedAt v => v | _ => olUpdatedAt r end
|}.

Definition assigns (cols : list column) (r : OperationLock) : OperationLock := foldl assign r cols.

(** ** Queries *)
Definition is_op (operationID : string) (r : OperationLock) : bool := String.eqb (olOperationID r) operationID.

Definition first_row (cond : OperationLock -> bool) (t : lockTable) : option OperationLock := List.find cond t.

(** [Order("id DESC").First] *)
Definition last_row (cond : OperationLock -> bool) (t : lockTable) : option OperationLock := List.find cond (rev t).

Definition rows_affected (cond : OperationLock -> bool) (t : lockTable) : Z := Z.of_nat (length (List.filter cond t)).

Definition update_where (cond : OperationLock -> bool) (cols : list column) (t : lockTable) : lockTable :=
  (fun r => if cond r then assigns cols r else r) <$> t.

(** A conditional update that must hit one row, and the row read back. *)
Definition update_one (cond : OperationLock -> bool) (cols : list column) (missed : opError) (operationID : string) (t : lockTable)
  : lockTable * result opError OperationLock :=
  if rows_affected cond t =? 1 then
    match first_row (is_op operationID) (update_where cond cols t) with
    | Some item => (update_where cond cols t, Ok item)
    | None => (t, Err ErrDatabase)
    end
  else (t, Err missed).

Definition found (r : option OperationLock) : result opError OperationLock :=
  match r with Some item => Ok item | None => Err ErrRecordNotFound end.

Definition OperationByIdempotencyKey (key : string) (t : lockTable) : result opError OperationLock :=
  found (last_row (fun r => String.eqb (olIdempotencyKey r) key) t).

Definition OperationByID (operationID : string) (t : lockTable) : result opError OperationLock := found (first_row (is_op operationID) t).

(** [ORDER BY created_at DESC, id DESC] *)
Fixpoint insert_newest (r : OperationLock) (l : list OperationLock) : list OperationLock :=
  match l with
  | [] => [r]
  | x :: l' => if olCreatedAt x <=? olCreatedAt r then r :: x :: l' else x :: insert_newest r l'
  end.

Definition newest_first (t : lockTable) : list OperationLock := foldl (fun acc r => insert_newest r acc) [] t.

Definition ListOperationLocks (states : list string) (t : lockTable) : list OperationLock :=
  newest_first (match states with [] => t | _ => List.filter (fun r => containsOperationState states (olState r)) t end).

(** ** Changes *)
Record AcquireOperationLockInput := mkAcquireInput {
  aiOperationID : string;
  aiKind : string;
  aiResourceID : string;
  aiProtocol : string;
  aiListen : string;
  aiPort : option Z;
  aiState : string;
  aiIdempotencyKey : string;
  aiPlanRevision : string;
  aiHelperRevision : string;
  aiLockedByPID : Z;
  aiLockedByInstanceID : string;
  aiActor : string;
  aiNow : Z;
  aiExpiresAt : Z
}.

Definition new_lock (i : AcquireOperationLockInput) : OperationLock := {|
  olOperationID := aiOperationID i; olKind := aiKind i; olResourceID := aiResourceID i;
  olProtocol := aiProtocol i; olListen := aiListen i; olPort := aiPort i; olState := aiState i;
  olRevision := 1; olIdempotencyKey := aiIdempotencyKey i; olPlanRevision := aiPlanRevision i;
  olHelperRevision := aiHelperRevision i; olLockedByPID := Some (aiLockedByPID i);
  olLockedByInstanceID := aiLockedByInstanceID i; olActor := aiActor i; olRecoveryAttempts := 0;
  olLastRecoveryAt := None; olRecoveryErrorCode := ""; olHeartbeatAt := aiNow i; olExpiresAt := aiExpiresAt i;
  olCreatedAt := aiNow i; olUpdatedAt := aiNow i
|}.

(** [operation_id] has a unique index. *)
Definition create_lock (i : AcquireOperationLockInput) (t : lockTable) : lockTable * result opError (OperationLock * bool) :=
  if existsb (fun r => non_terminal (olState r)) t then (t, Err ErrOperationConflict)
  else if existsb (is_op (aiOperationID i)) t then (t, Err ErrDatabase)
  else (t ++ [new_lock i], Ok (new_lock i, false)).

Definition AcquireOperationLock (i : AcquireOperationLockInput) (t : lockTable) : lockTable * result opError (OperationLock * bool) :=
  if String.eqb (aiIdempotencyKey i) "" then create_lock i t
  else
    match last_row (fun r => String.eqb (olIdempotencyKey r) (aiIdempotencyKey i)) t with
    | Some existing => (t, Ok (existing, true))
    | None => create_lock i t
    end.

Definition owned_by (instanceID : string) (pid : Z) (r : OperationLock) : bool :=
  String.eqb (olLockedByInstanceID r) instanceID && match olLockedByPID r with Some p => p =? pid | None => false end.

Definition at_revision (operationID : string) (revision : Z) (r : OperationLock) : bool := is_op operationID r && (olRevision r =? revision).

Definition optional_helper (binding : option string) : list column := match binding with Some b => [ColHelperRevision b] | None => [] end.

Record FencedOperationLockUpdate := mkFencedUpdate {
  fuOperationID : string;
  fuRevision : Z;
  fuInstanceID : string;
  fuPID : Z;
  fuFromStates : list string;
  fuToState : string;
  fuHelperRevision : option string;
  fuNow : Z;
  fuExpiresAt : Z
}.

Definition fenced_cond (u : FencedOperationLockUpdate) (r : OperationLock) : bool :=
  at_revision (fuOperationID u) (fuRevision u) r && owned_by (fuInstanceID u) (fuPID u) r
  && containsOperationState (fuFromStates u) (olState r)
  && (negb (String.eqb (fuToState u) StateApplying) || negb (String.eqb (olState r) StatePrepared) || (fuNow u <? olExpiresAt r)).

Definition UpdateOperationLockFenced (u : FencedOperationLockUpdate) (t : lockTable) : lockTable * result opError OperationLock :=
  update_one (fenced_cond u)
    ([ColState (fuToState u); ColRevision (fuRevision u + 1); ColHeartbeatAt (fuNow u); ColExpiresAt (fuExpiresAt u); ColUpdatedAt (fuNow u)]
       ++ optional_helper (fuHelperRevision u))
    ErrOperationFenced (fuOperationID u) t.

Definition heartbeat_cond (operationID instanceID : string) (pid revision : Z) (r : OperationLock) : bool :=
  at_revision operationID revision r && owned_by instanceID pid r && non_terminal (olState r).

Definition HeartbeatOperationLock (operationID instanceID : string) (pid revision now expiresAt : Z) (t : lockTable)
  : lockTable * result opError OperationLock :=
  update_one (heartbeat_cond operationID instanceID pid revision)
    [ColHeartbeatAt now; ColExpiresAt expiresAt; ColUpdatedAt now] ErrOperationFenced operationID t.

Record RecoveryOperationLockUpdate := mkRecoveryUpdate {
  ruOperationID : string;
  ruExpectedRevision : Z;
  ruFromStates : list string;
  ruToState : string;
  ruNow : Z
}.

Definition RecoverOperationLock (u : RecoveryOperationLockUpdate) (t : lockTable) : lockTable * result opError OperationLock :=
  update_one (fun r => at_revision (ruOperationID u) (ruExpectedRevision u) r && containsOperationState (ruFromStates u) (olState r))
    [ColState (ruToState u); ColRevision (ruExpectedRevision u + 1); ColUpdatedAt (ruNow u)] ErrRevisionConflict (ruOperationID u) t.

Record ReclaimOperationLockUpdate := mkReclaimUpdate {
  rcOperationID : string;
  rcRevision : Z;
  rcInstanceID : string;
  rcPID : Z;
  rcFromState : string;
  rcToState : string;
  rcHelperRevision : option string;
  rcNow : Z;
  rcExpiresAt : Z;
  rcRequireIdle : bool
}.

Definition ReclaimOperationLock (u : ReclaimOperationLockUpdate) (t : lockTable) : lockTable * result opError OperationLock :=
  let idle := negb (existsb (fun r => negb (is_op (rcOperationID u) r) && non_terminal (olState r)) t) in
  match update_one (fun r => at_revision (rcOperationID u) (rcRevision u) r && String.eqb (olState r) (rcFromState u))
    ([ColState (rcToState u); ColRevision (rcRevision u + 1); ColLockedByInstanceID (rcInstanceID u); ColLockedByPID (rcPID u);
      ColHeartbeatAt (rcNow u); ColExpiresAt (rcExpiresAt u); ColUpdatedAt (rcNow u)] ++ optional_helper (rcHelperRevision u))
    ErrOperationFenced (rcOperationID u) t with
  | (t', Ok item) => if rcRequireIdle u && negb idle then (t, Err ErrOperationConflict) else (t', Ok item)
  | (_, Err e) => (t, Err e)
  end.

(** [ForceUnlockOperation] and [ForgetOperationState] read the row, decide, and update it. *)
Definition settle (operationID : string) (expectedRevision : Z) (from : string -> bool) (toState : string) (now : Z) (t : lockTable)
  : lockTable * result opError OperationLock :=
  match first_row (is_op operationID) t with
  | None => (t, Err ErrRecordNotFound)
  | Some current =>
      if negb (olRevision current =? expectedRevision) then (t, Err ErrRevisionConflict)
      else if negb (from (olState current)) then (t, Err ErrOperationConflict)
      else update_one (at_revision operationID expectedRevision)
             [ColState toState; ColRevision (expectedRevision + 1); ColUpdatedAt now] ErrRevisionConflict operationID t
  end.

Definition ForceUnlockOperation (operationID : string) (expectedRevision now : Z) : lockTable -> lockTable * result opError OperationLock :=
  settle operationID expectedRevision non_terminal StateForceUnlocked now.

Definition ForgetOperationState (operationID : string) (expectedRevision now : Z) : lockTable -> lockTable * result opError OperationLock :=
  settle operationID expectedRevision (fun s => String.eqb s StateApplied || String.eqb s StateRollbackFailed) StateForgotten now.

Definition MarkOperationRecovery (operationID : string) (attempts at_ : Z) (code : string) (t : lockTable) : lockTable * result opError unit :=
  (update_where (is_op operationID)
     [ColRecoveryAttempts attempts; ColLastRecoveryAt at_; ColRecoveryErrorCode code; ColUpdatedAt at_] t, Ok tt).

Definition runtime_restore_execution_failed : string := "runtime_restore_execution_failed".

Definition RecordRuntimeRecoveryFailure (operation : OperationLock) (attempts now : Z) (t : lockTable) : lockTable * result opError unit :=
  match olLockedByPID operation with
  | Some pid =>
      if negb (String.eqb (olKind operation) KindFirewall) || (attempts <? 1) then (t, Err ErrOperationFenced)
      else
        let cond r := at_revision (olOperationID operation) (olRevision operation) r
                      && owned_by (olLockedByInstanceID operation) pid r && String.eqb (olState r) (olState operation) in
        if rows_affected cond t =? 1 then
          (update_where cond
             ([ColRecoveryAttempts attempts; ColLastRecoveryAt now; ColRecoveryErrorCode runtime_restore_execution_failed; ColUpdatedAt now]
                ++ (if 2 <=? attempts then [ColState StateReconcileRequired; ColRevision (olRevision operation + 1)] else [])) t, Ok tt)
        else (t, Err ErrOperationFenced)
  | None => (t, Err ErrOperationFenced)
  end.

(** ** Store calls *)
Inductive storeCall : Type -> Type :=
| CAcquire (i : AcquireOperationLockInput) : storeCall (OperationLock * bool)
| CByKey (key : string) : storeCall OperationLock
| CByID (operationID : string) : storeCall OperationLock
| CList (states : list string) : storeCall (list OperationLock)
| CFenced (u : FencedOperationLockUpdate) : storeCall OperationLock
| CHeartbeat (operationID instanceID : string) (pid revision now expiresAt : Z) : storeCall OperationLock
| CRecover (u : RecoveryOperationLockUpdate) : storeCall OperationLock
| CReclaim (u : ReclaimOperationLockUpdate) : storeCall OperationLock
| CForceUnlock (operationID : string) (expectedRevision now : Z) : storeCall OperationLock
| CForget (operationID : string) (expectedRevision now : Z) : storeCall OperationLock
| CMark (operationID : string) (attempts at_ : Z) (code : string) : storeCall unit
| CRecordFailure (operation : OperationLock) (attempts now : Z) : storeCall unit.

Definition exec {A} (c : storeCall A) (t : lockTable) : lockTable * result opError A :=
  match c in storeCall A return lockTable * result opError A with
  | CAcquire i => AcquireOperationLock i t
  | CByKey key => (t, OperationByIdempotencyKey key t)
  | CByID id => (t, OperationByID id t)
  | CList states => (t, Ok (ListOperationLocks states t))
  | CFenced u => UpdateOperationLockFenced u t
  | CHeartbeat id inst pid rev now ex => HeartbeatOperationLock id inst pid rev now ex t
  | CRecover u => RecoverOperationLock u t
  | CReclaim u => ReclaimOperationLock u t
  | CForceUnlock id rev now => ForceUnlockOperation id rev now t
  | CForget id rev now => ForgetOperationState id rev now t
  | CMark id n at_ code => MarkOperationRecovery id n at_ code t
  | CRecordFailure op n now => RecordRuntimeRecoveryFailure op n now t
  end.
