(* ===== verification/OperationManager.v ===== *)
(** * Server protection: the operations manager ([service/operations/manager.go])

    The manager of a process owns at most one operation at a time.  Its calls are
    programs ([prog]): trees of atomic actions, each one a store transaction, a
    critical section of the manager's mutex, or a question to the environment (the
    clock, the liveness of a process, the recovery and reconciliation backends, the
    audit log).  Programs of many managers interleave action by action
    ([OperationHistories]).

    [DbNew] is [AcquireOperationLock] with an identifier drawn at random.  The process
    mutex is [psGate]: a process has one manager.  A lease is a number of seconds.
    Contexts are not modelled, except that the wait of [Stop] may end before the
    runner does. *)

From S2P Require Import Prelude GoStrings Programs OperationLocks.

Open Scope string_scope.
Open Scope list_scope.
Open Scope Z_scope.

(** ** State of a process *)
Record Manager := mkManager {
  mStarted : bool;
  mStopped : bool;
  mDone : option nat;            (** the identity of the runner's channel *)
  mActive : option OperationLock;
  mOwnsGate : bool;
  mRecoveredSuspect : gset string;
  mRecovery : bool;              (** whether [opts.Recovery] is set *)
  mRecoveries : gset string;
  mReconcilers : gset string;
  mRuntimeFailures : gmap string Z
}.

Record procState := mkProcState { psGate : bool; psManager : Manager }.

Record Options := mkOptions { opInstanceID : string; opPID : Z; opLease : Z; opAudit : bool }.

Definition set_active (a : option OperationLock) (m : Manager) : Manager :=
  mkManager (mStarted m) (mStopped m) (mDone m) a (mOwnsGate m) (mRecoveredSuspect m) (mRecovery m) (mRecoveries m) (mReconcilers m) (mRuntimeFailures m).

Definition set_owns (b : bool) (m : Manager) : Manager :=
  mkManager (mStarted m) (mStopped m) (mDone m) (mActive m) b (mRecoveredSuspect m) (mRecovery m) (mRecoveries m) (mReconcilers m) (mRuntimeFailures m).

Definition set_suspects (s : gset string) (m : Manager) : Manager :=
  mkManager (mStarted m) (mStopped m) (mDone m) (mActive m) (mOwnsGate m) s (mRecovery m) (mRecoveries m) (mReconcilers m) (mRuntimeFailures m).

Definition set_runner (started stopped : bool) (done : option nat) (m : Manager) : Manager :=
  mkManager started stopped done (mActive m) (mOwnsGate m) (mRecoveredSuspect m) (mRecovery m) (mRecoveries m) (mReconcilers m) (mRuntimeFailures m).

Definition set_failures (f : gmap string Z) (m : Manager) : Manager :=
  mkManager (mStarted m) (mStopped m) (mDone m) (mActive m) (mOwnsGate m) (mRecoveredSuspect m) (mRecovery m) (mRecoveries m) (mReconcilers m) f.

Definition set_backends (recovery : bool) (recoveries reconcilers : gset string) (m : Manager) : Manager :=
  mkManager (mStarted m) (mStopped m) (mDone m) (mActive m) (mOwnsGate m) (mRecoveredSuspect m) recovery recoveries reconcilers (mRuntimeFailures m).

Definition newManager : Manager := mkManager false false None None false ∅ false ∅ ∅ ∅.

(** ** Actions and programs *)
Record ReconcileDecision := mkDecide { rdState : string; rdReason : string }.

Inductive action : Type -> Type :=
| Db {A} (c : storeCall A) : action (result opError A)
| Locked {A} (f : procState -> procState * A) : action A
| Now : action Z
| DbNew (i : string -> AcquireOperationLockInput) : action (result opError (OperationLock * bool))
| Alive (pid : Z) : action (result opError bool)
| AwaitDone (done : nat) : action bool
| Audit (actor event operationID : string) : action (result opError unit)
| HasMutationArtifact (item : OperationLock) : action (result opError bool)
| AttemptRollback (item : OperationLock) : action (result opError unit)
| CreateBundle (item : OperationLock) (state : string) : action (result opError unit)
| NeedsReconcile (item : OperationLock) : action (option (result opError bool))
| Reconcile (item : OperationLock) : action (result opError ReconcileDecision).

Abbreviation prog := (prog action).

(** A critical section that reads, and one that writes. *)
Definition reading {A} (f : Manager -> A) : prog A := act (Locked (fun s => (s, f (psManager s)))).
Definition writing (f : Manager -> Manager) : prog unit := act (Locked (fun s => (mkProcState (psGate s) (f (psManager s)), tt))).

(** ** The process gate *)
Definition releaseGateLocked (s : procState) : procState :=
  if mOwnsGate (psManager s) then mkProcState false (set_owns false (psManager s)) else s.

Definition tryAcquireGateLocked (s : procState) : procState * bool :=
  if mOwnsGate (psManager s) then (s, match mActive (psManager s) with None => true | Some _ => false end)
  else if psGate s then (s, false)
  else (mkProcState true (set_owns true (psManager s)), true).

Definition tryAcquireGate : prog bool := act (Locked tryAcquireGateLocked).
Definition releaseGate : prog unit := act (Locked (fun s => (releaseGateLocked s, tt))).
Definition isStopped : prog bool := reading mStopped.

(** [m.active = nil; m.releaseGateLocked()] *)
Definition dropActive : prog unit :=
  act (Locked (fun s => (releaseGateLocked (mkProcState (psGate s) (set_active None (psManager s))), tt))).

(** ** States *)
Definition validKind (kind : string) : bool :=
  String.eqb kind KindFirewall || String.eqb kind KindFronting || String.eqb kind KindNode ||
  String.eqb kind KindNativeFallback || String.eqb kind KindLocalProxy.

Definition isTerminal (state : string) : bool :=
  containsOperationState [StateApplied; StateRolledBack; StateRollbackFailed; StateReconcileRequired; StateAbandoned; StateForceUnlocked; StateForgotten; StateCancelled] state.

Definition allowedFromStates (to : string) : list string :=
  if String.eqb to StateRestoringRuntime then [StateApplied; StateReconcileRequired]
  else if String.eqb to StateApplying then [StatePrepared]
  else if String.eqb to StateHealth then [StateApplying]
  else if String.eqb to StateApplied || String.eqb to StateHealthFailed then [StateHealth; StateApplying]
  else if String.eqb to StateRollingBack then [StateApplying; StateHealth; StateHealthFailed]
  else if String.eqb to StateRolledBack || String.eqb to StateRollbackFailed then [StateRollingBack; StateHealthFailed]
  else if String.eqb to StateReconcileRequired then [StatePrepared; StateApplying; StateHealth; StateHealthFailed; StateRollingBack; StateApplied]
  else if String.eqb to StateLockSuspect then [StatePrepared; StateApplying; StateHealthFailed; StateRollingBack]
  else if String.eqb to StateAbandoned then [StatePrepared; StateApplying; StateHealthFailed; StateRollingBack; StateLockSuspect]
  else if String.eqb to StateCancelled then [StatePrepared; StateApplying]
  else [].

Definition reconcileTerminalState (state : string) : bool :=
  containsOperationState [StateApplied; StateRolledBack; StateRollbackFailed; StateReconcileRequired; StateCancelled; StateForgotten] state.

(** ** Backends *)
Definition SetRecovery (present : bool) : prog (result opError unit) :=
  act (Locked (fun s =>
    let m := psManager s in
    if mStarted m then (s, if mRecovery m then Ok tt else Err (ErrInvalid "recovery backend cannot change while the runner is active"))
    else (mkProcState (psGate s) (set_backends present (mRecoveries m) (mReconcilers m) m), Ok tt))).

Definition SetRecoveryForKind (kind : string) (present : bool) : prog (result opError unit) :=
  if negb (validKind kind) || negb present then fail (ErrInvalid "valid operation kind and recovery backend are required")
  else act (Locked (fun s =>
    let m := psManager s in
    if mStarted m then (s, if bool_decide (kind ∈ mRecoveries m) then Ok tt else Err (ErrInvalid "kind recovery backend cannot change while the runner is active"))
    else (mkProcState (psGate s) (set_backends (mRecovery m) ({[kind]} ∪ mRecoveries m) (mReconcilers m) m), Ok tt))).

Definition SetReconcilerForKind (kind : string) (present : bool) : prog (result opError unit) :=
  if negb (validKind kind) || negb present then fail (ErrInvalid "valid operation kind and reconciler are required")
  else act (Locked (fun s =>
    let m := psManager s in
    if mStarted m then (s, if bool_decide (kind ∈ mReconcilers m) then Ok tt else Err (ErrInvalid "kind reconciler cannot change while the runner is active"))
    else (mkProcState (psGate s) (set_backends (mRecovery m) (mRecoveries m) ({[kind]} ∪ mReconcilers m) m), Ok tt))).

Definition reconcilerForKind (kind : string) : prog bool := reading (fun m => bool_decide (kind ∈ mReconcilers m)).
Definition recoveryForKind (kind : string) : prog bool := reading (fun m => bool_decide (kind ∈ mRecoveries m) || mRecovery m).

Section Manager.
Context (opts : Options).

Definition lease_end (now : Z) : Z := now + opLease opts.

(** ** Helper locks *)
Definition validateHelperLock (operationID instanceID kind : string) (revision : Z) (allowTerminalRead : bool) : prog (result opError unit) :=
  s ← reading (fun m => (mStopped m, mOwnsGate m, mActive m));
  let '(stopped, ownsGate, active) := s in
  match active with
  | None => fail ErrOperationFenced
  | Some a =>
      if stopped || negb ownsGate || negb (String.eqb (olOperationID a) operationID) || negb (String.eqb (olLockedByInstanceID a) instanceID)
         || negb (String.eqb (olKind a) kind) || negb (olRevision a =? revision) then fail ErrOperationFenced
      else
        r ← act (Db (CByID operationID));
        match r with
        | Err _ => fail ErrOperationFenced
        | Ok item =>
            now ← act Now;
            if String.eqb (olState item) StatePrepared && (olExpiresAt item <=? now) then fail ErrOperationConflict
            else if negb (owned_by (opInstanceID opts) (opPID opts) item) || negb (String.eqb (olLockedByInstanceID item) instanceID)
                    || negb (String.eqb (olKind item) kind) || negb (olRevision item =? revision) || String.eqb (olState item) StateLockSuspect
                    || (isTerminal (olState item) && (negb allowTerminalRead || (negb (String.eqb (olState item) StateApplied) && negb (String.eqb (olState item) StateReconcileRequired))))
            then fail ErrOperationFenced
            else Ret (Ok tt)
        end
  end.

Definition ValidateHelperLock (operationID instanceID kind : string) (revision : Z) := validateHelperLock operationID instanceID kind revision false.
Definition ValidateHelperReadLock (operationID instanceID kind : string) (revision : Z) := validateHelperLock operationID instanceID kind revision true.

(** ** Acquire *)
Record AcquireRequest := mkAcquireRequest {
  aqKind : string; aqResourceID : string; aqProtocol : string; aqListen : string; aqPort : option Z;
  aqIdempotencyKey : string; aqPlanRevision : string; aqHelperRevision : string; aqActor : string; aqInitialState : string
}.

Definition bad_port (p : option Z) : bool := match p with Some n => (n <? 1) || (65535 <? n) | None => false end.

Definition acquire_state (initial : string) : string := if String.eqb initial "" then StatePrepared else initial.

Definition Acquire (request : AcquireRequest) : prog (result opError (OperationLock * bool)) :=
  stopped ← isStopped;
  if (stopped : bool) then fail ErrOperationFenced
  else
    let kind := TrimSpace (aqKind request) in
    let key := TrimSpace (aqIdempotencyKey request) in
    let actor := TrimSpace (aqActor request) in
    if negb (validKind kind) then fail (ErrInvalid "invalid operation kind")
    else if String.eqb key "" then fail (ErrInvalid "idempotency key is required")
    else if String.eqb actor "" then fail (ErrInvalid "actor is required")
    else if bad_port (aqPort request) then fail (ErrInvalid "port must be between 1 and 65535")
    else
      existing ← act (Db (CByKey key));
      match existing with
      | Ok item => Ret (Ok (item, true))
      | Err ErrRecordNotFound =>
          gate ← tryAcquireGate;
          if negb gate then fail ErrOperationConflict
          else
            let state := acquire_state (aqInitialState request) in
            if negb (containsOperationState [StatePrepared; StateApplying; StateRollingBack] state) then
              _ ← releaseGate; fail (ErrInvalid "invalid initial operation state")
            else
              now ← act Now;
              r ← act (DbNew (fun id => mkAcquireInput id kind (TrimSpace (aqResourceID request)) (TrimSpace (aqProtocol request)) (TrimSpace (aqListen request))
                     (aqPort request) state key (TrimSpace (aqPlanRevision request)) (TrimSpace (aqHelperRevision request))
                     (opPID opts) (opInstanceID opts) actor now (lease_end now)));
              match r with
              | Err e => _ ← releaseGate; fail e
              | Ok (item, true) => _ ← releaseGate; Ret (Ok (item, true))
              | Ok (item, false) => _ ← writing (set_active (Some item)); Ret (Ok (item, false))
              end
      | Err e => fail e
      end.

Definition auditAction (actor event operationID : string) : prog (result opError unit) :=
  if String.eqb (TrimSpace actor) "" then fail (ErrInvalid "actor is required")
  else if negb (opAudit opts) then fail ErrAuditUnavailable
  else act (Audit actor event operationID).

Definition Prepare (request : AcquireRequest) (planRevision confirmation : string) : prog (result opError (OperationLock * bool)) :=
  if negb (String.eqb confirmation ("PREPARE SERVER PROTECTION " +:+ planRevision)) || String.eqb (TrimSpace planRevision) "" then fail ErrConfirmationRequired
  else
    let?? _ := auditAction (aqActor request) "server_protection.prepare" (aqIdempotencyKey request) in
    Acquire (mkAcquireRequest (aqKind request) (aqResourceID request) (aqProtocol request) (aqListen request) (aqPort request)
      (aqIdempotencyKey request) planRevision (aqHelperRevision request) (aqActor request) StatePrepared).

(** ** Transitions *)
Definition transition (operationID : string) (revision : Z) (toState : string) (binding : option string) : prog (result opError OperationLock) :=
  s ← reading (fun m => (mStopped m, mActive m));
  let '(stopped, active) := s in
  match active with
  | None => fail ErrOperationFenced
  | Some a =>
      if (stopped : bool) || negb (String.eqb (olOperationID a) operationID) then fail ErrOperationFenced
      else if String.eqb toState StateRestoringRuntime && negb (String.eqb (olKind a) KindFirewall) then fail ErrOperationFenced
      else
        match allowedFromStates toState with
        | [] => fail (ErrInvalid "invalid terminal or non-terminal transition")
        | fromStates =>
            now ← act Now;
            let?? item := act (Db (CFenced (mkFencedUpdate operationID revision (opInstanceID opts) (opPID opts) fromStates toState binding now (lease_end now)))) in
            _ ← (if isTerminal toState then dropActive else writing (set_active (Some item)));
            Ret (Ok item)
        end
  end.

Definition Transition (operationID : string) (revision : Z) (toState : string) := transition operationID revision toState None.
Definition TransitionWithBinding (operationID : string) (revision : Z) (toState binding : string) := transition operationID revision toState (Some binding).

Definition beginRollback (operationID : string) (revision : Z) (fromState : string) (binding : option string) : prog (result opError OperationLock) :=
  stopped ← isStopped;
  if (stopped : bool) then fail ErrOperationConflict
  else
    gate ← tryAcquireGate;
    if negb gate then fail ErrOperationConflict
    else
      now ← act Now;
      r ← act (Db (CReclaim (mkReclaimUpdate operationID revision (opInstanceID opts) (opPID opts) fromState StateRollingBack binding now (lease_end now)
                     (String.eqb fromState StateReconcileRequired))));
      match r with
      | Err e => _ ← releaseGate; fail e
      | Ok item => _ ← writing (set_active (Some item)); Ret (Ok item)
      end.

Definition BeginRollback (operationID : string) (revision : Z) := beginRollback operationID revision StateApplied None.
Definition BeginReconciledRollback (operationID : string) (revision : Z) := beginRollback operationID revision StateReconcileRequired None.
Definition BeginRollbackWithBinding (operationID : string) (revision : Z) (binding : string) := beginRollback operationID revision StateApplied (Some binding).

Definition same_active (operationID : string) (a : option OperationLock) : bool :=
  match a with Some x => String.eqb (olOperationID x) operationID | None => false end.

Definition Heartbeat (operationID : string) (revision : Z) : prog (result opError OperationLock) :=
  stopped ← isStopped;
  if (stopped : bool) then fail ErrOperationFenced
  else
    now ← act Now;
    let?? item := act (Db (CHeartbeat operationID (opInstanceID opts) (opPID opts) revision now (lease_end now))) in
    _ ← writing (fun m => if same_active operationID (mActive m) then set_active (Some item) m else m);
    Ret (Ok item).

(** ** Operator actions *)
Definition ForgetState (operationID : string) (revision : Z) (actor confirmation : string) : prog (result opError OperationLock) :=
  if negb (String.eqb confirmation "FORGET_SERVER_PROTECTION_STATE") then fail ErrConfirmationRequired
  else
    let?? _ := auditAction actor "server_protection.forget_state" operationID in
    now ← act Now;
    act (Db (CForget operationID revision now)).

Definition ForceUnlock (operationID : string) (revision : Z) (actor : string) (confirmed : bool) : prog (result opError OperationLock) :=
  if negb confirmed then fail ErrConfirmationRequired
  else if String.eqb (TrimSpace actor) "" then fail (ErrInvalid "actor is required")
  else
    s ← reading (fun m => (mStopped m, same_active operationID (mActive m) || bool_decide (operationID ∈ mRecoveredSuspect m)));
    let '(stopped, allowed) := s in
    if (stopped : bool) || negb allowed then fail ErrOperationFenced
    else if negb (opAudit opts) then fail ErrAuditUnavailable
    else
      let?? _ := act (Audit actor "server_protection.force_unlock" operationID) in
      now ← act Now;
      let?? item := act (Db (CForceUnlock operationID revision now)) in
      _ ← act (Locked (fun s =>
            let m := psManager s in
            let m := if same_active (olOperationID item) (mActive m) then set_active None m else m in
            let m := set_suspects (mRecoveredSuspect m ∖ {[olOperationID item]}) m in
            (releaseGateLocked (mkProcState (psGate s) m), tt)));
      Ret (Ok item).

(** ** Recovery *)
Record RecoveryResult := mkRecoveryResult { rrOperationID : string; rrFromState : string; rrToState : string; rrReason : string }.

Definition recoveryTarget (item : OperationLock) : prog (string * string) :=
  recovery ← recoveryForKind (olKind item);
  if String.eqb (olState item) StatePrepared then
    Ret (if String.eqb (olKind item) KindFronting then (StateCancelled, "fronting_cancelled_before_mutation") else (StateAbandoned, "prepared_expired"))
  else if String.eqb (olState item) StateLockSuspect then Ret (StateLockSuspect, "force_unlock_required")
  else if 0 <? olRecoveryAttempts item then
    if (recovery : bool) then
      b ← act (CreateBundle item StateRollbackFailed);
      match b with
      | Err _ => Ret (StateLockSuspect, "recovery_bundle_failed")
      | Ok _ => Ret (StateRollbackFailed, "automatic_rollback_already_attempted")
      end
    else Ret (StateRollbackFailed, "automatic_rollback_already_attempted")
  else if negb (recovery : bool) then Ret (StateAbandoned, "expired_and_pid_absent")
  else
    a ← act (HasMutationArtifact item);
    match a with
    | Err _ =>
        now ← act Now;
        _ ← act (Db (CMark (olOperationID item) (olRecoveryAttempts item + 1) now "artifact_integrity_failed"));
        b ← act (CreateBundle item StateRollbackFailed);
        match b with
        | Err _ => Ret (StateLockSuspect, "recovery_bundle_failed")
        | Ok _ => Ret (StateRollbackFailed, "artifact_integrity_failed")
        end
    | Ok false =>
        Ret (if String.eqb (olKind item) KindFronting then (StateCancelled, "fronting_cancelled_before_mutation") else (StateAbandoned, "mutation_artifact_absent"))
    | Ok true => Ret (StateRollingBack, "mutation_artifact_present")
    end.

Definition attemptRecoveryRollback (item : OperationLock) : prog (string * string) :=
  now ← act Now;
  recovery ← recoveryForKind (olKind item);
  if negb (recovery : bool) then
    _ ← act (Db (CMark (olOperationID item) (olRecoveryAttempts item + 1) now "rollback_capability_unavailable"));
    Ret (StateLockSuspect, "rollback_capability_unavailable")
  else
    r ← act (AttemptRollback item);
    match r with
    | Ok _ =>
        _ ← act (Db (CMark (olOperationID item) (olRecoveryAttempts item + 1) now ""));
        Ret (StateRolledBack, "automatic_rollback_completed")
    | Err _ =>
        _ ← act (Db (CMark (olOperationID item) (olRecoveryAttempts item + 1) now "rollback_failed"));
        b ← act (CreateBundle item StateRollbackFailed);
        match b with
        | Err _ => Ret (StateLockSuspect, "recovery_bundle_failed")
        | Ok _ => Ret (StateRollbackFailed, "automatic_rollback_failed")
        end
    end.

Definition recoverRollingBack (item : OperationLock) : prog (result opError (OperationLock * string)) :=
  gate ← tryAcquireGate;
  if negb gate then fail ErrOperationConflict
  else
    now ← act Now;
    r ← act (Db (CReclaim (mkReclaimUpdate (olOperationID item) (olRevision item) (opInstanceID opts) (opPID opts)
                   StateRollingBack StateRollingBack None now (lease_end now) false)));
    match r with
    | Err e => _ ← releaseGate; fail e
    | Ok claimed =>
        _ ← writing (set_active (Some claimed));
        f ← attemptRecoveryRollback claimed;
        r ← Transition (olOperationID claimed) (olRevision claimed) f.1;
        match r with
        | Err e => _ ← releaseGate; fail e
        | Ok final => Ret (Ok (final, f.2))
        end
    end.

(** The row that the manager now holds for an operation, if it holds it. *)
Definition latest (claimed : OperationLock) (m : Manager) : OperationLock :=
  match mActive m with
  | Some a => if String.eqb (olOperationID a) (olOperationID claimed) then a else claimed
  | None => claimed
  end.

(** The error is handed back, also when it cannot be recorded. *)
Definition recordRuntimeExecutionFailure (claimed : OperationLock) (e : opError) : prog opError :=
  match e with
  | ErrRuntimeRecovery _ =>
      s ← act (Locked (fun s =>
            let m := psManager s in
            let c := latest claimed m in
            let n := default 0 (mRuntimeFailures m !! olOperationID c) + 1 in
            (mkProcState (psGate s) (set_failures (<[olOperationID c := n]> (mRuntimeFailures m)) m), (c, Z.max n (olRecoveryAttempts c + 1)))));
      now ← act Now;
      _ ← act (Db (CRecordFailure s.1 s.2 now));
      Ret e
  | _ => Ret e
  end.

Definition reconcileClaimed (claimed : OperationLock) (inspection : option opError) : prog (result opError (OperationLock * string)) :=
  d ← match inspection with
      | Some e => Ret (Err e)
      | None => act (Reconcile claimed)
      end;
  match d with
  | Err e =>
      e' ← recordRuntimeExecutionFailure claimed e;
      _ ← dropActive;
      fail e'
  | Ok decision =>
      if negb (reconcileTerminalState (rdState decision)) then
        _ ← dropActive; fail (ErrInvalid "kind reconciler returned an invalid terminal state")
      else
        current ← reading (latest claimed);
        now ← act Now;
        r ← act (Db (CRecover (mkRecoveryUpdate (olOperationID current) (olRevision current) [olState current] (rdState decision) now)));
        r' ← match r with
             | Err e =>
                 if String.eqb (olKind current) KindFirewall && String.eqb (olState current) StateRestoringRuntime then
                   e' ← recordRuntimeExecutionFailure current (ErrRuntimeRecovery "runtime_operation_finalize"); Ret (Err e')
                 else Ret (Err e)
             | Ok item => Ret (Ok (item, if String.eqb (rdReason decision) "" then "reconciled" else rdReason decision))
             end;
        _ ← dropActive;
        Ret r'
  end.

Definition reconcileOwnedKind (item : OperationLock) : prog (result opError (OperationLock * string)) :=
  gate ← tryAcquireGate;
  if negb gate then fail ErrOperationConflict
  else
    needed ← act (NeedsReconcile item);
    let claim (inspection : option opError) :=
      now ← act Now;
      r ← act (Db (CReclaim (mkReclaimUpdate (olOperationID item) (olRevision item) (opInstanceID opts) (opPID opts)
                     (olState item) (olState item) None now (lease_end now) false)));
      match r with
      | Err e => _ ← releaseGate; fail e
      | Ok claimed => _ ← writing (set_active (Some claimed)); reconcileClaimed claimed inspection
      end in
    match needed with
    | None | Some (Ok true) => claim None
    | Some (Ok false) => _ ← releaseGate; Ret (Ok (item, "reconcile_unchanged"))
    | Some (Err (ErrRuntimeRecovery step)) => claim (Some (ErrRuntimeRecovery step))
    | Some (Err e) => _ ← releaseGate; fail e
    end.

Definition keeps (item : OperationLock) (reason : string) : RecoveryResult := mkRecoveryResult (olOperationID item) (olState item) (olState item) reason.

Definition suspect (operationID : string) : prog unit := writing (fun m => set_suspects ({[operationID]} ∪ mRecoveredSuspect m) m).

Definition reconcileKindState (item : OperationLock) : bool :=
  String.eqb (olState item) StateApplied || String.eqb (olState item) StateReconcileRequired || String.eqb (olState item) StateRestoringRuntime
  || (String.eqb (olState item) StateRollingBack && String.eqb (olKind item) KindFronting).

Definition probe (item : OperationLock) : prog (result opError bool) :=
  match olLockedByPID item with
  | None => Ret (Err ErrBackend)
  | Some pid => act (Alive pid)
  end.

(** The branch of an operation kind that has its own reconciler. *)
Definition recoverReconciled (now : Z) (item : OperationLock) : prog (list RecoveryResult * option opError) :=
  s ← reading (fun m => (default 0 (mRuntimeFailures m !! olOperationID item),
                         same_active (olOperationID item) (mActive m) && owned_by (opInstanceID opts) (opPID opts) item));
  let '(failures, ownedHere) := s in
  if (2 <=? failures) || (String.eqb (olRecoveryErrorCode item) runtime_restore_execution_failed && (2 <=? olRecoveryAttempts item)) then
    Ret ([keeps item "runtime_restore_execution_budget_exhausted"], None)
  else if (ownedHere : bool) then Ret ([], None)
  else
    let reconcile :=
      r ← reconcileOwnedKind item;
      match r with
      | Err e => Ret ([], Some e)
      | Ok (updated, reason) => Ret ([mkRecoveryResult (olOperationID item) (olState item) (olState updated) reason], None)
      end in
    if String.eqb (olState item) StateRestoringRuntime && negb (String.eqb (olLockedByInstanceID item) (opInstanceID opts)) then
      alive ← probe item;
      match alive with
      | Ok false => if now <=? olExpiresAt item then Ret ([keeps item "runtime_restore_owner_pending"], None) else reconcile
      | _ => Ret ([keeps item "runtime_restore_owner_pending"], None)
      end
    else reconcile.

(** The state and the reason that recovery finds for an operation of another owner. *)
Definition recoveryVerdict (now : Z) (item : OperationLock) : prog (string * string) :=
  alive ← probe item;
  match alive with
  | Err _ => Ret (StateLockSuspect, "pid_liveness_unknown")
  | Ok true => Ret (StateLockSuspect, "pid_alive_or_reused")
  | Ok false => if olExpiresAt item <? now then recoveryTarget item else Ret (StateLockSuspect, "heartbeat_not_expired")
  end.

Definition recoverForeign (now : Z) (item : OperationLock) : prog (list RecoveryResult * option opError) :=
  v ← recoveryVerdict now item;
  let '(toState, reason) := v in
  if String.eqb (olState item) toState then
    if String.eqb toState StateRollingBack then
      r ← recoverRollingBack item;
      match r with
      | Err e => Ret ([keeps item reason], Some e)
      | Ok (final, finalReason) => Ret ([keeps item reason; mkRecoveryResult (olOperationID item) (olState item) (olState final) finalReason], None)
      end
    else
      _ ← (if String.eqb toState StateLockSuspect then suspect (olOperationID item) else Ret tt);
      Ret ([keeps item reason], None)
  else
    r ← act (Db (CRecover (mkRecoveryUpdate (olOperationID item) (olRevision item) nonTerminalOperationLockStates toState now)));
    match r with
    | Err e => Ret ([], Some e)
    | Ok updated =>
        let first := mkRecoveryResult (olOperationID item) (olState item) (olState updated) reason in
        more ← (if String.eqb (olState updated) StateRollingBack then
                  r ← recoverRollingBack updated;
                  match r with
                  | Err e => Ret ([first], Some e)
                  | Ok (final, finalReason) => Ret ([first; mkRecoveryResult (olOperationID item) (olState updated) (olState final) finalReason], None)
                  end
                else Ret ([first], None));
        match more.2 with
        | Some e => Ret more
        | None => _ ← (if String.eqb (olState updated) StateLockSuspect then suspect (olOperationID item) else Ret tt); Ret more
        end
    end.

Definition recoverItem (now : Z) (item : OperationLock) : prog (list RecoveryResult * option opError) :=
  reconciler ← reconcilerForKind (olKind item);
  if (reconciler : bool) && reconcileKindState item then recoverReconciled now item
  else
    _ ← tryAcquireGate;
    if owned_by (opInstanceID opts) (opPID opts) item then
      if String.eqb (olState item) StatePrepared && (olExpiresAt item <? now) then
        let target := if String.eqb (olKind item) KindFronting then (StateCancelled, "fronting_cancelled_before_mutation") else (StateAbandoned, "prepared_expired") in
        r ← Transition (olOperationID item) (olRevision item) target.1;
        match r with
        | Err e => Ret ([], Some e)
        | Ok updated => Ret ([mkRecoveryResult (olOperationID item) (olState item) (olState updated) target.2], None)
        end
      else Ret ([], None)
    else recoverForeign now item.

Fixpoint recoverItems (now : Z) (items : list OperationLock) (results : list RecoveryResult) : prog (list RecoveryResult * option opError) :=
  match items with
  | [] => Ret (results, None)
  | item :: items' =>
      r ← recoverItem now item;
      match r.2 with
      | Some e => Ret (results ++ r.1, Some e)
      | None => recoverItems now items' (results ++ r.1)
      end
  end.

Definition recoverable (reconcilers : gset string) (item : OperationLock) : bool :=
  non_terminal (olState item)
  || ((String.eqb (olState item) StateApplied || String.eqb (olState item) StateReconcileRequired) && bool_decide (olKind item ∈ reconcilers)).

Definition Recover : prog (list RecoveryResult * option opError) :=
  all ← act (Db (CList []));
  match all with
  | Err e => Ret ([], Some e)
  | Ok all =>
      reconcilers ← reading mReconcilers;
      now ← act Now;
      r ← recoverItems now (List.filter (recoverable reconcilers) all) [];
      match r.2 with
      | Some e => Ret r
      | None =>
          remaining ← act (Db (CList nonTerminalOperationLockStates));
          match remaining with
          | Err e => Ret (r.1, Some e)
          | Ok [] => _ ← releaseGate; Ret r
          | Ok _ => Ret r
          end
      end
  end.

(** ** The runner *)

(** One tick of the heartbeat timer. *)
Definition heartbeatTick : prog unit :=
  active ← reading mActive;
  match active with
  | Some a => if String.eqb (olState a) StatePrepared then Ret tt else _ ← Heartbeat (olOperationID a) (olRevision a); Ret tt
  | None => Ret tt
  end.

Definition is_runtime_recovery (e : opError) : bool := match e with ErrRuntimeRecovery _ => true | _ => false end.

(** [done] is the identity of the runner that it starts. *)
Definition Start (done : nat) : prog (result opError unit) :=
  s ← reading (fun m => (mStarted m, mStopped m));
  if (s.1 : bool) then Ret (if (s.2 : bool) then Err ErrOperationFenced else Ok tt)
  else
    r ← Recover;
    match r.2 with
    | Some e =>
        if is_runtime_recovery e then _ ← writing (fun m => if mStarted m then m else set_runner true false (Some done) m); Ret (Ok tt)
        else fail e
    | None => _ ← writing (fun m => if mStarted m then m else set_runner true false (Some done) m); Ret (Ok tt)
    end.

(** [true]: the runner has ended; [false]: the caller gave up waiting. *)
Definition Stop : prog bool :=
  done ← act (Locked (fun s =>
           let m := psManager s in
           let m' := set_suspects ∅ (set_active None (set_runner (mStarted m) true (mDone m) m)) in
           (releaseGateLocked (mkProcState (psGate s) m'), if mStarted m then mDone m else None)));
  match done with
  | None => Ret true
  | Some d =>
      drained ← act (AwaitDone d);
      if (drained : bool) then
        _ ← writing (fun m => if bool_decide (mDone m = Some d) then set_runner false (mStopped m) None m else m);
        Ret true
      else Ret false
  end.

End Manager.
