(* ===== verification/OperationLogic.v ===== *)
(** * Server protection: what the programs of a manager may do

    [progress] says how a row of the lock table may change, and every store call that
    a manager makes keeps to it ([exec_fine]).  [swp] is a small logic of programs: what
    they may do ([guar]) and what they may rely on ([rely]); every call of the manager
    satisfies it ([safe_...]).  Histories of many managers are in
    [OperationHistories]. *)

From S2P Require Import Prelude GoStrings Programs OperationLocks OperationManager.

Open Scope string_scope.
Open Scope list_scope.
Open Scope Z_scope.

(** ** How a row may change *)

(** States that nothing leaves. *)
Definition settled (s : string) : bool :=
  containsOperationState [StateRolledBack; StateAbandoned; StateForceUnlocked; StateForgotten; StateCancelled] s.

(** States that a manager may work on. *)
Definition live (s : string) : bool := negb (settled s) && negb (String.eqb s StateRollbackFailed).

(** What an operation was asked for. *)
Definition request_of (r : OperationLock) : string * string * string * option Z * string * string * Z :=
  (olResourceID r, olProtocol r, olListen r, olPort r, olPlanRevision r, olActor r, olCreatedAt r).

Definition lease_of (r : OperationLock) : Z * Z := (olHeartbeatAt r, olExpiresAt r).

Record progress (r r' : OperationLock) : Prop := mkProgress {
  pg_id : olOperationID r' = olOperationID r;
  pg_key : olIdempotencyKey r' = olIdempotencyKey r;
  pg_kind : olKind r' = olKind r;
  pg_request : request_of r' = request_of r;
  pg_fence : olRevision r < olRevision r' \/
    (olRevision r' = olRevision r /\ olState r' = olState r /\ olLockedByInstanceID r' = olLockedByInstanceID r /\
     olLockedByPID r' = olLockedByPID r /\ olHelperRevision r' = olHelperRevision r);
  pg_settled : settled (olState r) = true -> olState r' = olState r /\ olRevision r' = olRevision r /\ lease_of r' = lease_of r;
  pg_failed : olState r = StateRollbackFailed -> olState r' = StateRollbackFailed \/ olState r' = StateForgotten
}.

#[global] Instance progress_refl : Reflexive progress.
Proof. intros r. split; auto. right. auto. Qed.

#[global] Instance progress_trans : Transitive progress.
Proof.
  intros a b c [I1 K1 N1 Q1 F1 S1 R1] [I2 K2 N2 Q2 F2 S2 R2]. split; try congruence.
  - destruct F1 as [F1|(? & ? & ? & ? & ?)], F2 as [F2|(? & ? & ? & ? & ?)]; [left; lia..|right; split_and!; congruence].
  - intros Hs. destruct (S1 Hs) as (E1 & E2 & E3). rewrite <- E1 in Hs. destruct (S2 Hs) as (? & ? & ?). split_and!; congruence.
  - intros Hr. destruct (R1 Hr) as [E|E]; [by apply R2|]. right. assert (Hs : settled (olState b) = true) by (by rewrite E).
    destruct (S2 Hs). congruence.
Qed.

Lemma live_not s : live s = true -> settled s = false /\ s <> StateRollbackFailed.
Proof. unfold live. by rewrite andb_true_iff, !negb_true_iff, String.eqb_neq. Qed.

(** A change of state: a live row, or a failed rollback that is forgotten. *)
Lemma progress_moved cols r :
  let r' := assigns cols r in
  olOperationID r' = olOperationID r -> olIdempotencyKey r' = olIdempotencyKey r -> olKind r' = olKind r -> request_of r' = request_of r -> olRevision r < olRevision r' ->
  live (olState r) = true \/ (olState r = StateRollbackFailed /\ olState r' = StateForgotten) -> progress r r'.
Proof.
  cbv zeta. intros H1 H2 H3 H4 H5 Hs. split; try done; [by left| |].
  - intros Hd. destruct Hs as [[Hn _]%live_not|[E _]]; [congruence|]. by rewrite E in Hd.
  - intros E. destruct Hs as [[_ Hn]%live_not|[_ E']]; [done|by right].
Qed.

Lemma assigns_fixed cols r :
  olOperationID (assigns cols r) = olOperationID r /\ olIdempotencyKey (assigns cols r) = olIdempotencyKey r /\ olKind (assigns cols r) = olKind r /\
  request_of (assigns cols r) = request_of r.
Proof.
  unfold assigns. revert r. induction cols as [|c cols IH]; intros r; [done|]. simpl. destruct (IH (assign r c)) as (-> & -> & -> & ->). done.
Qed.

Lemma progress_assigns cols r :
  olRevision r < olRevision (assigns cols r) ->
  live (olState r) = true \/ (olState r = StateRollbackFailed /\ olState (assigns cols r) = StateForgotten) -> progress r (assigns cols r).
Proof. destruct (assigns_fixed cols r) as (H1 & H2 & H3 & H4). by apply progress_moved. Qed.

Lemma progress_touched cols r :
  olRevision (assigns cols r) = olRevision r -> olState (assigns cols r) = olState r -> olLockedByInstanceID (assigns cols r) = olLockedByInstanceID r ->
  olLockedByPID (assigns cols r) = olLockedByPID r -> olHelperRevision (assigns cols r) = olHelperRevision r ->
  (settled (olState r) = true -> lease_of (assigns cols r) = lease_of r) -> progress r (assigns cols r).
Proof.
  intros E1 E2 E3 E4 E5 E6. destruct (assigns_fixed cols r) as (H1 & H2 & H3 & H4). split; try done; [by right|by auto|].
  intros E. left. congruence.
Qed.

(** ** Tables *)
Lemma elem_of_update_where cond cols t r' :
  r' ∈ update_where cond cols t <-> exists r, r ∈ t /\ r' = if cond r then assigns cols r else r.
Proof.
  unfold update_where. rewrite list_elem_of_fmap. split; intros (r & H1 & H2); exists r; auto.
Qed.

(** A conditional update: rows stay, except that rows of the condition are assigned. *)
Definition updates (cond : OperationLock -> bool) (cols : list column) (t t' : lockTable) : Prop := t' = t \/ t' = update_where cond cols t.

Lemma update_one_updates cond cols e id t : updates cond cols t (update_one cond cols e id t).1.
Proof. unfold update_one, updates. destruct (_ =? 1); [|by left]. destruct (first_row _ _); [by right|by left]. Qed.

Lemma find_elem (f : OperationLock -> bool) t r : List.find f t = Some r -> r ∈ t /\ f r = true.
Proof. intros H. apply List.find_some in H. by rewrite <- list_elem_of_In in H. Qed.

(** The row that a conditional update gives back. *)
Lemma update_one_row cond cols e id t t' item :
  (forall r, cond r = true -> is_op id r = true) -> NoDup (olOperationID <$> t) ->
  update_one cond cols e id t = (t', Ok item) -> exists r, r ∈ t /\ cond r = true /\ item = assigns cols r /\ t' = update_where cond cols t.
Proof.
  intros Hid Hnd. unfold update_one. destruct (Z.eqb_spec (rows_affected cond t) 1) as [Hn|]; [|done].
  destruct (first_row _ _) as [x|] eqn:Hf; [|done]. intros [= <- <-].
  apply find_elem in Hf as [Hx Hxid]. apply elem_of_update_where in Hx as (r & Hr & ->).
  destruct (cond r) eqn:Hc; [by exists r|]. exfalso.
  assert (exists r0, r0 ∈ t /\ cond r0 = true) as (r0 & Hr0 & Hc0).
  { unfold rows_affected in Hn. destruct (List.filter cond t) as [|r0 l] eqn:E; [done|].
    assert (In r0 (List.filter cond t)) as Hin by (rewrite E; by left). apply filter_In in Hin as [Hin ?]. exists r0. by rewrite list_elem_of_In. }
  assert (r = r0); [|congruence]. apply Hid in Hc0. unfold is_op in Hxid, Hc0. apply String.eqb_eq in Hxid, Hc0.
  apply list_elem_of_lookup in Hr as [i Hi], Hr0 as [j Hj].
  assert (i = j); [|congruence]. apply (proj1 (NoDup_alt _) Hnd i j (olOperationID r)); rewrite list_lookup_fmap, ?Hi, ?Hj; simpl; congruence.
Qed.

Lemma updates_ids cond cols t t' : updates cond cols t t' -> olOperationID <$> t' = olOperationID <$> t.
Proof.
  intros [->| ->]; [done|]. unfold update_where. rewrite <- list_fmap_compose. apply list_fmap_ext. intros i r _. simpl.
  destruct (cond r); [|done]. apply assigns_fixed.
Qed.

Lemma updates_keys cond cols t t' : updates cond cols t t' -> olIdempotencyKey <$> t' = olIdempotencyKey <$> t.
Proof.
  intros [->| ->]; [done|]. unfold update_where. rewrite <- list_fmap_compose. apply list_fmap_ext. intros i r _. simpl.
  destruct (cond r); [|done]. apply assigns_fixed.
Qed.

Lemma updates_progress cond cols t t' :
  updates cond cols t t' -> (forall r, r ∈ t -> cond r = true -> progress r (assigns cols r)) -> forall r', r' ∈ t' -> exists r, r ∈ t /\ progress r r'.
Proof.
  intros [->| ->] Hp r' Hr'; [by exists r'|]. apply elem_of_update_where in Hr' as (r & Hr & ->). exists r. split; [done|].
  destruct (cond r) eqn:E; [auto|done].
Qed.

(** ** What a manager may ask of the store
    With [strict], a row enters a non-terminal state only from one, or alone. *)
Definition all_live (states : list string) : Prop := forall s, s ∈ states -> live s = true.

Definition calm (strict : bool) (from : list string) (to : string) : Prop :=
  strict = true -> non_terminal to = true -> forall s, s ∈ from -> non_terminal s = true.

Definition ok_input (id : string) (i : AcquireOperationLockInput) : Prop := aiOperationID i = id /\ aiIdempotencyKey i <> "".

Definition ok_call (strict : bool) {A} (c : storeCall A) : Prop :=
  match c with
  | CAcquire i => False
  | CFenced u => all_live (fuFromStates u) /\ calm strict (fuFromStates u) (fuToState u)
  | CRecover u => all_live (ruFromStates u) /\ calm strict (ruFromStates u) (ruToState u)
  | CReclaim u => live (rcFromState u) = true /\ (rcRequireIdle u = true \/ calm strict [rcFromState u] (rcToState u))
  | CRecordFailure operation _ _ => live (olState operation) = true
  | _ => True
  end.

Definition quiet (t : lockTable) (r r' : OperationLock) : Prop :=
  non_terminal (olState r') = true ->
  non_terminal (olState r) = true \/ forall x, x ∈ t -> olOperationID x <> olOperationID r -> non_terminal (olState x) = false.

Definition fine_update (strict : bool) (cond : OperationLock -> bool) (cols : list column) (t t' : lockTable) : Prop :=
  updates cond cols t t' /\ (exists id, forall r, cond r = true -> olOperationID r = id) /\
  forall r, r ∈ t -> cond r = true -> progress r (assigns cols r) /\ (strict = true -> quiet t r (assigns cols r)).

Lemma contains_elem states s : containsOperationState states s = true <-> s ∈ states.
Proof.
  unfold containsOperationState. rewrite existsb_exists. split.
  - intros (x & Hx%list_elem_of_In & He%String.eqb_eq). by subst.
  - intros Hs. exists s. split; [by apply list_elem_of_In|apply String.eqb_refl].
Qed.

Lemma at_revision_true id rev r : at_revision id rev r = true <-> olOperationID r = id /\ olRevision r = rev.
Proof. unfold at_revision, is_op. by rewrite andb_true_iff, String.eqb_eq, Z.eqb_eq. Qed.

Lemma optional_helper_state b r :
  olState (assigns (optional_helper b) r) = olState r /\ olRevision (assigns (optional_helper b) r) = olRevision r.
Proof. by destruct b. Qed.

Lemma assigns_app cols cols' r : assigns (cols ++ cols') r = assigns cols' (assigns cols r).
Proof. unfold assigns. by rewrite foldl_app. Qed.

Lemma moved_fine strict cond cols from to rev t t' :
  updates cond cols t t' -> (exists id, forall r, cond r = true -> olOperationID r = id) -> all_live from -> calm strict from to ->
  (forall r, r ∈ t -> cond r = true -> olState r ∈ from /\ olRevision r = rev) ->
  (forall r, olState (assigns cols r) = to /\ olRevision (assigns cols r) = rev + 1) -> fine_update strict cond cols t t'.
Proof.
  intros Hu Hid Hl Hc Hcond Hto. split_and!; [done|done|]. intros r Hr Hx. destruct (Hcond r Hr Hx) as [Hs Hrev]. destruct (Hto r) as [E1 E2]. split.
  - apply progress_assigns; [lia|]. left. by apply Hl.
  - intros Hst. unfold quiet. rewrite E1. intros Hn. left. by apply Hc.
Qed.

Lemma same_fine strict cond cols t t' :
  updates cond cols t t' -> (exists id, forall r, cond r = true -> olOperationID r = id) -> (forall r, cond r = true -> progress r (assigns cols r) /\ olState (assigns cols r) = olState r) -> fine_update strict cond cols t t'.
Proof. intros Hu Hid Hp. split_and!; [done|done|]. intros r Hr Hc. destruct (Hp r Hc) as [H1 H2]. split; [done|]. intros _. unfold quiet. rewrite H2. by left. Qed.

Lemma touched_fine strict cond cols t t' :
  updates cond cols t t' -> (exists id, forall r, cond r = true -> olOperationID r = id) ->
  (forall r, olRevision (assigns cols r) = olRevision r /\ olState (assigns cols r) = olState r /\ olLockedByInstanceID (assigns cols r) = olLockedByInstanceID r /\
     olLockedByPID (assigns cols r) = olLockedByPID r /\ olHelperRevision (assigns cols r) = olHelperRevision r) ->
  (forall r, cond r = true -> settled (olState r) = true -> lease_of (assigns cols r) = lease_of r) -> fine_update strict cond cols t t'.
Proof.
  intros Hu Hid Hp Hq. apply same_fine; [done|done|]. intros r Hr. destruct (Hp r) as (H1 & H2 & H3 & H4 & H5). split; [by apply progress_touched; auto|done].
Qed.

Lemma no_update strict t : exists cond cols, fine_update strict cond cols t t.
Proof. exists (fun _ => false), []. split_and!; [by left|by exists ""|done]. Qed.

Lemma settle_fine strict id rev from to now t :
  (forall s, from s = true -> live s = true \/ (s = StateRollbackFailed /\ to = StateForgotten)) -> non_terminal to = false -> NoDup (olOperationID <$> t) ->
  exists cond cols, fine_update strict cond cols t (settle id rev from to now t).1.
Proof.
  intros Hfrom Hto Hnd. unfold settle. destruct (first_row (is_op id) t) as [cur|] eqn:E; [|apply no_update].
  destruct (Z.eqb_spec (olRevision cur) rev) as [Hr|]; cbn [negb]; [|apply no_update].
  destruct (from (olState cur)) eqn:Ef; cbn [negb]; [|apply no_update].
  exists (at_revision id rev), [ColState to; ColRevision (rev + 1); ColUpdatedAt now].
  split_and!; [apply update_one_updates|exists id; by intros r [? _]%at_revision_true|]. intros r Hin [Hid Hrv]%at_revision_true.
  apply find_elem in E as [Hcur Hcid]. unfold is_op in Hcid. apply String.eqb_eq in Hcid.
  assert (r = cur) as ->.
  { apply list_elem_of_lookup in Hin as [i Hi], Hcur as [j Hj]. assert (i = j); [|congruence].
    apply (proj1 (NoDup_alt _) Hnd i j id); rewrite list_lookup_fmap, ?Hi, ?Hj; simpl; congruence. }
  split; [|intros _; unfold quiet; simpl; congruence]. apply progress_assigns; [simpl; lia|]. simpl. exact (Hfrom _ Ef).
Qed.

Lemma non_terminal_live s : non_terminal s = true -> live s = true.
Proof. intros H%contains_elem. unfold nonTerminalOperationLockStates in H. set_unfold. naive_solver. Qed.

Lemma reclaim_fine strict u t :
  live (rcFromState u) = true -> rcRequireIdle u = true \/ calm strict [rcFromState u] (rcToState u) ->
  exists cond cols, fine_update strict cond cols t (ReclaimOperationLock u t).1.
Proof.
  intros Hl Hidle. unfold ReclaimOperationLock. cbv zeta. set (cond := fun r => at_revision _ _ r && _). set (cols := _ ++ _).
  pose proof (update_one_updates cond cols ErrOperationFenced (rcOperationID u) t) as Hu.
  destruct (update_one cond cols _ _ t) as [t1 [item|e]]; simpl in Hu; [|apply no_update].
  set (busy := existsb _ t). destruct (rcRequireIdle u && negb (negb busy)) eqn:Eb; [apply no_update|].
  exists cond, cols. split_and!; [done|exists (rcOperationID u); unfold cond; by intros r [[? _]%at_revision_true _]%andb_true_iff|].
  intros r Hr Hc. unfold cond in Hc. rewrite andb_true_iff, at_revision_true, String.eqb_eq in Hc. destruct Hc as [[Hid Hrev] Hs].
  assert (Es : olState (assigns cols r) = rcToState u /\ olRevision (assigns cols r) = rcRevision u + 1).
  { unfold cols. rewrite assigns_app. split; (etrans; [apply optional_helper_state|]); done. }
  destruct Es as [E1 E2]. split; [apply progress_assigns; [lia|]; left; congruence|].
  intros Hst. unfold quiet. rewrite E1. intros Hn. destruct Hidle as [Hri|Hcalm].
  - right. intros x Hx Hne. rewrite Hri, negb_involutive in Eb. simpl in Eb. apply not_true_iff_false. intros Hnt.
    apply not_true_iff_false in Eb. apply Eb, existsb_exists. exists x. split; [by apply list_elem_of_In|].
    unfold is_op. rewrite Hnt, andb_true_r, negb_true_iff, String.eqb_neq. congruence.
  - left. rewrite Hs. by apply Hcalm; [..|apply list_elem_of_here].
Qed.

Lemma record_fine strict operation attempts now t :
  live (olState operation) = true -> exists cond cols, fine_update strict cond cols t (RecordRuntimeRecoveryFailure operation attempts now t).1.
Proof.
  intros Hl. unfold RecordRuntimeRecoveryFailure. destruct (olLockedByPID operation) as [pid|]; [|apply no_update]. destruct (_ || _); [apply no_update|].
  cbv zeta. set (cond := fun r => _ && _ && _). destruct (rows_affected cond t =? 1); [|apply no_update]. eexists cond, _. split_and!; [by right|exists (olOperationID operation); unfold cond; by intros r [[[? _]%at_revision_true _]%andb_true_iff _]%andb_true_iff|].
  intros r Hr Hc. unfold cond in Hc. rewrite !andb_true_iff, at_revision_true, String.eqb_eq in Hc. destruct Hc as [[[Hid Hrev] _] Hs].
  destruct (2 <=? attempts).
  - split; [|intros _; unfold quiet; simpl; discriminate]. apply progress_assigns; [simpl; lia|]. left. congruence.
  - split; [by apply progress_touched|]. intros _. unfold quiet. simpl. by left.
Qed.

(** Every call that a manager may make is a fine update of the table. *)
Lemma exec_fine strict {A} (c : storeCall A) t :
  ok_call strict c -> NoDup (olOperationID <$> t) -> exists cond cols, fine_update strict cond cols t (exec c t).1.
Proof.
  intros Hok Hnd. destruct c as [i|key|id|states|u|id inst pid rev now ex|u|u|id rev now|id rev now|id n at_ code|op n now]; simpl in Hok |- *; try apply no_update; [done|..].
  - destruct Hok as [Hl Hc]. unfold UpdateOperationLockFenced. eexists _, _.
    apply (moved_fine strict _ _ (fuFromStates u) (fuToState u) (fuRevision u)); [apply update_one_updates|exists (fuOperationID u); unfold fenced_cond; by intros r [[[[? _]%at_revision_true _]%andb_true_iff _]%andb_true_iff _]%andb_true_iff|done|done| |].
    + intros r _. unfold fenced_cond. rewrite !andb_true_iff, at_revision_true, contains_elem. tauto.
    + intros r. rewrite assigns_app. split; (etrans; [apply optional_helper_state|]); done.
  - unfold HeartbeatOperationLock. eexists _, _. apply touched_fine; [apply update_one_updates|exists id; unfold heartbeat_cond; by intros r [[[? _]%at_revision_true _]%andb_true_iff _]%andb_true_iff|done|].
    intros r [_ [Hn _]%non_terminal_live%live_not]%andb_true_iff. congruence.
  - destruct Hok as [Hl Hc]. unfold RecoverOperationLock. eexists _, _.
    apply (moved_fine strict _ _ (ruFromStates u) (ruToState u) (ruExpectedRevision u)); [apply update_one_updates|exists (ruOperationID u); by intros r [[? _]%at_revision_true _]%andb_true_iff|done|done| |done].
    intros r _. rewrite andb_true_iff, at_revision_true, contains_elem. tauto.
  - destruct Hok. by apply reclaim_fine.
  - apply settle_fine; [|done|done]. intros s Hs. left. by apply non_terminal_live.
  - apply settle_fine; [|done|done]. intros s [->%String.eqb_eq| ->%String.eqb_eq]%orb_true_iff; [by left|by right].
  - unfold MarkOperationRecovery. eexists _, _. apply touched_fine; [by right|exists id; intros r; apply String.eqb_eq|done|done].
  - by apply record_fine.
Qed.

(** ** A logic for programs *)
Section Logic.
Context (G : forall B, action B -> Prop) (R : forall B, action B -> B -> Prop).

(** The program only takes actions of [G], and ends in [Q], when answers are as [R] says. *)
Definition swp {A} (p : prog A) (Q : A -> Prop) : Prop := wp (fun B a (_ : unit) => G B a) (fun B a _ b _ => R B a b) p (fun a _ => Q a) tt.

Lemma swp_ret {A} (a : A) (Q : A -> Prop) : Q a -> swp (Ret a) Q.
Proof. done. Qed.

Lemma swp_do {A B} (a : action B) (k : B -> prog A) (Q : A -> Prop) : swp (Do a k) Q <-> G _ a /\ forall b, R _ a b -> swp (k b) Q.
Proof. unfold swp. simpl. split; intros [Hg Hk]; (split; [done|]); [intros b Hb; by apply Hk|intros b [] Hb; by apply Hk]. Qed.

Lemma swp_act {B} (a : action B) (Q : B -> Prop) : G _ a -> (forall b, R _ a b -> Q b) -> swp (act a) Q.
Proof. intros Hg HQ. by apply swp_do. Qed.

Lemma swp_mono {A} (p : prog A) (Q Q' : A -> Prop) : swp p Q -> (forall a, Q a -> Q' a) -> swp p Q'.
Proof. intros Hp HQ. eapply wp_mono; [exact Hp|]. intros a s. apply HQ. Qed.

Lemma swp_bind {A B} (p : prog A) (f : A -> prog B) (Q : B -> Prop) : swp p (fun a => swp (f a) Q) -> swp (p ≫= f) Q.
Proof. intros Hp. apply wp_bind. eapply wp_mono; [exact Hp|]. by intros a []. Qed.

Lemma swp_attempt {A B} (p : prog (result opError A)) (k : A -> prog (result opError B)) (Q : result opError B -> Prop) :
  swp p (fun r => match r with Ok a => swp (k a) Q | Err e => Q (Err e) end) -> swp (attempt p k) Q.
Proof. intros Hp. apply wp_attempt. eapply wp_mono; [exact Hp|]. by intros [a|e] []. Qed.
End Logic.

Arguments swp G R {A} p Q.

Ltac swp_step :=
  match goal with
  | |- swp _ _ (Ret _) _ => apply swp_ret
  | |- swp _ _ (fail _) _ => apply swp_ret
  | |- swp _ _ (mbind _ _) _ => apply swp_bind
  | |- swp _ _ (attempt _ _) _ => apply swp_attempt
  | |- swp _ _ (act _) _ => apply swp_act; [try done|intros ? ?]
  | |- swp _ _ (if ?b then _ else _) _ => destruct b eqn:?
  | |- swp _ _ (match ?x with _ => _ end) _ => destruct x eqn:?
  | |- match ?x with Ok _ => _ | Err _ => _ end => destruct x eqn:?
  end.

Ltac swp_go := repeat (progress cbn beta zeta || swp_step); try done.

(** ** What managers do, and what they rely on *)
Definition mem_ok (s : procState) : Prop := forall a, mActive (psManager s) = Some a -> live (olState a) = true.

Definition guar (strict : bool) (B : Type) (a : action B) : Prop :=
  match a with
  | Db c => ok_call strict c
  | DbNew i => forall id, ok_input id (i id)
  | Locked f => forall s, mem_ok s -> mem_ok (f s).1
  | _ => True
  end.

Definition call_answer {A} (c : storeCall A) : A -> Prop :=
  match c in storeCall A return A -> Prop with
  | CFenced u => fun item => olState item = fuToState u
  | CReclaim u => fun item => olState item = rcToState u
  | CHeartbeat _ _ _ _ _ _ => fun item => non_terminal (olState item) = true
  | _ => fun _ => True
  end.

Definition rely (B : Type) (a : action B) : B -> Prop :=
  match a in action B return B -> Prop with
  | Db c => fun r => match r with Ok x => call_answer c x | Err _ => True end
  | DbNew i => fun r => match r with Ok (item, false) => exists id, olState item = aiState (i id) | _ => True end
  | Locked f => fun b => exists s, mem_ok s /\ b = (f s).2
  | _ => fun _ => True
  end.

Abbreviation safe strict := (swp (guar strict) rely).

(** *** Critical sections *)
Lemma mem_ok_manager g g' m m' : mActive m' = mActive m \/ mActive m' = None -> mem_ok (mkProcState g m) -> mem_ok (mkProcState g' m').
Proof. unfold mem_ok. simpl. intros [->| ->] H a; [apply H|done]. Qed.

Lemma mem_ok_release s : mem_ok s -> mem_ok (releaseGateLocked s).
Proof. unfold releaseGateLocked. destruct s as [g m]. simpl. destruct (mOwnsGate m); [|done]. apply mem_ok_manager. by left. Qed.

Lemma mem_ok_try s : mem_ok s -> mem_ok (tryAcquireGateLocked s).1.
Proof.
  unfold tryAcquireGateLocked. destruct s as [g m]. simpl. destruct (mOwnsGate m); [done|]. destruct g; [done|]. simpl. apply mem_ok_manager. by left.
Qed.

Lemma mem_ok_drop s : mem_ok s -> mem_ok (releaseGateLocked (mkProcState (psGate s) (set_active None (psManager s)))).
Proof. intros H. apply mem_ok_release. destruct s as [g m]. simpl. by apply (mem_ok_manager g g m); [right|]. Qed.

Lemma mem_ok_set item s : live (olState item) = true -> mem_ok s -> mem_ok (mkProcState (psGate s) (set_active (Some item) (psManager s))).
Proof. intros Hl _ a. simpl. by intros [= <-]. Qed.

Lemma safe_try strict Q : (forall b, Q b) -> safe strict tryAcquireGate Q.
Proof. intros HQ. apply swp_act; [intros s; apply mem_ok_try|auto]. Qed.

Lemma safe_reading strict {A} (f : Manager -> A) (Q : A -> Prop) : (forall s, mem_ok s -> Q (f (psManager s))) -> safe strict (reading f) Q.
Proof. intros HQ. apply swp_act; [by intros s|]. intros b (s & Hm & ->). by apply HQ. Qed.

Lemma safe_release strict (Q : unit -> Prop) : Q tt -> safe strict releaseGate Q.
Proof. intros HQ. apply swp_act; [intros s; apply mem_ok_release|by intros []]. Qed.

Lemma safe_drop strict (Q : unit -> Prop) : Q tt -> safe strict dropActive Q.
Proof. intros HQ. apply swp_act; [intros s; apply mem_ok_drop|by intros []]. Qed.

Lemma safe_set strict item (Q : unit -> Prop) : live (olState item) = true -> Q tt -> safe strict (writing (set_active (Some item))) Q.
Proof. intros Hl HQ. apply swp_act; [intros s; by apply mem_ok_set|by intros []]. Qed.

Lemma safe_writing strict f (Q : unit -> Prop) :
  (forall m, mActive (f m) = mActive m \/ mActive (f m) = None) -> Q tt -> safe strict (writing f) Q.
Proof. intros Hf HQ. apply swp_act; [|by intros []]. intros [g m]. simpl. apply mem_ok_manager, Hf. Qed.

Lemma allowed_live to : all_live (allowedFromStates to).
Proof. unfold allowedFromStates. repeat (destruct (_ : bool)); intros s Hs; set_unfold; naive_solver. Qed.

Lemma allowed_calm strict to : (strict = true -> to <> StateRestoringRuntime) -> calm strict (allowedFromStates to) to.
Proof.
  intros Hne Hs Hn s. specialize (Hne Hs). unfold allowedFromStates. rewrite (proj2 (String.eqb_neq _ _) Hne).
  apply contains_elem in Hn. unfold nonTerminalOperationLockStates in Hn. set_unfold in Hn.
  destruct Hn as [->|[->|[->|[->|[->|[->|[->|[]]]]]]]]; vm_compute allowedFromStates; intros Hin; set_unfold; naive_solver.
Qed.

(** *** The calls *)
Ltac safe_step :=
  first [ swp_step
        | match goal with
          | |- swp _ _ tryAcquireGate _ => apply safe_try; intros ?
          | |- swp _ _ releaseGate _ => apply safe_release
          | |- swp _ _ dropActive _ => apply safe_drop
          | |- swp _ _ (reading _) _ => apply safe_reading; intros ? ?
          | |- swp _ _ (recoveryForKind _) _ => apply safe_reading; intros ? ?
          | |- swp _ _ (reconcilerForKind _) _ => apply safe_reading; intros ? ?
          | |- swp _ _ isStopped _ => apply safe_reading; intros ? ?
          | |- swp _ _ (probe _) _ => unfold probe
          end ].

Ltac safe_go := repeat (progress cbn beta zeta || safe_step); try done.

Section Calls.
Context (strict : bool) (opts : Options).

Lemma terminal_or_live to : allowedFromStates to <> [] -> isTerminal to = false -> live to = true.
Proof.
  intros Ha Ht. apply andb_true_iff. split; apply negb_true_iff; apply not_true_iff_false; intros H.
  - apply contains_elem in H. set_unfold in H. destruct H as [->|[->|[->|[->|[->|[]]]]]]; discriminate.
  - apply String.eqb_eq in H as ->. discriminate.
Qed.

Lemma safe_transition id rev to binding (Q : result opError OperationLock -> Prop) :
  (strict = true -> to <> StateRestoringRuntime) -> (forall r, Q r) -> safe strict (transition opts id rev to binding) Q.
Proof.
  intros Hne HQ. unfold transition. apply swp_bind, safe_reading. intros s _. destruct (mActive (psManager s)) as [a|]; [|apply swp_ret, HQ].
  destruct (_ || _); [apply swp_ret, HQ|]. destruct (_ && _); [apply swp_ret, HQ|]. destruct (allowedFromStates to) as [|f fs] eqn:Ea; [apply swp_ret, HQ|].
  apply swp_bind, swp_act; [done|]. intros now _. apply swp_attempt, swp_act.
  - simpl. rewrite <- Ea. split; [apply allowed_live|by apply allowed_calm].
  - intros [item|e] Hr; [|apply HQ]. simpl in Hr. apply swp_bind. destruct (isTerminal to) eqn:Et.
    + apply safe_drop, swp_ret, HQ.
    + apply safe_set; [|apply swp_ret, HQ]. rewrite Hr. apply terminal_or_live; [by rewrite Ea|done].
Qed.

Lemma safe_acquire request : safe strict (Acquire opts request) (fun _ => True).
Proof.
  unfold Acquire. safe_go.
  - intros id. split; [done|]. by apply String.eqb_neq.
  - apply safe_set; [|done]. rewrite negb_false_iff in *. match goal with H : rely _ _ _ |- _ => destruct H as [id ->] end. simpl.
    match goal with H : containsOperationState _ _ = true |- _ => apply contains_elem in H; set_unfold in H; destruct H as [->|[->|[->|[]]]]; done end.
Qed.

Lemma safe_audit actor event id : safe strict (auditAction opts actor event id) (fun _ => True).
Proof. unfold auditAction. safe_go. Qed.

Lemma safe_prepare request plan confirmation : safe strict (Prepare opts request plan confirmation) (fun _ => True).
Proof.
  unfold Prepare. safe_go. eapply swp_mono; [apply safe_audit|]. intros [a|e] _; [apply safe_acquire|done].
Qed.

Lemma safe_begin_rollback id rev from binding :
  live from = true -> from = StateReconcileRequired \/ strict = false -> safe strict (beginRollback opts id rev from binding) (fun _ => True).
Proof.
  intros Hl Hs. unfold beginRollback. safe_go.
  - simpl. split; [done|]. destruct Hs as [->| ->]; [by left|right; done].
  - apply safe_set; [|done]. match goal with H : rely _ _ _ |- _ => simpl in H; by rewrite H end.
Qed.

Lemma safe_heartbeat id rev : safe strict (Heartbeat opts id rev) (fun _ => True).
Proof.
  unfold Heartbeat. safe_go. apply swp_act; [|safe_go]. intros [g m] Hm. simpl. destruct (same_active _ _); [|done].
  apply (mem_ok_set _ (mkProcState g m)); [|done]. match goal with H : rely _ _ _ |- _ => simpl in H end. by apply non_terminal_live.
Qed.

Lemma safe_forget id rev actor confirmation : safe strict (ForgetState opts id rev actor confirmation) (fun _ => True).
Proof. unfold ForgetState. safe_go. eapply swp_mono; [apply safe_audit|]. intros [a|e] _; safe_go. Qed.

Lemma safe_force_unlock id rev actor confirmed : safe strict (ForceUnlock opts id rev actor confirmed) (fun _ => True).
Proof.
  unfold ForceUnlock. safe_go. intros [g m] Hm. simpl. apply mem_ok_release.
  destruct (same_active _ (mActive m)); (apply (mem_ok_manager g g m); [|done]); [right; reflexivity|left; reflexivity].
Qed.

Lemma safe_validate id inst kind rev allow : safe strict (validateHelperLock opts id inst kind rev allow) (fun _ => True).
Proof. unfold validateHelperLock. safe_go. Qed.

(** Recovery never asks for the runtime to be restored. *)
Lemma safe_attempt item : safe strict (attemptRecoveryRollback item) (fun f => f.1 <> StateRestoringRuntime).
Proof. unfold attemptRecoveryRollback. safe_go. Qed.

Lemma safe_target item : safe strict (recoveryTarget item) (fun _ => True).
Proof. unfold recoveryTarget. safe_go. Qed.

Lemma safe_rolling_back item : safe strict (recoverRollingBack opts item) (fun _ => True).
Proof.
  unfold recoverRollingBack. safe_go.
  - split; [done|right]. intros _ _ s ->%list_elem_of_singleton. done.
  - apply safe_set; [match goal with H : rely _ _ _ |- _ => simpl in H; by rewrite H end|]. apply swp_bind.
    eapply swp_mono; [apply safe_attempt|]. intros f Hf. apply swp_bind. apply safe_transition; [done|]. intros r. safe_go.
Qed.

Lemma latest_live claimed s : live (olState claimed) = true -> mem_ok s -> live (olState (latest claimed (psManager s))) = true.
Proof. intros Hc Hm. unfold latest. destruct (mActive (psManager s)) as [a|] eqn:E; [|done]. destruct (String.eqb _ _); [by apply Hm|done]. Qed.

Lemma safe_record claimed e (Q : opError -> Prop) :
  live (olState claimed) = true -> (forall e, Q e) -> safe strict (recordRuntimeExecutionFailure claimed e) Q.
Proof.
  intros Hl HQ. unfold recordRuntimeExecutionFailure. destruct e; try apply swp_ret, HQ. apply swp_bind, swp_act.
  - intros [g m] Hm. simpl. apply (mem_ok_manager g g m); [by left|done].
  - intros b (s & Hm & ->). safe_go. simpl. by apply latest_live.
Qed.

Lemma safe_reconcile_claimed claimed inspection :
  live (olState claimed) = true -> safe strict (reconcileClaimed claimed inspection) (fun _ => True).
Proof.
  intros Hl. unfold reconcileClaimed. apply swp_bind.
  assert (Hd : safe strict (match inspection with Some e => Ret (Err e) | None => act (Reconcile claimed) end) (fun _ => True)) by (destruct inspection; safe_go).
  eapply swp_mono; [exact Hd|]. intros [decision|e] _; [|apply swp_bind, safe_record; [done|intros e'; safe_go]].
  destruct (negb _) eqn:Ed; [safe_go|]. apply negb_false_iff in Ed. apply swp_bind, safe_reading. intros s Hm.
  assert (Hc : live (olState (latest claimed (psManager s))) = true) by (by apply latest_live).
  apply swp_bind, swp_act; [done|]. intros now _. apply swp_bind, swp_act.
  - split; [by intros x ->%list_elem_of_singleton|]. intros _ Hn. apply contains_elem in Ed. set_unfold in Ed.
    destruct Ed as [E|[E|[E|[E|[E|[E|[]]]]]]]; simpl in Hn; rewrite E in Hn; discriminate.
  - intros r _. apply swp_bind. destruct r as [item|e]; [safe_go|]. destruct (_ && _); [|safe_go].
    apply swp_bind, safe_record; [done|]. intros e'. safe_go.
Qed.

Lemma safe_reconcile item : live (olState item) = true -> safe strict (reconcileOwnedKind opts item) (fun _ => True).
Proof.
  intros Hl. unfold reconcileOwnedKind. cbv zeta.
  assert (Hclaim : forall inspection, safe strict (now ← act Now;
      r ← act (Db (CReclaim (mkReclaimUpdate (olOperationID item) (olRevision item) (opInstanceID opts) (opPID opts)
                     (olState item) (olState item) None now (lease_end opts now) false)));
      match r with
      | Err e => _ ← releaseGate; fail e
      | Ok claimed => _ ← writing (set_active (Some claimed)); reconcileClaimed claimed inspection
      end) (fun _ => True)).
  { intros inspection. safe_go.
    - split; [done|right]. intros _ Hn s ->%list_elem_of_singleton. done.
    - match goal with H : rely _ _ _ |- _ => simpl in H; rename H into E end.
      apply safe_set; [by rewrite E|]. apply safe_reconcile_claimed. by rewrite E. }
  apply swp_bind, safe_try. intros gate. destruct (negb gate); [done|]. apply swp_bind, swp_act; [done|]. intros needed _.
  destruct needed as [[[]|[]]|]; first [apply Hclaim|safe_go].
Qed.

Lemma safe_suspect id (Q : unit -> Prop) : Q tt -> safe strict (suspect id) Q.
Proof. intros HQ. by apply safe_writing; [left|]. Qed.
Lemma reconcile_state_live item : reconcileKindState item = true -> live (olState item) = true.
Proof.
  unfold reconcileKindState. rewrite !orb_true_iff, andb_true_iff, !String.eqb_eq. intros [[[->| ->]| ->]|[-> _]]; done.
Qed.

Lemma safe_recover_reconciled now item :
  reconcileKindState item = true -> safe strict (recoverReconciled opts now item) (fun _ => True).
Proof.
  intros Hk%reconcile_state_live. unfold recoverReconciled. cbv zeta.
  assert (Hr : safe strict (r ← reconcileOwnedKind opts item;
      match r with
      | Err e => Ret ([], Some e)
      | Ok (updated, reason) => Ret ([mkRecoveryResult (olOperationID item) (olState item) (olState updated) reason], None)
      end) (fun _ => True)).
  { apply swp_bind. eapply swp_mono; [by apply safe_reconcile|]. intros r _. safe_go. }
  apply swp_bind, safe_reading. intros s _. cbn beta iota. destruct (_ || _); [done|]. destruct (_ && _); [done|]. destruct (_ && _); [|exact Hr].
  apply swp_bind. assert (Hp : safe strict (probe item) (fun _ => True)) by (unfold probe; safe_go).
  eapply swp_mono; [exact Hp|]. intros [[]|e] _; [done| |done]. destruct (now <=? olExpiresAt item); [done|exact Hr].
Qed.

Lemma safe_verdict now item : safe strict (recoveryVerdict now item) (fun _ => True).
Proof.
  unfold recoveryVerdict. apply swp_bind. assert (Hp : safe strict (probe item) (fun _ => True)) by (unfold probe; safe_go).
  eapply swp_mono; [exact Hp|]. intros [[]|e] _; [done| |done]. destruct (_ <? _); [apply safe_target|done].
Qed.

Lemma safe_recover_foreign now item : safe strict (recoverForeign opts now item) (fun _ => True).
Proof.
  unfold recoverForeign. apply swp_bind. eapply swp_mono; [apply safe_verdict|]. intros [to reason] _. destruct (String.eqb (olState item) to).
  - destruct (String.eqb to StateRollingBack).
    + apply swp_bind. eapply swp_mono; [apply safe_rolling_back|]. intros r _. safe_go.
    + apply swp_bind. destruct (String.eqb to StateLockSuspect); [by apply safe_suspect|done].
  - apply swp_bind, swp_act.
    + split; [intros s Hs; by apply non_terminal_live, contains_elem|]. intros _ _ s Hs. by apply contains_elem.
    + intros [updated|e] _; [|done]. cbv zeta. apply swp_bind.
      assert (Hlast : forall more : list RecoveryResult * option opError, safe strict (match more.2 with
        | Some e => Ret more
        | None => _ ← (if String.eqb (olState updated) StateLockSuspect then suspect (olOperationID item) else Ret tt); Ret more
        end) (fun _ => True)).
      { intros [l [e|]]; [done|]. simpl. apply swp_bind. destruct (String.eqb _ _); [by apply safe_suspect|done]. }
      destruct (String.eqb (olState updated) StateRollingBack); [|apply swp_ret, Hlast].
      apply swp_bind. eapply swp_mono; [apply safe_rolling_back|]. intros [[final reason']|e] _; apply swp_ret, Hlast.
Qed.

Lemma safe_recover_item now item : safe strict (recoverItem opts now item) (fun _ => True).
Proof.
  unfold recoverItem. apply swp_bind, safe_reading. intros s _. destruct (_ && _) eqn:E; [apply safe_recover_reconciled; apply andb_true_iff in E as [_ E]; exact E|].
  apply swp_bind, safe_try. intros _. destruct (owned_by _ _ _); [|apply safe_recover_foreign]. cbv zeta.
  destruct (String.eqb (olState item) StatePrepared && _); [|done].
  apply swp_bind, safe_transition; [intros _; destruct (String.eqb _ KindFronting); discriminate|]. intros r. safe_go.
Qed.

Lemma safe_recover_items now items results : safe strict (recoverItems opts now items results) (fun _ => True).
Proof.
  revert results. induction items as [|item items IH]; intros results; cbn [recoverItems]; [done|]. apply swp_bind.
  eapply swp_mono; [apply safe_recover_item|]. intros [l [e|]] _; [done|]. apply IH.
Qed.

Lemma safe_recover : safe strict (Recover opts) (fun _ => True).
Proof.
  unfold Recover. apply swp_bind, swp_act; [done|]. intros [all|e] _; [|done]. apply swp_bind, safe_reading. intros s _. apply swp_bind, swp_act; [done|]. intros now _.
  apply swp_bind. eapply swp_mono; [apply safe_recover_items|]. intros [l [e|]] _; [done|]. cbn [snd]. apply swp_bind, swp_act; [done|].
  intros [[|x rest]|e] _; [by apply swp_bind, safe_release|done..].
Qed.

Lemma safe_tick : safe strict (heartbeatTick opts) (fun _ => True).
Proof.
  unfold heartbeatTick. apply swp_bind, safe_reading. intros s _. destruct (mActive _) as [a|]; [|done]. destruct (String.eqb _ _); [done|].
  apply swp_bind. eapply swp_mono; [apply safe_heartbeat|]. done.
Qed.

Lemma safe_start done : safe strict (Start opts done) (fun _ => True).
Proof.
  unfold Start. apply swp_bind, safe_reading. intros s _. cbn [fst snd]. destruct (mStarted _); [done|]. apply swp_bind.
  eapply swp_mono; [apply safe_recover|].
  assert (Hw : safe strict (_ ← writing (fun m => if mStarted m then m else set_runner true false (Some done) m); Ret (Ok tt : result opError unit)) (fun _ => True)).
  { apply swp_bind, safe_writing; [|done]. intros m. left. by destruct (mStarted m). }
  intros [l [e|]] _; simpl; [|exact Hw]. destruct (is_runtime_recovery e); [exact Hw|done].
Qed.

Lemma safe_stop : safe strict Stop (fun _ => True).
Proof.
  unfold Stop. apply swp_bind, swp_act.
  - intros [g m] Hm. simpl. apply mem_ok_release. apply (mem_ok_manager g g m); [by right|done].
  - intros [d|] _; [|done]. apply swp_bind, swp_act; [done|]. intros drained _. destruct drained; [|done].
    apply swp_bind, safe_writing; [|done]. intros m. left. by case_bool_decide.
Qed.

Lemma safe_backends (p : prog (result opError unit)) :
  (exists present, p = SetRecovery present) \/ (exists kind present, p = SetRecoveryForKind kind present \/ p = SetReconcilerForKind kind present) ->
  safe strict p (fun _ => True).
Proof.
  assert (Hset : forall f : procState -> procState * result opError unit,
    (forall s, (f s).1 = s \/ exists a b c, (f s).1 = mkProcState (psGate s) (set_backends a b c (psManager s))) -> safe strict (act (Locked f)) (fun _ => True)).
  { intros f Hf. apply swp_act; [|done]. intros s Hm. destruct (Hf s) as [->|(a & b & c & ->)]; [done|]. destruct s as [g m].
    apply (mem_ok_manager g g m); [by left|done]. }
  intros [(present & ->)|(kind & present & [->| ->])]; [unfold SetRecovery|unfold SetRecoveryForKind|unfold SetReconcilerForKind].
  1: apply Hset; intros s; destruct (mStarted _); [by left|right; eauto].
  1,2: destruct (_ || _); [done|]; apply Hset; intros s; destruct (mStarted _); [by left|right; eauto].
Qed.
End Calls.
