(* ===== verification/OperationHistories.v ===== *)
(** * Server protection: histories of operations

    Many managers, each in its process, run their programs against one table.  A step
    is one action of one program; a transaction may also fail, with or without its
    effect, a process may crash and another may start, and retention deletes rows of
    ended operations.

    The theorems show that a revision fences its owner, that ended operations stay
    ended, that an idempotency key names one operation, and when operations are
    exclusive. *)

From S2P Require Import Prelude GoStrings Programs OperationLocks OperationManager OperationLogic.

Open Scope string_scope.
Open Scope list_scope.
Open Scope Z_scope.

(** ** Calls *)
Inductive call :=
| KSetRecovery (present : bool)
| KSetRecoveryForKind (kind : string) (present : bool)
| KSetReconcilerForKind (kind : string) (present : bool)
| KValidateHelperLock (operationID instanceID kind : string) (revision : Z) (allowTerminalRead : bool)
| KAcquire (request : AcquireRequest)
| KPrepare (request : AcquireRequest) (planRevision confirmation : string)
| KTransition (operationID : string) (revision : Z) (toState : string) (binding : option string)
| KBeginRollback (operationID : string) (revision : Z) (binding : option string)
| KBeginReconciledRollback (operationID : string) (revision : Z)
| KHeartbeat (operationID : string) (revision : Z)
| KForgetState (operationID : string) (revision : Z) (actor confirmation : string)
| KForceUnlock (operationID : string) (revision : Z) (actor : string) (confirmed : bool)
| KRecover
| KHeartbeatTick
| KStart (done : nat)
| KStop.

Definition ignore {A} (p : prog A) : prog unit := _ ← p; Ret tt.

Definition run (opts : Options) (c : call) : prog unit :=
  match c with
  | KSetRecovery b => ignore (SetRecovery b)
  | KSetRecoveryForKind k b => ignore (SetRecoveryForKind k b)
  | KSetReconcilerForKind k b => ignore (SetReconcilerForKind k b)
  | KValidateHelperLock id inst kind rev allow => ignore (validateHelperLock opts id inst kind rev allow)
  | KAcquire r => ignore (Acquire opts r)
  | KPrepare r plan conf => ignore (Prepare opts r plan conf)
  | KTransition id rev to b => ignore (transition opts id rev to b)
  | KBeginRollback id rev b => ignore (beginRollback opts id rev StateApplied b)
  | KBeginReconciledRollback id rev => ignore (BeginReconciledRollback opts id rev)
  | KHeartbeat id rev => ignore (Heartbeat opts id rev)
  | KForgetState id rev actor conf => ignore (ForgetState opts id rev actor conf)
  | KForceUnlock id rev actor b => ignore (ForceUnlock opts id rev actor b)
  | KRecover => ignore (Recover opts)
  | KHeartbeatTick => heartbeatTick opts
  | KStart d => ignore (Start opts d)
  | KStop => ignore Stop
  end.

(** Calls other than a manual rollback of an applied operation and a restoration of the runtime. *)
Definition modest (c : call) : bool :=
  match c with
  | KBeginRollback _ _ _ => false
  | KTransition _ _ to _ => negb (String.eqb to StateRestoringRuntime)
  | _ => true
  end.

Lemma safe_ignore strict {A} (p : prog A) : safe strict p (fun _ => True) -> safe strict (ignore p) (fun _ => True).
Proof. intros H. apply swp_bind. by eapply swp_mono. Qed.

Lemma safe_run strict opts c : (strict = true -> modest c = true) -> safe strict (run opts c) (fun _ => True).
Proof.
  intros Hm. destruct c; cbn [run]; try apply safe_ignore.
  - apply safe_backends. eauto.
  - apply safe_backends. eauto.
  - apply safe_backends. eauto.
  - apply safe_validate.
  - apply safe_acquire.
  - apply safe_prepare.
  - apply safe_transition; [|done]. intros Hs E. specialize (Hm Hs). simpl in Hm. by rewrite E in Hm.
  - apply safe_begin_rollback; [done|]. destruct strict; [by specialize (Hm eq_refl)|by right].
  - apply safe_begin_rollback; [done|by left].
  - apply safe_heartbeat.
  - apply safe_forget.
  - apply safe_force_unlock.
  - apply safe_recover.
  - apply safe_tick.
  - apply safe_start.
  - apply safe_stop.
Qed.

(** ** Worlds *)
Record opWorld := mkOpWorld {
  owTable : lockTable;
  owUsed : gset string;                          (** the operation identifiers drawn so far *)
  owProcs : gmap string (Options * procState);   (** by instance *)
  owThreads : list (string * prog unit)
}.

(** The effect of an action with answer [b]. *)
Definition effect {B} (a : action B) (t : lockTable) (used : gset string) (s : procState) : B -> lockTable -> gset string -> procState -> Prop :=
  match a in action B return B -> lockTable -> gset string -> procState -> Prop with
  | Db c => fun r t' used' s' => used' = used /\ s' = s /\
      ((t', r) = exec c t \/ (r = Err ErrDatabase /\ (t' = t \/ t' = (exec c t).1)))
  | DbNew i => fun r t' used' s' => s' = s /\ exists id, id ∉ used /\ used' = {[id]} ∪ used /\
      ((t', r) = AcquireOperationLock (i id) t \/ (r = Err ErrDatabase /\ (t' = t \/ t' = (AcquireOperationLock (i id) t).1)))
  | Locked f => fun b t' used' s' => t' = t /\ used' = used /\ (s', b) = f s
  | _ => fun _ t' used' s' => t' = t /\ used' = used /\ s' = s
  end.

Definition fresh_process : procState := mkProcState false newManager.

Section Histories.
Context (allowed : call -> bool).

Inductive opStep : opWorld -> opWorld -> Prop :=
| op_call t used procs threads inst opts s c :
    procs !! inst = Some (opts, s) -> allowed c = true ->
    opStep (mkOpWorld t used procs threads) (mkOpWorld t used procs ((inst, run opts c) :: threads))
| op_act t used procs l1 l2 inst opts s B (a : action B) k b t' used' s' :
    procs !! inst = Some (opts, s) -> effect a t used s b t' used' s' ->
    opStep (mkOpWorld t used procs (l1 ++ (inst, Do a k) :: l2))
      (mkOpWorld t' used' (<[inst := (opts, s')]> procs) (l1 ++ (inst, k b) :: l2))
| op_start t used procs threads opts :
    procs !! opInstanceID opts = None ->
    opStep (mkOpWorld t used procs threads) (mkOpWorld t used (<[opInstanceID opts := (opts, fresh_process)]> procs) threads)
| op_crash t used procs threads inst :
    opStep (mkOpWorld t used procs threads)
      (mkOpWorld t used (delete inst procs) (List.filter (fun th => negb (String.eqb th.1 inst)) threads))
| op_retention t used procs threads r :
    r ∈ t -> isTerminal (olState r) = true ->
    opStep (mkOpWorld t used procs threads) (mkOpWorld (List.filter (fun x => negb (is_op (olOperationID r) x)) t) used procs threads).

End Histories.

(** A new installation. *)
Definition empty_world : opWorld := mkOpWorld [] ∅ ∅ [].

(** ** What a step does to the table *)
Inductive tableStep (strict : bool) (t : lockTable) (used : gset string) : lockTable -> gset string -> Prop :=
| ts_update cond cols t' : fine_update strict cond cols t t' -> tableStep strict t used t' used
| ts_draw id : id ∉ used -> tableStep strict t used t ({[id]} ∪ used)
| ts_new i : aiOperationID i ∉ used -> (forall r, r ∈ t -> olIdempotencyKey r <> aiIdempotencyKey i) ->
    (forall r, r ∈ t -> non_terminal (olState r) = false) -> tableStep strict t used (t ++ [new_lock i]) ({[aiOperationID i]} ∪ used)
| ts_delete f : tableStep strict t used (List.filter f t) used.

Lemma acquire_cases i t :
  aiIdempotencyKey i <> "" ->
  let out := AcquireOperationLock i t in
  (out.1 = t \/ (out.1 = t ++ [new_lock i] /\ (forall r, r ∈ t -> olIdempotencyKey r <> aiIdempotencyKey i) /\
    (forall r, r ∈ t -> non_terminal (olState r) = false))) /\
  (forall item, out.2 = Ok (item, false) -> item = new_lock i).
Proof.
  intros Hk. cbv zeta. unfold AcquireOperationLock. rewrite (proj2 (String.eqb_neq _ _) Hk).
  destruct (last_row _ t) as [x|] eqn:El; [split; [by left|done]|]. unfold create_lock.
  destruct (existsb _ t) eqn:Ea; [split; [by left|done]|]. destruct (existsb (is_op _) t); [split; [by left|done]|].
  split; [|by intros item [= <-]]. right. split; [done|]. split; intros r Hr%list_elem_of_In.
  - intros E. unfold last_row in El. apply (find_none _ _) with (x := r) in El; [|by apply in_rev in Hr]. simpl in El. by rewrite E, String.eqb_refl in El.
  - apply not_true_iff_false. intros Hn. apply not_true_iff_false in Ea. apply Ea, existsb_exists. eauto.
Qed.

Lemma ts_same strict t used : tableStep strict t used t used.
Proof. destruct (no_update strict t) as (cond & cols & H). by apply (ts_update _ _ _ cond cols). Qed.

Lemma effect_table strict {B} (a : action B) t used s b t' used' s' :
  guar strict B a -> NoDup (olOperationID <$> t) -> effect a t used s b t' used' s' -> tableStep strict t used t' used'.
Proof.
  intros Hg Hnd He. destruct a as [A c|A f| |i| | | | | | | | ]; simpl in He; try (destruct He as (-> & -> & _); apply ts_same).
  - destruct He as (-> & _ & Hx). destruct (exec_fine strict c t Hg Hnd) as (cond & cols & Hf).
    assert (t' = t \/ t' = (exec c t).1) as [->| ->] by (destruct Hx as [Hx|[_ [->| ->]]]; [right; by rewrite <- Hx|auto..]).
    + apply ts_same.
    + by apply (ts_update _ _ _ cond cols).
  - destruct He as (_ & id & Hid & -> & Hx). destruct (Hg id) as [Ei Hk].
    assert (t' = t \/ t' = (AcquireOperationLock (i id) t).1) as Ht by (destruct Hx as [Hx|[_ [->| ->]]]; [right; by rewrite <- Hx|auto..]).
    destruct (acquire_cases (i id) t Hk) as [Hc _]. destruct Ht as [->| ->]; [by apply ts_draw|].
    destruct Hc as [->|(-> & H1 & H2)]; [by apply ts_draw|]. rewrite <- Ei at 2. apply ts_new; [by rewrite Ei|done|done].
Qed.

(** The answers that programs rely on. *)
Lemma exec_answer {A} (c : storeCall A) t t' x : NoDup (olOperationID <$> t) -> exec c t = (t', Ok x) -> call_answer c x.
Proof.
  intros Hnd. destruct c as [i|key|id|states|u|id inst pid rev now ex|u|u|id rev now|id rev now|id n at_ code|op n now]; cbn [exec call_answer]; try done.
  - unfold UpdateOperationLockFenced. intros (r & _ & _ & -> & _)%update_one_row; [|by unfold fenced_cond, at_revision; intros ? [[[[? ?]%andb_true_iff ?]%andb_true_iff ?]%andb_true_iff ?]%andb_true_iff|done].
    rewrite assigns_app. etrans; [apply optional_helper_state|done].
  - unfold HeartbeatOperationLock. intros (r & _ & Hc & -> & _)%update_one_row; [|by unfold heartbeat_cond, at_revision; intros ? [[[? ?]%andb_true_iff ?]%andb_true_iff ?]%andb_true_iff|done].
    unfold heartbeat_cond in Hc. apply andb_true_iff in Hc as [_ Hc]. exact Hc.
  - unfold ReclaimOperationLock. cbv zeta. destruct (update_one _ _ _ _ _) as [t1 [item|e]] eqn:E; [|done]. destruct (_ && _); [done|]. intros [= _ <-].
    apply update_one_row in E as (r & _ & _ & -> & _); [|by unfold at_revision; intros ? [[? ?]%andb_true_iff ?]%andb_true_iff|done].
    rewrite assigns_app. etrans; [apply optional_helper_state|done].
Qed.

Lemma effect_rely strict {B} (a : action B) t used s b t' used' s' :
  guar strict B a -> NoDup (olOperationID <$> t) -> mem_ok s -> effect a t used s b t' used' s' -> rely B a b /\ mem_ok s'.
Proof.
  intros Hg Hnd Hm He. destruct a as [A c|A f| |i| | | | | | | | ]; simpl in He; try (destruct He as (_ & _ & ->); done).
  - destruct He as (_ & -> & Hx). split; [|done]. simpl. destruct b as [x|e]; [|done]. destruct Hx as [Hx|[? _]]; [|done]. by apply (exec_answer c t t').
  - destruct He as (_ & _ & Hx). simpl in Hg |- *. specialize (Hg s Hm). rewrite <- Hx in Hg. split; [|done]. exists s. by rewrite <- Hx.
  - destruct He as (-> & id & _ & _ & Hx). split; [|done]. simpl. destruct b as [[item [|]]|e]; [done| |done]. destruct Hx as [Hx|[? _]]; [|done].
    destruct (Hg id) as [_ Hk]. destruct (acquire_cases (i id) t Hk) as [_ Ha]. exists id. rewrite <- Hx in Ha. by rewrite (Ha item eq_refl).
Qed.

(** ** The invariant *)
Record world_ok (strict : bool) (w : opWorld) : Prop := mkWorldOk {
  wk_ids : NoDup (olOperationID <$> owTable w);
  wk_used : forall r, r ∈ owTable w -> olOperationID r ∈ owUsed w;
  wk_keys : NoDup (olIdempotencyKey <$> owTable w);
  wk_mem : forall inst opts s, owProcs w !! inst = Some (opts, s) -> mem_ok s;
  wk_threads : forall inst p, (inst, p) ∈ owThreads w -> safe strict p (fun _ => True)
}.

Lemma NoDup_fmap_filter {A B} (f : A -> B) (g : A -> bool) l : NoDup (f <$> l) -> NoDup (f <$> List.filter g l).
Proof.
  induction l as [|x l IH]; [done|]. rewrite fmap_cons, NoDup_cons. intros [Hn Hnd]. simpl. destruct (g x); [|auto]. rewrite fmap_cons, NoDup_cons.
  split; [|auto]. intros (y & He & Hy)%list_elem_of_fmap. apply Hn. rewrite He. apply list_elem_of_fmap_2.
  rewrite list_elem_of_In, filter_In, <- list_elem_of_In in Hy. tauto.
Qed.

Lemma table_step_ok strict t used t' used' :
  tableStep strict t used t' used' -> NoDup (olOperationID <$> t) -> (forall r, r ∈ t -> olOperationID r ∈ used) -> NoDup (olIdempotencyKey <$> t) ->
  NoDup (olOperationID <$> t') /\ (forall r, r ∈ t' -> olOperationID r ∈ used') /\ NoDup (olIdempotencyKey <$> t').
Proof.
  intros Hs Hid Hu Hk. destruct Hs as [cond cols t' (Hup & _ & Hp)|id Hf|i Hf Hkey Hn|f].
  - rewrite (updates_ids _ _ _ _ Hup), (updates_keys _ _ _ _ Hup). split_and!; [done| |done].
    intros r' Hr'. destruct (updates_progress _ _ _ _ Hup (fun r H1 H2 => proj1 (Hp r H1 H2)) r' Hr') as (r & Hr & Hpr). rewrite (pg_id _ _ Hpr). auto.
  - split_and!; [done|set_solver|done].
  - rewrite !fmap_app. split_and!.
    + apply NoDup_app. split_and!; [done| |apply NoDup_singleton]. intros x (r & -> & Hr)%list_elem_of_fmap E%list_elem_of_singleton.
      apply Hf. simpl in E. rewrite <- E. by apply Hu.
    + intros r [Hr| ->%list_elem_of_singleton]%elem_of_app; simpl; set_solver.
    + apply NoDup_app. split_and!; [done| |apply NoDup_singleton]. intros x (r & -> & Hr)%list_elem_of_fmap E%list_elem_of_singleton. by apply (Hkey r Hr).
  - split_and!; [by apply NoDup_fmap_filter| |by apply NoDup_fmap_filter]. intros r Hr. apply Hu. rewrite list_elem_of_In, filter_In, <- list_elem_of_In in Hr. tauto.
Qed.

Lemma step_table strict allowed w w' :
  world_ok strict w -> opStep allowed w w' -> tableStep strict (owTable w) (owUsed w) (owTable w') (owUsed w').
Proof.
  intros Hok Hs. destruct Hs as [t used procs threads inst opts s c Hi Ha|t used procs l1 l2 inst opts s B a k b t' used' s' Hi He| | |]; simpl; try apply ts_same; [|apply ts_delete].
  apply (effect_table strict a t used s b t' used' s'); [|exact (wk_ids _ _ Hok)|done].
  assert (Hsafe : safe strict (Do a k) (fun _ => True)) by (apply (wk_threads _ _ Hok inst); simpl; set_solver). exact (proj1 Hsafe).
Qed.

Lemma step_ok strict allowed w w' :
  (strict = true -> forall c, allowed c = true -> modest c = true) -> world_ok strict w -> opStep allowed w w' -> world_ok strict w'.
Proof.
  intros Hm Hok Hs. destruct (table_step_ok _ _ _ _ _ (step_table _ _ _ _ Hok Hs) (wk_ids _ _ Hok) (wk_used _ _ Hok) (wk_keys _ _ Hok)) as (H1 & H2 & H3).
  split; [done..| |].
  - destruct Hs as [| | | |]; simpl in *; try exact (wk_mem _ _ Hok).
    + pose proof (wk_threads _ _ Hok inst (Do a k)) as Hsafe. simpl in Hsafe. specialize (Hsafe ltac:(set_solver)). destruct Hsafe as [Hg _].
      assert (Hs' : mem_ok s') by (eapply (effect_rely strict a); [exact Hg|exact (wk_ids _ _ Hok)|by apply (wk_mem _ _ Hok inst opts)|eassumption]).
      intros i o x Hx. destruct (decide (i = inst)) as [->|Hne]; [rewrite lookup_insert_eq in Hx; by injection Hx as <- <-|].
      rewrite lookup_insert_ne in Hx by done. by apply (wk_mem _ _ Hok i o).
    + intros i o x Hx. destruct (decide (i = opInstanceID opts)) as [->|Hne]; [rewrite lookup_insert_eq in Hx; injection Hx as <- <-; by intros a|].
      rewrite lookup_insert_ne in Hx by done. by apply (wk_mem _ _ Hok i o).
    + intros i o x [_ Hx]%lookup_delete_Some. by apply (wk_mem _ _ Hok i o).
  - destruct Hs as [| | | |]; simpl in *; try exact (wk_threads _ _ Hok).
    + intros i p [[= -> ->]|Hp]%elem_of_cons; [apply safe_run; intros Hst; by apply Hm|by apply (wk_threads _ _ Hok i)].
    + pose proof (wk_threads _ _ Hok inst (Do a k)) as Hsafe. simpl in Hsafe. specialize (Hsafe ltac:(set_solver)). destruct Hsafe as [Hg Hk].
      intros i p Hp. rewrite elem_of_app, elem_of_cons in Hp.
      assert ((i, p) = (inst, k b) \/ (i, p) ∈ l1 ++ (inst, Do a k) :: l2) as [[= -> ->]|Hold] by (rewrite elem_of_app, elem_of_cons; tauto);
        [|by apply (wk_threads _ _ Hok i)].
      apply Hk. eapply (effect_rely strict a); [exact Hg|exact (wk_ids _ _ Hok)|by apply (wk_mem _ _ Hok inst opts)|eassumption].
    + intros i p Hp. apply (wk_threads _ _ Hok i). simpl. rewrite list_elem_of_In, filter_In, <- list_elem_of_In in Hp. tauto.
Qed.

Lemma empty_ok strict : world_ok strict empty_world.
Proof. split; simpl; try apply NoDup_nil_2; try (intros ? ? H%elem_of_nil; done); try (intros ? H%elem_of_nil; done). intros i o s. by rewrite lookup_empty. Qed.

Lemma reachable_ok strict allowed w :
  (strict = true -> forall c, allowed c = true -> modest c = true) -> rtc (opStep allowed) empty_world w -> world_ok strict w.
Proof.
  intros Hm Hr. pose proof (empty_ok strict) as H0. induction Hr as [w|w1 w2 w3 Hs _ IH]; [done|]. apply IH. by apply (step_ok strict allowed w1).
Qed.

(** ** Rows along a history *)
Lemma table_step_progress strict t used t' used' :
  tableStep strict t used t' used' -> used ⊆ used' /\ forall r', r' ∈ t' -> olOperationID r' ∈ used -> exists r, r ∈ t /\ progress r r'.
Proof.
  intros Hs. destruct Hs as [cond cols t' (Hup & _ & Hp)|id Hf|i Hf Hkey Hn|f].
  - split; [done|]. intros r' Hr' _. exact (updates_progress _ _ _ _ Hup (fun r H1 H2 => proj1 (Hp r H1 H2)) r' Hr').
  - split; [set_solver|]. intros r' Hr' _. by exists r'.
  - split; [set_solver|]. intros r' [Hr'| ->%list_elem_of_singleton]%elem_of_app Hu; [by exists r'|done].
  - split; [done|]. intros r' Hr' _. exists r'. rewrite list_elem_of_In, filter_In, <- list_elem_of_In in Hr'. split; [tauto|reflexivity].
Qed.

Lemma history_progress allowed w w' :
  world_ok false w -> rtc (opStep allowed) w w' ->
  world_ok false w' /\ forall r', r' ∈ owTable w' -> olOperationID r' ∈ owUsed w -> exists r, r ∈ owTable w /\ progress r r'.
Proof.
  intros Hok Hr. revert Hok. induction Hr as [w|w1 w2 w3 Hs Hr IH]; intros Hok; [split; [done|]; intros r' Hr' _; by exists r'|].
  assert (Hok2 : world_ok false w2) by (by apply (step_ok false allowed w1)). destruct (IH Hok2) as [Hok3 Hp]. split; [done|]. intros r' Hr' Hu.
  destruct (table_step_progress _ _ _ _ _ (step_table _ _ _ _ Hok Hs)) as [Hsub Hone].
  destruct (Hp r' Hr') as (r2 & Hr2 & P2); [by apply Hsub|]. destruct (Hone r2 Hr2) as (r1 & Hr1 & P1); [by rewrite <- (pg_id _ _ P2)|].
  exists r1. split; [done|]. by transitivity r2.
Qed.

Lemma same_id_row t r r' : NoDup (olOperationID <$> t) -> r ∈ t -> r' ∈ t -> olOperationID r = olOperationID r' -> r = r'.
Proof.
  intros Hnd [i Hi]%list_elem_of_lookup [j Hj]%list_elem_of_lookup E. assert (i = j); [|congruence].
  apply (proj1 (NoDup_alt _) Hnd i j (olOperationID r)); rewrite list_lookup_fmap, ?Hi, ?Hj; simpl; congruence.
Qed.

(** How the row of an operation changed since an earlier world. *)
Lemma row_progress allowed w w' r r' :
  world_ok false w -> rtc (opStep allowed) w w' -> r ∈ owTable w -> r' ∈ owTable w' -> olOperationID r' = olOperationID r -> progress r r'.
Proof.
  intros Hok Hr Hin Hin' E. destruct (history_progress _ _ _ Hok Hr) as [_ Hp].
  destruct (Hp r' Hin') as (r0 & Hr0 & P); [rewrite E; by apply (wk_used _ _ Hok)|].
  assert (r0 = r) as ->; [|done]. apply (same_id_row (owTable w)); [exact (wk_ids _ _ Hok)|done|done|]. rewrite <- E. by rewrite (pg_id _ _ P).
Qed.

Lemma progress_revision r r' : progress r r' -> olRevision r <= olRevision r'.
Proof. intros P. destruct (pg_fence _ _ P) as [|[? _]]; lia. Qed.

Lemma update_one_missed cond cols e id t : (forall r, r ∈ t -> cond r = false) -> update_one cond cols e id t = (t, Err e).
Proof.
  intros H. unfold update_one, rows_affected.
  assert (List.filter cond t = []) as ->; [|done]. induction t as [|r t IH]; [done|]. simpl. rewrite (H r) by apply list_elem_of_here.
  apply IH. intros x Hx. apply H. by apply list_elem_of_further.
Qed.

(** A revision that was passed is never current again. *)
Lemma stale_revision allowed w w' r revision x :
  world_ok false w -> rtc (opStep allowed) w w' -> r ∈ owTable w -> revision < olRevision r -> x ∈ owTable w' ->
  at_revision (olOperationID r) revision x = false.
Proof.
  intros Hok Hr Hin Hlt Hx. apply not_true_iff_false. intros [Hid Hrev]%at_revision_true.
  pose proof (progress_revision _ _ (row_progress allowed w w' r x Hok Hr Hin Hx Hid)). lia.
Qed.

Section Theorems.
Context (allowed : call -> bool).

(** C6: the revision of an operation is its fence.  Along every history of managers,
    with failing transactions and crashes, a revision names one state, one owner and
    one binding for good, and once it has been passed every transition, heartbeat,
    takeover and recovery that still carries it is refused, whoever asks. *)
Theorem revision_fences_owner w w' r :
  rtc (opStep allowed) empty_world w -> rtc (opStep allowed) w w' -> r ∈ owTable w ->
  (forall r', r' ∈ owTable w' -> olOperationID r' = olOperationID r ->
     olRevision r <= olRevision r' /\
     (olRevision r' = olRevision r -> olState r' = olState r /\ olLockedByInstanceID r' = olLockedByInstanceID r /\
        olLockedByPID r' = olLockedByPID r /\ olHelperRevision r' = olHelperRevision r)) /\
  (forall u, fuOperationID u = olOperationID r -> fuRevision u < olRevision r ->
     UpdateOperationLockFenced u (owTable w') = (owTable w', Err ErrOperationFenced)) /\
  (forall inst pid revision now ex, revision < olRevision r ->
     HeartbeatOperationLock (olOperationID r) inst pid revision now ex (owTable w') = (owTable w', Err ErrOperationFenced)) /\
  (forall u, rcOperationID u = olOperationID r -> rcRevision u < olRevision r ->
     ReclaimOperationLock u (owTable w') = (owTable w', Err ErrOperationFenced)) /\
  (forall u, ruOperationID u = olOperationID r -> ruExpectedRevision u < olRevision r ->
     RecoverOperationLock u (owTable w') = (owTable w', Err ErrRevisionConflict)).
Proof.
  intros H0 Hr Hin. pose proof (reachable_ok false allowed w ltac:(done) H0) as Hok. split_and!.
  - intros r' Hr' E. pose proof (row_progress allowed w w' r r' Hok Hr Hin Hr' E) as P. split; [by apply progress_revision|].
    intros Eq. destruct (pg_fence _ _ P) as [Hlt|(_ & H1 & H2 & H3 & H4)]; [lia|done].
  - intros u Hid Hlt. apply update_one_missed. intros x Hx. unfold fenced_cond. rewrite Hid. by rewrite (stale_revision allowed w w' r (fuRevision u) x).
  - intros inst pid revision now ex Hlt. apply update_one_missed. intros x Hx. unfold heartbeat_cond. by rewrite (stale_revision allowed w w' r revision x).
  - intros u Hid Hlt. unfold ReclaimOperationLock. cbv zeta. rewrite update_one_missed; [done|]. intros x Hx. rewrite Hid. by rewrite (stale_revision allowed w w' r (rcRevision u) x).
  - intros u Hid Hlt. apply update_one_missed. intros x Hx. rewrite Hid. by rewrite (stale_revision allowed w w' r (ruExpectedRevision u) x).
Qed.

(** The row but for the record of attempts to recover it: their number, the time and the
    error of the last one, and the time of the last change. *)
Definition without_recovery (r : OperationLock) : OperationLock :=
  assigns [ColRecoveryAttempts 0; ColLastRecoveryAt 0; ColRecoveryErrorCode ""; ColUpdatedAt 0] r.

Lemma settled_row r r' : progress r r' -> settled (olState r) = true -> without_recovery r' = without_recovery r.
Proof.
  intros [H1 H2 H3 H4 H5 H6 _] Hs. destruct (H6 Hs) as (E1 & E2 & E3). destruct H5 as [Hlt|(_ & _ & E4 & E5 & E6)]; [lia|].
  unfold request_of in H4. unfold lease_of in E3. injection H4 as Q1 Q2 Q3 Q4 Q5 Q6 Q7. injection E3 as L1 L2. destruct r, r'. cbn in *. subst. reflexivity.
Qed.

(** C25: an operation that ended stays ended.  Once it is rolled back, abandoned,
    force-unlocked, forgotten or cancelled, no call of any manager changes its row again,
    save that a late report of a recovery may rewrite the record of recovery attempts and
    the time of the last change; after a failed rollback it can only be forgotten. *)
Theorem ended_operations_stay_ended w w' r r' :
  rtc (opStep allowed) empty_world w -> rtc (opStep allowed) w w' -> r ∈ owTable w -> r' ∈ owTable w' -> olOperationID r' = olOperationID r ->
  (settled (olState r) = true -> without_recovery r' = without_recovery r) /\
  (olState r = StateRollbackFailed -> olState r' = StateRollbackFailed \/ olState r' = StateForgotten).
Proof.
  intros H0 Hr Hin Hin' E. pose proof (row_progress allowed w w' r r' (reachable_ok false allowed w ltac:(done) H0) Hr Hin Hin' E) as P.
  split; [by apply settled_row|exact (pg_failed _ _ P)].
Qed.

(** an idempotency key names at most one operation, and a request that repeats the
    key of one joins it without touching the table. *)
Theorem idempotency_key_names_one w r r' i :
  rtc (opStep allowed) empty_world w -> r ∈ owTable w -> r' ∈ owTable w -> olIdempotencyKey r = olIdempotencyKey r' ->
  aiIdempotencyKey i = olIdempotencyKey r -> aiIdempotencyKey i <> "" ->
  r = r' /\ AcquireOperationLock i (owTable w) = (owTable w, Ok (r, true)).
Proof.
  intros H0 Hin Hin' E Ei Hne. pose proof (reachable_ok false allowed w ltac:(done) H0) as Hok.
  assert (Huniq : forall x, x ∈ owTable w -> olIdempotencyKey x = olIdempotencyKey r -> x = r).
  { intros x [k Hk]%list_elem_of_lookup Ex. apply list_elem_of_lookup in Hin as [j Hj]. assert (k = j); [|congruence].
    apply (proj1 (NoDup_alt _) (wk_keys _ _ Hok) k j (olIdempotencyKey r)); rewrite list_lookup_fmap, ?Hk, ?Hj; simpl; congruence. }
  split; [symmetry; by apply Huniq|]. unfold AcquireOperationLock. rewrite (proj2 (String.eqb_neq _ _) Hne).
  destruct (last_row _ _) as [x|] eqn:El; unfold last_row in El.
  - apply find_elem in El as [Hx Hkx%String.eqb_eq]. rewrite list_elem_of_In, <- in_rev, <- list_elem_of_In in Hx. by rewrite (Huniq x Hx) by congruence.
  - apply (find_none _ _) with (x := r) in El; [|by rewrite <- in_rev, <- list_elem_of_In]. simpl in El. by rewrite Ei, String.eqb_refl in El.
Qed.
End Theorems.

(** ** Exclusive operations *)
Definition exclusive (t : lockTable) : Prop :=
  forall r r', r ∈ t -> r' ∈ t -> non_terminal (olState r) = true -> non_terminal (olState r') = true -> r = r'.

Lemma table_step_exclusive t used t' used' :
  tableStep true t used t' used' -> NoDup (olOperationID <$> t) -> exclusive t -> exclusive t'.
Proof.
  intros Hs Hnd He. destruct Hs as [cond cols t' (Hup & [id0 Hid0] & Hp)|id Hf|i Hf Hkey Hn|f].
  - destruct Hup as [->| ->]; [done|].
    assert (Hsource : forall x, x ∈ t -> non_terminal (olState (if cond x then assigns cols x else x)) = true ->
      non_terminal (olState x) = true \/ forall y, y ∈ t -> olOperationID y <> olOperationID x -> non_terminal (olState y) = false).
    { intros x Hx Hnt. destruct (cond x) eqn:Ec; [|by left]. destruct (Hp x Hx Ec) as [_ Hq]. by apply (Hq eq_refl). }
    assert (Halone : forall x y, x ∈ t -> y ∈ t -> non_terminal (olState (if cond x then assigns cols x else x)) = true ->
      non_terminal (olState (if cond y then assigns cols y else y)) = true -> x = y).
    { intros x y Hx Hy Nx Ny. destruct (decide (olOperationID x = olOperationID y)) as [E|Hne]; [by apply (same_id_row t)|].
      destruct (Hsource x Hx Nx) as [Sx|Ax], (Hsource y Hy Ny) as [Sy|Ay]; [by apply He|..].
      - rewrite (Ay x Hx Hne) in Sx. done.
      - rewrite (Ax y Hy) in Sy by done. done.
      - destruct (cond x) eqn:Cx; [|rewrite (Ay x Hx Hne) in Nx; done]. destruct (cond y) eqn:Cy; [|rewrite (Ax y Hy) in Ny by done; done].
        destruct Hne. by rewrite (Hid0 x Cx), (Hid0 y Cy). }
    intros r r' (x & Hx & ->)%elem_of_update_where (y & Hy & ->)%elem_of_update_where Nx Ny. by rewrite (Halone x y).
  - done.
  - intros r r' [Hr| ->%list_elem_of_singleton]%elem_of_app [Hr'| ->%list_elem_of_singleton]%elem_of_app N1 N2; [by apply He|..|done].
    + by rewrite (Hn r Hr) in N1.
    + by rewrite (Hn r' Hr') in N2.
  - intros r r' Hr Hr'. rewrite list_elem_of_In, filter_In, <- list_elem_of_In in Hr, Hr'. apply He; tauto.
Qed.

(** C26: while no applied operation is rolled back by hand and no runtime is restored,
    at most one operation of the whole installation is under way, whatever the managers
    of several processes, their recoveries and their crashes do. *)
Theorem operations_exclusive w :
  rtc (opStep modest) empty_world w -> exclusive (owTable w).
Proof.
  intros Hr. assert (He : exclusive (owTable empty_world)) by (intros r r' H%elem_of_nil; done). pose proof (empty_ok true) as Hok.
  induction Hr as [w|w1 w2 w3 Hs _ IH]; [done|]. apply IH; [|by apply (step_ok true modest w1)].
  eapply table_step_exclusive; [by apply (step_table true modest w1 w2)|exact (wk_ids _ _ Hok)|done].
Qed.

(** ** Recovery and live owners *)

(** What recovery may do to an operation whose owner may be alive: read, look, take the
    process gate, and mark the operation as suspect. *)
Definition spares (item : OperationLock) (B : Type) (a : action B) : Prop :=
  match a with
  | Db c =>
      match c with
      | CRecover u => ruOperationID u = olOperationID item /\ ruExpectedRevision u = olRevision item /\ ruToState u = StateLockSuspect
      | _ => False
      end
  | Locked _ | Now | Alive _ => True
  | _ => False
  end.

(** The probe does not find the owner dead, or the lease has not expired. *)
Definition maybe_alive (now : Z) (item : OperationLock) (B : Type) (a : action B) : B -> Prop :=
  match a in action B return B -> Prop with
  | Db c =>
      match c in storeCall A return result opError A -> Prop with
      | CRecover u => fun r => forall x, r = Ok x -> olState x = ruToState u
      | _ => fun _ => True
      end
  | Alive _ => fun r => r <> Ok false \/ now <= olExpiresAt item
  | _ => fun _ => True
  end.

Abbreviation sparing now item := (swp (spares item) (maybe_alive now item)).

Lemma sparing_probe now item :
  sparing now item (probe item) (fun r => r <> Ok false \/ now <= olExpiresAt item).
Proof. unfold probe. destruct (olLockedByPID item); [by apply swp_act|]. apply swp_ret. by left. Qed.

Lemma sparing_verdict now item : sparing now item (recoveryVerdict now item) (fun v => v.1 = StateLockSuspect).
Proof.
  unfold recoveryVerdict. apply swp_bind. eapply swp_mono; [apply sparing_probe|]. intros [[]|e] Hr; [done| |done].
  destruct (Z.ltb_spec (olExpiresAt item) now) as [Hlt|]; [|done]. destruct Hr as [|Hr]; [done|lia].
Qed.

Lemma sparing_foreign opts now item : sparing now item (recoverForeign opts now item) (fun _ => True).
Proof.
  unfold recoverForeign. apply swp_bind. eapply swp_mono; [apply sparing_verdict|]. intros [to reason] Hto. simpl in Hto. subst to.
  destruct (String.eqb (olState item) StateLockSuspect); [apply swp_bind, swp_act; done|]. apply swp_bind, swp_act; [done|].
  intros [updated|e] Hu; [|done]. simpl in Hu. rewrite (Hu updated eq_refl). apply swp_bind, swp_ret. by split.
Qed.

Lemma sparing_reconciled opts now item :
  olState item = StateRestoringRuntime -> olLockedByInstanceID item <> opInstanceID opts ->
  sparing now item (recoverReconciled opts now item) (fun _ => True).
Proof.
  intros Hs Hi. unfold recoverReconciled. apply swp_bind, swp_act; [done|]. intros [failures owned] _. cbv zeta. destruct (_ || _); [done|]. destruct owned; [done|].
  rewrite Hs, (proj2 (String.eqb_neq _ _) Hi). cbn [String.eqb andb negb]. apply swp_bind. eapply swp_mono; [apply sparing_probe|].
  intros [[]|e] Hr; [done| |done]. destruct Hr as [|Hr]; [done|]. by rewrite (proj2 (Z.leb_le _ _) Hr).
Qed.

(** recovery leaves the operations of other managers alone while their owners may be
    alive.  For an operation under way of another instance, if the owner's process is
    not found dead or the lease has not expired, the pass of [Recover] over it only
    probes the owner and at most marks the operation as suspect, at the revision that
    was read: it never asks a backend for a rollback or a reconciliation and never
    takes the operation over.  (A fronting rollback is classified by its own
    reconciler instead.) *)
Theorem recovery_spares_live_owner opts now item :
  non_terminal (olState item) = true -> olLockedByInstanceID item <> opInstanceID opts ->
  (olState item = StateRollingBack -> olKind item <> KindFronting) ->
  swp (spares item) (maybe_alive now item) (recoverItem opts now item) (fun _ => True).
Proof.
  intros Hn Hi Hf. unfold recoverItem. apply swp_bind, swp_act; [done|]. intros reconciler _.
  destruct (reconciler && reconcileKindState item) eqn:E.
  - apply andb_true_iff in E as [_ E]. unfold reconcileKindState in E. rewrite !orb_true_iff, andb_true_iff, !String.eqb_eq in E.
    destruct E as [[[E|E]|E]|[E Ek]]; [by rewrite E in Hn..|by apply sparing_reconciled|by destruct (Hf E)].
  - apply swp_bind, swp_act; [done|]. intros _ _. unfold owned_by. rewrite (proj2 (String.eqb_neq _ _) Hi). apply sparing_foreign.
Qed.

(** ** Concrete histories *)
Record environment := mkEnvironment { evNow : Z; evID : string; evAlive : bool; evArtifact : bool; evRollback : bool }.

(** The answer and the effect of an action in an environment. *)
Definition respond (e : environment) {B} (a : action B) (t : lockTable) (used : gset string) (s : procState)
  : option (B * lockTable * gset string * procState) :=
  match a in action B return option (B * lockTable * gset string * procState) with
  | Db c => Some ((exec c t).2, (exec c t).1, used, s)
  | DbNew i =>
      if bool_decide (evID e ∈ used) then None
      else Some ((AcquireOperationLock (i (evID e)) t).2, (AcquireOperationLock (i (evID e)) t).1, {[evID e]} ∪ used, s)
  | Locked f => Some ((f s).2, t, used, (f s).1)
  | Now => Some (evNow e, t, used, s)
  | Alive _ => Some (Ok (evAlive e), t, used, s)
  | AwaitDone _ => Some (true, t, used, s)
  | Audit _ _ _ => Some (Ok tt, t, used, s)
  | HasMutationArtifact _ => Some (Ok (evArtifact e), t, used, s)
  | AttemptRollback _ => Some (if evRollback e then Ok tt else Err ErrBackend, t, used, s)
  | CreateBundle _ _ => Some (Ok tt, t, used, s)
  | NeedsReconcile _ => Some (None, t, used, s)
  | Reconcile _ => Some (Err ErrBackend, t, used, s)
  end.

Fixpoint play (e : environment) (p : prog unit) (t : lockTable) (used : gset string) (s : procState)
  : option (lockTable * gset string * procState) :=
  match p with
  | Ret _ => Some (t, used, s)
  | Do a k =>
      match respond e a t used s with
      | Some (b, t', used', s') => play e (k b) t' used' s'
      | None => None
      end
  end.

Lemma respond_effect e {B} (a : action B) t used s b t' used' s' :
  respond e a t used s = Some (b, t', used', s') -> effect a t used s b t' used' s'.
Proof.
  destruct a as [A c|A f| |i| | | | | | | | ]; simpl; try (by intros [= <- <- <- <-]).
  - intros [= <- <- <- <-]. split_and!; [done..|]. left. by destruct (exec c t).
  - intros [= <- <- <- <-]. split_and!; [done..|]. by destruct (f s).
  - case_bool_decide; [done|]. intros [= <- <- <- <-]. split; [done|]. exists (evID e). split_and!; [done..|]. left. by destruct (AcquireOperationLock _ t).
Qed.

Lemma play_history allowed e inst opts p t used s t' used' s' procs rest :
  play e p t used s = Some (t', used', s') -> procs !! inst = Some (opts, s) ->
  exists u, rtc (opStep allowed) (mkOpWorld t used procs ((inst, p) :: rest)) (mkOpWorld t' used' (<[inst := (opts, s')]> procs) ((inst, Ret u) :: rest)).
Proof.
  revert t used s procs. induction p as [u|B a k IH]; intros t used s procs; simpl.
  - intros [= <- <- <-] Hp. exists u. rewrite insert_id by done. reflexivity.
  - destruct (respond e a t used s) as [[[[b t1] used1] s1]|] eqn:E; [|done]. intros Hpl Hp.
    destruct (IH b t1 used1 s1 (<[inst := (opts, s1)]> procs) Hpl) as [u Hu]; [by rewrite lookup_insert_eq|]. exists u.
    rewrite insert_insert_eq in Hu. apply (rtc_l _ _ (mkOpWorld t1 used1 (<[inst := (opts, s1)]> procs) ((inst, k b) :: rest))); [|done].
    apply (op_act allowed t used procs [] rest inst opts s B a k b t1 used1 s1); [done|]. by apply (respond_effect e).
Qed.

(** One call, run to its end. *)
Definition drive (allowed : call -> bool) (w : opWorld) (step : string * environment * call) : option opWorld :=
  let '(inst, e, c) := step in
  match owProcs w !! inst with
  | None => None
  | Some (opts, s) =>
      if allowed c then
        match play e (run opts c) (owTable w) (owUsed w) s with
        | Some (t', used', s') => Some (mkOpWorld t' used' (<[inst := (opts, s')]> (owProcs w)) ((inst, Ret tt) :: owThreads w))
        | None => None
        end
      else None
  end.

Fixpoint drive_all (allowed : call -> bool) (w : opWorld) (steps : list (string * environment * call)) : option opWorld :=
  match steps with
  | [] => Some w
  | step :: steps' => w' ← drive allowed w step; drive_all allowed w' steps'
  end.

Lemma drive_history allowed w step w' : drive allowed w step = Some w' -> rtc (opStep allowed) w w'.
Proof.
  destruct step as [[inst e] c], w as [t used procs threads]. unfold drive. simpl. destruct (procs !! inst) as [[opts s]|] eqn:Hp; [|done].
  destruct (allowed c) eqn:Ha; [|done]. destruct (play e (run opts c) t used s) as [[[t1 used1] s1]|] eqn:Hpl; [|done]. intros [= <-].
  destruct (play_history allowed e inst opts _ _ _ _ _ _ _ procs threads Hpl Hp) as [[] Hr].
  eapply rtc_l; [|exact Hr]. by apply (op_call allowed t used procs threads inst opts s c).
Qed.

Lemma drive_all_history allowed steps w w' : drive_all allowed w steps = Some w' -> rtc (opStep allowed) w w'.
Proof.
  revert w. induction steps as [|step steps IH]; intros w; simpl; [by intros [= <-]|].
  destruct (drive allowed w step) as [w1|] eqn:E; simpl; [|done]. intros Hr. etrans; [by eapply drive_history|]. by apply IH.
Qed.

Lemma boot_history allowed opts w w' :
  owProcs w !! opInstanceID opts = None -> rtc (opStep allowed) (mkOpWorld (owTable w) (owUsed w) (<[opInstanceID opts := (opts, fresh_process)]> (owProcs w)) (owThreads w)) w' ->
  rtc (opStep allowed) w w'.
Proof. intros Hp Hr. eapply rtc_l; [|exact Hr]. destruct w. by apply op_start. Qed.

Module OperationExample.
Definition proc_a : Options := mkOptions "a" 10 120 true.
Definition proc_b : Options := mkOptions "b" 20 120 true.

Definition two_processes : opWorld :=
  mkOpWorld [] ∅ (<["b" := (proc_b, fresh_process)]> (<["a" := (proc_a, fresh_process)]> ∅)) [].

Lemma two_started allowed : rtc (opStep allowed) empty_world two_processes.
Proof. apply (boot_history allowed proc_a); [done|]. apply (boot_history allowed proc_b); [done|]. reflexivity. Qed.

Definition at_ (now : Z) (id : string) : environment := mkEnvironment now id true true true.
Definition ask (key : string) : call := KAcquire (mkAcquireRequest KindFirewall "" "" "" None key "" "" "root" "").

(** A applies [op1]; B then starts [op2]. *)
Definition apply_op1 : list (string * environment * call) :=
  [("a", at_ 100 "op1", ask "k1"); ("a", at_ 101 "", KTransition "op1" 1 StateApplying None)].
Definition finish_op1 : list (string * environment * call) :=
  [("a", at_ 102 "", KTransition "op1" 2 StateApplied None); ("b", at_ 103 "op2", ask "k2")].
Definition rollback_op1 : list (string * environment * call) := [("a", at_ 104 "", KBeginRollback "op1" 3 None)].
Definition cancel_op1 : list (string * environment * call) :=
  [("a", at_ 102 "", KTransition "op1" 2 StateCancelled None)].

Definition after (allowed : call -> bool) (steps : list (string * environment * call)) : opWorld := default empty_world (drive_all allowed two_processes steps).

Lemma after_history allowed steps w : drive_all allowed two_processes steps = Some w -> after allowed steps = w /\ rtc (opStep allowed) empty_world w.
Proof. intros H. split; [unfold after; by rewrite H|]. etrans; [apply two_started|by eapply drive_all_history]. Qed.

Definition any (c : call) : bool := true.

Lemma reach allowed steps : drive_all allowed two_processes steps <> None -> rtc (opStep allowed) empty_world (after allowed steps).
Proof. intros H. destruct (drive_all allowed two_processes steps) as [w|] eqn:E; [|done]. destruct (after_history allowed steps w E) as [Ea Hr]. rewrite Ea. exact Hr. Qed.

Lemma reach_more allowed steps more w :
  drive_all allowed (after allowed steps) more = Some w -> rtc (opStep allowed) (after allowed steps) w.
Proof. by apply drive_all_history. Qed.

Definition row (id : string) (w : opWorld) : OperationLock :=
  match first_row (is_op id) (owTable w) with
  | Some r => r
  | None => new_lock (mkAcquireInput "" "" "" "" "" None "" "" "" "" 0 "" "" 0 0)
  end.

Lemma row_in id w : existsb (is_op id) (owTable w) = true -> row id w ∈ owTable w.
Proof.
  intros (r & Hr & Hid)%existsb_exists. unfold row. destruct (first_row (is_op id) (owTable w)) as [x|] eqn:E; [apply find_elem in E; tauto|].
  apply (find_none _ _) with (x := r) in E; [congruence|done].
Qed.
End OperationExample.
Import OperationExample.

(** a manual rollback of an applied operation is not exclusive: [BeginRollback]
    takes an applied operation over without looking at the other operations, so that a
    rollback can be under way in one process while another operation is under way in
    another, which every other entry to the lock excludes. *)
Theorem rollback_beside_active_operation :
  exists w, rtc (opStep (fun _ => true)) empty_world w /\
    olState (row "op1" w) = StateRollingBack /\ olState (row "op2" w) = StatePrepared /\ ~ exclusive (owTable w).
Proof.
  exists (after (fun _ => true) (apply_op1 ++ finish_op1 ++ rollback_op1)). split_and!; [apply reach; vm_compute; discriminate|vm_compute; reflexivity|vm_compute; reflexivity|].
  intros He. assert (E : row "op1" (after (fun _ => true) (apply_op1 ++ finish_op1 ++ rollback_op1)) = row "op2" (after (fun _ => true) (apply_op1 ++ finish_op1 ++ rollback_op1))).
  { apply He; [apply row_in; vm_compute; reflexivity|apply row_in; vm_compute; reflexivity|vm_compute; reflexivity|vm_compute; reflexivity]. }
  vm_compute in E. discriminate.
Qed.

(** ** Witnesses *)
Lemma revision_fences_owner_witness :
  UpdateOperationLockFenced (mkFencedUpdate "op1" 1 "a" 10 [StatePrepared] StateApplying None 104 224) (owTable (after any (apply_op1 ++ finish_op1)))
  = (owTable (after any (apply_op1 ++ finish_op1)), Err ErrOperationFenced).
Proof.
  refine (proj1 (proj2 (revision_fences_owner any (after any apply_op1) (after any (apply_op1 ++ finish_op1)) (row "op1" (after any apply_op1)) _ _ _)) _ _ _).
  - apply reach. vm_compute. discriminate.
  - apply (reach_more any apply_op1 finish_op1). vm_compute. reflexivity.
  - apply row_in. vm_compute. reflexivity.
  - vm_compute. reflexivity.
  - vm_compute. reflexivity.
Defined.

Lemma ended_operations_stay_ended_witness :
  olState (row "op1" (after any (apply_op1 ++ cancel_op1))) = StateCancelled /\
  without_recovery (row "op1" (after any (apply_op1 ++ cancel_op1 ++ [("b", at_ 103 "op2", ask "k2")]))) = without_recovery (row "op1" (after any (apply_op1 ++ cancel_op1))).
Proof.
  split; [vm_compute; reflexivity|].
  assert (H := ended_operations_stay_ended any (after any (apply_op1 ++ cancel_op1)) (after any (apply_op1 ++ cancel_op1 ++ [("b", at_ 103 "op2", ask "k2")]))
    (row "op1" (after any (apply_op1 ++ cancel_op1))) (row "op1" (after any (apply_op1 ++ cancel_op1 ++ [("b", at_ 103 "op2", ask "k2")])))).
  refine (proj1 (H _ _ _ _ _) _).
  - apply reach. vm_compute. discriminate.
  - apply (reach_more any (apply_op1 ++ cancel_op1) [("b", at_ 103 "op2", ask "k2")]). vm_compute. reflexivity.
  - apply row_in. vm_compute. reflexivity.
  - apply row_in. vm_compute. reflexivity.
  - vm_compute. reflexivity.
  - vm_compute. reflexivity.
Defined.

Lemma idempotency_key_names_one_witness :
  AcquireOperationLock (mkAcquireInput "op9" KindFirewall "" "" "" None StatePrepared "k1" "" "" 10 "a" "root" 200 320) (owTable (after any apply_op1))
  = (owTable (after any apply_op1), Ok (row "op1" (after any apply_op1), true)).
Proof.
  refine (proj2 (idempotency_key_names_one any (after any apply_op1) (row "op1" (after any apply_op1)) (row "op1" (after any apply_op1)) _ _ _ _ _ _ _)).
  - apply reach. vm_compute. discriminate.
  - apply row_in. vm_compute. reflexivity.
  - apply row_in. vm_compute. reflexivity.
  - reflexivity.
  - vm_compute. reflexivity.
  - discriminate.
Defined.

Lemma operations_exclusive_witness : exclusive (owTable (after modest (apply_op1 ++ finish_op1))).
Proof. apply operations_exclusive. apply reach. vm_compute. discriminate. Defined.

Lemma recovery_spares_live_owner_witness :
  swp (spares (row "op1" (after any apply_op1))) (maybe_alive 150 (row "op1" (after any apply_op1))) (recoverItem proc_b 150 (row "op1" (after any apply_op1))) (fun _ => True).
Proof.
  apply recovery_spares_live_owner.
  - vm_compute. reflexivity.
  - vm_compute. discriminate.
  - vm_compute. discriminate.
Defined.
