(* ===== verification/ReleaseManifest.v ===== *)
(** * Signed releases ([internal/release])

    The manifest of a release, what makes it valid, how it is signed and verified against
    the trust roots of the panel, and which of its artifacts a panel installs.

    JSON, SHA-256 and Ed25519 are the class [ReleaseCodec].  Times are nanoseconds since
    the Unix epoch.  A regular expression of the source is a predicate on the bytes of a
    string; the maps that detect duplicates are lists of what was seen. *)

From stdpp Require Import sorting.
From S2P Require Import Prelude GoStrings VersionPolicy.

Open Scope string_scope.
Open Scope list_scope.
Open Scope Z_scope.

Definition SchemaV1 : string := "solovey.release/v1".
Definition SchemaV2 : string := "solovey.release/v2".
Definition SignatureAlgorithm : string := "Ed25519".
Definition MaxManifestBytes : Z := 2 * 2 ^ 20.
Definition MaxArtifacts : Z := 128.
Definition MaxComponents : Z := 256.
Definition MaxArtifactBytes : Z := 2 ^ 30.
Definition MaxReleaseSetBytes : Z := 2 * 2 ^ 30.

Definition ChannelMain : string := "main".
Definition ChannelBeta : string := "beta".

(** ** Data *)
Record Artifact := mkArtifact {
  afName : string; afRole : string; afPlatform : string; afArch : string; afMediaType : string;
  afSize : Z; afSHA256 : string; afProvenance : string; afCoreProvider : string
}.

Record Component := mkComponent {
  cpID : string; cpVersion : string; cpArtifactSHA256 : string; cpMinimumCoreSchema : string; cpMaximumCoreSchema : string
}.

Record CoreProviderSource := mkSource {
  csID : string; csName : string; csProviderVersion : string; csRuntimeSemanticVersion : string; csModule : string; csModuleSum : string;
  csSourceRepository : string; csSourceRevision : string; csUpstreamRepository : string; csUpstreamRevision : string
}.

Definition noSource : CoreProviderSource := mkSource "" "" "" "" "" "" "" "" "" "".

Record Manifest := mkManifest {
  mfSchema : string; mfReleaseID : string; mfSequence : Z; mfVersion : string; mfChannel : string; mfIssuedAt : Z; mfExpiresAt : Z;
  mfDeploymentRevision : string; mfMinimumPanelVersion : string; mfMaximumPanelVersion : string; mfMinimumCoreSchema : string;
  mfMaximumCoreSchema : string; mfTargetCoreSchema : string; mfBrokerCapability : string; mfMigrationSetDigest : string;
  mfReleaseNotesDigest : string; mfRestartClass : string; mfRebootClass : string; mfRollbackClass : string;
  mfArtifacts : list Artifact; mfComponents : list Component; mfCoreProviders : list CoreProviderSource
}.

Record Envelope := mkEnvelope { evSchema : string; evKeyID : string; evAlgorithm : string; evManifest : string; evSignature : string }.

Definition RootActive : string := "ACTIVE".
Definition RootNext : string := "NEXT".
Definition RootRetired : string := "RETIRED".

Record TrustRoot := mkRoot {
  trKeyID : string; trPublicKey : string; trState : string; trNotBefore : Z; trNotAfter : Z; trMinSequence : Z; trMaxSequence : Z
}.

Definition TrustStore : Type := gmap string TrustRoot.

Record Verified := mkVerified { vfManifest : Manifest; vfCanonical : string; vfDigest : string; vfKeyID : string; vfProof : option (string * string * string) }.

#[global] Instance artifact_eq_dec : EqDecision Artifact.
Proof. solve_decision. Defined.

(** ** Regular expressions *)
Definition lower_alnum (c : Ascii.ascii) : bool := is_lower c || is_digit c.
Definition name_tail (c : Ascii.ascii) : bool := is_lower c || is_upper c || is_digit c || char_in c "._+-".
Definition identifier_tail (c : Ascii.ascii) : bool := lower_alnum c || char_in c "._+-".

(** A first byte of one class and up to [limit] bytes of another. *)
Definition headed (head tail : Ascii.ascii -> bool) (limit : Z) (s : string) : bool :=
  match s with
  | "" => false
  | String c s' => head c && all_chars tail s' && (slen s' <=? limit)
  end.

Definition identifier (s : string) : bool := headed lower_alnum identifier_tail 95 s.
Definition artifactName (s : string) : bool := headed is_alnum name_tail 159 s.

Definition lower_hex (c : Ascii.ascii) : bool := is_digit c || between 97 102 c.
Definition digest (s : string) : bool := (slen s =? 64) && all_chars lower_hex s.
Definition sourceCommit (s : string) : bool := (slen s =? 40) && all_chars lower_hex s.

Definition number_field (s : string) : bool := all_chars is_digit s && (1 <=? slen s) && (slen s <=? 6).
Definition prerelease_char (c : Ascii.ascii) : bool := is_alnum c || char_in c ".-".

Definition version (s : string) : bool :=
  let '(core, pre, found) := Cut s hyphen in
  match Split core dot with
  | [a; b; c] => number_field a && number_field b && number_field c
  | _ => false
  end && (negb found || (all_chars prerelease_char pre && (1 <=? slen pre) && (slen pre <=? 64))).

Definition slash : Ascii.ascii := Ascii.ascii_of_nat 47.
Definition media_char (c : Ascii.ascii) : bool := is_alnum c || char_in c "!#$&^_.+-".

Definition mediaType (s : string) : bool :=
  let '(type, subtype, found) := Cut s slash in
  found && all_chars media_char type && negb (String.eqb type "") && all_chars media_char subtype && negb (String.eqb subtype "").

(** ** Versions *)
Definition oneOf (value : string) (allowed : list string) : bool := existsb (String.eqb value) allowed.

Fixpoint TrimLeft (s cutset : string) : string :=
  match s with
  | "" => ""
  | String c s' => if char_in c cutset then TrimLeft s' cutset else s
  end.

Definition trimNumeric (value : string) : string :=
  let value := TrimLeft value "0" in if String.eqb value "" then "0" else value.

Definition allDigits (value : string) : bool := negb (String.eqb value "") && all_chars is_digit value.

Definition compareNumericText (left right : string) : Z :=
  if slen left <? slen right then -1
  else if slen right <? slen left then 1
  else if Compare left right <? 0 then -1
  else if 0 <? Compare left right then 1
  else 0.

Definition schemaVersion (value : string) : bool :=
  match Split value dot with
  | [a; b] => negb (String.eqb a "") && negb (String.eqb b "") && all_chars is_digit a && all_chars is_digit b
  | _ => false
  end.

Definition field (l : list string) (i : nat) : string := default "" (l !! i).

(** The comparison of the first [n] fields, as numbers. *)
Definition compareFields (n : nat) (left right : list string) : Z :=
  foldr (fun i rest => let c := compareNumericText (trimNumeric (field left i)) (trimNumeric (field right i)) in if negb (c =? 0) then c else rest) 0 (seq 0 n).

Definition compareIdentifier (left right : string) : Z :=
  let leftNumeric := allDigits left in
  let rightNumeric := allDigits right in
  if leftNumeric && rightNumeric then compareNumericText (trimNumeric left) (trimNumeric right)
  else if leftNumeric then -1
  else if rightNumeric then 1
  else if Compare left right <? 0 then -1
  else 1.

Fixpoint compareIdentifierLists (left right : list string) : Z :=
  match left, right with
  | [], [] => 0
  | [], _ :: _ => -1
  | _ :: _, [] => 1
  | l :: left', r :: right' => if String.eqb l r then compareIdentifierLists left' right' else compareIdentifier l r
  end.

Definition compareSemanticVersions (left right : string) : Z :=
  let '(leftCore, leftPre, _) := Cut left hyphen in
  let '(rightCore, rightPre, _) := Cut right hyphen in
  let core := compareFields 3 (Split leftCore dot) (Split rightCore dot) in
  if negb (core =? 0) then core
  else if String.eqb leftPre "" || String.eqb rightPre "" then
    if String.eqb leftPre rightPre then 0 else if String.eqb leftPre "" then 1 else -1
  else compareIdentifierLists (Split leftPre dot) (Split rightPre dot).

Definition compareSchemaVersions (left right : string) : Z := compareFields 2 (Split left dot) (Split right dot).

(** ** Core providers *)
Section CoreProviders.
(** [base64.StdEncoding.Strict().DecodeString]: the number of bytes decoded. *)
Context (base64Length : string -> option Z).

Definition validModuleSum (sum : string) : bool :=
  HasPrefix sum "h1:" && match base64Length (TrimPrefix sum "h1:") with Some n => n =? 32 | None => false end.

Definition ValidateCoreProviderSource (source : CoreProviderSource) : result string unit :=
  let? names := (if String.eqb (csID source) "sing-box" then Ok ("Official", "https://github.com/SagerNet/sing-box", "https://github.com/MalenkiySolovey/sing-box")
                 else if String.eqb (csID source) "shtorm-extended"
                 then Ok ("Shtorm Extended", "https://github.com/shtorm-7/sing-box-extended", "https://github.com/MalenkiySolovey/sing-box-extended")
                 else Err "release core provider is unsupported") in
  let '(name, upstream, copyRepository) := names in
  if negb (String.eqb (csName source) name) || negb (HasPrefix (csProviderVersion source) "v")
     || negb (version (TrimPrefix (csProviderVersion source) "v")) || negb (version (csRuntimeSemanticVersion source))
     || negb (sourceCommit (csSourceRevision source)) || negb (sourceCommit (csUpstreamRevision source))
     || negb (oneOf (csUpstreamRepository source) [upstream; "https://github.com/SagerNet/sing-box"])
     || negb (oneOf (csSourceRepository source) [upstream; copyRepository])
     || negb (String.eqb (csModule source) (TrimPrefix (csSourceRepository source) "https://"))
  then Err "release core provider source identity is invalid"
  else if negb (validModuleSum (csModuleSum source)) then Err "release core provider module checksum is invalid"
  else Ok tt.

Definition panel_role (role : string) : bool := String.eqb role "panel-full" || String.eqb role "panel-core".

Definition nul : string := String (Ascii.ascii_of_nat 0) "".

(** The first loop: sources are valid and distinct. *)
Fixpoint check_sources (sources : list CoreProviderSource) (seen : list string) : result string (list string) :=
  match sources with
  | [] => Ok seen
  | source :: sources' =>
      let? _ := ValidateCoreProviderSource source in
      if oneOf (csID source) seen then Err "release core provider is duplicated" else check_sources sources' (seen ++ [csID source])
  end.

(** The second loop: names are distinct and panel artifacts name a declared provider. *)
Fixpoint check_targets (artifacts : list Artifact) (declared names : list string) : result string unit :=
  match artifacts with
  | [] => Ok tt
  | a :: artifacts' =>
      if oneOf (afName a) names then Err "release artifact filename is ambiguous"
      else if negb (panel_role (afRole a)) then
        if negb (String.eqb (afCoreProvider a) "") then Err "non-panel artifact claims a core provider" else check_targets artifacts' declared (afName a :: names)
      else if negb (oneOf (afCoreProvider a) declared) then Err "panel artifact core provider is undeclared"
      else check_targets artifacts' declared (afName a :: names)
  end.

Definition target_of (a : Artifact) : string := afPlatform a +:+ nul +:+ afArch a +:+ nul +:+ afCoreProvider a.

Definition has_role (artifacts : list Artifact) (target role : string) : bool :=
  existsb (fun a => panel_role (afRole a) && String.eqb (target_of a) target && String.eqb (afRole a) role) artifacts.

Definition validateCoreProviders (m : Manifest) : result string unit :=
  if String.eqb (mfSchema m) SchemaV1 then
    if negb (Nat.eqb (length (mfCoreProviders m)) 0) then Err "legacy release cannot declare core providers"
    else if existsb (fun a => negb (String.eqb (afCoreProvider a) "")) (mfArtifacts m) then Err "legacy artifact cannot declare a core provider"
    else Ok tt
  else if Nat.eqb (length (mfCoreProviders m)) 0 || Nat.ltb 2 (length (mfCoreProviders m)) then Err "release core provider inventory is invalid"
  else
    let? declared := check_sources (mfCoreProviders m) [] in
    let? _ := check_targets (mfArtifacts m) declared [] in
    let panels := List.filter (fun a => panel_role (afRole a)) (mfArtifacts m) in
    if negb (forallb (fun id => existsb (fun a => String.eqb (afCoreProvider a) id) panels) declared) then Err "release core provider has no panel artifacts"
    else if negb (forallb (fun a => has_role (mfArtifacts m) (target_of a) "panel-full" && has_role (mfArtifacts m) (target_of a) "panel-core") panels)
    then Err "release core provider target lacks full/core symmetry"
    else Ok tt.

(** ** Validation *)
Definition manifest_age : Z := 14 * 24 * 60 * 60.

Definition valid_header (m : Manifest) : bool :=
  oneOf (mfSchema m) [SchemaV1; SchemaV2] && identifier (mfReleaseID m) && negb (mfSequence m =? 0) && version (mfVersion m)
  && (String.eqb (mfChannel m) ChannelMain || String.eqb (mfChannel m) ChannelBeta) && (0 <? mfIssuedAt m) && (mfIssuedAt m <? mfExpiresAt m)
  && (mfExpiresAt m - mfIssuedAt m <=? manifest_age) && digest (mfDeploymentRevision m)
  && version (mfMinimumPanelVersion m) && version (mfMaximumPanelVersion m)
  && schemaVersion (mfMinimumCoreSchema m) && schemaVersion (mfMaximumCoreSchema m) && schemaVersion (mfTargetCoreSchema m)
  && identifier (mfBrokerCapability m) && digest (mfMigrationSetDigest m) && digest (mfReleaseNotesDigest m)
  && oneOf (mfRestartClass m) ["panel"; "stack"] && oneOf (mfRebootClass m) ["not-required"; "operator-advisory"]
  && oneOf (mfRollbackClass m) ["automatic"; "manual-recovery"].

Definition valid_ranges (m : Manifest) : bool :=
  (compareSemanticVersions (mfMinimumPanelVersion m) (mfMaximumPanelVersion m) <=? 0)
  && (compareSchemaVersions (mfMinimumCoreSchema m) (mfMaximumCoreSchema m) <=? 0)
  && (0 <=? compareSchemaVersions (mfTargetCoreSchema m) (mfMinimumCoreSchema m))
  && (compareSchemaVersions (mfTargetCoreSchema m) (mfMaximumCoreSchema m) <=? 0).

Definition valid_artifact (a : Artifact) : bool :=
  artifactName (afName a) && identifier (afRole a) && identifier (afPlatform a) && identifier (afArch a)
  && mediaType (afMediaType a) && (slen (afMediaType a) <=? 96) && (0 <? afSize a) && (afSize a <=? MaxArtifactBytes)
  && digest (afSHA256 a) && identifier (afProvenance a).

Definition role_identity (a : Artifact) : string :=
  afPlatform a +:+ nul +:+ afArch a +:+ nul +:+ afCoreProvider a +:+ nul +:+ afRole a.

Definition artifact_identity (a : Artifact) : string := role_identity a +:+ nul +:+ afName a.

Fixpoint check_artifacts (artifacts : list Artifact) (seenArtifacts seenRoles : list string) (totalBytes : Z) : result string unit :=
  match artifacts with
  | [] => Ok tt
  | a :: artifacts' =>
      if negb (valid_artifact a) then Err "release artifact is invalid"
      else if MaxReleaseSetBytes - afSize a <? totalBytes then Err "release artifact set exceeds total size limit"
      else if oneOf (artifact_identity a) seenArtifacts then Err "release artifact identity is duplicated"
      else if oneOf (role_identity a) seenRoles then Err "release artifact role is duplicated"
      else check_artifacts artifacts' (artifact_identity a :: seenArtifacts) (role_identity a :: seenRoles) (totalBytes + afSize a)
  end.

Definition requiredNativeRoles : list string := ["panel-full"; "panel-core"].

Definition target_roles (artifacts : list Artifact) (target : string) : list string :=
  afRole <$> List.filter (fun a => String.eqb (afPlatform a +:+ "/" +:+ afArch a) target) artifacts.

(** Both panel roles are present for every Linux target of a first-schema release. *)
Definition coherent_targets (m : Manifest) : bool :=
  forallb (fun a =>
    let target := afPlatform a +:+ "/" +:+ afArch a in
    negb (String.eqb (mfSchema m) SchemaV1 && HasPrefix target "linux/")
    || forallb (fun role => oneOf role (target_roles (mfArtifacts m) target)) requiredNativeRoles) (mfArtifacts m).

Definition valid_component (c : Component) : bool :=
  identifier (cpID c) && version (cpVersion c) && digest (cpArtifactSHA256 c) && schemaVersion (cpMinimumCoreSchema c)
  && schemaVersion (cpMaximumCoreSchema c) && (compareSchemaVersions (cpMinimumCoreSchema c) (cpMaximumCoreSchema c) <=? 0).

Fixpoint check_components (components : list Component) (artifactDigests seen : list string) : result string unit :=
  match components with
  | [] => Ok tt
  | c :: components' =>
      if negb (valid_component c) then Err "release component is invalid"
      else if oneOf (cpID c) seen then Err "release component identity is duplicated"
      else if negb (oneOf (cpArtifactSHA256 c) artifactDigests) then Err "release component artifact is outside the coherent set"
      else check_components components' artifactDigests (cpID c :: seen)
  end.

Definition Validate (m : Manifest) : result string unit :=
  if negb (valid_header m) then Err "release manifest header is invalid"
  else if negb (valid_ranges m) then Err "release manifest compatibility range is invalid"
  else if Nat.eqb (length (mfArtifacts m)) 0 || (MaxArtifacts <? Z.of_nat (length (mfArtifacts m))) || (MaxComponents <? Z.of_nat (length (mfComponents m)))
  then Err "release manifest cardinality is invalid"
  else
    let? _ := validateCoreProviders m in
    let? _ := check_artifacts (mfArtifacts m) [] [] 0 in
    if negb (coherent_targets m) then Err "release target lacks coherent role"
    else check_components (mfComponents m) (afSHA256 <$> mfArtifacts m) [].
End CoreProviders.

(** ** Signing and verification *)
Class ReleaseCodec := {
  base64Length : string -> option Z;
  strictObject : string -> bool;                        (** [jsonvalue.StrictObject] accepts *)
  decodeEnvelope : string -> option Envelope;           (** [decodeStrict] into an [Envelope] *)
  decodeManifest : string -> option Manifest;           (** [decodeStrict] into a [Manifest] *)
  marshalManifest : Manifest -> string;
  marshalArtifacts : list Artifact -> string;
  marshalEnvelope : Envelope -> string;
  sha256hex : string -> string;
  ed25519Sign : string -> string -> string;             (** the private key and the message; base64 of the signature *)
  ed25519Verify : string -> string -> string -> bool    (** the public key, the message and the base64 signature, of the right size *)
}.

Definition sort_key (a : Artifact) : string :=
  afPlatform a +:+ nul +:+ afArch a +:+ nul +:+ afCoreProvider a +:+ nul +:+ afRole a +:+ nul +:+ afName a.

Definition ordered {A} (key : A -> string) (x y : A) : Prop := (Compare (key x) (key y) <=? 0) = true.
#[global] Instance ordered_dec {A} (key : A -> string) x y : Decision (ordered key x y) := decide (_ = true).

Definition canonical_form (m : Manifest) : Manifest :=
  mkManifest (mfSchema m) (mfReleaseID m) (mfSequence m) (mfVersion m) (mfChannel m) (mfIssuedAt m) (mfExpiresAt m) (mfDeploymentRevision m)
    (mfMinimumPanelVersion m) (mfMaximumPanelVersion m) (mfMinimumCoreSchema m) (mfMaximumCoreSchema m) (mfTargetCoreSchema m)
    (mfBrokerCapability m) (mfMigrationSetDigest m) (mfReleaseNotesDigest m) (mfRestartClass m) (mfRebootClass m) (mfRollbackClass m)
    (merge_sort (ordered sort_key) (mfArtifacts m)) (merge_sort (ordered cpID) (mfComponents m)) (merge_sort (ordered csID) (mfCoreProviders m)).

Section Release.
Context `{ReleaseCodec}.

Definition Canonical (m : Manifest) : result string string :=
  let? _ := Validate base64Length m in Ok (marshalManifest (canonical_form m)).

Definition privateKeySize : Z := 64.

Definition Sign (m : Manifest) (keyID privateKey : string) : result string string :=
  if negb (identifier keyID) || negb (slen privateKey =? privateKeySize) then Err "invalid release signing identity"
  else
    let? canonical := Canonical m in
    Ok (marshalEnvelope (mkEnvelope (mfSchema m) keyID SignatureAlgorithm canonical (ed25519Sign privateKey canonical))).

Definition zeroTime : Z := - 62135596800 * second.
Definition publicKeySize : Z := 32.

Fixpoint NewTrustStore (roots : list TrustRoot) (store : TrustStore) : result string TrustStore :=
  match roots with
  | [] => Ok store
  | r :: roots' =>
      if negb (identifier (trKeyID r)) || negb (slen (trPublicKey r) =? publicKeySize)
         || negb (oneOf (trState r) [RootActive; RootNext; RootRetired]) || (trNotBefore r =? zeroTime) || (trNotAfter r =? zeroTime)
         || negb (trNotBefore r <? trNotAfter r) || (trMinSequence r =? 0) || (negb (trMaxSequence r =? 0) && (trMaxSequence r <? trMinSequence r))
      then Err "invalid release trust root"
      else match store !! trKeyID r with
           | Some _ => Err "duplicate release trust root"
           | None => NewTrustStore roots' (<[trKeyID r := r]> store)
           end
  end.

Definition Available (store : TrustStore) (now : Z) : bool :=
  existsb (fun r => (String.eqb (trState r) RootActive || String.eqb (trState r) RootNext) && (trNotBefore r <=? now) && (now <? trNotAfter r))
    (map_to_list store).*2.

(** [now.Unix()] *)
Definition unix (now : Z) : Z := now / second.

Definition Verify (raw : string) (store : TrustStore) (now : Z) (channel : string) (lastSequence : Z) : result string Verified :=
  if String.eqb raw "" || (MaxManifestBytes <? slen raw) then Err "release envelope size is invalid"
  else if negb (strictObject raw) then Err "release envelope JSON is ambiguous or malformed"
  else match decodeEnvelope raw with
  | None => Err "release envelope fields are invalid"
  | Some envelope =>
      if negb (oneOf (evSchema envelope) [SchemaV1; SchemaV2]) || negb (String.eqb (evAlgorithm envelope) SignatureAlgorithm) || negb (identifier (evKeyID envelope))
      then Err "release envelope identity is invalid"
      else match store !! evKeyID envelope with
      | None => Err "release signing root is unavailable"
      | Some root =>
          if String.eqb (trState root) RootRetired || (now <? trNotBefore root) || negb (now <? trNotAfter root) then Err "release signing root is unavailable"
          else match decodeManifest (evManifest envelope) with
          | None => Err "release manifest fields are invalid"
          | Some manifest =>
              if negb (String.eqb (mfSchema manifest) (evSchema envelope)) then Err "release envelope and manifest schemas differ"
              else
                let? canonical := Canonical manifest in
                if negb (String.eqb canonical (evManifest envelope)) then Err "release manifest is not in canonical form"
                else if negb (ed25519Verify (trPublicKey root) canonical (evSignature envelope)) then Err "release signature is invalid"
                else if negb (String.eqb (mfChannel manifest) channel) || (mfSequence manifest <=? lastSequence) || (mfSequence manifest <? trMinSequence root)
                        || (negb (trMaxSequence root =? 0) && (trMaxSequence root <? mfSequence manifest))
                then Err "release sequence or channel is not acceptable"
                else if (unix now <? mfIssuedAt manifest) || (mfExpiresAt manifest <=? unix now) then Err "release manifest is not currently valid"
                else Ok (mkVerified manifest canonical (sha256hex canonical) (evKeyID envelope) (Some (canonical, sha256hex canonical, evKeyID envelope)))
          end
      end
  end.

Definition authenticated (v : Verified) : result string unit :=
  match vfProof v with
  | None => Err "release signature binding unavailable"
  | Some (canonical, dg, keyID) =>
      if negb (String.eqb (vfDigest v) dg) || negb (String.eqb (vfKeyID v) keyID) || negb (String.eqb (vfCanonical v) canonical)
      then Err "release signature binding unavailable"
      else match Canonical (vfManifest v) with
           | Err _ => Err "verified release metadata changed"
           | Ok c => if negb (String.eqb c canonical) then Err "verified release metadata changed" else Ok tt
           end
  end.

(** ** Artifacts *)
Record ArtifactIdentity := mkArtifactIdentity {
  aiArtifactID : string; aiOwner : string; aiKind : string; aiVersion : string; aiPlatform : string; aiArch : string; aiContentDigest : string;
  aiSize : Z; aiSignerRef : string; aiProvenanceRef : string; aiSourceRevision : string; aiCoreProvider : CoreProviderSource
}.

Definition coreProvider (m : Manifest) (id : string) : option CoreProviderSource := List.find (fun s => String.eqb (csID s) id) (mfCoreProviders m).

Definition owner_of (role : string) : string :=
  if panel_role role then "panel" else if String.eqb role "component-catalog" then "components" else "release".

Definition identity (v : Verified) (a : Artifact) : ArtifactIdentity :=
  mkArtifactIdentity ("artifact:" +:+ sha256hex (afRole a +:+ nul +:+ afSHA256 a)) (owner_of (afRole a)) (afRole a) (mfVersion (vfManifest v))
    (afPlatform a) (afArch a) (afSHA256 a) (afSize a) ("release-root:" +:+ vfKeyID v) (afProvenance a) (vfDigest v)
    (default noSource (coreProvider (vfManifest v) (afCoreProvider a))).

Definition ArtifactIdentityOf (v : Verified) (a : Artifact) : result string ArtifactIdentity :=
  let? _ := authenticated v in
  if bool_decide (a ∈ mfArtifacts (vfManifest v)) then Ok (identity v a) else Err "artifact outside verified release".

Definition ArtifactsFor (m : Manifest) (platform arch profile : string) : result string (list Artifact) :=
  if negb (String.eqb (mfSchema m) SchemaV1) then Err "release requires explicit core provider selection"
  else if negb (String.eqb profile "full") && negb (String.eqb profile "core") then Err "release binary profile is unsupported"
  else
    let selected := List.filter (fun a => String.eqb (afPlatform a) platform && String.eqb (afArch a) arch && String.eqb (afRole a) ("panel-" +:+ profile)) (mfArtifacts m) in
    match selected with
    | [] => Err "release does not support this platform"
    | [a] => Ok [a]
    | _ => Err "release profile artifact set is ambiguous"
    end.

Definition PanelArtifacts (v : Verified) (platform arch profile : string) : result string (list Artifact) :=
  let? _ := authenticated v in ArtifactsFor (vfManifest v) platform arch profile.

Definition PanelArtifactsForProvider (v : Verified) (platform arch profile provider : string) : result string (list Artifact) :=
  let? _ := authenticated v in
  if negb (String.eqb provider "sing-box") && negb (String.eqb provider "shtorm-extended") then Err "release core provider selection is unsupported"
  else if String.eqb (mfSchema (vfManifest v)) SchemaV1 then
    if negb (String.eqb provider "sing-box") then Err "legacy release cannot select Extended" else ArtifactsFor (vfManifest v) platform arch profile
  else if negb (String.eqb profile "full") && negb (String.eqb profile "core") then Err "release binary profile is unsupported"
  else
    match List.filter (fun a => String.eqb (afPlatform a) platform && String.eqb (afArch a) arch && String.eqb (afRole a) ("panel-" +:+ profile)
                               && String.eqb (afCoreProvider a) provider) (mfArtifacts (vfManifest v)) with
    | [a] => Ok [a]
    | _ => Err "release core provider target is unavailable or ambiguous"
    end.

Definition catalog_artifacts (m : Manifest) (c : Component) : list Artifact :=
  List.filter (fun a => String.eqb (afRole a) "component-catalog" && String.eqb (afSHA256 a) (cpArtifactSHA256 c)) (mfArtifacts m).

Fixpoint bind_components (v : Verified) (components : list Component) : result string (list (Component * ArtifactIdentity)) :=
  match components with
  | [] => Ok []
  | c :: components' =>
      match catalog_artifacts (vfManifest v) c with
      | [] => Err "component outside signed catalog"
      | [a] => let? rest := bind_components v components' in Ok ((c, identity v a) :: rest)
      | _ => Err "component artifact identity ambiguous"
      end
  end.

Definition ComponentArtifacts (v : Verified) : result string (list (Component * ArtifactIdentity)) :=
  let? _ := authenticated v in bind_components v (mfComponents (vfManifest v)).

Definition ArtifactSetDigest (artifacts : list Artifact) : string :=
  sha256hex (marshalArtifacts (merge_sort (ordered (fun a => afRole a +:+ nul +:+ afName a)) artifacts)).
End Release.
