(* ===== verification/ReleaseProperties.v ===== *)
(** * Signed releases: what is signed verifies

    The validation of a manifest does not depend on the order of its lists, and its
    canonical form is a fixed point of sorting; so the envelope that [Sign] makes is
    accepted by [Verify], under a root of the trust store, with the canonical manifest. *)

From stdpp Require Import sorting.
From S2P Require Import Prelude GoStrings VersionPolicy ReleaseManifest.

Open Scope string_scope.
Open Scope list_scope.
Open Scope Z_scope.

(** ** Order of lists *)
Lemma oneOf_perm value l l' : l ≡ₚ l' -> oneOf value l = oneOf value l'.
Proof. intros Hp. unfold oneOf. by rewrite Hp. Qed.

Lemma oneOf_spec value l : oneOf value l = true <-> value ∈ l.
Proof.
  unfold oneOf. rewrite existsb_exists. split.
  - intros (x & Hx & ->%String.eqb_eq). by apply list_elem_of_In.
  - intros Hx. exists value. split; [by apply list_elem_of_In|apply String.eqb_refl].
Qed.

Lemma oneOf_spec_false value l : oneOf value l = false <-> value ∉ l.
Proof. rewrite <- oneOf_spec. destruct (oneOf value l); naive_solver. Qed.

(** ** Sorting *)
#[local] Instance ordered_trans {A} (key : A -> string) : Transitive (ordered key).
Proof.
  intros x y z Hxy Hyz. unfold ordered in *. rewrite Z.leb_le in *. by apply (cmp_trans (cmp := Compare) (key x) (key y) (key z)).
Qed.

#[local] Instance ordered_total {A} (key : A -> string) : Total (ordered key).
Proof.
  intros x y. unfold ordered. rewrite !Z.leb_le, (cmp_antisym (cmp := Compare) (key x) (key y)). lia.
Qed.

(** Sorting by a key that no two items share is idempotent. *)
Lemma sort_idempotent {A} (key : A -> string) l : NoDup (key <$> l) -> merge_sort (ordered key) (merge_sort (ordered key) l) = merge_sort (ordered key) l.
Proof.
  intros Hn. apply (Sorted_unique_strong (ordered key)); [|apply Sorted_merge_sort, _|apply Sorted_merge_sort, _|apply merge_sort_Permutation].
  intros x y Hx Hy Hxy Hyx. rewrite !merge_sort_Permutation in Hx. rewrite merge_sort_Permutation in Hy. unfold ordered in *. rewrite Z.leb_le in *.
  rewrite (cmp_antisym (cmp := Compare) (key x) (key y)) in Hyx. assert (E : key x = key y) by (apply Compare_zero; lia).
  clear Hxy Hyx. induction l as [|z l IH]; [by apply not_elem_of_nil in Hx|]. rewrite fmap_cons, NoDup_cons in Hn. destruct Hn as [Hz Hn].
  apply elem_of_cons in Hx, Hy. destruct Hx as [->|Hx], Hy as [->|Hy]; [done| | |auto].
  - destruct Hz. rewrite E. by apply list_elem_of_fmap_2.
  - destruct Hz. rewrite <- E. by apply list_elem_of_fmap_2.
Qed.

(** ** The loops of the validation, without their order *)
Fixpoint sum_sizes (l : list Artifact) : Z := match l with [] => 0 | a :: l' => afSize a + sum_sizes l' end.

Lemma sum_sizes_perm l l' : l ≡ₚ l' -> sum_sizes l = sum_sizes l'.
Proof. induction 1; simpl; lia. Qed.

Lemma valid_artifact_size a : valid_artifact a = true -> 0 < afSize a.
Proof. unfold valid_artifact. intros Hv. bools. lia. Qed.

(** The items of a loop have keys that neither repeat nor were seen before it. *)
Definition fresh {A} (key : A -> string) (seen : list string) (l : list A) : Prop := NoDup (key <$> l) /\ Forall (fun x => key x ∉ seen) l.

Lemma fresh_nil {A} (key : A -> string) seen : fresh key seen [].
Proof. split; constructor. Qed.

Lemma fresh_cons {A} (key : A -> string) seen x l : fresh key seen (x :: l) <-> (key x ∉ seen) /\ fresh key (key x :: seen) l.
Proof.
  unfold fresh. rewrite fmap_cons, NoDup_cons, Forall_cons, !Forall_forall. setoid_rewrite not_elem_of_cons. split.
  - intros ((Hx & Hn) & Hs & Hl). split_and!; try done. intros y Hy. split; [|by apply Hl]. intros E. apply Hx. rewrite <- E. by apply list_elem_of_fmap_2.
  - intros (Hs & Hn & Hl). split_and!; try done; [|intros y Hy; by destruct (Hl y Hy)]. intros (y & E & Hy)%list_elem_of_fmap. by destruct (Hl y Hy).
Qed.

#[local] Instance fresh_perm {A} (key : A -> string) : Proper ((≡ₚ) ==> (≡ₚ) ==> iff) (fresh key).
Proof.
  intros seen seen' Hs l l' Hl. unfold fresh. rewrite Hl, !Forall_forall. f_equiv. by setoid_rewrite Hs.
Qed.

Lemma sizes_nonneg l : Forall (fun a => valid_artifact a = true) l -> 0 <= sum_sizes l.
Proof. induction 1 as [|x l Hx _ IH]; simpl; [done|]. apply valid_artifact_size in Hx. lia. Qed.

Lemma check_artifacts_spec l seenArtifacts seenRoles totalBytes : totalBytes <= MaxReleaseSetBytes ->
  check_artifacts l seenArtifacts seenRoles totalBytes = Ok tt <->
  Forall (fun a => valid_artifact a = true) l /\ fresh artifact_identity seenArtifacts l /\ fresh role_identity seenRoles l /\ totalBytes + sum_sizes l <= MaxReleaseSetBytes.
Proof.
  revert seenArtifacts seenRoles totalBytes. induction l as [|a l IH]; intros sa sr t Ht; cbn [check_artifacts].
  { split; [|done]. intros _. split_and!; auto using fresh_nil. simpl. lia. }
  rewrite !fresh_cons, Forall_cons. cbn [sum_sizes]. pose proof (sizes_nonneg l) as Hsum.
  destruct (valid_artifact a) eqn:Ev; cbn [negb]; [|by split; [|intros ([? _] & _)]].
  destruct (MaxReleaseSetBytes - afSize a <? t) eqn:Et; [apply Z.ltb_lt in Et|apply Z.ltb_ge in Et].
  { split; [done|]. intros ([_ Hv] & _ & _ & ?). specialize (Hsum Hv). lia. }
  destruct (oneOf (artifact_identity a) sa) eqn:Ea; [apply oneOf_spec in Ea|apply oneOf_spec_false in Ea]; [by split; [|intros (_ & [? _] & _)]|].
  destruct (oneOf (role_identity a) sr) eqn:Er; [apply oneOf_spec in Er|apply oneOf_spec_false in Er]; [by split; [|intros (_ & _ & [? _] & _)]|].
  rewrite IH by lia. rewrite Z.add_assoc. tauto.
Qed.

Lemma check_components_spec l digests seen :
  check_components l digests seen = Ok tt <-> Forall (fun c => valid_component c = true /\ cpArtifactSHA256 c ∈ digests) l /\ fresh cpID seen l.
Proof.
  revert seen. induction l as [|c l IH]; intros seen; cbn [check_components]; [by split; auto using fresh_nil|]. rewrite fresh_cons, Forall_cons.
  destruct (valid_component c); cbn [negb]; [|by split; [|intros ([[? _] _] & _)]].
  destruct (oneOf (cpID c) seen) eqn:Ec; [apply oneOf_spec in Ec|apply oneOf_spec_false in Ec]; [by split; [|intros (_ & [? _])]|].
  destruct (oneOf (cpArtifactSHA256 c) digests) eqn:Ed; [apply oneOf_spec in Ed|apply oneOf_spec_false in Ed]; cbn [negb]; [|by split; [|intros ([[_ ?] _] & _)]].
  rewrite IH. tauto.
Qed.

Lemma check_sources_spec length l seen declared :
  check_sources length l seen = Ok declared <->
  Forall (fun s => ValidateCoreProviderSource length s = Ok tt) l /\ fresh csID seen l /\ declared = seen ++ (csID <$> l).
Proof.
  revert seen. induction l as [|s l IH]; intros seen; cbn [check_sources].
  { rewrite app_nil_r. split; [by intros [= ->]; auto using fresh_nil|by intros (_ & _ & ->)]. }
  rewrite fresh_cons, Forall_cons. destruct (ValidateCoreProviderSource length s) as [[]|x]; simpl; [|by split; [|intros ([? _] & _)]].
  destruct (oneOf (csID s) seen) eqn:Es; [apply oneOf_spec in Es|apply oneOf_spec_false in Es]; [by split; [|intros (_ & [? _] & _)]|].
  rewrite IH, <- app_assoc, (Permutation_app_comm seen [csID s]). simpl. tauto.
Qed.

(** What the second loop of the providers asks of an artifact. *)
Definition target_declared (declared : list string) (a : Artifact) : bool :=
  if panel_role (afRole a) then oneOf (afCoreProvider a) declared else String.eqb (afCoreProvider a) "".

Lemma check_targets_spec l declared names :
  check_targets l declared names = Ok tt <-> Forall (fun a => target_declared declared a = true) l /\ fresh afName names l.
Proof.
  revert names. induction l as [|a l IH]; intros names; cbn [check_targets]; [by split; auto using fresh_nil|]. rewrite fresh_cons, Forall_cons.
  destruct (oneOf (afName a) names) eqn:Ea; [apply oneOf_spec in Ea|apply oneOf_spec_false in Ea]; [by split; [|intros (_ & [? _])]|].
  unfold target_declared at 1. destruct (panel_role (afRole a)); cbn [negb].
  - destruct (oneOf (afCoreProvider a) declared); cbn [negb]; [rewrite IH; tauto|by split; [|intros ([? _] & _)]].
  - destruct (String.eqb (afCoreProvider a) ""); cbn [negb]; [rewrite IH; tauto|by split; [|intros ([? _] & _)]].
Qed.

(** ** The canonical form *)
Lemma canonical_artifacts m : mfArtifacts (canonical_form m) ≡ₚ mfArtifacts m.
Proof. apply merge_sort_Permutation. Qed.

Lemma canonical_components m : mfComponents (canonical_form m) ≡ₚ mfComponents m.
Proof. apply merge_sort_Permutation. Qed.

Lemma canonical_providers m : mfCoreProviders (canonical_form m) ≡ₚ mfCoreProviders m.
Proof. apply merge_sort_Permutation. Qed.

Lemma has_role_perm l l' target role : l ≡ₚ l' -> has_role l target role = has_role l' target role.
Proof. intros Hp. unfold has_role. by rewrite Hp. Qed.

(** The checks of the core providers that follow the two loops. *)
Lemma providers_ok length m : String.eqb (mfSchema m) SchemaV1 = false ->
  validateCoreProviders length m = Ok tt <->
  (Nat.eqb (base.length (mfCoreProviders m)) 0 || Nat.ltb 2 (base.length (mfCoreProviders m))) = false /\
  Forall (fun s => ValidateCoreProviderSource length s = Ok tt) (mfCoreProviders m) /\ fresh csID [] (mfCoreProviders m) /\
  Forall (fun a => target_declared (csID <$> mfCoreProviders m) a = true) (mfArtifacts m) /\ fresh afName [] (mfArtifacts m) /\
  forallb (fun id => existsb (fun a => String.eqb (afCoreProvider a) id) (List.filter (fun a => panel_role (afRole a)) (mfArtifacts m))) (csID <$> mfCoreProviders m) = true /\
  forallb (fun a => has_role (mfArtifacts m) (target_of a) "panel-full" && has_role (mfArtifacts m) (target_of a) "panel-core")
    (List.filter (fun a => panel_role (afRole a)) (mfArtifacts m)) = true.
Proof.
  intros Hs. unfold validateCoreProviders. rewrite Hs. destruct (_ || _); [by split; [|intros [? _]]|].
  destruct (check_sources length (mfCoreProviders m) []) as [declared|x] eqn:Ed; simpl.
  2: { split; [done|]. intros (_ & H1 & H2 & _). assert (Hc : check_sources length (mfCoreProviders m) [] = Ok (csID <$> mfCoreProviders m)) by by apply check_sources_spec. congruence. }
  apply check_sources_spec in Ed. destruct Ed as (H1 & H2 & ->). simpl.
  destruct (check_targets (mfArtifacts m) (csID <$> mfCoreProviders m) []) as [[]|x] eqn:Et; simpl.
  2: { split; [done|]. intros (_ & _ & _ & H3 & H4 & _). assert (Hc : check_targets (mfArtifacts m) (csID <$> mfCoreProviders m) [] = Ok tt) by by apply check_targets_spec. congruence. }
  apply check_targets_spec in Et. destruct (forallb _ (csID <$> _)); simpl; [|by split; [|intros (_ & _ & _ & _ & _ & ? & _)]].
  destruct (forallb _ _); simpl; [tauto|by split; [|intros (_ & _ & _ & _ & _ & _ & ?)]].
Qed.

Lemma forallb_perm_ext {A} (f g : A -> bool) l l' : l ≡ₚ l' -> (forall x, f x = g x) -> forallb f l = forallb g l'.
Proof. intros Hp Hfg. rewrite (forallb_perm f _ _ Hp). by apply forallb_ext. Qed.

(** Every provider has a panel artifact; every target has both panels. *)
Lemma served_perm l l' ids ids' : l ≡ₚ l' -> ids ≡ₚ ids' ->
  forallb (fun id => existsb (fun a => String.eqb (afCoreProvider a) id) (List.filter (fun a => panel_role (afRole a)) l)) ids =
  forallb (fun id => existsb (fun a => String.eqb (afCoreProvider a) id) (List.filter (fun a => panel_role (afRole a)) l')) ids'.
Proof. intros Hl Hi. apply forallb_perm_ext; [done|]. intros id. apply existsb_perm, filter_perm, Hl. Qed.

Lemma symmetric_perm l l' : l ≡ₚ l' ->
  forallb (fun a => has_role l (target_of a) "panel-full" && has_role l (target_of a) "panel-core") (List.filter (fun a => panel_role (afRole a)) l) =
  forallb (fun a => has_role l' (target_of a) "panel-full" && has_role l' (target_of a) "panel-core") (List.filter (fun a => panel_role (afRole a)) l').
Proof. intros Hl. apply forallb_perm_ext; [by apply filter_perm|]. intros a. by rewrite !(has_role_perm _ _ _ _ Hl). Qed.

Lemma Forall_iff_perm {A} (P Q : A -> Prop) l l' : l ≡ₚ l' -> (forall x, P x <-> Q x) -> Forall P l <-> Forall Q l'.
Proof. intros Hp HP. rewrite Hp. by apply Forall_iff. Qed.

Lemma canonical_coreProviders length m : validateCoreProviders length (canonical_form m) = Ok tt <-> validateCoreProviders length m = Ok tt.
Proof.
  destruct (String.eqb (mfSchema m) SchemaV1) eqn:Es.
  - unfold validateCoreProviders. change (mfSchema (canonical_form m)) with (mfSchema m). by rewrite Es, canonical_artifacts, canonical_providers.
  - rewrite !providers_ok by done. pose proof (canonical_artifacts m) as Ha. pose proof (canonical_providers m) as Hc.
    assert (Ht : forall a, target_declared (csID <$> mfCoreProviders (canonical_form m)) a = true <-> target_declared (csID <$> mfCoreProviders m) a = true).
    { intros a. unfold target_declared. by rewrite (oneOf_perm _ (csID <$> mfCoreProviders (canonical_form m)) (csID <$> mfCoreProviders m)) by by rewrite Hc. }
    rewrite (Forall_iff_perm _ _ _ _ Ha Ht), (served_perm _ _ _ _ Ha (fmap_Permutation csID _ _ Hc)), (symmetric_perm _ _ Ha).
    rewrite (Permutation_length Hc), (Forall_iff_perm _ _ _ _ Hc (fun _ => reflexivity _)). by rewrite (fresh_perm csID [] [] (reflexivity _) _ _ Hc), (fresh_perm afName [] [] (reflexivity _) _ _ Ha).
Qed.

Lemma target_roles_perm l l' target role : l ≡ₚ l' -> oneOf role (target_roles l target) = oneOf role (target_roles l' target).
Proof. intros Hp. apply oneOf_perm. unfold target_roles. apply fmap_Permutation, filter_perm, Hp. Qed.

Lemma canonical_targets m : coherent_targets (canonical_form m) = coherent_targets m.
Proof.
  unfold coherent_targets. apply forallb_perm_ext; [apply canonical_artifacts|]. intros a. cbv zeta. f_equal.
  apply forallb_ext. intros role. apply target_roles_perm, canonical_artifacts.
Qed.

Lemma bind_iff {E A} (r r' : result E unit) (k k' : result E A) a :
  (r = Ok tt <-> r' = Ok tt) -> (k = Ok a <-> k' = Ok a) -> (let? _ := r in k) = Ok a <-> (let? _ := r' in k') = Ok a.
Proof.
  intros Hr Hk. destruct r as [[]|x], r' as [[]|y]; simpl; [done| | |done].
  - by pose proof (proj1 Hr eq_refl).
  - by pose proof (proj2 Hr eq_refl).
Qed.

(** A manifest is valid exactly when its canonical form is. *)
Lemma canonical_valid length m : Validate length (canonical_form m) = Ok tt <-> Validate length m = Ok tt.
Proof.
  unfold Validate. change (valid_header (canonical_form m)) with (valid_header m). change (valid_ranges (canonical_form m)) with (valid_ranges m).
  destruct (valid_header m); [|done]. destruct (valid_ranges m); [|done]. cbn [negb].
  rewrite (Permutation_length (canonical_artifacts m)), (Permutation_length (canonical_components m)), canonical_targets. destruct (_ || _); [done|].
  apply bind_iff; [apply canonical_coreProviders|]. apply bind_iff.
  - rewrite !check_artifacts_spec by done. pose proof (canonical_artifacts m) as Ha.
    rewrite (Forall_iff_perm _ _ _ _ Ha (fun _ => reflexivity _)), (sum_sizes_perm _ _ Ha). by rewrite !(fresh_perm _ [] [] (reflexivity _) _ _ Ha).
  - destruct (coherent_targets m); [|done]. cbn [negb]. rewrite !check_components_spec. pose proof (canonical_components m) as Hc.
    rewrite (fresh_perm _ [] [] (reflexivity _) _ _ Hc). f_equiv. apply Forall_iff_perm; [done|]. intros c. f_equiv.
    by rewrite (fmap_Permutation afSHA256 _ _ (canonical_artifacts m)).
Qed.

Lemma sort_key_identity a : sort_key a = artifact_identity a.
Proof. unfold sort_key, artifact_identity, role_identity. by rewrite <- !app_assoc_str. Qed.

(** What a valid manifest tells apart: artifacts, components and providers. *)
Lemma valid_distinct length m : Validate length m = Ok tt ->
  NoDup (sort_key <$> mfArtifacts m) /\ NoDup (cpID <$> mfComponents m) /\ NoDup (csID <$> mfCoreProviders m).
Proof.
  unfold Validate. destruct (valid_header m); [|done]. destruct (valid_ranges m); [|done]. cbn [negb]. destruct (_ || _); [done|].
  destruct (validateCoreProviders length m) as [[]|x] eqn:Ep; [|done]. simpl.
  destruct (check_artifacts _ _ _ _) as [[]|x] eqn:Ea; [|done]. simpl. destruct (coherent_targets m); [|done]. cbn [negb].
  apply check_artifacts_spec in Ea; [|done]. rewrite check_components_spec. destruct Ea as (_ & [Na _] & _). intros [_ [Nc _]]. split_and!; [|done|].
  - by rewrite (list_fmap_ext sort_key artifact_identity _ (fun _ a _ => sort_key_identity a)).
  - destruct (String.eqb (mfSchema m) SchemaV1) eqn:Es; [|by apply providers_ok in Ep as (_ & _ & [? _] & _)].
    unfold validateCoreProviders in Ep. rewrite Es in Ep. destruct (mfCoreProviders m); [constructor|done].
Qed.

Lemma canonical_idempotent length m : Validate length m = Ok tt -> canonical_form (canonical_form m) = canonical_form m.
Proof. intros (Ha & Hc & Hs)%valid_distinct. unfold canonical_form. simpl. by rewrite !sort_idempotent. Qed.

(** ** Signing and verification *)
Section SignVerify.
Context `{ReleaseCodec}.

(** What a panel asks of the root that signed a manifest, of the channel it follows, of
    the last sequence it saw and of its clock. *)
Definition admits (root : TrustRoot) (m : Manifest) (now : Z) (channel : string) (lastSequence : Z) : Prop :=
  trState root <> RootRetired /\ trNotBefore root <= now < trNotAfter root /\ mfChannel m = channel /\ lastSequence < mfSequence m /\
  trMinSequence root <= mfSequence m /\ (trMaxSequence root = 0 \/ mfSequence m <= trMaxSequence root) /\ mfIssuedAt m <= unix now < mfExpiresAt m.

Definition signed_envelope (m : Manifest) (keyID privateKey : string) : Envelope :=
  let canonical := marshalManifest (canonical_form m) in mkEnvelope (mfSchema m) keyID SignatureAlgorithm canonical (ed25519Sign privateKey canonical).

Definition verified_release (m : Manifest) (keyID : string) : Verified :=
  let canonical := marshalManifest (canonical_form m) in
  mkVerified (canonical_form m) canonical (sha256hex canonical) keyID (Some (canonical, sha256hex canonical, keyID)).

Lemma Canonical_canonical m c : Canonical m = Ok c -> Canonical (canonical_form m) = Ok c.
Proof.
  unfold Canonical. destruct (Validate base64Length m) as [[]|x] eqn:Ev; [|done]. simpl. intros [= <-].
  rewrite (proj2 (canonical_valid _ _) Ev). simpl. by rewrite (canonical_idempotent _ _ Ev).
Qed.

Lemma Sign_ok m keyID privateKey raw : Sign m keyID privateKey = Ok raw ->
  identifier keyID = true /\ valid_header m = true /\ Canonical m = Ok (marshalManifest (canonical_form m)) /\ raw = marshalEnvelope (signed_envelope m keyID privateKey).
Proof.
  unfold Sign. destruct (identifier keyID); [|done]. destruct (slen privateKey =? privateKeySize); [|done]. simpl.
  unfold Canonical. destruct (Validate base64Length m) as [[]|x] eqn:Ev; [|done]. simpl. intros [= <-]. split_and!; try done.
  unfold Validate in Ev. by destruct (valid_header m).
Qed.

(** The checks of [Verify] that follow the signature. *)
Lemma admits_dec root m now channel lastSequence :
  admits root m now channel lastSequence <->
  (String.eqb (trState root) RootRetired || (now <? trNotBefore root) || negb (now <? trNotAfter root)) = false /\
  (negb (String.eqb (mfChannel m) channel) || (mfSequence m <=? lastSequence) || (mfSequence m <? trMinSequence root)
   || (negb (trMaxSequence root =? 0) && (trMaxSequence root <? mfSequence m))) = false /\
  ((unix now <? mfIssuedAt m) || (mfExpiresAt m <=? unix now)) = false.
Proof.
  unfold admits. rewrite !orb_false_iff, andb_false_iff, !negb_false_iff, String.eqb_neq, String.eqb_eq, !Z.ltb_ge, !Z.ltb_lt, !Z.leb_gt, Z.eqb_eq. tauto.
Qed.

(** C28: a release that is signed is verified.  When the envelope [Sign] makes goes through
    the JSON encoder and back, and the root of its key is the public half of the private
    key, [Verify] accepts the envelope exactly when the root, the channel, the last sequence
    and the clock admit the release; the manifest it returns is the canonical form of the
    signed one (whose lists may come in any order), and the proof it carries stands. *)
Theorem signed_release_verifies m keyID privateKey raw store root now channel lastSequence v :
  Sign m keyID privateKey = Ok raw ->
  decodeManifest (marshalManifest (canonical_form m)) = Some (canonical_form m) ->
  decodeEnvelope raw = Some (signed_envelope m keyID privateKey) -> strictObject raw = true -> 0 < slen raw <= MaxManifestBytes ->
  store !! keyID = Some root ->
  (forall message, ed25519Verify (trPublicKey root) message (ed25519Sign privateKey message) = true) ->
  (Verify raw store now channel lastSequence = Ok v <-> v = verified_release m keyID /\ admits root m now channel lastSequence) /\
  authenticated (verified_release m keyID) = Ok tt.
Proof.
  intros (Hk & Hh & Hc & ->)%Sign_ok Hm He Hs [Hp Hl] Hr Hpair. set (raw := marshalEnvelope _) in *. pose proof (Canonical_canonical _ _ Hc) as Hcc. split.
  - unfold Verify. replace (String.eqb raw "") with false by (symmetry; apply String.eqb_neq; by intros ->).
    rewrite (proj2 (Z.ltb_ge _ _) Hl), Hs, He. cbn [orb negb signed_envelope evSchema evAlgorithm evKeyID evManifest evSignature].
    rewrite Hk, Hr. assert (Hsch : oneOf (mfSchema m) [SchemaV1; SchemaV2] = true) by (unfold valid_header in Hh; repeat (apply andb_true_iff in Hh as [Hh _]); exact Hh). rewrite Hsch, admits_dec. cbn [negb orb].
    rewrite String.eqb_refl. cbn [negb orb]. destruct (_ || negb (now <? trNotAfter root)); [by split; [|intros (_ & ? & _)]|].
    rewrite Hm. change (mfSchema (canonical_form m)) with (mfSchema m). rewrite String.eqb_refl, Hcc. simpl. rewrite String.eqb_refl, Hpair. simpl.
    destruct (_ || (negb (trMaxSequence root =? 0) && _)); [by split; [|intros (_ & _ & ? & _)]|].
    destruct (_ || (mfExpiresAt m <=? unix now)); [by split; [|intros (_ & _ & _ & ?)]|]. split; [by intros [= <-]|by intros (-> & _)].
  - unfold authenticated, verified_release. simpl. by rewrite !String.eqb_refl, Hcc, String.eqb_refl.
Qed.
End SignVerify.

(** A signer whose signatures name the message, and a release with its lists unsorted. *)
Module Signer.
Definition hex : string := "aaaaaaaaaaaaaaaaaaaaaaaaaaaaaaaaaaaaaaaaaaaaaaaaaaaaaaaaaaaaaaaa".
Definition artifact (role : string) : Artifact := mkArtifact (role +:+ ".tar.gz") role "linux" "amd64" "application/gzip" 4 hex "github" "".
Definition release (artifacts : list Artifact) : Manifest :=
  mkManifest SchemaV1 "release-1.1.0" 7 "1.1.0" ChannelMain 1000 2000 hex "1.0.0" "1.0.9" "1.0" "1.0" "1.0" "capability-1" hex hex "panel" "not-required" "automatic"
    artifacts [] [].
Definition manifest : Manifest := release [artifact "panel-full"; artifact "panel-core"].
Definition root : TrustRoot := mkRoot "root-1" "" RootActive 0 (10000 * second) 1 0.

#[local] Instance codec : ReleaseCodec := {|
  base64Length _ := None; strictObject _ := true;
  decodeEnvelope _ := Some (mkEnvelope SchemaV1 "root-1" SignatureAlgorithm "manifest" "signed:manifest");
  decodeManifest _ := Some (release [artifact "panel-core"; artifact "panel-full"]);
  marshalManifest _ := "manifest"; marshalArtifacts _ := "artifacts"; marshalEnvelope _ := "envelope"; sha256hex _ := hex;
  ed25519Sign _ message := "signed:" +:+ message; ed25519Verify _ message signature := String.eqb signature ("signed:" +:+ message) |}.

Lemma signed_release_verifies_witness :
  Sign manifest "root-1" hex = Ok "envelope" /\
  Verify "envelope" {[ "root-1" := root ]} (1500 * second) ChannelMain 6 = Ok (verified_release manifest "root-1") /\
  mfArtifacts (vfManifest (verified_release manifest "root-1")) = [artifact "panel-core"; artifact "panel-full"].
Proof.
  split_and!; [reflexivity| |reflexivity].
  apply (signed_release_verifies manifest "root-1" hex "envelope" {[ "root-1" := root ]} root); [reflexivity..|done|reflexivity|intros message; apply String.eqb_refl|].
  split; [reflexivity|]. unfold admits. split_and!; try done. by left.
Defined.
End Signer.
