(* ===== verification/UpdateStore.v ===== *)
(** * Update lifecycle: the repository ([service/update/lifecycle.go])

    The three tables of the update lifecycle and the transactions of [Repository]: what
    they read, what they write, and when they refuse.  The immutable columns of an
    operation are its [UpdateIdentity]; no statement of the repository writes them after
    [create].  A [Store] is the database; a transaction that fails leaves it as it was.

    [First] orders by the clauses of the query and then by the primary key, as gorm
    does.  SQLite refuses an unsigned value above the signed range ([storable]).  Times
    are seconds here, as the columns hold them. *)

From stdpp Require Import sorting.
From S2P Require Import Prelude GoStrings VersionPolicy ReleaseManifest.

Open Scope string_scope.
Open Scope list_scope.
Open Scope Z_scope.

(** ** States *)
Definition State : Type := string.
Definition StateUnknown : State := "UNKNOWN".
Definition StateUpdateAvailable : State := "UPDATE_AVAILABLE".
Definition StateDownloading : State := "DOWNLOADING".
Definition StateDownloaded : State := "DOWNLOADED".
Definition StateVerifying : State := "VERIFYING".
Definition StateVerified : State := "VERIFIED".
Definition StatePreflighting : State := "PREFLIGHTING".
Definition StatePrepared : State := "PREPARED".
Definition StateActivating : State := "ACTIVATING".
Definition StateVerifyingActive : State := "VERIFYING_ACTIVE".
Definition StateApplied : State := "APPLIED".
Definition StateRollbackPending : State := "ROLLBACK_PENDING".
Definition StateRollingBack : State := "ROLLING_BACK".
Definition StateRolledBack : State := "ROLLED_BACK".
Definition StateFailed : State := "FAILED".
Definition StateRecoveryRequired : State := "RECOVERY_REQUIRED".

Definition one_of (states : list string) (s : string) : bool := existsb (String.eqb s) states.

Definition terminalStates : list string := [StateApplied; StateRolledBack; StateFailed].
Definition terminal (s : string) : bool := one_of terminalStates s.

(** ** Errors *)
Inductive updError :=
| ErrRecordNotFound
| ErrDatabase
| ErrSigningUnavailable
| ErrNotNewer
| ErrProviderUnavailable
| ErrRevisionMismatch
| ErrOperationConflict
| ErrReleaseChanged
| ErrRecoveryRequired
| ErrRestartPending
| ErrResourcePressure
| ErrCoreProviderUnverified
| ErrCoreProviderMaintenance
| ErrOperatorManaged
| ErrPackageManaged
| ErrPlatformPreflight
| ErrHealthCheckFailed (reasons : list string)
| ErrOther (message : string)
| ErrJoin (first second : updError).

(** [errors.Is], for the errors that the package compares with. *)
Fixpoint is_error (target : updError -> bool) (e : updError) : bool :=
  target e || match e with ErrJoin a b => is_error target a || is_error target b | _ => false end.

Definition errors_as_platform : updError -> bool := is_error (fun e => match e with ErrPlatformPreflight => true | _ => false end).
Definition is_core_unverified : updError -> bool := is_error (fun e => match e with ErrCoreProviderUnverified => true | _ => false end).
Definition is_core_maintenance : updError -> bool := is_error (fun e => match e with ErrCoreProviderMaintenance => true | _ => false end).
Definition is_signing : updError -> bool := is_error (fun e => match e with ErrSigningUnavailable => true | _ => false end).
Definition is_unavailable : updError -> bool := is_error (fun e => match e with ErrProviderUnavailable => true | _ => false end).
Definition is_operator_managed : updError -> bool := is_error (fun e => match e with ErrOperatorManaged => true | _ => false end).
Definition is_package_managed : updError -> bool := is_error (fun e => match e with ErrPackageManaged => true | _ => false end).
Definition is_mismatch : updError -> bool := is_error (fun e => match e with ErrRevisionMismatch => true | _ => false end).
Definition is_conflict : updError -> bool := is_error (fun e => match e with ErrOperationConflict => true | _ => false end).
Definition is_changed : updError -> bool := is_error (fun e => match e with ErrReleaseChanged => true | _ => false end).
Definition is_recovery : updError -> bool := is_error (fun e => match e with ErrRecoveryRequired => true | _ => false end).
Definition is_restart : updError -> bool := is_error (fun e => match e with ErrRestartPending => true | _ => false end).
Definition is_pressure : updError -> bool := is_error (fun e => match e with ErrResourcePressure => true | _ => false end).
Definition is_not_found : updError -> bool := is_error (fun e => match e with ErrRecordNotFound => true | _ => false end).

Definition ReasonCode (e : updError) : string :=
  if errors_as_platform e then "update_platform_preflight_failed"
  else if is_core_unverified e then "core_provider_identity_unverified"
  else if is_core_maintenance e then "core_provider_maintenance_required"
  else if is_signing e then "release_signing_unavailable"
  else if is_unavailable e then "update_provider_unavailable"
  else if is_operator_managed e then "update_operator_managed"
  else if is_package_managed e then "update_package_managed"
  else if is_mismatch e then "update_revision_mismatch"
  else if is_conflict e then "update_operation_conflict"
  else if is_changed e then "verified_release_changed"
  else if is_recovery e then "update_recovery_required"
  else if is_pressure e then "resource_pressure_blocks_update"
  else "update_operation_failed".

(** [errors.Join]; [nil] is dropped. *)
Definition joinErrors (first second : option updError) : option updError :=
  match first, second with
  | Some a, Some b => Some (ErrJoin a b)
  | Some a, None => Some a
  | None, e => e
  end.

(** ** Validation of values *)
Definition id_char (c : Ascii.ascii) : bool := is_lower c || is_upper c || is_digit c || char_in c "._:@+-".

Definition safeID (value : string) (limit : Z) : bool :=
  let value := TrimSpace value in
  if String.eqb value "" || (limit <? slen value) then false else all_chars id_char value.

Definition hex_char (c : Ascii.ascii) : bool := is_digit c || between 97 102 c || between 65 70 c.

Definition validDigest (value : string) : bool := (slen value =? 64) && all_chars hex_char value.

Definition known_channel (c : string) : bool := String.eqb c ChannelMain || String.eqb c ChannelBeta.

(** A value that an INTEGER column or a bound parameter may hold. *)
Definition storable (v : Z) : bool := v <=? int64_max.

(** ** Rows *)
Record UpdateReleaseState := mkRelease {
  rsChannel : string;
  rsLastObservedSequence : Z;
  rsLastVerifiedSequence : Z;
  rsLastAppliedSequence : Z;
  rsReleaseID : string;
  rsManifestDigest : string;
  rsVersion : string;
  rsSigningKeyID : string;
  rsExpiresAt : Z;
  rsUpdatedAt : Z
}.

Record UpdateIdentity := mkIdentity {
  uiOperationID : string;
  uiIdempotencyKey : string;
  uiChannel : string;
  uiSequence : Z;
  uiReleaseID : string;
  uiVersion : string;
  uiManifestDigest : string;
  uiArtifactSetDigest : string;
  uiPlatform : string;
  uiArch : string;
  uiBinaryProfile : string;
  uiDeploymentRevision : string;
  uiBrokerCapability : string;
  uiMigrationSetDigest : string;
  uiRestartClass : string;
  uiRebootClass : string;
  uiRollbackClass : string;
  uiBytesTotal : Z;
  uiCreatedAt : Z
}.

Record UpdateOperation := mkOperation {
  uoIdentity : UpdateIdentity;
  uoState : State;
  uoBackupRef : string;
  uoBytesCompleted : Z;
  uoReasonCode : string;
  uoRevision : Z;
  uoRestoredUntrusted : bool;
  uoRollbackAvailable : bool;
  uoCleanupPending : bool;
  uoCleanupReason : string;
  uoUpdatedAt : Z
}.

Definition opID (op : UpdateOperation) : string := uiOperationID (uoIdentity op).
Definition opChannel (op : UpdateOperation) : string := uiChannel (uoIdentity op).
Definition opSequence (op : UpdateOperation) : Z := uiSequence (uoIdentity op).
Definition opManifest (op : UpdateOperation) : string := uiManifestDigest (uoIdentity op).

Record UpdateJournal := mkJournal {
  ujSequence : Z;
  ujOperationID : string;
  ujState : string;
  ujEvent : string;
  ujReasonCode : string;
  ujRevision : Z;
  ujSemanticHash : string;
  ujCreatedAt : Z
}.

Record Store := mkStore {
  stOperations : gmap string UpdateOperation;   (** by [operation_id] *)
  stReleases : gmap string UpdateReleaseState;  (** by [channel] *)
  stJournal : list UpdateJournal;               (** in ascending sequence *)
  stNext : Z                                    (** the next autoincremented sequence *)
}.

Definition emptyStore : Store := mkStore ∅ ∅ [] 1.

Definition set_operations (m : gmap string UpdateOperation) (s : Store) : Store := mkStore m (stReleases s) (stJournal s) (stNext s).
Definition set_releases (m : gmap string UpdateReleaseState) (s : Store) : Store := mkStore (stOperations s) m (stJournal s) (stNext s).
Definition set_journal (l : list UpdateJournal) (s : Store) : Store := mkStore (stOperations s) (stReleases s) l (stNext s).

(** ** Validity of persisted rows *)
Definition restoredReleaseState (row : UpdateReleaseState) : bool :=
  (rsLastVerifiedSequence row =? 0) && String.eqb (rsManifestDigest row) "" && String.eqb (rsSigningKeyID row) "".

Definition parses (version : string) : bool := match CompareVersions version version with Some _ => true | None => false end.

Definition validPersistedReleaseState (row : UpdateReleaseState) : bool :=
  if negb (known_channel (rsChannel row)) || (rsLastObservedSequence row =? 0) || (rsLastObservedSequence row <? rsLastAppliedSequence row)
     || negb (safeID (rsReleaseID row) 96) || (rsUpdatedAt row <=? 0) || (rsExpiresAt row <=? 0) then false
  else if negb (parses (rsVersion row)) then false
  else if restoredReleaseState row then true
  else (0 <? rsLastVerifiedSequence row) && (rsLastVerifiedSequence row =? rsLastObservedSequence row)
       && (rsLastAppliedSequence row <=? rsLastVerifiedSequence row) && validDigest (rsManifestDigest row) && safeID (rsSigningKeyID row) 96.

Definition persistedStates : list string :=
  [StateDownloading; StateDownloaded; StateVerifying; StateVerified; StatePreflighting; StatePrepared;
   StateActivating; StateVerifyingActive; StateApplied; StateRollbackPending; StateRollingBack;
   StateRolledBack; StateFailed; StateRecoveryRequired].

Definition valid_identity (i : UpdateIdentity) : bool :=
  safeID (uiOperationID i) 96 && HasPrefix (uiOperationID i) "update-operation:" && safeID (uiIdempotencyKey i) 96
  && negb (uiSequence i =? 0) && safeID (uiReleaseID i) 96 && validDigest (uiManifestDigest i) && validDigest (uiArtifactSetDigest i)
  && validDigest (uiDeploymentRevision i) && safeID (uiBrokerCapability i) 96 && validDigest (uiMigrationSetDigest i)
  && known_channel (uiChannel i) && safeID (uiPlatform i) 24 && safeID (uiArch i) 24
  && (String.eqb (uiBinaryProfile i) "full" || String.eqb (uiBinaryProfile i) "core")
  && (String.eqb (uiRestartClass i) "panel" || String.eqb (uiRestartClass i) "stack")
  && (String.eqb (uiRebootClass i) "not-required" || String.eqb (uiRebootClass i) "operator-advisory")
  && (String.eqb (uiRollbackClass i) "automatic" || String.eqb (uiRollbackClass i) "manual-recovery")
  && (0 <? uiBytesTotal i) && (uiBytesTotal i <=? MaxReleaseSetBytes) && (0 <? uiCreatedAt i) && parses (uiVersion i).

Definition validPersistedOperation (op : UpdateOperation) : bool :=
  valid_identity (uoIdentity op) && negb (uoRevision op =? 0)
  && (String.eqb (uoBackupRef op) "" || validDigest (uoBackupRef op))
  && (0 <=? uoBytesCompleted op) && (uoBytesCompleted op <=? uiBytesTotal (uoIdentity op))
  && (uiCreatedAt (uoIdentity op) <=? uoUpdatedAt op)
  && (String.eqb (uoReasonCode op) "" || safeID (uoReasonCode op) 96)
  && (String.eqb (uoCleanupReason op) "" || safeID (uoCleanupReason op) 96)
  && (uoCleanupPending op || String.eqb (uoCleanupReason op) "")
  && one_of persistedStates (uoState op).

Definition operationRecoveryProjection (op : UpdateOperation) : UpdateOperation :=
  mkOperation (uoIdentity op) StateRecoveryRequired (uoBackupRef op) (uoBytesCompleted op) "update_operation_state_invalid" (uoRevision op)
    true false false "" (uoUpdatedAt op).

Definition restoredOperationRecoveryProjection (op : UpdateOperation) : UpdateOperation :=
  mkOperation (uoIdentity op) StateRecoveryRequired "" (uoBytesCompleted op) "restored_update_state_untrusted" (uoRevision op)
    true false false "" (uoUpdatedAt op).

(** ** Digests
    [semanticDigest] is the hexadecimal SHA-256 of the JSON object whose field values
    are listed, numbers in decimal. *)
Class Digests := { semanticDigest : list string -> string }.

Definition updateOperationID `{Digests} (idempotencyKey manifestDigest : string) : string :=
  "update-operation:" +:+ String.substring 0 48 (semanticDigest [idempotencyKey; manifestDigest]).

(** ** Queries *)
Definition rows (s : Store) : list UpdateOperation := (map_to_list (stOperations s)).*2.

(** [ORDER BY updated_at DESC, operation_id] *)
Definition newest_first (x y : UpdateOperation) : Prop :=
  (uoUpdatedAt y <? uoUpdatedAt x) || ((uoUpdatedAt x =? uoUpdatedAt y) && (Compare (opID x) (opID y) <=? 0)) = true.

(** [ORDER BY updated_at DESC, operation_id DESC] *)
Definition latest_first (x y : UpdateOperation) : Prop :=
  (uoUpdatedAt y <? uoUpdatedAt x) || ((uoUpdatedAt x =? uoUpdatedAt y) && (Compare (opID y) (opID x) <=? 0)) = true.

(** [ORDER BY updated_at ASC, operation_id ASC] *)
Definition oldest_first (x y : UpdateOperation) : Prop :=
  (uoUpdatedAt x <? uoUpdatedAt y) || ((uoUpdatedAt x =? uoUpdatedAt y) && (Compare (opID x) (opID y) <=? 0)) = true.

#[global] Instance newest_first_dec x y : Decision (newest_first x y) := decide (_ = true).
#[global] Instance latest_first_dec x y : Decision (latest_first x y) := decide (_ = true).
#[global] Instance oldest_first_dec x y : Decision (oldest_first x y) := decide (_ = true).

(** [ORDER BY operation_id] *)
Definition by_id (x y : UpdateOperation) : Prop := (Compare (opID x) (opID y) <=? 0) = true.
#[global] Instance by_id_dec x y : Decision (by_id x y) := decide (_ = true).

Definition first_row {A} (R : A -> A -> Prop) `{forall x y, Decision (R x y)} (cond : A -> bool) (l : list A) : result updError A :=
  match merge_sort R (List.filter cond l) with
  | [] => Err ErrRecordNotFound
  | x :: _ => Ok x
  end.

Definition active_row (op : UpdateOperation) : bool := negb (terminal (uoState op)).

Definition releaseState (channel : string) (s : Store) : result updError UpdateReleaseState :=
  match stReleases s !! channel with Some row => Ok row | None => Err ErrRecordNotFound end.

Definition lastApplied (channel : string) (s : Store) : result updError Z :=
  match stReleases s !! channel with
  | None => Ok 0
  | Some row => if negb (validPersistedReleaseState row) then Err ErrRecoveryRequired else Ok (rsLastAppliedSequence row)
  end.

Definition byIdempotency (key : string) (s : Store) : result updError UpdateOperation :=
  first_row by_id (fun op => String.eqb (uiIdempotencyKey (uoIdentity op)) key) (rows s).

Definition active (s : Store) : result updError UpdateOperation := first_row newest_first active_row (rows s).

Definition activeOrRecovery (s : Store) : result updError UpdateOperation :=
  first_row newest_first (fun op => uoCleanupPending op || String.eqb (uoState op) StateRecoveryRequired || active_row op) (rows s).

Definition latest (s : Store) : result updError UpdateOperation := first_row latest_first (fun _ => true) (rows s).

Definition operation (id : string) (s : Store) : result updError UpdateOperation :=
  match stOperations s !! id with Some op => Ok op | None => Err ErrRecordNotFound end.

Definition timeline (id : string) (after limit : Z) (s : Store) : result updError (list UpdateJournal * bool) :=
  if negb (storable after) then Err ErrDatabase
  else
    let found := take (Z.to_nat (limit + 1)) (List.filter (fun j => String.eqb (ujOperationID j) id && (after <? ujSequence j)) (stJournal s)) in
    let truncated := limit <? Z.of_nat (length found) in
    Ok (if truncated then take (Z.to_nat limit) found else found, truncated).

Definition cleanupDebt (s : Store) : result updError UpdateOperation := first_row oldest_first uoCleanupPending (rows s).

(** The first journal entry of a phase, by revision and then by sequence. *)
Definition by_revision (x y : UpdateJournal) : Prop :=
  (ujRevision x <? ujRevision y) || ((ujRevision x =? ujRevision y) && (ujSequence x <=? ujSequence y)) = true.
#[global] Instance by_revision_dec x y : Decision (by_revision x y) := decide (_ = true).

Definition phaseStartedAt (op : UpdateOperation) (phase : State) (s : Store) : result updError Z :=
  match first_row by_revision (fun j => String.eqb (ujOperationID j) (opID op) && String.eqb (ujState j) phase) (stJournal s) with
  | Err e => Err (ErrJoin ErrRecoveryRequired e)
  | Ok entry => if ujCreatedAt entry <=? 0 then Err ErrRecoveryRequired else Ok (ujCreatedAt entry)
  end.

Definition providerCheckpointRecorded (op : UpdateOperation) (s : Store) : result updError bool :=
  Ok (existsb (fun j => String.eqb (ujOperationID j) (opID op) && String.eqb (ujEvent j) "provider_database_checkpoint_committed") (stJournal s)).

Definition updateTerminalHistoryCount : Z := 128.
Definition updateTerminalHistoryAge : Z := 90 * 24 * hour.
Definition updateTerminalJournalCount : Z := 1024.
Definition updateHistoryLogicalBytes : Z := 8 * 2 ^ 20.

(** One pass over the applied operations of a sequence. *)
Fixpoint same_manifest (digest : string) (ops : list UpdateOperation) : result updError string :=
  match ops with
  | [] => Ok digest
  | op :: ops' =>
      if negb (validPersistedOperation op) || uoRestoredUntrusted op || (negb (String.eqb digest "") && negb (String.eqb digest (opManifest op))) then Err ErrRecoveryRequired
      else same_manifest (opManifest op) ops'
  end.

Definition appliedManifest (channel : string) (sequence : Z) (s : Store) : result updError string :=
  match stReleases s !! channel with
  | None => Err ErrRecordNotFound
  | Some st =>
      if negb (validPersistedReleaseState st) || negb (rsLastAppliedSequence st =? sequence) || restoredReleaseState st then Err ErrRecoveryRequired
      else
        let ops := take (Z.to_nat (updateTerminalHistoryCount + 1))
                     (List.filter (fun op => String.eqb (opChannel op) channel && (opSequence op =? sequence) && String.eqb (uoState op) StateApplied) (rows s)) in
        let n := Z.of_nat (length ops) in
        if (n =? 0) || (updateTerminalHistoryCount <? n) then Err ErrRecoveryRequired else same_manifest "" ops
  end.

(** ** Writes *)
Section Writes.
Context `{Digests}.

Definition journalFor (op : UpdateOperation) (event reason : string) (sequence : Z) : UpdateJournal :=
  mkJournal sequence (opID op) (uoState op) event reason (uoRevision op)
    (semanticDigest [opID op; uoState op; event; reason; Itoa (uoRevision op)]) (uoUpdatedAt op).

Definition append_journal (op : UpdateOperation) (event reason : string) (s : Store) : Store :=
  mkStore (stOperations s) (stReleases s) (stJournal s ++ [journalFor op event reason (stNext s)]) (stNext s + 1).

Definition put (op : UpdateOperation) (s : Store) : Store := set_operations (<[opID op := op]> (stOperations s)) s.

Definition saveVerified (v : Verified) (channel : string) (observedAt : Z) (s : Store) : result updError Store :=
  if existsb (fun op => String.eqb (opChannel op) channel && negb (String.eqb (opManifest op) (vfDigest v)) && active_row op) (rows s)
  then Err ErrOperationConflict
  else
    let? row := match stReleases s !! channel with
                | None => Ok (mkRelease channel 0 0 0 "" "" "" "" 0 0)
                | Some row => if negb (validPersistedReleaseState row) then Err ErrRecoveryRequired else Ok row
                end in
    if (mfSequence (vfManifest v) <? rsLastObservedSequence row) ||
       ((mfSequence (vfManifest v) =? rsLastObservedSequence row) && negb (String.eqb (rsManifestDigest row) "") && negb (String.eqb (rsManifestDigest row) (vfDigest v)))
    then Err ErrReleaseChanged
    else if negb (storable (mfSequence (vfManifest v))) then Err ErrDatabase
    else Ok (set_releases (<[channel := mkRelease channel (mfSequence (vfManifest v)) (mfSequence (vfManifest v)) (rsLastAppliedSequence row) (mfReleaseID (vfManifest v)) (vfDigest v)
               (mfVersion (vfManifest v)) (vfKeyID v) (mfExpiresAt (vfManifest v)) observedAt]> (stReleases s)) s).

(** [tx.Create] fails on a duplicate primary key or idempotency key. *)
Definition create (op : UpdateOperation) (event reason : string) (s : Store) : result updError Store :=
  if bool_decide (is_Some (stOperations s !! opID op)) || existsb (fun x => String.eqb (uiIdempotencyKey (uoIdentity x)) (uiIdempotencyKey (uoIdentity op))) (rows s)
     || negb (storable (opSequence op)) then Err ErrDatabase
  else Ok (append_journal op event reason (put op s)).

(** The columns that [update] and [completeApplied] write into a row. *)
Definition transition_columns (op row : UpdateOperation) (bytesCompleted : Z) : UpdateOperation :=
  mkOperation (uoIdentity row) (uoState op) (uoBackupRef op) bytesCompleted (uoReasonCode op) (uoRevision op)
    (uoRestoredUntrusted row) (uoRollbackAvailable op) (uoCleanupPending op) (uoCleanupReason op) (uoUpdatedAt op).

Definition fenced (op : UpdateOperation) (revision : Z) (state : string) (s : Store) : option UpdateOperation :=
  row ← stOperations s !! opID op;
  if (uoRevision row =? revision) && String.eqb (uoState row) state then Some row else None.

(** [update], through [operationcoordination.CommitTransition]. *)
Definition update (op : UpdateOperation) (expectedRevision : Z) (expectedState event : string) (s : Store) : result updError Store :=
  if String.eqb (opID op) "" || String.eqb expectedState "" || (expectedRevision =? 0) || (expectedRevision =? uint64_max)
  then Err (ErrOther "operation transition contract is unavailable")
  else if negb (uoRevision op =? wrapu64 (expectedRevision + 1)) then Err (ErrOther "operation transition revision is invalid")
  else match fenced op expectedRevision expectedState s with
       | None => Err ErrRevisionMismatch
       | Some row =>
           let bytes := if String.eqb expectedState StateDownloading && String.eqb (uoState op) StateDownloaded
                        then uiBytesTotal (uoIdentity op) else uoBytesCompleted row in
           Ok (append_journal op event (uoReasonCode op) (put (transition_columns op row bytes) s))
       end.

Definition completeApplied (op : UpdateOperation) (expectedRevision : Z) (expectedState event : string) (s : Store) : result updError Store :=
  match stReleases s !! opChannel op with
  | None => Err ErrReleaseChanged
  | Some st =>
      if negb (validPersistedReleaseState st) || restoredReleaseState st then Err ErrReleaseChanged
      else if negb (rsLastVerifiedSequence st =? opSequence op) || negb (String.eqb (rsManifestDigest st) (opManifest op))
              || (opSequence op <? rsLastAppliedSequence st) then Err ErrReleaseChanged
      else match fenced op expectedRevision expectedState s with
           | None => Err ErrRevisionMismatch
           | Some row =>
               let st' := mkRelease (rsChannel st) (rsLastObservedSequence st) (rsLastVerifiedSequence st) (opSequence op) (rsReleaseID st)
                            (rsManifestDigest st) (rsVersion st) (rsSigningKeyID st) (rsExpiresAt st) (uoUpdatedAt op) in
               Ok (append_journal op event (uoReasonCode op)
                     (set_releases (<[opChannel op := st']> (stReleases s)) (put (transition_columns op row (uoBytesCompleted row)) s)))
           end
  end.

(** The identity columns that the row of a restored database must share with the operation. *)
Definition same_binding (a b : UpdateIdentity) : bool :=
  String.eqb (uiOperationID a) (uiOperationID b) && (uiSequence a =? uiSequence b) && String.eqb (uiReleaseID a) (uiReleaseID b)
  && String.eqb (uiManifestDigest a) (uiManifestDigest b) && String.eqb (uiArtifactSetDigest a) (uiArtifactSetDigest b)
  && String.eqb (uiDeploymentRevision a) (uiDeploymentRevision b) && String.eqb (uiMigrationSetDigest a) (uiMigrationSetDigest b)
  && String.eqb (uiBinaryProfile a) (uiBinaryProfile b) && String.eqb (uiChannel a) (uiChannel b).

(** The transaction, and the row as far as it was loaded: the zero value when there is none. *)
Definition rebindRestoredRollback (op : UpdateOperation) (reason : string) (s : Store) : result updError Store * option UpdateOperation :=
  match stOperations s !! opID op with
  | None => (Err ErrRecordNotFound, None)
  | Some row =>
      if negb (uoRestoredUntrusted row) || negb (same_binding (uoIdentity row) (uoIdentity op)) || negb (validPersistedOperation row) then (Err ErrRecoveryRequired, Some row)
      else
        let rebound := mkOperation (uoIdentity row) StateRolledBack "" (uoBytesCompleted row) reason (uoRevision row + 1) false false false "" (uoUpdatedAt op) in
        (Ok (append_journal rebound "update_rolled_back" reason (put rebound s)), Some rebound)
  end.

Definition markRollbackRecovery (op : UpdateOperation) (reason : string) (s : Store) : result updError (Store * UpdateOperation) :=
  match stOperations s !! opID op with
  | None => Err ErrRecordNotFound
  | Some row =>
      let recovery := mkOperation (uoIdentity row) StateRecoveryRequired "" (uoBytesCompleted row) reason (uoRevision row + 1) false false false "" (uoUpdatedAt op) in
      Ok (append_journal recovery "update_rollback_recovery_required" reason (put recovery s), recovery)
  end.

Definition recordCleanupDebt (op : UpdateOperation) (reason : string) (now : Z) (s : Store) : result updError Store :=
  let reason := if safeID reason 96 then reason else "terminal_cleanup_failed" in
  let now := Z.max now (uoUpdatedAt op) in
  match fenced op (uoRevision op) (uoState op) s with
  | None => Err ErrRevisionMismatch
  | Some row =>
      let row' := mkOperation (uoIdentity row) (uoState row) (uoBackupRef row) (uoBytesCompleted row) (uoReasonCode row) (uoRevision op + 1)
                    (uoRestoredUntrusted row) (uoRollbackAvailable row) true reason now in
      let op' := mkOperation (uoIdentity op) (uoState op) (uoBackupRef op) (uoBytesCompleted op) (uoReasonCode op) (uoRevision op + 1)
                    (uoRestoredUntrusted op) (uoRollbackAvailable op) true reason now in
      Ok (append_journal op' "update_cleanup_debt_recorded" reason (put row' s))
  end.

Definition clearCleanupDebt (op : UpdateOperation) (now : Z) (s : Store) : result updError Store :=
  let now := Z.max now (uoUpdatedAt op) in
  match stOperations s !! opID op with
  | None => Err ErrRevisionMismatch
  | Some row =>
      if negb (uoRevision row =? uoRevision op) || negb (uoCleanupPending row) then Err ErrRevisionMismatch
      else
        let row' := mkOperation (uoIdentity row) (uoState row) (uoBackupRef row) (uoBytesCompleted row) (uoReasonCode row) (uoRevision op + 1)
                      (uoRestoredUntrusted row) (uoRollbackAvailable row) false "" now in
        let op' := mkOperation (uoIdentity op) (uoState op) (uoBackupRef op) (uoBytesCompleted op) (uoReasonCode op) (uoRevision op + 1)
                      (uoRestoredUntrusted op) (uoRollbackAvailable op) false "" now in
        Ok (append_journal op' "update_cleanup_debt_cleared" "" (put row' s))
  end.

Definition set_bytes (n : Z) (op : UpdateOperation) : UpdateOperation :=
  mkOperation (uoIdentity op) (uoState op) (uoBackupRef op) n (uoReasonCode op) (uoRevision op) (uoRestoredUntrusted op) (uoRollbackAvailable op)
    (uoCleanupPending op) (uoCleanupReason op) (uoUpdatedAt op).

Definition progress (op : UpdateOperation) (bytes : Z) (s : Store) : result updError Store :=
  if bytes <=? 0 then Err (ErrOther "update progress increment is invalid")
  else match fenced op (uoRevision op) StateDownloading s with
       | None => Err ErrRevisionMismatch
       | Some row =>
           if negb (uoBytesCompleted row <? uiBytesTotal (uoIdentity row)) then Err ErrRevisionMismatch
           else Ok (put (set_bytes (Z.min (uiBytesTotal (uoIdentity row)) (uoBytesCompleted row + bytes)) row) s)
       end.
End Writes.

(** ** Retention *)
Definition updateOperationLogicalBytes (op : UpdateOperation) : Z :=
  let i := uoIdentity op in
  slen (uiOperationID i) + slen (uiIdempotencyKey i) + slen (uoState op) + slen (uiChannel i) + slen (uiReleaseID i) + slen (uiVersion i)
  + slen (uiManifestDigest i) + slen (uiArtifactSetDigest i) + slen (uiPlatform i) + slen (uiArch i) + slen (uiBinaryProfile i)
  + slen (uiDeploymentRevision i) + slen (uiBrokerCapability i) + slen (uiMigrationSetDigest i) + slen (uoBackupRef op) + slen (uoReasonCode op)
  + slen (uoCleanupReason op) + 128.

Definition updateJournalLogicalBytes (j : UpdateJournal) : Z :=
  slen (ujOperationID j) + slen (ujState j) + slen (ujEvent j) + slen (ujReasonCode j) + slen (ujSemanticHash j) + 64.

(** [db.Order("updated_at DESC, operation_id DESC").Find(&operations)] *)
Definition allOperations (s : Store) : list UpdateOperation := merge_sort latest_first (rows s).

Definition allReleases (s : Store) : list UpdateReleaseState := (map_to_list (stReleases s)).*2.

(** [latestApplied[operation.Channel]]: the first applied row of each channel. *)
Fixpoint latestApplied (ops : list UpdateOperation) (acc : gmap string string) : gmap string string :=
  match ops with
  | [] => acc
  | op :: ops' =>
      latestApplied ops' (if String.eqb (uoState op) StateApplied && String.eqb (default "" (acc !! opChannel op)) ""
                          then <[opChannel op := opID op]> acc else acc)
  end.

Definition must_keep (op : UpdateOperation) : bool := active_row op || uoRestoredUntrusted op || uoCleanupPending op.

Definition current_release (releases : list UpdateReleaseState) (op : UpdateOperation) : bool :=
  existsb (fun r => String.eqb (opChannel op) (rsChannel r) && (opSequence op =? rsLastAppliedSequence r)
                    && String.eqb (opManifest op) (rsManifestDigest r) && (0 <? rsLastAppliedSequence r)) releases.

Definition keep_ids (ops : list UpdateOperation) (releases : list UpdateReleaseState) : gset string :=
  list_to_set (opID <$> List.filter (fun op => must_keep op || current_release releases op) ops)
  ∪ list_to_set (map_to_list (latestApplied ops ∅)).*2.

Definition removable (keep : gset string) (op : UpdateOperation) : bool := negb (bool_decide (opID op ∈ keep)) && terminal (uoState op).

(** The loop over the removable rows, oldest first: [n] rows and [bytes] bytes are left. *)
Fixpoint prune_loop {A} (size : A -> Z) (expired : A -> bool) (spare : A -> bool) (maxCount : Z) (items : list A) (n bytes : Z) : list A :=
  match items with
  | [] => []
  | x :: items' =>
      if spare x then prune_loop size expired spare maxCount items' n bytes
      else if (n <=? maxCount) && negb (expired x) && (bytes <=? updateHistoryLogicalBytes) then prune_loop size expired spare maxCount items' n bytes
      else x :: prune_loop size expired spare maxCount items' (n - 1) (bytes - size x)
  end.

Definition total {A} (size : A -> Z) (l : list A) : Z := foldr (fun x acc => size x + acc) 0 l.

(** [now.Sub(time.Unix(t, 0)) > updateTerminalHistoryAge]; [now] is in nanoseconds since the Unix epoch. *)
Definition too_old (now t : Z) : bool := updateTerminalHistoryAge <? time_sub now (t * second).

Definition removals (ops : list UpdateOperation) (keep : gset string) (now : Z) : list UpdateOperation :=
  let terminal := List.filter (removable keep) ops in
  prune_loop updateOperationLogicalBytes (fun op => too_old now (uoUpdatedAt op)) (fun _ => false) updateTerminalHistoryCount
    (rev terminal) (Z.of_nat (length terminal)) (total updateOperationLogicalBytes terminal).

Definition removeOperations (ids : gset string) (s : Store) : Store :=
  mkStore (filter (fun kv => kv.1 ∉ ids) (stOperations s)) (stReleases s)
    (List.filter (fun j => negb (bool_decide (ujOperationID j ∈ ids))) (stJournal s)) (stNext s).

(** [journals] in ascending sequence, as the loop visits them. *)
Definition journal_removals (keep : gset string) (journals : list UpdateJournal) (now : Z) : list UpdateJournal :=
  prune_loop updateJournalLogicalBytes (fun j => too_old now (ujCreatedAt j)) (fun j => bool_decide (ujOperationID j ∈ keep)) updateTerminalJournalCount
    journals (Z.of_nat (length journals)) (total updateJournalLogicalBytes journals).

Definition deleteJournals (sequences : list Z) (s : Store) : Store :=
  set_journal (List.filter (fun j => negb (bool_decide (ujSequence j ∈ sequences))) (stJournal s)) s.

(** ** Export
    What [copyBackupTable] writes into a backup: no authority survives a restore. *)
Definition exportRelease (row : UpdateReleaseState) : UpdateReleaseState :=
  mkRelease (rsChannel row) (rsLastObservedSequence row) 0 (rsLastAppliedSequence row) (rsReleaseID row) "" (rsVersion row) "" (rsExpiresAt row) (rsUpdatedAt row).

Definition exportOperation (op : UpdateOperation) : UpdateOperation :=
  mkOperation (uoIdentity op) (uoState op) (uoBackupRef op) (uoBytesCompleted op) (uoReasonCode op) (uoRevision op) true (uoRollbackAvailable op)
    (uoCleanupPending op) (uoCleanupReason op) (uoUpdatedAt op).

Definition exportStore (s : Store) : Store :=
  mkStore (exportOperation <$> stOperations s) (exportRelease <$> stReleases s) (stJournal s) (stNext s).
