(* ===== verification/UpdateProvider.v ===== *)
(** * Update lifecycle: actions and providers

    [updateE] are the atomic actions of the update lifecycle: one statement or
    transaction of the database ([Read], [Commit]), an access to the memory of the
    process ([Local]), a request to the privileged broker ([Observe], [Mutate]), and
    questions to the rest of the panel and to the host, whose answers are arbitrary.

    The providers ([broker_provider.go], [provider_broker_maintenance.go] and the three
    that refuse everything) are programs over them.  Writing the cache directory, backing
    up, rehearsing and restoring the database are single actions.  The broker's client is
    never nil.  [CacheExists] answers whether the cache directory can be listed. *)

From S2P Require Import Prelude GoStrings VersionPolicy Programs ReleaseManifest UpdateStore.

Open Scope string_scope.
Open Scope list_scope.
Open Scope Z_scope.

(** ** Messages of the update broker ([internal/ops/updatebroker]) *)
Definition ProviderRevision : string := "85d11d88c95e16abb9532bd7fbc934c37a89e46c96c7ea2a723cd8a514012984".
Definition MaxChunkBytes : Z := 384 * 2 ^ 10.
Definition ProviderMaintenanceRevision : string := "update-broker-maintenance-1.2".
Definition activationHealthDeadline : Z := 5 * minute.

Record ReleaseIdentityV1 := mkReleaseIdentity {
  riReleaseID : string; riSequence : Z; riVersion : string; riManifestDigest : string; riArtifactSetDigest : string; riBinaryProfile : string;
  riDeploymentRevision : string; riMigrationSetDigest : string; riRestartClass : string; riRollbackClass : string;
  riArtifacts : list Artifact; riCoreProvider : CoreProviderSource
}.

Record ProviderMaintenanceV1 := mkProviderMaintenance {
  pmConfigurationDigest : string; pmConfigurationBytes : Z; pmConfigurationRevision : string; pmBackupRef : string; pmPreviousMaintenance : bool;
  pmPreviousProvider : CoreProviderSource; pmPreviousExecutableDigest : string; pmPreviousPanelVersion : string; pmPreviousCapabilityRevision : string;
  pmRuntimeGeneration : string
}.

Record ProviderHealthV1 := mkProviderHealth {
  phConfigurationDigest : string; phConfigurationRevision : string; phMaintenance : bool; phRuntimeState : string; phRuntimeGeneration : string;
  phCapabilityRevision : string
}.

Record ProviderMaintenanceObservationV1 := mkMaintenanceObservation {
  moOperationID : string; moManifestDigest : string; moArtifactSetDigest : string; moTargetSequence : Z; moTargetProvider : CoreProviderSource;
  moTargetPanelVersion : string; moInput : ProviderMaintenanceV1; moPhase : string; moExecutableDigest : string; moCapabilityRevision : string;
  moValid : bool   (** [ValidateProviderMaintenanceObservation] accepts the message *)
}.

Record LocalGenerationCheckpointV1 := mkLocalCheckpoint { lcKind : string; lcDigest : string }.

Record ObservationV1 := mkObservation {
  obProviderRevision : string; obProviderMaintenanceRevision : string; obProviderMaintenance : option ProviderMaintenanceObservationV1;
  obActiveSequence : Z; obVerifiedSequence : Z; obActiveDigest : string; obVerifiedDigest : string;
  obRollbackAvailable : bool; obRollbackOperationID : string; obRollbackManifestDigest : string; obRollbackRef : string;
  obRollbackTargetSequence : Z; obRollbackTargetDigest : string; obRollbackTargetLocalCheckpoint : LocalGenerationCheckpointV1;
  obPreparedRollbackAvailable : bool; obPreparedRollbackOperationID : string; obPreparedRollbackManifestDigest : string; obPreparedRollbackRef : string;
  obManagementReady : bool
}.

Record StageChunkRequestV1 := mkStageRequest {
  scRelease : ReleaseIdentityV1; scArtifact : option Artifact; scOffset : Z; scChunk : string; scFinal : bool; scConfiguration : option ProviderMaintenanceV1
}.
Record StageChunkResultV1 := mkStageResult { srProviderRevision : string; srAcceptedBytes : Z; srComplete : bool; srArtifactDigest : string; srConfigurationDigest : string }.
Record ReleaseStagingResultV1 := mkReleaseStaging { rtProviderRevision : string; rtReleased : bool }.
Record PrepareRequestV1 := mkPrepareRequest {
  prRelease : ReleaseIdentityV1; prExpectedBrokerCapability : string; prExpectedManagementRevision : string; prMaintenance : option ProviderMaintenanceV1;
  prValidateConfiguration : bool; prMaintenanceHeld : bool
}.
Record PrepareResultV1 := mkPrepareResult {
  psProviderRevision : string; psPreparedRef : string; psRollbackRef : string; psRollbackAvailable : bool; psManagementReady : bool;
  psConfigurationVerified : bool; psConfigurationRevision : string
}.
Record ActivateRequestV1 := mkActivateRequest {
  arRelease : ReleaseIdentityV1; arPreparedRef : string; arRollbackRef : string; arExpectedMode : string; arConfigurationDigest : string;
  arConfigurationRevision : string; arMaintenanceHeld : bool
}.
Record ActivateResultV1 := mkActivateResult { asProviderRevision : string; asActiveSequence : Z; asActiveDigest : string; asRestartRequired : bool }.
Record VerifyRequestV1 := mkVerifyRequest {
  vqRelease : ReleaseIdentityV1; vqPreparedRef : string; vqRollbackRef : string; vqProviderHealth : option ProviderHealthV1; vqRollback : bool
}.
Record VerifyResultV1 := mkVerifyResult {
  vsProviderRevision : string; vsVerified : bool; vsVerifiedSequence : Z; vsVerifiedDigest : string; vsManagementReady : bool; vsHealthRevision : string
}.
Record RollbackRequestV1 := mkRollbackRequest { rqRelease : ReleaseIdentityV1; rqRollbackRef : string; rqReasonCode : string }.
Record RollbackResultV1 := mkRollbackResult {
  rrProviderRevision : string; rrRolledBack : bool; rrActiveSequence : Z; rrActiveDigest : string; rrManagementReady : bool
}.

(** The mutating verbs, with their requests and the type of their results. *)
Inductive mutation : Type -> Type :=
| VerbUpdateStage (request : StageChunkRequestV1) : mutation StageChunkResultV1
| VerbUpdateRelease (manifestDigest : string) : mutation ReleaseStagingResultV1
| VerbUpdatePrepare (request : PrepareRequestV1) : mutation PrepareResultV1
| VerbUpdateActivate (request : ActivateRequestV1) : mutation ActivateResultV1
| VerbUpdateVerify (request : VerifyRequestV1) : mutation VerifyResultV1
| VerbUpdateRollback (request : RollbackRequestV1) : mutation RollbackResultV1.

(** ** The panel around the lifecycle *)
Record Capabilities := mkCapabilitiesView { cvValid : bool; cvRevision : string; cvSource : CoreProviderSource }.

Record CoreConfigurationSnapshot := mkSnapshot {
  snConfiguration : string; snConfigurationDigest : string; snConfigurationRevision : string; snMaintenance : bool; snRuntimeGeneration : string;
  snRuntimeState : string; snCapabilityRevision : string; snCapabilities : Capabilities
}.

Record HealthResult := mkHealth { hrReady : bool; hrReasonCodes : list string; hrRevision : string }.

(** [coreprovider.Identity]; [ciVerified] is [SourceIdentityVerified]. *)
Record CoreIdentity := mkCoreIdentity { ciVerified : bool; ciSource : CoreProviderSource; ciRevision : string }.

(** The memory of the process: [m.maintenance != nil], [p.restorePending] and [p.providerMaintenanceOperation]. *)
Record procMemory := mkMemory { pcMaintenance : bool; pcRestorePending : bool; pcProviderOperation : string }.

Definition freshMemory : procMemory := mkMemory false false "".

Inductive updateE : Type -> Type :=
| Read {A} (query : Store -> result updError A) : updateE (result updError A)
| Commit {A} (tx : Store -> result updError (Store * A)) : updateE (result updError A)
| Local {A} (f : procMemory -> procMemory * A) : updateE A
| Now : updateE Z
| Observe (operationID : string) : updateE (result updError ObservationV1)
| Mutate {A} (call : mutation A) (op : UpdateOperation) (ordinal : Z) : updateE (result updError A)
| FetchEnvelope (channel : string) : updateE (result updError string)
| InstalledComponents : updateE (result updError (list string))
| MakeRoot (op : UpdateOperation) : updateE (result updError unit)
| FetchArtifact (op : UpdateOperation) (artifact : Artifact) : updateE (result updError Z)
| ReadArtifact (op : UpdateOperation) (artifact : Artifact) : updateE (list string * option updError)
| PublishBackup (op : UpdateOperation) : updateE (result updError string)
| OpenBackup (op : UpdateOperation) : updateE (result updError unit)
| RestoreDatabase (op : UpdateOperation) : updateE (result updError unit)
| CompletePendingRestore : updateE (result updError unit)
| AbortPendingRestore : updateE (result updError unit)
| CacheExists : updateE (result updError bool)
| CleanCache (keep : string) : updateE (result updError unit)
| CaptureProviderConfiguration : updateE (result updError CoreConfigurationSnapshot)
| SetCoreMaintenance (generation : string) (held : bool) : updateE (result updError unit)
| BeginMaintenance : updateE (result updError unit)
| MaintenanceActive : updateE bool
| EndMaintenance : updateE unit
| Health (op : UpdateOperation) : updateE HealthResult
| Admit : updateE bool
| PlatformReady : updateE bool
| CoreProvider : updateE CoreIdentity
| RunningPanelDigest : updateE (result updError string)
| GlobalBlocker : updateE (result updError string)
| Authorize : updateE (result updError unit).

Abbreviation prog := (prog updateE).

(** What does not change while the process runs. *)
Inductive ProviderKind := UnavailableProvider | PackageManagedProvider | OperatorManagedProvider | BrokerProvider.

Record Config := mkConfig {
  cfProvider : ProviderKind;
  cfLinux : bool;                (** [runtime.GOOS == "linux"] *)
  cfConfiguration : bool;        (** a configuration owner is set *)
  cfHealth : bool;               (** a health check is set *)
  cfAdmit : bool;                (** an admission check is set *)
  cfCoreProvider : bool;         (** a core provider identity is set *)
  cfBeginMaintenance : bool;     (** database maintenance can begin *)
  cfVersion : string;            (** [configidentity.GetVersion()] *)
  cfCoreSchema : string;         (** [schema.CurrentCoreVersion] *)
  cfBrokerCapability : string;   (** [broker.CapabilityRevision] *)
  cfDefaultProvider : string;    (** [coreprovider.DefaultID()] *)
  cfPlatform : string; cfArch : string; cfProfile : string;
  cfTrust : TrustStore;
  cfSources : gmap string string; (** the expected provenance of the source of each channel *)
  cfCacheRoot : bool             (** the cache root is named [update-cache] *)
}.

(** [x, err := p], with the error ignored. *)
Definition ignore {A} (p : prog (result updError A)) : prog unit := _ ← p; Ret tt.

(** The error of a result, if any. *)
Definition err_of {A} (r : result updError A) : option updError := match r with Ok _ => None | Err e => Some e end.

Definition from_release {A} (r : result string A) : result updError A := match r with Ok a => Ok a | Err m => Err (ErrOther m) end.

Section Provider.
Context `{ReleaseCodec} (cfg : Config).

(** [SemanticReference] *)
Definition SemanticReference (kind operationID manifestDigest : string) : string := sha256hex (kind +:+ nul +:+ operationID +:+ nul +:+ manifestDigest).

Definition updateRef (op : UpdateOperation) (kind : string) : string := SemanticReference kind (opID op) (opManifest op).

(** [release.ValidateArtifact] of the broker's messages *)
Definition safe_id_char (c : Ascii.ascii) : bool := is_alnum c || char_in c "._:@+-".
Definition safeIDPattern (s : string) : bool := headed is_alnum safe_id_char 127 s.

Definition ValidateArtifact (a : Artifact) : bool :=
  artifactName (afName a) && safeIDPattern (afRole a) && safeIDPattern (afPlatform a) && safeIDPattern (afArch a)
  && negb (String.eqb (afMediaType a) "") && (slen (afMediaType a) <=? 96) && (0 <? afSize a) && (afSize a <=? 2 ^ 30)
  && digest (afSHA256 a) && safeIDPattern (afProvenance a)
  && (String.eqb (afCoreProvider a) "" || String.eqb (afCoreProvider a) "sing-box" || String.eqb (afCoreProvider a) "shtorm-extended").

#[global] Instance source_eq_dec : EqDecision CoreProviderSource.
Proof. solve_decision. Defined.

Definition ValidateRelease (value : ReleaseIdentityV1) : bool :=
  safeIDPattern (riReleaseID value) && negb (riSequence value =? 0) && version (riVersion value) && digest (riManifestDigest value)
  && digest (riArtifactSetDigest value) && digest (riDeploymentRevision value) && digest (riMigrationSetDigest value)
  && (String.eqb (riRestartClass value) "panel" || String.eqb (riRestartClass value) "stack")
  && (String.eqb (riRollbackClass value) "automatic" || String.eqb (riRollbackClass value) "manual-recovery")
  && (String.eqb (riBinaryProfile value) "full" || String.eqb (riBinaryProfile value) "core")
  && Nat.leb (length (riArtifacts value)) 1
  && (bool_decide (riCoreProvider value = noSource) || match ValidateCoreProviderSource base64Length (riCoreProvider value) with Ok _ => true | Err _ => false end)
  && forallb (fun a => ValidateArtifact a && String.eqb (afRole a) ("panel-" +:+ riBinaryProfile value) && String.eqb (afCoreProvider a) (csID (riCoreProvider value))) (riArtifacts value)
  && (Nat.eqb (length (riArtifacts value)) 0 || String.eqb (ArtifactSetDigest (riArtifacts value)) (riArtifactSetDigest value)).

Definition releaseIdentityFromOperation (op : UpdateOperation) : ReleaseIdentityV1 :=
  let i := uoIdentity op in
  mkReleaseIdentity (uiReleaseID i) (uiSequence i) (uiVersion i) (uiManifestDigest i) (uiArtifactSetDigest i) (uiBinaryProfile i) (uiDeploymentRevision i)
    (uiMigrationSetDigest i) (uiRestartClass i) (uiRollbackClass i) [] noSource.

(** The artifact is the panel of the operation. *)
Definition trusted_panel (op : UpdateOperation) (trusted : ArtifactIdentity) : bool :=
  String.eqb (aiOwner trusted) "panel" && String.eqb (aiVersion trusted) (uiVersion (uoIdentity op)) && String.eqb (aiPlatform trusted) (uiPlatform (uoIdentity op))
  && String.eqb (aiArch trusted) (uiArch (uoIdentity op)) && String.eqb (aiKind trusted) ("panel-" +:+ uiBinaryProfile (uoIdentity op)).

Definition releaseIdentity (op : UpdateOperation) (verified : Verified) (artifacts : list Artifact) : result updError ReleaseIdentityV1 :=
  match artifacts with
  | [a] =>
      if negb (String.eqb (vfDigest verified) (opManifest op)) || negb (String.eqb (ArtifactSetDigest artifacts) (uiArtifactSetDigest (uoIdentity op)))
      then Err (ErrOther "update release trust binding rejected")
      else match ArtifactIdentityOf verified a with
      | Err _ => Err (ErrOther "update artifact trust binding rejected")
      | Ok trusted =>
          if negb (trusted_panel op trusted) then Err (ErrOther "update artifact trust binding rejected")
          else
            let base := releaseIdentityFromOperation op in
            let value := mkReleaseIdentity (riReleaseID base) (riSequence base) (riVersion base) (riManifestDigest base) (riArtifactSetDigest base)
                           (riBinaryProfile base) (riDeploymentRevision base) (riMigrationSetDigest base) (riRestartClass base) (riRollbackClass base)
                           [a] (aiCoreProvider trusted) in
            if negb (ValidateRelease value) then Err (ErrOther "update release projection is invalid") else Ok value
      end
  | _ => Err (ErrOther "update release trust binding rejected")
  end.

(** ** Requests to the broker *)
Definition mutate {A} (call : mutation A) (op : UpdateOperation) (ordinal : Z) : prog (result updError A) :=
  if negb (safeID (opID op) 96) || (uoRevision op =? 0) || negb (validDigest (opManifest op)) then fail ErrProviderUnavailable
  else act (Mutate call op ordinal).

Definition observeLiveRollback (op : UpdateOperation) : prog (result updError ObservationV1) :=
  if negb (cfLinux cfg) then fail ErrProviderUnavailable
  else
    r ← act (Observe (opID op));
    match r with Ok o => Ret (Ok o) | Err _ => fail ErrProviderUnavailable end.

Definition ValidRollbackTarget (sequence : Z) (dg : string) (local : LocalGenerationCheckpointV1) : bool :=
  if negb (String.eqb (lcKind local) "" && String.eqb (lcDigest local) "")
  then (sequence =? 0) && String.eqb dg "" && String.eqb (lcKind local) "installer-root-owned/v1" && digest (lcDigest local)
  else (0 <? sequence) && digest dg.

Definition liveRollbackOperation (o : ObservationV1) : result updError string :=
  if negb (String.eqb (obProviderRevision o) ProviderRevision) || negb (obManagementReady o) then Err ErrRecoveryRequired
  else if negb (obRollbackAvailable o) then Ok ""
  else if negb (safeID (obRollbackOperationID o) 96) || negb (HasPrefix (obRollbackOperationID o) "update-operation:")
          || negb (validDigest (obRollbackManifestDigest o))
          || negb (ValidRollbackTarget (obRollbackTargetSequence o) (obRollbackTargetDigest o) (obRollbackTargetLocalCheckpoint o))
          || negb (String.eqb (obRollbackRef o) (SemanticReference "rollback" (obRollbackOperationID o) (obRollbackManifestDigest o)))
  then Err ErrRecoveryRequired
  else Ok (obRollbackOperationID o).

(** ** Provider maintenance *)
Definition requireProviderMaintenance (op : UpdateOperation) : prog unit :=
  act (Local (fun s => (mkMemory (pcMaintenance s) (pcRestorePending s) (opID op), tt))).

Definition providerMaintenanceFor (op : UpdateOperation) : prog bool :=
  act (Local (fun s => (s, negb (String.eqb (pcProviderOperation s) "") && String.eqb (pcProviderOperation s) (opID op)))).

Definition providerProofMatchesOperation (op : UpdateOperation) (o : ObservationV1) : bool :=
  String.eqb (obProviderRevision o) ProviderRevision && String.eqb (obProviderMaintenanceRevision o) ProviderMaintenanceRevision && obManagementReady o
  && match obProviderMaintenance o with
     | None => false
     | Some proof =>
         moValid proof && String.eqb (moOperationID proof) (opID op) && String.eqb (moManifestDigest proof) (opManifest op)
         && String.eqb (moArtifactSetDigest proof) (uiArtifactSetDigest (uoIdentity op)) && (moTargetSequence proof =? opSequence op)
         && String.eqb (moTargetPanelVersion proof) (uiVersion (uoIdentity op)) && String.eqb (pmBackupRef (moInput proof)) (uoBackupRef op)
     end.

Definition providerProof (op : UpdateOperation) : prog (result updError (option ProviderMaintenanceObservationV1)) :=
  let?? observed := observeLiveRollback op in
  match obProviderMaintenance observed with
  | None => Ret (Ok None)
  | Some proof =>
      held ← providerMaintenanceFor op;
      if negb (String.eqb (moOperationID proof) (opID op)) && negb held then Ret (Ok None)
      else if negb (providerProofMatchesOperation op observed) then fail ErrRecoveryRequired
      else _ ← requireProviderMaintenance op; Ret (Ok (Some proof))
  end.

Definition providerCheckpoint (op : UpdateOperation) : prog (result updError bool) :=
  let?? proof := providerProof op in Ret (Ok (match proof with Some _ => true | None => false end)).

(** [(pending, err)] *)
Definition pendingProviderMaintenance : prog (bool * option updError) :=
  r ← (if negb (cfLinux cfg) then fail ErrProviderUnavailable else act (Observe "update-provider-startup"));
  match r with
  | Err _ => Ret (false, Some ErrProviderUnavailable)
  | Ok o =>
      match obProviderMaintenance o with
      | None => Ret (false, None)
      | Some proof =>
          if negb (String.eqb (obProviderRevision o) ProviderRevision) || negb (String.eqb (obProviderMaintenanceRevision o) ProviderMaintenanceRevision)
             || negb (obManagementReady o) || negb (moValid proof) then Ret (true, Some ErrRecoveryRequired)
          else Ret (negb (String.eqb (moPhase proof) "COMMITTED") && negb (String.eqb (moPhase proof) "ROLLBACK_VERIFIED"), None)
      end
  end.

Record ProviderTransitionRequest := mkTransition {
  ptChannel : string; ptTargetProvider : string; ptExpectedSequence : Z; ptExpectedManifestDigest : string; ptExpectedArtifactSetDigest : string;
  ptExpectedConfigurationRevision : string; ptExpectedProviderRevision : string; ptIdempotencyKey : string; ptAcknowledged : bool
}.

Definition AdmitProviderRequest (op : UpdateOperation) (request : ProviderTransitionRequest) : prog (result updError unit) :=
  r ← providerProof op;
  match r with
  | Ok (Some proof) =>
      if negb (String.eqb (csID (moTargetProvider proof)) (ptTargetProvider request)) || negb (String.eqb (moArtifactSetDigest proof) (ptExpectedArtifactSetDigest request))
         || negb (String.eqb (pmConfigurationRevision (moInput proof)) (ptExpectedConfigurationRevision request)) then fail ErrReleaseChanged
      else Ret (Ok tt)
  | _ => fail ErrReleaseChanged
  end.

Definition same_configuration (s : CoreConfigurationSnapshot) (input : ProviderMaintenanceV1) : bool :=
  String.eqb (snConfigurationRevision s) (pmConfigurationRevision input) && String.eqb (snConfigurationDigest s) (pmConfigurationDigest input).

Definition AdmitProviderRollback (op : UpdateOperation) : prog (result updError unit) :=
  r ← providerProof op;
  match r with
  | Ok (Some proof) =>
      if negb (cfConfiguration cfg) || negb (String.eqb (moTargetPanelVersion proof) (pmPreviousPanelVersion (moInput proof))) then fail ErrCoreProviderMaintenance
      else
        c ← act CaptureProviderConfiguration;
        match c with
        | Err _ => fail ErrReleaseChanged
        | Ok snapshot => if negb (same_configuration snapshot (moInput proof)) then fail ErrReleaseChanged else Ret (Ok tt)
        end
  | _ => fail ErrCoreProviderMaintenance
  end.

Definition providerPreparedResult (op : UpdateOperation) (r : PrepareResultV1) (validated : bool) : bool :=
  String.eqb (psProviderRevision r) ProviderRevision && psManagementReady r && psRollbackAvailable r && String.eqb (psPreparedRef r) (updateRef op "prepared")
  && String.eqb (psRollbackRef r) (updateRef op "rollback") && Bool.eqb (psConfigurationVerified r) validated.

(** The configuration in chunks of at most [MaxChunkBytes]. *)
Fixpoint chunks (fuel : nat) (s : string) : list string :=
  match fuel with
  | O => []
  | S fuel' => if String.eqb s "" then [] else String.substring 0 (Z.to_nat MaxChunkBytes) s :: chunks fuel' (drop_chars (Z.to_nat MaxChunkBytes) s)
  end.

Fixpoint stageConfiguration (identity : ReleaseIdentityV1) (input : ProviderMaintenanceV1) (op : UpdateOperation) (size : Z) (parts : list string) (offset index : Z)
    : prog (result updError unit) :=
  match parts with
  | [] => Ret (Ok tt)
  | part :: parts' =>
      let end_ := offset + slen part in
      let final := end_ =? size in
      let?? r := mutate (VerbUpdateStage (mkStageRequest identity None offset part final (Some input))) op (810001 + index) in
      if negb (String.eqb (srProviderRevision r) ProviderRevision) || negb (srAcceptedBytes r =? end_) || negb (Bool.eqb (srComplete r) final)
         || negb (String.eqb (srArtifactDigest r) "") || (final && negb (String.eqb (srConfigurationDigest r) (pmConfigurationDigest input)))
      then fail ErrRevisionMismatch
      else stageConfiguration identity input op size parts' end_ (index + 1)
  end.

Record PreflightResult := mkPreflight { pfRollbackAvailable : bool; pfBackupRef : string }.

Definition validRuntimeGeneration (value : string) : bool := String.eqb value "" || ((slen value <=? 96) && safeIDPattern value).
Definition MaxConfigBytes : Z := 8 * 2 ^ 20.

Definition ValidateProviderMaintenance (v : ProviderMaintenanceV1) : bool :=
  digest (pmConfigurationDigest v) && (0 <? pmConfigurationBytes v) && (pmConfigurationBytes v <=? MaxConfigBytes) && digest (pmConfigurationRevision v)
  && digest (pmBackupRef v) && digest (pmPreviousExecutableDigest v) && digest (pmPreviousCapabilityRevision v) && version (pmPreviousPanelVersion v)
  && match ValidateCoreProviderSource base64Length (pmPreviousProvider v) with Ok _ => true | Err _ => false end && validRuntimeGeneration (pmRuntimeGeneration v).

(** What follows the durable checkpoint: the broker is told, the core is held, the
    configuration is staged and validated. *)
Definition preflightCheckpointed (identity : ReleaseIdentityV1) (snapshot : CoreConfigurationSnapshot) (backup executable : string) (op : UpdateOperation)
    : prog (result updError PreflightResult) :=
  let input := mkProviderMaintenance (snConfigurationDigest snapshot) (slen (snConfiguration snapshot)) (snConfigurationRevision snapshot) backup
                 (snMaintenance snapshot) (cvSource (snCapabilities snapshot)) executable (cfVersion cfg) (snCapabilityRevision snapshot)
                 (snRuntimeGeneration snapshot) in
  if negb (ValidateProviderMaintenance input) then fail ErrCoreProviderMaintenance
  else
    _ ← requireProviderMaintenance op;
    let request held := mkPrepareRequest identity (uiBrokerCapability (uoIdentity op)) (uiDeploymentRevision (uoIdentity op)) (Some input) held held in
    let?? prepared := mutate (VerbUpdatePrepare (request false)) op 800001 in
    if negb (providerPreparedResult op prepared false) then fail ErrRecoveryRequired
    else
      let?? _ := act (SetCoreMaintenance (snRuntimeGeneration snapshot) true) in
      let?? _ := stageConfiguration identity input op (slen (snConfiguration snapshot))
                   (chunks (String.length (snConfiguration snapshot)) (snConfiguration snapshot)) 0 0 in
      let?? prepared := mutate (VerbUpdatePrepare (request true)) op 820001 in
      if negb (providerPreparedResult op prepared true) || negb (String.eqb (psConfigurationRevision prepared) (snConfigurationRevision snapshot))
      then fail ErrRecoveryRequired
      else
        proof ← providerProof op;
        match proof with
        | Ok (Some p) => if String.eqb (moPhase p) "VALIDATED" then Ret (Ok (mkPreflight true backup)) else fail ErrRecoveryRequired
        | _ => fail ErrRecoveryRequired
        end.

(** The result, and the operation as [persist] left it. *)
Definition PreflightProvider (op : UpdateOperation) (verified : Verified) (artifacts : list Artifact) (snapshot : CoreConfigurationSnapshot)
    (persist : string -> prog (result updError UpdateOperation)) : prog (UpdateOperation * result updError PreflightResult) :=
  if negb (cfConfiguration cfg) || negb (Nat.eqb (length artifacts) 1) then Ret (op, Err ErrProviderUnavailable)
  else match releaseIdentity op verified artifacts with
  | Err _ => Ret (op, Err ErrCoreProviderMaintenance)
  | Ok identity =>
      if bool_decide (riCoreProvider identity = noSource) || negb (String.eqb (riVersion identity) (cfVersion cfg)) then Ret (op, Err ErrCoreProviderMaintenance)
      else
        observed ← observeLiveRollback op;
        match observed with
        | Err _ => Ret (op, Err ErrProviderUnavailable)
        | Ok o =>
            if negb (String.eqb (obProviderMaintenanceRevision o) ProviderMaintenanceRevision) then Ret (op, Err ErrProviderUnavailable)
            else
              running ← act RunningPanelDigest;
              match running with
              | Err _ => Ret (op, Err ErrCoreProviderUnverified)
              | Ok executable =>
                  b ← act (PublishBackup op);
                  match b with
                  | Err e => Ret (op, Err e)
                  | Ok backup =>
                      p ← persist backup;
                      match p with
                      | Err e => Ret (op, Err e)
                      | Ok committed => r ← preflightCheckpointed identity snapshot backup executable committed; Ret (committed, r)
                      end
                  end
              end
        end
  end.

Definition providerSnapshot (proof : ProviderMaintenanceObservationV1) (held : bool) : prog (result updError CoreConfigurationSnapshot) :=
  if negb (cfConfiguration cfg) then fail ErrProviderUnavailable
  else
    c ← act CaptureProviderConfiguration;
    match c with
    | Err _ => fail ErrReleaseChanged
    | Ok s =>
        if negb (same_configuration s (moInput proof)) || negb (Bool.eqb (snMaintenance s) held) || negb (String.eqb (sha256hex (snConfiguration s)) (snConfigurationDigest s))
        then fail ErrReleaseChanged else Ret (Ok s)
    end.

Definition activated (op : UpdateOperation) (r : ActivateResultV1) : bool :=
  String.eqb (asProviderRevision r) ProviderRevision && (asActiveSequence r =? opSequence op) && String.eqb (asActiveDigest r) (opManifest op).

Definition activateProvider (op : UpdateOperation) (proof : ProviderMaintenanceObservationV1) : prog (result updError unit) :=
  if negb (String.eqb (moPhase proof) "VALIDATED") then fail ErrRevisionMismatch
  else
    let?? _ := providerSnapshot proof true in
    let?? r := mutate (VerbUpdateActivate (mkActivateRequest (releaseIdentityFromOperation op) (updateRef op "prepared") (updateRef op "rollback") "native"
                 (pmConfigurationDigest (moInput proof)) (pmConfigurationRevision (moInput proof)) true)) op 800002 in
    if activated op r then Ret (Ok tt) else fail ErrRevisionMismatch.

Definition verifyProvider (op : UpdateOperation) (proof : ProviderMaintenanceObservationV1) (rollback : bool) : prog (result updError bool) :=
  if negb (cfConfiguration cfg) then fail ErrProviderUnavailable
  else
    let input := moInput proof in
    let '(expectedSource, expectedDigest, expectedVersion, expectedCapabilities) :=
      if rollback then (pmPreviousProvider input, pmPreviousExecutableDigest input, pmPreviousPanelVersion input, pmPreviousCapabilityRevision input)
      else (moTargetProvider proof, moExecutableDigest proof, moTargetPanelVersion proof, moCapabilityRevision proof) in
    current ← act CoreProvider;
    if negb (ciVerified current) || negb (bool_decide (ciSource current = expectedSource)) || negb (String.eqb (cfVersion cfg) expectedVersion) then fail ErrRestartPending
    else
      running ← act RunningPanelDigest;
      if match running with Ok d => negb (String.eqb d expectedDigest) | Err _ => true end then fail ErrRestartPending
      else
        c ← act CaptureProviderConfiguration;
        match c with
        | Err _ => fail ErrReleaseChanged
        | Ok snapshot =>
            if negb (same_configuration snapshot input) || negb (String.eqb (snCapabilityRevision snapshot) expectedCapabilities) then fail ErrReleaseChanged
            else
              let?? _ := (if negb (Bool.eqb (snMaintenance snapshot) (pmPreviousMaintenance input)) || (negb (snMaintenance snapshot) && negb (String.eqb (snRuntimeState snapshot) "RUNNING"))
                          then act (SetCoreMaintenance (snRuntimeGeneration snapshot) (pmPreviousMaintenance input)) else Ret (Ok tt)) in
              let?? healthy := providerSnapshot proof (pmPreviousMaintenance input) in
              let health := mkProviderHealth (snConfigurationDigest healthy) (snConfigurationRevision healthy) (snMaintenance healthy) (snRuntimeState healthy)
                              (snRuntimeGeneration healthy) (snCapabilityRevision healthy) in
              let?? r := mutate (VerbUpdateVerify (mkVerifyRequest (releaseIdentityFromOperation op) (updateRef op "prepared") (updateRef op "rollback") (Some health) rollback)) op
                           (if rollback then 800005 else 800003) in
              if negb (vsVerified r) && String.eqb (vsHealthRevision r) "restart-pending" then fail ErrRestartPending
              else if negb (String.eqb (vsProviderRevision r) ProviderRevision) || negb (vsVerified r) || negb (vsManagementReady r) then fail ErrRecoveryRequired
              else if negb rollback && (negb (vsVerifiedSequence r =? opSequence op) || negb (String.eqb (vsVerifiedDigest r) (opManifest op))) then fail ErrRevisionMismatch
              else Ret (Ok true)
        end.

(** The broker rolled the release back and the panel can be managed. *)
Definition rolled_back (r : RollbackResultV1) : bool := String.eqb (rrProviderRevision r) ProviderRevision && rrRolledBack r && rrManagementReady r.

Definition brokerRollback (op : UpdateOperation) : prog (result updError unit) :=
  let?? r := mutate (VerbUpdateRollback (mkRollbackRequest (releaseIdentityFromOperation op) (updateRef op "rollback") (uoReasonCode op))) op 800004 in
  if rolled_back r then Ret (Ok tt) else fail ErrRevisionMismatch.

Definition rollbackProvider (op : UpdateOperation) (proof : ProviderMaintenanceObservationV1) : prog (result updError bool) :=
  if negb (cfConfiguration cfg) then fail ErrProviderUnavailable
  else if negb (String.eqb (moTargetPanelVersion proof) (pmPreviousPanelVersion (moInput proof))) then fail ErrCoreProviderMaintenance
  else if negb (String.eqb (moPhase proof) "ROLLED_BACK") && negb (String.eqb (moPhase proof) "ROLLBACK_VERIFIED") then
    c ← act CaptureProviderConfiguration;
    match c with
    | Err _ => fail ErrReleaseChanged
    | Ok snapshot =>
        if negb (same_configuration snapshot (moInput proof)) then fail ErrReleaseChanged
        else
          let?? _ := act (SetCoreMaintenance (snRuntimeGeneration snapshot) true) in
          let?? _ := brokerRollback op in
          verifyProvider op proof true
    end
  else verifyProvider op proof true.

(** [if p.configuration != nil || p.providerMaintenanceFor(operation)]: the proof of a
    maintenance operation, [None] for an ordinary update. *)
Definition maintenanceProof (op : UpdateOperation) : prog (result updError (option ProviderMaintenanceObservationV1)) :=
  held ← providerMaintenanceFor op;
  if cfConfiguration cfg || held then
    let?? proof := providerProof op in
    match proof with
    | Some p => Ret (Ok (Some p))
    | None => held ← providerMaintenanceFor op; if (held : bool) then fail ErrRecoveryRequired else Ret (Ok None)
    end
  else Ret (Ok None).

(** ** The provider of a self-managed panel *)
Definition artifact_total (artifacts : list Artifact) : result updError Z :=
  foldl (fun acc a => let? total := acc in
           if (afSize a <=? 0) || (MaxReleaseSetBytes - afSize a <? total) then Err (ErrOther "release artifact total exceeds limit") else Ok (total + afSize a))
    (Ok 0) artifacts.

(** The loop that reads the cached file and stages it chunk by chunk. *)
Fixpoint stageChunks (identity : ReleaseIdentityV1) (op : UpdateOperation) (a : Artifact) (parts : list string) (readErr : option updError) (offset : Z)
    : prog (result updError unit) :=
  match parts with
  | [] => match readErr with Some e => fail e | None => Ret (Ok tt) end
  | part :: parts' =>
      if slen part =? 0 then Ret (Ok tt)
      else
        let final := offset + slen part =? afSize a in
        let?? r := mutate (VerbUpdateStage (mkStageRequest identity (Some a) offset part final None)) op (offset / MaxChunkBytes + 1) in
        let offset := offset + slen part in
        if negb (String.eqb (srProviderRevision r) ProviderRevision) || negb (srAcceptedBytes r =? offset) || negb (Bool.eqb (srComplete r) final)
           || (final && negb (String.eqb (srArtifactDigest r) (afSHA256 a))) then fail ErrRevisionMismatch
        else stageChunks identity op a parts' readErr offset
  end.

Definition downloadAndStageArtifact (op : UpdateOperation) (verified : Verified) (a : Artifact) (progress : Z -> prog unit) : prog (result updError unit) :=
  match ArtifactIdentityOf verified a with
  | Err _ => fail (ErrOther "update artifact trust binding rejected")
  | Ok trusted =>
      if negb (String.eqb (aiSourceRevision trusted) (opManifest op)) || negb (trusted_panel op trusted) then fail (ErrOther "update artifact trust binding rejected")
      else match releaseIdentity op verified [a] with
      | Err e => fail e
      | Ok identity =>
          let?? written := act (FetchArtifact op a) in
          _ ← progress written;
          read ← act (ReadArtifact op a);
          stageChunks identity op a (fst read) (snd read) 0
      end
  end.

Fixpoint stageAll (op : UpdateOperation) (verified : Verified) (artifacts : list Artifact) (progress : Z -> prog unit) : prog (result updError unit) :=
  match artifacts with
  | [] => Ret (Ok tt)
  | a :: artifacts' => let?? _ := downloadAndStageArtifact op verified a progress in stageAll op verified artifacts' progress
  end.

Definition brokerDownloadAndStage (op : UpdateOperation) (verified : Verified) (artifacts : list Artifact) (progress : Z -> prog unit) : prog (result updError unit) :=
  if negb (cfLinux cfg) || Nat.eqb (length artifacts) 0 then fail ErrProviderUnavailable
  else match artifact_total artifacts with
  | Err e => fail e
  | Ok _ =>
      let?? _ := act (MakeRoot op) in
      stageAll op verified artifacts progress
  end.

Definition brokerPreflight (op : UpdateOperation) (verified : Verified) (artifacts : list Artifact) : prog (result updError PreflightResult) :=
  if negb (cfLinux cfg) then fail ErrProviderUnavailable
  else match releaseIdentity op verified artifacts with
  | Err e => fail e
  | Ok identity =>
      let?? backupRef := act (PublishBackup op) in
      let?? r := mutate (VerbUpdatePrepare (mkPrepareRequest identity (uiBrokerCapability (uoIdentity op)) (uiDeploymentRevision (uoIdentity op)) None false false)) op 800001 in
      Ret (Ok (mkPreflight (String.eqb (psProviderRevision r) ProviderRevision && psManagementReady r && psRollbackAvailable r
                            && validDigest (psPreparedRef r) && validDigest (psRollbackRef r)) backupRef))
  end.

Definition brokerCleanupTerminal (op : UpdateOperation) : prog (result updError unit) :=
  if negb (cfCacheRoot cfg) || negb (safeID (opID op) 96) then fail (ErrOther "update cache root is invalid")
  else
    let?? _ := (if cfLinux cfg then
                  let?? released := mutate (VerbUpdateRelease (opManifest op)) op 900001 in
                  if negb (String.eqb (rtProviderRevision released) ProviderRevision) || negb (rtReleased released) then fail ErrRevisionMismatch else Ret (Ok tt)
                else Ret (Ok tt)) in
    let?? exists_ := act CacheExists in
    if negb exists_ then Ret (Ok tt)
    else
      let?? o := observeLiveRollback op in
      match liveRollbackOperation o with
      | Err e => fail e
      | Ok keep => act (CleanCache keep)
      end.

Definition brokerActivate (op : UpdateOperation) : prog (result updError unit) :=
  let?? proof := maintenanceProof op in
  match proof with
  | Some p => activateProvider op p
  | None =>
      let?? r := mutate (VerbUpdateActivate (mkActivateRequest (releaseIdentityFromOperation op) (updateRef op "prepared") (updateRef op "rollback") "native" "" "" false)) op 800002 in
      if activated op r then Ret (Ok tt) else fail ErrRevisionMismatch
  end.

Definition brokerVerifyActive (op : UpdateOperation) : prog (result updError bool) :=
  proof ← maintenanceProof op;
  match proof with
  | Err e => held ← providerMaintenanceFor op; fail (if (held : bool) && is_unavailable e then ErrRestartPending else e)
  | Ok (Some p) => verifyProvider op p false
  | Ok None =>
      r ← mutate (VerbUpdateVerify (mkVerifyRequest (releaseIdentityFromOperation op) (updateRef op "prepared") (updateRef op "rollback") None false)) op 800003;
      match r with
      | Err e => fail (if is_unavailable e then ErrRestartPending else e)
      | Ok r =>
          if negb (vsVerified r) && String.eqb (vsHealthRevision r) "restart-pending" then fail ErrRestartPending
          else Ret (Ok (String.eqb (vsProviderRevision r) ProviderRevision && vsVerified r && vsManagementReady r
                        && (vsVerifiedSequence r =? opSequence op) && String.eqb (vsVerifiedDigest r) (opManifest op)))
      end
  end.

Definition set_pending (b : bool) : prog unit := act (Local (fun s => (mkMemory (pcMaintenance s) b (pcProviderOperation s), tt))).
Definition HasPendingDatabaseRollback : prog bool := act (Local (fun s => (s, pcRestorePending s))).

Definition brokerRollbackDatabase (op : UpdateOperation) : prog (result updError bool) :=
  let?? proof := maintenanceProof op in
  match proof with
  | Some p => rollbackProvider op p
  | None =>
      let?? _ := act (OpenBackup op) in
      let?? _ := brokerRollback op in
      let?? _ := act (RestoreDatabase op) in
      _ ← set_pending true;
      Ret (Ok true)
  end.

Definition CompleteDatabaseRollback : prog (result updError unit) :=
  pending ← HasPendingDatabaseRollback;
  if negb pending then Ret (Ok tt) else let?? _ := act CompletePendingRestore in _ ← set_pending false; Ret (Ok tt).

Definition AbortDatabaseRollback : prog (result updError unit) :=
  pending ← HasPendingDatabaseRollback;
  if negb pending then Ret (Ok tt) else let?? _ := act AbortPendingRestore in _ ← set_pending false; Ret (Ok tt).

Definition reconcileBrokerObservation (op : UpdateOperation) (o : ObservationV1) : State * option updError :=
  let ordinary :=
    if (obVerifiedSequence o =? opSequence op) && String.eqb (obVerifiedDigest o) (opManifest op) && obManagementReady o then (StateApplied, None)
    else if (obActiveSequence o =? opSequence op) && String.eqb (obActiveDigest o) (opManifest op) then (StateVerifyingActive, None)
    else if obPreparedRollbackAvailable o && String.eqb (obPreparedRollbackOperationID o) (opID op) && String.eqb (obPreparedRollbackManifestDigest o) (opManifest op)
            && String.eqb (obPreparedRollbackRef o) (updateRef op "rollback") then (StateRollbackPending, None)
    else (StateRecoveryRequired, Some ErrRecoveryRequired) in
  match obProviderMaintenance o with
  | None => ordinary
  | Some proof =>
      if negb (String.eqb (moOperationID proof) (opID op)) then ordinary
      else if negb (providerProofMatchesOperation op o) then (StateRecoveryRequired, Some ErrRecoveryRequired)
      else if one_of ["CHECKPOINTED"; "VALIDATED"] (moPhase proof) then (StateRollbackPending, None)
      else if one_of ["ACTIVATED"; "COMMITTED"] (moPhase proof) then (StateVerifyingActive, None)
      else if one_of ["ROLLED_BACK"; "ROLLBACK_VERIFIED"] (moPhase proof) then (StateRollingBack, None)
      else (StateRecoveryRequired, Some ErrRecoveryRequired)
  end.

Definition brokerReconcile (op : UpdateOperation) : prog (State * option updError) :=
  r ← act (Observe (opID op));
  held ← providerMaintenanceFor op;
  match r with
  | Ok o =>
      if String.eqb (obProviderRevision o) ProviderRevision then
        if (held : bool) && negb (providerProofMatchesOperation op o) then Ret (StateRecoveryRequired, Some ErrRecoveryRequired) else Ret (reconcileBrokerObservation op o)
      else if (held : bool) && one_of [StateActivating; StateVerifyingActive] (uoState op) then Ret (StateVerifyingActive, None)
      else Ret (StateRecoveryRequired, Some ErrProviderUnavailable)
  | Err _ =>
      if (held : bool) && one_of [StateActivating; StateVerifyingActive] (uoState op) then Ret (StateVerifyingActive, None)
      else Ret (StateRecoveryRequired, Some ErrProviderUnavailable)
  end.

(** ** The interface *)
Definition managed_error (k : ProviderKind) : updError :=
  match k with PackageManagedProvider => ErrPackageManaged | OperatorManagedProvider => ErrOperatorManaged | _ => ErrProviderUnavailable end.

Definition DownloadAndStage (op : UpdateOperation) (verified : Verified) (artifacts : list Artifact) (progress : Z -> prog unit) : prog (result updError unit) :=
  match cfProvider cfg with BrokerProvider => brokerDownloadAndStage op verified artifacts progress | k => fail (managed_error k) end.

Definition Preflight (op : UpdateOperation) (verified : Verified) (artifacts : list Artifact) : prog (result updError PreflightResult) :=
  match cfProvider cfg with BrokerProvider => brokerPreflight op verified artifacts | k => fail (managed_error k) end.

Definition ActivateRelease (op : UpdateOperation) : prog (result updError unit) :=
  match cfProvider cfg with BrokerProvider => brokerActivate op | k => fail (managed_error k) end.

Definition VerifyActive (op : UpdateOperation) : prog (result updError bool) :=
  match cfProvider cfg with BrokerProvider => brokerVerifyActive op | k => fail (managed_error k) end.

Definition RollbackRelease (op : UpdateOperation) : prog (result updError bool) :=
  match cfProvider cfg with BrokerProvider => brokerRollbackDatabase op | k => fail (managed_error k) end.

Definition Reconcile (op : UpdateOperation) : prog (State * option updError) :=
  match cfProvider cfg with BrokerProvider => brokerReconcile op | k => Ret (StateRecoveryRequired, Some (managed_error k)) end.
End Provider.
