(* ===== verification/UpdateLifecycle.v ===== *)
(** * Update lifecycle: the manager ([service/update/lifecycle.go])

    The calls of [LifecycleManager] as programs.  Every call that changes an operation
    holds the manager's mutex from its first action to its last; [Check] does not.  A Go
    pair of an operation and an error is an [outcome].  [noOperation] is the zero value
    that a call returns with an error.

    Not modelled here: the presentation of capabilities, and contexts other than the
    maintenance context, which has no effect of its own. *)

From S2P Require Import Prelude GoStrings VersionPolicy Programs ReleaseManifest UpdateStore UpdateProvider.

Open Scope string_scope.
Open Scope list_scope.
Open Scope Z_scope.

Definition outcome : Type := UpdateOperation * option updError.

Definition noIdentity : UpdateIdentity := mkIdentity "" "" "" 0 "" "" "" "" "" "" "" "" "" "" "" "" "" 0 0.
Definition noOperation : UpdateOperation := mkOperation noIdentity "" "" 0 "" 0 false false false "" 0.

Definition refuse (e : updError) : prog outcome := Ret (noOperation, Some e).

(** A transaction that answers nothing but its error. *)
Definition commit (tx : Store -> result updError Store) : prog (result updError unit) :=
  act (Commit (fun s => let? s' := tx s in Ok (s', tt))).

Record PrepareRequest := mkPrepare {
  rqChannel : string; rqExpectedSequence : Z; rqExpectedManifestDigest : string; rqIdempotencyKey : string; rqAcknowledged : bool
}.

Record RevisionRequest := mkRevision { rvOperationID : string; rvExpectedRevision : Z }.

Definition rollbackAllowedFrom (state : State) : bool :=
  one_of [StatePreflighting; StatePrepared; StateActivating; StateVerifyingActive; StateApplied; StateRollbackPending; StateRollingBack] state.

Definition set_rollback (available : bool) (backup : string) (op : UpdateOperation) : UpdateOperation :=
  mkOperation (uoIdentity op) (uoState op) backup (uoBytesCompleted op) (uoReasonCode op) (uoRevision op) (uoRestoredUntrusted op) available
    (uoCleanupPending op) (uoCleanupReason op) (uoUpdatedAt op).

(** The operation that [advance] writes. *)
Definition moved (state : State) (reason : string) (now : Z) (op : UpdateOperation) : UpdateOperation :=
  mkOperation (uoIdentity op) state (uoBackupRef op) (uoBytesCompleted op) reason (wrapu64 (uoRevision op + 1)) (uoRestoredUntrusted op)
    (uoRollbackAvailable op) (uoCleanupPending op) (uoCleanupReason op) now.

Section Lifecycle.
Context `{ReleaseCodec} `{Digests} (cfg : Config).

(** ** Transitions *)
Definition advance (op : UpdateOperation) (state : State) (event reason : string) : prog outcome :=
  now ← act Now;
  let op' := moved state reason (unix now) op in
  r ← commit (fun s => if String.eqb state StateApplied then completeApplied op' (uoRevision op) (uoState op) event s
                       else update op' (uoRevision op) (uoState op) event s);
  match r with
  | Err e => Ret (op, Some e)
  | Ok _ => Ret (op', None)
  end.

(** [op, err = advance(...); if err != nil { return op, err }; k] *)
Definition step (op : UpdateOperation) (state : State) (event reason : string) (k : UpdateOperation -> prog outcome) : prog outcome :=
  r ← advance op state event reason;
  match r with
  | (op, Some e) => Ret (op, Some e)
  | (op, None) => k op
  end.

(** ** Retention *)
Definition pruneHistory : prog (result updError unit) :=
  let?? operations := act (Read (fun s => Ok (allOperations s))) in
  let?? releases := act (Read (fun s => Ok (allReleases s))) in
  let keep := keep_ids operations releases in
  now ← act Now;
  let remove := removals operations keep now in
  let removed : gset string := list_to_set (opID <$> remove) in
  let?? _ := (if Nat.eqb (length remove) 0 then Ret (Ok tt) else commit (fun s => Ok (removeOperations removed s))) in
  let?? journals := act (Read (fun s => Ok (stJournal s))) in
  now ← act Now;
  let stale := journal_removals (keep ∖ removed) journals now in
  if Nat.eqb (length stale) 0 then Ret (Ok tt) else commit (fun s => Ok (deleteJournals (ujSequence <$> stale) s)).

(** Only the broker's provider cleans up. *)
Definition cleanup_reason (e : updError) : string := match e with ErrOther m => m | _ => "" end.

Definition cleanupTerminal (op : UpdateOperation) : prog (result updError unit) :=
  r ← match cfProvider cfg with BrokerProvider => brokerCleanupTerminal cfg op | _ => Ret (Ok tt) end;
  match r with
  | Err e =>
      now ← act Now;
      debt ← commit (recordCleanupDebt op (cleanup_reason e) (unix now));
      match debt with Err d => fail (ErrJoin e d) | Ok _ => fail e end
  | Ok _ => pruneHistory
  end.

Definition endProviderMaintenance : prog unit :=
  held ← act (Local (fun s => (mkMemory false (pcRestorePending s) (pcProviderOperation s), pcMaintenance s)));
  if (held : bool) then act EndMaintenance else Ret tt.

(** [m.maintenance != nil && m.maintenance.Active()] *)
Definition maintenanceActive : prog bool :=
  held ← act (Local (fun s => (s, pcMaintenance s)));
  if (held : bool) then act MaintenanceActive else Ret false.

(** [m.maintenance, err = m.beginMaintenance(ctx)] *)
Definition beginMaintenance : prog (result updError unit) :=
  if negb (cfBeginMaintenance cfg) then fail ErrRecoveryRequired
  else
    let?? _ := act BeginMaintenance in
    act (Local (fun s => (mkMemory true (pcRestorePending s) (pcProviderOperation s), Ok tt))).

(** ** Failure and rollback *)
Definition failUpdate (op : UpdateOperation) (reason : string) (cause : option updError) : prog outcome :=
  step op StateFailed "update_failed" reason (fun failed =>
    cleanup ← cleanupTerminal failed;
    Ret (failed, joinErrors (Some (default (ErrOther reason) cause)) (err_of cleanup))).

Definition recoveryRequired (op : UpdateOperation) (reason : string) : prog outcome :=
  step op StateRecoveryRequired reason reason (fun recovery => Ret (recovery, Some ErrRecoveryRequired)).

(** The entry into [ROLLING_BACK], or a renewed probe of a rollback under way. *)
Definition enterRollback (op : UpdateOperation) (reason : string) (k : UpdateOperation -> prog outcome) : prog outcome :=
  if negb (String.eqb (uoState op) StateRollingBack) then step op StateRollingBack "update_rollback_started" reason k
  else
    started ← act (Read (phaseStartedAt op StateRollingBack));
    match started with
    | Err e => Ret (op, Some e)
    | Ok started =>
        now ← act Now;
        if (0 <? started) && (activationHealthDeadline <=? time_sub now (started * second)) then recoveryRequired op "update_rollback_runtime_timeout"
        else step op StateRollingBack "update_rollback_runtime_probe" reason k
    end.

(** [rebindRestoredRollback]: the transaction answers the rebound row; a refused or failed
    one answers the row that it had loaded, which a failed one may not have reached. *)
Definition rebind (op : UpdateOperation) (reason : string) : prog (UpdateOperation * option updError) :=
  r ← act (Commit (fun s => match rebindRestoredRollback op reason s with
                            | (Ok s', row) => Ok (s', (default noOperation row, None))
                            | (Err e, row) => Ok (s, (default noOperation row, Some e))
                            end));
  match r with
  | Ok out => Ret out
  | Err e => loaded ← act (Read (operation (opID op))); Ret (match loaded with Ok row => row | Err _ => noOperation end, Some e)
  end.

(** The database was restored: the restored row takes the result of the rollback. *)
Definition completeRestoredRollback (op : UpdateOperation) (reason : string) : prog outcome :=
  r ← rebind op reason;
  match r with
  | (loaded, Some _) =>
      _ ← ignore AbortDatabaseRollback;
      m ← act (Commit (markRollbackRecovery loaded "update_rollback_rebind_failed"));
      match m with
      | Err e => Ret (noOperation, Some e)
      | Ok recovery => Ret (recovery, Some ErrRecoveryRequired)
      end
  | (rebound, None) =>
      c ← CompleteDatabaseRollback;
      match c with
      | Err e => Ret (rebound, Some e)
      | Ok _ => cleanup ← cleanupTerminal rebound; Ret (rebound, err_of cleanup)
      end
  end.

Definition finishRollback (op : UpdateOperation) (reason : string) : prog outcome :=
  r ← advance (set_rollback false (uoBackupRef op) op) StateRolledBack "update_rolled_back" reason;
  let '(rolledBack, err) := r in
  err ← match err with None => cleanup ← cleanupTerminal rolledBack; Ret (err_of cleanup) | Some e => Ret (Some e) end;
  _ ← (if String.eqb (uoState rolledBack) StateRolledBack then endProviderMaintenance else Ret tt);
  Ret (rolledBack, err).

Definition performRollback (op : UpdateOperation) (reason : string) : prog outcome :=
  if negb (rollbackAllowedFrom (uoState op)) then Ret (op, Some ErrRevisionMismatch)
  else enterRollback op reason (fun op =>
    r ← RollbackRelease cfg op;
    match r with
    | Err ErrRestartPending => Ret (op, None)
    | Ok true =>
        pending ← match cfProvider cfg with BrokerProvider => HasPendingDatabaseRollback | _ => Ret false end;
        if (pending : bool) then completeRestoredRollback op reason else finishRollback op reason
    | _ =>
        _ ← match cfProvider cfg with BrokerProvider => ignore AbortDatabaseRollback | _ => Ret tt end;
        recoveryRequired op "update_rollback_ambiguous"
    end).

Definition rollbackAfterFailure (op : UpdateOperation) (reason : string) (cause : option updError) : prog outcome :=
  step op StateRollbackPending "update_rollback_pending" reason (fun op =>
    r ← performRollback op reason;
    match r with
    | (rolledBack, Some e) => Ret (rolledBack, Some e)
    | (rolledBack, None) => Ret (rolledBack, Some (default (ErrOther reason) cause))
    end).

(** ** Health *)
Definition health_reason (reason : string) : string := if safeID reason 96 then reason else "health_reason_invalid".

Definition checkHealth (op : UpdateOperation) : prog HealthResult :=
  if negb (cfHealth cfg) then Ret (mkHealth false ["health_check_unavailable"] (semanticDigest ["health-check-unavailable"]))
  else
    r ← act (Health op);
    let reasons := health_reason <$> take 16 (hrReasonCodes r) in
    if validDigest (hrRevision r) then Ret (mkHealth (hrReady r) reasons (hrRevision r))
    else Ret (mkHealth false (match reasons with [] => ["health_revision_invalid"] | _ => reasons end) (semanticDigest ("false" :: reasons))).

(** ** Verified releases *)
Definition legacyCoreProviderAdmission : prog (result updError unit) :=
  if negb (cfCoreProvider cfg) then fail ErrCoreProviderUnverified
  else
    identity ← act CoreProvider;
    if negb (ciVerified identity) then fail ErrCoreProviderUnverified
    else if negb (String.eqb (csID (ciSource identity)) (cfDefaultProvider cfg)) then fail ErrCoreProviderMaintenance
    else Ret (Ok tt).

(** The sign of a comparison of two versions, when both parse. *)
Definition version_le (a b : string) : bool := match CompareVersions a b with Some c => c <=? 0 | None => false end.

Definition component_fits (target : string) (c : Component) : bool := version_le (cpMinimumCoreSchema c) target && version_le target (cpMaximumCoreSchema c).

Definition validateManifestCompatibility (verified : Verified) : prog (result updError unit) :=
  match ComponentArtifacts verified with
  | Err m => fail (ErrOther m)
  | Ok bound =>
      let m := vfManifest verified in
      if negb (String.eqb (mfBrokerCapability m) (cfBrokerCapability cfg)) then fail (ErrOther "release broker capability is incompatible")
      else if negb (version_le (mfMinimumPanelVersion m) (cfVersion cfg)) || negb (version_le (cfVersion cfg) (mfMaximumPanelVersion m))
      then fail (ErrOther "release panel version range is incompatible")
      else if negb (version_le (mfMinimumCoreSchema m) (cfCoreSchema cfg)) || negb (version_le (cfCoreSchema cfg) (mfMaximumCoreSchema m))
              || negb (bool_decide (CompareVersions (mfTargetCoreSchema m) (cfCoreSchema cfg) = Some 0))
      then fail (ErrOther "release core schema is incompatible")
      else if negb (forallb (fun b => component_fits (mfTargetCoreSchema m) (fst b)) bound) then fail (ErrOther "release component schema range is incompatible")
      else
        installed ← act InstalledComponents;
        match installed with
        | Err _ => fail (ErrOther "installed component inventory is unavailable")
        | Ok ids =>
            if forallb (fun id => existsb (fun b => String.eqb (cpID (fst b)) id) bound) ids then Ret (Ok tt)
            else fail (ErrOther "installed component is absent from the release")
        end
  end.

Definition pinned_provenance (provenance : string) (v : Verified) : bool :=
  forallb (fun a => String.eqb (afProvenance a) provenance) (mfArtifacts (vfManifest v)).

Definition fetchAndVerify (channel : string) (lastApplied : Z) : prog (result updError (Verified * list Artifact)) :=
  let?? _ := legacyCoreProviderAdmission in
  match cfSources cfg !! channel with
  | None => fail (ErrOther "release channel source is unavailable")
  | Some provenance =>
      let?? raw := act (FetchEnvelope channel) in
      now ← act Now;
      match Verify raw (cfTrust cfg) now channel lastApplied with
      | Err m => fail (ErrOther m)
      | Ok verified =>
          let?? _ := validateManifestCompatibility verified in
          if negb (pinned_provenance provenance verified) then fail (ErrOther "release artifact provenance does not match the pinned source policy")
          else Ret (let? artifacts := from_release (PanelArtifacts verified (cfPlatform cfg) (cfArch cfg) (cfProfile cfg)) in Ok (verified, artifacts))
      end
  end.

Definition knownProvider (value : string) : bool := String.eqb value "sing-box" || String.eqb value "shtorm-extended".

Definition fetchProviderRelease (channel target : string) (lastApplied : Z) : prog (result updError (Verified * list Artifact)) :=
  if negb (cfCoreProvider cfg) then fail ErrCoreProviderUnverified
  else
    identity ← act CoreProvider;
    if negb (ciVerified identity) then fail ErrCoreProviderUnverified
    else if negb (knownProvider target) then fail ErrCoreProviderMaintenance
    else match cfSources cfg !! channel with
    | None => fail ErrCoreProviderMaintenance
    | Some provenance =>
        let?? raw := act (FetchEnvelope channel) in
        now ← act Now;
        match Verify raw (cfTrust cfg) now channel 0 with
        | Err _ => fail ErrCoreProviderMaintenance
        | Ok verified =>
            let m := vfManifest verified in
            if negb (String.eqb (mfSchema m) SchemaV2) || (mfSequence m <? lastApplied) then fail ErrCoreProviderMaintenance
            else
              let?? _ := (if mfSequence m =? lastApplied then
                            installed ← act (Read (appliedManifest channel lastApplied));
                            current ← act CoreProvider;
                            match installed with
                            | Ok d => if negb (String.eqb d (vfDigest verified)) || String.eqb target (csID (ciSource current)) then fail ErrReleaseChanged else Ret (Ok tt)
                            | Err _ => fail ErrReleaseChanged
                            end
                          else Ret (Ok tt)) in
              let?? _ := validateManifestCompatibility verified in
              if negb (pinned_provenance provenance verified) then fail (ErrOther "release artifact provenance does not match the pinned source policy")
              else match PanelArtifactsForProvider verified (cfPlatform cfg) (cfArch cfg) (cfProfile cfg) target with
              | Ok [a] => Ret (Ok (verified, [a]))
              | _ => fail ErrCoreProviderMaintenance
              end
        end
    end.

Definition newUpdateOperation (request : PrepareRequest) (verified : Verified) (artifacts : list Artifact) (now : Z) : UpdateOperation :=
  let m := vfManifest verified in
  mkOperation
    (mkIdentity (updateOperationID (rqIdempotencyKey request) (vfDigest verified)) (rqIdempotencyKey request) (rqChannel request) (mfSequence m)
       (mfReleaseID m) (mfVersion m) (vfDigest verified) (ArtifactSetDigest artifacts) (cfPlatform cfg) (cfArch cfg) (cfProfile cfg)
       (mfDeploymentRevision m) (mfBrokerCapability m) (mfMigrationSetDigest m) (mfRestartClass m) (mfRebootClass m) (mfRollbackClass m)
       (total afSize artifacts) (unix now))
    StateDownloading "" 0 "" 1 false false false "" (unix now).

(** [errors.Is(err, gorm.ErrRecordNotFound)] is no obstacle; another error is, and so is a row. *)
Definition idle : prog (result updError unit) :=
  r ← act (Read active);
  match r with
  | Ok op => if String.eqb (opID op) "" then Ret (Ok tt) else fail ErrOperationConflict
  | Err e => if is_not_found e then Ret (Ok tt) else fail e
  end.

Definition unblocked : prog (result updError unit) :=
  let?? blocker := act GlobalBlocker in
  if String.eqb blocker "" then Ret (Ok tt) else fail ErrOperationConflict.

(** ** Check *)
Definition Check (channel : string) : prog (result updError Verified) :=
  now ← act Now;
  if negb (Available (cfTrust cfg) now) then fail ErrSigningUnavailable
  else
    let?? _ := legacyCoreProviderAdmission in
    let?? applied := act (Read (lastApplied channel)) in
    let?? found := fetchAndVerify channel applied in
    let '(verified, artifacts) := found in
    match foldr (fun a acc => let? _ := ArtifactIdentityOf verified a in acc) (Ok tt) artifacts with
    | Err m => fail (ErrOther m)
    | Ok _ =>
        match ComponentArtifacts verified with
        | Err m => fail (ErrOther m)
        | Ok _ =>
            now ← act Now;
            let?? _ := commit (saveVerified verified channel (unix now)) in
            Ret (Ok verified)
        end
    end.

(** ** Preparation *)
Definition preflightProviderLocked (op : UpdateOperation) (verified : Verified) (artifacts : list Artifact) (request : ProviderTransitionRequest)
    : prog (UpdateOperation * result updError PreflightResult) :=
  busy ← maintenanceActive;
  if match cfProvider cfg with BrokerProvider => false | _ => true end || negb (cfConfiguration cfg) || negb (cfBeginMaintenance cfg) || (busy : bool)
  then Ret (op, Err ErrCoreProviderMaintenance)
  else
    begun ← beginMaintenance;
    match begun with
    | Err e => Ret (op, Err e)
    | Ok _ =>
        c ← act CaptureProviderConfiguration;
        match c with
        | Err _ => Ret (op, Err ErrReleaseChanged)
        | Ok snapshot =>
            if negb (String.eqb (snConfigurationRevision snapshot) (ptExpectedConfigurationRevision request)) || (slen (snConfiguration snapshot) =? 0)
               || negb (String.eqb (sha256hex (snConfiguration snapshot)) (snConfigurationDigest snapshot)) || negb (cvValid (snCapabilities snapshot))
               || negb (String.eqb (cvRevision (snCapabilities snapshot)) (snCapabilityRevision snapshot))
            then Ret (op, Err ErrReleaseChanged)
            else
              let persist backup :=
                if negb (validDigest backup) then fail ErrRecoveryRequired
                else
                  r ← advance (set_rollback true backup op) StatePreflighting "provider_database_checkpoint_committed" "";
                  match r with (committed, None) => Ret (Ok committed) | (_, Some e) => fail e end in
              PreflightProvider cfg op verified artifacts snapshot persist
        end
    end.

(** The admission of a new operation, under the admission mutex. *)
Definition admit_new (request : PrepareRequest) (maintenance : bool) (verified : Verified) (applied : Z) (op : UpdateOperation) : prog (result updError unit) :=
  let?? _ := idle in
  let?? _ := unblocked in
  let?? current := act (Read (lastApplied (rqChannel request))) in
  if negb (current =? applied) || (negb maintenance && (mfSequence (vfManifest verified) <=? current)) then fail ErrReleaseChanged
  else
    now ← act Now;
    let?? _ := commit (saveVerified verified (rqChannel request) (unix now)) in
    commit (create op "update_preparation_started" "").

(** A preflight that failed: a checkpointed provider operation is rolled back. *)
Definition preflightFailed (preparation : option ProviderTransitionRequest) (op : UpdateOperation) (cause : option updError) : prog outcome :=
  match preparation with
  | Some _ =>
      if uoRollbackAvailable op && validDigest (uoBackupRef op) then rollbackAfterFailure op "provider_maintenance_preflight_failed" cause
      else failUpdate op "update_preflight_failed" cause
  | None => failUpdate op "update_preflight_failed" cause
  end.

(** Download, verification and preflight of an admitted operation. *)
Definition runPreparation (preparation : option ProviderTransitionRequest) (verified : Verified) (artifacts : list Artifact) (op : UpdateOperation) : prog outcome :=
  let progress bytes := ignore (commit (progress op bytes)) in
  staged ← DownloadAndStage cfg op verified artifacts progress;
  match staged with
  | Err e => failUpdate op "update_download_failed" (Some e)
  | Ok _ =>
      step (set_bytes (uiBytesTotal (uoIdentity op)) op) StateDownloaded "release_artifacts_downloaded" "" (fun op =>
      step op StateVerifying "release_artifacts_verifying" "" (fun op =>
      step op StateVerified "release_artifacts_verified" "" (fun op =>
      step op StatePreflighting "update_preflight_started" "" (fun op =>
        r ← match preparation with
            | None => p ← Preflight cfg op verified artifacts; Ret (op, p)
            | Some request => preflightProviderLocked op verified artifacts request
            end;
        let '(op, preflight) := r in
        match preflight with
        | Ok (mkPreflight true backup) =>
            if validDigest backup then step (set_rollback true backup op) StatePrepared "update_prepared" "" (fun op => Ret (op, None))
            else preflightFailed preparation op None
        | Ok _ => preflightFailed preparation op None
        | Err e => preflightFailed preparation op (Some e)
        end))))
  end.

(** Nothing is under way: verify the release again, admit the operation, prepare it. *)
Definition prepareIdle (request : PrepareRequest) (preparation : option ProviderTransitionRequest) : prog outcome :=
  let maintenance := match preparation with Some _ => true | None => false end in
  admitted ← (let?? _ := unblocked in
              admitted ← (if cfAdmit cfg then act Admit else Ret true);
              if negb admitted then fail ErrResourcePressure
              else
                let?? _ := (if maintenance then Ret (Ok tt) else legacyCoreProviderAdmission) in
                act (Read (lastApplied (rqChannel request))));
  match admitted with
  | Err e => refuse e
  | Ok applied =>
      found ← match preparation with
              | None => fetchAndVerify (rqChannel request) applied
              | Some p => fetchProviderRelease (rqChannel request) (ptTargetProvider p) applied
              end;
      match found with
      | Err _ => refuse ErrReleaseChanged
      | Ok (verified, artifacts) =>
          if negb (mfSequence (vfManifest verified) =? rqExpectedSequence request) || negb (String.eqb (vfDigest verified) (rqExpectedManifestDigest request))
          then refuse ErrReleaseChanged
          else if match preparation with
                  | None => false
                  | Some p => negb (String.eqb (ArtifactSetDigest artifacts) (ptExpectedArtifactSetDigest p)) || negb (String.eqb (mfVersion (vfManifest verified)) (cfVersion cfg))
                  end then refuse ErrCoreProviderMaintenance
          else if negb maintenance && negb (VersionIsNewer (mfVersion (vfManifest verified)) (cfVersion cfg)) then refuse ErrNotNewer
          else
            ready ← act PlatformReady;
            if negb ready then refuse ErrPlatformPreflight
            else
              now ← act Now;
              let op := newUpdateOperation request verified artifacts now in
              created ← admit_new request maintenance verified applied op;
              match created with
              | Err e => refuse e
              | Ok _ => runPreparation preparation verified artifacts op
              end
      end
  end.

Definition prepareLocked (request : PrepareRequest) (preparation : option ProviderTransitionRequest) : prog outcome :=
  found ← act (Read (byIdempotency (rqIdempotencyKey request)));
  match found with
  | Ok existing =>
      if uoRestoredUntrusted existing then Ret (restoredOperationRecoveryProjection existing, Some ErrRecoveryRequired)
      else if negb (validPersistedOperation existing) then Ret (operationRecoveryProjection existing, Some ErrRecoveryRequired)
      else if (opSequence existing =? rqExpectedSequence request) && String.eqb (opManifest existing) (rqExpectedManifestDigest request)
              && String.eqb (opChannel existing) (rqChannel request)
              && match preparation with None => true | Some p => String.eqb (uiArtifactSetDigest (uoIdentity existing)) (ptExpectedArtifactSetDigest p) end
      then Ret (existing, None)
      else refuse ErrReleaseChanged
  | Err e =>
      if negb (is_not_found e) then refuse e
      else
        busy ← act (Read active);
        match busy with
        | Ok op => if String.eqb (opID op) "" then prepareIdle request preparation else Ret (op, Some ErrOperationConflict)
        | Err e => if is_not_found e then prepareIdle request preparation else refuse e
        end
  end.

Definition Prepare (request : PrepareRequest) : prog outcome :=
  if negb (safeID (rqIdempotencyKey request) 96) || (rqExpectedSequence request =? 0) || negb (validDigest (rqExpectedManifestDigest request))
     || negb (rqAcknowledged request) then refuse (ErrOther "invalid update preparation request")
  else prepareLocked request None.

(** ** Activation *)
Definition activateLocked (request : RevisionRequest) (providerMaintenance : bool) : prog outcome :=
  found ← act (Read (operation (rvOperationID request)));
  match found with
  | Err e => refuse e
  | Ok op =>
      if negb (validPersistedOperation op) then Ret (operationRecoveryProjection op, Some ErrRecoveryRequired)
      else if negb (uoRevision op =? rvExpectedRevision request) || negb (String.eqb (uoState op) StatePrepared) || uoRestoredUntrusted op
      then Ret (op, Some ErrRevisionMismatch)
      else
        admitted ← (if providerMaintenance then Ret (Ok tt) else legacyCoreProviderAdmission);
        match admitted with
        | Err e => Ret (op, Some e)
        | Ok _ =>
            ready ← act PlatformReady;
            if negb ready then Ret (op, Some ErrPlatformPreflight)
            else step op StateActivating "update_activation_started" "" (fun op =>
              r ← ActivateRelease cfg op;
              match r with
              | Err e => rollbackAfterFailure op "update_activation_failed" (Some e)
              | Ok _ => step op StateVerifyingActive "active_release_verifying" "" (fun op =>
                  v ← VerifyActive cfg op;
                  match v with
                  | Err ErrRestartPending => Ret (op, None)
                  | Ok true =>
                      health ← checkHealth op;
                      if negb (hrReady health) then rollbackAfterFailure op "active_release_health_failed" (Some (ErrHealthCheckFailed (hrReasonCodes health)))
                      else
                        r ← advance op StateApplied "update_applied" "";
                        match r with
                        | (applied, None) => cleanup ← cleanupTerminal applied; Ret (applied, err_of cleanup)
                        | (applied, Some e) => Ret (applied, Some e)
                        end
                  | v => rollbackAfterFailure op "active_release_verification_failed" (err_of v)
                  end)
              end)
        end
  end.

Definition valid_revision_request (request : RevisionRequest) : bool := safeID (rvOperationID request) 96 && negb (rvExpectedRevision request =? 0).

Definition Activate (request : RevisionRequest) : prog outcome :=
  if negb (valid_revision_request request) then refuse (ErrOther "invalid update activation request") else activateLocked request false.

(** ** Rollback by the operator *)

(** An applied release may be rolled back only while it is the last one applied. *)
Definition last_applied_guard (op : UpdateOperation) : prog (option outcome) :=
  if negb (String.eqb (uoState op) StateApplied) then Ret None
  else
    r ← act (Read (releaseState (opChannel op)));
    match r with
    | Err e => Ret (Some (op, Some e))
    | Ok row =>
        if negb (validPersistedReleaseState row) || restoredReleaseState row then Ret (Some (operationRecoveryProjection op, Some ErrRecoveryRequired))
        else if negb (rsLastAppliedSequence row =? opSequence op) then Ret (Some (op, Some ErrRevisionMismatch))
        else Ret None
    end.

(** [Ok acquired], once a checkpointed provider operation holds the maintenance. *)
Definition maintenance_guard (op : UpdateOperation) : prog (result updError bool) :=
  match cfProvider cfg with
  | BrokerProvider =>
      if negb (cfConfiguration cfg) then Ret (Ok false)
      else
        let?? present := providerCheckpoint cfg op in
        if negb present then Ret (Ok false)
        else
          active ← maintenanceActive;
          let?? acquired := (if (active : bool) then Ret (Ok false) else let?? _ := beginMaintenance in Ret (Ok true)) in
          admitted ← AdmitProviderRollback cfg op;
          match admitted with
          | Err e => _ ← (if (acquired : bool) then endProviderMaintenance else Ret tt); fail e
          | Ok _ => Ret (Ok acquired)
          end
  | _ => Ret (Ok false)
  end.

Definition rollbackAdmitted (op : UpdateOperation) : prog outcome :=
  guard ← last_applied_guard op;
  match guard with
  | Some out => Ret out
  | None =>
      m ← maintenance_guard op;
      match m with
      | Err e => Ret (op, Some e)
      | Ok acquired =>
          free ← unblocked;
          match free with
          | Err e => _ ← (if (acquired : bool) then endProviderMaintenance else Ret tt); Ret (op, Some e)
          | Ok _ => performRollback op "operator_rollback_requested"
          end
      end
  end.

Definition Rollback (request : RevisionRequest) : prog outcome :=
  if negb (valid_revision_request request) then refuse (ErrOther "invalid update rollback request")
  else
    found ← act (Read (operation (rvOperationID request)));
    match found with
    | Err e => refuse e
    | Ok op =>
        if negb (validPersistedOperation op) then Ret (operationRecoveryProjection op, Some ErrRecoveryRequired)
        else if negb (uoRevision op =? rvExpectedRevision request) || negb (uoRollbackAvailable op) || uoRestoredUntrusted op || negb (rollbackAllowedFrom (uoState op))
        then Ret (op, Some ErrRevisionMismatch)
        else
          busy ← act (Read active);
          match busy with
          | Ok other => if String.eqb (opID other) (opID op) then rollbackAdmitted op else Ret (op, Some ErrOperationConflict)
          | Err e => if is_not_found e then rollbackAdmitted op else Ret (op, Some e)
          end
    end.

(** ** Startup *)

(** Debt of an earlier cleanup is paid first. *)
Definition payCleanupDebt : prog (result updError unit) :=
  found ← act (Read cleanupDebt);
  match found with
  | Err e => if is_not_found e then Ret (Ok tt) else fail e
  | Ok debt =>
      match cfProvider cfg with
      | BrokerProvider =>
          let?? _ := brokerCleanupTerminal cfg debt in
          now ← act Now;
          let?? _ := commit (clearCleanupDebt debt (unix now)) in
          pruneHistory
      | _ => fail ErrProviderUnavailable
      end
  end.

(** The end of a reconciliation: the operation takes the state that the provider reports. *)
Definition settleReconciled (op : UpdateOperation) (state : State) : prog (result updError unit) :=
  health ← (if String.eqb state StateApplied then checkHealth op else Ret (mkHealth true [] ""));
  if negb (hrReady health) then
    r ← rollbackAfterFailure op "active_release_health_failed" (Some (ErrHealthCheckFailed (hrReasonCodes health)));
    Ret (match snd r with Some e => Err e | None => Ok tt end)
  else
    r ← advance op state "startup_reconciled" "";
    let '(op, err) := r in
    err ← match err with
          | None =>
              cleanup ← (if String.eqb state StateApplied then cleanupTerminal op else Ret (Ok tt));
              match cleanup with Ok _ => p ← pruneHistory; Ret (err_of p) | Err e => Ret (Some e) end
          | Some e => Ret (Some e)
          end;
    _ ← (if String.eqb (uoState op) StateApplied || String.eqb (uoState op) StateRolledBack then endProviderMaintenance else Ret tt);
    Ret (match err with Some e => Err e | None => Ok tt end).

Definition error_of (out : outcome) : result updError unit := match snd out with Some e => Err e | None => Ok tt end.

(** The provider says that the release is active and not yet verified. *)
Definition reconcileActive (op : UpdateOperation) : prog (result updError unit) :=
  let?? started := act (Read (phaseStartedAt op StateActivating)) in
  now ← act Now;
  if (0 <? started) && (activationHealthDeadline <=? time_sub now (started * second)) then
    r ← rollbackAfterFailure op "active_release_health_timeout" (Some (ErrOther "active release health deadline exceeded"));
    Ret (error_of r)
  else
    r ← advance op StateVerifyingActive (if String.eqb (uoState op) StateVerifyingActive then "active_release_runtime_probe" else "active_release_verifying") "";
    match r with
    | (_, Some e) => fail e
    | (op, None) =>
        v ← VerifyActive cfg op;
        match v with
        | Err ErrRestartPending => Ret (Ok tt)
        | Ok true => settleReconciled op StateApplied
        | v => r ← rollbackAfterFailure op "active_release_verification_failed" (err_of v); Ret (error_of r)
        end
    end.

Definition reconcileStartupLocked : prog (result updError unit) :=
  let?? _ := payCleanupDebt in
  found ← act (Read active);
  match found with
  | Err e => if is_not_found e then Ret (Ok tt) else fail e
  | Ok op =>
      if negb (validPersistedOperation op) then fail ErrRecoveryRequired
      else if uoRestoredUntrusted op then
        r ← advance (set_rollback false (uoBackupRef op) op) StateRecoveryRequired "restored_update_authority_fenced" "restored_update_state_untrusted";
        match r with (_, Some e) => fail e | (_, None) => fail ErrRecoveryRequired end
      else
        answer ← Reconcile cfg op;
        let '(state, reconcileErr) := answer in
        if match reconcileErr with Some _ => true | None => false end || String.eqb state StateRecoveryRequired || String.eqb state StateUnknown then
          r ← advance op StateRecoveryRequired "startup_reconciliation_ambiguous" "update_reconciliation_ambiguous";
          match r with (_, Some e) => fail e | (_, None) => fail ErrRecoveryRequired end
        else if String.eqb state StateVerifyingActive then reconcileActive op
        else if String.eqb state StateRollingBack then r ← performRollback op "startup_rollback_verifying"; Ret (error_of r)
        else if String.eqb state StateRollbackPending then
          r ← (if negb (String.eqb (uoState op) StateRollbackPending)
               then step op StateRollbackPending "startup_rollback_pending" "startup_reconciliation_requires_rollback"
                      (fun op => performRollback op "startup_reconciliation_requires_rollback")
               else performRollback op "startup_reconciliation_requires_rollback");
          Ret (error_of r)
        else settleReconciled op state
  end.

Definition ReconcileStartup : prog (result updError unit) := reconcileStartupLocked.

(** ** Provider maintenance ([provider_apply.go]) *)
Definition valid_transition (r : ProviderTransitionRequest) : bool :=
  ptAcknowledged r && knownProvider (ptTargetProvider r) && safeID (ptIdempotencyKey r) 96 && known_channel (ptChannel r) && negb (ptExpectedSequence r =? 0)
  && validDigest (ptExpectedManifestDigest r) && validDigest (ptExpectedArtifactSetDigest r) && validDigest (ptExpectedConfigurationRevision r)
  && validDigest (ptExpectedProviderRevision r).

Definition ApplyProviderTransition (request : ProviderTransitionRequest) : prog outcome :=
  if negb (valid_transition request) then refuse ErrCoreProviderMaintenance
  else
    authorized ← act Authorize;
    match authorized with
    | Err e => refuse e
    | Ok _ =>
        identity ← (if cfCoreProvider cfg then act CoreProvider else Ret (mkCoreIdentity false noSource ""));
        if negb (ciVerified identity) || negb (cfConfiguration cfg) then refuse ErrCoreProviderUnverified
        else
          current ← act CoreProvider;
          if negb (String.eqb (ciRevision current) (ptExpectedProviderRevision request)) then refuse ErrReleaseChanged
          else match cfProvider cfg with
          | BrokerProvider =>
              r ← prepareLocked (mkPrepare (ptChannel request) (ptExpectedSequence request) (ptExpectedManifestDigest request) (ptIdempotencyKey request) true) (Some request);
              let '(op, err) := r in
              r ← (if match err with None => String.eqb (uoState op) StatePrepared | Some _ => false end then
                     admitted ← AdmitProviderRequest cfg op request;
                     match admitted with
                     | Err e => Ret (op, Some e)
                     | Ok _ => activateLocked (mkRevision (opID op) (uoRevision op)) true
                     end
                   else Ret (op, err));
              let '(op, err) := r in
              _ ← (if one_of [StateApplied; StateRolledBack; StateFailed] (uoState op) || String.eqb (opID op) "" then endProviderMaintenance else Ret tt);
              Ret (op, err)
          | _ => refuse ErrProviderUnavailable
          end
    end.

Definition holdProviderRecovery : prog (result updError unit) :=
  if negb (cfConfiguration cfg) || negb (cfBeginMaintenance cfg) then fail ErrRecoveryRequired
  else
    active ← maintenanceActive;
    let?? _ := (if (active : bool) then Ret (Ok tt) else beginMaintenance) in
    act (SetCoreMaintenance "" true).

Definition RecoverProviderMaintenance : prog (result updError unit) :=
  found ← act (Read active);
  let?? op := Ret (match found with Ok op => Ok (Some op) | Err e => if is_not_found e then Ok None else Err e end) in
  let?? recorded := match op with Some op => act (Read (providerCheckpointRecorded op)) | None => Ret (Ok false) end in
  match cfProvider cfg, op, recorded with
  | BrokerProvider, Some op, true =>
      let?? _ := holdProviderRecovery in
      if negb (validPersistedOperation op) || uoRestoredUntrusted op then fail ErrRecoveryRequired
      else
        _ ← requireProviderMaintenance op;
        let?? present := providerCheckpoint cfg op in
        if (present : bool) then Ret (Ok tt) else fail ErrRecoveryRequired
  | _, _, true => let?? _ := holdProviderRecovery in fail ErrRecoveryRequired
  | BrokerProvider, _, false =>
      p ← pendingProviderMaintenance cfg;
      let '(pending, probeErr) := p in
      if negb pending then Ret (match probeErr with Some e => Err e | None => Ok tt end)
      else let?? _ := holdProviderRecovery in fail ErrRecoveryRequired
  | _, _, false => Ret (Ok tt)
  end.

(** One tick of [RunMaintenanceWatchdog] that finds the mutex free. *)
Definition watchdogTick : prog unit :=
  active ← maintenanceActive;
  if (active : bool) then ignore reconcileStartupLocked else Ret tt.

(** ** Reading *)
Definition projected (op : UpdateOperation) : UpdateOperation :=
  if uoRestoredUntrusted op then restoredOperationRecoveryProjection op
  else if negb (validPersistedOperation op) then operationRecoveryProjection op else op.

Definition Operation (id : string) : prog (result updError UpdateOperation) :=
  if negb (safeID id 96) then fail (ErrOther "invalid update operation id")
  else let?? op := act (Read (operation id)) in Ret (Ok (projected op)).

Definition ActiveOrRecovery : prog (result updError UpdateOperation) :=
  let?? op := act (Read activeOrRecovery) in Ret (Ok (projected op)).

Definition Timeline (id : string) (after limit : Z) : prog (result updError (list UpdateJournal * bool)) :=
  if negb (safeID id 96) || negb (HasPrefix id "update-operation:") || (limit <? 1) || (200 <? limit) then fail (ErrOther "invalid update timeline request")
  else act (Read (timeline id after limit)).
End Lifecycle.
