(* ===== verification/UpdateSemantics.v ===== *)
(** * Update lifecycle: the environment of a call, and how the store may change

    [env] is everything that outlives an action: the database, the memory of the process,
    the broker's fences, the published backups and the database that a pending restore
    replaced, the last clock reading, and the reports that the current call has received.
    [effect] says what an action does to it and which answers it may get.

    A transaction that answers an error has no effect.  The completion and the abort of a
    pending restore succeed.  The broker refuses a mutation whose fence is not above the
    fences that it accepted for the operation, unless it replays an accepted request;
    [journal.go] keys replays by a digest of the request, which is the request here.

    [storeStep] are the transactions of the repository with the conditions under which
    the manager issues them; [UpdateLogic] shows that it issues no others. *)

From S2P Require Import Prelude GoStrings VersionPolicy Programs ReleaseManifest UpdateStore UpdateProvider UpdateLifecycle.

Open Scope string_scope.
Open Scope list_scope.
Open Scope Z_scope.

(** ** Environments *)
Inductive report :=
| RVerified (operationID : string) (r : VerifyResultV1)
| RObserved (o : ObservationV1)
| RHealth (operationID : string) (h : HealthResult).

Record mutationKey := mkKey { mkOperationID : string; mkKeyRevision : Z; mkCall : {A & mutation A} }.

Record env := mkEnv {
  eStore : Store;
  eMemory : procMemory;
  eFences : gmap string Z;              (** the highest accepted fence of each operation *)
  eKeys : list mutationKey;             (** the accepted requests *)
  eBackups : gmap string (string * Store); (** by operation: the digest and the exported database *)
  ePrior : option Store;                (** the database that a pending restore replaced *)
  eClock : Z;
  eLog : list report
}.

Definition set_store (st : Store) (s : env) : env := mkEnv st (eMemory s) (eFences s) (eKeys s) (eBackups s) (ePrior s) (eClock s) (eLog s).
Definition set_memory (m : procMemory) (s : env) : env := mkEnv (eStore s) m (eFences s) (eKeys s) (eBackups s) (ePrior s) (eClock s) (eLog s).
Definition set_clock (t : Z) (s : env) : env := mkEnv (eStore s) (eMemory s) (eFences s) (eKeys s) (eBackups s) (ePrior s) t (eLog s).
Definition set_log (l : list report) (s : env) : env := mkEnv (eStore s) (eMemory s) (eFences s) (eKeys s) (eBackups s) (ePrior s) (eClock s) l.
Definition set_backups (b : gmap string (string * Store)) (s : env) : env := mkEnv (eStore s) (eMemory s) (eFences s) (eKeys s) b (ePrior s) (eClock s) (eLog s).
Definition set_restore (st : Store) (p : option Store) (s : env) : env := mkEnv st (eMemory s) (eFences s) (eKeys s) (eBackups s) p (eClock s) (eLog s).
Definition set_fence (id : string) (sequence : Z) (key : mutationKey) (s : env) : env :=
  mkEnv (eStore s) (eMemory s) (<[id := sequence]> (eFences s)) (key :: eKeys s) (eBackups s) (ePrior s) (eClock s) (eLog s).

(** What an answer adds to the reports of the call. *)
Definition reports {B} (e : updateE B) : B -> list report :=
  match e in updateE B return B -> list report with
  | Observe _ => fun b => match b with Ok o => [RObserved o] | Err _ => [] end
  | Mutate call op _ =>
      match call in mutation A return result updError A -> list report with
      | VerbUpdateVerify _ => fun b => match b with Ok r => [RVerified (opID op) r] | Err _ => [] end
      | _ => fun _ => []
      end
  | Health op => fun h => [RHealth (opID op) h]
  | _ => fun _ => []
  end.

Definition reported {B} (e : updateE B) (b : B) (s : env) : env := set_log (reports e b ++ eLog s) s.

(** [operation.Revision*1_000_000 + ordinal] *)
Definition fence_sequence (op : UpdateOperation) (ordinal : Z) : Z := wrapu64 (wrapu64 (uoRevision op * 1000000) + ordinal).

Definition fence_of (id : string) (s : env) : Z := default 0 (eFences s !! id).

(** ** Effects of actions *)
Section Effects.
(** [tick t t']: the clock may read [t'] after [t]. *)
Context (tick : Z -> Z -> Prop).

Definition effect (B : Type) (e : updateE B) (s : env) : B -> env -> Prop :=
  match e in updateE B return B -> env -> Prop with
  | Read q => fun b s' => s' = s /\ (b = q (eStore s) \/ b = Err ErrDatabase)
  | Commit tx => fun b s' =>
      (b = Err ErrDatabase /\ s' = s) \/
      match tx (eStore s) with
      | Ok (st, a) => b = Ok a /\ s' = set_store st s
      | Err x => b = Err x /\ s' = s
      end
  | Local f => fun b s' => s' = set_memory (f (eMemory s)).1 s /\ b = (f (eMemory s)).2
  | Now => fun b s' => tick (eClock s) b /\ s' = set_clock b s
  | Mutate call op ordinal => fun b s' =>
      let key := mkKey (opID op) (uoRevision op) (existT _ call) in
      let sequence := fence_sequence op ordinal in
      (s' = s /\ (b = Err ErrRevisionMismatch \/ b = Err ErrProviderUnavailable)) \/
      (key ∈ eKeys s /\ s' = reported (Mutate call op ordinal) b s) \/
      (fence_of (opID op) s < sequence /\ b <> Err ErrRevisionMismatch /\ s' = reported (Mutate call op ordinal) b (set_fence (opID op) sequence key s))
  | PublishBackup op => fun b s' =>
      match b with
      | Err _ => s' = s
      | Ok d =>
          match eBackups s !! opID op with
          | Some (d', _) => d = d' /\ s' = s
          | None => s' = set_backups (<[opID op := (d, exportStore (eStore s))]> (eBackups s)) s
          end
      end
  | RestoreDatabase op => fun b s' =>
      match b with
      | Err _ => s' = s
      | Ok _ => exists snapshot, eBackups s !! opID op = Some (uoBackupRef op, snapshot) /\ ePrior s = None /\ s' = set_restore snapshot (Some (eStore s)) s
      end
  | CompletePendingRestore => fun b s' => b = Ok tt /\ s' = set_restore (eStore s) None s
  | AbortPendingRestore => fun b s' => b = Ok tt /\ s' = set_restore (default (eStore s) (ePrior s)) None s
  | CleanCache keep => fun b s' => exists backups, backups ⊆ eBackups s /\ s' = set_backups backups s
  | e => fun b s' => s' = reported e b s
  end.
End Effects.

(** ** The store *)

(** States that an operation may move between. *)
Definition edge (from to : State) : bool :=
  if String.eqb to StateDownloaded then String.eqb from StateDownloading
  else if String.eqb to StateVerifying then String.eqb from StateDownloaded
  else if String.eqb to StateVerified then String.eqb from StateVerifying
  else if String.eqb to StatePreflighting then String.eqb from StateVerified || String.eqb from StatePreflighting
  else if String.eqb to StatePrepared then String.eqb from StatePreflighting
  else if String.eqb to StateActivating then String.eqb from StatePrepared
  else if String.eqb to StateFailed then String.eqb from StateDownloading || String.eqb from StatePreflighting
  else if String.eqb to StateRollingBack then rollbackAllowedFrom from
  else if String.eqb to StateRolledBack then String.eqb from StateRollingBack
  else if one_of [StateVerifyingActive; StateApplied; StateRollbackPending; StateRecoveryRequired] to then negb (terminal from)
  else false.

Definition at_state (id : string) (state : State) (st : Store) : Prop := exists row, stOperations st !! id = Some row /\ uoState row = state.

Definition active_at (id : string) (st : Store) : Prop := exists row, stOperations st !! id = Some row /\ active_row row = true.

(** No operation but [id] is under way. *)
Definition alone (id : string) (st : Store) : Prop := forall k row, stOperations st !! k = Some row -> active_row row = true -> k = id.

(** At most one operation is under way. *)
Definition exclusive (st : Store) : Prop := forall i j, active_at i st -> active_at j st -> i = j.

Definition well_keyed (st : Store) : Prop := forall id row, stOperations st !! id = Some row -> opID row = id.

(** [operation_id] is never empty. *)
Definition named (st : Store) : Prop := stOperations st !! "" = None.

(** Sequences of the journal are distinct and below the next one. *)
Definition journal_ok (st : Store) : Prop := NoDup (ujSequence <$> stJournal st) /\ forall j, j ∈ stJournal st -> ujSequence j < stNext st.

(** A prepared operation can be rolled back to a published backup. *)
Definition prepared_ok (st : Store) : Prop :=
  forall id row, stOperations st !! id = Some row -> uoState row = StatePrepared -> uoRollbackAvailable row = true /\ validDigest (uoBackupRef row) = true.

Record store_ok (st : Store) : Prop := mkStoreOk {
  so_exclusive : exclusive st; so_keyed : well_keyed st; so_named : named st; so_journal : journal_ok st; so_prepared : prepared_ok st }.

(** The reports of the call name the operation's release as verified. *)
Definition verified_release (op : UpdateOperation) (r : report) : bool :=
  match r with
  | RVerified id v => String.eqb id (opID op) && String.eqb (vsProviderRevision v) ProviderRevision && vsVerified v && vsManagementReady v
                      && (vsVerifiedSequence v =? opSequence op) && String.eqb (vsVerifiedDigest v) (opManifest op)
  | RObserved o => String.eqb (obProviderRevision o) ProviderRevision && (obVerifiedSequence o =? opSequence op) && String.eqb (obVerifiedDigest o) (opManifest op)
                   && obManagementReady o
  | RHealth _ _ => false
  end.

Definition healthy (op : UpdateOperation) (r : report) : bool := match r with RHealth id h => String.eqb id (opID op) && hrReady h | _ => false end.

Definition proven (op : UpdateOperation) (log : list report) : Prop := existsb (verified_release op) log = true /\ existsb (healthy op) log = true.

Section StoreSteps.
Context `{Digests}.

Inductive storeStep (log : list report) (st : Store) : Store -> Prop :=
| ss_save v channel now st' : saveVerified v channel now st = Ok st' -> storeStep log st st'
| ss_create op event reason st' :
    create op event reason st = Ok st' -> (forall id, ~ active_at id st) -> uoState op = StateDownloading -> uoRevision op = 1 ->
    uoRollbackAvailable op = false -> opID op <> "" -> storeStep log st st'
| ss_move op state event reason now st' :
    (if String.eqb state StateApplied then completeApplied (moved state reason now op) (uoRevision op) (uoState op) event st
     else update (moved state reason now op) (uoRevision op) (uoState op) event st) = Ok st' ->
    edge (uoState op) state = true ->
    (forall row, stOperations st !! opID op = Some row -> uoIdentity row = uoIdentity op) ->
    (terminal (uoState op) = true -> alone (opID op) st) ->
    (state = StateApplied -> proven op log) ->
    (state = StatePrepared -> uoRollbackAvailable op = true /\ validDigest (uoBackupRef op) = true) ->
    storeStep log st st'
| ss_progress op bytes st' : progress op bytes st = Ok st' -> storeStep log st st'
| ss_debt op reason now st' : recordCleanupDebt op reason now st = Ok st' -> terminal (uoState op) = true -> storeStep log st st'
| ss_clear op now st' : clearCleanupDebt op now st = Ok st' -> storeStep log st st'
| ss_remove ids : (forall id row, id ∈ ids -> stOperations st !! id = Some row -> must_keep row = false) -> storeStep log st (removeOperations ids st)
| ss_journals sequences :
    (forall j row, j ∈ stJournal st -> ujSequence j ∈ sequences -> stOperations st !! ujOperationID j = Some row -> must_keep row = false) ->
    storeStep log st (deleteJournals sequences st)
| ss_rebind op reason st' row : rebindRestoredRollback op reason st = (Ok st', row) -> active_at (opID op) st -> storeStep log st st'
| ss_mark op reason st' row : markRollbackRecovery op reason st = Ok (st', row) -> active_at (opID op) st -> storeStep log st st'.

(** ** Steps of an environment *)
Inductive envStep (s : env) : env -> Prop :=
| es_store st : storeStep (eLog s) (eStore s) st -> envStep s (set_store st s)
| es_other s' :
    eStore s' = eStore s -> ePrior s' = ePrior s -> eBackups s' ⊆ eBackups s -> (exists l, eLog s' = l ++ eLog s) -> envStep s s'
| es_backup id d : active_at id (eStore s) -> eBackups s !! id = None -> envStep s (set_backups (<[id := (d, exportStore (eStore s))]> (eBackups s)) s)
| es_restore id d snapshot :
    eBackups s !! id = Some (d, snapshot) -> ePrior s = None -> active_at id (eStore s) -> envStep s (set_restore snapshot (Some (eStore s)) s)
| es_complete : envStep s (set_restore (eStore s) None s)
| es_abort : envStep s (set_restore (default (eStore s) (ePrior s)) None s).
End StoreSteps.

Record inv (s : env) : Prop := mkInv {
  iv_store : store_ok (eStore s);
  iv_prior : forall p, ePrior s = Some p -> store_ok p;
  iv_backups : forall id d snapshot, eBackups s !! id = Some (d, snapshot) -> store_ok snapshot /\ active_at id snapshot
}.

(** What others may do between two actions of a call: checks record verified releases and read
    the clock, and a callback that a provider retained reports progress. *)
Definition same_rows (st st' : Store) : Prop :=
  stJournal st' = stJournal st /\ stNext st' = stNext st /\
  forall id, option_map (set_bytes 0) (stOperations st' !! id) = option_map (set_bytes 0) (stOperations st !! id).

Definition rely (s s' : env) : Prop :=
  same_rows (eStore s) (eStore s') /\ eMemory s' = eMemory s /\ eFences s' = eFences s /\ eKeys s' = eKeys s /\ eBackups s' = eBackups s /\
  ePrior s' = ePrior s /\ eLog s' = eLog s.
