(* ===== verification/UpdateInvariants.v ===== *)
(** * Update lifecycle: what every step of the store preserves

    [store_step_rows] says what a transaction does to the rows of operations; the
    invariants of the store and of an environment follow. *)

From S2P Require Import Prelude GoStrings VersionPolicy Programs ReleaseManifest UpdateStore UpdateProvider UpdateLifecycle UpdateSemantics.

Open Scope string_scope.
Open Scope list_scope.
Open Scope Z_scope.

(** ** Rows under the interference of others *)
#[global] Instance same_rows_refl : Reflexive same_rows.
Proof. intros st. by split_and!. Qed.

#[global] Instance same_rows_trans : Transitive same_rows.
Proof. intros a b c (J1 & N1 & R1) (J2 & N2 & R2). split_and!; [congruence|congruence|]. intros id. by rewrite R2, R1. Qed.

#[global] Instance same_rows_sym : Symmetric same_rows.
Proof. intros a b (J & N & R). split_and!; [done|done|]. intros id. by rewrite R. Qed.

(** A row of one store is a row of the other, up to the bytes completed. *)
Lemma same_rows_row st st' id row : same_rows st st' -> stOperations st !! id = Some row -> exists n, stOperations st' !! id = Some (set_bytes n row).
Proof.
  intros (_ & _ & R) Hr. specialize (R id). rewrite Hr in R. destruct (stOperations st' !! id) as [row'|]; [|done].
  exists (uoBytesCompleted row'). destruct row, row'. simpl in *. by simplify_eq.
Qed.

(** A property of rows that does not read the bytes completed. *)
Lemma same_rows_prop (P : UpdateOperation -> Prop) st st' id row :
  (forall r n, P r -> P (set_bytes n r)) -> same_rows st st' -> stOperations st !! id = Some row -> P row ->
  exists row', stOperations st' !! id = Some row' /\ P row'.
Proof. intros HP Hs Hr Hp. destruct (same_rows_row _ _ _ _ Hs Hr) as [n Hn]. eauto. Qed.

Lemma same_rows_back st st' id row' : same_rows st st' -> stOperations st' !! id = Some row' -> exists n row, stOperations st !! id = Some row /\ row' = set_bytes n row.
Proof.
  intros Hs Hr. symmetry in Hs. destruct (same_rows_row _ _ _ _ Hs Hr) as [n Hn]. exists (uoBytesCompleted row'), (set_bytes n row').
  split; [done|]. by destruct row'.
Qed.

Lemma active_at_same st st' id : same_rows st st' -> active_at id st -> active_at id st'.
Proof. intros Hs (row & Hr & Ha). by apply (same_rows_prop (fun r => active_row r = true) st st' id row). Qed.

Lemma at_state_same st st' id state : same_rows st st' -> at_state id state st -> at_state id state st'.
Proof. intros Hs (row & Hr & Ha). by apply (same_rows_prop (fun r => uoState r = state) st st' id row). Qed.

Lemma alone_same st st' id : same_rows st st' -> alone id st -> alone id st'.
Proof. intros Hs Ha k row Hr Hx. destruct (same_rows_back _ _ _ _ Hs Hr) as (n & r & Hr' & ->). by apply (Ha k r). Qed.

Lemma exclusive_same st st' : same_rows st st' -> exclusive st -> exclusive st'.
Proof. intros Hs He i j Hi Hj. symmetry in Hs. apply He; by eapply active_at_same. Qed.

Lemma well_keyed_same st st' : same_rows st st' -> well_keyed st -> well_keyed st'.
Proof. intros Hs Hk id row Hr. destruct (same_rows_back _ _ _ _ Hs Hr) as (n & r & Hr' & ->). exact (Hk id r Hr'). Qed.

Lemma named_same st st' : same_rows st st' -> named st -> named st'.
Proof. unfold named. intros Hs Hn. destruct (stOperations st' !! "") as [r|] eqn:E; [|done]. destruct (same_rows_back _ _ _ _ Hs E) as (n & r' & Hr & _). congruence. Qed.

Lemma prepared_same st st' : same_rows st st' -> prepared_ok st -> prepared_ok st'.
Proof. intros Hs Hp id row Hr. destruct (same_rows_back _ _ _ _ Hs Hr) as (n & r & Hr' & ->). exact (Hp id r Hr'). Qed.

Lemma store_ok_same st st' : same_rows st st' -> store_ok st -> store_ok st'.
Proof.
  intros Hs [H1 H2 Hn H3 H4]. split; [by eapply exclusive_same|by eapply well_keyed_same|by eapply named_same| |by eapply prepared_same]. destruct Hs as (J & N & _). unfold journal_ok. by rewrite J, N.
Qed.

(** ** Single transactions *)
Section Transactions.
Context `{Digests}.

Lemma append_operations op event reason st : stOperations (append_journal op event reason st) = stOperations st.
Proof. done. Qed.

Lemma append_releases op event reason st : stReleases (append_journal op event reason st) = stReleases st.
Proof. done. Qed.

Lemma journal_ok_append op event reason st : journal_ok st -> journal_ok (append_journal op event reason st).
Proof.
  intros [Hn Hl]. split; simpl.
  - rewrite fmap_app. apply NoDup_app. split_and!; [done| |apply NoDup_singleton]. intros x Hx E%list_elem_of_singleton. simpl in E. subst x.
    apply list_elem_of_fmap in Hx as (j & E & Hj). specialize (Hl j Hj). lia.
  - intros j [Hj| ->%list_elem_of_singleton]%elem_of_app; [specialize (Hl j Hj); lia|simpl; lia].
Qed.

Lemma journal_ok_put op st : journal_ok st -> journal_ok (put op st).
Proof. done. Qed.

Lemma fenced_row op revision state st row :
  fenced op revision state st = Some row -> stOperations st !! opID op = Some row /\ uoRevision row = revision /\ uoState row = state.
Proof.
  unfold fenced. destruct (stOperations st !! opID op) as [r|]; simpl; [|done]. destruct (_ && _) eqn:E; [|done]. intros [= ->]. bools. naive_solver.
Qed.

(** The row that [update] and [completeApplied] write, and the entry of the journal. *)
Lemma move_rows op revision state event st st' :
  (if String.eqb (uoState op) StateApplied then completeApplied op revision state event st else update op revision state event st) = Ok st' ->
  exists row bytes, stOperations st !! opID op = Some row /\ uoRevision row = revision /\ uoState row = state /\
    (bytes = uoBytesCompleted row \/ bytes = uiBytesTotal (uoIdentity op)) /\
    stOperations st' = <[uiOperationID (uoIdentity row) := transition_columns op row bytes]> (stOperations st) /\
    stJournal st' = stJournal st ++ [journalFor op event (uoReasonCode op) (stNext st)] /\ stNext st' = stNext st + 1.
Proof.
  destruct (String.eqb (uoState op) StateApplied).
  - unfold completeApplied. destruct (stReleases st !! opChannel op) as [r|]; [|done]. destruct (_ || _); [done|]. destruct (_ || _ || _); [done|].
    destruct (fenced _ _ _ _) as [row|] eqn:Hf; [|done]. intros [= <-]. apply fenced_row in Hf as (Hr & Hv & Hs).
    exists row, (uoBytesCompleted row). split_and!; try done. by left.
  - unfold update. destruct (_ || _ || _ || _); [done|]. destruct (negb _); [done|]. destruct (fenced _ _ _ _) as [row|] eqn:Hf; [|done]. intros [= <-].
    apply fenced_row in Hf as (Hr & Hv & Hs). eexists row, _. split_and!; try done. destruct (_ && _); [by right|by left].
Qed.
End Transactions.

(** ** Rows along a step *)
Section Steps.
Context `{Digests}.

Lemma existsb_impl {A} (p q : A -> bool) l : (forall x, p x = true -> q x = true) -> existsb p l = true -> existsb q l = true.
Proof. intros Hi (x & Hx & Hp)%existsb_exists. apply existsb_exists. eauto. Qed.

Lemma proven_identity op row log : uoIdentity row = uoIdentity op -> proven op log -> proven row log.
Proof. unfold proven, verified_release, healthy, opID, opSequence, opManifest. by intros ->. Qed.

(** What happens to a row, other than its creation and its removal. *)
Inductive rowStep (log : list report) (st : Store) (row : UpdateOperation) : UpdateOperation -> Prop :=
| rs_move op state reason now bytes :
    uoIdentity op = uoIdentity row -> uoRevision op = uoRevision row -> uoState op = uoState row -> edge (uoState row) state = true ->
    (terminal (uoState row) = true -> alone (opID row) st) -> (state = StateApplied -> proven row log) ->
    (state = StatePrepared -> uoRollbackAvailable op = true /\ validDigest (uoBackupRef op) = true) ->
    bytes = uoBytesCompleted row \/ bytes = uiBytesTotal (uoIdentity row) ->
    rowStep log st row (transition_columns (moved state reason now op) row bytes)
| rs_progress n : 0 < n -> uoState row = StateDownloading -> rowStep log st row (set_bytes (Z.min (uiBytesTotal (uoIdentity row)) (uoBytesCompleted row + n)) row)
| rs_debt reason now : terminal (uoState row) = true ->
    rowStep log st row (mkOperation (uoIdentity row) (uoState row) (uoBackupRef row) (uoBytesCompleted row) (uoReasonCode row) (uoRevision row + 1)
                          (uoRestoredUntrusted row) (uoRollbackAvailable row) true reason now)
| rs_clear now : uoCleanupPending row = true ->
    rowStep log st row (mkOperation (uoIdentity row) (uoState row) (uoBackupRef row) (uoBytesCompleted row) (uoReasonCode row) (uoRevision row + 1)
                          (uoRestoredUntrusted row) (uoRollbackAvailable row) false "" now)
| rs_rebind reason now : active_row row = true -> uoRestoredUntrusted row = true ->
    rowStep log st row (mkOperation (uoIdentity row) StateRolledBack "" (uoBytesCompleted row) reason (uoRevision row + 1) false false false "" now)
| rs_mark reason now : active_row row = true ->
    rowStep log st row (mkOperation (uoIdentity row) StateRecoveryRequired "" (uoBytesCompleted row) reason (uoRevision row + 1) false false false "" now).

Inductive rowsChange (log : list report) (st st' : Store) : Prop :=
| rc_same : stOperations st' = stOperations st -> rowsChange log st st'
| rc_create op : stOperations st !! opID op = None -> stOperations st' = <[opID op := op]> (stOperations st) -> (forall id, ~ active_at id st) ->
    uoState op = StateDownloading -> uoRevision op = 1 -> uoRollbackAvailable op = false -> opID op <> "" -> rowsChange log st st'
| rc_step id row row' : stOperations st !! id = Some row -> stOperations st' = <[id := row']> (stOperations st) -> rowStep log st row row' -> rowsChange log st st'
| rc_remove (ids : gset string) : stOperations st' = filter (fun kv => kv.1 ∉ ids) (stOperations st) ->
    (forall id row, id ∈ ids -> stOperations st !! id = Some row -> must_keep row = false) -> rowsChange log st st'.

Lemma save_rows v channel now st st' :
  saveVerified v channel now st = Ok st' -> stOperations st' = stOperations st /\ stJournal st' = stJournal st /\ stNext st' = stNext st.
Proof.
  unfold saveVerified. destruct (existsb _ _); [done|].
  destruct (stReleases st !! channel) as [r|]; cbn [rbind]; [destruct (negb _); cbn [rbind]; [done|]|];
    destruct (_ || _); try done; destruct (negb _); try done; by intros [= <-].
Qed.

Lemma create_rows op event reason st st' :
  create op event reason st = Ok st' ->
  stOperations st !! opID op = None /\ (forall id row, stOperations st !! id = Some row -> uiIdempotencyKey (uoIdentity row) <> uiIdempotencyKey (uoIdentity op)) /\
  st' = append_journal op event reason (put op st).
Proof.
  unfold create. destruct (_ || _ || _) eqn:E; [done|]. intros [= <-]. bools. destruct E as [[E1 E2] _]. split_and!; [|intros id row Hr Hk|done].
  - by apply eq_None_not_Some.
  - apply not_true_iff_false in E2. apply E2. apply existsb_exists. exists row. split; [|by apply String.eqb_eq].
    apply list_elem_of_In. unfold rows. apply list_elem_of_fmap. exists (id, row). split; [done|]. by apply elem_of_map_to_list.
Qed.

Lemma store_step_rows log st st' : well_keyed st -> storeStep log st st' -> rowsChange log st st'.
Proof.
  intros Hk Hs. destruct Hs as [v channel now st' Hv|op event reason st' Hc Hi H1 H2 H3 H4|op state event reason now st' Hm He Hid Ht Hp Hr|op bytes st' Hp
    |op reason now st' Hd Ht|op now st' Hc|ids Hi|sequences _|op reason st' x Hb Ha|op reason st' x Hm Ha].
  - apply rc_same. by apply save_rows in Hv as (? & _).
  - apply create_rows in Hc as (Hn & _ & ->). by apply (rc_create _ _ _ op).
  - apply (move_rows (moved state reason now op)) in Hm as (row & bytes & Hrow & Hv & Hst & Hby & Hops & _).
    pose proof (Hid _ Hrow) as Ei. change (opID (moved state reason now op)) with (opID op) in Hrow.
    apply (rc_step _ _ _ (opID op) row (transition_columns (moved state reason now op) row bytes)); [done| |].
    { rewrite Hops. f_equal. by rewrite Ei. }
    apply rs_move; simpl; try congruence.
    + intros Hx. unfold opID. rewrite Ei. apply Ht. congruence.
    + intros Hx. by apply (proven_identity op); auto.
    + auto.
    + rewrite Ei. exact Hby.
  - unfold progress in Hp. destruct (bytes <=? 0) eqn:Eb; [done|]. destruct (fenced _ _ _ _) as [row|] eqn:Hf; [|done]. destruct (negb _); [done|].
    injection Hp as <-. apply fenced_row in Hf as (Hrow & Hv & Hst). bools.
    eapply rc_step; [exact Hrow| |apply (rs_progress _ _ _ bytes); [lia|done]]. simpl. by rewrite <- (Hk _ _ Hrow) at 1.
  - unfold recordCleanupDebt in Hd. destruct (fenced _ _ _ _) as [row|] eqn:Hf; [|done]. injection Hd as <-. apply fenced_row in Hf as (Hrow & Hv & Hst).
    eapply rc_step; [exact Hrow| |eapply rs_debt; congruence]. rewrite <- Hv at 2. simpl. rewrite <- (Hk _ _ Hrow) at 1. done.
  - unfold clearCleanupDebt in Hc. destruct (stOperations st !! opID op) as [row|] eqn:Hrow; [|done]. destruct (_ || _) eqn:E; [done|]. injection Hc as <-. bools.
    destruct E as [Hv Hcl]. eapply rc_step; [exact Hrow| |by apply rs_clear]. rewrite <- Hv. simpl. rewrite <- (Hk _ _ Hrow) at 1. done.
  - by apply (rc_remove _ _ _ ids).
  - by apply rc_same.
  - unfold rebindRestoredRollback in Hb. destruct (stOperations st !! opID op) as [row|] eqn:Hrow; [|done]. destruct (_ || _) eqn:E; [done|]. injection Hb as <- <-.
    bools. destruct E as [[Hre _] _]. destruct Ha as (r & Hr & Ha). assert (r = row) as -> by congruence.
    eapply rc_step; [exact Hrow| |by apply rs_rebind]. simpl. rewrite <- (Hk _ _ Hrow) at 1. done.
  - unfold markRollbackRecovery in Hm. destruct (stOperations st !! opID op) as [row|] eqn:Hrow; [|done]. injection Hm as <- <-.
    destruct Ha as (r & Hr & Ha). assert (r = row) as -> by congruence.
    eapply rc_step; [exact Hrow| |by apply rs_mark]. simpl. rewrite <- (Hk _ _ Hrow) at 1. done.
Qed.

(** ** The invariants are preserved *)
Lemma row_step_identity log st row row' : rowStep log st row row' -> uoIdentity row' = uoIdentity row.
Proof. by intros []. Qed.

Lemma row_step_active log st row row' : rowStep log st row row' -> active_row row' = true -> active_row row = true \/ alone (opID row) st.
Proof.
  unfold active_row. intros Hs Ha. destruct (terminal (uoState row)) eqn:Et; [right|by left].
  destruct Hs as [op state reason now bytes _ _ _ He Hal _ _ _|n _ Hd|reason now Ht|now Hc|reason now Hx _|reason now Hx]; simpl in *.
  - by apply Hal.
  - by rewrite Hd in Et.
  - by rewrite Et in Ha.
  - by rewrite Et in Ha.
  - unfold active_row in Hx. by rewrite Et in Hx.
  - unfold active_row in Hx. by rewrite Et in Hx.
Qed.

Lemma exclusive_change log st st' : exclusive st -> well_keyed st -> rowsChange log st st' -> exclusive st'.
Proof.
  intros He Hk Hc i j (ri & Hi & Ai) (rj & Hj & Aj). destruct Hc as [E|op Hn E Hidle Hst _ _ _|id row row' Hr E Hs|ids E _]; rewrite E in Hi, Hj.
  - apply He; [by exists ri|by exists rj].
  - destruct (decide (i = opID op)) as [->|Hi']; destruct (decide (j = opID op)) as [->|Hj']; [done| | |];
      try (rewrite lookup_insert_ne in Hj by done; destruct (Hidle j); by exists rj); rewrite lookup_insert_ne in Hi by done; destruct (Hidle i); by exists ri.
  - assert (Halone : active_row row' = true -> forall k rk, k <> id -> stOperations st !! k = Some rk -> active_row rk = true -> False).
    { intros Ha k rk Hne Hkr Hka. destruct (row_step_active _ _ _ _ Hs Ha) as [Hra|Hal].
      - apply Hne. apply He; [by exists rk|by exists row].
      - apply Hne. rewrite <- (Hk _ _ Hr). by apply (Hal k rk). }
    destruct (decide (i = id)) as [->|Hi']; destruct (decide (j = id)) as [->|Hj']; [done| | |].
    + rewrite lookup_insert_eq in Hi. injection Hi as <-. rewrite lookup_insert_ne in Hj by done. destruct (Halone Ai j rj); done.
    + rewrite lookup_insert_eq in Hj. injection Hj as <-. rewrite lookup_insert_ne in Hi by done. destruct (Halone Aj i ri); done.
    + rewrite lookup_insert_ne in Hi, Hj by done. apply He; [by exists ri|by exists rj].
  - apply map_lookup_filter_Some in Hi as [Hi _], Hj as [Hj _]. apply He; [by exists ri|by exists rj].
Qed.

Lemma well_keyed_change log st st' : well_keyed st -> rowsChange log st st' -> well_keyed st'.
Proof.
  intros Hk Hc id r Hr. destruct Hc as [E|op Hn E _ _ _ _ _|i row row' Hi E Hs|ids E _]; rewrite E in Hr.
  - by apply Hk.
  - destruct (decide (id = opID op)) as [->|Hne]; [rewrite lookup_insert_eq in Hr; by injection Hr as <-|]. rewrite lookup_insert_ne in Hr by done. by apply Hk.
  - destruct (decide (id = i)) as [->|Hne]; [|rewrite lookup_insert_ne in Hr by done; by apply Hk]. rewrite lookup_insert_eq in Hr. injection Hr as <-.
    unfold opID. rewrite (row_step_identity _ _ _ _ Hs). by apply (Hk i).
  - apply map_lookup_filter_Some in Hr as [Hr _]. by apply Hk.
Qed.

Lemma named_change log st st' : named st -> rowsChange log st st' -> named st'.
Proof.
  unfold named. intros Hn Hc. destruct Hc as [E|op _ E _ _ _ _ Hne|i row row' Hi E _|ids E _]; rewrite E; [done|by rewrite lookup_insert_ne| |].
  - rewrite lookup_insert_ne; [done|]. intros ->. congruence.
  - apply map_lookup_filter_None_2. by left.
Qed.

Lemma prepared_change log st st' : prepared_ok st -> rowsChange log st st' -> prepared_ok st'.
Proof.
  intros Hp Hc id r Hr Hst. destruct Hc as [E|op _ E _ Hop _ _ _|i row row' Hi E Hs|ids E _]; rewrite E in Hr; [by eapply Hp| | |].
  - destruct (decide (id = opID op)) as [->|Hne]; [|rewrite lookup_insert_ne in Hr by done; by eapply Hp]. rewrite lookup_insert_eq in Hr. injection Hr as <-. by rewrite Hop in Hst.
  - destruct (decide (id = i)) as [->|Hne]; [|rewrite lookup_insert_ne in Hr by done; by eapply Hp]. rewrite lookup_insert_eq in Hr. injection Hr as <-.
    destruct Hs; simpl in *; subst; try (by eapply Hp); try done. auto.
  - apply map_lookup_filter_Some in Hr as [Hr _]. by eapply Hp.
Qed.

Lemma journal_ok_filter (f : UpdateJournal -> bool) ops rel st : journal_ok st -> journal_ok (mkStore ops rel (List.filter f (stJournal st)) (stNext st)).
Proof.
  intros [Hn Hl]. split; simpl.
  - clear Hl. induction (stJournal st) as [|j l IH]; [done|]. rewrite fmap_cons, NoDup_cons in Hn. destruct Hn as [Hx Hn]. simpl. destruct (f j); [|auto].
    rewrite fmap_cons, NoDup_cons. split; [|auto]. intros (y & E & Hy)%list_elem_of_fmap. apply Hx. rewrite E. apply list_elem_of_fmap_2.
    rewrite list_elem_of_In, filter_In, <- list_elem_of_In in Hy. tauto.
  - intros j. rewrite list_elem_of_In, filter_In, <- list_elem_of_In. intros [Hj _]. auto.
Qed.

(** What a step does to the journal: nothing, an appended entry, or a removal. *)
Lemma store_step_journal log st st' : storeStep log st st' -> journal_ok st -> journal_ok st'.
Proof.
  intros Hs Hj. destruct Hs as [v channel now st' Hv|op event reason st' Hc _ _ _ _ _|op state event reason now st' Hm _ _ _ _ _|op bytes st' Hp
    |op reason now st' Hd _|op now st' Hc|ids _|sequences _|op reason st' x Hb _|op reason st' x Hm _].
  - apply save_rows in Hv as (_ & J & N). unfold journal_ok. by rewrite J, N.
  - apply create_rows in Hc as (_ & _ & ->). by apply journal_ok_append.
  - apply (move_rows (moved state reason now op)) in Hm as (row & bytes & _ & _ & _ & _ & _ & J & N). unfold journal_ok. rewrite J, N.
    exact (journal_ok_append (moved state reason now op) event reason st Hj).
  - unfold progress in Hp. destruct (_ <=? _); [done|]. destruct (fenced _ _ _ _); [|done]. destruct (negb _); [done|]. by injection Hp as <-.
  - unfold recordCleanupDebt in Hd. destruct (fenced _ _ _ _); [|done]. injection Hd as <-. by apply journal_ok_append.
  - unfold clearCleanupDebt in Hc. destruct (stOperations st !! opID op); [|done]. destruct (_ || _); [done|]. injection Hc as <-. by apply journal_ok_append.
  - by apply journal_ok_filter.
  - by apply journal_ok_filter.
  - unfold rebindRestoredRollback in Hb. destruct (stOperations st !! opID op); [|done]. destruct (_ || _); [done|]. injection Hb as <- _. by apply journal_ok_append.
  - unfold markRollbackRecovery in Hm. destruct (stOperations st !! opID op); [|done]. injection Hm as <- _. by apply journal_ok_append.
Qed.

Lemma store_step_ok log st st' : store_ok st -> storeStep log st st' -> store_ok st'.
Proof.
  intros [He Hk Hn Hj Hp] Hs. pose proof (store_step_rows _ _ _ Hk Hs) as Hc. split; [by eapply exclusive_change|by eapply well_keyed_change|by eapply named_change|by eapply store_step_journal|by eapply prepared_change].
Qed.

Lemma export_row st id row' : stOperations (exportStore st) !! id = Some row' <-> exists row, stOperations st !! id = Some row /\ row' = exportOperation row.
Proof. simpl. rewrite lookup_fmap_Some. naive_solver. Qed.

Lemma export_active id st : active_at id (exportStore st) <-> active_at id st.
Proof.
  unfold active_at. split.
  - intros (r' & (r & Hr & ->)%export_row & Ha). by exists r.
  - intros (r & Hr & Ha). exists (exportOperation r). split; [apply export_row; eauto|done].
Qed.

Lemma export_ok st : store_ok st -> store_ok (exportStore st).
Proof.
  intros [He Hk Hn Hj Hp]. split; [|intros id r' (r & Hr & ->)%export_row; exact (Hk id r Hr)| |done|intros id r' (r & Hr & ->)%export_row; exact (Hp id r Hr)];
    [|unfold named; simpl; by rewrite lookup_fmap, Hn].
  intros i j. rewrite !export_active. apply He.
Qed.

Lemma env_step_inv s s' : inv s -> envStep s s' -> inv s'.
Proof.
  intros [Hs Hp Hb] Hst. destruct Hst as [st Hst|s' E1 E2 E3 E4|id d Ha Hn|id d snap Hsn Hn Ha| |]; split; simpl in *; try done.
  - by eapply store_step_ok.
  - by rewrite E1.
  - by rewrite E2.
  - intros id d snap Hx. apply (Hb id d). by eapply lookup_weaken.
  - intros i d' snap Hx. destruct (decide (i = id)) as [->|Hne].
    + rewrite lookup_insert_eq in Hx. injection Hx as <- <-. split; [by apply export_ok|by apply export_active].
    + rewrite lookup_insert_ne in Hx by done. by apply (Hb i d').
  - by apply (Hb id d).
  - by intros p [= <-].
  - destruct (ePrior s) as [p|]; simpl; [by apply Hp|done].
Qed.

Lemma rely_inv s s' : rely s s' -> inv s -> inv s'.
Proof.
  intros (Hr & _ & _ & _ & Eb & Ep & _) [Hs Hp Hb]. split; [by eapply store_ok_same|by rewrite Ep|by rewrite Eb].
Qed.
End Steps.
