(* ===== verification/UpdateLogic.v ===== *)
(** * Update lifecycle: every action of a call is a step

    [permitted] and [answered] instantiate the weakest preconditions of [Programs]: an
    action is permitted when each of its effects is an [envStep], and between two actions
    others may interfere as [rely] says.  The lemmas walk through the calls of the manager
    and show that each one issues permitted actions only, and leaves the environment
    [calm]: no restore is pending when the mutex is released.

    Most actions are [quiet]: they read, ask, or talk to the broker.  [wp_quiet] covers
    every program of quiet actions at once, and keeps the reports that it received
    ([returns]), which is the evidence that a release was verified. *)

From S2P Require Import Prelude GoStrings VersionPolicy Programs ReleaseManifest UpdateStore UpdateProvider UpdateLifecycle UpdateSemantics UpdateInvariants.

Open Scope string_scope.
Open Scope list_scope.
Open Scope Z_scope.

(** ** What quiet actions keep *)
Definition keeps (s s' : env) : Prop :=
  same_rows (eStore s) (eStore s') /\ ePrior s' = ePrior s /\ pcRestorePending (eMemory s') = pcRestorePending (eMemory s) /\ exists l, eLog s' = l ++ eLog s.

#[global] Instance keeps_refl : Reflexive keeps.
Proof. intros s. split_and!; [reflexivity|done|done|by exists []]. Qed.

#[global] Instance keeps_trans : Transitive keeps.
Proof.
  intros a b c (R1 & P1 & M1 & l1 & L1) (R2 & P2 & M2 & l2 & L2). split_and!; [by etrans|congruence|congruence|]. exists (l2 ++ l1). by rewrite L2, L1, app_assoc.
Qed.

Lemma rely_keeps s s' : rely s s' -> keeps s s'.
Proof. intros (R & M & _ & _ & _ & P & L). split_and!; [done|done|by rewrite M|]. exists []. by rewrite L. Qed.

Section Quiet.
Context `{Digests} (tick : Z -> Z -> Prop).

Definition permitted (B : Type) (e : updateE B) (s : env) : Prop := forall b s', effect tick B e s b s' -> envStep s s'.
Definition answered (B : Type) (e : updateE B) (s : env) (b : B) (s' : env) : Prop := exists s1, effect tick B e s b s1 /\ rely s1 s' /\ inv s'.

Definition uwp {A} (p : prog A) (Q : A -> env -> Prop) (s : env) : Prop := wp permitted answered p Q s.

(** Actions that change no row but for the bytes of a download; a backup may be published
    of operation [who], which is under way. *)
Definition quietE (who : option string) {B} (e : updateE B) : Prop :=
  match e with
  | Commit tx => forall st st' a, tx st = Ok (st', a) -> exists op n, progress op n st = Ok st'
  | Local f => forall m, pcRestorePending (f m).1 = pcRestorePending m
  | PublishBackup op => who = Some (opID op)
  | RestoreDatabase _ | CompletePendingRestore | AbortPendingRestore => False
  | _ => True
  end.

Fixpoint quiet (who : option string) {A} (p : prog A) : Prop :=
  match p with
  | Ret _ => True
  | Do e k => quietE who e /\ forall b, quiet who (k b)
  end.

(** [returns p l a]: [p] may answer [a] after it received the reports [l], newest first. *)
Fixpoint returns {A} (p : prog A) (l : list report) (a : A) : Prop :=
  match p with
  | Ret x => l = [] /\ a = x
  | Do e k => exists b l', returns (k b) l' a /\ l = l' ++ reports e b
  end.

Lemma progress_same_rows op n st st' : well_keyed st -> progress op n st = Ok st' -> same_rows st st'.
Proof.
  unfold progress. intros Hk. destruct (_ <=? _); [done|]. destruct (fenced _ _ _ _) as [row|] eqn:Hf; [|done]. destruct (negb _); [done|]. intros [= <-].
  apply fenced_row in Hf as (Hr & _). split_and!; [done|done|]. intros id. simpl. unfold opID at 1. simpl.
  change (uiOperationID (uoIdentity row)) with (opID row). rewrite (Hk _ _ Hr).
  destruct (decide (id = opID op)) as [->|Hne]; [by rewrite lookup_insert_eq, Hr|by rewrite lookup_insert_ne].
Qed.

(** A change outside the rows is a step that keeps them. *)
Lemma other_effect s s' l :
  eStore s' = eStore s -> ePrior s' = ePrior s -> eBackups s' ⊆ eBackups s -> pcRestorePending (eMemory s') = pcRestorePending (eMemory s) ->
  eLog s' = l ++ eLog s -> envStep s s' /\ keeps s s' /\ eLog s' = l ++ eLog s.
Proof.
  intros E1 E2 E3 E4 E5. split_and!; [apply es_other; eauto|split_and!; eauto; by rewrite E1|done].
Qed.

Lemma mutate_effect {A} (call : mutation A) op ordinal s b s' :
  effect tick _ (Mutate call op ordinal) s b s' -> eStore s' = eStore s /\ ePrior s' = ePrior s /\ eBackups s' = eBackups s /\ eMemory s' = eMemory s /\
    eLog s' = reports (Mutate call op ordinal) b ++ eLog s.
Proof. simpl. intros [[-> [->| ->]]|[[_ ->]|(_ & _ & ->)]]; split_and!; try done; by destruct call. Qed.

Lemma quiet_effect who {B} (e : updateE B) s b s' :
  quietE who e -> inv s -> (forall id, who = Some id -> active_at id (eStore s)) -> effect tick _ e s b s' ->
  envStep s s' /\ keeps s s' /\ eLog s' = reports e b ++ eLog s.
Proof.
  intros Hq Hi Hw He. destruct e;
    try (simpl in He; subst s'; by apply other_effect);
    try done.
  - destruct He as [-> _]. by apply other_effect.
  - simpl in Hq, He. destruct He as [[-> ->]|He]; [by apply other_effect|]. destruct (tx (eStore s)) as [[st a]|x] eqn:Et; destruct He as [-> ->]; [|by apply other_effect].
    destruct (Hq _ _ _ Et) as (op & n & Hp). split_and!; [apply es_store; by eapply ss_progress| |done].
    split_and!; [by eapply progress_same_rows; [apply Hi|]|done|done|by exists []].
  - destruct He as [-> _]. apply other_effect; try done. simpl. apply Hq.
  - destruct He as [_ ->]. by apply other_effect.
  - apply mutate_effect in He as (E1 & E2 & E3 & E4 & E5). apply other_effect; try done; [by rewrite E3|by rewrite E4].
  - simpl in Hq, He. destruct b as [d|x]; [|subst s'; by apply other_effect]. destruct (eBackups s !! opID op) as [[d' snap]|] eqn:Eb; [destruct He as [_ ->]; by apply other_effect|].
    subst s'. split_and!; [by apply es_backup; [apply Hw|]| |done]. split_and!; try done. by exists [].
  - destruct He as (backups & Hs & ->). by apply other_effect.
Qed.

(** Every program of quiet actions. *)
Lemma wp_quiet who {A} (p : prog A) s :
  quiet who p -> inv s -> (forall id, who = Some id -> active_at id (eStore s)) ->
  uwp p (fun a s' => keeps s s' /\ inv s' /\ exists l, returns p l a /\ eLog s' = l ++ eLog s) s.
Proof.
  unfold uwp. revert s. induction p as [a|B e k IH]; intros s Hq Hi Hw; simpl.
  - split_and!; [reflexivity|done|]. by exists [].
  - destruct Hq as [Hq Hk]. split; [intros b s' He; by eapply quiet_effect|]. intros b s' (s1 & He & Hr & Hi').
    destruct (quiet_effect who e s b s1 Hq Hi Hw He) as (_ & K1 & L1). assert (K2 : keeps s s') by (etrans; [exact K1|by apply rely_keeps]).
    eapply wp_mono; [apply IH; [done|done|]|].
    + intros id Hid. eapply active_at_same; [apply K2|auto].
    + intros a s2 (K3 & Hi2 & l & Hret & Hl). split_and!; [by etrans|done|]. exists (l ++ reports e b). split; [by exists b, l|].
      destruct Hr as (_ & _ & _ & _ & _ & _ & El). by rewrite Hl, El, L1, app_assoc.
Qed.

(** *** Composition *)
Lemma quiet_bind who {A B} (p : prog A) (f : A -> prog B) : quiet who p -> (forall a, quiet who (f a)) -> quiet who (p ≫= f).
Proof. unfold mbind, prog_bind. intros Hp Hf. induction p as [a|C e k IH]; simpl in *; [auto|]. destruct Hp as [He Hk]. split; [done|]. intros b. by apply IH. Qed.

Lemma quiet_attempt who {X A B} (p : prog (result X A)) (k : A -> prog (result X B)) : quiet who p -> (forall a, quiet who (k a)) -> quiet who (attempt p k).
Proof. intros Hp Hk. apply (quiet_bind who p); [done|]. by intros [a|e]. Qed.

Lemma returns_bind {A B} (p : prog A) (f : A -> prog B) l b :
  returns (p ≫= f) l b -> exists a l1 l2, returns p l1 a /\ returns (f a) l2 b /\ l = l2 ++ l1.
Proof.
  unfold mbind, prog_bind. revert l. induction p as [a|C e k IH]; simpl; intros l Hr.
  - exists a, [], l. by rewrite app_nil_r.
  - destruct Hr as (c & l' & Hr & ->). apply IH in Hr as (a & l1 & l2 & H1 & H2 & ->). exists a, (l1 ++ reports e c), l2. split_and!; [eauto|done|by rewrite app_assoc].
Qed.

Lemma returns_attempt {X A B} (p : prog (result X A)) (k : A -> prog (result X B)) l b :
  returns (attempt p k) l b -> (exists e, b = Err e /\ returns p l (Err e)) \/ exists a l1 l2, returns p l1 (Ok a) /\ returns (k a) l2 b /\ l = l2 ++ l1.
Proof.
  intros (r & l1 & l2 & H1 & H2 & ->)%(returns_bind p). destruct r as [a|e]; [right; by exists a, l1, l2|]. left. destruct H2 as [-> ->]. eauto.
Qed.

Lemma returns_act {B} (e : updateE B) l b : returns (act e) l b -> l = reports e b.
Proof. simpl. intros (b' & l' & [-> ->] & ->). done. Qed.
End Quiet.

Create HintDb quiet.

Ltac quiet_step :=
  match goal with
  | |- quiet _ (Ret _) => exact I
  | |- quiet _ (fail _) => exact I
  | |- quiet _ (refuse _) => exact I
  | |- quiet _ (act _) => split; [by first [exact I|intros ?|done]|by intros ?]
  | |- quiet _ (_ ≫= _) => apply quiet_bind; [|intros ?]
  | |- quiet _ (attempt _ _) => apply quiet_attempt; [|intros ?]
  | |- quiet _ (match ?x with _ => _ end) => destruct x
  | |- quiet _ _ => solve [eauto with quiet]
  end.
Ltac quiet := repeat (cbv zeta; quiet_step).

(** ** Quiet programs *)
Section QuietPrograms.
Context `{ReleaseCodec} `{Digests} (cfg : Config) (who : option string).

Lemma quiet_mutate {A} (call : mutation A) op ordinal : quiet who (mutate call op ordinal).
Proof. unfold mutate. quiet. Qed.
#[local] Hint Resolve quiet_mutate : quiet.

Lemma quiet_observe op : quiet who (observeLiveRollback cfg op).
Proof. unfold observeLiveRollback. quiet. Qed.
#[local] Hint Resolve quiet_observe : quiet.

Lemma quiet_require op : quiet who (requireProviderMaintenance op).
Proof. unfold requireProviderMaintenance. quiet. Qed.

Lemma quiet_for op : quiet who (providerMaintenanceFor op).
Proof. unfold providerMaintenanceFor. quiet. Qed.
#[local] Hint Resolve quiet_require quiet_for : quiet.

Lemma quiet_proof op : quiet who (providerProof cfg op).
Proof. unfold providerProof. quiet. Qed.
#[local] Hint Resolve quiet_proof : quiet.

Lemma quiet_checkpoint op : quiet who (providerCheckpoint cfg op).
Proof. unfold providerCheckpoint. quiet. Qed.

Lemma quiet_pending_probe : quiet who (pendingProviderMaintenance cfg).
Proof. unfold pendingProviderMaintenance. quiet. Qed.

Lemma quiet_admit_request op request : quiet who (AdmitProviderRequest cfg op request).
Proof. unfold AdmitProviderRequest. quiet. Qed.

Lemma quiet_admit_rollback op : quiet who (AdmitProviderRollback cfg op).
Proof. unfold AdmitProviderRollback. quiet. Qed.
#[local] Hint Resolve quiet_checkpoint quiet_pending_probe quiet_admit_request quiet_admit_rollback : quiet.

Lemma quiet_stage_configuration identity input op size parts offset index : quiet who (stageConfiguration identity input op size parts offset index).
Proof. revert offset index. induction parts as [|part parts IH]; intros offset index; cbn [stageConfiguration]; quiet. Qed.
#[local] Hint Resolve quiet_stage_configuration : quiet.

Lemma quiet_checkpointed identity snapshot backup executable op : quiet who (preflightCheckpointed cfg identity snapshot backup executable op).
Proof. unfold preflightCheckpointed. quiet. Qed.

Lemma quiet_snapshot proof held : quiet who (providerSnapshot cfg proof held).
Proof. unfold providerSnapshot. quiet. Qed.
#[local] Hint Resolve quiet_snapshot : quiet.

Lemma quiet_activate_provider op proof : quiet who (activateProvider cfg op proof).
Proof. unfold activateProvider. quiet. Qed.

Lemma quiet_verify_provider op proof rollback : quiet who (verifyProvider cfg op proof rollback).
Proof. unfold verifyProvider. cbv zeta. destruct rollback; quiet. Qed.
#[local] Hint Resolve quiet_activate_provider quiet_verify_provider : quiet.

Lemma quiet_broker_rollback op : quiet who (brokerRollback op).
Proof. unfold brokerRollback. quiet. Qed.
#[local] Hint Resolve quiet_broker_rollback : quiet.

Lemma quiet_rollback_provider op proof : quiet who (rollbackProvider cfg op proof).
Proof. unfold rollbackProvider. quiet. Qed.

Lemma quiet_maintenance_proof op : quiet who (maintenanceProof cfg op).
Proof. unfold maintenanceProof. quiet. Qed.
#[local] Hint Resolve quiet_rollback_provider quiet_maintenance_proof : quiet.

Lemma quiet_stage_chunks identity op a parts readErr offset : quiet who (stageChunks identity op a parts readErr offset).
Proof. revert offset. induction parts as [|part parts IH]; intros offset; cbn [stageChunks]; quiet. Qed.
#[local] Hint Resolve quiet_stage_chunks : quiet.

Lemma quiet_stage op verified artifacts progress : (forall n, quiet who (progress n)) -> quiet who (DownloadAndStage cfg op verified artifacts progress).
Proof.
  intros Hp. assert (Hone : forall a, quiet who (downloadAndStageArtifact op verified a progress)) by (intros a; unfold downloadAndStageArtifact; quiet).
  assert (Hall : quiet who (stageAll op verified artifacts progress)) by (induction artifacts as [|a l IH]; cbn [stageAll]; quiet).
  unfold DownloadAndStage, brokerDownloadAndStage. quiet.
Qed.

Lemma quiet_cleanup op : quiet who (brokerCleanupTerminal cfg op).
Proof. unfold brokerCleanupTerminal. quiet. Qed.

Lemma quiet_activate op : quiet who (ActivateRelease cfg op).
Proof. unfold ActivateRelease, brokerActivate. quiet. Qed.

Lemma quiet_verify op : quiet who (VerifyActive cfg op).
Proof. unfold VerifyActive, brokerVerifyActive. quiet. Qed.

Lemma quiet_reconcile op : quiet who (Reconcile cfg op).
Proof. unfold Reconcile, brokerReconcile. quiet. Qed.

Lemma quiet_health op : quiet who (checkHealth cfg op).
Proof. unfold checkHealth. quiet. Qed.

Lemma quiet_maintenance_active : quiet who maintenanceActive.
Proof. unfold maintenanceActive. quiet. Qed.

Lemma quiet_begin : quiet who (beginMaintenance cfg).
Proof. unfold beginMaintenance. quiet. Qed.

Lemma quiet_end : quiet who endProviderMaintenance.
Proof. unfold endProviderMaintenance. quiet. Qed.
#[local] Hint Resolve quiet_maintenance_active quiet_begin quiet_end : quiet.

Lemma quiet_legacy : quiet who (legacyCoreProviderAdmission cfg).
Proof. unfold legacyCoreProviderAdmission. quiet. Qed.
#[local] Hint Resolve quiet_legacy : quiet.

Lemma quiet_compatibility verified : quiet who (validateManifestCompatibility cfg verified).
Proof. unfold validateManifestCompatibility. quiet. Qed.
#[local] Hint Resolve quiet_compatibility : quiet.

Lemma quiet_fetch channel applied : quiet who (fetchAndVerify cfg channel applied).
Proof. unfold fetchAndVerify. quiet. Qed.

Lemma quiet_fetch_provider channel target applied : quiet who (fetchProviderRelease cfg channel target applied).
Proof. unfold fetchProviderRelease. quiet. Qed.

Lemma quiet_unblocked : quiet who unblocked.
Proof. unfold unblocked. quiet. Qed.

Lemma quiet_maintenance_guard op : quiet who (maintenance_guard cfg op).
Proof. unfold maintenance_guard. quiet. Qed.

Lemma quiet_last_applied op : quiet who (last_applied_guard op).
Proof. unfold last_applied_guard. quiet. Qed.

Lemma quiet_hold : quiet who (holdProviderRecovery cfg).
Proof. unfold holdProviderRecovery. quiet. Qed.
#[local] Hint Resolve quiet_hold : quiet.

Lemma quiet_recover : quiet who (RecoverProviderMaintenance cfg).
Proof. unfold RecoverProviderMaintenance. quiet. Qed.
End QuietPrograms.

#[export] Hint Resolve quiet_mutate quiet_observe quiet_require quiet_for quiet_proof quiet_checkpoint quiet_admit_request quiet_admit_rollback quiet_checkpointed
  quiet_broker_rollback quiet_rollback_provider quiet_maintenance_proof quiet_stage quiet_cleanup quiet_activate quiet_verify quiet_reconcile quiet_health
  quiet_maintenance_active quiet_begin quiet_end quiet_legacy quiet_fetch quiet_fetch_provider quiet_unblocked quiet_maintenance_guard quiet_last_applied
  quiet_recover : quiet.

(** ** Evidence in the reports *)
Ltac returns_step :=
  match goal with
  | Hr : returns (Ret _) _ _ |- _ => destruct Hr as [-> Hr]
  | Hr : returns (fail _) _ _ |- _ => destruct Hr as [-> Hr]
  | Hr : returns (act _) _ _ |- _ => apply returns_act in Hr as ->
  | Hr : returns (mutate _ _ _) _ _ |- _ => unfold mutate in Hr
  | Hr : returns (_ ≫= _) _ _ |- _ => apply returns_bind in Hr as (? & ? & ? & ? & Hr & ->)
  | Hr : returns (attempt _ _) _ _ |- _ => apply returns_attempt in Hr as [(? & ? & ?)|(? & ? & ? & ? & Hr & ->)]
  | Hr : returns (match ?x with _ => _ end) _ _ |- _ => destruct x eqn:?
  end.
Ltac returns_inv := repeat (cbv zeta in *; returns_step; try (by simplify_eq)).

Section Evidence.
Context `{ReleaseCodec} `{Digests} (cfg : Config).

Lemma andb_refusals a b c d e : a && b && c && d && e = true -> negb a || negb b || negb c = false /\ negb d || negb e = false.
Proof. by destruct a, b, c, d, e. Qed.

(** The conditions of [verified_release], as the provider tests them. *)
Lemma verified_intro op v :
  negb (String.eqb (vsProviderRevision v) ProviderRevision) || negb (vsVerified v) || negb (vsManagementReady v) = false ->
  negb (vsVerifiedSequence v =? opSequence op) || negb (String.eqb (vsVerifiedDigest v) (opManifest op)) = false ->
  verified_release op (RVerified (opID op) v) = true.
Proof.
  simpl. rewrite String.eqb_refl. destruct (String.eqb (vsProviderRevision v) _), (vsVerified v), (vsManagementReady v), (_ =? _), (String.eqb _ _); done.
Qed.

Lemma verify_provider_evidence op proof l : returns (verifyProvider cfg op proof false) l (Ok true) -> existsb (verified_release op) l = true.
Proof.
  unfold verifyProvider. intros Hr. returns_inv; cbn [reports app existsb]; by rewrite verified_intro.
Qed.

Lemma verify_evidence op l : returns (VerifyActive cfg op) l (Ok true) -> existsb (verified_release op) l = true.
Proof.
  unfold VerifyActive, brokerVerifyActive. intros Hr. returns_inv.
  - rewrite existsb_app. apply orb_true_iff. left. by eapply verify_provider_evidence.
  - injection Hr as Hr. symmetry in Hr. cbn [reports app existsb]. rewrite verified_intro; [done| |]; by apply andb_refusals in Hr as [? ?].
Qed.

Lemma health_evidence op l h : returns (checkHealth cfg op) l h -> hrReady h = true -> existsb (healthy op) l = true.
Proof.
  unfold checkHealth. intros Hr Hh. returns_inv; subst; try done. simpl in *. by rewrite String.eqb_refl, Hh.
Qed.

(** What a provider may report at startup. *)
Lemma reconcile_states op o state :
  reconcileBrokerObservation op o = (state, None) ->
  state = StateApplied \/ state = StateVerifyingActive \/ state = StateRollbackPending \/ state = StateRollingBack.
Proof.
  unfold reconcileBrokerObservation. cbv zeta. repeat (case_match; try (by intros [= <-]; auto); try done); intros [= <-]; auto.
Qed.

Lemma reconcile_applied op o :
  String.eqb (obProviderRevision o) ProviderRevision = true -> reconcileBrokerObservation op o = (StateApplied, None) -> verified_release op (RObserved o) = true.
Proof.
  intros Hp Hr. simpl. rewrite Hp. simpl. unfold reconcileBrokerObservation in Hr. cbv zeta in Hr. repeat (case_match; try (by simplify_eq)); done.
Qed.

Lemma reconcile_evidence op l state :
  returns (Reconcile cfg op) l (state, None) ->
  (state = StateApplied \/ state = StateVerifyingActive \/ state = StateRollbackPending \/ state = StateRollingBack) /\
  (state = StateApplied -> existsb (verified_release op) l = true).
Proof.
  unfold Reconcile, brokerReconcile. intros Hr. returns_inv; try (injection Hr as ->; split; [auto|done]).
  symmetry in Hr. split; [by eapply reconcile_states|]. intros ->. cbn [reports app existsb].
  rewrite existsb_app. apply orb_true_iff. right. cbn [existsb]. by rewrite (reconcile_applied op).
Qed.
End Evidence.
