(* ===== verification/UpdateCalls.v ===== *)
(** * Update lifecycle: the calls of the manager issue steps only

    Assertions about an operation that a call works on, rules for the actions that change
    rows, and a lemma for each call: from a [calm] environment its actions are permitted,
    and it ends [calm]. *)

From S2P Require Import Prelude GoStrings VersionPolicy Programs ReleaseManifest UpdateStore UpdateProvider UpdateLifecycle UpdateSemantics UpdateInvariants UpdateLogic.

Open Scope string_scope.
Open Scope list_scope.
Open Scope Z_scope.

(** ** Assertions *)

(** No restore is pending. *)
Definition calm (s : env) : Prop := inv s /\ pcRestorePending (eMemory s) = false /\ ePrior s = None.

(** The row of the operation, if there is one, is the operation's. *)
Definition owned (op : UpdateOperation) (st : Store) : Prop := forall row, stOperations st !! opID op = Some row -> uoIdentity row = uoIdentity op.

Definition ready (op : UpdateOperation) (s : env) : Prop := calm s /\ owned op (eStore s) /\ alone (opID op) (eStore s).

Definition under (op : UpdateOperation) (s : env) : Prop := ready op s /\ active_at (opID op) (eStore s).

(** The database was replaced: the operation is under way in the restored one and in the replaced one. *)
Definition restored (op : UpdateOperation) (s : env) : Prop :=
  inv s /\ pcRestorePending (eMemory s) = true /\ active_at (opID op) (eStore s) /\ exists p, ePrior s = Some p /\ active_at (opID op) p.

Lemma owned_same op st st' : same_rows st st' -> owned op st -> owned op st'.
Proof. intros Hs Ho row Hr. destruct (same_rows_back _ _ _ _ Hs Hr) as (n & r & Hr' & ->). exact (Ho r Hr'). Qed.

Lemma calm_keeps s s' : calm s -> keeps s s' -> inv s' -> calm s'.
Proof. intros (_ & Hp & Hr) (_ & E1 & E2 & _) Hi. split_and!; [done|congruence|congruence]. Qed.

Lemma ready_keeps op s s' : ready op s -> keeps s s' -> inv s' -> ready op s'.
Proof. intros (Hc & Ho & Ha) Hk Hi. split_and!; [by eapply calm_keeps|by eapply owned_same; [apply Hk|]|by eapply alone_same; [apply Hk|]]. Qed.

Lemma under_keeps op s s' : under op s -> keeps s s' -> inv s' -> under op s'.
Proof. intros (Hr & Ha) Hk Hi. split; [by eapply ready_keeps|by eapply active_at_same; [apply Hk|]]. Qed.

Lemma restored_keeps op s s' : restored op s -> keeps s s' -> inv s' -> restored op s'.
Proof.
  intros (_ & Hp & Ha & p & Hpr & Hap) (Hs & E1 & E2 & _) Hi. split_and!; [done|congruence|by eapply active_at_same|]. exists p. split; [congruence|done].
Qed.

Lemma ready_calm op s : ready op s -> calm s.
Proof. by intros []. Qed.

Lemma under_calm op s : under op s -> calm s.
Proof. by intros [[] _]. Qed.

Lemma calm_inv s : calm s -> inv s.
Proof. by intros []. Qed.

(** The assertions read the identity of the operation only. *)
Lemma ready_identity op op' s : uoIdentity op' = uoIdentity op -> ready op s -> ready op' s.
Proof. unfold ready, owned, opID. by intros ->. Qed.

Lemma under_identity op op' s : uoIdentity op' = uoIdentity op -> under op s -> under op' s.
Proof. intros E [Hr Ha]. split; [by eapply ready_identity|]. unfold opID in *. by rewrite E. Qed.

Lemma active_alone id s : inv s -> active_at id (eStore s) -> alone id (eStore s).
Proof. intros Hi Ha k row Hr Hx. apply (so_exclusive _ (iv_store _ Hi)); [by exists row|done]. Qed.

(** A row that was read. *)
Lemma row_owned op id s : inv s -> stOperations (eStore s) !! id = Some op -> opID op = id /\ owned op (eStore s).
Proof. intros Hi Hr. pose proof (so_keyed _ (iv_store _ Hi) _ _ Hr) as <-. split; [done|]. intros row Hr'. congruence. Qed.

Lemma row_under op id s : calm s -> stOperations (eStore s) !! id = Some op -> active_row op = true -> under op s.
Proof.
  intros Hc Hr Ha. destruct (row_owned op id s) as [<- Ho]; [apply Hc|done|]. assert (Hx : active_at (opID op) (eStore s)) by (by exists op).
  split; [split_and!; [done|done|apply active_alone; [apply Hc|done]]|done].
Qed.

Lemma first_row_in {A} (R : A -> A -> Prop) `{forall x y, Decision (R x y)} cond l x : first_row R cond l = Ok x -> x ∈ l /\ cond x = true.
Proof.
  unfold first_row. destruct (stdpp.sorting.merge_sort R (List.filter cond l)) as [|y l'] eqn:E; [done|]. intros [= ->].
  assert (Hx : x ∈ List.filter cond l) by (rewrite <- (stdpp.sorting.merge_sort_Permutation R), E; by left).
  by rewrite list_elem_of_In, filter_In, <- list_elem_of_In in Hx.
Qed.

Lemma first_row_none {A} (R : A -> A -> Prop) `{forall x y, Decision (R x y)} cond l e x : first_row R cond l = Err e -> x ∈ l -> cond x = false.
Proof.
  unfold first_row. destruct (stdpp.sorting.merge_sort R (List.filter cond l)) as [|y l'] eqn:E; [|done]. intros _ Hx. destruct (cond x) eqn:Ec; [|done].
  assert (Hf : x ∈ List.filter cond l) by (by rewrite list_elem_of_In, filter_In, <- list_elem_of_In).
  rewrite <- (stdpp.sorting.merge_sort_Permutation R), E in Hf. by apply not_elem_of_nil in Hf.
Qed.

Lemma rows_elem row st : row ∈ rows st <-> exists id, stOperations st !! id = Some row.
Proof.
  unfold rows. rewrite list_elem_of_fmap. split.
  - intros ([id r] & -> & Hr). exists id. by apply elem_of_map_to_list in Hr.
  - intros (id & Hr). exists (id, row). split; [done|]. by apply elem_of_map_to_list.
Qed.

Lemma active_found st op : active st = Ok op -> exists id, stOperations st !! id = Some op /\ active_row op = true.
Proof. intros [Hr Ha]%first_row_in. apply rows_elem in Hr as [id Hr]. eauto. Qed.

Lemma active_none st e : active st = Err e -> forall id, ~ active_at id st.
Proof. intros He id (row & Hr & Ha). assert (Hx := first_row_none _ _ _ _ row He). rewrite Hx in Ha; [done|]. apply rows_elem. eauto. Qed.

Lemma no_active_alone st id : (forall k, ~ active_at k st) -> alone id st.
Proof. intros Hn k row Hr Ha. destruct (Hn k). by exists row. Qed.

Lemma no_active_same st st' : same_rows st st' -> (forall k, ~ active_at k st) -> forall k, ~ active_at k st'.
Proof. intros Hs Hn k Ha. symmetry in Hs. apply (Hn k). by eapply active_at_same. Qed.

Lemma proven_log op (l l' : list report) : proven op l -> proven op (l' ++ l).
Proof. intros [H1 H2]. split; rewrite existsb_app, orb_true_iff; by right. Qed.

(** ** Rules for actions *)
Section Rules.
Context `{Digests} (tick : Z -> Z -> Prop).
Abbreviation uwp := (uwp tick).

Lemma uwp_bind {A B} (p : prog A) (f : A -> prog B) Q s : uwp p (fun a => uwp (f a) Q) s -> uwp (p ≫= f) Q s.
Proof. apply wp_bind. Qed.

Lemma uwp_mono {A} (p : prog A) (Q Q' : A -> env -> Prop) s : uwp p Q s -> (forall a s', Q a s' -> Q' a s') -> uwp p Q' s.
Proof. apply wp_mono. Qed.

Lemma uwp_attempt {X A B} (p : prog (result X A)) (k : A -> prog (result X B)) Q s :
  uwp p (fun r s' => match r with Ok a => uwp (k a) Q s' | Err e => Q (Err e) s' end) s -> uwp (attempt p k) Q s.
Proof. apply wp_attempt. Qed.

Lemma uwp_ret {A} (a : A) (Q : A -> env -> Prop) s : Q a s -> uwp (Ret a) Q s.
Proof. done. Qed.

(** A quiet program, with an assertion that it keeps. *)
Lemma uwp_quiet (P : env -> Prop) who {A} (p : prog A) Q s :
  quiet who p -> P s -> inv s -> (forall id, who = Some id -> active_at id (eStore s)) ->
  (forall s', P s -> keeps s s' -> inv s' -> P s') ->
  (forall a s' l, P s' -> keeps s s' -> inv s' -> returns p l a -> eLog s' = l ++ eLog s -> Q a s') -> uwp p Q s.
Proof.
  intros Hq HP Hi Hw Hst HQ. eapply uwp_mono; [by apply (wp_quiet tick who)|]. intros a s' (K & Hi' & l & Hr & Hl). eapply HQ; eauto.
Qed.

(** A read answers from the database as it was, or fails. *)
Lemma uwp_read {A} (q : Store -> result updError A) (Q : result updError A -> env -> Prop) s :
  inv s -> (forall b s', keeps s s' -> inv s' -> b = q (eStore s) \/ b = Err ErrDatabase -> Q b s') -> uwp (act (Read q)) Q s.
Proof.
  intros Hi HQ. split; [intros b s' [-> _]; by apply es_other; try done; exists []|]. intros b s' (s1 & [-> Hb] & Hr & Hi'). apply HQ; [by apply rely_keeps|done|done].
Qed.

(** A transaction either leaves the database, or takes a step of the store. *)
Lemma uwp_commit {A} (tx : Store -> result updError (Store * A)) (Q : result updError A -> env -> Prop) s :
  inv s ->
  (forall st a, tx (eStore s) = Ok (st, a) -> st = eStore s \/ storeStep (eLog s) (eStore s) st) ->
  (forall st a s', tx (eStore s) = Ok (st, a) -> keeps (set_store st s) s' -> inv s' -> Q (Ok a) s') ->
  (forall e s', keeps s s' -> inv s' -> Q (Err e) s') -> uwp (act (Commit tx)) Q s.
Proof.
  intros Hi Hs HQ HE.
  assert (Hsame : envStep s s) by (apply es_other; try done; by exists []).
  split.
  - intros b s' He. simpl in He. destruct He as [[_ ->]|He]; [done|]. destruct (tx (eStore s)) as [[st a]|x] eqn:Et; destruct He as [_ ->]; [|done].
    destruct (Hs _ _ eq_refl) as [->|Hst]; [by destruct s|by apply es_store].
  - intros b s' (s1 & He & Hr & Hi'). simpl in He. apply rely_keeps in Hr. destruct He as [[-> ->]|He]; [by apply HE|].
    destruct (tx (eStore s)) as [[st a]|x] eqn:Et; destruct He as [-> ->]; [by eapply HQ|by apply HE].
Qed.

Lemma uwp_commit_unit (tx : Store -> result updError Store) (Q : result updError unit -> env -> Prop) s :
  inv s -> (forall st, tx (eStore s) = Ok st -> storeStep (eLog s) (eStore s) st) ->
  (forall st s', tx (eStore s) = Ok st -> keeps (set_store st s) s' -> inv s' -> Q (Ok tt) s') ->
  (forall e s', keeps s s' -> inv s' -> Q (Err e) s') -> uwp (commit tx) Q s.
Proof.
  intros Hi Hs HQ HE. apply uwp_commit; [done| | |done].
  - intros st a Et. right. destruct (tx (eStore s)) as [st'|]; [|done]. simpl in Et. injection Et as <- _. by apply Hs.
  - intros st a s' Et K Hi'. destruct (tx (eStore s)) as [st'|]; [|done]. simpl in Et. injection Et as <- <-. by eapply HQ.
Qed.

Lemma calm_set_store st s s' : calm s -> keeps (set_store st s) s' -> inv s' -> calm s'.
Proof. intros (_ & Hp & Hr) (_ & E1 & E2 & _) Hi. split_and!; [done|simpl in E2; congruence|simpl in E1; congruence]. Qed.

Lemma uwp_now (Q : Z -> env -> Prop) s : inv s -> (forall t s', keeps s s' -> inv s' -> Q t s') -> uwp (act Now) Q s.
Proof.
  intros Hi HQ. eapply (uwp_quiet (fun _ => True) None); [split; [exact I|done]|done|done|done|done|]. intros a s' l _ K Hi' _ _. by apply HQ.
Qed.

Lemma uwp_pending (Q : bool -> env -> Prop) s :
  inv s -> (forall s', keeps s s' -> inv s' -> Q (pcRestorePending (eMemory s)) s') -> uwp HasPendingDatabaseRollback Q s.
Proof.
  intros Hi HQ. split; [intros b s' [-> _]; apply es_other; try done; by exists []|]. intros b s' (s1 & [-> ->] & Hr & Hi'). apply HQ; [|done].
  apply rely_keeps in Hr. by destruct s.
Qed.
End Rules.

(** ** Transitions, retention, rollback *)
Section Calls.
Context `{ReleaseCodec} `{Digests} (cfg : Config) (tick : Z -> Z -> Prop).
Abbreviation uwp := (uwp tick).

(** A program that ends calm. *)
Definition calmly {A} (p : prog A) (s : env) : Prop := uwp p (fun _ s' => calm s') s.

Lemma calmly_ret {A} (a : A) s : calm s -> calmly (Ret a) s.
Proof. done. Qed.

Lemma calmly_bind {A B} (p : prog A) (f : A -> prog B) s : uwp p (fun a => calmly (f a)) s -> calmly (p ≫= f) s.
Proof. apply uwp_bind. Qed.

Lemma calmly_quiet {A} (p : prog A) s : quiet None p -> calm s -> calmly p s.
Proof. intros Hq Hc. eapply (uwp_quiet tick calm None); [done|done|apply Hc|done|intros; by eapply calm_keeps|]. by intros. Qed.

Lemma calmly_quiet_bind {A B} (p : prog A) (f : A -> prog B) s :
  quiet None p -> calm s -> (forall a s', keeps s s' -> calm s' -> calmly (f a) s') -> calmly (p ≫= f) s.
Proof.
  intros Hq Hc Hf. apply calmly_bind. eapply (uwp_quiet tick calm None); [done|done|apply Hc|done|intros; by eapply calm_keeps|]. intros a s' l Hc' K _ _ _. by apply Hf.
Qed.

Lemma calmly_attempt {X A B} (p : prog (result X A)) (k : A -> prog (result X B)) s :
  uwp p (fun r s' => calm s' /\ forall a, r = Ok a -> calmly (k a) s') s -> calmly (attempt p k) s.
Proof. intros Hp. apply uwp_attempt. eapply uwp_mono; [exact Hp|]. intros [a|e] s' [Hc Hk]; [by apply Hk|done]. Qed.

(** The rows after a transition. *)
Lemma moved_ready op state reason now event st s s' :
  ready op s -> edge (uoState op) state = true ->
  (if String.eqb state StateApplied then completeApplied (moved state reason now op) (uoRevision op) (uoState op) event (eStore s)
   else update (moved state reason now op) (uoRevision op) (uoState op) event (eStore s)) = Ok st ->
  keeps (set_store st s) s' -> inv s' ->
  ready (moved state reason now op) s' /\ (terminal state = false -> active_at (opID op) (eStore s')).
Proof.
  intros (Hc & Ho & Hal) He Hm Hk Hi. apply (move_rows (moved state reason now op)) in Hm as (row & bytes & Hr & _ & _ & _ & Hops & _).
  change (opID (moved state reason now op)) with (opID op) in Hr. pose proof (Ho _ Hr) as Ei.
  replace (uiOperationID (uoIdentity row)) with (opID op) in Hops by (by rewrite Ei). destruct Hk as (Hs & Hk). simpl in Hs.
  split; [split_and!|].
  - eapply (calm_set_store st); [done|by split|done].
  - eapply (owned_same _ st); [done|]. intros r Hr'. change (opID (moved state reason now op)) with (opID op) in Hr'. rewrite Hops, lookup_insert_eq in Hr'.
    by injection Hr' as <-.
  - eapply (alone_same st); [done|]. intros k r Hr' Ha. rewrite Hops in Hr'. destruct (decide (k = opID op)) as [->|Hne]; [done|].
    rewrite lookup_insert_ne in Hr' by done. by apply (Hal k r).
  - intros Ht. eapply (active_at_same st); [done|]. eexists. rewrite Hops, lookup_insert_eq. split; [done|]. unfold active_row. simpl. by rewrite Ht.
Qed.

Lemma uwp_advance op state event reason (Q : outcome -> env -> Prop) s :
  ready op s -> edge (uoState op) state = true -> (state = StateApplied -> proven op (eLog s)) ->
  (state = StatePrepared -> uoRollbackAvailable op = true /\ validDigest (uoBackupRef op) = true) ->
  (forall s' now, ready (moved state reason now op) s' -> (terminal state = false -> active_at (opID op) (eStore s')) -> Q (moved state reason now op, None) s') ->
  (forall e s', keeps s s' -> inv s' -> Q (op, Some e) s') -> uwp (advance op state event reason) Q s.
Proof.
  intros Hr He Hp Hpr HQ HE. unfold advance. apply uwp_bind, uwp_now; [apply Hr|]. intros now s1 K1 Hi1. cbv zeta.
  assert (Hr1 : ready op s1) by (by eapply ready_keeps). apply uwp_bind, uwp_commit_unit; [done| | |].
  - intros st Hm. eapply ss_move; [exact Hm|done|apply Hr1|intros _; apply Hr1| |done].
    intros Ea. destruct K1 as (_ & _ & _ & l & ->). by apply proven_log, Hp.
  - intros st s2 Hm K2 Hi2. destruct (moved_ready op state reason (unix now) event st s1 s2) as [Hr2 Ha2]; try done. by apply uwp_ret, HQ.
  - intros e s2 K2 Hi2. apply uwp_ret, HE; [by etrans|done].
Qed.

(** [step], into a state that is not terminal. *)
Lemma uwp_step op state event reason k s :
  ready op s -> edge (uoState op) state = true -> state <> StateApplied -> terminal state = false ->
  (state = StatePrepared -> uoRollbackAvailable op = true /\ validDigest (uoBackupRef op) = true) ->
  (forall s' now, under (moved state reason now op) s' -> calmly (k (moved state reason now op)) s') -> calmly (step op state event reason k) s.
Proof.
  intros Hr He Hne Ht Hpr Hk. unfold step. apply calmly_bind. apply uwp_advance; [done|done|done|done| |].
  - intros s' now Hr' Ha. apply Hk. split; [done|auto].
  - intros e s' K Hi. apply calmly_ret. eapply calm_keeps; [apply Hr|done|done].
Qed.

(** *** Retention *)
Lemma must_keep_bytes n row : must_keep (set_bytes n row) = must_keep row.
Proof. done. Qed.

(** The rows that are removed were not to be kept. *)
Lemma prune_loop_in {A} (size : A -> Z) expired spare maxCount items n bytes x :
  x ∈ prune_loop size expired spare maxCount items n bytes -> x ∈ items /\ spare x = false.
Proof.
  revert n bytes. induction items as [|y items IH]; intros n bytes; simpl; [by intros ?%not_elem_of_nil|]. destruct (spare y) eqn:Es; [|destruct (_ && _)].
  - intros [? ?]%IH. split; [by right|done].
  - intros [? ?]%IH. split; [by right|done].
  - intros [->|Hx]%elem_of_cons; [split; [by left|done]|]. apply IH in Hx as [? ?]. split; [by right|done].
Qed.

Lemma all_operations_elem op st : op ∈ allOperations st <-> exists id, stOperations st !! id = Some op.
Proof. unfold allOperations. by rewrite stdpp.sorting.merge_sort_Permutation, rows_elem. Qed.

(** Rows that retention must keep are kept. *)
Definition kept (keep : gset string) (st : Store) : Prop := forall id row, stOperations st !! id = Some row -> must_keep row = true -> id ∈ keep.

Lemma kept_same keep st st' : same_rows st st' -> kept keep st -> kept keep st'.
Proof. intros Hs Hk id row Hr Hm. destruct (same_rows_back _ _ _ _ Hs Hr) as (n & r & Hr' & ->). by apply (Hk id r). Qed.

Lemma kept_all st releases : well_keyed st -> kept (keep_ids (allOperations st) releases) st.
Proof.
  intros Hk id row Hr Hm. unfold keep_ids. apply elem_of_union_l, elem_of_list_to_set. rewrite <- (Hk _ _ Hr). apply list_elem_of_fmap_2.
  rewrite list_elem_of_In, filter_In, <- list_elem_of_In. split; [apply all_operations_elem; eauto|by rewrite Hm].
Qed.

Lemma removed_not_kept ops keep now id : id ∈ (list_to_set (opID <$> removals ops keep now) : gset string) -> id ∉ keep.
Proof.
  rewrite elem_of_list_to_set, list_elem_of_fmap. intros (op & -> & [Hx _]%prune_loop_in). rewrite list_elem_of_In, <- in_rev, filter_In in Hx.
  destruct Hx as [_ Hx]. unfold removable in Hx. bools. tauto.
Qed.

Lemma NoDup_fmap_elem {A B} (f : A -> B) l x y : NoDup (f <$> l) -> x ∈ l -> y ∈ l -> f x = f y -> x = y.
Proof.
  induction l as [|z l IH]; [by intros _ ?%not_elem_of_nil|]. rewrite fmap_cons, NoDup_cons. intros [Hz Hn] [->|Hx]%elem_of_cons [->|Hy]%elem_of_cons E; [done| | |auto].
  - destruct Hz. rewrite E. by apply list_elem_of_fmap_2.
  - destruct Hz. rewrite <- E. by apply list_elem_of_fmap_2.
Qed.

(** Entries of a journal that are removed belong to operations that may go. *)
Lemma stale_entry keep st now j :
  journal_ok st -> j ∈ stJournal st -> ujSequence j ∈ (ujSequence <$> journal_removals keep (stJournal st) now) -> ujOperationID j ∉ keep.
Proof.
  intros [Hn _] Hj (j' & E & [Hj' Hs]%prune_loop_in)%list_elem_of_fmap. apply bool_decide_eq_false in Hs.
  by rewrite (NoDup_fmap_elem ujSequence (stJournal st) j j').
Qed.
Lemma prune_calm s : calm s -> calmly pruneHistory s.
Proof.
  intros Hc. unfold pruneHistory. apply calmly_attempt, uwp_read; [apply Hc|]. intros ops s1 K1 I1 Hops. split; [by eapply calm_keeps|]. intros ops' ->.
  destruct Hops as [[= ->]|[=]]. assert (C1 := calm_keeps _ _ Hc K1 I1). apply calmly_attempt, uwp_read; [done|]. intros rels s2 K2 I2 _.
  assert (C2 := calm_keeps _ _ C1 K2 I2). split; [done|]. intros rels' ->. cbv zeta. set (keep := keep_ids _ _).
  assert (Hk2 : kept keep (eStore s2)).
  { eapply kept_same; [apply K2|]. eapply kept_same; [apply K1|]. apply kept_all, Hc. }
  apply calmly_quiet_bind; [by split|done|]. intros now s3 K3 C3. set (removed := list_to_set _ : gset string).
  assert (Hk3 : kept keep (eStore s3)) by (eapply kept_same; [apply K3|done]).
  assert (Hout : forall id, id ∈ removed -> id ∉ keep) by (intros id; apply removed_not_kept).
  apply calmly_attempt. eapply (uwp_mono _ _ (fun r s' => calm s' /\ (r = Ok tt -> kept (keep ∖ removed) (eStore s')))).
  - destruct (Nat.eqb _ _) eqn:En.
    + apply uwp_ret. split; [done|]. intros _. replace (keep ∖ removed) with keep; [done|]. apply Nat.eqb_eq, nil_length_inv in En.
      unfold removed. rewrite En. set_solver.
    + apply uwp_commit_unit; [apply C3| | |].
      * intros st [= <-]. apply ss_remove. intros id row Hid Hr. destruct (must_keep row) eqn:Em; [|done]. by destruct (Hout id Hid); apply (Hk3 id row).
      * intros st s4 [= <-] K4 I4. split; [by eapply calm_set_store|]. intros _. eapply kept_same; [apply K4|]. intros id row Hr Hm. simpl in Hr.
        apply map_lookup_filter_Some in Hr as [Hr Hn]. simpl in Hn. apply elem_of_difference. split; [by apply (Hk3 id row)|done].
      * intros e s4 K4 I4. split; [by eapply calm_keeps|done].
  - intros r s4 [C4 Hk4]. split; [done|]. intros [] ->. specialize (Hk4 eq_refl). apply calmly_attempt, uwp_read; [apply C4|].
    intros journals s5 K5 I5 Hj. assert (C5 := calm_keeps _ _ C4 K5 I5). split; [done|]. intros j' ->. destruct Hj as [[= ->]|[=]].
    apply calmly_quiet_bind; [by split|done|]. intros now' s6 K6 C6. destruct (Nat.eqb _ _); [by apply calmly_ret|].
    assert (K46 : keeps s4 s6) by (by etrans). replace (stJournal (eStore s4)) with (stJournal (eStore s6)) by apply K46.
    apply uwp_commit_unit; [apply C6| | |].
    + intros st [= <-]. apply ss_journals. intros j row Hj Hs Hr. destruct (must_keep row) eqn:Em; [|done].
      apply stale_entry in Hs; [|apply C6|done]. destruct Hs. eapply kept_same; [apply K46|done|done|done].
    + intros st s7 [= <-] K7 I7. by eapply calm_set_store.
    + intros e s7 K7 I7. by eapply calm_keeps.
Qed.

Lemma cleanup_calm op s : calm s -> terminal (uoState op) = true -> calmly (cleanupTerminal cfg op) s.
Proof.
  intros Hc Ht. unfold cleanupTerminal. apply calmly_quiet_bind; [quiet|done|]. intros [u|e] s1 _ C1; [by apply prune_calm|].
  apply calmly_quiet_bind; [by split|done|]. intros now s2 _ C2. apply calmly_bind, uwp_commit_unit; [apply C2|intros st Hd; by eapply ss_debt| |].
  - intros st s3 _ K3 I3. apply calmly_ret. by eapply calm_set_store.
  - intros x s3 K3 I3. apply calmly_ret. by eapply calm_keeps.
Qed.
(** *** Failure and rollback *)

(** Continuations of an advance into a terminal state. *)
Lemma advance_then op state event reason (k : UpdateOperation * option updError -> prog outcome) s :
  ready op s -> edge (uoState op) state = true -> (state = StateApplied -> proven op (eLog s)) -> state <> StatePrepared ->
  (forall s' now, ready (moved state reason now op) s' -> calmly (k (moved state reason now op, None)) s') ->
  (forall e s', calm s' -> calmly (k (op, Some e)) s') -> calmly (r ← advance op state event reason; k r) s.
Proof.
  intros Hr He Hp Hne Hk HE. apply calmly_bind, uwp_advance; [done|done|done|done|auto|]. intros e s' K Hi. apply HE. eapply calm_keeps; [apply Hr|done|done].
Qed.

Lemma fail_calm op reason cause s :
  ready op s -> edge (uoState op) StateFailed = true -> calmly (failUpdate cfg op reason cause) s.
Proof.
  intros Hr He. unfold failUpdate, step. apply advance_then; [done|done|done|done| |by intros].
  intros s1 now [Hc _]. apply calmly_bind. eapply uwp_mono; [by apply cleanup_calm|]. intros r s2 C2. by apply calmly_ret.
Qed.

Lemma recovery_edge state : terminal state = false -> edge state StateRecoveryRequired = true.
Proof. intros Ht. unfold edge. simpl. by rewrite Ht. Qed.

Lemma recovery_calm op reason s : ready op s -> terminal (uoState op) = false -> calmly (recoveryRequired op reason) s.
Proof.
  intros Hr Ht. unfold recoveryRequired. apply uwp_step; [done|by apply recovery_edge|done|done|done|]. intros s' now Hu. apply calmly_ret. by eapply under_calm.
Qed.

Lemma enter_calm op reason k s :
  ready op s -> rollbackAllowedFrom (uoState op) = true ->
  (forall op' s', uoState op' = StateRollingBack -> uoIdentity op' = uoIdentity op -> under op' s' -> calmly (k op') s') ->
  calmly (enterRollback op reason k) s.
Proof.
  intros Hr Ha Hk. assert (He : edge (uoState op) StateRollingBack = true) by done. unfold enterRollback. destruct (negb _) eqn:Es.
  - apply uwp_step; try done. intros s' now Hu. by apply Hk.
  - apply calmly_bind, uwp_read; [apply Hr|]. intros started s1 K1 I1 _. assert (R1 := ready_keeps _ _ _ Hr K1 I1). destruct started as [started|e]; [|by apply calmly_ret, R1].
    apply calmly_bind, uwp_now; [done|]. intros now s2 K2 I2. assert (R2 := ready_keeps _ _ _ R1 K2 I2). destruct (_ && _).
    + apply recovery_calm; [done|]. apply negb_false_iff, String.eqb_eq in Es. by rewrite Es.
    + apply uwp_step; try done. intros s' now' Hu. by apply Hk.
Qed.

(** The provider's rollback may replace the database, and then answers success. *)
Definition rolling (op : UpdateOperation) (r : result updError bool) (s : env) : Prop := under op s \/ (r = Ok true /\ cfProvider cfg = BrokerProvider /\ restored op s).

Lemma rolling_quiet op (p : prog (result updError bool)) s : quiet None p -> under op s -> uwp p (rolling op) s.
Proof. intros Hp Hu. eapply (uwp_quiet tick (under op) None); [done|done|apply Hu|done|intros; by eapply under_keeps|]. intros; by left. Qed.

Lemma rolling_attempt op {A} (p : prog (result updError A)) k s :
  quiet None p -> under op s -> (forall a s', under op s' -> uwp (k a) (rolling op) s') -> uwp (attempt p k) (rolling op) s.
Proof.
  intros Hp Hu Hk. apply uwp_attempt. eapply (uwp_quiet tick (under op) None); [done|done|apply Hu|done|intros; by eapply under_keeps|].
  intros [a|e] s2 l Hu2 _ _ _ _; [by apply Hk|by left].
Qed.

Lemma restore_rolling op s : cfProvider cfg = BrokerProvider -> under op s -> uwp (let?? _ := act (RestoreDatabase op) in _ ← set_pending true; Ret (Ok true)) (rolling op) s.
Proof.
  intros Hbp Hu. pose proof Hu as [[C3 _] Act3]. apply uwp_attempt. split.
  - intros b s1 He. simpl in He. destruct b as [[]|e]; [|subst s1; by apply es_other; try done; exists []].
    destruct He as (snap & Hb & Hpr & ->). by eapply es_restore.
  - intros b s1 (s1' & He & Hr & I1). simpl in He. apply rely_keeps in Hr. destruct b as [[]|e]; [|subst s1'; left; by eapply under_keeps].
    destruct He as (snap & Hb & Hpr & ->). apply uwp_bind. destruct (iv_backups _ (proj1 C3) _ _ _ Hb) as [_ Hsnap]. destruct Hr as (Hs1 & Hp1 & _ & _). simpl in Hs1, Hp1.
    split; [intros b s2 [-> _]; apply es_other; try done; by exists []|]. intros [] s2 (s2' & [-> _] & Hr & I2). apply rely_keeps in Hr as (Hs2 & Hp2 & Hm2 & _).
    right. simpl in *. do 2 (split; [done|]). split_and!; [done|done| |].
    + eapply active_at_same; [exact Hs2|]. by eapply active_at_same.
    + exists (eStore s). split; [congruence|done].
Qed.

Lemma release_rollback op s : under op s -> uwp (RollbackRelease cfg op) (rolling op) s.
Proof.
  intros Hu. unfold RollbackRelease. destruct (cfProvider cfg) eqn:Ek; [by left|by left|by left|]. unfold brokerRollbackDatabase.
  apply rolling_attempt; [quiet|done|]. intros [proof|] s1 U1; [apply rolling_quiet; [quiet|done]|].
  apply rolling_attempt; [by split|done|]. intros _ s2 U2. apply rolling_attempt; [quiet|done|]. intros _ s3 U3. by apply restore_rolling.
Qed.

(** Without a pending restore the abort does nothing. *)
Lemma abort_idle op s : under op s -> uwp AbortDatabaseRollback (fun _ s' => under op s') s.
Proof.
  intros Hu. apply uwp_bind, uwp_pending; [apply Hu|]. intros s' K I'. pose proof Hu as [[(_ & -> & _) _] _]. apply uwp_ret. by eapply under_keeps.
Qed.

(** The abort of a pending restore brings the replaced database back. *)
Lemma abort_restored op s : restored op s -> uwp AbortDatabaseRollback (fun _ s' => calm s' /\ active_at (opID op) (eStore s')) s.
Proof.
  intros (Hi & Hp & Ha & prior & Hpr & Hap). apply uwp_bind, uwp_pending; [done|]. intros s1 (Hs1 & Hp1 & Hm1 & _) I1. rewrite Hp. cbn [negb].
  apply uwp_attempt. split; [intros b s2 [_ ->]; apply es_abort|]. intros b s2 (s2' & [-> ->] & Hr2 & I2). apply rely_keeps in Hr2 as (Hs2 & Hp2 & Hm2 & _). simpl in *.
  rewrite Hp1, Hpr in Hs2. simpl in Hs2.
  split; [intros b s3 [-> _]; apply es_other; try done; by exists []|]. intros [] s3 (s3' & [-> _] & Hr3 & I3). apply rely_keeps in Hr3 as (Hs3 & Hp3 & Hm3 & _). simpl in *.
  split; [split_and!; [done|done|congruence]|]. eapply active_at_same; [exact Hs3|]. by eapply active_at_same.
Qed.

Lemma complete_restored s : inv s -> pcRestorePending (eMemory s) = true -> uwp CompleteDatabaseRollback (fun _ s' => calm s') s.
Proof.
  intros Hi Hp. apply uwp_bind, uwp_pending; [done|]. intros s1 (Hs1 & Hp1 & Hm1 & _) I1. rewrite Hp. cbn [negb].
  apply uwp_attempt. split; [intros b s2 [_ ->]; apply es_complete|]. intros b s2 (s2' & [-> ->] & Hr2 & I2). apply rely_keeps in Hr2 as (Hs2 & Hp2 & Hm2 & _). simpl in *.
  split; [intros b s3 [-> _]; apply es_other; try done; by exists []|]. intros [] s3 (s3' & [-> _] & Hr3 & I3). apply rely_keeps in Hr3 as (Hs3 & Hp3 & Hm3 & _). simpl in *.
  split_and!; [done|done|congruence].
Qed.
(** The row that a rebind loaded, if any, is the restored row of the operation. *)
Definition loaded_row (op loaded : UpdateOperation) : Prop := opID loaded = "" \/ opID loaded = opID op.

Lemma rebind_row op reason st :
  well_keyed st -> loaded_row op (default noOperation (rebindRestoredRollback op reason st).2).
Proof.
  intros Hk. unfold rebindRestoredRollback, loaded_row. destruct (stOperations st !! opID op) as [row|] eqn:Hr; [|by left].
  right. destruct (_ || _ || _); simpl; [by apply Hk|]. unfold opID at 1. simpl. by apply (Hk (opID op)).
Qed.

Lemma rebind_restored op reason s :
  restored op s ->
  uwp (rebind op reason) (fun r s' => match r with
                                 | (loaded, Some _) => restored op s' /\ loaded_row op loaded
                                 | (rebound, None) => inv s' /\ pcRestorePending (eMemory s') = true /\ uoState rebound = StateRolledBack
                                 end) s.
Proof.
  intros Hr. pose proof Hr as (Hi & Hp & Ha & prior & Hpr & Hap). unfold rebind. apply uwp_bind, uwp_commit; [done| | |].
  - intros st a Et. destruct (rebindRestoredRollback op reason (eStore s)) as [[st'|e] row] eqn:Eb; injection Et as <- _; [right; by eapply ss_rebind|by left].
  - intros st a s1 Et K1 I1. apply uwp_ret. destruct (rebindRestoredRollback op reason (eStore s)) as [[st'|e] row] eqn:Eb; injection Et as <- <-.
    + split_and!; [done|by destruct K1 as (_ & _ & -> & _)|]. simpl. unfold rebindRestoredRollback in Eb.
      destruct (stOperations (eStore s) !! opID op) as [r|]; [|done]. destruct (_ || _ || _); [done|]. by injection Eb as _ <-.
    + split; [eapply restored_keeps; [exact Hr| |done]; by destruct s|]. pose proof (rebind_row op reason (eStore s)) as Hl. rewrite Eb in Hl. apply Hl, Hi.
  - intros e s1 K1 I1. assert (R1 := restored_keeps _ _ _ Hr K1 I1). apply uwp_bind, uwp_read; [done|]. intros b s2 K2 I2 Hb. apply uwp_ret.
    split; [by eapply restored_keeps|]. destruct Hb as [->| ->]; [|by left]. unfold operation. destruct (stOperations (eStore s1) !! opID op) as [r|] eqn:Er; [|by left].
    right. by apply (so_keyed _ (iv_store _ I1)).
Qed.

Lemma mark_calm loaded op reason (k : result updError UpdateOperation -> prog outcome) s :
  calm s -> active_at (opID op) (eStore s) -> loaded_row op loaded -> (forall r s', calm s' -> calmly (k r) s') ->
  calmly (m ← act (Commit (markRollbackRecovery loaded reason)); k m) s.
Proof.
  intros Hc Ha Hl Hk. apply calmly_bind, uwp_commit; [apply Hc| | |].
  - intros st a Em. right. eapply ss_mark; [exact Em|]. destruct Hl as [E| ->]; [|done]. unfold markRollbackRecovery in Em. by rewrite E, (so_named _ (iv_store _ (proj1 Hc))) in Em.
  - intros st a s1 _ K1 I1. apply Hk. by eapply calm_set_store.
  - intros e s1 K1 I1. apply Hk. by eapply calm_keeps.
Qed.

Lemma complete_calm op reason s : restored op s -> calmly (completeRestoredRollback cfg op reason) s.
Proof.
  intros Hr. unfold completeRestoredRollback. apply calmly_bind. eapply uwp_mono; [by apply rebind_restored|]. intros [loaded [e|]] s1 Hs1.
  - destruct Hs1 as [R1 Hl]. apply calmly_bind, uwp_bind. eapply uwp_mono; [by apply abort_restored|]. intros _ s2 [C2 A2]. apply uwp_ret.
    apply (mark_calm loaded op); [done|done|done|]. by intros [row|x] s3 C3.
  - destruct Hs1 as (I1 & P1 & E1). apply calmly_bind. eapply uwp_mono; [by apply complete_restored|]. intros [u|e] s2 C2; [|by apply calmly_ret].
    apply calmly_bind. eapply uwp_mono; [apply cleanup_calm; [done|by rewrite E1]|]. intros r s3 C3. by apply calmly_ret.
Qed.

Lemma finish_calm op reason s : under op s -> uoState op = StateRollingBack -> calmly (finishRollback cfg op reason) s.
Proof.
  intros Hu Hst. unfold finishRollback. apply advance_then; [|simpl; by rewrite Hst|done|done| |].
  - eapply (ready_identity op); [done|apply Hu].
  - intros s1 now [C1 _]. cbn [uoState moved]. apply calmly_bind, uwp_bind. eapply uwp_mono; [by apply cleanup_calm|]. intros r s2 C2. apply uwp_ret.
    apply calmly_quiet_bind; [quiet|done|]. intros _ s3 _ C3. by apply calmly_ret.
  - intros e s1 C1. apply calmly_bind, uwp_ret. apply calmly_quiet_bind; [quiet|done|]. intros _ s2 _ C2. by apply calmly_ret.
Qed.

(** A rollback that is not known to have succeeded. *)
Lemma ambiguous_calm op s :
  under op s -> uoState op = StateRollingBack ->
  calmly (_ ← match cfProvider cfg with BrokerProvider => ignore AbortDatabaseRollback | _ => Ret tt end; recoveryRequired op "update_rollback_ambiguous") s.
Proof.
  intros Hu Hst. apply calmly_bind. eapply (uwp_mono _ _ (fun _ s' => under op s')).
  - destruct (cfProvider cfg); try (by apply uwp_ret). apply uwp_bind. eapply uwp_mono; [by apply abort_idle|]. intros r s' Hu'. by apply uwp_ret.
  - intros _ s' Hu'. apply recovery_calm; [apply Hu'|by rewrite Hst].
Qed.

Lemma perform_calm op reason s : ready op s -> calmly (performRollback cfg op reason) s.
Proof.
  intros Hr. unfold performRollback. destruct (rollbackAllowedFrom (uoState op)) eqn:Ea; [|by apply calmly_ret, Hr]. cbn [negb].
  apply enter_calm; [done|done|]. intros op' s1 E1 _ U1. apply calmly_bind. eapply uwp_mono; [by apply release_rollback|]. intros r s2 Hr2.
  destruct r as [[|]|e]; [|destruct Hr2 as [U2|[? _]]; [by apply ambiguous_calm|done]|].
  - apply calmly_bind. eapply (uwp_mono _ _ (fun (b : bool) s' => if b then restored op' s' else under op' s')).
    + destruct (cfProvider cfg) eqn:Ek; try (apply uwp_ret; by destruct Hr2 as [U2|(_ & E & _)]; [|rewrite Ek in E]).
      destruct Hr2 as [U2|(_ & _ & R2)].
      * apply uwp_pending; [apply U2|]. intros s3 K3 I3. pose proof U2 as [[(_ & -> & _) _] _]. by eapply under_keeps.
      * apply uwp_pending; [apply R2|]. intros s3 K3 I3. pose proof R2 as (_ & -> & _). by eapply restored_keeps.
    + intros [|] s3 H3; [by apply complete_calm|by apply finish_calm].
  - destruct Hr2 as [U2|[? _]]; [|done]. pose proof (ambiguous_calm _ _ U2 E1) as Ham. destruct e; try exact Ham. apply calmly_ret. by eapply under_calm.
Qed.

Lemma pending_edge state : terminal state = false -> edge state StateRollbackPending = true.
Proof. intros Ht. unfold edge. simpl. by rewrite Ht. Qed.

Lemma after_failure_calm op reason cause s : ready op s -> terminal (uoState op) = false -> calmly (rollbackAfterFailure cfg op reason cause) s.
Proof.
  intros Hr Ht. unfold rollbackAfterFailure. apply uwp_step; [done|by apply pending_edge|done|done|done|]. intros s1 now U1. apply calmly_bind.
  eapply uwp_mono; [apply perform_calm, U1|]. by intros [rolledBack [e|]] s2 C2.
Qed.

(** ** Preparation *)
Lemma stage_quiet op verified artifacts :
  quiet None (DownloadAndStage cfg op verified artifacts (fun n => ignore (commit (progress op n)))).
Proof.
  apply quiet_stage. intros n. apply quiet_bind; [|by intros ?]. split; [|by intros ?]. intros st st' a. destruct (progress op n st) as [st1|] eqn:Ep; [|done].
  simpl. intros [= <- _]. eauto.
Qed.

Lemma preflight_failed_calm preparation op cause s : under op s -> uoState op = StatePreflighting -> calmly (preflightFailed cfg preparation op cause) s.
Proof.
  intros Hu Hst. unfold preflightFailed. assert (Hf : calmly (failUpdate cfg op "update_preflight_failed" cause) s) by (apply fail_calm; [apply Hu|by rewrite Hst]).
  destruct preparation; [|done]. destruct (_ && _); [|done]. apply after_failure_calm; [apply Hu|by rewrite Hst].
Qed.
(** A preflight leaves the operation where it was, or checkpointed in the same state. *)
Definition preflighted (op op' : UpdateOperation) (s : env) : Prop := uoState op' = StatePreflighting /\ uoIdentity op' = uoIdentity op /\ under op' s.

Lemma preflight_quiet op verified artifacts : quiet (Some (opID op)) (Preflight cfg op verified artifacts).
Proof. unfold Preflight, brokerPreflight. quiet. Qed.

(** A quiet program that may publish a backup of the operation. *)
Lemma uwp_under {A B} op (p : prog A) (f : A -> prog B) Q s :
  quiet (Some (opID op)) p -> under op s -> (forall a s', under op s' -> uwp (f a) Q s') -> uwp (p ≫= f) Q s.
Proof.
  intros Hq Hu Hf. apply uwp_bind. eapply (uwp_quiet tick (under op) (Some (opID op))); [done|done|apply Hu| |intros; by eapply under_keeps|].
  - intros id [= <-]. apply Hu.
  - intros a s' l Hu' _ _ _ _. by apply Hf.
Qed.

Lemma checkpoint_preflighted op identity snapshot backup executable (persist : prog (result updError UpdateOperation)) s :
  under op s -> uoState op = StatePreflighting ->
  uwp persist (fun r s' => match r with Ok committed => preflighted op committed s' | Err _ => under op s' end) s ->
  uwp (p ← persist;
       match p with
       | Err e => Ret (op, Err e)
       | Ok committed => r ← preflightCheckpointed cfg identity snapshot backup executable committed; Ret (committed, r)
       end) (fun r s' => preflighted op r.1 s') s.
Proof.
  intros Hu Hst Hp. apply uwp_bind. eapply uwp_mono; [exact Hp|]. intros [committed|e] s1 H1.
  - destruct H1 as (E1 & E2 & U1). eapply uwp_under; [quiet|exact U1|]. intros r s2 U2. by apply uwp_ret.
  - apply uwp_ret. by split_and!.
Qed.

Lemma persist_preflighted op backup s :
  under op s -> uoState op = StatePreflighting ->
  uwp (if negb (validDigest backup) then fail ErrRecoveryRequired
       else r ← advance (set_rollback true backup op) StatePreflighting "provider_database_checkpoint_committed" "";
            match r with (committed, None) => Ret (Ok committed) | (_, Some e) => fail e end)
      (fun r s' => match r with Ok committed => preflighted op committed s' | Err _ => under op s' end) s.
Proof.
  intros Hu Hst. destruct (negb _); [done|]. apply uwp_bind, uwp_advance; [|simpl; by rewrite Hst|done|done| |].
  - eapply (ready_identity op); [done|apply Hu].
  - intros s1 now R1 A1. apply uwp_ret. split_and!; [done|done|]. split; [done|by apply A1].
  - intros e s1 K1 I1. apply uwp_ret. by eapply under_keeps.
Qed.

Lemma preflight_provider op verified artifacts request s :
  under op s -> uoState op = StatePreflighting ->
  uwp (preflightProviderLocked cfg op verified artifacts request) (fun r s' => preflighted op r.1 s') s.
Proof.
  intros Hu Hst. assert (Hstop : forall r s', under op s' -> uwp (Ret (op, r)) (fun (r : UpdateOperation * result updError PreflightResult) s' => preflighted op r.1 s') s') by done.
  unfold preflightProviderLocked. eapply uwp_under; [quiet|done|]. intros busy s1 U1. destruct (_ || _ || _ || _); [by apply Hstop|].
  eapply uwp_under; [quiet|done|]. intros [u|e] s2 U2; [|by apply Hstop]. eapply uwp_under; [by split|done|]. intros [snapshot|e] s3 U3; [|by apply Hstop].
  destruct (_ || _ || _ || _ || _); [by apply Hstop|]. cbv zeta. unfold PreflightProvider. destruct (_ || _); [by apply Hstop|].
  destruct (releaseIdentity op verified artifacts) as [identity|e]; [|by apply Hstop]. destruct (_ || _); [by apply Hstop|].
  eapply uwp_under; [quiet|done|]. intros [o|e] s4 U4; [|by apply Hstop]. destruct (negb _); [by apply Hstop|].
  eapply uwp_under; [by split|done|]. intros [executable|e] s5 U5; [|by apply Hstop]. eapply uwp_under; [by split|done|]. intros [backup|e] s6 U6; [|by apply Hstop].
  apply checkpoint_preflighted; [done|done|]. by apply persist_preflighted.
Qed.

Lemma run_calm preparation verified artifacts op s :
  under op s -> uoState op = StateDownloading -> calmly (runPreparation cfg preparation verified artifacts op) s.
Proof.
  intros Hu Hst. unfold runPreparation. cbv zeta. apply calmly_bind.
  eapply (uwp_quiet tick (under op) None); [apply stage_quiet|done|apply Hu|done|intros; by eapply under_keeps|]. intros staged s1 _ U1 _ _ _ _.
  destruct staged as [u|e]; [|apply fail_calm; [apply U1|by rewrite Hst]].
  apply uwp_step; [eapply (ready_identity op); [done|apply U1]|simpl; by rewrite Hst|done|done|done|]. intros s2 n2 U2.
  apply uwp_step; [apply U2|done|done|done|done|]. intros s3 n3 U3. apply uwp_step; [apply U3|done|done|done|done|]. intros s4 n4 U4.
  apply uwp_step; [apply U4|done|done|done|done|]. intros s5 n5 U5. set (op5 := moved StatePreflighting _ _ _) in *.
  apply calmly_bind. eapply (uwp_mono _ _ (fun r s' => preflighted op5 r.1 s')).
  - destruct preparation as [request|]; [by apply preflight_provider|]. eapply uwp_under; [apply preflight_quiet|done|]. intros r s6 U6. by apply uwp_ret.
  - intros [op6 preflight] s6 (E1 & E2 & U6). simpl in E1, E2, U6. assert (Hf : forall cause, calmly (preflightFailed cfg preparation op6 cause) s6) by (intros; by apply preflight_failed_calm).
    destruct preflight as [[[|] backup]|e]; [|done|done]. destruct (validDigest backup) eqn:Ev; [|done].
    apply uwp_step; [eapply (ready_identity op6); [done|apply U6]|simpl; by rewrite E1|done|done|done|]. intros s7 n7 U7. apply calmly_ret. by eapply under_calm.
Qed.
(** *** Admission of a new operation *)
Definition nothing_active (s : env) : Prop := calm s /\ forall id, ~ active_at id (eStore s).

Lemma nothing_keeps s s' : nothing_active s -> keeps s s' -> inv s' -> nothing_active s'.
Proof. intros [Hc Hn] K Hi. split; [by eapply calm_keeps|]. eapply no_active_same; [apply K|done]. Qed.

Lemma active_named st op : store_ok st -> active st = Ok op -> opID op <> "".
Proof. intros [_ Hk Hn _ _] (id & Hr & _)%active_found E. rewrite (Hk _ _ Hr) in E. subst id. unfold named in Hn. congruence. Qed.

Lemma idle_nothing s : calm s -> uwp idle (fun r s' => calm s' /\ (r = Ok tt -> nothing_active s')) s.
Proof.
  intros Hc. unfold idle. apply uwp_bind, uwp_read; [apply Hc|]. intros b s1 K1 I1 Hb. assert (C1 := calm_keeps _ _ Hc K1 I1). destruct b as [op|e].
  - destruct Hb as [Hb|[=]]. pose proof (active_named _ _ (iv_store _ (proj1 Hc)) (eq_sym Hb)) as Hne. apply String.eqb_neq in Hne. rewrite Hne. by apply uwp_ret.
  - destruct (is_not_found e) eqn:Ee; apply uwp_ret; [|done]. split; [done|]. intros _. destruct Hb as [Hb|[= ->]]; [|done].
    eapply nothing_keeps; [split; [exact Hc|by eapply active_none]|done|done].
Qed.

Lemma new_operation_id request verified artifacts now : opID (newUpdateOperation cfg request verified artifacts now) <> "".
Proof.
  unfold opID, newUpdateOperation, updateOperationID. cbn [uoIdentity uiOperationID]. intros E%(f_equal slen). rewrite slen_app in E.
  revert E. generalize (String.substring 0 48 (semanticDigest [rqIdempotencyKey request; vfDigest verified])). intros x E. pose proof (slen_nonneg x).
  change (slen "update-operation:") with 17 in E. change (slen "") with 0 in E. lia.
Qed.

Lemma create_under op event reason s :
  nothing_active s -> uoState op = StateDownloading -> uoRevision op = 1 -> uoRollbackAvailable op = false -> opID op <> "" ->
  uwp (commit (create op event reason)) (fun r s' => calm s' /\ (r = Ok tt -> under op s')) s.
Proof.
  intros [Hc Hn] E1 E2 E3 E4. apply uwp_commit_unit; [apply Hc|intros st Hcr; by eapply ss_create| |intros e s1 K1 I1; split; [by eapply calm_keeps|done]].
  intros st s1 Hcr K1 I1. assert (C1 := calm_set_store _ _ _ Hc K1 I1). split; [done|]. intros _.
  apply create_rows in Hcr as (_ & _ & ->). assert (Ha : active_at (opID op) (eStore s1)).
  { eapply active_at_same; [apply K1|]. exists op. simpl. rewrite lookup_insert_eq. split; [done|]. unfold active_row. by rewrite E1. }
  split; [|done]. split_and!; [done| |by apply active_alone]. eapply owned_same; [apply K1|]. intros row. simpl. rewrite lookup_insert_eq. by intros [= ->].
Qed.

Lemma admit_under request maintenance verified applied op s :
  calm s -> uoState op = StateDownloading -> uoRevision op = 1 -> uoRollbackAvailable op = false -> opID op <> "" ->
  uwp (admit_new request maintenance verified applied op) (fun r s' => calm s' /\ (r = Ok tt -> under op s')) s.
Proof.
  intros Hc E1 E2 E3 E4. unfold admit_new. apply uwp_attempt. eapply uwp_mono; [by apply idle_nothing|]. intros [[]|e] s1 [C1 N1]; [|done].
  specialize (N1 eq_refl). apply uwp_attempt.
  eapply (uwp_quiet tick nothing_active None); [quiet|done|apply N1|done|intros; by eapply nothing_keeps|]. intros [[]|e] s2 _ N2 _ _ _ _; [|split; [apply N2|done]].
  apply uwp_attempt, uwp_read; [apply N2|]. intros b s3 K3 I3 _. assert (N3 := nothing_keeps _ _ N2 K3 I3). destruct b as [current|e]; [|split; [apply N3|done]].
  destruct (_ || _); [split; [apply N3|done]|]. apply uwp_bind, uwp_now; [done|]. intros now s4 K4 I4. assert (N4 := nothing_keeps _ _ N3 K4 I4).
  apply uwp_attempt, uwp_commit_unit; [done|intros st Hv; by eapply ss_save| |intros e s5 K5 I5; split; [by eapply calm_keeps; [apply N4| |]|done]].
  intros st s5 Hv K5 I5. apply create_under; [|done|done|done|done]. split; [eapply calm_set_store; [apply N4|done|done]|].
  apply save_rows in Hv as (Eo & _). eapply no_active_same; [apply K5|]. unfold active_at. simpl. rewrite Eo. apply N4.
Qed.

Lemma prepare_idle_calm request preparation s : calm s -> calmly (prepareIdle cfg request preparation) s.
Proof.
  intros Hc. unfold prepareIdle. cbv zeta. apply calmly_quiet_bind; [quiet|done|]. intros [applied|e] s1 _ C1; [|by apply calmly_ret].
  apply calmly_quiet_bind; [quiet|done|]. intros [[verified artifacts]|e] s2 _ C2; [|by apply calmly_ret].
  destruct (_ || _); [by apply calmly_ret|]. destruct (match preparation with Some _ => _ | None => _ end); [by apply calmly_ret|]. destruct (_ && _); [by apply calmly_ret|].
  apply calmly_quiet_bind; [by split|done|]. intros ready_ s3 _ C3. destruct (negb ready_); [by apply calmly_ret|].
  apply calmly_quiet_bind; [by split|done|]. intros now s4 _ C4. apply calmly_bind.
  eapply uwp_mono; [apply admit_under; [done|done|done|done|apply new_operation_id]|]. intros [[]|e] s5 [C5 U5]; [|by apply calmly_ret].
  apply run_calm; [by apply U5|done].
Qed.

Lemma prepare_calm request preparation s : calm s -> calmly (prepareLocked cfg request preparation) s.
Proof.
  intros Hc. unfold prepareLocked. apply calmly_quiet_bind; [by split|done|]. intros [existing|e] s1 _ C1; [repeat (case_match; try by apply calmly_ret)|].
  destruct (negb _); [by apply calmly_ret|]. apply calmly_quiet_bind; [by split|done|].
  intros [op|e'] s2 _ C2; case_match; try (by apply calmly_ret); by apply prepare_idle_calm.
Qed.
(** ** Activation *)

(** The evidence of the verification, and then of the health check. *)
Definition verified (op : UpdateOperation) (s : env) : Prop := existsb (verified_release op) (eLog s) = true.

Lemma evidence_keeps (f : report -> bool) s s' : keeps s s' -> existsb f (eLog s) = true -> existsb f (eLog s') = true.
Proof. intros (_ & _ & _ & l & ->) Hv. rewrite existsb_app, orb_true_iff. by right. Qed.

Lemma uwp_verify op (Q : result updError bool -> env -> Prop) s :
  under op s -> (forall r s', under op s' -> (r = Ok true -> verified op s') -> Q r s') -> uwp (VerifyActive cfg op) Q s.
Proof.
  intros Hu HQ. eapply (uwp_quiet tick (under op) None); [quiet|done|apply Hu|done|intros; by eapply under_keeps|]. intros r s' l U' _ _ Hr Hl. apply HQ; [done|].
  intros ->. unfold verified. rewrite Hl, existsb_app, orb_true_iff. left. by eapply verify_evidence.
Qed.

Lemma uwp_health op (Q : HealthResult -> env -> Prop) s :
  under op s -> (forall h s', under op s' -> keeps s s' -> (hrReady h = true -> existsb (healthy op) (eLog s') = true) -> Q h s') -> uwp (checkHealth cfg op) Q s.
Proof.
  intros Hu HQ. eapply (uwp_quiet tick (under op) None); [quiet|done|apply Hu|done|intros; by eapply under_keeps|]. intros h s' l U' K' _ Hr Hl. apply HQ; [done|done|].
  intros Hh. rewrite Hl, existsb_app, orb_true_iff. left. by eapply health_evidence.
Qed.

(** An operation under way whose state is not terminal, as it was read or written last. *)
Definition going (op : UpdateOperation) (s : env) : Prop := under op s /\ terminal (uoState op) = false.

Lemma going_keeps op s s' : going op s -> keeps s s' -> inv s' -> going op s'.
Proof. intros [Hu Ht] K Hi. split; [by eapply under_keeps|done]. Qed.

Lemma row_going op id s : calm s -> stOperations (eStore s) !! id = Some op -> active_row op = true -> going op s.
Proof. intros Hc Hr Ha. split; [by eapply row_under|]. unfold active_row in Ha. by apply negb_true_iff in Ha. Qed.

Lemma applied_edge state : terminal state = false -> edge state StateApplied = true.
Proof. intros Ht. unfold edge. simpl. by rewrite Ht. Qed.

Lemma verifying_edge state : terminal state = false -> edge state StateVerifyingActive = true.
Proof. intros Ht. unfold edge. simpl. by rewrite Ht. Qed.

(** The verdict on the active release. *)
Lemma verdict_calm op s :
  going op s ->
  calmly (v ← VerifyActive cfg op;
          match v with
          | Err ErrRestartPending => Ret (op, None)
          | Ok true =>
              health ← checkHealth cfg op;
              if negb (hrReady health) then rollbackAfterFailure cfg op "active_release_health_failed" (Some (ErrHealthCheckFailed (hrReasonCodes health)))
              else
                r ← advance op StateApplied "update_applied" "";
                match r with
                | (applied, None) => cleanup ← cleanupTerminal cfg applied; Ret (applied, err_of cleanup)
                | (applied, Some e) => Ret (applied, Some e)
                end
          | v => rollbackAfterFailure cfg op "active_release_verification_failed" (err_of v)
          end) s.
Proof.
  intros [Hu Ht]. apply calmly_bind, uwp_verify; [done|]. intros v s1 U1 Hv.
  assert (Hbad : forall v, calmly (rollbackAfterFailure cfg op "active_release_verification_failed" (err_of (v : result updError bool))) s1)
    by (intros; by apply after_failure_calm; [apply U1|]).
  destruct v as [[|]|e]; [|done|destruct e; try done; by apply calmly_ret, (under_calm op)].
  specialize (Hv eq_refl). apply calmly_bind, uwp_health; [done|]. intros h s2 U2 K2 Hh. destruct (hrReady h) eqn:Er; cbn [negb]; [|by apply after_failure_calm; [apply U2|]].
  apply advance_then; [apply U2|by apply applied_edge| |done| |].
  - intros _. split; [by eapply evidence_keeps|auto].
  - intros s3 now [C3 _]. apply calmly_bind. eapply uwp_mono; [by apply cleanup_calm|]. intros r s4 C4. by apply calmly_ret.
  - intros e s3 C3. by apply calmly_ret.
Qed.

Lemma activate_calm request maintenance s : calm s -> calmly (activateLocked cfg request maintenance) s.
Proof.
  intros Hc. unfold activateLocked. apply calmly_bind, uwp_read; [apply Hc|]. intros found s1 K1 I1 Hf. assert (C1 := calm_keeps _ _ Hc K1 I1).
  destruct found as [op|e]; [|by apply calmly_ret]. destruct (negb (validPersistedOperation op)); [by apply calmly_ret|]. destruct (_ || _ || _) eqn:Eg; [by apply calmly_ret|].
  bools. destruct Eg as [[_ Est] _].
  assert (G1 : going op s1).
  { eapply going_keeps; [|done|done]. destruct Hf as [Hf|[=]]. unfold operation in Hf. destruct (stOperations (eStore s) !! rvOperationID request) eqn:Er; [|done]. injection Hf as ->.
    eapply row_going; [done|done|]. unfold active_row. by rewrite Est. }
  clear Hf. apply calmly_bind. eapply (uwp_quiet tick (going op) None); [quiet|done|done|done|intros; by eapply going_keeps|]. intros [u|e] s2 _ G2 _ _ _ _; [|apply calmly_ret; by eapply under_calm, G2].
  apply calmly_bind. eapply (uwp_quiet tick (going op) None); [by split|done|apply G2|done|intros; by eapply going_keeps|]. intros ready_ s3 _ G3 _ _ _ _.
  destruct (negb ready_); [apply calmly_ret; by eapply under_calm, G3|].
  apply uwp_step; [apply G3|by rewrite Est|done|done|done|]. intros s4 n4 U4. apply calmly_bind.
  eapply (uwp_quiet tick (under _) None); [quiet|exact U4|apply U4|done|intros; by eapply under_keeps|]. intros [u'|e] s5 _ U5 _ _ _ _; [|by apply after_failure_calm; [apply U5|]].
  apply uwp_step; [apply U5|done|done|done|done|]. intros s6 n6 U6. by apply verdict_calm.
Qed.
(** ** Rollback by the operator *)
Lemma rollback_admitted_calm op s : ready op s -> calmly (rollbackAdmitted cfg op) s.
Proof.
  intros Hr. unfold rollbackAdmitted.
  assert (Hq : forall {A} (p : prog A) (f : A -> prog outcome) s, quiet None p -> ready op s -> (forall a s', ready op s' -> calmly (f a) s') -> calmly (p ≫= f) s).
  { intros A p f s' Hp Hr' Hf. apply calmly_bind. eapply (uwp_quiet tick (ready op) None); [done|done|apply Hr'|done|intros; by eapply ready_keeps|]. intros; by apply Hf. }
  apply Hq; [quiet|done|]. intros [out|] s1 R1; [by apply calmly_ret, (ready_calm op)|]. apply Hq; [quiet|done|].
  intros [acquired|e] s2 R2; [|by apply calmly_ret, (ready_calm op)]. apply Hq; [quiet|done|]. intros [u|e] s3 R3; [by apply perform_calm|].
  apply calmly_quiet_bind; [quiet|by eapply ready_calm|]. intros _ s4 _ C4. by apply calmly_ret.
Qed.

Lemma rollback_calm request s : calm s -> calmly (Rollback cfg request) s.
Proof.
  intros Hc. unfold Rollback. destruct (negb _); [by apply calmly_ret|]. apply calmly_bind, uwp_read; [apply Hc|]. intros found s1 K1 I1 Hf.
  assert (C1 := calm_keeps _ _ Hc K1 I1). destruct found as [op|e]; [|by apply calmly_ret]. destruct (negb (validPersistedOperation op)); [by apply calmly_ret|].
  destruct (_ || _ || _ || _); [by apply calmly_ret|].
  assert (O1 : owned op (eStore s1)).
  { eapply owned_same; [apply K1|]. destruct Hf as [Hf|[=]]. unfold operation in Hf. destruct (stOperations (eStore s) !! rvOperationID request) eqn:Er; [|done]. injection Hf as ->.
    eapply row_owned; [apply Hc|done]. }
  clear Hf. apply calmly_bind, uwp_read; [done|]. intros busy s2 K2 I2 Hb. assert (C2 := calm_keeps _ _ C1 K2 I2).
  assert (R2 : alone (opID op) (eStore s1) -> ready op s2).
  { intros Ha. eapply (ready_keeps op s1); [by split_and!|done|done]. }
  destruct busy as [other|e].
  - destruct (String.eqb (opID other) (opID op)) eqn:Ei; [|by apply calmly_ret]. apply String.eqb_eq in Ei. apply rollback_admitted_calm, R2.
    destruct Hb as [Hb|[=]]. symmetry in Hb. apply active_found in Hb as (id & Hr & Ha). rewrite <- Ei. apply (row_under other id s1 C1 Hr Ha).
  - destruct (is_not_found e) eqn:Ee; [|by apply calmly_ret]. destruct Hb as [Hb|[= ->]]; [|done]. apply rollback_admitted_calm, R2, no_active_alone. by eapply active_none.
Qed.

(** ** Startup *)
Lemma pay_debt s : calm s -> calmly (payCleanupDebt cfg) s.
Proof.
  intros Hc. unfold payCleanupDebt. apply calmly_quiet_bind; [by split|done|]. intros [debt|e] s1 _ C1; [|by case_match; apply calmly_ret].
  destruct (cfProvider cfg); try (by apply calmly_ret). apply calmly_attempt. eapply uwp_mono; [apply calmly_quiet; [quiet|done]|]. intros r s2 C2. split; [done|]. intros _ _.
  apply calmly_quiet_bind; [by split|done|]. intros now s3 _ C3. apply calmly_attempt, uwp_commit_unit; [apply C3|intros st Hcl; by eapply ss_clear| |].
  - intros st s4 _ K4 I4. assert (C4 := calm_set_store _ _ _ C3 K4 I4). split; [done|]. intros _ _. by apply prune_calm.
  - intros e s4 K4 I4. split; [by eapply calm_keeps|done].
Qed.

Lemma settle_calm op s : going op s -> verified op s -> calmly (settleReconciled cfg op StateApplied) s.
Proof.
  intros [Hu Ht] Hv. unfold settleReconciled. cbn [String.eqb]. apply calmly_bind. change (String.eqb StateApplied StateApplied) with true. cbv iota.
  apply uwp_health; [done|]. intros h s1 U1 K1 Hh. destruct (hrReady h) eqn:Er; cbn [negb].
  - apply calmly_bind, uwp_advance; [apply U1|by apply applied_edge| |done| |].
    + intros _. split; [by eapply evidence_keeps|auto].
    + intros s2 now [C2 _] _. apply calmly_bind, uwp_bind. eapply uwp_mono; [by apply cleanup_calm|]. intros cleanup s3 C3.
      eapply (uwp_mono _ _ (fun _ s' => calm s')).
      { destruct cleanup as [u|e]; [|done]. apply uwp_bind. eapply uwp_mono; [by apply prune_calm|]. by intros. }
      intros err s4 C4. apply calmly_quiet_bind; [quiet|done|]. intros _ s5 _ C5. by apply calmly_ret.
    + intros e s2 K2 I2. assert (C2 : calm s2) by (eapply calm_keeps; [apply U1|done|done]). apply calmly_bind, uwp_ret.
      apply calmly_quiet_bind; [quiet|done|]. intros _ s3 _ C3. by apply calmly_ret.
  - apply calmly_bind. eapply uwp_mono; [by apply after_failure_calm; [apply U1|]|]. by intros.
Qed.

Lemma failure_result op reason cause s :
  going op s -> calmly (r ← rollbackAfterFailure cfg op reason cause; Ret (error_of r)) s.
Proof. intros [Hu Ht]. apply calmly_bind. eapply uwp_mono; [by apply after_failure_calm; [apply Hu|]|]. by intros. Qed.

Lemma reconcile_active_calm op s : going op s -> calmly (reconcileActive cfg op) s.
Proof.
  intros G. unfold reconcileActive. apply calmly_attempt, uwp_read; [apply G|]. intros started s1 K1 I1 _. assert (G1 := going_keeps _ _ _ G K1 I1).
  split; [by eapply under_calm, G1|]. intros st ->. apply calmly_bind, uwp_now; [done|]. intros now s2 K2 I2. assert (G2 := going_keeps _ _ _ G1 K2 I2).
  destruct (_ && _); [by apply failure_result|]. apply calmly_bind, uwp_advance; [apply G2|apply verifying_edge, G2|done|done| |].
  - intros s3 n3 R3 A3. assert (G3 : going (moved StateVerifyingActive "" n3 op) s3) by (split; [split; [done|by apply A3]|done]).
    apply calmly_bind, uwp_verify; [apply G3|]. intros v s4 U4 Hv. assert (G4 : going (moved StateVerifyingActive "" n3 op) s4) by (by split).
    destruct v as [[|]|e]; [by apply settle_calm; auto|by apply failure_result|]. pose proof (failure_result _ "active_release_verification_failed" (Some e) _ G4) as Hf.
    destruct e; try exact Hf. apply calmly_ret. by eapply under_calm.
  - intros e s3 K3 I3. apply calmly_ret. eapply calm_keeps; [by eapply under_calm, G2|done|done].
Qed.

(** A report to the caller of an advance into [RECOVERY_REQUIRED]. *)
Lemma recover_result op event reason s :
  ready op s -> terminal (uoState op) = false ->
  calmly (r ← advance op StateRecoveryRequired event reason; match r with (_, Some e) => fail e | (_, None) => (fail ErrRecoveryRequired : prog (result updError unit)) end) s.
Proof.
  intros Hr Ht. apply calmly_bind, uwp_advance; [done|by apply recovery_edge|done|done| |].
  - intros s1 now [C1 _] _. by apply calmly_ret.
  - intros e s1 K1 I1. apply calmly_ret. eapply calm_keeps; [apply Hr|done|done].
Qed.

Lemma perform_result op reason s : ready op s -> calmly (r ← performRollback cfg op reason; Ret (error_of r)) s.
Proof. intros Hr. apply calmly_bind. eapply uwp_mono; [by apply perform_calm|]. by intros. Qed.

Lemma startup_calm s : calm s -> calmly (reconcileStartupLocked cfg) s.
Proof.
  intros Hc. unfold reconcileStartupLocked. apply calmly_attempt. eapply uwp_mono; [by apply pay_debt|]. intros r s1 C1. split; [done|]. intros _ _.
  apply calmly_bind, uwp_read; [apply C1|]. intros found s2 K2 I2 Hf. assert (C2 := calm_keeps _ _ C1 K2 I2). destruct found as [op|e]; [|by case_match; apply calmly_ret].
  assert (G2 : going op s2).
  { destruct Hf as [Hf|[=]]. symmetry in Hf. apply active_found in Hf as (id & Hr & Ha). exact (going_keeps _ _ _ (row_going op id s1 C1 Hr Ha) K2 I2). }
  clear Hf. destruct (negb _); [by apply calmly_ret|]. destruct (uoRestoredUntrusted op).
  { apply recover_result; [eapply (ready_identity op); [done|apply G2]|apply G2]. }
  apply calmly_bind. eapply (uwp_quiet tick (going op) None); [quiet|done|done|done|intros; by eapply going_keeps|]. intros [state err] s3 l G3 _ _ Hret Hl.
  destruct err as [e|]; cbn [orb]; [by apply recover_result; apply G3|]. apply reconcile_evidence in Hret as [Hstate Hev].
  destruct Hstate as [->|[->|[->| ->]]]; cbn -[settleReconciled performRollback reconcileActive step advance].
  - apply settle_calm; [done|]. unfold verified. rewrite Hl, existsb_app, orb_true_iff. left. by apply Hev.
  - by apply reconcile_active_calm.
  - apply calmly_bind. eapply (uwp_mono _ _ (fun _ s' => calm s')); [|by intros]. destruct (negb _); [|apply perform_calm, G3].
    apply uwp_step; [apply G3|apply pending_edge, G3|done|done|done|]. intros s4 n4 U4. apply perform_calm, U4.
  - apply perform_result, G3.
Qed.
(** ** Provider maintenance *)
Lemma transition_calm request s : calm s -> calmly (ApplyProviderTransition cfg request) s.
Proof.
  intros Hc. unfold ApplyProviderTransition. destruct (negb _); [by apply calmly_ret|]. apply calmly_quiet_bind; [by split|done|].
  intros [u|e] s1 _ C1; [|by apply calmly_ret]. apply calmly_quiet_bind; [quiet|done|]. intros identity s2 _ C2. destruct (_ || _); [by apply calmly_ret|].
  apply calmly_quiet_bind; [by split|done|]. intros current s3 _ C3. destruct (negb _); [by apply calmly_ret|].
  destruct (cfProvider cfg); try (by apply calmly_ret). apply calmly_bind. eapply uwp_mono; [by apply prepare_calm|]. intros [op err] s4 C4.
  apply calmly_bind. eapply (uwp_mono _ _ (fun _ s' => calm s')).
  - case_match; [|done]. apply calmly_quiet_bind; [quiet|done|]. intros [u'|e] s5 _ C5; [by apply activate_calm|by apply calmly_ret].
  - intros [op' err'] s5 C5. apply calmly_quiet_bind; [quiet|done|]. intros _ s6 _ C6. by apply calmly_ret.
Qed.

Lemma watchdog_calm s : calm s -> calmly (watchdogTick cfg) s.
Proof.
  intros Hc. unfold watchdogTick. apply calmly_quiet_bind; [quiet|done|]. intros [|] s1 _ C1; [|by apply calmly_ret]. apply calmly_bind.
  eapply uwp_mono; [by apply startup_calm|]. by intros.
Qed.
End Calls.
