(* ===== verification/UpdateHistories.v ===== *)
(** * Update lifecycle: histories of a panel

    A [world] is an environment, the call that holds the manager's mutex, if any, and the
    checks that run beside it.  [wstep] starts calls and checks, lets one of them take an
    action, lets a retained callback report progress, and crashes: the process forgets its memory and its calls, and a restore that
    was pending is accepted or undone.  A call may run under any configuration, since an
    activated release is another program.

    The properties hold of every reachable world, that is, of every interleaving with any
    answers of the broker, the host and the clock, and with crashes between any two
    actions. *)

From S2P Require Import Prelude GoStrings VersionPolicy Programs ReleaseManifest UpdateStore UpdateProvider UpdateLifecycle UpdateSemantics UpdateInvariants UpdateLogic UpdateCalls.

Open Scope string_scope.
Open Scope list_scope.
Open Scope Z_scope.

(** The calls that take the mutex. *)
Inductive call :=
| CPrepare (request : PrepareRequest)
| CActivate (request : RevisionRequest)
| CRollback (request : RevisionRequest)
| CReconcileStartup
| CApplyProviderTransition (request : ProviderTransitionRequest)
| CRecoverProviderMaintenance
| CWatchdogTick.

Section Histories.
Context `{ReleaseCodec} `{Digests} (tick : Z -> Z -> Prop).

Definition finished {A} (p : prog A) : prog unit := _ ← p; Ret tt.

Definition body (cfg : Config) (c : call) : prog unit :=
  match c with
  | CPrepare r => finished (Prepare cfg r)
  | CActivate r => finished (Activate cfg r)
  | CRollback r => finished (Rollback cfg r)
  | CReconcileStartup => finished (ReconcileStartup cfg)
  | CApplyProviderTransition r => finished (ApplyProviderTransition cfg r)
  | CRecoverProviderMaintenance => finished (RecoverProviderMaintenance cfg)
  | CWatchdogTick => watchdogTick cfg
  end.

Record world := mkWorld { wEnv : env; wCall : option (prog unit); wChecks : list (prog unit) }.

Inductive wstep : world -> world -> Prop :=
| w_start cfg c s checks : wstep (mkWorld s None checks) (mkWorld (set_log [] s) (Some (body cfg c)) checks)
| w_act {B} (e : updateE B) k b s s' checks : effect tick B e s b s' -> wstep (mkWorld s (Some (Do e k)) checks) (mkWorld s' (Some (k b)) checks)
| w_finish s checks : wstep (mkWorld s (Some (Ret tt)) checks) (mkWorld s None checks)
| w_check cfg channel s running checks : wstep (mkWorld s running checks) (mkWorld s running (finished (Check cfg channel) :: checks))
| w_check_act {B} i (e : updateE B) k b s s' running checks :
    checks !! i = Some (Do e k) -> effect tick B e s b s' -> wstep (mkWorld s running checks) (mkWorld s' running (<[i := k b]> checks))
| w_progress op n st s running checks : progress op n (eStore s) = Ok st -> wstep (mkWorld s running checks) (mkWorld (set_store st s) running checks)
| w_crash (accepted : bool) s running checks :
    wstep (mkWorld s running checks)
      (mkWorld (set_log [] (set_memory freshMemory (set_restore (if accepted then eStore s else default (eStore s) (ePrior s)) None s))) None []).

(** A new installation. *)
Definition installed (clock : Z) : world := mkWorld (mkEnv emptyStore freshMemory ∅ [] ∅ None clock []) None [].

Definition reachable (w : world) : Prop := exists clock, rtc wstep (installed clock) w.

(** ** Checks interfere as [rely] allows *)
Definition checkE {B} (e : updateE B) : Prop :=
  match e with
  | Read _ | Now | FetchEnvelope _ | InstalledComponents | CoreProvider => True
  | Commit tx => forall st st' a, tx st = Ok (st', a) -> exists v channel now, saveVerified v channel now st = Ok st'
  | _ => False
  end.

Fixpoint checking {A} (p : prog A) : Prop :=
  match p with
  | Ret _ => True
  | Do e k => checkE e /\ forall b, checking (k b)
  end.

#[global] Instance rely_refl : Reflexive rely.
Proof. intros s. unfold rely. by split_and!. Qed.

#[global] Instance rely_trans : Transitive rely.
Proof.
  intros a b c (R1 & M1 & F1 & K1 & B1 & P1 & L1) (R2 & M2 & F2 & K2 & B2 & P2 & L2). split_and!; [by etrans|congruence..].
Qed.

Lemma check_effect {B} (e : updateE B) s b s' : checkE e -> effect tick B e s b s' -> envStep s s' /\ rely s s'.
Proof.
  intros Hc He. assert (Hsame : envStep s s) by (apply es_other; try done; by exists []).
  destruct e; try done; simpl in Hc, He.
  - destruct He as [-> _]. by split.
  - destruct He as [[_ ->]|He]; [by split|]. destruct (tx (eStore s)) as [[st a]|x] eqn:Et; destruct He as [_ ->]; [|by split].
    destruct (Hc _ _ _ Et) as (v & channel & now & Hv). split; [apply es_store; by eapply ss_save|]. apply save_rows in Hv as (E1 & E2 & E3).
    unfold rely. split_and!; try done. split_and!; [done|done|]. intros id. simpl. by rewrite E1.
  - destruct He as [_ ->]. split; [apply es_other; try done; by exists []|]. unfold rely. by split_and!.
  - subst s'. destruct s. by split.
  - subst s'. destruct s. by split.
  - subst s'. destruct s. by split.
Qed.

Lemma checking_bind {A B} (p : prog A) (f : A -> prog B) : checking p -> (forall a, checking (f a)) -> checking (p ≫= f).
Proof. unfold mbind, prog_bind. intros Hp Hf. induction p as [a|C e k IH]; simpl in *; [auto|]. destruct Hp as [He Hk]. split; [done|]. intros b. by apply IH. Qed.

Lemma checking_attempt {X A B} (p : prog (result X A)) (k : A -> prog (result X B)) : checking p -> (forall a, checking (k a)) -> checking (attempt p k).
Proof. intros Hp Hk. apply (checking_bind p); [done|]. by intros [a|e]. Qed.

Ltac checks :=
  repeat (cbv zeta; match goal with
  | |- checking (Ret _) => exact I
  | |- checking (fail _) => exact I
  | |- checking (act _) => split; [exact I|by intros ?]
  | |- checking (_ ≫= _) => apply checking_bind; [|intros ?]
  | |- checking (attempt _ _) => apply checking_attempt; [|intros ?]
  | |- checking (match ?x with _ => _ end) => destruct x
  end).

Lemma check_checking cfg channel : checking (finished (Check cfg channel)).
Proof.
  unfold finished, Check, legacyCoreProviderAdmission, fetchAndVerify, validateManifestCompatibility, legacyCoreProviderAdmission. checks.
  split; [|by intros]. intros st st' u. match goal with |- context [saveVerified ?v ?c ?n st] => destruct (saveVerified v c n st) as [st1|] eqn:Ev end; simpl; [|done].
  intros [= <- _]. eauto.
Qed.

(** ** The invariant *)
Lemma body_calm cfg c s : calm s -> calmly tick (body cfg c) s.
Proof.
  assert (Hf : forall A (p : prog A), (forall s, calm s -> calmly tick p s) -> forall s, calm s -> calmly tick (finished p) s).
  { intros A p Hp s' Hc. unfold finished. apply calmly_bind. eapply uwp_mono; [by apply Hp|]. by intros. }
  revert s. destruct c as [r|r|r| |r| |]; simpl; try apply Hf; intros s Hc.
  - unfold Prepare. destruct (_ || _ || _ || _); [done|by apply prepare_calm].
  - unfold Activate. destruct (negb _); [done|by apply activate_calm].
  - by apply rollback_calm.
  - by apply startup_calm.
  - by apply transition_calm.
  - apply calmly_quiet; [quiet|done].
  - by apply watchdog_calm.
Qed.

(** The call goes on calmly, whatever checks do first. *)
Definition call_ok (s : env) (running : option (prog unit)) : Prop :=
  match running with
  | None => calm s
  | Some p => forall s', rely s s' -> inv s' -> calmly tick p s'
  end.

Record world_ok (w : world) : Prop := mkWorldOk {
  wo_inv : inv (wEnv w);
  wo_call : call_ok (wEnv w) (wCall w);
  wo_checks : forall p, p ∈ wChecks w -> checking p
}.

Lemma installed_ok clock : world_ok (installed clock).
Proof.
  assert (Hs : store_ok emptyStore).
  { split; [intros i j (r & Hr & _)|intros id r Hr|done|split; [apply NoDup_nil_2|by intros j ?%not_elem_of_nil]|intros id r Hr]; simpl in Hr; by rewrite lookup_empty in Hr. }
  assert (Hi : inv (wEnv (installed clock))) by (split; [done|done|by intros id d snap]).
  split; [done|by split_and!|by intros p ?%not_elem_of_nil].
Qed.

Lemma call_ok_rely s s' running : inv s' -> rely s s' -> call_ok s running -> call_ok s' running.
Proof.
  intros Hi Hr. destruct running as [p|]; simpl; [|intros Hc; eapply calm_keeps; [done|by apply rely_keeps|done]].
  intros Hp s2 Hr2 Hi2. apply Hp; [by etrans|done].
Qed.

Lemma checks_insert (checks : list (prog unit)) (i : nat) (p : prog unit) : (forall q, q ∈ checks -> checking q) -> checking p -> forall q, q ∈ <[i := p]> checks -> checking q.
Proof. intros Hc Hp q [j Hj]%list_elem_of_lookup. apply list_lookup_insert_Some in Hj as [(_ & <- & _)|[_ Hj]]; [done|]. apply Hc. by eapply list_elem_of_lookup_2. Qed.

Lemma reset_inv l m st s : inv s -> store_ok st -> inv (set_log l (set_memory m (set_restore st None s))).
Proof. intros [Hs Hp Hb] Hst. by split. Qed.

Lemma progress_step op n st s : inv s -> progress op n (eStore s) = Ok st -> envStep s (set_store st s) /\ rely s (set_store st s).
Proof.
  intros Hi Hp. split; [apply es_store; by eapply ss_progress|]. unfold rely. split_and!; try done. eapply progress_same_rows; [apply Hi|done].
Qed.

Lemma world_step_ok w w' : world_ok w -> wstep w w' -> world_ok w'.
Proof.
  intros [Hi Hc Hk] Hs. destruct Hs as [cfg c s checks|B e k b s s' checks He|s checks|cfg channel s running checks|B i e k b s s' running checks Hl He|op n st s running checks Hp|accepted s running checks]; simpl in *.
  - assert (Hc0 : calm (set_log [] s)) by (destruct Hc as ([] & Hp & Hr); split; [by split|done]).
    split; simpl; [apply Hc0| |done]. intros s' Hr Hi'. apply body_calm. eapply calm_keeps; [exact Hc0|by apply rely_keeps|done].
  - destruct (Hc s) as [Hp Hcont]; [done|done|]. assert (Hi' : inv s') by (eapply env_step_inv; [done|by eapply Hp]).
    split; simpl; [done| |done]. intros s2 Hr Hi2. apply Hcont. by exists s'.
  - split; simpl; [done| |done]. by apply (Hc s).
  - split; simpl; [done|done|]. intros p [->|Hp]%elem_of_cons; [apply check_checking|by apply Hk].
  - destruct (Hk (Do e k)) as [Hce Hck]; [by eapply list_elem_of_lookup_2|]. destruct (check_effect e s b s' Hce He) as [Hst Hr].
    assert (Hi' : inv s') by (by eapply env_step_inv). split; simpl; [done|by eapply call_ok_rely|apply checks_insert; [done|apply Hck]].
  - destruct (progress_step op n st s Hi Hp) as [Hst Hr]. assert (Hi' : inv (set_store st s)) by (by eapply env_step_inv). split; simpl; [done|by eapply call_ok_rely|done].
  - assert (Hst : store_ok (if accepted then eStore s else default (eStore s) (ePrior s))).
    { destruct accepted; [apply Hi|]. destruct (ePrior s) as [p|] eqn:Ep; simpl; [by apply (iv_prior _ Hi)|apply Hi]. }
    split; simpl; [by apply reset_inv|split_and!; [by apply reset_inv|done|done]|by intros p ?%not_elem_of_nil].
Qed.

Lemma reachable_world_ok w : reachable w -> world_ok w.
Proof. intros (clock & Hr). revert Hr. apply (rtc_ind_r (fun w => world_ok w)); [apply installed_ok|]. intros w1 w2 _ Hs Hok. by eapply world_step_ok. Qed.
(** ** Steps that keep the database *)

(** A step that neither starts nor ends the restore of a backup. *)
Definition keeps_database (w w' : world) : Prop := wstep w w' /\ ePrior (wEnv w) = None /\ ePrior (wEnv w') = None.

Lemma env_store s s' :
  envStep s s' -> ePrior s = None -> ePrior s' = None -> eStore s' = eStore s \/ storeStep (eLog s) (eStore s) (eStore s').
Proof.
  intros Hs Hp Hp'. destruct Hs as [st Hst|s' E _ _ _|id d _ _|id d snap _ _ _| |]; simpl in *; [by right|by left|by left|done|by left|]. rewrite Hp. by left.
Qed.

Lemma step_store w w' :
  world_ok w -> keeps_database w w' -> eStore (wEnv w') = eStore (wEnv w) \/ storeStep (eLog (wEnv w)) (eStore (wEnv w)) (eStore (wEnv w')).
Proof.
  intros [Hi Hc Hk] (Hs & Hp & Hp').
  destruct Hs as [cfg c s checks|B e k b s s' checks He|s checks|cfg channel s running checks|B i e k b s s' running checks Hl He|op n st s running checks Hpr|accepted s running checks]; simpl in *; try by left.
  - apply env_store; [|done|done]. destruct (Hc s) as [Hpe _]; [done|done|]. by eapply Hpe.
  - destruct (Hk (Do e k)) as [Hce Hck]; [by eapply list_elem_of_lookup_2|]. destruct (check_effect e s b s' Hce He) as [Hst _]. by apply env_store.
  - right. by eapply ss_progress.
  - rewrite Hp. left. by destruct accepted.
Qed.

Lemma step_rows w w' :
  world_ok w -> keeps_database w w' -> rowsChange (eLog (wEnv w)) (eStore (wEnv w)) (eStore (wEnv w')).
Proof.
  intros Hok Hs. destruct (step_store _ _ Hok Hs) as [E|Hst]; [apply rc_same; by rewrite E|]. eapply store_step_rows; [apply Hok|done].
Qed.

(** A row and its successor. *)
Lemma change_row log st st' id row row' :
  rowsChange log st st' -> stOperations st !! id = Some row -> stOperations st' !! id = Some row' -> row' = row \/ rowStep log st row row'.
Proof.
  intros Hc Hr Hr'. destruct Hc as [E|op Hn E _ _ _ _ _|i r r' Hi E Hs|ids E _]; rewrite E in Hr'.
  - left. congruence.
  - destruct (decide (id = opID op)) as [->|Hne]; [congruence|]. rewrite lookup_insert_ne in Hr' by done. left. congruence.
  - destruct (decide (id = i)) as [->|Hne]; [|rewrite lookup_insert_ne in Hr' by done; left; congruence]. rewrite lookup_insert_eq in Hr'. right. naive_solver congruence.
  - apply map_lookup_filter_Some in Hr' as [Hr' _]. left. congruence.
Qed.

Lemma change_new log st st' id row' :
  rowsChange log st st' -> stOperations st !! id = None -> stOperations st' !! id = Some row' -> uoState row' = StateDownloading.
Proof.
  intros Hc Hr Hr'. destruct Hc as [E|op Hn E _ Hst _ _ _|i r r' Hi E Hs|ids E _]; rewrite E in Hr'.
  - congruence.
  - destruct (decide (id = opID op)) as [->|Hne]; [|rewrite lookup_insert_ne in Hr' by done; congruence]. rewrite lookup_insert_eq in Hr'. by injection Hr' as <-.
  - destruct (decide (id = i)) as [->|Hne]; [congruence|]. rewrite lookup_insert_ne in Hr' by done. congruence.
  - apply map_lookup_filter_Some in Hr' as [Hr' _]. congruence.
Qed.

(** The only edge out of a terminal state. *)
Lemma terminal_edge from to : terminal from = true -> edge from to = true -> from = StateApplied /\ to = StateRollingBack.
Proof.
  intros Ht He. unfold edge in He.
  assert (Hf : from = StateApplied \/ from = StateRolledBack \/ from = StateFailed).
  { unfold terminal, one_of, terminalStates in Ht. simpl in Ht. rewrite !orb_true_iff, !String.eqb_eq in Ht. naive_solver. }
  destruct Hf as [->|[->| ->]]; repeat (case_match; try done); bools; auto.
Qed.

(** ** Properties *)

(** C1: In every history of a panel, with checks running beside the calls and with crashes
    between any two actions, at most one update operation is outside a terminal state. *)
Theorem one_operation_under_way w i j :
  reachable w -> active_at i (eStore (wEnv w)) -> active_at j (eStore (wEnv w)) -> i = j.
Proof. intros Hr%reachable_world_ok. apply (so_exclusive _ (iv_store _ (wo_inv _ Hr))). Qed.

(** C2: An operation becomes [APPLIED] only when, since the start of the call that applies it, the
    broker reported the exact release (sequence and manifest digest) as verified and manageable,
    and the health check of the same operation reported ready. *)
Theorem applied_is_proven w w' id row' :
  reachable w -> keeps_database w w' -> stOperations (eStore (wEnv w')) !! id = Some row' -> uoState row' = StateApplied ->
  at_state id StateApplied (eStore (wEnv w)) \/ (opID row' = id /\ proven row' (eLog (wEnv w))).
Proof.
  intros Hr%reachable_world_ok Hs Hr' Hst. pose proof (step_rows _ _ Hr Hs) as Hc. destruct (stOperations (eStore (wEnv w)) !! id) as [row|] eqn:Hrow.
  - destruct (change_row _ _ _ _ _ _ Hc Hrow Hr') as [->|Hrs]; [left; by exists row|].
    pose proof (so_keyed _ (iv_store _ (wo_inv _ Hr)) _ _ Hrow) as Hk. pose proof (row_step_identity _ _ _ _ Hrs) as Ei.
    destruct Hrs as [op state reason now bytes _ _ _ _ _ Hp _ _|n _ Hd|reason now _|now _|reason now _ _|reason now _]; simpl in *; try (left; by exists row); try done.
    right. split; [done|]. apply (proven_identity row); auto.
  - pose proof (change_new _ _ _ _ _ Hc Hrow Hr') as E. by rewrite E in Hst.
Qed.

(** *** The rows of operations *)

(** How a row may change within a database. *)
Definition follows_graph (st : Store) (id : string) (row row' : UpdateOperation) : Prop :=
  uoIdentity row' = uoIdentity row /\
  (uoState row' = uoState row \/ edge (uoState row) (uoState row') = true \/ (uoRestoredUntrusted row = true /\ uoState row' = StateRolledBack)) /\
  (terminal (uoState row) = true -> uoState row' = uoState row \/ (uoState row = StateApplied /\ uoState row' = StateRollingBack /\ alone id st)).

Definition rows_follow (st st' : Store) : Prop :=
  forall id row row', stOperations st !! id = Some row -> stOperations st' !! id = Some row' -> follows_graph st id row row'.

Lemma same_follow st st' : st' = st -> rows_follow st st'.
Proof. intros -> id row row' Hr Hr'. rewrite Hr in Hr'. injection Hr' as <-. unfold follows_graph. auto. Qed.

Lemma store_follow log st st' : store_ok st -> storeStep log st st' -> rows_follow st st'.
Proof.
  intros Hok Hs id row row' Hrow Hrow'. pose proof (store_step_rows _ _ _ (so_keyed _ Hok) Hs) as Hc. destruct (change_row _ _ _ _ _ _ Hc Hrow Hrow') as [->|Hrs]; [by unfold follows_graph; auto|].
  split; [by eapply row_step_identity|]. pose proof (so_keyed _ Hok _ _ Hrow) as Hk. split.
  - destruct Hrs as [op state reason now bytes _ _ _ He _ _ _ _|n _ Hd|reason now _|now _|reason now _ Hu|reason now Ha]; simpl; auto.
  - intros Ht. destruct Hrs as [op state reason now bytes _ _ _ He Hal _ _ _|n _ Hd|reason now _|now _|reason now Ha Hu|reason now Ha]; simpl; auto;
      try (unfold active_row in Ha; by rewrite Ht in Ha).
    right. rewrite Hk in Hal. destruct (terminal_edge _ _ Ht He) as [-> ->]. auto.
Qed.

(** The database of an environment: changed row by row, replaced by a published backup of the
    operation under way, or brought back after such a replacement. *)
Definition database_step (s s' : env) : Prop :=
  rows_follow (eStore s) (eStore s') \/
  (exists id d, eBackups s !! id = Some (d, eStore s') /\ active_at id (eStore s) /\ active_at id (eStore s') /\ ePrior s = None /\ ePrior s' = Some (eStore s)) \/
  (ePrior s = Some (eStore s') /\ ePrior s' = None).

Lemma env_database s s' : inv s -> envStep s s' -> database_step s s'.
Proof.
  intros Hi Hs. destruct Hs as [st Hst|s' E _ _ _|id d _ _|id d snap Hb Hp Ha| |]; unfold database_step; simpl.
  - left. by eapply store_follow; [apply Hi|].
  - left. by apply same_follow.
  - left. by apply same_follow.
  - right; left. exists id, d. split_and!; try done. by apply (iv_backups _ Hi id d).
  - left. by apply same_follow.
  - destruct (ePrior s); simpl; [by right; right|left; by apply same_follow].
Qed.

(** C38: Along every step of every history, restores and crashes included, an operation keeps its
    identity and moves along the state graph: [FAILED] and [ROLLED_BACK] are final, [APPLIED] is
    left for [ROLLING_BACK] only, and then no other operation is under way; the untrusted row of
    a restored database may also become [ROLLED_BACK].  Otherwise the step replaces the whole
    database, and then by a published backup of the operation that is under way, in which that
    operation is under way too, or by the database that such a restore had replaced. *)
Theorem rows_follow_graph w w' : reachable w -> wstep w w' -> database_step (wEnv w) (wEnv w').
Proof.
  intros [Hi Hc Hk]%reachable_world_ok Hs.
  destruct Hs as [cfg c s checks|B e k b s s' checks He|s checks|cfg channel s running checks|B i e k b s s' running checks Hl He|op n st s running checks Hpr|accepted s running checks]; simpl in *; try (left; by apply same_follow).
  - apply env_database; [done|]. destruct (Hc s) as [Hpe _]; [done|done|]. by eapply Hpe.
  - destruct (Hk (Do e k)) as [Hce Hck]; [by eapply list_elem_of_lookup_2|]. destruct (check_effect e s b s' Hce He) as [Hst _]. by apply env_database.
  - apply env_database; [done|]. apply es_store. by eapply ss_progress.
  - unfold database_step. simpl. destruct accepted; [left; by apply same_follow|]. destruct (ePrior s); simpl; [by right; right|left; by apply same_follow].
Qed.

(** *** Sequences of releases *)

(** Each channel's row survives, and its observed and applied sequences do not go back. *)
Definition floors_hold (st st' : Store) : Prop :=
  forall channel r, stReleases st !! channel = Some r ->
    exists r', stReleases st' !! channel = Some r' /\ rsLastObservedSequence r <= rsLastObservedSequence r' /\ rsLastAppliedSequence r <= rsLastAppliedSequence r'.

#[local] Instance floors_refl : Reflexive floors_hold.
Proof. intros st channel r Hr. exists r. split_and!; [done|lia|lia]. Qed.

#[local] Instance floors_trans : Transitive floors_hold.
Proof. intros a b c Hab Hbc channel r Hr. destruct (Hab _ _ Hr) as (r1 & Hr1 & ? & ?). destruct (Hbc _ _ Hr1) as (r2 & Hr2 & ? & ?). exists r2. split_and!; [done|lia|lia]. Qed.

Lemma floors_same st st' : stReleases st' = stReleases st -> floors_hold st st'.
Proof. intros E channel r Hr. exists r. rewrite E. split_and!; [done|lia|lia]. Qed.

Lemma save_floors v channel now st st' : saveVerified v channel now st = Ok st' -> floors_hold st st'.
Proof.
  unfold saveVerified. destruct (existsb _ _); [done|]. destruct (stReleases st !! channel) as [r|] eqn:Er; cbn [rbind].
  - destruct (negb (validPersistedReleaseState r)); cbn [rbind]; [done|]. destruct (_ || _) eqn:Eo; [done|]. destruct (negb (storable _)); [done|]. intros [= <-] k x Hx. simpl. bools.
    destruct (decide (k = channel)) as [->|Hne]; [rewrite lookup_insert_eq|rewrite lookup_insert_ne by done; exists x; split_and!; [done|lia|lia]].
    eexists. split; [done|]. simpl. assert (x = r) as -> by congruence. destruct Eo as [Eo _]. split; lia.
  - destruct (_ || _); [done|]. destruct (negb (storable _)); [done|]. intros [= <-] k x Hx. simpl.
    destruct (decide (k = channel)) as [->|Hne]; [congruence|rewrite lookup_insert_ne by done; exists x; split_and!; [done|lia|lia]].
Qed.

Lemma applied_floors op revision state event st st' : completeApplied op revision state event st = Ok st' -> floors_hold st st'.
Proof.
  unfold completeApplied. destruct (stReleases st !! opChannel op) as [r|] eqn:Er; [|done]. destruct (_ || _); [done|]. destruct (_ || _ || _) eqn:Eo; [done|].
  destruct (fenced _ _ _ _) as [row|]; [|done]. intros [= <-] k x Hx. simpl. bools.
  destruct (decide (k = opChannel op)) as [->|Hne]; [rewrite lookup_insert_eq|rewrite lookup_insert_ne by done; exists x; split_and!; [done|lia|lia]].
  eexists. split; [done|]. simpl. assert (x = r) as -> by congruence. destruct Eo as [_ Eo]. split; lia.
Qed.

Lemma store_step_floors log st st' : storeStep log st st' -> floors_hold st st'.
Proof.
  intros Hs. destruct Hs as [v channel now st' Hv|op event reason st' Hc _ _ _ _ _|op state event reason now st' Hm _ _ _ _ _|op bytes st' Hp
    |op reason now st' Hd _|op now st' Hc|ids _|sequences _|op reason st' x Hb _|op reason st' x Hm _]; [by eapply save_floors| | |apply floors_same..].
  - apply create_rows in Hc as (_ & _ & ->). by apply floors_same.
  - destruct (String.eqb state StateApplied); [by eapply applied_floors|]. apply floors_same. unfold update in Hm. repeat (case_match; try done); by injection Hm as <-.
  - unfold progress in Hp. repeat (case_match; try done); by injection Hp as <-.
  - unfold recordCleanupDebt in Hd. repeat (case_match; try done); by injection Hd as <-.
  - unfold clearCleanupDebt in Hc. repeat (case_match; try done); by injection Hc as <-.
  - done.
  - done.
  - unfold rebindRestoredRollback in Hb. repeat (case_match; try done); by injection Hb as <- _.
  - unfold markRollbackRecovery in Hm. repeat (case_match; try done); by injection Hm as <- _.
Qed.

(** Along any history that does not restore a backup, the sequence observed and the sequence
    applied of each channel never go back: a release older than the applied one is never
    recorded as applied, by any interleaving of checks, preparations and activations. *)
Theorem sequences_never_go_back w w' :
  reachable w -> rtc keeps_database w w' -> floors_hold (eStore (wEnv w)) (eStore (wEnv w')).
Proof.
  intros Hr Hs. assert (Hok := reachable_world_ok _ Hr). clear Hr. induction Hs as [w|w1 w2 w3 Hs _ IH]; [reflexivity|]. etrans; [|apply IH; destruct Hs as [Hs _]; by eapply world_step_ok].
  destruct (step_store _ _ Hok Hs) as [->|Hst]; [reflexivity|by eapply store_step_floors].
Qed.

(** A prepared operation, and only such an operation is activated, can always be rolled back:
    its row says so and names the digest of a published backup, also after crashes and in every
    backup and restored database. *)
Theorem prepared_can_roll_back w id row :
  reachable w -> stOperations (eStore (wEnv w)) !! id = Some row -> uoState row = StatePrepared ->
  uoRollbackAvailable row = true /\ validDigest (uoBackupRef row) = true.
Proof. intros Hr%reachable_world_ok. apply (so_prepared _ (iv_store _ (wo_inv _ Hr))). Qed.

(** No restore of the database is left pending when a call returns: while no call holds the
    mutex, the replaced database is gone and the process has no restore to finish. *)
Theorem no_restore_between_calls w :
  reachable w -> wCall w = None -> ePrior (wEnv w) = None /\ pcRestorePending (eMemory (wEnv w)) = false.
Proof. intros Hr%reachable_world_ok Hn. pose proof (wo_call _ Hr) as Hc. rewrite Hn in Hc. destruct Hc as (_ & ? & ?). done. Qed.
End Histories.
