(* ===== verification/UpdateRuns.v ===== *)
(** * Update lifecycle: a panel that runs

    A release, a configuration and an [oracle] that answers every action of a call, and
    the runs of calls under it.  The oracle obeys [effect], so its runs are histories
    ([over_rest], [part_reachable]); they are the inputs at which the properties of
    [UpdateHistories] are applied. *)

From S2P Require Import Prelude GoStrings VersionPolicy Programs ReleaseManifest UpdateStore UpdateProvider UpdateLifecycle UpdateSemantics UpdateInvariants UpdateLogic UpdateCalls UpdateHistories.

Open Scope string_scope.
Open Scope list_scope.
Open Scope Z_scope.

Module Panel.
Definition hex : string := "aaaaaaaaaaaaaaaaaaaaaaaaaaaaaaaaaaaaaaaaaaaaaaaaaaaaaaaaaaaaaaaa".

Definition artifact (role : string) : Artifact := mkArtifact (role +:+ ".tar.gz") role "linux" "amd64" "application/gzip" 4 hex "github" "".

Definition manifest : Manifest :=
  mkManifest SchemaV1 "release-1.1.0" 7 "1.1.0" ChannelMain 1000 2000 hex "1.0.0" "1.0.9" "1.0" "1.0" "1.0" "capability-1" hex hex "panel" "not-required" "automatic"
    [artifact "panel-core"; artifact "panel-full"] [] [].

#[global] Instance codec : ReleaseCodec := {|
  base64Length _ := None; strictObject _ := true;
  decodeEnvelope _ := Some (mkEnvelope SchemaV1 "root-1" SignatureAlgorithm "manifest" "signature");
  decodeManifest _ := Some manifest; marshalManifest _ := "manifest"; marshalArtifacts _ := "artifacts"; marshalEnvelope _ := "envelope";
  sha256hex _ := hex; ed25519Sign _ _ := "signature"; ed25519Verify _ _ _ := true |}.

#[global] Instance digests : Digests := {| semanticDigest _ := hex |}.

Definition trust : TrustStore := {[ "root-1" := mkRoot "root-1" "" RootActive 0 (10000 * second) 1 0 ]}.

Definition config : Config :=
  mkConfig BrokerProvider true false true false true false "1.0.0" "1.0" "capability-1" "sing-box" "linux" "amd64" "full" trust {[ ChannelMain := "github" ]} true.

(** The answers of a willing broker. *)
Definition reply {A} (call : mutation A) (op : UpdateOperation) : A :=
  match call with
  | VerbUpdateStage r => mkStageResult ProviderRevision (scOffset r + slen (scChunk r)) (scFinal r) hex ""
  | VerbUpdateRelease _ => mkReleaseStaging ProviderRevision true
  | VerbUpdatePrepare _ => mkPrepareResult ProviderRevision hex hex true true false ""
  | VerbUpdateActivate _ => mkActivateResult ProviderRevision (opSequence op) (opManifest op) false
  | VerbUpdateVerify _ => mkVerifyResult ProviderRevision true (opSequence op) (opManifest op) true "healthy"
  | VerbUpdateRollback _ => mkRollbackResult ProviderRevision true 6 hex true
  end.

(** The broker reports no active release. *)
Definition observation : ObservationV1 :=
  mkObservation ProviderRevision ProviderMaintenanceRevision None 0 0 "" "" false "" "" "" 0 "" (mkLocalCheckpoint "" "") false "" "" "" true.

Definition oracle (healthy : bool) {B} (e : updateE B) (s : env) : B * env :=
  match e in updateE B return B * env with
  | Read q => (q (eStore s), s)
  | Commit tx => match tx (eStore s) with Ok (st, a) => (Ok a, set_store st s) | Err x => (Err x, s) end
  | Local f => ((f (eMemory s)).2, set_memory (f (eMemory s)).1 s)
  | Now => (eClock s + second, set_clock (eClock s + second) s)
  | Observe id => (Ok observation, reported (Observe id) (Ok observation) s)
  | Mutate call op ordinal =>
      if fence_of (opID op) s <? fence_sequence op ordinal
      then (Ok (reply call op), reported (Mutate call op ordinal) (Ok (reply call op))
              (set_fence (opID op) (fence_sequence op ordinal) (mkKey (opID op) (uoRevision op) (existT _ call)) s))
      else (Err ErrRevisionMismatch, s)
  | FetchEnvelope channel => (Ok "envelope", reported (FetchEnvelope channel) (Ok "envelope") s)
  | InstalledComponents => (Ok [], reported InstalledComponents (Ok []) s)
  | MakeRoot op => (Ok tt, reported (MakeRoot op) (Ok tt) s)
  | FetchArtifact op a => (Ok (afSize a), reported (FetchArtifact op a) (Ok (afSize a)) s)
  | ReadArtifact op a => ((["demo"], None), reported (ReadArtifact op a) (["demo"], None) s)
  | PublishBackup op =>
      match eBackups s !! opID op with
      | Some (d, _) => (Ok d, s)
      | None => (Ok hex, set_backups (<[opID op := (hex, exportStore (eStore s))]> (eBackups s)) s)
      end
  | OpenBackup op => (Ok tt, reported (OpenBackup op) (Ok tt) s)
  | RestoreDatabase op =>
      match eBackups s !! opID op, ePrior s with
      | Some (d, snapshot), None => if String.eqb d (uoBackupRef op) then (Ok tt, set_restore snapshot (Some (eStore s)) s) else (Err ErrRecoveryRequired, s)
      | _, _ => (Err ErrRecoveryRequired, s)
      end
  | CompletePendingRestore => (Ok tt, set_restore (eStore s) None s)
  | AbortPendingRestore => (Ok tt, set_restore (default (eStore s) (ePrior s)) None s)
  | CacheExists => (Ok false, reported CacheExists (Ok false) s)
  | CleanCache keep => (Ok tt, set_backups (eBackups s) s)
  | CaptureProviderConfiguration => (Err ErrReleaseChanged, reported CaptureProviderConfiguration (Err ErrReleaseChanged) s)
  | SetCoreMaintenance generation held => (Ok tt, reported (SetCoreMaintenance generation held) (Ok tt) s)
  | BeginMaintenance => (Ok tt, reported BeginMaintenance (Ok tt) s)
  | MaintenanceActive => (false, reported MaintenanceActive false s)
  | EndMaintenance => (tt, reported EndMaintenance tt s)
  | Health op => (mkHealth healthy [] hex, reported (Health op) (mkHealth healthy [] hex) s)
  | Admit => (true, reported Admit true s)
  | PlatformReady => (true, reported PlatformReady true s)
  | CoreProvider => let i := mkCoreIdentity true (mkSource "sing-box" "" "" "" "" "" "" "" "" "") hex in (i, reported CoreProvider i s)
  | RunningPanelDigest => (Ok hex, reported RunningPanelDigest (Ok hex) s)
  | GlobalBlocker => (Ok "", reported GlobalBlocker (Ok "") s)
  | Authorize => (Ok tt, reported Authorize (Ok tt) s)
  end.

Lemma oracle_effect healthy {B} (e : updateE B) s : effect Z.le B e s (oracle healthy e s).1 (oracle healthy e s).2.
Proof.
  destruct e; cbn [oracle]; try done.
  - split; [done|by left].
  - right. by destruct (tx (eStore s)) as [[st a]|x].
  - split; [|done]. assert (0 <= second) by done. simpl. lia.
  - destruct (fence_of (opID op) s <? fence_sequence op ordinal) eqn:Ef; [|left; split; [done|by left]]. right. right. split_and!; [by apply Z.ltb_lt|done|done].
  - simpl. destruct (eBackups s !! opID op) as [[d snap]|]; done.
  - simpl. destruct (eBackups s !! opID op) as [[d snap]|] eqn:Eb; [|done]. destruct (ePrior s) as [p|] eqn:Ep; [done|].
    destruct (String.eqb d (uoBackupRef op)) eqn:Ed; [|done]. apply String.eqb_eq in Ed. subst d. simpl. by exists snap.
  - by exists (eBackups s).
Qed.

(** The first actions of a program, and all of them. *)
Fixpoint after (healthy : bool) (n : nat) {A} (p : prog A) (s : env) : prog A * env :=
  match n, p with
  | S n', Do e k => let r := oracle healthy e s in after healthy n' (k r.1) r.2
  | _, _ => (p, s)
  end.

Fixpoint run (healthy : bool) {A} (p : prog A) (s : env) : A * env :=
  match p with
  | Ret a => (a, s)
  | Do e k => let r := oracle healthy e s in run healthy (k r.1) r.2
  end.

Lemma actions_history healthy n (p : prog unit) s checks :
  rtc (wstep Z.le) (mkWorld s (Some p) checks) (mkWorld (after healthy n p s).2 (Some (after healthy n p s).1) checks).
Proof.
  revert p s. induction n as [|n IH]; intros p s; [reflexivity|]. destruct p as [a|B e k]; [reflexivity|]. simpl. eapply rtc_l; [|apply IH].
  apply w_act, oracle_effect.
Qed.

Lemma run_history healthy (p : prog unit) s checks :
  rtc (wstep Z.le) (mkWorld s (Some p) checks) (mkWorld (run healthy p s).2 (Some (Ret tt)) checks).
Proof.
  revert s. induction p as [[]|B e k IH]; intros s; [reflexivity|]. simpl. eapply rtc_l; [|apply IH]. apply w_act, oracle_effect.
Qed.

(** A world in which a call is over, and one in which it has taken [n] actions. *)
Definition call_over (healthy : bool) (c : call) (w : world) : world := mkWorld (run healthy (body config c) (set_log [] (wEnv w))).2 None [].

Definition call_part (healthy : bool) (n : nat) (c : call) (w : world) : world :=
  let r := after healthy n (body config c) (set_log [] (wEnv w)) in mkWorld r.2 (Some r.1) [].

Definition at_rest (w : world) : Prop := reachable Z.le w /\ wCall w = None /\ wChecks w = [].

Lemma installed_rest clock : at_rest (installed clock).
Proof. split; [by exists clock|done]. Qed.

Lemma over_rest healthy c w : at_rest w -> at_rest (call_over healthy c w).
Proof.
  intros ((clock & Hr) & Hc & Hk). split; [|done]. exists clock. etrans; [exact Hr|]. destruct w as [s running checks]. simpl in Hc, Hk. subst.
  eapply rtc_l; [apply w_start|]. etrans; [apply run_history|]. apply rtc_once, w_finish.
Qed.

Lemma part_reachable healthy n c w : at_rest w -> reachable Z.le (call_part healthy n c w).
Proof.
  intros ((clock & Hr) & Hc & Hk). exists clock. etrans; [exact Hr|]. destruct w as [s running checks]. simpl in Hc, Hk. subst.
  eapply rtc_l; [apply w_start|]. apply actions_history.
Qed.

Definition prepare : PrepareRequest := mkPrepare ChannelMain 7 hex "key-1" true.
Definition start : world := installed (1500 * second).
Definition prepared : world := call_over true (CPrepare prepare) start.
Definition id : string := updateOperationID "key-1" hex.
Definition row_of (w : world) : UpdateOperation := default noOperation (stOperations (eStore (wEnv w)) !! id).

Lemma prepared_rest : at_rest prepared.
Proof. apply over_rest, installed_rest. Qed.

(** The activation, and the step of it that applies the release. *)
Definition activation : call := CActivate (mkRevision id 6).
Definition applying : world := call_part true 13 activation prepared.
Definition applied : world := call_part true 14 activation prepared.
Definition activated : world := call_over true activation prepared.

(** An activation whose health check fails: the database is restored. *)
Definition unhealthy : world := call_over false activation prepared.

Definition unfinished {A} (p : prog A) : bool := match p with Do _ _ => true | Ret _ => false end.

Lemma after_S healthy n {A} (p : prog A) s : after healthy (S n) p s = after healthy 1 (after healthy n p s).1 (after healthy n p s).2.
Proof.
  revert p s. induction n as [|n IH]; intros p s; [done|]. destruct p as [a|B e k]; [done|]. change (after healthy (S (S n)) (Do e k) s) with (after healthy (S n) (k (oracle healthy e s).1) (oracle healthy e s).2).
  by rewrite IH.
Qed.

Lemma part_step healthy n c w :
  (if wCall (call_part healthy n c w) is Some p then unfinished p else false) = true -> wstep Z.le (call_part healthy n c w) (call_part healthy (S n) c w).
Proof.
  unfold call_part. cbv zeta. rewrite after_S. cbn [wCall]. destruct (after healthy n (body config c) (set_log [] (wEnv w))) as [q s1]. simpl.
  destruct q as [a|B e k]; [done|]. intros _. apply w_act, oracle_effect.
Qed.
End Panel.

(** ** The properties of histories, at these runs *)
Lemma one_operation_under_way_witness :
  active_at Panel.id (eStore (wEnv Panel.prepared)) /\ forall j, active_at j (eStore (wEnv Panel.prepared)) -> Panel.id = j.
Proof.
  assert (Ha : active_at Panel.id (eStore (wEnv Panel.prepared))) by (exists (Panel.row_of Panel.prepared); split; vm_compute; reflexivity).
  split; [exact Ha|]. intros j Hj. exact (one_operation_under_way Z.le Panel.prepared Panel.id j (proj1 Panel.prepared_rest) Ha Hj).
Defined.

Lemma applied_is_proven_witness :
  uoState (Panel.row_of Panel.applying) = StateVerifyingActive /\ uoState (Panel.row_of Panel.applied) = StateApplied /\
  proven (Panel.row_of Panel.applied) (eLog (wEnv Panel.applying)).
Proof.
  split; [vm_compute; reflexivity|]. split; [vm_compute; reflexivity|].
  destruct (applied_is_proven Z.le Panel.applying Panel.applied Panel.id (Panel.row_of Panel.applied)) as [(row & Hr & Hs)|[_ Hp]].
  - apply Panel.part_reachable, Panel.prepared_rest.
  - split; [apply Panel.part_step; vm_compute; reflexivity|split; vm_compute; reflexivity].
  - vm_compute; reflexivity.
  - vm_compute; reflexivity.
  - exfalso. vm_compute in Hr. injection Hr as <-. vm_compute in Hs. discriminate Hs.
  - exact Hp.
Defined.

(** The operator's rollback of an applied release enters [ROLLING_BACK]. *)
Definition rolling_call : call := CRollback (mkRevision Panel.id 9).
Definition before_rolling : world := Panel.call_part true 5 rolling_call Panel.activated.
Definition in_rolling : world := Panel.call_part true 6 rolling_call Panel.activated.

Lemma activated_rest : Panel.at_rest Panel.activated.
Proof. apply Panel.over_rest, Panel.prepared_rest. Qed.

Lemma rows_follow_graph_witness :
  uoState (Panel.row_of before_rolling) = StateApplied /\ uoState (Panel.row_of in_rolling) = StateRollingBack /\ alone Panel.id (eStore (wEnv before_rolling)).
Proof.
  split; [vm_compute; reflexivity|]. split; [vm_compute; reflexivity|].
  destruct (rows_follow_graph Z.le before_rolling in_rolling) as [Hf|[(i & d & _ & _ & _ & _ & Hp)|[Hp _]]].
  - apply Panel.part_reachable, activated_rest.
  - apply Panel.part_step; vm_compute; reflexivity.
  - destruct (Hf Panel.id (Panel.row_of before_rolling) (Panel.row_of in_rolling)) as (_ & _ & Ht); [vm_compute; reflexivity|vm_compute; reflexivity|].
    destruct Ht as [Ht|(_ & _ & Ha)]; [vm_compute; reflexivity|exfalso; vm_compute in Ht; discriminate Ht|exact Ha].
  - exfalso. vm_compute in Hp. discriminate Hp.
  - exfalso. vm_compute in Hp. discriminate Hp.
Defined.

Lemma sequences_never_go_back_witness :
  (rsLastAppliedSequence <$> stReleases (eStore (wEnv Panel.applying)) !! ChannelMain) = Some 0 /\
  (rsLastAppliedSequence <$> stReleases (eStore (wEnv Panel.applied)) !! ChannelMain) = Some 7 /\
  floors_hold (eStore (wEnv Panel.applying)) (eStore (wEnv Panel.applied)).
Proof.
  split; [vm_compute; reflexivity|]. split; [vm_compute; reflexivity|]. apply (sequences_never_go_back Z.le).
  - apply Panel.part_reachable, Panel.prepared_rest.
  - apply rtc_once. split; [apply Panel.part_step; vm_compute; reflexivity|split; vm_compute; reflexivity].
Defined.

Lemma prepared_can_roll_back_witness :
  uoState (Panel.row_of Panel.prepared) = StatePrepared /\ validDigest (uoBackupRef (Panel.row_of Panel.prepared)) = true.
Proof.
  assert (Hs : uoState (Panel.row_of Panel.prepared) = StatePrepared) by (vm_compute; reflexivity). split; [exact Hs|].
  refine (proj2 (prepared_can_roll_back Z.le Panel.prepared Panel.id (Panel.row_of Panel.prepared) (proj1 Panel.prepared_rest) _ Hs)). vm_compute; reflexivity.
Defined.

(** A restore did happen in this run. *)
Lemma no_restore_between_calls_witness :
  is_Some (ePrior (wEnv (Panel.call_part true 10 rolling_call Panel.activated))) /\
  ePrior (wEnv (Panel.call_over true rolling_call Panel.activated)) = None /\ uoState (Panel.row_of (Panel.call_over true rolling_call Panel.activated)) = StateRolledBack.
Proof.
  split; [vm_compute; by eexists|]. split; [|vm_compute; reflexivity].
  refine (proj1 (no_restore_between_calls Z.le (Panel.call_over true rolling_call Panel.activated) _ _)); [apply Panel.over_rest, activated_rest|reflexivity].
Defined.
