(* ===== verification/UpdateProperties.v ===== *)
(** * Update lifecycle: retention, and two ways to get stuck

    What the retention of history leaves behind, and two findings as theorems: a cleanup
    debt whose fence is already spent blocks every later startup, and a release whose
    version only one of the two version grammars accepts blocks its channel. *)

From stdpp Require Import sorting.
From S2P Require Import Prelude GoStrings VersionPolicy Programs ReleaseManifest UpdateStore UpdateProvider UpdateLifecycle UpdateSemantics UpdateInvariants UpdateLogic UpdateCalls UpdateHistories UpdateRuns.

Open Scope string_scope.
Open Scope list_scope.
Open Scope Z_scope.

(** ** Retention *)
Section Loop.
Context {A : Type} (size : A -> Z) (expired : A -> bool) (maxCount : Z).
Hypothesis size_pos : forall x, 0 <= size x.

Abbreviation loop := (prune_loop size expired (fun _ => false) maxCount).

(** The loop splits its items into those it removes and those it leaves. *)
Fixpoint left_over (items : list A) (n bytes : Z) : list A :=
  match items with
  | [] => []
  | x :: items' =>
      if (n <=? maxCount) && negb (expired x) && (bytes <=? updateHistoryLogicalBytes) then x :: left_over items' n bytes
      else left_over items' (n - 1) (bytes - size x)
  end.

Lemma loop_split items n bytes : items ≡ₚ loop items n bytes ++ left_over items n bytes.
Proof.
  revert n bytes. induction items as [|x items IH]; intros n bytes; simpl; [done|]. destruct (_ && _); [|by constructor]. rewrite <- Permutation_middle. by constructor.
Qed.

Lemma left_unexpired items n bytes x : x ∈ left_over items n bytes -> expired x = false.
Proof.
  revert n bytes. induction items as [|y items IH]; intros n bytes; simpl; [by intros ?%not_elem_of_nil|]. destruct (_ && _) eqn:E; [|by apply IH].
  intros [->|Hx]%elem_of_cons; [bools; tauto|by eapply IH].
Qed.

Lemma total_nonneg (l : list A) : 0 <= total size l.
Proof. induction l as [|x l IH]; simpl; [done|]. pose proof (size_pos x). unfold total in *. lia. Qed.

(** What is left is within the bounds that held when the first item was left. *)
Lemma left_bounds items n bytes :
  Z.of_nat (length items) <= n -> total size items <= bytes ->
  (Z.of_nat (length (left_over items n bytes)) <= maxCount \/ left_over items n bytes = []) /\
  (total size (left_over items n bytes) <= updateHistoryLogicalBytes \/ left_over items n bytes = []).
Proof.
  revert n bytes. induction items as [|x items IH]; intros n bytes Hn Hb; [split; by right|]. cbn [left_over]. cbn [length total foldr] in Hn, Hb. pose proof (size_pos x).
  assert (Hsub : forall n bytes, (length (left_over items n bytes) <= length items)%nat /\ total size (left_over items n bytes) <= total size items).
  { clear -size_pos. induction items as [|y items IH]; intros n bytes; [by split|]. cbn [left_over]. pose proof (size_pos y). destruct (_ && _); cbn [length total foldr];
      [destruct (IH n bytes)|destruct (IH (n - 1) (bytes - size y))]; unfold total in *; split; lia. }
  destruct (_ && _) eqn:E.
  - bools. destruct (Hsub n bytes) as [H1 H2]. cbn [length total foldr]. unfold total in *. split; left; lia.
  - apply IH; unfold total in *; lia.
Qed.
End Loop.

Section Retention.
Context `{Digests}.

(** The removable terminal rows that are left. *)
Definition remaining (ops : list UpdateOperation) (keep : gset string) (now : Z) : list UpdateOperation :=
  let terminal := List.filter (removable keep) ops in
  left_over updateOperationLogicalBytes (fun op => too_old now (uoUpdatedAt op)) updateTerminalHistoryCount
    (rev terminal) (Z.of_nat (length terminal)) (total updateOperationLogicalBytes terminal).

Lemma operation_bytes_pos op : 0 <= updateOperationLogicalBytes op.
Proof.
  unfold updateOperationLogicalBytes. cbv zeta.
  repeat match goal with |- context [slen ?x] => lazymatch goal with H : 0 <= slen x |- _ => fail | _ => pose proof (slen_nonneg x) end end. lia.
Qed.

Lemma total_rev {A} (size : A -> Z) l : total size (rev l) = total size l.
Proof.
  assert (Happ : forall l1 l2, total size (l1 ++ l2) = total size l1 + total size l2) by (intros l1 l2; induction l1 as [|x l1 IH]; cbn; [done|unfold total in *; lia]).
  induction l as [|x l IH]; [done|]. simpl. rewrite Happ, IH. cbn. lia.
Qed.

(** C39: Retention leaves at most 128 removable terminal operations, of at most 8 MiB, none of them
    older than 90 days, and it removes only terminal operations that are neither the latest
    applied of their channel, nor the release in use, nor waiting for a cleanup or restored. *)
Theorem retention_bounds ops releases now :
  let keep := keep_ids ops releases in
  Z.of_nat (length (remaining ops keep now)) <= 128 /\
  total updateOperationLogicalBytes (remaining ops keep now) <= 8388608 /\
  (forall op, op ∈ remaining ops keep now -> too_old now (uoUpdatedAt op) = false) /\
  List.filter (removable keep) ops ≡ₚ removals ops keep now ++ remaining ops keep now /\
  (forall op, op ∈ removals ops keep now -> terminal (uoState op) = true /\ must_keep op = false /\ current_release releases op = false /\ forall channel, latestApplied ops ∅ !! channel <> Some (opID op)).
Proof.
  cbv zeta. unfold remaining, removals. cbv zeta. set (keep := keep_ids ops releases). set (l := List.filter (removable keep) ops).
  destruct (left_bounds updateOperationLogicalBytes (fun op => too_old now (uoUpdatedAt op)) updateTerminalHistoryCount operation_bytes_pos (rev l)
    (Z.of_nat (length l)) (total updateOperationLogicalBytes l)) as [Hc Hb]; [rewrite length_rev; lia|rewrite total_rev; lia|]. split_and!.
  - destruct Hc as [Hc| ->]; [exact Hc|done].
  - destruct Hb as [Hb| ->]; [exact Hb|done].
  - intros op Hop. exact (left_unexpired _ (fun op => too_old now (uoUpdatedAt op)) _ _ _ _ _ Hop).
  - rewrite <- (loop_split updateOperationLogicalBytes). by rewrite <- Permutation_rev.
  - intros op [Hop _]%prune_loop_in. rewrite list_elem_of_In, <- in_rev in Hop. unfold l in Hop. rewrite filter_In, <- list_elem_of_In in Hop. destruct Hop as [Hop Hr].
    unfold removable in Hr. bools. destruct Hr as [Hk Ht]. split; [done|]. unfold keep, keep_ids in Hk. rewrite not_elem_of_union in Hk. destruct Hk as [Hk1 Hk2].
    assert (Hno : must_keep op || current_release releases op = false).
    { destruct (must_keep op || _) eqn:E; [|done]. destruct Hk1. apply elem_of_list_to_set, list_elem_of_fmap_2. by rewrite list_elem_of_In, filter_In, <- list_elem_of_In. }
    apply orb_false_iff in Hno as [Hm Hcur]. split_and!; [done|done|]. intros channel Hl. apply Hk2, elem_of_list_to_set, list_elem_of_fmap. exists (channel, opID op).
    split; [done|]. by apply elem_of_map_to_list.
Qed.
End Retention.

(** ** A spent fence *)
Section Stuck.
Context `{ReleaseCodec} `{Digests} (tick : Z -> Z -> Prop).

(** [results p s a s']: run alone from [s], the program may answer [a] and leave [s']. *)
Fixpoint results {A} (p : prog A) (s : env) (a : A) (s' : env) : Prop :=
  match p with
  | Ret x => a = x /\ s' = s
  | Do e k => exists b s1, effect tick _ e s b s1 /\ results (k b) s1 a s'
  end.

Lemma results_bind {A B} (p : prog A) (f : A -> prog B) s b s' :
  results (p ≫= f) s b s' -> exists a s1, results p s a s1 /\ results (f a) s1 b s'.
Proof.
  unfold mbind, prog_bind. revert s. induction p as [a|C e k IH]; simpl; intros s Hr; [by exists a, s|].
  destruct Hr as (c & s1 & He & Hr). apply IH in Hr as (a & s2 & H1 & H2). exists a, s2. split; [by exists c, s1|done].
Qed.

Lemma results_attempt {X A B} (p : prog (result X A)) (k : A -> prog (result X B)) s b s' :
  results (attempt p k) s b s' -> (exists e, b = Err e /\ results p s (Err e) s') \/ exists a s1, results p s (Ok a) s1 /\ results (k a) s1 b s'.
Proof. intros (r & s1 & H1 & H2)%(results_bind p). destruct r as [a|e]; [right; eauto|]. destruct H2 as [-> ->]. left. eauto. Qed.

Lemma results_act {B} (e : updateE B) s b s' : results (act e) s b s' -> effect tick _ e s b s'.
Proof. simpl. intros (c & s1 & He & -> & ->). done. Qed.

(** The broker has accepted a fence that is not below that of the cleanup of the operation,
    and has not accepted that cleanup itself. *)
Definition fence_spent (op : UpdateOperation) (s : env) : Prop :=
  fence_sequence op 900001 <= fence_of (opID op) s /\ mkKey (opID op) (uoRevision op) (existT _ (VerbUpdateRelease (opManifest op))) ∉ eKeys s.

Definition release_key (k : mutationKey) : bool := match projT2 (mkCall k) with VerbUpdateRelease _ => true | _ => false end.

Lemma never_released id revision m keys : existsb release_key keys = false -> mkKey id revision (existT _ (VerbUpdateRelease m)) ∉ keys.
Proof.
  intros Hn Hin. apply not_true_iff_false in Hn. apply Hn. apply existsb_exists. eexists. split; [by apply list_elem_of_In|done].
Qed.

Lemma cleanup_refused cfg op s r s' : cfLinux cfg = true -> fence_spent op s -> results (brokerCleanupTerminal cfg op) s r s' -> s' = s /\ exists e, r = Err e.
Proof.
  intros Hl [Hf Hk] Hr. unfold brokerCleanupTerminal in Hr. destruct (_ || _); [destruct Hr as [-> ->]; eauto|]. rewrite Hl in Hr.
  apply results_attempt in Hr as [(e & -> & Hr)|(u & s1 & Hr & _)]; apply results_attempt in Hr as [(e' & Ee & Hr)|(x & s2 & Hr & Hr2)];
    unfold mutate in Hr; destruct (_ || _ || _); try (destruct Hr as [? ->]; try done; eauto);
    apply results_act in Hr; simpl in Hr; destruct Hr as [[-> [?|?]]|[[Hin _]|(Hlt & _ & _)]]; try done; try lia; eauto.
Qed.

(** A cleanup debt whose fence is spent stops every startup: the reconciliation answers an error
    and changes nothing, so the operation under way, if any, is not looked at, now or at any
    later startup.  A rollback that restores the database leaves such a debt: the restored row
    restarts at the revision of the backup, below the fences that the rollback has spent. *)
Theorem spent_fence_blocks_startup cfg debt s r s' :
  cfProvider cfg = BrokerProvider -> cfLinux cfg = true -> cleanupDebt (eStore s) = Ok debt -> fence_spent debt s ->
  results (ReconcileStartup cfg) s r s' -> s' = s /\ exists e, r = Err e.
Proof.
  intros Hp Hl Hd Hf Hr. unfold ReconcileStartup, reconcileStartupLocked in Hr.
  assert (Hpay : forall r s', results (payCleanupDebt cfg) s r s' -> s' = s /\ exists e, r = Err e).
  { clear Hr r s'. intros r s' Hr. unfold payCleanupDebt in Hr. apply results_bind in Hr as (b & s1 & Hb & Hr). apply results_act in Hb as [-> Hb]. rewrite Hd in Hb.
    destruct Hb as [->| ->]; [|simpl in Hr; destruct Hr as [-> ->]; eauto]. rewrite Hp in Hr.
    apply results_attempt in Hr as [(e & -> & Hr)|(u & s2 & Hr & _)]; apply (cleanup_refused _ _ _ _ _ Hl Hf) in Hr as [-> [e' He]]; [eauto|done]. }
  apply results_attempt in Hr as [(e & -> & Hr)|(u & s1 & Hr & _)]; apply Hpay in Hr as [-> [e' He]]; [eauto|done].
Qed.
End Stuck.

(** The health check of an activation fails, the database is restored, the cleanup is refused. *)
Lemma spent_fence_blocks_startup_witness :
  uoState (Panel.row_of Panel.unhealthy) = StateRolledBack /\
  forall r s', results Z.le (ReconcileStartup Panel.config) (wEnv Panel.unhealthy) r s' -> s' = wEnv Panel.unhealthy /\ exists e, r = Err e.
Proof.
  split; [vm_compute; reflexivity|]. intros r s' Hr.
  refine (spent_fence_blocks_startup Z.le Panel.config (Panel.row_of Panel.unhealthy) _ r s' eq_refl eq_refl _ _ Hr); [vm_compute; reflexivity|].
  split; [apply Z.leb_le; vm_compute; reflexivity|apply never_released; vm_compute; reflexivity].
Defined.

(** ** Two grammars of versions *)
Section Grammars.
Context `{Digests}.

(** Once a verified release whose version the version policy cannot parse is recorded, its channel
    is blocked: the last applied sequence cannot be read, and no later release can be recorded. *)
Theorem unparsed_version_blocks_channel v channel now st st' :
  saveVerified v channel now st = Ok st' -> parses (mfVersion (vfManifest v)) = false ->
  lastApplied channel st' = Err ErrRecoveryRequired /\ forall v' now', exists e, saveVerified v' channel now' st' = Err e.
Proof.
  intros Hs Hp.
  assert (Hrow : exists row, stReleases st' !! channel = Some row /\ rsVersion row = mfVersion (vfManifest v)).
  { unfold saveVerified in Hs. destruct (existsb _ _); [done|]. destruct (match stReleases st !! channel with Some _ => _ | None => _ end) as [row|]; cbn [rbind] in Hs; [|done].
    destruct (_ || _); [done|]. destruct (negb (storable _)); [done|]. injection Hs as <-. eexists. simpl. rewrite lookup_insert_eq. done. }
  destruct Hrow as (row & Hr & Hv). assert (Hbad : validPersistedReleaseState row = false).
  { unfold validPersistedReleaseState. rewrite Hv, Hp. by destruct (_ || _ || _ || _ || _ || _). }
  split; [unfold lastApplied; by rewrite Hr, Hbad|]. intros v' now'. unfold saveVerified. rewrite Hr, Hbad. destruct (existsb _ _); eauto.
Qed.
End Grammars.

(** The signed manifest grammar accepts [1.02.3]; the version policy does not. *)
Definition padded : Manifest :=
  mkManifest SchemaV1 "release-1.02.3" 7 "1.02.3" ChannelMain 1000 2000 Panel.hex "1.0.0" "1.0.9" "1.0" "1.0" "1.0" "capability-1" Panel.hex Panel.hex
    "panel" "not-required" "automatic" [Panel.artifact "panel-core"; Panel.artifact "panel-full"] [] [].

Lemma unparsed_version_blocks_channel_witness :
  Validate (fun _ => None) padded = Ok tt /\
  exists st', saveVerified (mkVerified padded "manifest" Panel.hex "root-1" None) ChannelMain 1500 emptyStore = Ok st' /\ lastApplied ChannelMain st' = Err ErrRecoveryRequired.
Proof.
  split; [vm_compute; reflexivity|]. eexists. split; [vm_compute; reflexivity|].
  refine (proj1 (unparsed_version_blocks_channel (mkVerified padded "manifest" Panel.hex "root-1" None) ChannelMain 1500 emptyStore _ _ _)); vm_compute; reflexivity.
Defined.
