(* ===== verification/Sessions.v ===== *)
(** * Sessions of administrators
    ([web/session_store.go], [service/security_sessions.go], [api/session.go], [api/csrf.go])

    A session has a row with its encoded values and, once a login was made, a row of
    metadata that an administrator can list and revoke.  The store loads both at the start
    of a request and writes both when the request saves.  Every function that touches the
    database is a program of atomic actions, so that requests interleave.

    The values of a session are a map from keys to the Go values the code stores.  The
    codec of the values, SHA-256 and the random generator are the answers of actions and
    the class [SessionCodec].  Times are Unix seconds; a transaction reads the clock inside.
    The database has the schema of the migrations: both tables exist, [ref] is unique and
    the user of a session exists. *)

From stdpp Require Import sorting.
From S2P Require Import Prelude GoStrings VersionPolicy Programs StepUp.

Open Scope string_scope.
Open Scope list_scope.
Open Scope Z_scope.

Definition AuthStateAuthenticated : string := "authenticated".
Definition AuthStatePasswordReset : string := "password_reset".
Definition AuthStateMFAPending : string := "mfa_pending".
Definition AuthStateMFARecovery : string := "mfa_recovery".
Definition SessionStateActive : string := "active".
Definition SessionStatePreAuth : string := "preauth".
Definition SessionStateRevoked : string := "revoked".
Definition LifetimePostureBoundedV1 : string := "bounded_v1".
Definition LifetimePostureLegacyExplicit : string := "legacy_explicit".
Definition LifetimePostureLegacyUnbounded : string := "legacy_unbounded".

Definition DefaultSessionIdle : Z := 30 * 60.
Definition DefaultSessionAbsolute : Z := 12 * 60 * 60.
Definition DefaultRememberedSession : Z := 7 * 24 * 60 * 60.
Definition PasswordResetSessionTTL : Z := 15 * 60.
Definition MFAPreauthSessionTTL : Z := 10 * 60.
Definition SessionLastSeenDebounce : Z := 60.

Definition SessionLoginUserKey : string := "LOGIN_USER".
Definition SessionGenerationKey : string := "LOGIN_SESSION_GENERATION".
Definition SessionUserIDKey : string := "__sui_security_user_id__".
Definition SessionRefKey : string := "__sui_security_ref__".
Definition SessionAuthStateKey : string := "__sui_security_auth_state__".
Definition SessionAssuranceKey : string := "__sui_security_assurance__".
Definition SessionLastMFAAtKey : string := "__sui_security_last_mfa_at__".
Definition SessionLifetimePostureKey : string := "__sui_security_lifetime_posture__".
Definition SessionCredentialGenerationKey : string := "__sui_security_credential_generation__".
Definition SessionMFAGenerationKey : string := "__sui_security_mfa_generation__".
Definition SessionCreatedAtKey : string := "__sui_security_created_at__".
Definition SessionAuthenticatedAtKey : string := "__sui_security_authenticated_at__".
Definition SessionLastSeenAtKey : string := "__sui_security_last_seen_at__".
Definition SessionIdleExpiresAtKey : string := "__sui_security_idle_expires_at__".
Definition SessionAbsoluteExpiresAtKey : string := "__sui_security_absolute_expires_at__".
Definition SessionRememberedExpiresAtKey : string := "__sui_security_remembered_expires_at__".
Definition SessionClientProvenanceKey : string := "__sui_security_client_provenance__".
Definition SessionClientPrefixKey : string := "__sui_security_client_prefix__".
Definition SessionUserAgentHashKey : string := "__sui_security_user_agent_hash__".
Definition SessionDeviceLabelKey : string := "__sui_security_device_label__".
Definition SessionGenerationRevisionKey : string := "__sui_security_generation_revision__".
Definition SessionPreAuthChallengeRevision : string := "__sui_security_preauth_challenge_revision__".
Definition SessionRegenerateKey : string := "__sui_session_regenerate__".
Definition csrfTokenKey : string := "CSRF_TOKEN".
Definition csrfExpiresKey : string := "CSRF_EXPIRES".
Definition csrfTTL : Z := 2 * 60 * 60.

(** ** Data *)
Inductive value :=
| VString (s : string)
| VUint64 (z : Z)
| VUint (z : Z)
| VInt (z : Z)
| VInt64 (z : Z)
| VBool (b : bool)
| VOther.

Notation Values := (gmap string value).

Record sqliteSessionRow := mkSessionRow { srID : string; srData : string; srExpiresAt : Z }.

Record SecuritySession := mkSecuritySession {
  ssSessionID : string; ssRef : string; ssUserID : Z; ssUsernameSnapshot : string; ssState : string; ssAuthState : string; ssAssurance : string;
  ssLastMFAAt : Z; ssLifetimePosture : string; ssSessionGenerationRevision : string; ssCredentialGeneration : Z; ssMFAGeneration : Z;
  ssCreatedAt : Z; ssAuthenticatedAt : Z; ssLastSeenAt : Z; ssIdleExpiresAt : Z; ssAbsoluteExpiresAt : Z; ssRememberedExpiresAt : Z;
  ssClientProvenance : string; ssClientPrefix : string; ssUserAgentHash : string; ssDeviceLabel : string;
  ssRevokedAt : Z; ssRevokedReason : string; ssReplacementRef : string
}.

Record User := mkUser { usID : Z; usUsername : string; usForcePasswordReset : bool; usCredentialGeneration : Z; usMFAGeneration : Z }.

(** The settings [sessionGeneration], [sessionLifetimePolicy] and [sessionMaxAge], in minutes. *)
Record SessionSettings := mkSettings { stGeneration : string; stLifetimePolicy : string; stSessionMaxAge : Z }.

Record SessionDB := mkSessionDB {
  sdSessions : gmap string sqliteSessionRow;       (** by [id] *)
  sdSecurity : gmap string SecuritySession;        (** by [session_id] *)
  sdGrants : list StepUpGrant;
  sdUsers : gmap Z User;
  sdSettings : SessionSettings
}.

(** The session of a request: [gsessions.Session] with the options the store uses. *)
Record Session := mkSession { seID : string; seValues : Values; seMaxAge : Z; seIsNew : bool }.

Inductive sessError :=
| ErrRecordNotFound
| ErrDB
| ErrCodec
| ErrMessage (message : string).

(** ** Actions *)
Inductive sessE : Type -> Type :=
| Query {A} (q : SessionDB -> result sessError A) : sessE (result sessError A)
| Transaction {A} (tx : Z -> SessionDB -> result sessError (SessionDB * A)) : sessE (result sessError A)
| Now : sessE Z
| Decode (data : string) : sessE (option Values)       (** [securecookie.DecodeMulti] into the values *)
| Encode (values : Values) : sessE (option string)     (** [securecookie.EncodeMulti] of the values *)
| SignID (id : string) : sessE bool                    (** [securecookie.EncodeMulti] of the ID for the cookie *)
| NewID : sessE string                                 (** thirty-two random bytes in base 32 *)
| SecureRandom : sessE (option string)
| CloseSession (ref reason : string) : sessE unit      (** [realtime.CloseSession] *)
| CloseAll (reason : string) : sessE unit.             (** [realtime.CloseAll] and the invalidation of websocket tokens *)

Notation sprog := (prog sessE).

(** ** Values *)
Definition valueString (values : Values) (key : string) : option string :=
  match values !! key with Some (VString s) => Some s | _ => None end.

Definition sessionValueUint64 (v : option value) : option Z :=
  match v with
  | Some (VUint64 z) | Some (VUint z) => Some z
  | Some (VInt z) | Some (VInt64 z) => if 0 <=? z then Some z else None
  | _ => None
  end.

Definition sessionValueInt64 (v : option value) : option Z :=
  match v with
  | Some (VInt64 z) | Some (VInt z) => Some z
  | Some (VUint64 z) => if z <=? int64_max then Some z else None
  | _ => None
  end.

Definition nonzeroSessionGeneration (z : Z) : Z := if z =? 0 then 1 else z.

Definition stringOf (values : Values) (key : string) : string := default "" (valueString values key).
Definition int64Of (values : Values) (key : string) : Z := default 0 (sessionValueInt64 (values !! key)).

Definition securitySessionFromValues (sessionID : string) (values : Values) : option SecuritySession :=
  match valueString values SessionLoginUserKey, valueString values SessionRefKey, sessionValueUint64 (values !! SessionUserIDKey),
        sessionValueUint64 (values !! SessionCredentialGenerationKey), sessionValueUint64 (values !! SessionMFAGenerationKey) with
  | Some username, Some ref, Some userID, Some credentialGeneration, Some mfaGeneration =>
      if String.eqb (TrimSpace username) "" || String.eqb (TrimSpace ref) "" || (userID =? 0) then None
      else
        let authState := stringOf values SessionAuthStateKey in
        let state := if String.eqb authState AuthStateAuthenticated then SessionStateActive else SessionStatePreAuth in
        Some (mkSecuritySession sessionID ref userID username state authState (stringOf values SessionAssuranceKey)
          (int64Of values SessionLastMFAAtKey) (stringOf values SessionLifetimePostureKey) (stringOf values SessionGenerationRevisionKey)
          credentialGeneration mfaGeneration (int64Of values SessionCreatedAtKey) (int64Of values SessionAuthenticatedAtKey)
          (int64Of values SessionLastSeenAtKey) (int64Of values SessionIdleExpiresAtKey) (int64Of values SessionAbsoluteExpiresAtKey)
          (int64Of values SessionRememberedExpiresAtKey) (stringOf values SessionClientProvenanceKey) (stringOf values SessionClientPrefixKey)
          (stringOf values SessionUserAgentHashKey) (stringOf values SessionDeviceLabelKey) 0 "" "")
  | _, _, _, _, _ => None
  end.

(** ** Updates of the tables *)
Definition set_sessions (t : gmap string sqliteSessionRow) (db : SessionDB) : SessionDB := mkSessionDB t (sdSecurity db) (sdGrants db) (sdUsers db) (sdSettings db).
Definition set_security (t : gmap string SecuritySession) (db : SessionDB) : SessionDB := mkSessionDB (sdSessions db) t (sdGrants db) (sdUsers db) (sdSettings db).
Definition set_grants (t : list StepUpGrant) (db : SessionDB) : SessionDB := mkSessionDB (sdSessions db) (sdSecurity db) t (sdUsers db) (sdSettings db).

Definition set_settings (t : SessionSettings) (db : SessionDB) : SessionDB := mkSessionDB (sdSessions db) (sdSecurity db) (sdGrants db) (sdUsers db) t.

(** [Updates] of [state], [revoked_at] and [revoked_reason]. *)
Definition revoke_row (now : Z) (reason : string) (r : SecuritySession) : SecuritySession :=
  mkSecuritySession (ssSessionID r) (ssRef r) (ssUserID r) (ssUsernameSnapshot r) SessionStateRevoked (ssAuthState r) (ssAssurance r) (ssLastMFAAt r)
    (ssLifetimePosture r) (ssSessionGenerationRevision r) (ssCredentialGeneration r) (ssMFAGeneration r) (ssCreatedAt r) (ssAuthenticatedAt r)
    (ssLastSeenAt r) (ssIdleExpiresAt r) (ssAbsoluteExpiresAt r) (ssRememberedExpiresAt r) (ssClientProvenance r) (ssClientPrefix r)
    (ssUserAgentHash r) (ssDeviceLabel r) now reason (ssReplacementRef r).

Definition set_replacement (ref : string) (r : SecuritySession) : SecuritySession :=
  mkSecuritySession (ssSessionID r) (ssRef r) (ssUserID r) (ssUsernameSnapshot r) (ssState r) (ssAuthState r) (ssAssurance r) (ssLastMFAAt r)
    (ssLifetimePosture r) (ssSessionGenerationRevision r) (ssCredentialGeneration r) (ssMFAGeneration r) (ssCreatedAt r) (ssAuthenticatedAt r)
    (ssLastSeenAt r) (ssIdleExpiresAt r) (ssAbsoluteExpiresAt r) (ssRememberedExpiresAt r) (ssClientProvenance r) (ssClientPrefix r)
    (ssUserAgentHash r) (ssDeviceLabel r) (ssRevokedAt r) (ssRevokedReason r) ref.

(** [Updates] of [last_seen_at] and [idle_expires_at]. *)
Definition touch_row (now nextIdle : Z) (r : SecuritySession) : SecuritySession :=
  mkSecuritySession (ssSessionID r) (ssRef r) (ssUserID r) (ssUsernameSnapshot r) (ssState r) (ssAuthState r) (ssAssurance r) (ssLastMFAAt r)
    (ssLifetimePosture r) (ssSessionGenerationRevision r) (ssCredentialGeneration r) (ssMFAGeneration r) (ssCreatedAt r) (ssAuthenticatedAt r)
    now nextIdle (ssAbsoluteExpiresAt r) (ssRememberedExpiresAt r) (ssClientProvenance r) (ssClientPrefix r)
    (ssUserAgentHash r) (ssDeviceLabel r) (ssRevokedAt r) (ssRevokedReason r) (ssReplacementRef r).

(** [ON CONFLICT(session_id) DO UPDATE]: the times of creation and authentication stay,
    and the row is not revoked. *)
Definition upsert_row (previous : option SecuritySession) (md : SecuritySession) : SecuritySession :=
  match previous with
  | None => md
  | Some old =>
      mkSecuritySession (ssSessionID md) (ssRef md) (ssUserID md) (ssUsernameSnapshot md) (ssState md) (ssAuthState md) (ssAssurance md) (ssLastMFAAt md)
        (ssLifetimePosture md) (ssSessionGenerationRevision md) (ssCredentialGeneration md) (ssMFAGeneration md) (ssCreatedAt old) (ssAuthenticatedAt old)
        (ssLastSeenAt md) (ssIdleExpiresAt md) (ssAbsoluteExpiresAt md) (ssRememberedExpiresAt md) (ssClientProvenance md) (ssClientPrefix md)
        (ssUserAgentHash md) (ssDeviceLabel md) 0 "" ""
  end.

(** [WHERE session_id = ? AND revoked_at = 0] *)
Definition unrevoked (f : SecuritySession -> SecuritySession) (r : SecuritySession) : SecuritySession := if ssRevokedAt r =? 0 then f r else r.

Definition rows {A} (t : gmap string A) : list A := (map_to_list t).*2.

Definition first_row {A} (p : A -> bool) (t : gmap string A) : result sessError A :=
  match List.find p (rows t) with Some r => Ok r | None => Err ErrRecordNotFound end.

Definition security_of (id : string) (db : SessionDB) : result sessError SecuritySession :=
  match sdSecurity db !! id with Some r => Ok r | None => Err ErrRecordNotFound end.

(** ** The session store *)

(** The transaction of [erase]. *)
Definition erase_tx (id : string) (now : Z) (db : SessionDB) : result sessError (SessionDB * unit) :=
  Ok (set_sessions (delete id (sdSessions db)) (set_security (alter (unrevoked (revoke_row now "session_ended")) id (sdSecurity db)) db), tt).

Definition erase (id : string) : sprog (result sessError unit) := act (Transaction (erase_tx id)).

(** [INSERT INTO security_sessions ... ON CONFLICT(session_id)]: the unique index of [ref]
    and the reference to the user refuse it. *)
Definition insert_security (md : SecuritySession) (db : SessionDB) : result sessError SessionDB :=
  if existsb (fun r => String.eqb (ssRef r) (ssRef md) && negb (String.eqb (ssSessionID r) (ssSessionID md))) (rows (sdSecurity db)) then Err ErrDB
  else match sdUsers db !! ssUserID md with
       | None => Err ErrDB
       | Some _ => Ok (set_security (<[ssSessionID md := upsert_row (sdSecurity db !! ssSessionID md) md]> (sdSecurity db)) db)
       end.

(** The transaction of [save]. *)
Definition save_tx (se : Session) (encoded : string) (expiresAt : Z) (replacedSessionID : string) (now : Z) (db : SessionDB) : result sessError (SessionDB * unit) :=
  let db := set_sessions (<[seID se := mkSessionRow (seID se) encoded expiresAt]> (sdSessions db)) db in
  let metadata := securitySessionFromValues (seID se) (seValues se) in
  let? db := (match metadata with Some md => insert_security md db | None => Ok db end) in
  if String.eqb replacedSessionID "" then Ok (db, tt)
  else
    let replacementRef := match metadata with Some md => ssRef md | None => "" end in
    let replace r := set_replacement replacementRef (revoke_row now "session_replaced" r) in
    let db := set_security (alter (unrevoked replace) replacedSessionID (sdSecurity db)) db in
    Ok (set_sessions (delete replacedSessionID (sdSessions db)) db, tt).

Definition save (se : Session) (replacedSessionID : string) : sprog (result sessError unit) :=
  encoded ← act (Encode (seValues se));
  match encoded with
  | None => fail ErrCodec
  | Some encoded =>
      expiresAt ← (if 0 <? seMaxAge se then now ← act Now; Ret (now + seMaxAge se) else Ret 0);
      act (Transaction (save_tx se encoded expiresAt replacedSessionID))
  end.

(** The regeneration of the ID: the session that is replaced and its reference. *)
Definition regenerate (se : Session) : sprog (result sessError (Session * string * string)) :=
  match seValues se !! SessionRegenerateKey with
  | None => Ret (Ok (se, "", ""))
  | Some _ =>
      let values := delete SessionRegenerateKey (seValues se) in
      if String.eqb (seID se) "" then Ret (Ok (mkSession "" values (seMaxAge se) (seIsNew se), "", ""))
      else
        previous ← act (Query (security_of (seID se)));
        match previous with
        | Ok r => Ret (Ok (mkSession "" values (seMaxAge se) (seIsNew se), seID se, ssRef r))
        | Err ErrRecordNotFound => Ret (Ok (mkSession "" values (seMaxAge se) (seIsNew se), seID se, ""))
        | Err e => fail e
        end
  end.

(** [Save] answers the session with its ID, which the cookie carries. *)
Definition Save (se : Session) : sprog (result sessError Session) :=
  if seMaxAge se <? 0 then
    if String.eqb (seID se) "" then Ret (Ok se) else let?? _ := erase (seID se) in Ret (Ok se)
  else
    let?? regenerated := regenerate se in
    let '(se, replacedSessionID, replacedSessionRef) := regenerated in
    se ← (if String.eqb (seID se) "" then id ← act NewID; Ret (mkSession id (seValues se) (seMaxAge se) (seIsNew se)) else Ret se);
    let?? _ := save se replacedSessionID in
    closed ← (if negb (String.eqb replacedSessionID "") && negb (String.eqb replacedSessionRef "")
              then act (CloseSession replacedSessionRef "session_replaced") else Ret tt);
    signed ← act (SignID (seID se));
    Ret (if (signed : bool) then Ok se else Err ErrCodec).

Definition expired (expiresAt now : Z) : bool := (0 <? expiresAt) && (expiresAt <=? now).

(** What makes [validateAndTouchSecuritySession] refuse a session. *)
Definition refused (metadata : SecuritySession) (user : User) (userID credentialGeneration mfaGeneration now : Z) : bool :=
  (0 <? ssRevokedAt metadata) || String.eqb (ssState metadata) SessionStateRevoked || negb (ssUserID metadata =? userID)
  || negb (ssCredentialGeneration metadata =? credentialGeneration) || negb (ssMFAGeneration metadata =? mfaGeneration)
  || negb (nonzeroSessionGeneration (usCredentialGeneration user) =? credentialGeneration)
  || negb (nonzeroSessionGeneration (usMFAGeneration user) =? mfaGeneration)
  || expired (ssIdleExpiresAt metadata) now || expired (ssAbsoluteExpiresAt metadata) now || expired (ssRememberedExpiresAt metadata) now.

Definition next_idle (metadata : SecuritySession) (now : Z) : Z :=
  if 0 <? ssIdleExpiresAt metadata then
    let idleWindow := ssIdleExpiresAt metadata - ssLastSeenAt metadata in
    let idleWindow := if idleWindow <=? 0 then DefaultSessionIdle else idleWindow in
    let nextIdle := now + idleWindow in
    if (0 <? ssAbsoluteExpiresAt metadata) && (ssAbsoluteExpiresAt metadata <? nextIdle) then ssAbsoluteExpiresAt metadata else nextIdle
  else 0.

(** The update of the last activity; it answers the number of rows. *)
Definition touch_tx (id : string) (lastSeenAt now nextIdle : Z) (_ : Z) (db : SessionDB) : result sessError (SessionDB * Z) :=
  match sdSecurity db !! id with
  | Some r =>
      if (ssLastSeenAt r =? lastSeenAt) && (ssRevokedAt r =? 0) then Ok (set_security (<[id := touch_row now nextIdle r]> (sdSecurity db)) db, 1) else Ok (db, 0)
  | None => Ok (db, 0)
  end.

Definition touched_values (now nextIdle : Z) (values : Values) : Values :=
  <[SessionIdleExpiresAtKey := VInt64 nextIdle]> (<[SessionLastSeenAtKey := VInt64 now]> values).

Definition with_values (se : Session) (values : Values) : Session := mkSession (seID se) values (seMaxAge se) (seIsNew se).

Definition metadata_of (id ref : string) (db : SessionDB) : result sessError SecuritySession :=
  match sdSecurity db !! id with
  | Some r => if String.eqb (ssRef r) ref then Ok r else Err ErrRecordNotFound
  | None => Err ErrRecordNotFound
  end.

Definition user_by_id (id : Z) (db : SessionDB) : result sessError User :=
  match sdUsers db !! id with Some u => Ok u | None => Err ErrRecordNotFound end.

(** A session and whether it is valid; an error keeps the decoded values. *)
Definition validateAndTouchSecuritySession (se : Session) : sprog (Session * result sessError bool) :=
  match valueString (seValues se) SessionRefKey with
  | None => Ret (se, Ok true)
  | Some ref =>
      if String.eqb (TrimSpace ref) "" then Ret (se, Ok true)
      else match sessionValueUint64 (seValues se !! SessionUserIDKey), sessionValueUint64 (seValues se !! SessionCredentialGenerationKey),
                 sessionValueUint64 (seValues se !! SessionMFAGenerationKey) with
      | Some userID, Some credentialGeneration, Some mfaGeneration =>
          if userID =? 0 then Ret (se, Ok false)
          else
            metadata ← act (Query (metadata_of (seID se) ref));
            match metadata with
            | Err ErrRecordNotFound => Ret (se, Ok false)
            | Err e => Ret (se, Err e)
            | Ok metadata =>
                user ← act (Query (user_by_id userID));
                match user with
                | Err e => Ret (se, Err e)
                | Ok user =>
                    now ← act Now;
                    if refused metadata user userID credentialGeneration mfaGeneration now then Ret (se, Ok false)
                    else if now - ssLastSeenAt metadata <? SessionLastSeenDebounce then Ret (se, Ok true)
                    else
                      let nextIdle := next_idle metadata now in
                      affected ← act (Transaction (touch_tx (seID se) (ssLastSeenAt metadata) now nextIdle));
                      match affected with
                      | Err e => Ret (se, Err e)
                      | Ok n => Ret (if n =? 1 then with_values se (touched_values now nextIdle (seValues se)) else se, Ok true)
                      end
                end
            end
      | _, _, _ => Ret (se, Ok false)
      end
  end.

Definition session_row (id : string) (db : SessionDB) : result sessError sqliteSessionRow :=
  match sdSessions db !! id with Some r => Ok r | None => Err ErrRecordNotFound end.

Definition load (se : Session) : sprog (Session * result sessError bool) :=
  row ← act (Query (session_row (seID se)));
  match row with
  | Err ErrRecordNotFound => Ret (se, Ok false)
  | Err e => Ret (se, Err e)
  | Ok row =>
      now ← act Now;
      if expired (srExpiresAt row) now then erased ← erase (srID row); Ret (se, match erased with Ok _ => Ok false | Err e => Err e end)
      else
        decoded ← act (Decode (srData row));
        match decoded with
        | None => Ret (se, Err ErrCodec)
        | Some values =>
            r ← validateAndTouchSecuritySession (with_values se values);
            match r with
            | (se, Err e) => Ret (se, Err e)
            | (se, Ok false) => erased ← erase (srID row); Ret (se, match erased with Ok _ => Ok false | Err e => Err e end)
            | (se, Ok true) => Ret (se, Ok true)
            end
        end
  end.

(** [New] with the ID that the cookie gives, if there is a cookie and its signature holds;
    [currentMaxAge] is of the options of the store.  The session is used also when an
    error is reported. *)
Definition New (cookie : option (option string)) (currentMaxAge : Z) : sprog (Session * option sessError) :=
  match cookie with
  | None => Ret (mkSession "" ∅ currentMaxAge true, None)
  | Some None => Ret (mkSession "" ∅ currentMaxAge true, Some ErrCodec)
  | Some (Some id) =>
      r ← load (mkSession id ∅ currentMaxAge true);
      match r with
      | (se, Err e) => Ret (se, Some e)
      | (se, Ok true) => Ret (mkSession (seID se) (seValues se) (seMaxAge se) false, None)
      | (se, Ok false) => Ret (mkSession "" ∅ (seMaxAge se) true, None)
      end
  end.

(** ** The inventory of sessions ([SecuritySessionService]) *)
Definition DefaultSessionPageSize : Z := 50.
Definition MaxSessionPageSize : Z := 200.
Definition MaxSessionCleanupBatch : Z := 100.
Definition sessionHistoryRetention : Z := 30 * 24 * 60 * 60.

Record SessionInventoryItem := mkItem {
  itRef : string; itCurrent : bool; itAuthState : string; itAssurance : string; itLastMFAAt : Z; itLifetimePosture : string; itCreatedAt : Z;
  itAuthenticatedAt : Z; itLastSeenAt : Z; itIdleExpiresAt : Z; itAbsoluteExpiresAt : Z; itRememberedExpiresAt : Z; itClientProvenance : string;
  itClientPrefix : string; itDeviceLabel : string; itRevokedAt : Z; itRevokedReason : string; itReplacementRef : string
}.

Record SessionInventory := mkInventory { inItems : list SessionInventoryItem; inNextCursor : string }.

Definition item_of (currentRef : string) (r : SecuritySession) : SessionInventoryItem :=
  mkItem (ssRef r) (String.eqb (ssRef r) currentRef) (ssAuthState r) (ssAssurance r) (ssLastMFAAt r) (ssLifetimePosture r) (ssCreatedAt r)
    (ssAuthenticatedAt r) (ssLastSeenAt r) (ssIdleExpiresAt r) (ssAbsoluteExpiresAt r) (ssRememberedExpiresAt r) (ssClientProvenance r)
    (ssClientPrefix r) (ssDeviceLabel r) (ssRevokedAt r) (ssRevokedReason r) (ssReplacementRef r).

(** [ORDER BY last_seen_at DESC, ref ASC] *)
Definition listed (x y : SecuritySession) : Prop :=
  ssLastSeenAt y < ssLastSeenAt x \/ (ssLastSeenAt x = ssLastSeenAt y /\ Compare (ssRef x) (ssRef y) <= 0).
#[global] Instance listed_dec x y : Decision (listed x y) := ltac:(unfold listed; apply _).

(** [ORDER BY last_seen_at ASC] *)
Definition idle_first (x y : SecuritySession) : Prop := ssLastSeenAt x <= ssLastSeenAt y.
#[global] Instance idle_first_dec x y : Decision (idle_first x y) := ltac:(unfold idle_first; apply _).

Definition by_ref (userID : Z) (ref : string) (r : SecuritySession) : bool := (ssUserID r =? userID) && String.eqb (ssRef r) ref.

(** [(last_seen_at < ?) OR (last_seen_at = ? AND ref > ?)] *)
Definition after_anchor (anchor : option SecuritySession) (r : SecuritySession) : bool :=
  match anchor with
  | None => true
  | Some a => (ssLastSeenAt r <? ssLastSeenAt a) || ((ssLastSeenAt r =? ssLastSeenAt a) && (0 <? Compare (ssRef r) (ssRef a)))
  end.

Definition list_query (userID limit : Z) (anchor : option SecuritySession) (db : SessionDB) : result sessError (list SecuritySession) :=
  Ok (take (Z.to_nat (limit + 1)) (merge_sort listed (List.filter (fun r => (ssUserID r =? userID) && after_anchor anchor r) (rows (sdSecurity db))))).

(** A batch of [limit] rows that ended before the cutoff goes, with its sessions and grants. *)
Definition stale (cutoff : Z) (r : SecuritySession) : bool :=
  ((0 <? ssRevokedAt r) && (ssRevokedAt r <=? cutoff)) || ((0 <? ssAbsoluteExpiresAt r) && (ssAbsoluteExpiresAt r <=? cutoff)).

Definition member (x : string) (l : list string) : bool := existsb (String.eqb x) l.

Definition cleanup_tx (limit cutoff : Z) (_ : Z) (db : SessionDB) : result sessError (SessionDB * Z) :=
  let batch := take (Z.to_nat limit) (merge_sort idle_first (List.filter (stale cutoff) (rows (sdSecurity db)))) in
  let ids := ssSessionID <$> batch in
  let refs := ssRef <$> batch in
  Ok (mkSessionDB (filter (fun kv => member kv.1 ids = false) (sdSessions db)) (filter (fun kv => member kv.1 ids = false) (sdSecurity db))
        (List.filter (fun g => negb (member (gSessionRef g) refs)) (sdGrants db)) (sdUsers db) (sdSettings db),
      Z.of_nat (length batch)).

Definition CleanupExpired (limit : Z) : sprog (result sessError Z) :=
  let limit := if (limit <=? 0) || (MaxSessionCleanupBatch <? limit) then MaxSessionCleanupBatch else limit in
  now ← act Now;
  act (Transaction (cleanup_tx limit (now - sessionHistoryRetention))).

Definition page_limit (limit : Z) : Z :=
  let limit := if limit <=? 0 then DefaultSessionPageSize else limit in
  if MaxSessionPageSize <? limit then MaxSessionPageSize else limit.

Definition page_of (currentRef : string) (limit : Z) (sessions : list SecuritySession) : SessionInventory :=
  if limit <? Z.of_nat (length sessions)
  then mkInventory (item_of currentRef <$> take (Z.to_nat limit) sessions)
         (match sessions !! Z.to_nat (limit - 1) with Some r => ssRef r | None => "" end)
  else mkInventory (item_of currentRef <$> sessions) "".

Definition listPage (userID : Z) (currentRef cursor : string) (limit : Z) : sprog (result sessError SessionInventory) :=
  let limit := page_limit limit in
  anchor ← (if String.eqb (TrimSpace cursor) "" then Ret (Ok None)
            else found ← act (Query (fun db => first_row (by_ref userID cursor) (sdSecurity db)));
                 Ret (match found with Ok a => Ok (Some a) | Err _ => Err (ErrMessage "invalid session cursor") end));
  match anchor with
  | Err e => fail e
  | Ok anchor =>
      let?? sessions := act (Query (list_query userID limit anchor)) in
      Ret (Ok (page_of currentRef limit sessions))
  end.

Definition List (userID : Z) (currentRef cursor : string) (limit : Z) : sprog (result sessError SessionInventory) :=
  let?? _ := CleanupExpired MaxSessionCleanupBatch in listPage userID currentRef cursor limit.

Definition drop_grants (refs : list string) (db : SessionDB) : SessionDB := set_grants (List.filter (fun g => negb (member (gSessionRef g) refs)) (sdGrants db)) db.

Definition revoke_tx (userID : Z) (ref reason : string) (now : Z) (db : SessionDB) : result sessError (SessionDB * unit) :=
  match first_row (by_ref userID ref) (sdSecurity db) with
  | Err _ => Err (ErrMessage "session not found")
  | Ok row =>
      let db := if ssRevokedAt row =? 0 then set_security (alter (revoke_row now reason) (ssSessionID row) (sdSecurity db)) db else db in
      let db := drop_grants [ssRef row] db in
      Ok (set_sessions (delete (ssSessionID row) (sdSessions db)) db, tt)
  end.

Definition Revoke (userID : Z) (ref reason : string) : sprog (result sessError unit) :=
  let ref := TrimSpace ref in
  if String.eqb ref "" then fail (ErrMessage "session reference is required")
  else
    let reason := if String.eqb reason "" then "user_revoked" else reason in
    let?? _ := act (Transaction (revoke_tx userID ref reason)) in
    closed ← act (CloseSession ref "session_revoked");
    Ret (Ok tt).

Definition other_live (userID : Z) (currentRef : string) (r : SecuritySession) : bool :=
  (ssUserID r =? userID) && negb (String.eqb (ssRef r) currentRef) && (ssRevokedAt r =? 0).

Definition revoke_others_tx (userID : Z) (currentRef reason : string) (ids refs : list string) (now : Z) (db : SessionDB) : result sessError (SessionDB * unit) :=
  if Nat.eqb (length ids) 0 then Ok (db, tt)
  else
    let update r := if other_live userID currentRef r && member (ssSessionID r) ids then revoke_row now reason r else r in
    let db := drop_grants refs (set_security (update <$> sdSecurity db) db) in
    Ok (set_sessions (filter (fun kv => member kv.1 ids = false) (sdSessions db)) db, tt).

Fixpoint closeSessions (refs : list string) : sprog unit :=
  match refs with
  | [] => Ret tt
  | ref :: refs' => closed ← act (CloseSession ref "session_revoked"); closeSessions refs'
  end.

Definition others_query (userID : Z) (currentRef : string) (db : SessionDB) : result sessError (list SecuritySession) :=
  Ok (List.filter (other_live userID currentRef) (rows (sdSecurity db))).

Definition session_ids (l : list SecuritySession) : list string := ssSessionID <$> l.
Definition session_refs (l : list SecuritySession) : list string := ssRef <$> l.

(** The rows are read before the transaction. *)
Definition revokeFound (userID : Z) (currentRef reason : string) (found : list SecuritySession) : sprog (result sessError Z) :=
  let?? _ := act (Transaction (revoke_others_tx userID currentRef reason (session_ids found) (session_refs found))) in
  closed ← closeSessions (session_refs found);
  Ret (Ok (Z.of_nat (length found))).

Definition RevokeOthers (userID : Z) (currentRef reason : string) : sprog (result sessError Z) :=
  let reason := if String.eqb reason "" then "other_sessions_revoked" else reason in
  attempt (act (Query (others_query userID currentRef))) (revokeFound userID currentRef reason).

Definition live_binding (ref : string) (userID credentialGeneration mfaGeneration : Z) (r : SecuritySession) : bool :=
  String.eqb (ssRef r) ref && (ssUserID r =? userID) && (ssCredentialGeneration r =? credentialGeneration) && (ssMFAGeneration r =? mfaGeneration)
  && (ssRevokedAt r =? 0).

Definition Validate (ref : string) (userID credentialGeneration mfaGeneration : Z) : sprog (result sessError SecuritySession) :=
  found ← act (Query (fun db => first_row (live_binding ref userID credentialGeneration mfaGeneration) (sdSecurity db)));
  match found with
  | Err _ => fail (ErrMessage "invalid session")
  | Ok row =>
      now ← act Now;
      Ret (if String.eqb (ssState row) SessionStateRevoked || expired (ssIdleExpiresAt row) now || expired (ssAbsoluteExpiresAt row) now
              || expired (ssRememberedExpiresAt row) now then Err (ErrMessage "expired session") else Ok row)
  end.

(** ** Logins ([api/session.go]) *)
Record LoginSessionSpec := mkSpec {
  spUserID : Z; spUsername : string; spAuthState : string; spAssurance : string; spLastMFAAt : Z; spLifetimePosture : string;
  spSessionGeneration : string; spCredentialGeneration : Z; spMFAGeneration : Z; spRemembered : bool; spUserAgentHash : string;
  spDeviceLabel : string; spPreAuthChallengeRevision : string; spNow : option Z; spLegacyMaxAge : Z
}.

(** The identity of the client as the proxy settings give it. *)
Record ClientIdentity := mkIdentity { ciProvenance : string; ciClientPrefix : string }.

Definition orElse (s fallback : string) : string := if String.eqb s "" then fallback else s.

(** The durations of a login: idle, absolute and of the cookie. *)
Definition lifetimes (posture authState : string) (legacyMaxAge : Z) (remembered : bool) : Z * Z * Z :=
  let '(idle, absolute, cookie) :=
    if String.eqb posture LifetimePostureLegacyUnbounded then (0, 0, 0)
    else if String.eqb posture LifetimePostureLegacyExplicit && (0 <? legacyMaxAge) then (legacyMaxAge, legacyMaxAge, legacyMaxAge)
    else (DefaultSessionIdle, DefaultSessionAbsolute, 0) in
  let '(absolute, cookie) := if remembered then (DefaultRememberedSession, DefaultRememberedSession) else (absolute, cookie) in
  if String.eqb authState AuthStatePasswordReset then (PasswordResetSessionTTL, PasswordResetSessionTTL, 0)
  else if String.eqb authState AuthStateMFAPending || String.eqb authState AuthStateMFARecovery then (MFAPreauthSessionTTL, MFAPreauthSessionTTL, 0)
  else (idle, absolute, cookie).

Section Api.
(** SHA-256 in hexadecimal. *)
Context (sha256hex : string -> string).

Definition SessionGenerationRevision (generation : string) : string := if String.eqb generation "" then "" else sha256hex generation.

Definition ResetSessionCSRF (values : Values) : Values := delete csrfExpiresKey (delete csrfTokenKey values).

Definition expiry (now duration : Z) : Z := if 0 <? duration then now + duration else 0.

(** The values that a login sets. *)
Definition login_values (spec : LoginSessionSpec) (client : ClientIdentity) (ref revision : string) (now : Z) (values : Values) : Values :=
  let authState := orElse (spAuthState spec) AuthStateAuthenticated in
  let assurance := orElse (spAssurance spec) AssurancePassword in
  let posture := orElse (spLifetimePosture spec) LifetimePostureBoundedV1 in
  let lastMFAAt := if (spLastMFAAt spec <=? 0) && (String.eqb assurance AssuranceMFA || String.eqb assurance AssuranceRecovery) then now else spLastMFAAt spec in
  let '(idle, absolute, _) := lifetimes posture authState (spLegacyMaxAge spec) (spRemembered spec) in
  let values := <[SessionLoginUserKey := VString (spUsername spec)]> values in
  let values := if String.eqb (spSessionGeneration spec) "" then values else <[SessionGenerationKey := VString (spSessionGeneration spec)]> values in
  let values := <[SessionUserIDKey := VUint64 (spUserID spec)]> (<[SessionRefKey := VString ref]> values) in
  let values := <[SessionAuthStateKey := VString authState]> (<[SessionAssuranceKey := VString assurance]> values) in
  let values := <[SessionLastMFAAtKey := VInt64 lastMFAAt]> (<[SessionLifetimePostureKey := VString posture]> values) in
  let values := <[SessionCredentialGenerationKey := VUint64 (spCredentialGeneration spec)]> (<[SessionMFAGenerationKey := VUint64 (spMFAGeneration spec)]> values) in
  let values := <[SessionCreatedAtKey := VInt64 now]> (<[SessionAuthenticatedAtKey := VInt64 now]> (<[SessionLastSeenAtKey := VInt64 now]> values)) in
  let values := <[SessionIdleExpiresAtKey := VInt64 (expiry now idle)]> (<[SessionAbsoluteExpiresAtKey := VInt64 (expiry now absolute)]> values) in
  let values := <[SessionRememberedExpiresAtKey := VInt64 (if spRemembered spec then now + DefaultRememberedSession else 0)]> values in
  let values := <[SessionClientProvenanceKey := VString (ciProvenance client)]> (<[SessionClientPrefixKey := VString (ciClientPrefix client)]> values) in
  let values := <[SessionUserAgentHashKey := VString (spUserAgentHash spec)]> (<[SessionDeviceLabelKey := VString (spDeviceLabel spec)]> values) in
  let values := <[SessionGenerationRevisionKey := VString revision]> values in
  let values := if String.eqb (spPreAuthChallengeRevision spec) "" then values else <[SessionPreAuthChallengeRevision := VString (spPreAuthChallengeRevision spec)]> values in
  <[SessionRegenerateKey := VBool true]> (ResetSessionCSRF values).

Definition login_max_age (spec : LoginSessionSpec) : Z :=
  (lifetimes (orElse (spLifetimePosture spec) LifetimePostureBoundedV1) (orElse (spAuthState spec) AuthStateAuthenticated) (spLegacyMaxAge spec) (spRemembered spec)).2.

(** The revision of the generation, or a random one while there is no generation. *)
Definition login_revision (spec : LoginSessionSpec) : sprog (option string) :=
  let revision := SessionGenerationRevision (spSessionGeneration spec) in
  if String.eqb revision "" then r ← act SecureRandom; Ret (option_map SessionGenerationRevision r) else Ret (Some revision).

Definition unable : sessError := ErrMessage "Unable to establish session".

Definition SetLoginSecurity (client : ClientIdentity) (spec : LoginSessionSpec) (se : Session) : sprog (result sessError Session) :=
  now ← (match spNow spec with Some now => Ret now | None => act Now end : sprog Z);
  ref ← act SecureRandom;
  match ref return sprog (result sessError Session) with
  | None => fail unable
  | Some ref =>
      revision ← login_revision spec;
      match revision return sprog (result sessError Session) with
      | None => fail unable
      | Some revision =>
          saved ← Save (mkSession (seID se) (login_values spec client ref revision now (seValues se)) (login_max_age spec) (seIsNew se));
          Ret (match saved with Ok se => Ok se | Err _ => Err unable end)
      end
  end.

Definition user_by_name (username : string) (db : SessionDB) : result sessError User :=
  match List.find (fun u => String.eqb (usUsername u) username) (map_to_list (sdUsers db)).*2 with Some u => Ok u | None => Err ErrRecordNotFound end.

Definition sessionUserValid (values : Values) (username : string) : sprog bool :=
  user ← act (Query (user_by_name username));
  match user with
  | Err _ => Ret false
  | Ok user =>
      let credential := sessionValueUint64 (values !! SessionCredentialGenerationKey) in
      let mfa := sessionValueUint64 (values !! SessionMFAGenerationKey) in
      let credentialNow := nonzeroSessionGeneration (usCredentialGeneration user) in
      let mfaNow := nonzeroSessionGeneration (usMFAGeneration user) in
      let known := match credential, mfa with Some _, Some _ => true | _, _ => false end in
      if negb known && (usForcePasswordReset user || negb (credentialNow =? 1) || negb (mfaNow =? 1)) then Ret false
      else if match credential with Some c => negb (c =? credentialNow) | None => false end then Ret false
      else if match mfa with Some m => negb (m =? mfaNow) | None => false end then Ret false
      else match valueString values SessionRefKey, credential, mfa with
           | Some ref, Some c, Some m =>
               if String.eqb ref "" then Ret true
               else row ← Validate ref (usID user) c m; Ret (match row with Ok _ => true | Err _ => false end)
           | _, _, _ => Ret true
           end
  end.

Definition sessionGenerationValid (values : Values) : sprog bool :=
  current ← act (Query (fun db => Ok (stGeneration (sdSettings db))));
  Ret (match current with
       | Err _ => false
       | Ok current =>
           if String.eqb current "" then true
           else match valueString values SessionGenerationKey with Some g => String.eqb g current | None => false end
       end).

(** The name of the user that is logged in, or the empty string. *)
Definition GetLoginUser (values : Values) : sprog string :=
  match valueString values SessionLoginUserKey with
  | None => Ret ""
  | Some username =>
      generationValid ← sessionGenerationValid values;
      if negb generationValid then Ret ""
      else userValid ← sessionUserValid values username; Ret (if (userValid : bool) then username else "")
  end.

Record SessionSecurityContext := mkContext {
  scUserID : Z; scUsername : string; scRef : string; scAuthState : string; scAssurance : string; scLastMFAAt : Z;
  scSessionGenerationRevision : string; scCredentialGeneration : Z; scMFAGeneration : Z
}.

Definition GetSessionSecurityContext (values : Values) : sprog (option SessionSecurityContext) :=
  username ← GetLoginUser values;
  Ret (if String.eqb username "" then None
       else match sessionValueUint64 (values !! SessionUserIDKey), sessionValueUint64 (values !! SessionCredentialGenerationKey),
                  sessionValueUint64 (values !! SessionMFAGenerationKey), valueString values SessionRefKey, valueString values SessionAuthStateKey,
                  valueString values SessionAssuranceKey with
            | Some userID, Some c, Some m, Some ref, Some authState, Some assurance =>
                Some (mkContext userID username ref authState assurance (default 0 (sessionValueUint64 (values !! SessionLastMFAAtKey)))
                        (stringOf values SessionGenerationRevisionKey) c m)
            | _, _, _, _, _, _ => None
            end).

Definition ClearSession (se : Session) : sprog (result sessError Session) := Save (mkSession (seID se) ∅ (-1) (seIsNew se)).

(** ** CSRF tokens ([api/csrf.go]) *)
Definition nul : string := String (Ascii.ascii_of_nat 0) "".

Definition sessionBoundCSRFToken (values : Values) : option string :=
  match valueString values SessionRefKey with
  | Some ref => let ref := TrimSpace ref in if String.eqb ref "" then None else Some (sha256hex ("s-ui-csrf-v1" +:+ nul +:+ ref))
  | None => None
  end.

Definition currentSessionCookieMaxAge (values : Values) (now : Z) : Z :=
  let legacy :=
    if negb (String.eqb (stringOf values SessionLifetimePostureKey) LifetimePostureLegacyExplicit) then 0
    else match sessionValueUint64 (values !! SessionAbsoluteExpiresAtKey) with
         | Some absolute => if absolute <=? wrapu64 now then 0 else absolute - wrapu64 now
         | None => 0
         end in
  match sessionValueUint64 (values !! SessionRememberedExpiresAtKey) with
  | Some remembered => if wrapu64 now <? remembered then remembered - wrapu64 now else legacy
  | None => legacy
  end.

(** [sessionCookieOptions]: the maximal age, which is zero when there is none. *)
Definition sessionCookieMaxAge (values : Values) (now : Z) : Z :=
  let maxAge := currentSessionCookieMaxAge values now in if 0 <? maxAge then maxAge else 0.

Definition IssueCSRFToken (se : Session) : sprog (result sessError Session) :=
  now ← act Now;
  let token := stringOf (seValues se) csrfTokenKey in
  let expiresAt := match seValues se !! csrfExpiresKey with Some (VInt64 z) => z | _ => 0 end in
  values ← (if String.eqb token "" || (expiresAt <? now) then
              token ← (match sessionBoundCSRFToken (seValues se) with Some t => Ret (Some t) | None => act SecureRandom end : sprog (option string));
              Ret (match token with
                   | Some token => Some (<[csrfExpiresKey := VInt64 (now + csrfTTL)]> (<[csrfTokenKey := VString token]> (seValues se)))
                   | None => None
                   end)
            else Ret (Some (seValues se)));
  match values with
  | None => fail (ErrMessage "csrf")
  | Some values => Save (mkSession (seID se) values (sessionCookieMaxAge values now) (seIsNew se))
  end.

(** What a step-up verification writes to its session once the grant is issued
    ([securityHTTP.issueStepUp] in [api/security_routes.go]). *)
Definition recordStepUp (assurance : string) (se : Session) : sprog (result sessError Session) :=
  now ← act Now;
  let values := if String.eqb assurance AssuranceMFA || String.eqb assurance AssuranceRecovery
                then <[SessionLastMFAAtKey := VInt64 now]> (seValues se) else seValues se in
  let values := ResetSessionCSRF values in
  Save (mkSession (seID se) values (sessionCookieMaxAge values now) (seIsNew se)).

(** ** Session settings ([service/setting_session.go]) *)
Record SessionLifetime := mkLifetime { slPosture : string; slLegacyMaxAge : Z }.

Definition ResolveSessionLifetime (settings : SessionSettings) : result sessError SessionLifetime :=
  let policy := TrimSpace (stLifetimePolicy settings) in
  if String.eqb policy LifetimePostureBoundedV1 then Ok (mkLifetime LifetimePostureBoundedV1 0)
  else if String.eqb policy LifetimePostureLegacyUnbounded then
    if 0 <? stSessionMaxAge settings then Ok (mkLifetime LifetimePostureLegacyExplicit (60 * stSessionMaxAge settings))
    else Ok (mkLifetime LifetimePostureLegacyUnbounded 0)
  else Err (ErrMessage "invalid session lifetime policy").

Definition set_generation_tx (generation : string) (_ : Z) (db : SessionDB) : result sessError (SessionDB * unit) :=
  Ok (set_settings (mkSettings generation (stLifetimePolicy (sdSettings db)) (stSessionMaxAge (sdSettings db))) db, tt).

Definition RotateSessionGeneration : sprog (result sessError string) :=
  generation ← act SecureRandom;
  match generation return sprog (result sessError string) with
  | None => fail (ErrMessage "random")
  | Some generation =>
      let?? _ := act (Transaction (set_generation_tx generation)) in
      closed ← act (CloseAll "session_rotated");
      Ret (Ok generation)
  end.

Definition adopt_tx (_ : Z) (db : SessionDB) : result sessError (SessionDB * unit) :=
  Ok (set_settings (mkSettings (stGeneration (sdSettings db)) LifetimePostureBoundedV1 (stSessionMaxAge (sdSettings db))) db, tt).

(** ** Handlers of the security routes ([api/security_routes.go]) *)
Definition requireAuthenticatedSecurityContext (values : Values) : sprog (option SessionSecurityContext) :=
  context ← GetSessionSecurityContext values;
  Ret (match context with
       | Some c => if String.eqb (scAuthState c) AuthStateAuthenticated then Some c else None
       | None => None
       end).

Definition reissueSession (client : ClientIdentity) (userAgentHash deviceLabel : string) (userID : Z) (authState assurance : string) (se : Session)
    : sprog (result sessError Session) :=
  let?? user := act (Query (user_by_id userID)) in
  let?? generation := act (Query (fun db => Ok (stGeneration (sdSettings db)))) in
  let?? lifetime := act (Query (fun db => ResolveSessionLifetime (sdSettings db))) in
  current ← GetSessionSecurityContext (seValues se);
  let lastMFAAt := match current with Some c => scLastMFAAt c | None => 0 end in
  SetLoginSecurity client
    (mkSpec (usID user) (usUsername user) authState assurance lastMFAAt (slPosture lifetime) generation
       (nonzeroSessionGeneration (usCredentialGeneration user)) (nonzeroSessionGeneration (usMFAGeneration user)) false userAgentHash deviceLabel "" None
       (slLegacyMaxAge lifetime)) se.

Definition rotateSessionGenerationAndReissue (client : ClientIdentity) (userAgentHash deviceLabel : string) (userID : Z) (authState assurance : string) (se : Session)
    : sprog (result sessError Session) :=
  let?? _ := RotateSessionGeneration in reissueSession client userAgentHash deviceLabel userID authState assurance se.

(** [listSessions] with the page size that the query names. *)
Definition listSessions (cursor : string) (limit : Z) (se : Session) : sprog (result sessError SessionInventory) :=
  context ← requireAuthenticatedSecurityContext (seValues se);
  match context return sprog (result sessError SessionInventory) with
  | None => fail (ErrMessage "Full authentication required")
  | Some c =>
      if (limit <? 1) || (MaxSessionPageSize <? limit) then fail (ErrMessage "invalid session page size")
      else List (scUserID c) (scRef c) cursor limit
  end.

Definition revokeSession (ref : string) (se : Session) : sprog (result sessError unit) :=
  context ← requireAuthenticatedSecurityContext (seValues se);
  match context return sprog (result sessError unit) with
  | None => fail (ErrMessage "Full authentication required")
  | Some c =>
      if String.eqb ref (scRef c) then
        let?? _ := Revoke (scUserID c) ref "self_revoked" in
        cleared ← ClearSession se;
        Ret (Ok tt)
      else Revoke (scUserID c) ref "user_revoked"
  end.

(** [grant] says whether the step-up token is consumed. *)
Definition revokeOtherSessions (grant : bool) (client : ClientIdentity) (userAgentHash deviceLabel : string) (se : Session) : sprog (result sessError Z) :=
  context ← requireAuthenticatedSecurityContext (seValues se);
  match context return sprog (result sessError Z) with
  | None => fail (ErrMessage "Full authentication required")
  | Some c =>
      if negb grant then fail (ErrMessage "invalid or expired step-up grant")
      else
        let?? count := RevokeOthers (scUserID c) (scRef c) "user_revoked_others" in
        let?? _ := rotateSessionGenerationAndReissue client userAgentHash deviceLabel (scUserID c) AuthStateAuthenticated (scAssurance c) se in
        Ret (Ok count)
  end.

Definition adoptBoundedSessions (grant : bool) (client : ClientIdentity) (userAgentHash deviceLabel : string) (se : Session) : sprog (result sessError unit) :=
  context ← requireAuthenticatedSecurityContext (seValues se);
  match context return sprog (result sessError unit) with
  | None => fail (ErrMessage "Full authentication required")
  | Some c =>
      if negb grant then fail (ErrMessage "invalid or expired step-up grant")
      else
        let?? _ := RevokeOthers (scUserID c) (scRef c) "session_policy_adopted" in
        let?? _ := act (Transaction adopt_tx) in
        let?? _ := rotateSessionGenerationAndReissue client userAgentHash deviceLabel (scUserID c) AuthStateAuthenticated (scAssurance c) se in
        Ret (Ok tt)
  end.

(** ** Realtime sessions ([realtimeSessionValid] in [api/security_routes.go]) *)
Record RealtimeSessionBinding := mkRealtimeBinding {
  rbUserID : Z; rbUsername : string; rbSessionRef : string; rbSessionGenerationRevision : string; rbCredentialGeneration : Z; rbMFAGeneration : Z
}.

Definition realtimeSessionValid (b : RealtimeSessionBinding) : sprog bool :=
  if String.eqb (rbUsername b) "" then Ret false
  else
    user ← act (Query (fun db => match sdUsers db !! rbUserID b with
                                 | Some u => if String.eqb (usUsername u) (rbUsername b) then Ok u else Err ErrRecordNotFound
                                 | None => Err ErrRecordNotFound
                                 end));
    match user with
    | Err _ => Ret false
    | Ok user =>
        if negb (nonzeroSessionGeneration (usCredentialGeneration user) =? rbCredentialGeneration b)
           || negb (nonzeroSessionGeneration (usMFAGeneration user) =? rbMFAGeneration b) then Ret false
        else
          count ← act (Query (fun db => Ok (length (List.filter (fun r => String.eqb (ssRef r) (rbSessionRef b)) (rows (sdSecurity db))))));
          match count with
          | Err _ => Ret false
          | Ok 0%nat => Ret true
          | Ok _ =>
              row ← Validate (rbSessionRef b) (rbUserID b) (rbCredentialGeneration b) (rbMFAGeneration b);
              Ret (match row with Ok row => String.eqb (ssSessionGenerationRevision row) (rbSessionGenerationRevision b) | Err _ => false end)
          end
    end.
End Api.
