(* ===== verification/SessionHistories.v ===== *)
(** * Sessions of administrators: histories of concurrent requests

    [world] is the database, the session IDs minted so far and the requests in flight, each
    one the rest of its program.  A step starts a request, takes one action of a request,
    ends a request (because it is over, or because the process dropped it) or changes the
    accounts, grants and settings, which other parts of the panel own.

    An action of the database may fail without an effect.  A minted ID was never minted
    before; an encoded value decodes to itself, and the codec may refuse to decode. *)

From S2P Require Import Prelude GoStrings VersionPolicy Programs StepUp Sessions.

Open Scope string_scope.
Open Scope list_scope.
Open Scope Z_scope.

(** ** Requests *)
Inductive handler :=
| HView
| HCsrf
| HLogin (client : ClientIdentity) (spec : LoginSessionSpec)
| HLogout
| HStepUp (assurance : string)
| HList (cursor : string) (limit : Z)
| HRevoke (ref : string)
| HRevokeOthers (grant : bool) (client : ClientIdentity) (userAgentHash deviceLabel : string)
| HAdopt (grant : bool) (client : ClientIdentity) (userAgentHash deviceLabel : string)
| HReissue (rotate : bool) (client : ClientIdentity) (userAgentHash deviceLabel : string) (userID : Z) (authState assurance : string).

Inductive call :=
| CRequest (cookie : option (option string)) (maxAge : Z) (h : handler)
| CCleanup (limit : Z)
| CRealtime (b : RealtimeSessionBinding).

Section Histories.
Context (sha256hex : string -> string) (decodeValues : string -> option Values).

Definition ignore {A} (p : sprog A) : sprog unit := pbind p (fun _ => Ret tt).

(** A step-up verification and the handlers of the security routes ask for a full login. *)
Definition handle (h : handler) (se : Session) : sprog unit :=
  match h with
  | HView => ignore (GetSessionSecurityContext (seValues se))
  | HCsrf => ignore (IssueCSRFToken sha256hex se)
  | HLogin client spec => ignore (SetLoginSecurity sha256hex client spec se)
  | HLogout => ignore (ClearSession se)
  | HStepUp assurance =>
      context ← requireAuthenticatedSecurityContext (seValues se);
      match context with Some _ => ignore (recordStepUp assurance se) | None => Ret tt end
  | HList cursor limit => ignore (listSessions cursor limit se)
  | HRevoke ref => ignore (revokeSession ref se)
  | HRevokeOthers grant client ua label => ignore (revokeOtherSessions sha256hex grant client ua label se)
  | HAdopt grant client ua label => ignore (adoptBoundedSessions sha256hex grant client ua label se)
  | HReissue rotate client ua label userID authState assurance =>
      if rotate then ignore (rotateSessionGenerationAndReissue sha256hex client ua label userID authState assurance se)
      else ignore (reissueSession sha256hex client ua label userID authState assurance se)
  end.

Definition body (c : call) : sprog unit :=
  match c with
  | CRequest cookie maxAge h => r ← New cookie maxAge; handle h r.1
  | CCleanup limit => ignore (CleanupExpired limit)
  | CRealtime b => ignore (realtimeSessionValid b)
  end.

(** ** Steps *)
Record world := mkWorld { swDB : SessionDB; swIDs : gset string; swRequests : list (sprog unit) }.

(** What an action answers and leaves behind. *)
Definition effect (B : Type) (e : sessE B) (db : SessionDB) (ids : gset string) : B -> SessionDB -> gset string -> Prop :=
  match e in sessE B return B -> SessionDB -> gset string -> Prop with
  | Query q => fun b db' ids' => db' = db /\ ids' = ids /\ (b = q db \/ b = Err ErrDB)
  | Transaction tx => fun b db' ids' =>
      ids' = ids /\
      ((b = Err ErrDB /\ db' = db) \/
       exists now, match tx now db with Ok (d, a) => b = Ok a /\ db' = d | Err x => b = Err x /\ db' = db end)
  | Decode data => fun b db' ids' => db' = db /\ ids' = ids /\ (b = None \/ b = decodeValues data)
  | Encode values => fun b db' ids' => db' = db /\ ids' = ids /\ (b = None \/ exists data, b = Some data /\ decodeValues data = Some values)
  | NewID => fun b db' ids' => db' = db /\ (b ∉ ids) /\ ids' = {[ b ]} ∪ ids
  | _ => fun _ db' ids' => db' = db /\ ids' = ids
  end.

Inductive step : world -> world -> Prop :=
| st_call w c : step w (mkWorld (swDB w) (swIDs w) (body c :: swRequests w))
| st_act w before after B (e : sessE B) k b db ids :
    swRequests w = before ++ Do e k :: after -> effect B e (swDB w) (swIDs w) b db ids ->
    step w (mkWorld db ids (before ++ k b :: after))
| st_end w before after p : swRequests w = before ++ p :: after -> step w (mkWorld (swDB w) (swIDs w) (before ++ after))
| st_others w security grants users settings :
    security ⊆ sdSecurity (swDB w) -> step w (mkWorld (mkSessionDB (sdSessions (swDB w)) security grants users settings) (swIDs w) (swRequests w)).

(** ** Sessions that are over
    No login is stored under the ID. *)
Definition no_login (id : string) (db : SessionDB) : Prop :=
  forall row values, sdSessions db !! id = Some row -> decodeValues (srData row) = Some values -> values !! SessionLoginUserKey = None.

(** What an action may do without storing a login under [id]. *)
Definition spares_action (id : string) (B : Type) (e : sessE B) (_ : unit) : Prop :=
  match e with
  | Transaction tx => forall now db, no_login id db -> match tx now db with Ok (db', _) => no_login id db' | Err _ => True end
  | _ => True
  end.

(** The answers that an action gets while no login is stored under [id], which was minted. *)
Definition possible (id : string) (B : Type) (e : sessE B) (_ : unit) : B -> unit -> Prop :=
  match e in sessE B return B -> unit -> Prop with
  | Query q => fun b _ => b = Err ErrDB \/ exists db, no_login id db /\ b = q db
  | Decode data => fun b _ => b = None \/ b = decodeValues data
  | Encode values => fun b _ => b = None \/ exists data, b = Some data /\ decodeValues data = Some values
  | NewID => fun b _ => b <> id
  | _ => fun _ _ => True
  end.

(** A program that stores no login under [id], whatever happens around it. *)
Definition spares (id : string) {A} (p : sprog A) (Q : A -> Prop) : Prop := wp (spares_action id) (possible id) p (fun a _ => Q a) tt.

(** ** The programs spare a session that is over *)
Section Spares.
Context (id : string).

Lemma spares_ret {A} (a : A) (Q : A -> Prop) : Q a -> spares id (Ret a) Q.
Proof. done. Qed.

Lemma spares_act {B} (e : sessE B) (Q : B -> Prop) : spares_action id B e tt -> (forall b, possible id B e tt b tt -> Q b) -> spares id (act e) Q.
Proof. intros Ho HQ. split; [done|]. intros b [] Hb. by apply HQ. Qed.

Lemma spares_mono {A} (p : sprog A) (Q Q' : A -> Prop) : spares id p Q -> (forall a, Q a -> Q' a) -> spares id p Q'.
Proof. intros Hp HQ. eapply wp_mono; [exact Hp|]. intros a ?. apply HQ. Qed.

Lemma spares_pbind {A B} (p : sprog A) (f : A -> sprog B) (Q : A -> Prop) (Q' : B -> Prop) :
  spares id p Q -> (forall a, Q a -> spares id (f a) Q') -> spares id (pbind p f) Q'.
Proof. intros Hp Hf. apply (wp_bind _ _ p). eapply wp_mono; [exact Hp|]. intros a []. apply Hf. Qed.

Lemma spares_bind {A B} (p : sprog A) (f : A -> sprog B) (Q : A -> Prop) (Q' : B -> Prop) :
  spares id p Q -> (forall a, Q a -> spares id (f a) Q') -> spares id (p ≫= f) Q'.
Proof. apply spares_pbind. Qed.

Lemma spares_do {B C} (e : sessE B) (f : B -> sprog C) (Q : C -> Prop) :
  spares_action id B e tt -> (forall b, possible id B e tt b tt -> spares id (f b) Q) -> spares id (act e ≫= f) Q.
Proof. intros Ho Hf. eapply spares_bind; [apply spares_act; [done|]; intros b Hb; exact Hb|done]. Qed.

Lemma spares_attempt {X A B} (p : sprog (result X A)) (k : A -> sprog (result X B)) (Q : A -> Prop) :
  spares id p (fun r => match r with Ok a => Q a | Err _ => True end) -> (forall a, Q a -> spares id (k a) (fun _ => True)) -> spares id (attempt p k) (fun _ => True).
Proof. intros Hp Hk. eapply spares_pbind; [exact Hp|]. intros [a|x] Ha; [by apply Hk|done]. Qed.


Lemma no_login_delete db k : no_login id db -> no_login id (set_sessions (delete k (sdSessions db)) db).
Proof. intros Hn row values. simpl. rewrite lookup_delete_Some. intros [_ Hr]. by apply (Hn row). Qed.

Lemma no_login_sessions db t : no_login id db -> t ⊆ sdSessions db -> no_login id (set_sessions t db).
Proof. intros Hn Ht row values Hr. simpl in Hr. apply (Hn row values). by eapply lookup_weaken. Qed.

(** Only the table of sessions matters. *)
Lemma no_login_same db db' : sdSessions db' = sdSessions db -> no_login id db -> no_login id db'.
Proof. intros E Hn row values. rewrite E. apply Hn. Qed.

(** The session of a request does not carry a login under [id]. *)
Definition harmless (se : Session) : Prop := seID se = id -> seValues se !! SessionLoginUserKey = None.

Lemma spares_erase k : spares id (erase k) (fun _ => True).
Proof.
  apply spares_act; [|done]. intros now db Hn. simpl. eapply no_login_same; [|apply (no_login_delete db k Hn)]. done.
Qed.

Lemma insert_security_sessions md db db' : insert_security md db = Ok db' -> sdSessions db' = sdSessions db.
Proof. unfold insert_security. destruct (existsb _ _); [done|]. destruct (sdUsers db !! ssUserID md); [|done]. by intros [= <-]. Qed.

Lemma no_login_save se data expiresAt replaced now db : no_login id db -> harmless se -> decodeValues data = Some (seValues se) ->
  match save_tx se data expiresAt replaced now db with Ok (db', _) => no_login id db' | Err _ => True end.
Proof.
  intros Hn Hh Hd. unfold save_tx. set (db1 := set_sessions _ db).
  assert (H1 : no_login id db1).
  { intros row values. simpl. rewrite lookup_insert_Some. intros [[Hk <-]|[_ Hr]] Hv; [|by apply (Hn row)]. simpl in Hv. rewrite Hd in Hv. injection Hv as <-. by apply Hh. }
  clearbody db1. set (md := securitySessionFromValues (seID se) (seValues se)). set (r := match md with Some m => insert_security m db1 | None => Ok db1 end).
  assert (Hr : forall db2, r = Ok db2 -> no_login id db2).
  { subst r. destruct md as [m|]; intros db2 E; [|by injection E as <-]. eapply no_login_same; [by eapply insert_security_sessions|done]. }
  destruct r as [db2|x]; [|done]. specialize (Hr db2 eq_refl). simpl. destruct (String.eqb replaced ""); [done|]. simpl.
  eapply no_login_same; [|apply (no_login_delete db2 replaced Hr)]. done.
Qed.

Lemma spares_save se replaced : harmless se -> spares id (save se replaced) (fun _ => True).
Proof.
  intros Hh. unfold save. apply spares_do; [done|]. intros [data|] Hb; [|done]. destruct Hb as [Hb|(data' & [= <-] & Hd)]; [done|].
  eapply (spares_bind _ _ (fun _ => True)); [destruct (0 <? seMaxAge se); [by apply spares_do|done]|].
  intros expiresAt _. apply spares_act; [|done]. intros now db Hn. by apply no_login_save.
Qed.

(** A session that will be saved under a new ID, or carries no login under [id]. *)
Definition savable (se : Session) : Prop := harmless se \/ is_Some (seValues se !! SessionRegenerateKey).

Lemma spares_regenerate se : savable se ->
  spares id (regenerate se) (fun r => match r with Ok (se', _, _) => seID se' = "" \/ harmless se' | Err _ => True end).
Proof.
  intros Hs. unfold regenerate. destruct (seValues se !! SessionRegenerateKey) as [v|] eqn:Er.
  - destruct (String.eqb (seID se) ""); [by left|]. apply spares_do; [done|]. intros [r|[]] _; try done; by left.
  - right. destruct Hs as [Hs|[v Hs]]; [done|congruence].
Qed.

Lemma spares_Save se : savable se -> spares id (Save se) (fun _ => True).
Proof.
  intros Hs. unfold Save. destruct (seMaxAge se <? 0).
  { destruct (String.eqb (seID se) ""); [done|]. apply (spares_attempt _ _ (fun _ => True)); [|done]. eapply spares_mono; [apply spares_erase|]. by intros [[]|]. }
  eapply spares_attempt; [eapply spares_mono; [by apply spares_regenerate|]; intros r Hr; exact Hr|]. intros [[se' replaced] ref] Hr. simpl in Hr.
  eapply (spares_bind _ _ harmless).
  - destruct (String.eqb (seID se') "") eqn:Ei; [apply spares_do; [done|]; intros b Hb; by intros Hid|].
    destruct Hr as [Hr|Hr]; [|done]. by rewrite Hr in Ei.
  - intros se2 H2. apply (spares_attempt _ _ (fun _ => True)); [eapply spares_mono; [by apply spares_save|]; by intros [[]|]|]. intros _ _.
    eapply (spares_bind _ _ (fun _ => True)); [destruct (_ && _); [by apply spares_act|done]|]. intros _ _. by apply spares_do.
Qed.

Lemma harmless_touched se now nextIdle : harmless se -> harmless (with_values se (touched_values now nextIdle (seValues se))).
Proof. intros Hh Hid. simpl. unfold touched_values. rewrite !lookup_insert_ne by done. by apply Hh. Qed.

Lemma spares_validateAndTouch se : harmless se -> spares id (validateAndTouchSecuritySession se) (fun r => harmless r.1).
Proof.
  intros Hh. unfold validateAndTouchSecuritySession. destruct (valueString _ _) as [ref|]; [|done]. destruct (String.eqb _ _); [done|].
  destruct (sessionValueUint64 _) as [userID|]; [|done]. destruct (sessionValueUint64 _) as [c|]; [|done]. destruct (sessionValueUint64 _) as [m|]; [|done].
  destruct (userID =? 0); [done|]. apply spares_do; [done|]. intros [metadata|[]] _; try done. apply spares_do; [done|]. intros [user|x] _; [|done].
  apply spares_do; [done|]. intros now _. destruct (refused _ _ _ _ _ _); [done|]. destruct (_ <? _); [done|].
  apply spares_do; [|intros [n|x] _; [|done]; apply spares_ret; destruct (n =? 1); [by apply harmless_touched|done]].
  intros t db Hn. unfold touch_tx. destruct (sdSecurity db !! _); [|done]. destruct (_ && _); [|done]. by eapply no_login_same; [|exact Hn].
Qed.

Lemma spares_load k maxAge : spares id (load (mkSession k ∅ maxAge true)) (fun r => harmless r.1).
Proof.
  assert (He : forall isNew, harmless (mkSession k ∅ maxAge isNew)) by done. unfold load. apply spares_do; [done|].
  intros [row|[]] Hrow; try apply He. apply spares_do; [done|]. intros now _. destruct (expired _ _).
  { eapply spares_bind; [apply spares_erase|]. intros e _. apply He. }
  apply spares_do; [done|]. intros [values|] Hv; [|apply He]. destruct Hv as [Hv|Hv]; [done|]. destruct Hrow as [Hrow|(db & Hn & Hrow)]; [done|].
  assert (Hh : harmless (with_values (mkSession k ∅ maxAge true) values)).
  { intros Hk. simpl in *. subst k. unfold session_row in Hrow. destruct (sdSessions db !! id) as [row'|] eqn:Er; [|done]. injection Hrow as <-. by apply (Hn row). }
  eapply spares_bind; [by apply spares_validateAndTouch|]. intros [se [[]|x]] Hse; try done.
  eapply spares_bind; [apply spares_erase|]. by intros e _.
Qed.

Lemma spares_New cookie maxAge : spares id (New cookie maxAge) (fun r => harmless r.1).
Proof.
  unfold New. destruct cookie as [[k|]|]; try done. eapply spares_bind; [apply spares_load|]. by intros [se [[]|x]] Hse.
Qed.

Lemma spares_query {B} (q : SessionDB -> result sessError B) : spares id (act (Query q)) (fun _ => True).
Proof. by apply spares_act. Qed.

Lemma spares_Validate ref userID c m : spares id (Validate ref userID c m) (fun _ => True).
Proof. unfold Validate. apply spares_do; [done|]. intros [row|x] _; [|done]. by apply spares_do. Qed.

Lemma spares_sessionUserValid values username : spares id (sessionUserValid values username) (fun _ => True).
Proof.
  unfold sessionUserValid. apply spares_do; [done|]. intros [user|x] _; [|done]. destruct (_ && _); [done|].
  destruct (sessionValueUint64 (values !! SessionCredentialGenerationKey)) as [c|]; [destruct (negb (c =? _)); [done|]|];
    (destruct (sessionValueUint64 (values !! SessionMFAGenerationKey)) as [m|]; [destruct (negb (m =? _)); [done|]|]);
    destruct (valueString values SessionRefKey) as [ref|]; try done.
  destruct (String.eqb ref ""); [done|]. eapply spares_bind; [apply spares_Validate|done].
Qed.

Lemma spares_context values : spares id (GetSessionSecurityContext values) (fun _ => True).
Proof.
  unfold GetSessionSecurityContext, GetLoginUser. eapply (spares_bind _ _ (fun _ => True)); [|done]. destruct (valueString _ _) as [username|]; [|done].
  eapply (spares_bind _ _ (fun _ => True)); [by apply spares_do|]. intros [] _; [|done]. eapply spares_bind; [apply spares_sessionUserValid|done].
Qed.

Lemma spares_required values : spares id (requireAuthenticatedSecurityContext values) (fun _ => True).
Proof. unfold requireAuthenticatedSecurityContext. eapply spares_bind; [apply spares_context|done]. Qed.

Lemma no_login_filter db (P : string * sqliteSessionRow -> Prop) `{forall x, Decision (P x)} security grants users settings :
  no_login id db -> no_login id (mkSessionDB (filter P (sdSessions db)) security grants users settings).
Proof. intros Hn row values. simpl. rewrite map_lookup_filter_Some. intros [Hr _]. by apply (Hn row). Qed.

Lemma spares_CleanupExpired limit : spares id (CleanupExpired limit) (fun _ => True).
Proof. unfold CleanupExpired. apply spares_do; [done|]. intros now _. apply spares_act; [|done]. intros t db Hn. simpl. by apply no_login_filter. Qed.

Lemma spares_List userID currentRef cursor limit : spares id (List userID currentRef cursor limit) (fun _ => True).
Proof.
  unfold List. apply (spares_attempt _ _ (fun _ => True)); [eapply spares_mono; [apply spares_CleanupExpired|]; by intros []|]. intros _ _. unfold listPage.
  eapply (spares_bind _ _ (fun _ => True)); [destruct (String.eqb _ _); [done|by apply spares_do]|]. intros [anchor|x] _; [|done].
  apply (spares_attempt _ _ (fun _ => True)); [eapply spares_mono; [apply spares_query|]; by intros []|done].
Qed.

Lemma spares_Revoke userID ref reason : spares id (Revoke userID ref reason) (fun _ => True).
Proof.
  unfold Revoke. destruct (String.eqb _ _); [done|]. apply (spares_attempt _ _ (fun _ => True)); [|intros _ _; by apply spares_do].
  apply spares_act; [|by intros []]. intros now db Hn. unfold revoke_tx. destruct (first_row _ _) as [row|x]; [|done].
  eapply no_login_same; [|apply (no_login_delete db (ssSessionID row) Hn)]. by destruct (ssRevokedAt row =? 0).
Qed.

Lemma spares_closeSessions refs : spares id (closeSessions refs) (fun _ => True).
Proof. induction refs as [|ref refs IH]; cbn [closeSessions]; [done|]. by apply spares_do. Qed.

Lemma spares_RevokeOthers userID currentRef reason : spares id (RevokeOthers userID currentRef reason) (fun _ => True).
Proof.
  unfold RevokeOthers. apply (spares_attempt _ _ (fun _ => True)); [eapply spares_mono; [apply spares_query|]; by intros []|]. intros found _. unfold revokeFound.
  apply (spares_attempt _ _ (fun _ => True)).
  - apply spares_act; [|by intros []]. intros now db Hn. unfold revoke_others_tx. destruct (Nat.eqb _ _); [done|]. by apply no_login_filter.
  - intros _ _. eapply spares_bind; [apply spares_closeSessions|done].
Qed.

Lemma spares_SetLoginSecurity client spec se : spares id (SetLoginSecurity sha256hex client spec se) (fun _ => True).
Proof.
  unfold SetLoginSecurity. eapply (spares_bind _ _ (fun _ => True)); [destruct (spNow spec); [done|by apply spares_act]|]. intros now _.
  apply spares_do; [done|]. intros [ref|] _; [|done].
  eapply (spares_bind _ _ (fun _ => True)); [unfold login_revision; destruct (String.eqb _ _); [by apply spares_do|done]|]. intros [revision|] _; [|done].
  eapply (spares_bind _ _ (fun _ => True)); [|done]. apply spares_Save. right. unfold login_values. destruct (lifetimes _ _ _ _) as [[idle absolute] cookie].
  simpl. rewrite lookup_insert_eq. eauto.
Qed.

Lemma spares_IssueCSRFToken se : harmless se -> spares id (IssueCSRFToken sha256hex se) (fun _ => True).
Proof.
  intros Hh. unfold IssueCSRFToken. apply spares_do; [done|]. intros now _.
  eapply (spares_bind _ _ (fun v => match v with Some values => values !! SessionLoginUserKey = seValues se !! SessionLoginUserKey | None => True end)).
  - destruct (_ || _); [|done]. eapply (spares_bind _ _ (fun _ => True)); [destruct (sessionBoundCSRFToken _ _); [done|by apply spares_act]|].
    intros [token|] _; [|done]. apply spares_ret. by rewrite !lookup_insert_ne.
  - intros [values|] Hv; [|done]. apply spares_Save. left. intros Hid. simpl in *. rewrite Hv. by apply Hh.
Qed.

Lemma spares_recordStepUp assurance se : harmless se -> spares id (recordStepUp assurance se) (fun _ => True).
Proof.
  intros Hh. unfold recordStepUp. apply spares_do; [done|]. intros now _. apply spares_Save. left. intros Hid. simpl in *.
  unfold ResetSessionCSRF. rewrite !lookup_delete_ne by done. destruct (_ || _); [rewrite lookup_insert_ne by done|]; by apply Hh.
Qed.

Lemma spares_ClearSession se : spares id (ClearSession se) (fun _ => True).
Proof. apply spares_Save. by left. Qed.

Lemma spares_reissue client ua label userID authState assurance se : spares id (reissueSession sha256hex client ua label userID authState assurance se) (fun _ => True).
Proof.
  unfold reissueSession. apply (spares_attempt _ _ (fun _ => True)); [eapply spares_mono; [apply spares_query|]; by intros []|]. intros user _.
  apply (spares_attempt _ _ (fun _ => True)); [eapply spares_mono; [apply spares_query|]; by intros []|]. intros generation _.
  apply (spares_attempt _ _ (fun _ => True)); [eapply spares_mono; [apply spares_query|]; by intros []|]. intros lifetime _.
  eapply spares_bind; [apply spares_context|]. intros current _. apply spares_SetLoginSecurity.
Qed.

Lemma spares_rotate client ua label userID authState assurance se :
  spares id (rotateSessionGenerationAndReissue sha256hex client ua label userID authState assurance se) (fun _ => True).
Proof.
  unfold rotateSessionGenerationAndReissue. apply (spares_attempt _ _ (fun _ => True)); [|intros _ _; apply spares_reissue].
  unfold RotateSessionGeneration. apply spares_do; [done|]. intros [generation|] _; [|done]. eapply (spares_mono _ (fun _ => True)); [|by intros []].
  apply (spares_attempt _ _ (fun _ => True)); [|intros _ _; by apply spares_do]. apply spares_act; [|by intros []].
  intros now db Hn. by apply (no_login_same db).
Qed.

Lemma spares_ignore {A} (p : sprog A) Q : spares id p Q -> spares id (ignore p) (fun _ => True).
Proof. intros Hp. by eapply spares_pbind. Qed.

Lemma spares_any {X A} (p : sprog (result X A)) : spares id p (fun _ => True) -> spares id p (fun r => match r with Ok _ => True | Err _ => True end).
Proof. intros Hp. eapply spares_mono; [exact Hp|]. by intros []. Qed.

Lemma spares_handle h se : harmless se -> spares id (handle h se) (fun _ => True).
Proof.
  intros Hh. destruct h; cbn [handle]; try apply (spares_ignore _ (fun _ => True)).
  - apply spares_context.
  - by apply spares_IssueCSRFToken.
  - apply spares_SetLoginSecurity.
  - apply spares_ClearSession.
  - eapply spares_bind; [apply spares_required|]. intros [c|] _; [|done]. eapply spares_ignore. by apply spares_recordStepUp.
  - eapply spares_bind; [apply spares_required|]. intros [c|] _; [|done]. destruct (_ || _); [done|]. apply spares_List.
  - eapply spares_bind; [apply spares_required|]. intros [c|] _; [|done]. destruct (String.eqb _ _); [|apply spares_Revoke].
    apply (spares_attempt _ _ (fun _ => True)); [apply spares_any, spares_Revoke|]. intros _ _. eapply spares_bind; [apply spares_ClearSession|done].
  - eapply spares_bind; [apply spares_required|]. intros [c|] _; [|done]. destruct grant; [|done].
    apply (spares_attempt _ _ (fun _ => True)); [apply spares_any, spares_RevokeOthers|]. intros count _.
    apply (spares_attempt _ _ (fun _ => True)); [apply spares_any, spares_rotate|done].
  - eapply spares_bind; [apply spares_required|]. intros [c|] _; [|done]. destruct grant; [|done].
    apply (spares_attempt _ _ (fun _ => True)); [apply spares_any, spares_RevokeOthers|]. intros count _.
    apply (spares_attempt _ _ (fun _ => True)); [|intros _ _; apply (spares_attempt _ _ (fun _ => True)); [apply spares_any, spares_rotate|done]].
    apply spares_act; [|by intros []]. intros now db Hn. by apply (no_login_same db).
  - match goal with |- context [if ?r then _ else _] => destruct r end; eapply spares_ignore; [apply spares_rotate|apply spares_reissue].
Qed.

Lemma spares_body c : spares id (body c) (fun _ => True).
Proof.
  destruct c as [cookie maxAge h|limit|b]; cbn [body].
  - eapply spares_bind; [apply spares_New|]. intros r Hr. by apply spares_handle.
  - eapply spares_ignore, spares_CleanupExpired.
  - eapply (spares_ignore _ (fun _ => True)). unfold realtimeSessionValid. destruct (String.eqb _ _); [done|]. apply spares_do; [done|]. intros [user|x] _; [|done].
    destruct (_ || _); [done|]. apply spares_do; [done|]. intros [[|n]|x] _; try done. eapply spares_bind; [apply spares_Validate|done].
Qed.
End Spares.

(** ** Histories *)

(** An action keeps the session over, and its request goes on sparing it. *)
Lemma act_spares id B (e : sessE B) k b db ids db' ids' :
  id ∈ ids -> no_login id db -> spares id (Do e k) (fun _ : unit => True) -> effect B e db ids b db' ids' ->
  no_login id db' /\ id ∈ ids' /\ spares id (k b) (fun _ => True).
Proof.
  intros Hi Hn [Ho Hk] He. specialize (Hk b tt). change (wp (spares_action id) (possible id) (k b) (fun _ _ => True) tt) with (spares id (k b) (fun _ => True)) in Hk.
  destruct e; cbn [effect] in He; cbn [spares_action] in Ho; cbn [possible] in Hk.
  - destruct He as (-> & -> & Hb). split_and!; [done|done|]. apply Hk. destruct Hb; [right; by exists db|by left].
  - destruct He as (-> & [[-> ->]|[now Hb]]); [by split_and!; auto|]. specialize (Ho now db Hn). destruct (tx now db) as [[d a]|x]; destruct Hb as [-> ->]; by split_and!; auto.
  - destruct He as (-> & ->). by split_and!; auto.
  - destruct He as (-> & -> & Hb). by split_and!; auto.
  - destruct He as (-> & -> & Hb). by split_and!; auto.
  - destruct He as (-> & ->). by split_and!; auto.
  - destruct He as (-> & Hb & ->). split_and!; [done|set_solver|]. apply Hk. intros ->. done.
  - destruct He as (-> & ->). by split_and!; auto.
  - destruct He as (-> & ->). by split_and!; auto.
  - destruct He as (-> & ->). by split_and!; auto.
Qed.

Definition over (id : string) (w : world) : Prop :=
  id ∈ swIDs w /\ no_login id (swDB w) /\ (forall p, p ∈ swRequests w -> spares id p (fun _ => True)).

Lemma step_over id w w' : step w w' -> over id w -> over id w'.
Proof.
  intros Hs (Hi & Hn & Hf). destruct Hs as [w c|w before after B e k b db ids Hr He|w before after p Hr|w security grants users settings Hsub]; unfold over in *; simpl.
  - split_and!; [done|done|]. intros p [->|Hp]%elem_of_cons; [apply spares_body|by apply Hf].
  - rewrite Hr in Hf. assert (Hp : spares id (Do e k) (fun _ => True)) by (apply Hf, elem_of_app; right; apply elem_of_cons; by left).
    destruct (act_spares id B e k b _ _ db ids Hi Hn Hp He) as (Hn' & Hi' & Hk). split_and!; [done|done|]. intros p.
    rewrite elem_of_app, elem_of_cons. intros [H|[->|H]]; [|done|]; apply Hf; rewrite elem_of_app, elem_of_cons; tauto.
  - rewrite Hr in Hf. split_and!; [done|done|]. intros q Hq. apply Hf. rewrite elem_of_app in *. rewrite elem_of_cons. tauto.
  - split_and!; [done| |done]. by apply (no_login_same id (swDB w)).
Qed.

(** C9: a session that has ended stays ended.  When the row of a minted session ID is gone,
    as logout, revocation, replacement and cleanup leave it, and no request in flight can
    still store a login under it, then no history of concurrent requests, whatever they do
    and whatever fails, ever stores a login under that ID again. *)
Theorem ended_sessions_stay_ended id w w' :
  id ∈ swIDs w -> sdSessions (swDB w) !! id = None -> (forall p, p ∈ swRequests w -> spares id p (fun _ => True)) ->
  rtc step w w' ->
  no_login id (swDB w') /\ (forall p, p ∈ swRequests w' -> spares id p (fun _ => True)).
Proof.
  intros Hi Hrow Hf Hs. assert (Ho : over id w) by (split_and!; try done; intros row values E; congruence).
  assert (H' : over id w') by (clear Hi Hrow Hf; induction Hs as [w|w w1 w' H1 _ IH]; [done|]; by apply IH, (step_over id w)).
  by destruct H' as (_ & ? & ?).
Qed.

End Histories.
