(* ===== verification/SessionProperties.v ===== *)
(** * Sessions of administrators: single requests

    A request that runs alone, with a clock that stands still; what a save writes over a
    revocation and over the last activity; the pages of the inventory, each at its own time
    and after its own cleanup.  A concrete panel is the witness of the theorems on sessions. *)

From stdpp Require Import sorting.
From S2P Require Import Prelude GoStrings VersionPolicy Programs StepUp Sessions SessionHistories.

Open Scope string_scope.
Open Scope list_scope.
Open Scope Z_scope.

(** ** Requests that run alone *)
Section Runs.
Context (decodeValues : string -> option Values) (encodeValues : Values -> string).

(** The answer of an action at time [now], when nothing fails and [id] is the next minted ID. *)
Definition oracle (now : Z) (id : string) {B} (e : sessE B) (db : SessionDB) : B * SessionDB :=
  match e in sessE B return B * SessionDB with
  | Query q => (q db, db)
  | Transaction tx => match tx now db with Ok (db', a) => (Ok a, db') | Err x => (Err x, db) end
  | Now => (now, db)
  | Decode data => (decodeValues data, db)
  | Encode values => (Some (encodeValues values), db)
  | SignID _ => (true, db)
  | NewID => (id, db)
  | SecureRandom => (Some id, db)
  | CloseSession _ _ => (tt, db)
  | CloseAll _ => (tt, db)
  end.

Fixpoint run (now : Z) (id : string) {A} (p : sprog A) (db : SessionDB) : A * SessionDB :=
  match p with
  | Ret a => (a, db)
  | Do e k => let r := oracle now id e db in run now id (k r.1) r.2
  end.

Lemma run_bind now id {A B} (p : sprog A) (f : A -> sprog B) db : run now id (p ≫= f) db = run now id (f (run now id p db).1) (run now id p db).2.
Proof. unfold mbind, prog_bind. revert db. induction p as [a|C e k IH]; intros db; simpl; [done|]. apply IH. Qed.

Lemma run_do now id {A B} (e : sessE B) (f : B -> sprog A) db : run now id (act e ≫= f) db = run now id (f (oracle now id e db).1) (oracle now id e db).2.
Proof. done. Qed.
End Runs.

(** ** A save undoes a revocation *)

(** The table is keyed by its primary key and [ref] is unique. *)
Definition well_keyed (db : SessionDB) : Prop :=
  (forall k r, sdSecurity db !! k = Some r -> ssSessionID r = k) /\
  (forall k k' r r', sdSecurity db !! k = Some r -> sdSecurity db !! k' = Some r' -> ssRef r = ssRef r' -> k = k').

Lemma session_rows_elem {A} (t : gmap string A) x : x ∈ rows t <-> exists k, t !! k = Some x.
Proof.
  unfold rows. rewrite list_elem_of_fmap. split.
  - intros ([k y] & -> & Hy). exists k. by apply elem_of_map_to_list.
  - intros [k Hk]. exists (k, x). split; [done|]. by apply elem_of_map_to_list.
Qed.

Lemma first_row_unique {A} (p : A -> bool) (t : gmap string A) k x :
  t !! k = Some x -> p x = true -> (forall k' y, t !! k' = Some y -> p y = true -> y = x) -> first_row p t = Ok x.
Proof.
  intros Hk Hp Hu. unfold first_row. destruct (List.find p (rows t)) as [y|] eqn:Ef.
  - apply List.find_some in Ef. destruct Ef as [Hy Hpy]. rewrite <- list_elem_of_In, session_rows_elem in Hy. destruct Hy as [k' Hk']. f_equal. by eapply Hu.
  - exfalso. assert (Hx : p x = false); [|congruence]. apply (List.find_none _ _ Ef). rewrite <- list_elem_of_In, session_rows_elem. by exists k.
Qed.

(** The row of a reference. *)
Lemma find_ref db k r : well_keyed db -> sdSecurity db !! k = Some r -> first_row (by_ref (ssUserID r) (ssRef r)) (sdSecurity db) = Ok r.
Proof.
  intros [_ Hu] Hk. apply (first_row_unique _ _ k); [done| |].
  - unfold by_ref. by rewrite Z.eqb_refl, String.eqb_refl.
  - intros k' y Hy Hb. unfold by_ref in Hb. bools. destruct Hb as [_ Hb]. rewrite (Hu k' k y r) in Hy; [congruence|done..].
Qed.

Lemma metadata_id id values md : securitySessionFromValues id values = Some md -> ssSessionID md = id /\ ssRevokedAt md = 0.
Proof.
  unfold securitySessionFromValues. destruct (valueString _ SessionLoginUserKey); [|done]. destruct (valueString _ SessionRefKey); [|done].
  destruct (sessionValueUint64 _); [|done]. destruct (sessionValueUint64 _); [|done]. destruct (sessionValueUint64 _); [|done]. destruct (_ || _); [done|]. by intros [= <-].
Qed.

(** The insert succeeds when no other session has the reference. *)
Lemma insert_security_ok md db : (forall k r, sdSecurity db !! k = Some r -> ssRef r = ssRef md -> ssSessionID r = ssSessionID md) ->
  is_Some (sdUsers db !! ssUserID md) ->
  insert_security md db = Ok (set_security (<[ssSessionID md := upsert_row (sdSecurity db !! ssSessionID md) md]> (sdSecurity db)) db).
Proof.
  intros Hu [user Huser]. unfold insert_security. destruct (existsb _ _) eqn:Ee; [|by rewrite Huser]. exfalso. apply existsb_exists in Ee.
  destruct Ee as (r & Hr & He). rewrite <- list_elem_of_In, session_rows_elem in Hr. destruct Hr as [k Hr]. bools. destruct He as [E1 E2]. apply E2. by apply (Hu k).
Qed.

(** C34: a save of a request that loaded its session before a revocation undoes the
    revocation.  The revocation removes the session and marks its metadata; the save of
    the request in flight, whose values still name the login, stores the session again and
    clears the mark, so that the cookie of the revoked session is good again. *)
Theorem save_revives_revoked_session db row se md data expiresAt reason now now' :
  well_keyed db -> sdSecurity db !! seID se = Some row -> ssRevokedAt row = 0 -> 0 < now ->
  securitySessionFromValues (seID se) (seValues se) = Some md -> ssRef md = ssRef row -> is_Some (sdUsers db !! ssUserID md) ->
  exists revoked revived : SessionDB,
    revoke_tx (ssUserID row) (ssRef row) reason now db = Ok (revoked, tt) /\
    sdSessions revoked !! seID se = None /\ ssRevokedAt <$> sdSecurity revoked !! seID se = Some now /\
    save_tx se data expiresAt "" now' revoked = Ok (revived, tt) /\
    sdSessions revived !! seID se = Some (mkSessionRow (seID se) data expiresAt) /\
    ssRevokedAt <$> sdSecurity revived !! seID se = Some 0 /\ ssState <$> sdSecurity revived !! seID se = Some (ssState md).
Proof.
  intros Hw Hrow H0 Hnow Hmd Href Huser. destruct (metadata_id _ _ _ Hmd) as [Hid Hlive]. unfold revoke_tx. rewrite (find_ref db (seID se) row) by done.
  destruct Hw as [Hk Hu]. rewrite H0. cbn [Z.eqb]. rewrite (Hk _ _ Hrow). set (revoked := set_sessions _ _).
  assert (Hsec : sdSecurity revoked !! seID se = Some (revoke_row now reason row)) by (simpl; by rewrite lookup_alter_eq, Hrow).
  exists revoked. unfold save_tx. rewrite Hmd. set (stored := set_sessions (<[_ := _]> _) revoked). rewrite (insert_security_ok md stored); [|intros k r Hr Er|done].
  - eexists. split; [done|]. split; [apply lookup_delete_eq|]. split; [by rewrite Hsec|]. split; [reflexivity|]. simpl. rewrite lookup_insert_eq. split; [done|].
    rewrite Hid, lookup_insert_eq. change (alter _ _ (sdSecurity db)) with (sdSecurity revoked). by rewrite Hsec.
  - rewrite Hid. simpl in Hr. apply lookup_alter_Some in Hr as [[<- (r' & Hr' & ->)]|[_ Hr]]; [simpl; by apply Hk|].
    rewrite (Hk _ _ Hr). eapply Hu; [exact Hr|exact Hrow|congruence].
Qed.

(** ** A save restores an old activity *)
Lemma metadata_values id values md : securitySessionFromValues id values = Some md ->
  valueString values SessionRefKey = Some (ssRef md) /\ String.eqb (TrimSpace (ssRef md)) "" = false /\
  sessionValueUint64 (values !! SessionUserIDKey) = Some (ssUserID md) /\ (ssUserID md =? 0) = false /\
  sessionValueUint64 (values !! SessionCredentialGenerationKey) = Some (ssCredentialGeneration md) /\
  sessionValueUint64 (values !! SessionMFAGenerationKey) = Some (ssMFAGeneration md) /\
  ssIdleExpiresAt md = int64Of values SessionIdleExpiresAtKey /\ ssLastSeenAt md = int64Of values SessionLastSeenAtKey.
Proof.
  unfold securitySessionFromValues. destruct (valueString _ SessionLoginUserKey); [|done]. destruct (valueString _ SessionRefKey); [|done].
  destruct (sessionValueUint64 _); [|done]. destruct (sessionValueUint64 _); [|done]. destruct (sessionValueUint64 _); [|done]. destruct (_ || _) eqn:E; [done|].
  rewrite !orb_false_iff in E. destruct E as [[_ E1] E2]. by intros [= <-].
Qed.

(** The metadata depend on the keys of the login only. *)
Lemma metadata_csrf id values token expiresAt :
  securitySessionFromValues id (<[csrfExpiresKey := expiresAt]> (<[csrfTokenKey := token]> values)) = securitySessionFromValues id values.
Proof. unfold securitySessionFromValues, stringOf, int64Of, valueString. by rewrite !lookup_insert_ne. Qed.

Section Activity.
Context (sha256hex : string -> string) (decodeValues : string -> option Values) (encodeValues : Values -> string).
Context (id next : string) (values : Values) (md : SecuritySession) (Hmd : securitySessionFromValues id values = Some md).

(** The answer of a load, by the checks on the metadata. *)
Lemma run_validate db metadata user now maxAge isNew : sdSecurity db !! id = Some metadata -> ssRef metadata = ssRef md -> sdUsers db !! ssUserID md = Some user ->
  (refused metadata user (ssUserID md) (ssCredentialGeneration md) (ssMFAGeneration md) now = true \/ now - ssLastSeenAt metadata < SessionLastSeenDebounce) ->
  run decodeValues encodeValues now next (validateAndTouchSecuritySession (mkSession id values maxAge isNew)) db =
  (mkSession id values maxAge isNew, Ok (negb (refused metadata user (ssUserID md) (ssCredentialGeneration md) (ssMFAGeneration md) now)), db).
Proof.
  intros Hm Hr Hu Hor. destruct (metadata_values _ _ _ Hmd) as (E1 & E2 & E3 & E4 & E5 & E6 & _ & _). unfold validateAndTouchSecuritySession.
  cbn [seValues seID]. rewrite E1, E2, E3, E5, E6, E4, run_do. cbn [oracle fst snd]. unfold metadata_of. rewrite Hm, Hr, String.eqb_refl, run_do.
  cbn [oracle fst snd]. unfold user_by_id. rewrite Hu, run_do. cbn [oracle fst snd].
  destruct (refused _ _ _ _ _ _); [done|]. destruct Hor as [?|Hor]; [done|]. by rewrite (proj2 (Z.ltb_lt _ _) Hor).
Qed.

Lemma run_load db row metadata user now maxAge : sdSessions db !! id = Some row -> srID row = id -> decodeValues (srData row) = Some values ->
  sdSecurity db !! id = Some metadata -> ssRef metadata = ssRef md -> sdUsers db !! ssUserID md = Some user ->
  expired (srExpiresAt row) now = false -> refused metadata user (ssUserID md) (ssCredentialGeneration md) (ssMFAGeneration md) now = false ->
  now - ssLastSeenAt metadata < SessionLastSeenDebounce ->
  run decodeValues encodeValues now next (New (Some (Some id)) maxAge) db = (mkSession id values maxAge false, None, db).
Proof.
  intros Hs Hi Hd Hm Hr Hu He Hf Hb. unfold New. rewrite run_bind. unfold load. rewrite run_do. cbn [oracle fst snd seID]. unfold session_row. rewrite Hs, run_do.
  cbn [oracle fst snd]. rewrite He, run_do. cbn [oracle fst snd]. rewrite Hd, run_bind. unfold with_values. cbn [seID seMaxAge seIsNew].
  rewrite (run_validate db metadata user now) by auto. by rewrite Hf.
Qed.

(** A request whose session is refused gets a new one. *)
Lemma run_refused db row metadata user now maxAge : sdSessions db !! id = Some row -> decodeValues (srData row) = Some values ->
  sdSecurity db !! id = Some metadata -> ssRef metadata = ssRef md -> sdUsers db !! ssUserID md = Some user ->
  refused metadata user (ssUserID md) (ssCredentialGeneration md) (ssMFAGeneration md) now = true ->
  (run decodeValues encodeValues now next (New (Some (Some id)) maxAge) db).1 = (mkSession "" ∅ maxAge true, None).
Proof.
  intros Hs Hd Hm Hr Hu Hf. unfold New. rewrite run_bind. unfold load. rewrite run_do. cbn [oracle fst snd seID]. unfold session_row. rewrite Hs, run_do.
  cbn [oracle fst snd]. destruct (expired _ _); [done|]. rewrite run_do. cbn [oracle fst snd]. rewrite Hd, run_bind. unfold with_values. cbn [seID seMaxAge seIsNew].
  rewrite (run_validate db metadata user now) by auto. by rewrite Hf.
Qed.

(** A save under the same ID writes the values and the metadata they give. *)
Lemma run_Save db metadata user vals now maxAge isNew : well_keyed db -> id <> "" -> 0 <= maxAge -> vals !! SessionRegenerateKey = None ->
  securitySessionFromValues id vals = Some md -> sdSecurity db !! id = Some metadata -> ssRef metadata = ssRef md -> sdUsers db !! ssUserID md = Some user ->
  exists expiresAt, run decodeValues encodeValues now next (Save (mkSession id vals maxAge isNew)) db =
    (Ok (mkSession id vals maxAge isNew),
     mkSessionDB (<[id := mkSessionRow id (encodeValues vals) expiresAt]> (sdSessions db)) (<[id := upsert_row (Some metadata) md]> (sdSecurity db))
       (sdGrants db) (sdUsers db) (sdSettings db)).
Proof.
  intros [Hk Hu] Hid Hm Hv Hvals Hmeta Href Huser. destruct (metadata_id _ _ _ Hmd) as [Hmid _]. exists (if 0 <? maxAge then now + maxAge else 0).
  unfold Save. cbn [seMaxAge]. rewrite (proj2 (Z.ltb_ge maxAge 0) Hm). unfold attempt at 1. change (pbind (regenerate ?x) ?f) with (regenerate x ≫= f). rewrite run_bind.
  unfold regenerate. cbn [seValues seID]. rewrite Hv. cbn [run fst snd]. rewrite run_bind. cbn [seID]. apply String.eqb_neq in Hid. rewrite Hid. cbn [run fst snd].
  unfold attempt. change (pbind (save ?x ?y) ?f) with (save x y ≫= f). rewrite run_bind. unfold save at 1 2. rewrite !run_do. cbn [oracle fst snd seValues seMaxAge].
  rewrite !run_bind. destruct (0 <? maxAge); cbn [run act oracle fst snd mbind prog_bind pbind];
    unfold save_tx; cbn [seID seValues]; rewrite Hvals, (insert_security_ok md); try (cbn [rbind]; rewrite Hmid; cbn [sdSecurity set_sessions]; rewrite Hmeta; reflexivity);
    cbn [sdSecurity sdUsers set_sessions]; try (by eauto); intros k r Hr Er; rewrite (Hk _ _ Hr), Hmid; (eapply Hu; [exact Hr|exact Hmeta|congruence]).
Qed.

Lemma cookie_age vals now : 0 <= sessionCookieMaxAge vals now.
Proof. unfold sessionCookieMaxAge. destruct (0 <? _) eqn:E; [apply Z.ltb_lt in E|]; lia. Qed.

(** The values that a request for a CSRF token saves. *)
Lemma run_csrf db now maxAge isNew : exists vals, (vals = values \/ exists token expiresAt, vals = <[csrfExpiresKey := expiresAt]> (<[csrfTokenKey := token]> values)) /\
  run decodeValues encodeValues now next (IssueCSRFToken sha256hex (mkSession id values maxAge isNew)) db =
  run decodeValues encodeValues now next (Save (mkSession id vals (sessionCookieMaxAge vals now) isNew)) db.
Proof.
  unfold IssueCSRFToken. rewrite run_do. cbn [oracle fst snd seValues seID seIsNew]. rewrite run_bind. destruct (_ || _); [|exists values; by split; [left|]].
  rewrite run_bind. destruct (sessionBoundCSRFToken _ _) as [t|]; cbn [run act oracle fst snd]; eexists; (split; [right; eauto|reflexivity]).
Qed.
End Activity.

(** a request for a CSRF token can shorten its session.  The store writes the last
    activity to the metadata, but the encoded values of the session keep the old one; when
    a session that was active within the last minute asks for a token, the save puts the
    old end of its idle time back, and from then on every request of the session is
    refused once that old end is reached, however recent its last activity was. *)
Theorem csrf_restores_old_activity sha256hex decodeValues encodeValues next db id row values md metadata user now maxAge :
  well_keyed db -> id <> "" -> (forall vals, decodeValues (encodeValues vals) = Some vals) ->
  sdSessions db !! id = Some row -> srID row = id -> decodeValues (srData row) = Some values -> values !! SessionRegenerateKey = None ->
  securitySessionFromValues id values = Some md -> sdSecurity db !! id = Some metadata -> ssRef metadata = ssRef md -> sdUsers db !! ssUserID md = Some user ->
  expired (srExpiresAt row) now = false -> refused metadata user (ssUserID md) (ssCredentialGeneration md) (ssMFAGeneration md) now = false ->
  now - ssLastSeenAt metadata < SessionLastSeenDebounce ->
  let stored := int64Of values SessionIdleExpiresAtKey in
  let db' := (run decodeValues encodeValues now next (r ← New (Some (Some id)) maxAge; IssueCSRFToken sha256hex r.1) db).2 in
  ssIdleExpiresAt <$> sdSecurity db' !! id = Some stored /\
  forall later, 0 < stored <= later -> (run decodeValues encodeValues later next (New (Some (Some id)) maxAge) db').1 = (mkSession "" ∅ maxAge true, None).
Proof.
  intros Hw Hid Hcodec Hs Hi Hd Hreg Hmd Hm Hr Hu He Hf Hb stored. rewrite run_bind, (run_load _ _ id next values md Hmd db row metadata user now) by done. cbn [fst snd].
  destruct (run_csrf sha256hex decodeValues encodeValues id next values db now maxAge false) as (vals & Hvals & ->).
  assert (Hv : vals !! SessionRegenerateKey = None /\ securitySessionFromValues id vals = Some md).
  { destruct Hvals as [->|(token & e & ->)]; [done|]. by rewrite metadata_csrf, !lookup_insert_ne. }
  destruct Hv as [Hv1 Hv2].
  destruct (run_Save decodeValues encodeValues id next values md Hmd db metadata user vals now (sessionCookieMaxAge vals now) false) as [expiresAt ->]; try done; [apply cookie_age|].
  cbn [fst snd sdSecurity]. rewrite lookup_insert_eq. destruct (metadata_values _ _ _ Hmd) as (_ & _ & _ & _ & _ & _ & Eidle & _). split; [by simpl; rewrite Eidle|].
  intros later [Hp Hl]. eapply (run_refused _ _ id next vals md Hv2); cbn [sdSessions sdSecurity sdUsers]; [apply lookup_insert_eq|apply Hcodec|apply lookup_insert_eq|done|exact Hu|].
  unfold refused. cbn [upsert_row ssIdleExpiresAt]. rewrite Eidle. unfold expired. fold stored. rewrite (proj2 (Z.ltb_lt _ _) Hp), (proj2 (Z.leb_le _ _) Hl).
  cbn [andb]. by rewrite !orb_true_r, ?orb_true_l.
Qed.

(** ** The pages of the inventory *)
#[local] Instance listed_trans : Transitive listed.
Proof.
  intros x y z Hxy Hyz. unfold listed in *. pose proof (cmp_trans (cmp := Compare) (ssRef x) (ssRef y) (ssRef z)). destruct Hxy as [?|[? ?]], Hyz as [?|[? ?]]; [left; lia..|right; split; [lia|auto]].
Qed.

#[local] Instance listed_total : Total listed.
Proof.
  intros x y. unfold listed. pose proof (cmp_antisym (cmp := Compare) (ssRef x) (ssRef y)).
  destruct (Z.lt_trichotomy (ssLastSeenAt x) (ssLastSeenAt y)) as [?|[?|?]]; [right; by left| |left; by left].
  destruct (Z.le_ge_cases (Compare (ssRef x) (ssRef y)) 0); [left; right; lia|right; right; lia].
Qed.

Lemma listed_antisym x y : listed x y -> listed y x -> ssRef x = ssRef y.
Proof. unfold listed. pose proof (cmp_antisym (cmp := Compare) (ssRef x) (ssRef y)). intros [?|[? ?]] [?|[? ?]]; try lia. apply Compare_zero. lia. Qed.

Lemma after_anchor_spec a r : after_anchor (Some a) r = true <-> ~ listed r a.
Proof. unfold after_anchor, listed. rewrite orb_true_iff, andb_true_iff, Z.ltb_lt, Z.eqb_eq, Z.ltb_lt. lia. Qed.

(** *** Pages and their cleanups *)
(** No row of the table is stale. *)
Definition clean (now : Z) (db : SessionDB) : Prop := forall r, r ∈ rows (sdSecurity db) -> stale (now - sessionHistoryRetention) r = false.

(** The database after a cleanup that removes every stale row. *)
Definition cleaned (now : Z) (db : SessionDB) : SessionDB :=
  let batch := merge_sort idle_first (List.filter (stale (now - sessionHistoryRetention)) (rows (sdSecurity db))) in
  let ids := ssSessionID <$> batch in
  mkSessionDB (filter (fun kv => member kv.1 ids = false) (sdSessions db)) (filter (fun kv => member kv.1 ids = false) (sdSecurity db))
    (List.filter (fun g => negb (member (gSessionRef g) (ssRef <$> batch))) (sdGrants db)) (sdUsers db) (sdSettings db).

Lemma cleanup_all now db t : Z.of_nat (length (List.filter (stale (now - sessionHistoryRetention)) (rows (sdSecurity db)))) <= MaxSessionCleanupBatch ->
  exists n, cleanup_tx MaxSessionCleanupBatch (now - sessionHistoryRetention) t db = Ok (cleaned now db, n).
Proof.
  intros Hb. eexists. unfold cleanup_tx, cleaned. rewrite take_ge; [reflexivity|]. rewrite (Permutation_length (merge_sort_Permutation idle_first _)). unfold MaxSessionCleanupBatch in *. lia.
Qed.

Lemma member_spec x l : member x l = true <-> x ∈ l.
Proof.
  unfold member. rewrite existsb_exists. split; [intros (y & Hy & ->%String.eqb_eq); by apply list_elem_of_In|]. intros Hx. exists x. split; [by apply list_elem_of_In|apply String.eqb_refl].
Qed.

(** The rows that are left. *)
Lemma cleaned_lookup now db k r : well_keyed db -> sdSecurity (cleaned now db) !! k = Some r <-> sdSecurity db !! k = Some r /\ stale (now - sessionHistoryRetention) r = false.
Proof.
  intros [Hk _]. unfold cleaned. cbn [sdSecurity]. rewrite map_lookup_filter_Some. cbn [fst]. rewrite <- not_true_iff_false, member_spec.
  assert (Hin : forall x, x ∈ (ssSessionID <$> merge_sort idle_first (List.filter (stale (now - sessionHistoryRetention)) (rows (sdSecurity db)))) <->
    exists r0, sdSecurity db !! x = Some r0 /\ stale (now - sessionHistoryRetention) r0 = true).
  { intros x. rewrite list_elem_of_fmap. split.
    - intros (r0 & -> & Hr0). rewrite merge_sort_Permutation, list_elem_of_In, filter_In, <- list_elem_of_In, session_rows_elem in Hr0. destruct Hr0 as [[k0 Hr0] Hs]. exists r0. by rewrite (Hk _ _ Hr0).
    - intros (r0 & Hr0 & Hs). exists r0. split; [by rewrite (Hk _ _ Hr0)|]. rewrite merge_sort_Permutation, list_elem_of_In, filter_In, <- list_elem_of_In, session_rows_elem. eauto. }
  rewrite Hin. split; intros [Hr Hn]; (split; [done|]).
  - apply not_true_iff_false. intros Hs. apply Hn. eauto.
  - intros (r0 & Hr0 & Hs). congruence.
Qed.

Lemma cleaned_keyed now db : well_keyed db -> well_keyed (cleaned now db).
Proof.
  intros Hk. pose proof Hk as [H1 H2]. split; [intros k r [Hr _]%cleaned_lookup; auto|]. intros k k' r r' [Hr _]%cleaned_lookup [Hr' _]%cleaned_lookup; eauto.
Qed.

Lemma cleaned_clean now t db : well_keyed db -> (forall r, r ∈ rows (sdSecurity db) -> stale (t - sessionHistoryRetention) r = true -> stale (now - sessionHistoryRetention) r = true) -> clean t (cleaned now db).
Proof.
  intros Hk Ht r (k & [Hr Hs]%(cleaned_lookup now db k r Hk))%session_rows_elem. apply not_true_iff_false. intros Hx. rewrite (Ht r) in Hs; [done| |done]. apply session_rows_elem. eauto.
Qed.

Lemma clean_cleanup now db t : clean now db -> cleanup_tx MaxSessionCleanupBatch (now - sessionHistoryRetention) t db = Ok (db, 0).
Proof.
  intros Hc. assert (E : List.filter (stale (now - sessionHistoryRetention)) (rows (sdSecurity db)) = []).
  { revert Hc. unfold clean. induction (rows (sdSecurity db)) as [|r l IH]; intros Hc; [done|]. cbn [List.filter]. rewrite Hc by apply list_elem_of_here. apply IH. intros x Hx. apply Hc. by apply list_elem_of_further. }
  unfold cleanup_tx. rewrite E. change (merge_sort idle_first []) with (@nil SecuritySession). rewrite take_nil. cbn [length fmap list_fmap].
  rewrite !map_filter_id by done. rewrite (List.filter_ext _ (fun _ => true)) by done. replace (List.filter (fun _ => true) (sdGrants db)) with (sdGrants db); [by destruct db|].
  induction (sdGrants db) as [|g l IH]; [done|]. cbn [List.filter]. by rewrite <- IH.
Qed.

(** A page is read from what its cleanup leaves. *)
Lemma run_List decodeValues encodeValues next userID currentRef limit now cursor n db db1 :
  (forall t, cleanup_tx MaxSessionCleanupBatch (now - sessionHistoryRetention) t db = Ok (db1, n)) ->
  run decodeValues encodeValues now next (List userID currentRef cursor limit) db = run decodeValues encodeValues now next (listPage userID currentRef cursor limit) db1.
Proof.
  intros Hc. unfold List, attempt. change (pbind (CleanupExpired ?x) ?f) with (CleanupExpired x ≫= f). rewrite run_bind. unfold CleanupExpired at 1 2. rewrite !run_do.
  change ((MaxSessionCleanupBatch <=? 0) || (MaxSessionCleanupBatch <? MaxSessionCleanupBatch)) with false. cbn [oracle fst snd run act]. rewrite Hc. done.
Qed.

(** Following the cursors of the pages, each at its time. *)
Section Browse.
Context (decodeValues : string -> option Values) (encodeValues : Values -> string) (next : string) (userID : Z) (currentRef : string) (limit : Z).

Fixpoint browse (clocks : list Z) (cursor : string) (db : SessionDB) : option (list SessionInventoryItem) :=
  match clocks with
  | [] => None
  | now :: clocks' =>
      match run decodeValues encodeValues now next (List userID currentRef cursor limit) db with
      | (Err _, _) => None
      | (Ok page, db') => if String.eqb (inNextCursor page) "" then Some (inItems page) else (fun rest => inItems page ++ rest) <$> browse clocks' (inNextCursor page) db'
      end
  end.

Lemma browse_cleaned now clocks cursor db : well_keyed db ->
  Z.of_nat (length (List.filter (stale (now - sessionHistoryRetention)) (rows (sdSecurity db)))) <= MaxSessionCleanupBatch ->
  browse (now :: clocks) cursor db = browse (now :: clocks) cursor (cleaned now db).
Proof.
  intros Hk Hb. destruct (cleanup_all now db 0 Hb) as [n Hn]. assert (Hc : clean now (cleaned now db)) by (by apply cleaned_clean).
  cbn [browse]. rewrite (run_List _ _ _ _ _ _ _ _ n db (cleaned now db)) by done. by rewrite (run_List _ _ _ _ _ _ _ _ 0 (cleaned now db) (cleaned now db)) by (intros t; by apply clean_cleanup).
Qed.
End Browse.

Section Pages.
Context (db : SessionDB) (userID : Z).

Definition owned : list SecuritySession := List.filter (fun r => ssUserID r =? userID) (rows (sdSecurity db)).

(** The rows of the user in the order of the inventory, those after an anchor. *)
Definition after (anchor : option SecuritySession) : list SecuritySession :=
  merge_sort listed (List.filter (fun r => (ssUserID r =? userID) && after_anchor anchor r) (rows (sdSecurity db))).

Lemma owned_row r : r ∈ owned <-> ssUserID r = userID /\ exists k, sdSecurity db !! k = Some r.
Proof. unfold owned. rewrite list_elem_of_In, filter_In, <- list_elem_of_In, session_rows_elem, Z.eqb_eq. tauto. Qed.

Context (Hkeys : well_keyed db).

Lemma owned_unique x y : x ∈ owned -> y ∈ owned -> ssRef x = ssRef y -> x = y.
Proof.
  rewrite !owned_row. intros [_ [k Hx]] [_ [k' Hy]] E. destruct Hkeys as [_ Hu]. rewrite (Hu k k' x y) in Hx by done. congruence.
Qed.

Lemma rows_NoDup : NoDup (rows (sdSecurity db)).
Proof.
  unfold rows. apply (NoDup_fmap_1 ssSessionID). rewrite <- list_fmap_compose.
  rewrite (list_fmap_ext (ssSessionID ∘ snd) fst (map_to_list (sdSecurity db))); [apply NoDup_fst_map_to_list|].
  intros i [k r] Hi. simpl. apply list_elem_of_lookup_2, elem_of_map_to_list in Hi. by apply Hkeys.
Qed.

Lemma owned_NoDup : NoDup owned.
Proof. unfold owned. apply NoDup_ListNoDup, List.NoDup_filter, NoDup_ListNoDup, rows_NoDup. Qed.

(** A sorted list without the elements up to an anchor is what follows the anchor. *)
Lemma filter_after l1 a l2 : Sorted listed (l1 ++ a :: l2) -> NoDup (l1 ++ a :: l2) -> (forall r, r ∈ l1 ++ a :: l2 -> r ∈ owned) ->
  List.filter (after_anchor (Some a)) (l1 ++ a :: l2) = l2.
Proof.
  intros Hs Hn Ho. apply Sorted_StronglySorted in Hs; [|apply listed_trans]. rewrite List.filter_app. apply NoDup_app in Hn as (_ & Hd & Hn).
  apply NoDup_cons in Hn as [Ha _].
  assert (H1 : List.filter (after_anchor (Some a)) l1 = []).
  { clear Hd Ho. induction l1 as [|x l1 IH]; [done|]. cbn [app] in Hs. apply StronglySorted_inv in Hs as [Hs Hx]. cbn [List.filter].
    rewrite (proj1 (not_true_iff_false _)); [by apply IH|]. rewrite after_anchor_spec. intros Hc. apply Hc. rewrite Forall_forall in Hx. apply Hx.
    apply elem_of_app. right. apply elem_of_cons. by left. }
  rewrite H1. cbn [app List.filter]. rewrite (proj1 (not_true_iff_false (after_anchor (Some a) a))).
  2: { rewrite after_anchor_spec. intros Hc. apply Hc. by destruct (listed_total a a). }
  assert (H2 : Forall (fun r => after_anchor (Some a) r = true) l2).
  { apply Forall_forall. intros r Hr. apply after_anchor_spec. intros Hra. apply Ha. replace a with r; [done|]. apply (owned_unique r a); [apply Ho..|].
    1,2: rewrite elem_of_app, elem_of_cons; tauto. apply listed_antisym; [done|].
    assert (Hss : StronglySorted listed (a :: l2)) by (clear -Hs; induction l1 as [|x l1 IH]; [done|]; simpl in Hs; apply StronglySorted_inv in Hs as [Hs _]; auto).
    apply StronglySorted_inv in Hss as [_ Hss]. rewrite Forall_forall in Hss. by apply Hss. }
  clear -H2. induction H2 as [|r l Hr _ IH]; [done|]. cbn [List.filter]. rewrite Hr. by f_equal.
Qed.

Lemma after_none : after None ≡ₚ owned.
Proof.
  unfold after, owned. rewrite merge_sort_Permutation. rewrite (List.filter_ext _ (fun r => ssUserID r =? userID)); [done|]. intros r. apply andb_true_r.
Qed.

(** What follows an anchor is the rest of the inventory. *)
Lemma after_split l1 a l2 : after None = l1 ++ a :: l2 -> after (Some a) = l2.
Proof.
  intros E. pose proof after_none as Hp. rewrite E in Hp.
  assert (Hs : Sorted listed (l1 ++ a :: l2)) by (rewrite <- E; apply Sorted_merge_sort, _).
  assert (Hn : NoDup (l1 ++ a :: l2)) by (rewrite Hp; apply owned_NoDup).
  assert (Ho : forall r, r ∈ l1 ++ a :: l2 -> r ∈ owned) by (intros r; by rewrite Hp).
  pose proof (filter_after l1 a l2 Hs Hn Ho) as Hf. unfold after. apply (Sorted_unique_strong listed).
  - intros x y Hx Hy Hxy Hyx. apply owned_unique; [|apply Ho; rewrite elem_of_app, elem_of_cons; tauto|by apply listed_antisym].
    rewrite merge_sort_Permutation, list_elem_of_In, filter_In, andb_true_iff, <- list_elem_of_In, session_rows_elem, Z.eqb_eq in Hx. apply owned_row. tauto.
  - apply Sorted_merge_sort, _.
  - apply Sorted_StronglySorted in Hs; [|apply listed_trans]. apply StronglySorted_Sorted.
    clear -Hs. induction l1 as [|x l1 IH]; apply StronglySorted_inv in Hs as [Hs _]; auto.
  - rewrite merge_sort_Permutation. transitivity (List.filter (after_anchor (Some a)) owned); [|by rewrite <- Hp, Hf]. unfold owned.
    clear. induction (rows (sdSecurity db)) as [|r l IH]; [done|]. cbn [List.filter]. destruct (ssUserID r =? userID); cbn [andb List.filter]; [|done].
    destruct (after_anchor (Some a) r); [by f_equiv|done].
Qed.

Context (decodeValues : string -> option Values) (encodeValues : Values -> string) (next : string) (currentRef : string) (limit : Z).
Context (Hrefs : forall r, r ∈ owned -> TrimSpace (ssRef r) <> "").

Lemma page_limit_pos : 1 <= page_limit limit.
Proof. unfold page_limit, DefaultSessionPageSize, MaxSessionPageSize. destruct (limit <=? 0) eqn:E1; simpl; [lia|]. destruct (200 <? limit) eqn:E2; bools; lia. Qed.

(** The page that a cursor gives, when there is nothing to clean up. *)
Lemma run_page now anchor cursor : clean now db -> (anchor = None /\ cursor = "") \/ (exists a, anchor = Some a /\ a ∈ owned /\ cursor = ssRef a) ->
  run decodeValues encodeValues now next (List userID currentRef cursor limit) db =
  (Ok (page_of currentRef (page_limit limit) (take (Z.to_nat (page_limit limit + 1)) (after anchor))), db).
Proof.
  intros Hn Hc. rewrite (run_List _ _ _ _ _ _ _ _ 0 db db (fun t => clean_cleanup now db t Hn)). unfold listPage. cbv zeta. rewrite run_bind. destruct Hc as [[-> ->]|(a & -> & Ha & ->)]; [done|].
  pose proof (proj2 (String.eqb_neq _ _) (Hrefs a Ha)) as Ht. rewrite Ht. rewrite run_do. cbn [oracle fst snd].
  apply owned_row in Ha. destruct Ha as [Hu [k Ha]]. pose proof (find_ref db k a Hkeys Ha) as Hfind. rewrite Hu in Hfind. by rewrite Hfind.
Qed.

Lemma page_small l : Z.of_nat (length l) <= page_limit limit -> page_of currentRef (page_limit limit) (take (Z.to_nat (page_limit limit + 1)) l) = mkInventory (item_of currentRef <$> l) "".
Proof.
  intros Hl. unfold page_of. rewrite take_ge by lia. by rewrite (proj2 (Z.ltb_ge _ _) Hl).
Qed.

Lemma page_large l1 a l2 : Z.of_nat (length l1) + 1 = page_limit limit -> l2 <> [] ->
  page_of currentRef (page_limit limit) (take (Z.to_nat (page_limit limit + 1)) (l1 ++ a :: l2)) = mkInventory (item_of currentRef <$> (l1 ++ [a])) (ssRef a).
Proof.
  intros Hl H2. unfold page_of. set (n := length l1) in *. replace (Z.to_nat (page_limit limit + 1)) with (n + 2)%nat by lia.
  assert (Hlen : length (take (n + 2) (l1 ++ a :: l2)) = (n + 2)%nat) by (rewrite length_take, length_app; destruct l2; [done|]; simpl; lia).
  rewrite (proj2 (Z.ltb_lt _ _)) by (rewrite Hlen; lia). replace (Z.to_nat (page_limit limit)) with (n + 1)%nat by lia.
  replace (Z.to_nat (page_limit limit - 1)) with n by lia. rewrite take_take, Nat.min_l by lia. f_equal.
  - f_equal. rewrite take_app_ge by lia. subst n. by replace (length l1 + 1 - length l1)%nat with 1%nat by lia.
  - rewrite lookup_take_lt by lia. subst n. by rewrite list_lookup_middle.
Qed.

(** Following the cursors from an anchor lists what follows it. *)
Lemma browse_after clocks anchor cursor l : (forall now, now ∈ clocks -> clean now db) -> after anchor = l -> (forall l1 a l2, l = l1 ++ a :: l2 -> a ∈ owned /\ after (Some a) = l2) ->
  (anchor = None /\ cursor = "") \/ (exists a, anchor = Some a /\ a ∈ owned /\ cursor = ssRef a) ->
  (length l < length clocks)%nat -> browse decodeValues encodeValues next userID currentRef limit clocks cursor db = Some (item_of currentRef <$> l).
Proof.
  revert anchor cursor l. induction clocks as [|now clocks IH]; intros anchor cursor l Hq Ha Hnext Hc Hf; simpl in Hf; [lia|]. cbn [browse].
  rewrite (run_page now anchor cursor) by (done || apply Hq, list_elem_of_here). rewrite Ha.
  destruct (Z.le_gt_cases (Z.of_nat (length l)) (page_limit limit)) as [Hl|Hl]; [by rewrite page_small|]. pose proof page_limit_pos as Hpos.
  destruct (lookup_lt_is_Some_2 l (Z.to_nat (page_limit limit) - 1)) as [a Hla]; [lia|]. apply take_drop_middle in Hla.
  set (l1 := take _ l) in *. set (l2 := drop _ l) in *. assert (H1 : length l1 = (Z.to_nat (page_limit limit) - 1)%nat) by (subst l1; rewrite length_take; lia).
  assert (H2 : l2 <> []) by (intros E; apply (f_equal length) in Hla; rewrite E, length_app in Hla; simpl in Hla; lia).
  clearbody l1 l2. assert (Hpage := page_large l1 a l2 ltac:(lia) H2). rewrite Hla in Hpage. rewrite Hpage. cbn [inNextCursor inItems]. destruct (Hnext l1 a l2 (eq_sym Hla)) as [Hao Haft].
  assert (Hne : String.eqb (ssRef a) "" = false) by (apply String.eqb_neq; intros E; by apply (Hrefs a Hao); rewrite E). rewrite Hne.
  rewrite (IH (Some a) (ssRef a) l2); [|intros t Ht; apply Hq, elem_of_cons; by right|done| |right; eauto|apply (f_equal length) in Hla; rewrite length_app in Hla; simpl in Hla; lia].
  - simpl. f_equal. rewrite <- fmap_app, <- app_assoc. simpl. by rewrite Hla.
  - intros m1 b m2 E. apply (Hnext (l1 ++ a :: m1)). by rewrite <- Hla, E, <- app_assoc.
Qed.
End Pages.

(** The cleanup leaves the sessions that are not stale. *)
Lemma cleaned_owned now db userID : well_keyed db -> owned (cleaned now db) userID ≡ₚ List.filter (fun r => negb (stale (now - sessionHistoryRetention) r)) (owned db userID).
Proof.
  intros Hk. apply NoDup_Permutation; [by apply owned_NoDup, cleaned_keyed|apply NoDup_ListNoDup, List.NoDup_filter, NoDup_ListNoDup; by apply owned_NoDup|].
  intros r. rewrite (list_elem_of_In (List.filter _ _)), filter_In, <- list_elem_of_In, !owned_row, negb_true_iff. split.
  - intros [Hu [k [Hr Hs]%cleaned_lookup]]; eauto.
  - intros [[Hu [k Hr]] Hs]. split; [done|]. exists k. by apply cleaned_lookup.
Qed.

(** C30: the inventory of sessions is complete and ends.  Take a first page at [now], with at
    most as many stale rows in the table as a cleanup removes (100), and later pages at
    [clocks] at which no other row has become stale.  Whatever the page size, following the
    cursors, with the cleanup that each page starts with, reaches a last page after at most
    one page more than the user has sessions, and the pages together list every session of
    the user that is not stale exactly once, the latest activity first and by reference
    where it is the same. *)
Theorem session_pages_complete decodeValues encodeValues next db userID currentRef limit now clocks :
  well_keyed db -> (forall r, r ∈ owned db userID -> TrimSpace (ssRef r) <> "") ->
  Z.of_nat (length (List.filter (stale (now - sessionHistoryRetention)) (rows (sdSecurity db)))) <= MaxSessionCleanupBatch ->
  (forall t r, t ∈ clocks -> r ∈ rows (sdSecurity db) -> stale (t - sessionHistoryRetention) r = true -> stale (now - sessionHistoryRetention) r = true) ->
  (length (owned db userID) <= length clocks)%nat ->
  exists sessions, browse decodeValues encodeValues next userID currentRef limit (now :: clocks) "" db = Some (item_of currentRef <$> sessions) /\
    sessions ≡ₚ List.filter (fun r => negb (stale (now - sessionHistoryRetention) r)) (owned db userID) /\ NoDup sessions /\ StronglySorted listed sessions.
Proof.
  intros Hk Hr Hb Ht Hf. rewrite (browse_cleaned decodeValues encodeValues next userID currentRef limit now clocks "" db Hk Hb). set (db1 := cleaned now db).
  pose proof (cleaned_keyed now db Hk) as Hk1. fold db1 in Hk1. pose proof (cleaned_owned now db userID Hk) as Hp1. fold db1 in Hp1.
  exists (after db1 userID None). pose proof (after_none db1 userID) as Hp. split_and!; [|by rewrite Hp|rewrite Hp; by apply owned_NoDup|].
  - apply (browse_after db1 userID Hk1 decodeValues encodeValues next currentRef limit) with (anchor := None); [| |done| |by left|].
    + intros r Hin. rewrite Hp1 in Hin. apply Hr. apply list_elem_of_In, filter_In in Hin as [Hin _]. by apply list_elem_of_In.
    + intros t [->|Hin]%elem_of_cons; apply cleaned_clean; auto. intros r. by apply Ht.
    + intros l1 a l2 E. split; [rewrite <- Hp, E, elem_of_app, elem_of_cons; tauto|by eapply after_split].
    + rewrite Hp, Hp1. pose proof (List.filter_length_le (fun r => negb (stale (now - sessionHistoryRetention) r)) (owned db userID)). simpl. lia.
  - apply Sorted_StronglySorted; [apply listed_trans|apply Sorted_merge_sort, _].
Qed.

(** ** A panel with one administrator *)
#[global] Instance value_eq_dec : EqDecision value.
Proof. solve_decision. Defined.

Definition value_sum (v : value) : string + (Z + (Z + (Z + (Z + (bool + unit))))) :=
  match v with
  | VString s => inl s
  | VUint64 z => inr (inl z)
  | VUint z => inr (inr (inl z))
  | VInt z => inr (inr (inr (inl z)))
  | VInt64 z => inr (inr (inr (inr (inl z))))
  | VBool b => inr (inr (inr (inr (inr (inl b)))))
  | VOther => inr (inr (inr (inr (inr (inr tt)))))
  end.

Definition sum_value (v : string + (Z + (Z + (Z + (Z + (bool + unit)))))) : value :=
  match v with
  | inl s => VString s
  | inr (inl z) => VUint64 z
  | inr (inr (inl z)) => VUint z
  | inr (inr (inr (inl z))) => VInt z
  | inr (inr (inr (inr (inl z)))) => VInt64 z
  | inr (inr (inr (inr (inr (inl b))))) => VBool b
  | inr (inr (inr (inr (inr (inr _))))) => VOther
  end.

#[global] Instance value_countable : Countable value.
Proof. apply (inj_countable' value_sum sum_value). by intros []. Defined.

Module Console.
Definition zero : Ascii.ascii := Ascii.ascii_of_nat 48.
Definition one : Ascii.ascii := Ascii.ascii_of_nat 49.

Fixpoint bits (p : positive) : string :=
  match p with
  | xH => ""
  | xO p => String zero (bits p)
  | xI p => String one (bits p)
  end.

Fixpoint unbits (s : string) : positive :=
  match s with
  | "" => xH
  | String c s => if Ascii.eqb c one then xI (unbits s) else xO (unbits s)
  end.

Definition encodeValues (v : Values) : string := bits (encode v).
Definition decodeValues (s : string) : option Values := decode (unbits s).

Lemma codec v : decodeValues (encodeValues v) = Some v.
Proof.
  unfold decodeValues, encodeValues. assert (Hb : forall p, unbits (bits p) = p) by (induction p as [p IH|p IH|]; simpl; by rewrite ?IH). rewrite Hb. apply decode_encode.
Qed.

Definition admin : User := mkUser 1 "admin" false 1 1.
Definition spec : LoginSessionSpec := mkSpec 1 "admin" "" "" 0 "" "" 1 1 false "" "" "" None 0.
Definition client : ClientIdentity := mkIdentity "direct" "192.0.2.0/24".

(** The values of a login at 1000, and its metadata after an activity at 2000. *)
Definition values : Values := delete SessionRegenerateKey (login_values spec client "ref-1" "revision" 1000 ∅).
Definition md : SecuritySession := default (mkSecuritySession "" "" 0 "" "" "" "" 0 "" "" 0 0 0 0 0 0 0 0 "" "" "" "" 0 "" "") (securitySessionFromValues "A" values).
Definition metadata : SecuritySession := touch_row 2000 3800 md.
Definition row : sqliteSessionRow := mkSessionRow "A" (encodeValues values) 0.
Definition settings : SessionSettings := mkSettings "" LifetimePostureBoundedV1 0.
Definition db : SessionDB := mkSessionDB {[ "A" := row ]} {[ "A" := metadata ]} [] {[ 1 := admin ]} settings.

Lemma db_keyed : well_keyed db.
Proof.
  unfold well_keyed. cbn [db sdSecurity]. split.
  - intros k r [<- <-]%lookup_singleton_Some. vm_compute. reflexivity.
  - intros k k' r r' [<- _]%lookup_singleton_Some [<- _]%lookup_singleton_Some _. reflexivity.
Qed.

Lemma md_some : securitySessionFromValues "A" values = Some md.
Proof. vm_compute. reflexivity. Qed.

Lemma save_revives_revoked_session_witness :
  exists revoked revived, revoke_tx 1 "ref-1" "user_revoked" 2040 db = Ok (revoked, tt) /\ ssRevokedAt <$> sdSecurity revoked !! "A" = Some 2040 /\
    save_tx (mkSession "A" values 0 false) (encodeValues values) 0 "" 2041 revoked = Ok (revived, tt) /\ ssRevokedAt <$> sdSecurity revived !! "A" = Some 0.
Proof.
  destruct (save_revives_revoked_session db metadata (mkSession "A" values 0 false) md (encodeValues values) 0 "user_revoked" 2040 2041)
    as (revoked & revived & H1 & _ & H2 & H3 & _ & H4 & _).
  - exact db_keyed.
  - reflexivity.
  - vm_compute. reflexivity.
  - lia.
  - exact md_some.
  - vm_compute. reflexivity.
  - exists admin. vm_compute. reflexivity.
  - exists revoked, revived. split_and!; [exact H1|exact H2|exact H3|exact H4].
Defined.

Lemma csrf_restores_old_activity_witness :
  ssIdleExpiresAt metadata = 3800 /\
  let db' := (run decodeValues encodeValues 2030 "B" (r ← New (Some (Some "A")) 0; IssueCSRFToken (fun s => s) r.1) db).2 in
  ssIdleExpiresAt <$> sdSecurity db' !! "A" = Some 2800 /\ (run decodeValues encodeValues 2800 "B" (New (Some (Some "A")) 0) db').1 = (mkSession "" ∅ 0 true, None).
Proof.
  split; [reflexivity|]. cbv zeta. destruct (csrf_restores_old_activity (fun s => s) decodeValues encodeValues "B" db "A" row values md metadata admin 2030 0) as [H1 H2].
  - exact db_keyed.
  - done.
  - exact codec.
  - reflexivity.
  - reflexivity.
  - apply codec.
  - vm_compute. reflexivity.
  - exact md_some.
  - reflexivity.
  - vm_compute. reflexivity.
  - vm_compute. reflexivity.
  - reflexivity.
  - vm_compute. reflexivity.
  - vm_compute. reflexivity.
  - split; [exact H1|]. apply H2. vm_compute. split; [reflexivity|discriminate].
Defined.

(** The session was revoked, and a request with its cookie starts. *)
Lemma ended_sessions_stay_ended_witness :
  let sha s := s in
  let w := mkWorld (set_sessions ∅ db) {[ "A" ]} [body sha (CRequest None 0 HView)] in
  let w' := mkWorld (swDB w) (swIDs w) (body sha (CRequest (Some (Some "A")) 0 HCsrf) :: swRequests w) in
  no_login decodeValues "A" (swDB w').
Proof.
  intros sha w w'. apply (ended_sessions_stay_ended sha decodeValues "A" w w').
  - cbn [w swIDs]. set_solver.
  - reflexivity.
  - intros p Hp. apply list_elem_of_singleton in Hp. subst p. apply spares_body.
  - apply rtc_once. exact (st_call sha decodeValues w (CRequest (Some (Some "A")) 0 HCsrf)).
Defined.

(** A second session of the administrator. *)
Definition other : SecuritySession := default md (securitySessionFromValues "B" (login_values spec client "ref-2" "revision" 1500 ∅)).
(** A third one that was revoked long before. *)
Definition ended : SecuritySession := default md (securitySessionFromValues "D" (login_values spec client "ref-3" "revision" 900 ∅)).
Definition revoked_row : SecuritySession := revoke_row 950 "user_revoked" ended.
Definition three : SessionDB := set_security {[ "A" := metadata; "B" := other; "D" := revoked_row ]} db.

Lemma three_rows k r : sdSecurity three !! k = Some r -> (k = "A" /\ r = metadata) \/ (k = "B" /\ r = other) \/ (k = "D" /\ r = revoked_row).
Proof.
  cbn [three sdSecurity set_security]. intros [[<- <-]|[_ Hr]]%lookup_insert_Some; [by left|]. apply lookup_insert_Some in Hr as [[<- <-]|[_ Hr]]; [by right; left|].
  apply lookup_singleton_Some in Hr. destruct Hr as [<- <-]. by right; right.
Qed.

Lemma three_keyed : well_keyed three.
Proof.
  split.
  - intros k r [[-> ->]|[[-> ->]|[-> ->]]]%three_rows; vm_compute; reflexivity.
  - intros k k' r r' [[-> ->]|[[-> ->]|[-> ->]]]%three_rows [[-> ->]|[[-> ->]|[-> ->]]]%three_rows E; try reflexivity; vm_compute in E; discriminate.
Qed.

(** Pages of one session each, a month after the revocation. *)
Definition first_page : Z := 950 + sessionHistoryRetention.

Lemma session_pages_complete_witness :
  exists sessions, browse decodeValues encodeValues "C" 1 "ref-1" 1 [first_page; first_page + 1; first_page + 2; first_page + 3] "" three = Some (item_of "ref-1" <$> sessions) /\ sessions ≡ₚ [metadata; other].
Proof.
  destruct (session_pages_complete decodeValues encodeValues "C" three 1 "ref-1" 1 first_page [first_page + 1; first_page + 2; first_page + 3]) as (sessions & H1 & H2 & _).
  - exact three_keyed.
  - intros r (_ & k & [[-> ->]|[[-> ->]|[-> ->]]]%three_rows)%owned_row; intros E; vm_compute in E; discriminate E.
  - vm_compute. discriminate.
  - intros t r Ht (k & Hr)%session_rows_elem. rewrite !elem_of_cons, elem_of_nil in Ht.
    destruct (three_rows k r Hr) as [[_ ->]|[[_ ->]|[_ ->]]]; destruct Ht as [->|[->|[->|[]]]]; vm_compute; intros E; exact E || discriminate E.
  - vm_compute. lia.
  - exists sessions. split; [exact H1|]. exact H2.
Defined.
End Console.
