(* ===== verification/RealtimeTokens.v ===== *)
(** * Websocket tokens ([api/realtime/tokens.go])

    A token opens one websocket.  The store keeps the digest of each token with the session
    it is bound to, at most [MaxTokens] of them, and drops the expired ones from a timer.
    A consumption compares the digest with every stored key in constant time and selects
    the match with masks instead of branches; it is shown to be a lookup that deletes.

    Times are nanoseconds since the Unix epoch; no sweep yet is the zero of Go.  Every
    function runs under the lock of the store, so concurrent calls are sequences. *)

From stdpp Require Import sorting.
From S2P Require Import Prelude GoStrings VersionPolicy Sessions.

Open Scope string_scope.
Open Scope list_scope.
Open Scope Z_scope.

Definition wsTokenSweepInterval : Z := minute.
Definition MaxTokens : Z := 4096.
Definition digestSize : Z := 32.

Record realtimeToken := mkToken { rtBinding : RealtimeSessionBinding; rtExpiresAt : Z }.

Definition noBinding : RealtimeSessionBinding := mkRealtimeBinding 0 "" "" "" 0 0.

Record wsTokens := mkTokens {
  wtTokens : gmap string realtimeToken;      (** by digest *)
  wtLastSweep : option Z;
  wtTimer : bool;                            (** a timer is set, of the present generation *)
  wtGeneration : Z
}.

Definition noTokens : wsTokens := mkTokens ∅ None false 0.

(** ** Constant time ([crypto/subtle]) *)
Definition byte_of (c : Ascii.ascii) : Z := Z.of_N (Ascii.N_of_ascii c).
Definition of_byte (z : Z) : Ascii.ascii := Ascii.ascii_of_N (Z.to_N z).

(** The disjunction of the differences of two strings of one length. *)
Fixpoint differences (x y : string) : Z :=
  match x, y with
  | String c x', String d y' => Z.lor (Z.lxor (byte_of c) (byte_of d)) (differences x' y')
  | _, _ => 0
  end.

Definition ConstantTimeCompare (x y : string) : Z :=
  if negb (slen x =? slen y) then 0 else if differences x y =? 0 then 1 else 0.

(** [^(v-1)&x | (v-1)&y] *)
Definition ConstantTimeSelect (v x y : Z) : Z := Z.lor (Z.land (Z.lnot (v - 1)) x) (Z.land (v - 1) y).

Definition byte_mask (z : Z) : Z := z mod 256.

(** [x[i] = x[i]&xmask | y[i]&ymask] *)
Fixpoint ConstantTimeCopy (v : Z) (x y : string) : string :=
  match x, y with
  | String c x', String d y' =>
      String (of_byte (Z.lor (Z.land (byte_of c) (byte_mask (v - 1))) (Z.land (byte_of d) (byte_mask (Z.lnot (v - 1)))))) (ConstantTimeCopy v x' y')
  | _, _ => x
  end.

Definition constantTimeSelectInt64 (v x y : Z) : Z := let mask := - v in Z.lor (Z.land x mask) (Z.ldiff y mask).

(** ** Operations *)
Section Tokens.
(** SHA-256 *)
Context (sha256 : string -> string).

Definition wsTokenDigest (token : string) : string := sha256 token.

Definition key_order (x y : string) : Prop := Compare x y <= 0.
#[global] Instance key_order_dec x y : Decision (key_order x y) := ltac:(unfold key_order; apply _).

Record scan := mkScan { scMatched : Z; scMatchedKey : string; scMatchedExpiresAtUnixNano : Z; scMatchedUserIndex : Z }.

Fixpoint zeros (n : nat) : string := match n with O => "" | S n' => String (Ascii.ascii_of_nat 0) (zeros n') end.

(** The value of [matchedKey] before the loop. *)
Definition zero_key : string := zeros (Z.to_nat digestSize).

(** One iteration of the loop over the sorted keys. *)
Definition scan_key (tokens : gmap string realtimeToken) (candidate : string) (s : scan) (ik : nat * string) : scan :=
  let '(i, key) := ik in
  let data := default (mkToken noBinding 0) (tokens !! key) in
  let eq := ConstantTimeCompare candidate key in
  mkScan (ConstantTimeSelect eq 1 (scMatched s)) (ConstantTimeCopy eq (scMatchedKey s) key)
    (constantTimeSelectInt64 eq (rtExpiresAt data) (scMatchedExpiresAtUnixNano s)) (ConstantTimeSelect eq (Z.of_nat i + 1) (scMatchedUserIndex s)).

Definition sorted_keys (tokens : gmap string realtimeToken) : list string := merge_sort key_order (map_to_list tokens).*1.

Definition consumeBoundWSToken (token : string) (now : Z) (st : wsTokens) : wsTokens * option RealtimeSessionBinding :=
  if String.eqb token "" then (st, None)
  else
    let candidate := wsTokenDigest token in
    let keys := sorted_keys (wtTokens st) in
    let bindings := (fun key => rtBinding (default (mkToken noBinding 0) (wtTokens st !! key))) <$> keys in
    let s := foldl (scan_key (wtTokens st) candidate) (mkScan 0 zero_key 0 0) (zip (seq 0 (length keys)) keys) in
    let st := mkTokens (delete (scMatchedKey s) (wtTokens st)) (wtLastSweep st) (wtTimer st) (wtGeneration st) in
    if negb (scMatched s =? 1) || negb (now <? scMatchedExpiresAtUnixNano s) then (st, None)
    else (st, bindings !! Z.to_nat (scMatchedUserIndex s - 1)).

(** Which tokens go first when there are too many: those that expire first. *)
Definition expiry_order (x y : string * realtimeToken) : Prop :=
  rtExpiresAt x.2 < rtExpiresAt y.2 \/ (rtExpiresAt x.2 = rtExpiresAt y.2 /\ Compare x.1 y.1 <= 0).
#[global] Instance expiry_order_dec x y : Decision (expiry_order x y) := ltac:(unfold expiry_order; apply _).

Definition enforceWSTokenCapLocked (tokens : gmap string realtimeToken) : gmap string realtimeToken :=
  let overflow := Z.of_nat (size tokens) - MaxTokens in
  if overflow <=? 0 then tokens
  else foldl (fun acc kv => delete kv.1 acc) tokens (take (Z.to_nat overflow) (merge_sort expiry_order (map_to_list tokens))).

Definition sweepWSTokensLocked (now : Z) (st : wsTokens) : wsTokens :=
  mkTokens (enforceWSTokenCapLocked (filter (fun kv => (now <? rtExpiresAt kv.2) = true) (wtTokens st))) (Some now) (wtTimer st) (wtGeneration st).

Definition maybeSweepWSTokensLocked (now : Z) (st : wsTokens) : wsTokens :=
  match wtLastSweep st with
  | None => sweepWSTokensLocked now st
  | Some last => if wsTokenSweepInterval <? time_sub now last then sweepWSTokensLocked now st else st
  end.

Definition scheduleWSTokenSweepLocked (st : wsTokens) : wsTokens :=
  if Nat.eqb (size (wtTokens st)) 0 || wtTimer st then st else mkTokens (wtTokens st) (wtLastSweep st) true (wtGeneration st).

Definition StoreBoundToken (token : string) (binding : RealtimeSessionBinding) (expiresAt now : Z) (st : wsTokens) : wsTokens :=
  let st := maybeSweepWSTokensLocked now st in
  let tokens := enforceWSTokenCapLocked (<[wsTokenDigest token := mkToken binding expiresAt]> (wtTokens st)) in
  scheduleWSTokenSweepLocked (mkTokens tokens (wtLastSweep st) (wtTimer st) (wtGeneration st)).

(** The timer of a generation fires; one of an earlier generation was stopped too late. *)
Definition runWSTokenSweep (generation now : Z) (st : wsTokens) : wsTokens :=
  if negb (generation =? wtGeneration st) then st
  else scheduleWSTokenSweepLocked (sweepWSTokensLocked now (mkTokens (wtTokens st) (wtLastSweep st) false (wtGeneration st))).

Definition sweepAllWSTokens (st : wsTokens) : wsTokens * Z := (mkTokens ∅ None false (wrapu64 (wtGeneration st + 1)), Z.of_nat (size (wtTokens st))).

Definition SweepExpired (now : Z) (st : wsTokens) : wsTokens := sweepWSTokensLocked now st.
Definition TokenCount (st : wsTokens) : Z := Z.of_nat (size (wtTokens st)).
Definition HasToken (token : string) (st : wsTokens) : bool := bool_decide (is_Some (wtTokens st !! wsTokenDigest token)).
End Tokens.

(** ** Constant time is a lookup *)
Lemma byte_of_inj c d : byte_of c = byte_of d -> c = d.
Proof. unfold byte_of. intros E%N2Z.inj. apply (f_equal Ascii.ascii_of_N) in E. by rewrite !Ascii.ascii_N_embedding in E. Qed.

Lemma byte_of_range c : 0 <= byte_of c < 256.
Proof. unfold byte_of. pose proof (Ascii.N_ascii_bounded c). lia. Qed.

Lemma of_byte_of c : of_byte (byte_of c) = c.
Proof. unfold of_byte, byte_of. rewrite N2Z.id. apply Ascii.ascii_N_embedding. Qed.

Lemma byte_land_255 c : Z.land (byte_of c) 255 = byte_of c.
Proof. change 255 with (Z.ones 8). rewrite Z.land_ones by lia. apply Z.mod_small, byte_of_range. Qed.

Lemma differences_spec x y : slen x = slen y -> differences x y = 0 <-> x = y.
Proof.
  revert y. induction x as [|c x IH]; intros [|d y]; unfold slen in *; simpl; try done. intros Hl. rewrite Z.lor_eq_0_iff, Z.lxor_eq_0_iff.
  rewrite IH by lia. split; [intros [->%byte_of_inj ->]; done|intros [= -> ->]; done].
Qed.

Lemma ConstantTimeCompare_spec x y : slen x = slen y -> ConstantTimeCompare x y = if String.eqb x y then 1 else 0.
Proof.
  intros Hl. unfold ConstantTimeCompare. rewrite Hl, Z.eqb_refl. simpl. destruct (String.eqb_spec x y) as [->|Hn].
  - by rewrite (proj2 (differences_spec y y eq_refl) eq_refl).
  - destruct (Z.eqb_spec (differences x y) 0) as [E|_]; [|done]. by apply differences_spec in E.
Qed.

Lemma ConstantTimeSelect_spec (b : bool) x y : ConstantTimeSelect (if b then 1 else 0) x y = if b then x else y.
Proof.
  unfold ConstantTimeSelect. destruct b; simpl.
  - by rewrite Z.lor_0_r, Z.land_m1_l.
  - change (Z.lnot (-1)) with 0. by rewrite Z.land_0_l, Z.lor_0_l, Z.land_m1_l.
Qed.

Lemma constantTimeSelectInt64_spec (b : bool) x y : constantTimeSelectInt64 (if b then 1 else 0) x y = if b then x else y.
Proof.
  unfold constantTimeSelectInt64. destruct b; simpl.
  - by rewrite Z.land_m1_r, Z.ldiff_m1_r, Z.lor_0_r.
  - by rewrite Z.land_0_r, Z.ldiff_0_r, Z.lor_0_l.
Qed.

Lemma ConstantTimeCopy_spec (b : bool) x y : slen x = slen y -> ConstantTimeCopy (if b then 1 else 0) x y = if b then y else x.
Proof.
  revert y. induction x as [|c x IH]; intros [|d y] Hl; unfold slen in *; simpl in *; try lia; [by destruct b|]. rewrite IH by lia.
  destruct b; cbn -[Z.land Z.lor byte_of of_byte]; change (byte_mask 0) with 0; change (byte_mask (-1)) with 255; change (byte_mask (Z.lnot 0)) with 255; change (byte_mask (Z.lnot (-1))) with 0;
    by rewrite ?Z.land_0_r, ?Z.lor_0_l, ?Z.lor_0_r, byte_land_255, of_byte_of.
Qed.

(** What the consumption of a token is: a lookup by digest, which deletes.  The key of an
    absent token is the one the loop leaves in [matchedKey]. *)
Definition consume_lookup (sha256 : string -> string) (token : string) (now : Z) (st : wsTokens) : wsTokens * option RealtimeSessionBinding :=
  let without key := mkTokens (delete key (wtTokens st)) (wtLastSweep st) (wtTimer st) (wtGeneration st) in
  if String.eqb token "" then (st, None)
  else match wtTokens st !! wsTokenDigest sha256 token with
       | Some t => (without (wsTokenDigest sha256 token), if now <? rtExpiresAt t then Some (rtBinding t) else None)
       | None => (without zero_key, None)
       end.

(** Keys are digests. *)
Definition keys_ok (tokens : gmap string realtimeToken) : Prop := forall key, is_Some (tokens !! key) -> slen key = digestSize.

#[local] Arguments scan_key : simpl never.

Section Consume.
Context (tokens : gmap string realtimeToken) (candidate : string) (Hc : slen candidate = digestSize).

Lemma scan_other s i key : slen (scMatchedKey s) = digestSize -> slen key = digestSize -> key <> candidate -> scan_key tokens candidate s (i, key) = s.
Proof.
  intros Hs Hk Hn. unfold scan_key. rewrite ConstantTimeCompare_spec by congruence. apply String.eqb_neq in Hn. rewrite String.eqb_sym, Hn.
  rewrite !(ConstantTimeSelect_spec false), (constantTimeSelectInt64_spec false), (ConstantTimeCopy_spec false) by congruence. by destruct s.
Qed.

Lemma scan_match s i : slen (scMatchedKey s) = digestSize ->
  scan_key tokens candidate s (i, candidate) = mkScan 1 candidate (rtExpiresAt (default (mkToken noBinding 0) (tokens !! candidate))) (Z.of_nat i + 1).
Proof.
  intros Hs. unfold scan_key. rewrite ConstantTimeCompare_spec by done. rewrite String.eqb_refl.
  by rewrite !(ConstantTimeSelect_spec true), (constantTimeSelectInt64_spec true), (ConstantTimeCopy_spec true) by congruence.
Qed.

Lemma scan_absent l i s : (forall key, key ∈ l -> slen key = digestSize /\ key <> candidate) -> slen (scMatchedKey s) = digestSize ->
  foldl (scan_key tokens candidate) s (zip (seq i (length l)) l) = s.
Proof.
  revert i. induction l as [|key l IH]; intros i Hl Hs; [done|]. simpl. destruct (Hl key) as [Hk Hn]; [apply elem_of_cons; by left|].
  rewrite scan_other by done. apply IH; [|done]. intros k Hk'. apply Hl. apply elem_of_cons. by right.
Qed.

Lemma scan_present l j i s : NoDup l -> (forall key, key ∈ l -> slen key = digestSize) -> l !! j = Some candidate -> slen (scMatchedKey s) = digestSize ->
  foldl (scan_key tokens candidate) s (zip (seq i (length l)) l) =
  mkScan 1 candidate (rtExpiresAt (default (mkToken noBinding 0) (tokens !! candidate))) (Z.of_nat (i + j) + 1).
Proof.
  revert j i s. induction l as [|key l IH]; intros j i s Hn Hl Hj Hs; [done|]. apply NoDup_cons in Hn as [Hnk Hn]. simpl. destruct j as [|j]; simpl in Hj.
  - injection Hj as ->. rewrite scan_match by done. rewrite scan_absent; [by rewrite Nat.add_0_r| |done].
    intros k Hk. split; [apply Hl; apply elem_of_cons; by right|]. intros ->. done.
  - assert (Hk : key <> candidate) by (intros ->; apply Hnk; by eapply list_elem_of_lookup_2).
    rewrite scan_other; [|done|apply Hl; apply elem_of_cons; by left|done]. rewrite (IH j); [|done| |done|done]; [by replace (S i + j)%nat with (i + S j)%nat by lia|].
    intros k Hk'. apply Hl. apply elem_of_cons. by right.
Qed.
End Consume.

Lemma sorted_keys_elem tokens key : key ∈ sorted_keys tokens <-> is_Some (tokens !! key).
Proof.
  unfold sorted_keys. rewrite merge_sort_Permutation, list_elem_of_fmap. split.
  - intros ([k t] & -> & Hk). apply elem_of_map_to_list in Hk. simpl. eauto.
  - intros [t Ht]. exists (key, t). split; [done|]. by apply elem_of_map_to_list.
Qed.

Lemma sorted_keys_NoDup tokens : NoDup (sorted_keys tokens).
Proof. unfold sorted_keys. rewrite merge_sort_Permutation. apply NoDup_fst_map_to_list. Qed.

(** the constant-time consumption of a websocket token is a lookup.  The loop over all
    keys with masked selections finds the token with the digest of the candidate, deletes it
    and answers its binding exactly when it has not expired, as a lookup by digest would. *)
Theorem constant_time_consume_is_lookup sha256 token now st :
  (forall s, slen (sha256 s) = digestSize) -> keys_ok (wtTokens st) ->
  consumeBoundWSToken sha256 token now st = consume_lookup sha256 token now st.
Proof.
  intros Hd Hk. unfold consumeBoundWSToken, consume_lookup. destruct (String.eqb token ""); [done|]. cbv zeta. set (keys := sorted_keys (wtTokens st)).
  assert (Hl : forall key, key ∈ keys -> slen key = digestSize) by (intros key Hkey; by apply Hk, sorted_keys_elem).
  destruct (wtTokens st !! wsTokenDigest sha256 token) as [t|] eqn:Et.
  - assert (Hin : wsTokenDigest sha256 token ∈ keys) by (apply sorted_keys_elem; eauto). apply list_elem_of_lookup_1 in Hin as [j Hj].
    rewrite (scan_present (wtTokens st) (wsTokenDigest sha256 token) (Hd token) keys j); [|apply sorted_keys_NoDup|done|done|done]. cbn [scMatched scMatchedKey scMatchedExpiresAtUnixNano scMatchedUserIndex].
    rewrite Et. simpl. destruct (now <? rtExpiresAt t); [|done]. simpl. replace (Z.to_nat (Z.of_nat j + 1 - 1)) with j by lia. rewrite list_lookup_fmap, Hj. simpl. by rewrite Et.
  - rewrite (scan_absent (wtTokens st) (wsTokenDigest sha256 token) (Hd token)); [done| |done]. intros key Hkey. split; [by apply Hl|]. intros ->. apply sorted_keys_elem in Hkey as [t Ht]. congruence.
Qed.

(** ** Histories
    The store against an abstract one that has no limit and keeps every token until it is
    consumed or the store is reset. *)
Inductive tokenOp :=
| OpStore (token : string) (binding : RealtimeSessionBinding) (expiresAt now : Z)
| OpConsume (token : string) (now : Z)
| OpSweepExpired (now : Z)
| OpTimer (generation now : Z)
| OpReset.

Section Histories.
Context (sha256 : string -> string) (Hdigest : forall s, slen (sha256 s) = digestSize).

Definition token_step (op : tokenOp) (st : wsTokens) : wsTokens * option RealtimeSessionBinding :=
  match op with
  | OpStore token binding expiresAt now => (StoreBoundToken sha256 token binding expiresAt now st, None)
  | OpConsume token now => consumeBoundWSToken sha256 token now st
  | OpSweepExpired now => (SweepExpired now st, None)
  | OpTimer generation now => (runWSTokenSweep generation now st, None)
  | OpReset => ((sweepAllWSTokens st).1, None)
  end.

Fixpoint token_run (ops : list tokenOp) (st : wsTokens) : wsTokens * list (option RealtimeSessionBinding) :=
  match ops with
  | [] => (st, [])
  | op :: ops' => let r := token_step op st in let s := token_run ops' r.1 in (s.1, r.2 :: s.2)
  end.

Definition single_use_step (op : tokenOp) (m : gmap string realtimeToken) : gmap string realtimeToken * option RealtimeSessionBinding :=
  match op with
  | OpStore token binding expiresAt _ => (<[sha256 token := mkToken binding expiresAt]> m, None)
  | OpConsume token now =>
      if String.eqb token "" then (m, None)
      else (delete (sha256 token) m, t ← m !! sha256 token; if now <? rtExpiresAt t then Some (rtBinding t) else None)
  | OpReset => (∅, None)
  | _ => (m, None)
  end.

Fixpoint single_use_run (ops : list tokenOp) (m : gmap string realtimeToken) : list (option RealtimeSessionBinding) :=
  match ops with
  | [] => []
  | op :: ops' => let r := single_use_step op m in r.2 :: single_use_run ops' r.1
  end.

(** The store is a part of the abstract one, within its limit, and a timer watches it. *)
Record refines (st : wsTokens) (m : gmap string realtimeToken) : Prop := mkRefines {
  rf_sub : wtTokens st ⊆ m;
  rf_size : Z.of_nat (size (wtTokens st)) <= MaxTokens;
  rf_keys : keys_ok (wtTokens st);
  rf_timer : wtTokens st <> ∅ -> wtTimer st = true
}.

Lemma keys_ok_sub tokens tokens' : tokens' ⊆ tokens -> keys_ok tokens -> keys_ok tokens'.
Proof. intros Hs Hk key [t Ht]. apply Hk. exists t. by eapply lookup_weaken. Qed.

Lemma foldl_delete_sub {A} (l : list (string * A)) (m : gmap string A) : foldl (fun acc kv => delete kv.1 acc) m l ⊆ m.
Proof. revert m. induction l as [|[k a] l IH]; intros m; simpl; [done|]. etrans; [apply IH|]. apply delete_subseteq. Qed.

Lemma foldl_delete_size {A} (l : list (string * A)) (m : gmap string A) : NoDup l.*1 -> (forall k a, (k, a) ∈ l -> m !! k = Some a) ->
  size (foldl (fun acc kv => delete kv.1 acc) m l) = (size m - length l)%nat.
Proof.
  revert m. induction l as [|[k a] l IH]; intros m Hn Hl; simpl; [lia|]. rewrite fmap_cons, NoDup_cons in Hn. destruct Hn as [Hk Hn]. rewrite IH; [|done|].
  - rewrite (map_size_delete_Some k m); [lia|]. exists a. apply Hl. apply elem_of_cons. by left.
  - intros k' a' Hin. rewrite lookup_delete_ne; [apply Hl; apply elem_of_cons; by right|]. intros <-. apply Hk. apply list_elem_of_fmap. by exists (k, a').
Qed.

Lemma cap_sub tokens : enforceWSTokenCapLocked tokens ⊆ tokens.
Proof. unfold enforceWSTokenCapLocked. destruct (_ <=? 0); [done|]. apply foldl_delete_sub. Qed.

Lemma cap_small tokens : Z.of_nat (size tokens) <= MaxTokens -> enforceWSTokenCapLocked tokens = tokens.
Proof. intros H. unfold enforceWSTokenCapLocked. by rewrite (proj2 (Z.leb_le _ _)) by lia. Qed.

Lemma cap_size tokens : Z.of_nat (size (enforceWSTokenCapLocked tokens)) <= MaxTokens.
Proof.
  unfold enforceWSTokenCapLocked. destruct (_ <=? 0) eqn:E; [apply Z.leb_le in E; lia|]. apply Z.leb_gt in E.
  set (l := merge_sort expiry_order (map_to_list tokens)). assert (Hp : l ≡ₚ map_to_list tokens) by apply merge_sort_Permutation.
  assert (Hn : NoDup l.*1) by (rewrite Hp; apply NoDup_fst_map_to_list).
  rewrite foldl_delete_size.
  - rewrite length_take, Hp, length_map_to_list. unfold MaxTokens in *. lia.
  - rewrite <- (take_drop (Z.to_nat (Z.of_nat (size tokens) - MaxTokens)) l), fmap_app in Hn. by apply NoDup_app in Hn as [Hn _].
  - intros k t Hk. apply elem_of_map_to_list. rewrite <- Hp. apply elem_of_take in Hk as (i & Hi & _). by eapply list_elem_of_lookup_2.
Qed.

Lemma refines_sweep now st m : refines st m -> refines (sweepWSTokensLocked now st) m.
Proof.
  intros [Hs Hz Hk Ht]. unfold sweepWSTokensLocked. set (kept := filter _ (wtTokens st)). assert (Hf : enforceWSTokenCapLocked kept ⊆ wtTokens st) by (etrans; [apply cap_sub|apply map_filter_subseteq]).
  constructor; simpl; [by etrans|apply cap_size|by eapply keys_ok_sub|]. intros Hn. apply Ht. intros E. apply Hn. apply map_eq. intros k. rewrite lookup_empty.
  destruct (_ !! k) as [t|] eqn:Hl; [|done]. apply (lookup_weaken _ _ _ _ Hl) in Hf. by rewrite E, lookup_empty in Hf.
Qed.

Lemma refines_maybe now st m : refines st m -> refines (maybeSweepWSTokensLocked now st) m.
Proof. intros Hr. unfold maybeSweepWSTokensLocked. destruct (wtLastSweep st); [destruct (_ <? _); [|done]|]; by apply refines_sweep. Qed.

(** The timer is set unless there is nothing to watch. *)
Lemma refines_schedule st m : wtTokens st ⊆ m -> Z.of_nat (size (wtTokens st)) <= MaxTokens -> keys_ok (wtTokens st) -> refines (scheduleWSTokenSweepLocked st) m.
Proof.
  intros Hs Hz Hk. unfold scheduleWSTokenSweepLocked. destruct (Nat.eqb _ 0) eqn:E0; simpl.
  - apply Nat.eqb_eq, map_size_empty_iff in E0. by constructor.
  - destruct (wtTimer st) eqn:Et; by constructor.
Qed.

Lemma refines_delete st m key m' : refines st m -> delete key m ⊆ m' -> refines (mkTokens (delete key (wtTokens st)) (wtLastSweep st) (wtTimer st) (wtGeneration st)) m'.
Proof.
  intros [Hs Hz Hk Ht] Hm. constructor; simpl.
  - etrans; [|exact Hm]. by apply delete_mono.
  - rewrite map_size_delete. destruct (wtTokens st !! key); simpl; lia.
  - eapply keys_ok_sub; [apply delete_subseteq|done].
  - intros Hn. apply Ht. intros E. apply Hn. by rewrite E, delete_empty.
Qed.

Lemma token_step_refines op st m : refines st m ->
  refines (token_step op st).1 (single_use_step op m).1 /\ ((token_step op st).2 = None \/ (token_step op st).2 = (single_use_step op m).2).
Proof.
  intros Hr. destruct op as [token binding expiresAt now|token now|now|generation now|]; cbn [token_step single_use_step fst snd].
  - split; [|by left]. unfold StoreBoundToken. destruct (refines_maybe now st m Hr) as [Hs Hz Hk Ht]. apply refines_schedule; simpl; [|apply cap_size|].
    + etrans; [apply cap_sub|]. by apply insert_mono.
    + eapply keys_ok_sub; [apply cap_sub|]. intros key [t Hl]. apply lookup_insert_Some in Hl as [[<- _]|[_ Hl]]; [apply Hdigest|]. apply Hk. eauto.
  - rewrite (constant_time_consume_is_lookup sha256 token now st Hdigest (rf_keys _ _ Hr)). unfold consume_lookup, wsTokenDigest. destruct (String.eqb token ""); [by split; [|left]|].
    destruct (wtTokens st !! sha256 token) as [t|] eqn:Et; cbn [fst snd].
    + split; [by apply (refines_delete st m)|]. right. by rewrite (lookup_weaken _ _ _ _ Et (rf_sub _ _ Hr)).
    + split; [|by left]. destruct (refines_delete st m zero_key (delete zero_key m) Hr) as [Hs Hz Hk Ht]; [done|]. constructor; [|done..]. simpl in *.
      apply map_subseteq_spec. intros k t Hl. apply lookup_delete_Some in Hl as [Hne Hl]. rewrite lookup_delete_ne; [by eapply lookup_weaken, rf_sub|]. intros <-. congruence.
  - split; [by apply refines_sweep|by left].
  - split; [|by left]. unfold runWSTokenSweep. destruct (negb _); [done|].
    assert (Hr' : refines (sweepWSTokensLocked now st) m) by by apply refines_sweep. destruct Hr' as [Hs Hz Hk _]. by apply refines_schedule.
  - split; [|by left]. constructor; simpl; [done|done|by intros key [? ?%lookup_empty_Some]|done].
Qed.

(** The clock does not go back. *)
Fixpoint in_order (last : Z) (ops : list tokenOp) : Prop :=
  match ops with
  | [] => True
  | (OpStore _ _ _ now | OpConsume _ now | OpSweepExpired now | OpTimer _ now) :: ops' => last <= now /\ in_order now ops'
  | OpReset :: ops' => in_order last ops'
  end.

Definition stores (ops : list tokenOp) : nat := length (List.filter (fun op => match op with OpStore _ _ _ _ => true | _ => false end) ops).

(** Only expired tokens are missing. *)
Record exact (last : Z) (st : wsTokens) (m : gmap string realtimeToken) : Prop := mkExact {
  ex_refines : refines st m;
  ex_kept : forall key t, m !! key = Some t -> wtTokens st !! key = Some t \/ rtExpiresAt t <= last;
  ex_zero : m !! zero_key = None
}.

Lemma exact_later last now st m : last <= now -> exact last st m -> exact now st m.
Proof. intros Hl [Hr Hk Hz]. constructor; [done| |done]. intros key t Ht. destruct (Hk key t Ht); [by left|right; lia]. Qed.

Lemma exact_sweep now st m : Z.of_nat (size m) <= MaxTokens -> exact now st m -> exact now (sweepWSTokensLocked now st) m.
Proof.
  intros Hm [Hr Hk Hz]. constructor; [by apply refines_sweep| |done]. intros key t Ht. unfold sweepWSTokensLocked. cbn [wtTokens].
  rewrite cap_small.
  2: { etrans; [|exact Hm]. apply Nat2Z.inj_le, map_subseteq_size. etrans; [apply map_filter_subseteq|apply rf_sub, Hr]. }
  destruct (Z.lt_ge_cases now (rtExpiresAt t)) as [Hlt|?]; [|by right]. left. destruct (Hk key t Ht) as [Hl|?]; [|lia]. apply map_lookup_filter_Some. split; [done|]. by apply Z.ltb_lt.
Qed.

Lemma exact_maybe now st m : Z.of_nat (size m) <= MaxTokens -> exact now st m -> exact now (maybeSweepWSTokensLocked now st) m.
Proof. intros Hm He. unfold maybeSweepWSTokensLocked. destruct (wtLastSweep st); [destruct (_ <? _); [|done]|]; by apply exact_sweep. Qed.

Lemma schedule_tokens st : wtTokens (scheduleWSTokenSweepLocked st) = wtTokens st.
Proof. unfold scheduleWSTokenSweepLocked. by destruct (_ || _). Qed.

Section Exact.
Context (Hzero : forall s, sha256 s <> zero_key).

Lemma exact_store token binding expiresAt now st m : Z.of_nat (size m) < MaxTokens -> exact now st m ->
  exact now (StoreBoundToken sha256 token binding expiresAt now st) (<[sha256 token := mkToken binding expiresAt]> m).
Proof.
  intros Hm He. constructor; [apply (token_step_refines (OpStore token binding expiresAt now) st m), He| |].
  - intros key t Ht. destruct (exact_maybe now st m ltac:(lia) He) as [Hr Hk _]. unfold StoreBoundToken. rewrite schedule_tokens. cbn [wtTokens]. rewrite cap_small.
    + unfold wsTokenDigest. apply lookup_insert_Some in Ht as [[<- <-]|[Hne Ht]]; [left; apply lookup_insert_eq|]. rewrite lookup_insert_ne by done. by apply Hk.
    + etrans; [apply Nat2Z.inj_le, map_subseteq_size, insert_mono, Hr|]. rewrite map_size_insert. destruct (m !! _); simpl; lia.
  - rewrite lookup_insert_ne by apply Hzero. by destruct He.
Qed.

Lemma exact_consume token now st m : exact now st m ->
  exact now (consumeBoundWSToken sha256 token now st).1 (single_use_step (OpConsume token now) m).1 /\
  (consumeBoundWSToken sha256 token now st).2 = (single_use_step (OpConsume token now) m).2.
Proof.
  intros [Hr Hk Hz]. destruct (token_step_refines (OpConsume token now) st m Hr) as [Hr' _]. cbn [token_step single_use_step] in *. revert Hr'.
  rewrite (constant_time_consume_is_lookup sha256 token now st Hdigest (rf_keys _ _ Hr)). unfold consume_lookup, wsTokenDigest. destruct (String.eqb token ""); [by split|].
  intros Hr'. assert (Hz' : delete (sha256 token) m !! zero_key = None) by (apply lookup_delete_None; by right).
  destruct (wtTokens st !! sha256 token) as [t|] eqn:Et; cbn [fst snd] in *.
  - split; [|by rewrite (lookup_weaken _ _ _ _ Et (rf_sub _ _ Hr))]. constructor; [done| |done]. intros key t' Ht. apply lookup_delete_Some in Ht as [Hne Ht].
    cbn [wtTokens]. rewrite lookup_delete_ne by done. by apply Hk.
  - split.
    + constructor; [done| |done]. intros key t' Ht. apply lookup_delete_Some in Ht as [Hne Ht]. cbn [wtTokens]. rewrite lookup_delete_ne by (intros <-; congruence). by apply Hk.
    + destruct (m !! sha256 token) as [t|] eqn:Em; [|done]. destruct (Hk _ _ Em) as [?|Hx]; [congruence|]. simpl. by rewrite (proj2 (Z.ltb_ge _ _) Hx).
Qed.

Lemma single_use_size op m : (size (single_use_step op m).1 <= size m + (match op with OpStore _ _ _ _ => 1 | _ => 0 end))%nat.
Proof.
  destruct op; cbn [single_use_step fst]; try lia.
  - rewrite map_size_insert. destruct (m !! _); simpl; lia.
  - destruct (String.eqb _ _); cbn [fst]; [lia|]. rewrite map_size_delete. destruct (m !! _); simpl; lia.
  - rewrite map_size_empty. lia.
Qed.

Lemma exact_run ops last st m : exact last st m -> in_order last ops -> Z.of_nat (size m + stores ops) <= MaxTokens -> (token_run ops st).2 = single_use_run ops m.
Proof.
  revert last st m. induction ops as [|op ops IH]; intros last st m He Ho Hn; [done|]. cbn [token_run single_use_run snd].
  pose proof (single_use_size op m) as Hsz. assert (Hn' : Z.of_nat (size (single_use_step op m).1 + stores ops) <= MaxTokens) by (destruct op; unfold stores in *; cbn in *; lia).
  assert (Hs : (token_step op st).2 = (single_use_step op m).2 /\ exists last', exact last' (token_step op st).1 (single_use_step op m).1 /\ in_order last' ops).
  { destruct op as [token binding expiresAt now|token now|now|generation now|]; cbn [in_order] in Ho; try destruct Ho as [Hl Ho]; try apply (exact_later _ now _ _ Hl) in He; cbn [token_step single_use_step fst snd].
    - split; [done|]. exists now. split; [|done]. apply exact_store; [|done]. unfold stores in Hn. cbn in Hn. lia.
    - destruct (exact_consume token now st m He) as [H1 H2]. eauto.
    - split; [done|]. exists now. split; [|done]. apply exact_sweep; [lia|done].
    - split; [done|]. exists now. split; [|done]. constructor; [apply (token_step_refines (OpTimer generation now) st m), He| |by destruct He].
      unfold runWSTokenSweep. destruct (negb _); [by destruct He|]. rewrite schedule_tokens. apply (exact_sweep now st m); [lia|done].
    - split; [done|]. exists last. split; [|done]. constructor; [apply (token_step_refines OpReset st m), He|by intros key t ?%lookup_empty_Some|done]. }
  destruct Hs as [-> (last' & He' & Ho')]. f_equal. by apply (IH last').
Qed.
End Exact.

Lemma token_run_refines ops st m : refines st m ->
  Forall2 (fun a s => a = None \/ a = s) (token_run ops st).2 (single_use_run ops m) /\ exists m', refines (token_run ops st).1 m'.
Proof.
  revert st m. induction ops as [|op ops IH]; intros st m Hr; cbn [token_run single_use_run fst snd]; [split; [constructor|eauto]|].
  destruct (token_step_refines op st m Hr) as [Hr' Ha]. destruct (IH _ _ Hr') as [H1 H2]. split; [by constructor|done].
Qed.

(** C10: websocket tokens are good once.  In every history of stored and consumed tokens,
    sweeps, timers and resets, the store answers a consumption only as an abstract store
    does that keeps each token until its first consumption or a reset; it holds at most
    [MaxTokens] tokens, and while it holds any a timer is set that sweeps it.  With a
    clock that does not go back, at most [MaxTokens] stored tokens and no token whose
    digest is zero, the answers are exactly those of the abstract store. *)
Theorem ws_tokens_single_use ops :
  let r := token_run ops noTokens in
  Forall2 (fun a s => a = None \/ a = s) r.2 (single_use_run ops ∅) /\
  TokenCount r.1 <= MaxTokens /\ (wtTokens r.1 <> ∅ -> wtTimer r.1 = true) /\
  ((forall s, sha256 s <> zero_key) -> (exists first, in_order first ops) -> Z.of_nat (stores ops) <= MaxTokens -> r.2 = single_use_run ops ∅).
Proof.
  assert (Hr : refines noTokens ∅) by (constructor; simpl; [done|done|by intros key [? ?%lookup_empty_Some]|done]).
  destruct (token_run_refines ops noTokens ∅ Hr) as [H1 [m' [_ H2 _ H3]]]. split_and!; [done|done|done|].
  intros Hzero [first Ho] Hn. apply (exact_run Hzero ops first); [|done|by rewrite map_size_empty]. constructor; [done|by intros key t ?%lookup_empty_Some|done].
Qed.
End Histories.

(** ** A store of two tokens *)
Module Demo.
Fixpoint pad (n : nat) (s : string) : string :=
  match n with
  | O => ""
  | S n' => match s with "" => String (Ascii.ascii_of_nat 46) (pad n' "") | String c s' => String c (pad n' s') end
  end.

Definition digest (s : string) : string := String (Ascii.ascii_of_nat 104) (pad 31 s).

Lemma pad_length n s : String.length (pad n s) = n.
Proof. revert s. induction n as [|n IH]; intros [|c s]; simpl; by rewrite ?IH. Qed.

Lemma digest_size s : slen (digest s) = digestSize.
Proof. unfold slen, digest. cbn [String.length]. by rewrite pad_length. Qed.

Definition binding (user : string) : RealtimeSessionBinding := mkRealtimeBinding 1 user "ref-1" "revision" 1 1.
Definition store : wsTokens := StoreBoundToken digest "b" (binding "bob") 200 1 (StoreBoundToken digest "a" (binding "alice") 100 0 noTokens).

Lemma constant_time_consume_is_lookup_witness :
  (consumeBoundWSToken digest "a" 50 store).2 = Some (binding "alice") /\ TokenCount (consumeBoundWSToken digest "a" 50 store).1 = 1.
Proof.
  rewrite (constant_time_consume_is_lookup digest "a" 50 store); [vm_compute; split; reflexivity|exact digest_size|].
  apply (rf_keys store (<[digest "b" := mkToken (binding "bob") 200]> (<[digest "a" := mkToken (binding "alice") 100]> ∅))).
  apply (token_step_refines digest digest_size (OpStore "b" (binding "bob") 200 1)). apply (token_step_refines digest digest_size (OpStore "a" (binding "alice") 100 0) noTokens ∅).
  constructor; simpl; [done|done|by intros key [? ?%lookup_empty_Some]|done].
Defined.

Definition history : list tokenOp :=
  [OpStore "a" (binding "alice") 100 0; OpStore "b" (binding "bob") 200 1; OpConsume "a" 50; OpConsume "a" 51; OpTimer 0 60; OpConsume "b" 200].

Lemma ws_tokens_single_use_witness : (token_run digest history noTokens).2 = [None; None; Some (binding "alice"); None; None; None].
Proof.
  destruct (ws_tokens_single_use digest digest_size history) as (_ & _ & _ & H). rewrite H.
  - vm_compute. reflexivity.
  - intros s E. discriminate E.
  - exists 0. cbn [in_order history]. lia.
  - vm_compute. discriminate.
Defined.
End Demo.
