(* ===== verification/RealtimeHub.v ===== *)
(** * The realtime hub ([realtime/hub.go], [realtime/event.go])

    The hub knows the websocket clients, counts the connections of each user and address,
    and sends events to the clients that may see them.  Clients and reservations are
    pointers; what a closure does once is a step that is possible once.  [Publish] takes
    its snapshot under the lock and then sends to one client after another, while other
    calls run; a client whose queue is full is dropped. *)

From S2P Require Import Prelude GoStrings.

Open Scope string_scope.
Open Scope list_scope.
Open Scope Z_scope.

Definition TopicOnlines : string := "onlines".
Definition TopicFailoverStatus : string := "failover_status".
Definition TopicSecurityEvent : string := "security_event".
Definition TopicComponentProgress : string := "component_progress".
Definition ScopeAdmin : string := "admin".
Definition ScopeRead : string := "read".

Definition topicAllowed (topic scope : string) : bool :=
  if String.eqb topic TopicSecurityEvent || String.eqb topic TopicComponentProgress then String.eqb scope ScopeAdmin else true.

Record client := mkClient { clUser : string; clIP : string; clSessionRef : string; clScope : string }.

Record hub := mkHub { hbClients : gmap Z client; hbByUser : gmap string Z; hbByIP : gmap string Z }.

Definition newHub : hub := mkHub ∅ ∅ ∅.

Definition counter (m : gmap string Z) (k : string) : Z := default 0 (m !! k).

(** ** Operations *)
Definition Reserve (user ip : string) (maxPerUser maxPerIP : Z) (h : hub) : hub * bool :=
  if (0 <? maxPerUser) && (maxPerUser <=? counter (hbByUser h) user) then (h, false)
  else if (0 <? maxPerIP) && (maxPerIP <=? counter (hbByIP h) ip) then (h, false)
  else (mkHub (hbClients h) (<[user := counter (hbByUser h) user + 1]> (hbByUser h)) (<[ip := counter (hbByIP h) ip + 1]> (hbByIP h)), true).

Definition decrement (k : string) (m : gmap string Z) : gmap string Z := if 0 <? counter m k then <[k := counter m k - 1]> m else m.

Definition release (user ip : string) (h : hub) : hub := mkHub (hbClients h) (decrement user (hbByUser h)) (decrement ip (hbByIP h)).

Definition set_clients (clients : gmap Z client) (h : hub) : hub := mkHub clients (hbByUser h) (hbByIP h).

Definition Register (p : Z) (c : client) (h : hub) : hub := set_clients (<[p := c]> (hbClients h)) h.

Definition unregister (p : Z) (h : hub) : hub := set_clients (delete p (hbClients h)) h.

(** The hub without the clients of the session, and who is told. *)
Definition CloseSession (sessionRef : string) (h : hub) : hub * list Z :=
  if String.eqb sessionRef "" then (h, [])
  else (set_clients (filter (fun kv => clSessionRef kv.2 <> sessionRef) (hbClients h)) h,
        (map_to_list (filter (fun kv => clSessionRef kv.2 = sessionRef) (hbClients h))).*1).

Definition CloseAll (h : hub) : hub * list Z := (set_clients ∅ h, (map_to_list (hbClients h)).*1).

Definition snapshot (topic : string) (h : hub) : list Z := (map_to_list (filter (fun kv => topicAllowed topic (clScope kv.2) = true) (hbClients h))).*1.

Definition drop (p : Z) (h : hub) : hub * bool := if bool_decide (is_Some (hbClients h !! p)) then (unregister p h, true) else (h, false).

(** ** Histories *)
Record world := mkWorld {
  hwHub : hub;
  hwRegistered : gmap Z client;                 (** every client so far *)
  hwReservations : gmap Z (string * string);    (** not released: user and address *)
  hwIssued : gset Z;                            (** every reservation so far *)
  hwPublishing : list (string * list Z);        (** topics under way and the clients still to serve *)
  hwDropped : list Z;                           (** calls of [onDrop] *)
  hwDelivered : list (Z * string)
}.

Definition start : world := mkWorld newHub ∅ ∅ ∅ [] [] [].

Definition with_hub (h : hub) (w : world) : world :=
  mkWorld h (hwRegistered w) (hwReservations w) (hwIssued w) (hwPublishing w) (hwDropped w) (hwDelivered w).
Definition dropping (h : hub) (l : list Z) (w : world) : world :=
  mkWorld h (hwRegistered w) (hwReservations w) (hwIssued w) (hwPublishing w) (hwDropped w ++ l) (hwDelivered w).

Section Histories.
Context (maxPerUser maxPerIP : Z).

Inductive step : world -> world -> Prop :=
| st_reserve w r user ip h : r ∉ hwIssued w -> Reserve user ip maxPerUser maxPerIP (hwHub w) = (h, true) ->
    step w (mkWorld h (hwRegistered w) (<[r := (user, ip)]> (hwReservations w)) ({[ r ]} ∪ hwIssued w) (hwPublishing w) (hwDropped w) (hwDelivered w))
| st_refused w user ip h : Reserve user ip maxPerUser maxPerIP (hwHub w) = (h, false) -> step w (with_hub h w)
| st_release w r user ip : hwReservations w !! r = Some (user, ip) ->
    step w (mkWorld (release user ip (hwHub w)) (hwRegistered w) (delete r (hwReservations w)) (hwIssued w) (hwPublishing w) (hwDropped w) (hwDelivered w))
| st_register w p c : hwRegistered w !! p = None ->
    step w (mkWorld (Register p c (hwHub w)) (<[p := c]> (hwRegistered w)) (hwReservations w) (hwIssued w) (hwPublishing w) (hwDropped w) (hwDelivered w))
| st_unregister w p : step w (with_hub (unregister p (hwHub w)) w)
| st_close_session w ref : step w (dropping (CloseSession ref (hwHub w)).1 (CloseSession ref (hwHub w)).2 w)
| st_close_all w : step w (dropping (CloseAll (hwHub w)).1 (CloseAll (hwHub w)).2 w)
| st_publish w topic :
    step w (mkWorld (hwHub w) (hwRegistered w) (hwReservations w) (hwIssued w) ((topic, snapshot topic (hwHub w)) :: hwPublishing w) (hwDropped w) (hwDelivered w))
| st_send w before topic p rest after : hwPublishing w = before ++ (topic, p :: rest) :: after ->
    step w (mkWorld (hwHub w) (hwRegistered w) (hwReservations w) (hwIssued w) (before ++ (topic, rest) :: after) (hwDropped w) (hwDelivered w ++ [(p, topic)]))
| st_slow w before topic p rest after h dropped : hwPublishing w = before ++ (topic, p :: rest) :: after -> drop p (hwHub w) = (h, dropped) ->
    step w (mkWorld h (hwRegistered w) (hwReservations w) (hwIssued w) (before ++ (topic, rest) :: after)
              (hwDropped w ++ (if (dropped : bool) then [p] else [])) (hwDelivered w)).

(** Reservations that count for a key. *)
Definition held (sel : string * string -> string) (k : string) (m : gmap Z (string * string)) : Z := Z.of_nat (size (filter (fun kv => sel kv.2 = k) m)).

Record sound (w : world) : Prop := mkSound {
  sd_user : forall u, counter (hbByUser (hwHub w)) u = held fst u (hwReservations w);
  sd_ip : forall i, counter (hbByIP (hwHub w)) i = held snd i (hwReservations w);
  sd_user_max : forall u, 0 < maxPerUser -> held fst u (hwReservations w) <= maxPerUser;
  sd_ip_max : forall i, 0 < maxPerIP -> held snd i (hwReservations w) <= maxPerIP;
  sd_issued : forall r, is_Some (hwReservations w !! r) -> r ∈ hwIssued w;
  sd_clients : hbClients (hwHub w) ⊆ hwRegistered w;
  sd_dropped : NoDup (hwDropped w);
  sd_gone : forall p, p ∈ hwDropped w -> hbClients (hwHub w) !! p = None /\ is_Some (hwRegistered w !! p);
  sd_publishing : forall topic l p, (topic, l) ∈ hwPublishing w -> p ∈ l -> exists c, hwRegistered w !! p = Some c /\ topicAllowed topic (clScope c) = true;
  sd_delivered : forall p topic, (p, topic) ∈ hwDelivered w -> exists c, hwRegistered w !! p = Some c /\ topicAllowed topic (clScope c) = true
}.

Lemma counter_insert m k z k' : counter (<[k := z]> m) k' = if decide (k = k') then z else counter m k'.
Proof. unfold counter. destruct (decide (k = k')) as [->|Hn]; [by rewrite lookup_insert_eq|by rewrite lookup_insert_ne]. Qed.

Lemma held_insert sel k m r x : m !! r = None -> held sel k (<[r := x]> m) = held sel k m + (if decide (sel x = k) then 1 else 0).
Proof.
  intros Hr. unfold held. destruct (decide (sel x = k)) as [Hk|Hk].
  - rewrite map_filter_insert_True by done. rewrite map_size_insert_None; [lia|]. apply map_lookup_filter_None. by left.
  - rewrite map_filter_insert_False by done. rewrite delete_id by done. lia.
Qed.

Lemma held_delete sel k m r x : m !! r = Some x -> held sel k (delete r m) = held sel k m - (if decide (sel x = k) then 1 else 0).
Proof.
  intros Hr. assert (E := held_insert sel k (delete r m) r x (lookup_delete_eq m r)). rewrite insert_delete_eq, (insert_id m r x Hr) in E. lia.
Qed.

Lemma held_nonneg sel k m : 0 <= held sel k m.
Proof. unfold held. lia. Qed.

Lemma decrement_counter k m k' : 0 < counter m k -> counter (decrement k m) k' = counter m k' - (if decide (k = k') then 1 else 0).
Proof.
  intros Hp. unfold decrement. rewrite (proj2 (Z.ltb_lt _ _) Hp), counter_insert. destruct (decide (k = k')) as [->|_]; lia.
Qed.

(** A reservation that is granted and one that is given back. *)
Lemma reserve_ok user ip h h' : Reserve user ip maxPerUser maxPerIP h = (h', true) ->
  hbClients h' = hbClients h /\ (forall u, counter (hbByUser h') u = counter (hbByUser h) u + (if decide (user = u) then 1 else 0)) /\
  (forall i, counter (hbByIP h') i = counter (hbByIP h) i + (if decide (ip = i) then 1 else 0)) /\
  (0 < maxPerUser -> counter (hbByUser h) user < maxPerUser) /\ (0 < maxPerIP -> counter (hbByIP h) ip < maxPerIP).
Proof.
  unfold Reserve. destruct ((0 <? maxPerUser) && _) eqn:Eu; [done|]. destruct ((0 <? maxPerIP) && _) eqn:Ei; [done|]. intros [= <-]. simpl. split_and!; [done| | | |].
  - intros u. rewrite counter_insert. destruct (decide (user = u)) as [->|_]; lia.
  - intros i. rewrite counter_insert. destruct (decide (ip = i)) as [->|_]; lia.
  - rewrite andb_false_iff, Z.ltb_ge, Z.leb_gt in Eu. lia.
  - rewrite andb_false_iff, Z.ltb_ge, Z.leb_gt in Ei. lia.
Qed.

Lemma close_session_spec ref h : hbClients (CloseSession ref h).1 ⊆ hbClients h /\ NoDup (CloseSession ref h).2 /\
  (forall p, p ∈ (CloseSession ref h).2 -> is_Some (hbClients h !! p) /\ hbClients (CloseSession ref h).1 !! p = None) /\
  hbByUser (CloseSession ref h).1 = hbByUser h /\ hbByIP (CloseSession ref h).1 = hbByIP h.
Proof.
  unfold CloseSession. destruct (String.eqb ref ""); [split_and!; try done; [constructor|by intros p ?%elem_of_nil]|]. cbn [fst snd hbClients set_clients hbByUser hbByIP].
  split_and!; [apply map_filter_subseteq|apply NoDup_fst_map_to_list| |done|done].
  intros p ([p' c] & -> & Hp)%list_elem_of_fmap. apply elem_of_map_to_list, map_lookup_filter_Some in Hp as [Hp Hc]. simpl in *. split; [eauto|].
  apply map_lookup_filter_None. right. intros c' Hc' Hne. simpl in Hne. congruence.
Qed.

Lemma snapshot_spec topic h p : p ∈ snapshot topic h -> exists c, hbClients h !! p = Some c /\ topicAllowed topic (clScope c) = true.
Proof. intros ([p' c] & -> & Hp)%list_elem_of_fmap. apply elem_of_map_to_list, map_lookup_filter_Some in Hp as [Hp Hc]. eauto. Qed.

(** The invariant when only the clients change, and some are told. *)
Lemma sound_clients w h l : sound w -> hbByUser h = hbByUser (hwHub w) -> hbByIP h = hbByIP (hwHub w) -> hbClients h ⊆ hbClients (hwHub w) -> NoDup l ->
  (forall p, p ∈ l -> is_Some (hbClients (hwHub w) !! p) /\ hbClients h !! p = None) -> sound (dropping h l w).
Proof.
  intros [Hu Hi Hum Him Hr Hc Hd Hg Hp Hl] Eu Ei Hs Hn Ht. constructor; cbn [dropping hwHub hwReservations hwIssued hwRegistered hwDropped hwPublishing hwDelivered]; try done.
  - by rewrite Eu.
  - by rewrite Ei.
  - by etrans.
  - apply NoDup_app. split_and!; [done| |done]. intros p Hp1 Hp2. destruct (Ht p Hp2) as [[c Hx] _]. destruct (Hg p Hp1) as [Hy _]. congruence.
  - intros p [Hp1|Hp2]%elem_of_app.
    + destruct (Hg p Hp1) as [Hy Hz]. split; [|done]. destruct (hbClients h !! p) as [c|] eqn:E; [|done]. apply (lookup_weaken _ _ _ _ E) in Hs. congruence.
    + destruct (Ht p Hp2) as [[c Hx] Hy]. split; [done|]. exists c. by eapply lookup_weaken.
Qed.


Lemma sound_start : sound start.
Proof.
  assert (Hh : forall sel k, held sel k ∅ = 0) by (intros sel k; unfold held; by rewrite map_filter_empty, map_size_empty).
  constructor; cbn [start hwHub hwReservations hwIssued hwRegistered hwDropped hwPublishing hwDelivered]; try done.
  - intros u Hm. rewrite Hh. lia.
  - intros i Hm. rewrite Hh. lia.
  - intros r [? ?%lookup_empty_Some]. done.
  - constructor.
  - by intros p ?%elem_of_nil.
  - by intros topic l p ?%elem_of_nil.
  - by intros p topic ?%elem_of_nil.
Qed.

Lemma sound_reserve w r user ip h : sound w -> r ∉ hwIssued w -> Reserve user ip maxPerUser maxPerIP (hwHub w) = (h, true) ->
  sound (mkWorld h (hwRegistered w) (<[r := (user, ip)]> (hwReservations w)) ({[ r ]} ∪ hwIssued w) (hwPublishing w) (hwDropped w) (hwDelivered w)).
Proof.
  intros [Hu Hi Hum Him Hr Hc Hd Hg Hp Hl] Hn Hres. destruct (reserve_ok user ip (hwHub w) h Hres) as (Ec & Eu & Ei & Mu & Mi).
  assert (Hnone : hwReservations w !! r = None) by (destruct (hwReservations w !! r) eqn:E; [|done]; destruct Hn; apply Hr; eauto).
  constructor; cbn [hwHub hwReservations hwIssued hwRegistered hwDropped hwPublishing hwDelivered]; try done.
  - intros u. rewrite Eu, held_insert, Hu by done. done.
  - intros i. rewrite Ei, held_insert, Hi by done. done.
  - intros u Hm. rewrite held_insert by done. cbn [fst]. specialize (Mu Hm). specialize (Hum u Hm). destruct (decide (user = u)) as [->|_]; [|lia]. rewrite Hu in Mu. lia.
  - intros i Hm. rewrite held_insert by done. cbn [snd]. specialize (Mi Hm). specialize (Him i Hm). destruct (decide (ip = i)) as [->|_]; [|lia]. rewrite Hi in Mi. lia.
  - intros r' Hr'. apply lookup_insert_is_Some in Hr' as [<-|[_ Hr']]; [set_solver|]. apply Hr in Hr'. set_solver.
  - by rewrite Ec.
  - by rewrite Ec.
Qed.

Lemma sound_release w r user ip : sound w -> hwReservations w !! r = Some (user, ip) ->
  sound (mkWorld (release user ip (hwHub w)) (hwRegistered w) (delete r (hwReservations w)) (hwIssued w) (hwPublishing w) (hwDropped w) (hwDelivered w)).
Proof.
  intros [Hu Hi Hum Him Hr Hc Hd Hg Hp Hl] Hres.
  assert (Pu : 0 < counter (hbByUser (hwHub w)) user) by (rewrite Hu; pose proof (held_nonneg fst user (delete r (hwReservations w))) as Hz; rewrite (held_delete _ _ _ _ _ Hres), decide_True in Hz by done; lia).
  assert (Pi : 0 < counter (hbByIP (hwHub w)) ip) by (rewrite Hi; pose proof (held_nonneg snd ip (delete r (hwReservations w))) as Hz; rewrite (held_delete _ _ _ _ _ Hres), decide_True in Hz by done; lia).
  constructor; cbn [hwHub hwReservations hwIssued hwRegistered hwDropped hwPublishing hwDelivered release hbByUser hbByIP hbClients]; try done.
  - intros u. by rewrite decrement_counter, (held_delete _ _ _ _ _ Hres), Hu.
  - intros i. by rewrite decrement_counter, (held_delete _ _ _ _ _ Hres), Hi.
  - intros u Hm. rewrite (held_delete _ _ _ _ _ Hres). specialize (Hum u Hm). destruct (decide _); lia.
  - intros i Hm. rewrite (held_delete _ _ _ _ _ Hres). specialize (Him i Hm). destruct (decide _); lia.
  - intros r' [x Hx]. apply lookup_delete_Some in Hx as [_ Hx]. apply Hr. eauto.
Qed.

Lemma sound_register w p c : sound w -> hwRegistered w !! p = None ->
  sound (mkWorld (Register p c (hwHub w)) (<[p := c]> (hwRegistered w)) (hwReservations w) (hwIssued w) (hwPublishing w) (hwDropped w) (hwDelivered w)).
Proof.
  intros [Hu Hi Hum Him Hr Hc Hd Hg Hp Hl] Hn. assert (Hne : forall p' c', hwRegistered w !! p' = Some c' -> p <> p') by (intros p' c' Hx ->; congruence).
  constructor; cbn [hwHub hwReservations hwIssued hwRegistered hwDropped hwPublishing hwDelivered Register set_clients hbByUser hbByIP hbClients]; try done.
  - by apply insert_mono.
  - intros p' Hp'. destruct (Hg p' Hp') as [H1 [c' H2]]. pose proof (Hne p' c' H2). rewrite !lookup_insert_ne by done. eauto.
  - intros topic l p' H1 H2. destruct (Hp topic l p' H1 H2) as (c' & H3 & H4). exists c'. by rewrite lookup_insert_ne by by eapply Hne.
  - intros p' topic H1. destruct (Hl p' topic H1) as (c' & H3 & H4). exists c'. by rewrite lookup_insert_ne by by eapply Hne.
Qed.

(** The rest of a publication after one client. *)
Lemma publishing_rest w before topic p rest after topic' l' : hwPublishing w = before ++ (topic, p :: rest) :: after -> (topic', l') ∈ before ++ (topic, rest) :: after ->
  exists l, (topic', l) ∈ hwPublishing w /\ forall x, x ∈ l' -> x ∈ l.
Proof.
  intros -> Hin. rewrite elem_of_app, elem_of_cons in Hin. destruct Hin as [Hin|[[= -> ->]|Hin]].
  - exists l'. split; [rewrite elem_of_app; tauto|done].
  - exists (p :: rest). split; [rewrite elem_of_app, elem_of_cons; tauto|]. intros x Hx. apply elem_of_cons. by right.
  - exists l'. split; [rewrite elem_of_app, elem_of_cons; tauto|done].
Qed.

Lemma sound_advance w before topic p rest after : sound w -> hwPublishing w = before ++ (topic, p :: rest) :: after ->
  sound (mkWorld (hwHub w) (hwRegistered w) (hwReservations w) (hwIssued w) (before ++ (topic, rest) :: after) (hwDropped w) (hwDelivered w)) /\
  exists c, hwRegistered w !! p = Some c /\ topicAllowed topic (clScope c) = true.
Proof.
  intros [Hu Hi Hum Him Hr Hc Hd Hg Hp Hl] Hw. split; [constructor; try done|].
  - intros topic' l' p' H1 H2. destruct (publishing_rest w _ _ _ _ _ _ _ Hw H1) as (l & H3 & H4). by apply (Hp topic' l), H4.
  - apply (Hp topic (p :: rest)); [rewrite Hw, elem_of_app, elem_of_cons; tauto|apply elem_of_cons; by left].
Qed.

Lemma step_sound w w' : step w w' -> sound w -> sound w'.
Proof.
  intros Hs Hw. destruct Hs as [w r user ip h Hn Hres|w user ip h Hres|w r user ip Hres|w p c Hp|w p|w ref|w|w topic|w before topic p rest after Hp|w before topic p rest after h dropped Hp Hd].
  - by apply sound_reserve.
  - assert (Eh : h = hwHub w) by (unfold Reserve in Hres; destruct (_ && _); [|destruct (_ && _)]; congruence). subst h. by destruct w.
  - by apply sound_release.
  - by apply sound_register.
  - assert (E : with_hub (unregister p (hwHub w)) w = dropping (unregister p (hwHub w)) [] w) by (unfold dropping; by rewrite app_nil_r). rewrite E.
    apply sound_clients; try done; [apply delete_subseteq|constructor|by intros x ?%elem_of_nil].
  - destruct (close_session_spec ref (hwHub w)) as (H1 & H2 & H3 & H4 & H5). by apply sound_clients.
  - apply sound_clients; try done; [apply map_empty_subseteq|apply NoDup_fst_map_to_list|].
    intros p ([p' c] & -> & Hp)%list_elem_of_fmap. apply elem_of_map_to_list in Hp. split; [simpl; eauto|apply lookup_empty].
  - destruct Hw as [Hu Hi Hum Him Hr Hc Hd Hg Hp Hl]. constructor; try done. intros topic' l p [[= -> ->]|Hin]%elem_of_cons Hx; [|by eapply Hp].
    apply snapshot_spec in Hx as (c & Hx & Ht). exists c. split; [by eapply lookup_weaken|done].
  - destruct (sound_advance w before topic p rest after Hw Hp) as [[Hu Hi Hum Him Hr Hc Hd Hg Hpub Hl] Hx]. constructor; try done.
    intros p' topic' [Hin|[= -> ->]%list_elem_of_singleton]%elem_of_app; [by apply Hl|done].
  - destruct (sound_advance w before topic p rest after Hw Hp) as [Hadv _]. set (w1 := mkWorld _ _ _ _ _ _ _) in Hadv. unfold drop in Hd.
    destruct (bool_decide _) eqn:Eb; injection Hd as <- <-; [apply bool_decide_eq_true in Eb|rewrite app_nil_r; exact Hadv].
    apply (sound_clients w1 (unregister p (hwHub w)) [p] Hadv); try done; [apply delete_subseteq|apply NoDup_singleton|].
    intros x ->%list_elem_of_singleton. split; [done|apply lookup_delete_eq].
Qed.

(** C29: the hub keeps exact accounts.  In every interleaving of reservations, releases,
    registrations, closings and publications, the counter of a user and of an address is the
    number of their reservations that are not released, and it never exceeds the limit; no
    client is dropped twice or stays after it was dropped; and an event reaches only clients
    whose scope allows its topic, security events and component progress only administrators. *)
Theorem hub_accounts_exact w : rtc step start w ->
  (forall u, counter (hbByUser (hwHub w)) u = held fst u (hwReservations w) /\ (0 < maxPerUser -> counter (hbByUser (hwHub w)) u <= maxPerUser)) /\
  (forall i, counter (hbByIP (hwHub w)) i = held snd i (hwReservations w) /\ (0 < maxPerIP -> counter (hbByIP (hwHub w)) i <= maxPerIP)) /\
  NoDup (hwDropped w) /\ (forall p, p ∈ hwDropped w -> hbClients (hwHub w) !! p = None) /\
  (forall p topic, (p, topic) ∈ hwDelivered w -> exists c, hwRegistered w !! p = Some c /\ topicAllowed topic (clScope c) = true).
Proof.
  intros Hs. assert (Hw : sound w) by (pose proof sound_start as H0; induction Hs as [|w w1 w2 H1 _ IH]; [done|]; by apply IH, (step_sound w)).
  destruct Hw as [Hu Hi Hum Him Hr Hc Hd Hg Hp Hl]. split_and!; [..|done].
  - intros u. split; [done|]. rewrite Hu. apply Hum.
  - intros i. split; [done|]. rewrite Hi. apply Him.
  - done.
  - intros p Hp'. by apply Hg.
Qed.

(** A session that is closed has no client left, and each of its clients is told. *)
Lemma close_session_complete ref h p c : ref <> "" -> hbClients h !! p = Some c -> clSessionRef c = ref ->
  hbClients (CloseSession ref h).1 !! p = None /\ p ∈ (CloseSession ref h).2.
Proof.
  intros Hr Hp Hc. unfold CloseSession. apply String.eqb_neq in Hr. rewrite Hr. cbn [fst snd hbClients set_clients]. split.
  - apply map_lookup_filter_None. right. intros c' Hc' Hne. simpl in Hne. congruence.
  - apply list_elem_of_fmap. exists (p, c). split; [done|]. apply elem_of_map_to_list, map_lookup_filter_Some. done.
Qed.
End Histories.

(** ** A hub with a reader and an administrator *)
Module Demo.
Definition reader : client := mkClient "bob" "192.0.2.1" "ref-1" ScopeRead.
Definition admin : client := mkClient "alice" "192.0.2.2" "ref-2" ScopeAdmin.

Definition reserved : world := mkWorld (Reserve "bob" "192.0.2.1" 5 20 newHub).1 ∅ {[ 0 := ("bob", "192.0.2.1") ]} {[ 0 ]} [] [] [].
Definition both : world :=
  mkWorld (Register 2 admin (Register 1 reader (hwHub reserved))) (<[2 := admin]> (<[1 := reader]> ∅)) (hwReservations reserved) (hwIssued reserved) [] [] [].
Definition sent : world := mkWorld (hwHub both) (hwRegistered both) (hwReservations both) (hwIssued both) [(TopicSecurityEvent, [])] [] [(2, TopicSecurityEvent)].

Lemma run : rtc (step 5 20) start sent.
Proof.
  eapply rtc_l; [apply (st_reserve 5 20 start 0 "bob" "192.0.2.1" (hwHub reserved)); [set_solver|reflexivity]|].
  eapply rtc_l; [apply (st_register 5 20 _ 1 reader); reflexivity|]. eapply rtc_l; [apply (st_register 5 20 _ 2 admin); reflexivity|].
  eapply rtc_l; [apply (st_publish 5 20 _ TopicSecurityEvent)|]. eapply rtc_l; [apply (st_send 5 20 _ [] TopicSecurityEvent 2 [] []); vm_compute; reflexivity|].
  replace (mkWorld _ _ _ _ _ _ _) with sent; [reflexivity|]. vm_compute. reflexivity.
Qed.

Lemma hub_accounts_exact_witness :
  counter (hbByUser (hwHub sent)) "bob" = 1 /\ counter (hbByUser (hwHub sent)) "bob" <= 5 /\
  exists c, hwRegistered sent !! 2 = Some c /\ topicAllowed TopicSecurityEvent (clScope c) = true.
Proof.
  destruct (hub_accounts_exact 5 20 sent run) as (Hu & _ & _ & _ & Hd). destruct (Hu "bob") as [_ Hm].
  split; [vm_compute; reflexivity|]. split; [apply Hm; lia|]. apply Hd. cbn [sent hwDelivered]. apply list_elem_of_singleton. reflexivity.
Defined.
End Demo.
