(* ===== verification/Failover.v ===== *)
(** * Failover groups
    ([internal/entities/outbounds/failover*.go], [service/failover], [cronjob/jobs/runtime/failover.go])

    A failover group is a list of outbounds in order of priority.  It is stored with its
    options, validated, and given to the core as a selector.  The job probes the members of
    each group at its interval, counts the successes and failures in a row, and switches the
    selector of the core.

    JSON, URLs, addresses and the text of durations are the class [FailoverCodec]; the
    probes, the selector of the core and the clock are arguments.  Times are nanoseconds
    and zero is the time of no probe. *)

From S2P Require Import Prelude GoStrings.

Open Scope string_scope.
Open Scope list_scope.
Open Scope Z_scope.

Definition FailoverType : string := "failover".
Definition DirectTag : string := "direct".
Definition FailoverFinalDirect : string := "direct".
Definition FailoverFinalReject : string := "reject".
Definition FailoverRejectOutboundTag : string := "__solovey_failover_reject".
Definition DefaultProbeTarget : string := "https://www.gstatic.com/generate_204".
Definition DefaultInterval : Z := 30 * second.
Definition MinInterval : Z := 5 * second.
Definition DefaultHysteresis : Z := 2.
Definition AllDownPolicyHoldCurrent : string := "hold_current".
Definition AllDownPolicyBlock : string := "block".
Definition AllDownPolicyDirect : string := "direct".

(** ** Options *)
Record failoverProbe := mkProbe {
  fpEnabled : option bool; fpProbeTarget : string; fpInterval : string; fpHysteresis : Z; fpAllDownPolicy : string
}.

Record failoverOptions := mkOptions {
  foOutbounds : list string; foDefault : string; foFinal : string; foInterruptExistConnections : option bool; foFailover : failoverProbe
}.

Record Outbound := mkOutbound { obType : string; obTag : string; obOptions : string }.

Record URL := mkURL { urlScheme : string; urlHostname : string; urlUser : bool }.

Class FailoverCodec := {
  unmarshalOptions : string -> option failoverOptions;
  ParseDuration : string -> option Z;
  ParseURL : string -> option URL;
  infrastructureAddr : string -> bool       (** the host is an address of the infrastructure *)
}.

Section Options.
Context `{FailoverCodec}.

Definition one_of (x : string) (l : list string) : bool := existsb (String.eqb x) l.

Definition parseFailoverOptions (options : string) : result string failoverOptions :=
  if String.eqb options "" then Err "failover group has no options"
  else match unmarshalOptions options with
       | None => Err "json"
       | Some opts =>
           if one_of (fpAllDownPolicy (foFailover opts)) [""; AllDownPolicyHoldCurrent; AllDownPolicyBlock; AllDownPolicyDirect] then Ok opts
           else Err "invalid failover all-down policy"
       end.

Definition enabled (p : failoverProbe) : bool := default true (fpEnabled p).

Definition interval (p : failoverProbe) : Z :=
  if String.eqb (fpInterval p) "" then DefaultInterval
  else match ParseDuration (fpInterval p) with
       | None => DefaultInterval
       | Some duration => if duration <? MinInterval then DefaultInterval else duration
       end.

Definition hysteresis (p : failoverProbe) : Z := if fpHysteresis p <? 1 then DefaultHysteresis else fpHysteresis p.

Definition target (p : failoverProbe) : string := if String.eqb (fpProbeTarget p) "" then DefaultProbeTarget else fpProbeTarget p.

Definition finalChoice (o : failoverOptions) : string :=
  let policy := fpAllDownPolicy (foFailover o) in
  if String.eqb policy AllDownPolicyHoldCurrent then ""
  else if String.eqb policy AllDownPolicyBlock then FailoverFinalReject
  else if String.eqb policy AllDownPolicyDirect then FailoverFinalDirect
  else
    let final := TrimSpace (foFinal o) in
    if one_of final [""; FailoverFinalDirect] then FailoverFinalDirect
    else if String.eqb final FailoverFinalReject then FailoverFinalReject
    else final.

Definition finalTag (o : failoverOptions) (directTag : string) : string :=
  let choice := finalChoice o in
  if String.eqb choice "" then ""
  else if String.eqb choice FailoverFinalDirect then directTag
  else if String.eqb choice FailoverFinalReject then FailoverRejectOutboundTag
  else choice.

(** ** Groups *)
Record FailoverGroup := mkGroup {
  fgTag : string; fgMembers : list string; fgFinalTag : string; fgAllDownPolicy : string; fgProbeTarget : string; fgInterval : Z; fgHysteresis : Z; fgEnabled : bool
}.

(** The tags of the direct outbounds, sorted; [None] is an error of the database. *)
Definition DirectFallbackTag (tags : option (list string)) : string :=
  match tags with
  | None => ""
  | Some tags =>
      if one_of DirectTag tags then DirectTag
      else match tags with [] => DirectTag | tag :: _ => tag end
  end.

Definition group_of (row : Outbound) (opts : failoverOptions) (directTag : string) : FailoverGroup :=
  mkGroup (obTag row) (foOutbounds opts) (TrimSpace (finalTag opts directTag)) (fpAllDownPolicy (foFailover opts)) (target (foFailover opts))
    (interval (foFailover opts)) (hysteresis (foFailover opts)) (enabled (foFailover opts)).

(** The groups of the failover rows. *)
Fixpoint LoadFailoverGroups (rows : list Outbound) (directTag : string) : result string (list FailoverGroup) :=
  match rows with
  | [] => Ok []
  | row :: rows' =>
      if negb (String.eqb (obType row) FailoverType) then LoadFailoverGroups rows' directTag
      else
        let? opts := parseFailoverOptions (obOptions row) in
        match foOutbounds opts with
        | [] => Err "stored failover outbound has no members"
        | _ => let? groups := LoadFailoverGroups rows' directTag in Ok (group_of row opts directTag :: groups)
        end
  end.

(** ** Validation *)
Definition group_type (t : string) : bool := one_of t ["selector"; "urltest"; FailoverType].

Definition typeByTag (rows : list Outbound) (tag : string) : option string := obType <$> List.find (fun r => String.eqb (obTag r) tag) (rev rows).

Fixpoint check_members (groupTag : string) (rows : list Outbound) (members seen : list string) : result string unit :=
  match members with
  | [] => Ok tt
  | member :: members' =>
      if String.eqb member groupTag then Err "a failover group cannot reference itself"
      else if one_of member seen then Err "member is listed more than once"
      else match typeByTag rows member with
           | None => Err "failover member does not exist"
           | Some t => if group_type t then Err "failover members must be plain outbounds" else check_members groupTag rows members' (member :: seen)
           end
  end.

Definition validateFailoverFinal (groupTag : string) (opts : failoverOptions) (rows : list Outbound) : result string unit :=
  let final := finalChoice opts in
  if one_of final [""; FailoverFinalDirect] then Ok tt
  else if String.eqb final FailoverFinalReject then
    match typeByTag rows FailoverRejectOutboundTag with Some _ => Err "outbound tag is reserved for failover reject support" | None => Ok tt end
  else if String.eqb final groupTag then Err "a failover final outbound cannot reference the failover group itself"
  else match typeByTag rows final with
       | None => Err "failover final outbound does not exist"
       | Some t => if group_type t then Err "failover final must be direct, reject, or a plain outbound" else Ok tt
       end.

Definition validateProbeTarget (rawURL : string) : result string unit :=
  match ParseURL rawURL with
  | None => Err "invalid probe target"
  | Some parsed =>
      if negb (one_of (ToLower (urlScheme parsed)) ["http"; "https"]) then Err "probe target must be an http(s) URL"
      else if String.eqb (urlHostname parsed) "" then Err "probe target must include a host"
      else if urlUser parsed then Err "probe target must not include userinfo"
      else if infrastructureAddr (urlHostname parsed) then Err "probe target host is not allowed"
      else Ok tt
  end.

Definition validateFailoverGroup (rows : list Outbound) (outbound : Outbound) : result string unit :=
  let? opts := parseFailoverOptions (obOptions outbound) in
  match foOutbounds opts with
  | [] => Err "failover group needs at least one member"
  | members =>
      let? _ := check_members (obTag outbound) rows members [] in
      let? _ := validateFailoverFinal (obTag outbound) opts rows in
      let? _ := validateProbeTarget (target (foFailover opts)) in
      let? _ := (if String.eqb (fpInterval (foFailover opts)) "" then Ok tt
                 else match ParseDuration (fpInterval (foFailover opts)) with
                      | None => Err "invalid probe interval"
                      | Some duration => if duration <? MinInterval then Err "probe interval is too short" else Ok tt
                      end) in
      if fpHysteresis (foFailover opts) <? 0 then Err "hysteresis must be >= 1" else Ok tt
  end.

(** ** The configuration of the core *)
Inductive RuntimeOutbound :=
| Block (tag : string)
| Selector (tag : string) (outbounds : list string) (default_ : string) (interrupt : option bool).

Definition AssembleFailoverOutboundsForCore (outbound : Outbound) (directTag : string) : result string (list RuntimeOutbound) :=
  let? opts := parseFailoverOptions (obOptions outbound) in
  match foOutbounds opts with
  | [] => Err "failover group has no members"
  | first :: _ =>
      let finalTag := TrimSpace (finalTag opts directTag) in
      let members := if negb (String.eqb finalTag "") && negb (one_of finalTag (foOutbounds opts)) then foOutbounds opts ++ [finalTag] else foOutbounds opts in
      let selector := Selector (obTag outbound) members first (foInterruptExistConnections opts) in
      if String.eqb (finalChoice opts) FailoverFinalReject then Ok [Block FailoverRejectOutboundTag; selector] else Ok [selector]
  end.
End Options.

(** ** The choice of a member ([service/failover/select.go]) *)
Record MemberHealth := mkHealth { mhConsecutiveUp : Z; mhConsecutiveDown : Z }.

Definition noHealth : MemberHealth := mkHealth 0 0.

Record Decision_ := mkDecision { dcTarget : string; dcShouldSwitch : bool; dcAllDown : bool; dcReason : string }.

Fixpoint indexOf (tag : string) (members : list string) : option nat :=
  match members with
  | [] => None
  | member :: members' => if String.eqb member tag then Some O else S <$> indexOf tag members'
  end.

Definition health_of (health : gmap string MemberHealth) (tag : string) : MemberHealth := default noHealth (health !! tag).

(** [bestUp] and [bestConfirmed]: the first member with enough successes, when its tag is
    not empty; otherwise a later one replaces it. *)
Fixpoint best (health : gmap string MemberHealth) (needed : Z) (members : list string) (found : string) : string :=
  match members with
  | [] => found
  | member :: members' =>
      best health needed members' (if String.eqb found "" && (needed <=? mhConsecutiveUp (health_of health member)) then member else found)
  end.

Definition SelectMember (members : list string) (health : gmap string MemberHealth) (current : string) (hysteresis : Z) (directFallback allDownPolicy : string) : Decision_ :=
  match members with
  | [] => mkDecision "" false false "no_members"
  | first :: _ =>
      let hysteresis := if hysteresis <? 1 then DefaultHysteresis else hysteresis in
      let bestUp := best health 1 members "" in
      let bestConfirmed := best health hysteresis members "" in
      let decide target reason allDown := mkDecision target (negb (String.eqb target current)) allDown reason in
      if String.eqb bestUp "" then
        if String.eqb allDownPolicy AllDownPolicyHoldCurrent then
          match indexOf current members with Some _ => decide current "all_down_hold" true | None => decide first "all_down_hold" true end
        else if String.eqb allDownPolicy AllDownPolicyBlock then decide FailoverRejectOutboundTag "all_down_block" true
        else if negb (one_of allDownPolicy [""; AllDownPolicyDirect]) then mkDecision "" false true "invalid_policy"
        else if negb (String.eqb directFallback "") then decide directFallback "all_down_direct" true
        else decide first "all_down_hold" true
      else if String.eqb current "" then decide bestUp "priority" false
      else match indexOf current members with
           | None => decide bestUp "failback" false
           | Some currentIndex =>
               if negb (1 <=? mhConsecutiveUp (health_of health current)) then decide bestUp "failover" false
               else if negb (String.eqb bestConfirmed "") && match indexOf bestConfirmed members with Some i => Nat.ltb i currentIndex | None => true end
                    then decide bestConfirmed "failback" false
                    else decide current "sticky" false
           end
  end.

(** ** The stored state of members ([service/failover/state.go], [live.go]) *)
Record FailoverMemberState := mkMemberState {
  fmGroupTag : string; fmMemberTag : string; fmHealthy : bool; fmConsecUp : Z; fmConsecDown : Z; fmLastProbeAt : Z
}.

Notation StateTable := (gmap (string * string) FailoverMemberState).

(** [ON CONFLICT (group_tag, member_tag) DO UPDATE] *)
Definition WriteMemberStates (states : list FailoverMemberState) (t : StateTable) : StateTable :=
  foldl (fun t s => <[(fmGroupTag s, fmMemberTag s) := s]> t) t states.

Definition ReadMemberStates (groupTag : string) (t : StateTable) : list FailoverMemberState :=
  List.filter (fun s => String.eqb (fmGroupTag s) groupTag) (map_to_list t).*2.

Record MemberStatus := mkMemberStatus { msTag : string; msHealthy : bool; msPriority : Z }.
Record StatusEntry := mkStatusEntry { seTag : string; seActive : string; seAllDown : bool; seMembers : list MemberStatus }.

Fixpoint member_statuses (healthy : string -> bool) (members : list string) (priority : Z) : list MemberStatus :=
  match members with
  | [] => []
  | member :: members' => mkMemberStatus member (healthy member) priority :: member_statuses healthy members' (priority + 1)
  end.

(** The status of one group; [active] is what the core reports. *)
Definition statusOf (group : FailoverGroup) (active : string) (t : StateTable) : StatusEntry :=
  let byTag member := existsb (fun s => String.eqb (fmMemberTag s) member && fmHealthy s) (ReadMemberStates (fgTag group) t) in
  mkStatusEntry (fgTag group) active (negb (existsb byTag (fgMembers group))) (member_statuses byTag (fgMembers group) 0).

(** ** The job ([cronjob/jobs/runtime/failover.go]) *)
Record failoverGroupState := mkGroupState { gsLastProbe : Z; gsLastAllDown : bool; gsHealth : gmap string MemberHealth }.

Definition freshState : failoverGroupState := mkGroupState 0 false ∅.

Notation JobStates := (gmap string failoverGroupState).

(** What a run of a group meets: the clock when it starts, the results of the probes, the
    clock after them and when they are stored, the member the core reports ("" when it knows none) and whether the
    core accepts a switch. *)
Record round := mkRound { rdStartedAt : Z; rdResults : gmap string bool; rdProbedAt : Z; rdPersistedAt : Z; rdCurrent : string; rdSwitch : bool }.

(** What a run does: the rows it stores, the switch it asks for, the status it publishes and
    whether it raises the alert that all members are down. *)
Record outcome := mkOutcome { ocPersisted : list FailoverMemberState; ocDecision : Decision_; ocStatus : StatusEntry; ocAlert : bool }.

Definition observe (result : bool) (h : MemberHealth) : MemberHealth :=
  if result then mkHealth (mhConsecutiveUp h + 1) 0 else mkHealth 0 (mhConsecutiveDown h + 1).

Definition probed (results : gmap string bool) (member : string) : bool := default false (results !! member).

Definition observe_all (results : gmap string bool) (members : list string) (health : gmap string MemberHealth) : gmap string MemberHealth :=
  foldl (fun health member => <[member := observe (probed results member) (health_of health member)]> health) health members.

Definition persisted (group : FailoverGroup) (health : gmap string MemberHealth) (now : Z) : list FailoverMemberState :=
  (fun member => let h := health_of health member in
     mkMemberState (fgTag group) member (1 <=? mhConsecutiveUp h) (mhConsecutiveUp h) (mhConsecutiveDown h) (now / second)) <$> fgMembers group.

Definition fallback_of (group : FailoverGroup) (directTag : string) : string :=
  if negb (String.eqb (fgFinalTag group) "") then fgFinalTag group
  else if String.eqb (fgAllDownPolicy group) "" && negb (String.eqb directTag "") && negb (one_of directTag (fgMembers group)) then directTag
  else "".

Definition due (group : FailoverGroup) (state : failoverGroupState) (now : Z) : bool :=
  time_is_zero (gsLastProbe state) || (fgInterval group <=? time_sub now (gsLastProbe state)).

Definition recordAllDownEdge (allDown : bool) (state : failoverGroupState) : failoverGroupState * bool :=
  (mkGroupState (gsLastProbe state) allDown (gsHealth state), allDown && negb (gsLastAllDown state)).

Definition runGroup (group : FailoverGroup) (directTag : string) (r : round) (states : JobStates) : JobStates * option outcome :=
  if negb (fgEnabled group) || Nat.eqb (length (fgMembers group)) 0 then (states, None)
  else
    let state := default freshState (states !! fgTag group) in
    if negb (due group state (rdStartedAt r)) then (<[fgTag group := state]> states, None)
    else
      let health := observe_all (rdResults r) (fgMembers group) (gsHealth state) in
      let state := mkGroupState (rdProbedAt r) (gsLastAllDown state) health in
      let decision := SelectMember (fgMembers group) health (rdCurrent r) (fgHysteresis group) (fallback_of group directTag) (fgAllDownPolicy group) in
      let status active := mkStatusEntry (fgTag group) active (dcAllDown decision) (member_statuses (fun m => 1 <=? mhConsecutiveUp (health_of health m)) (fgMembers group) 0) in
      let rows := persisted group health (rdPersistedAt r) in
      if dcShouldSwitch decision && negb (rdSwitch r)
      then (<[fgTag group := state]> states, Some (mkOutcome rows decision (status (rdCurrent r)) false))
      else
        let active := if dcShouldSwitch decision then dcTarget decision else rdCurrent r in
        let edge := recordAllDownEdge (dcAllDown decision) state in
        (<[fgTag group := edge.1]> states, Some (mkOutcome rows decision (status active) edge.2)).

(** One run over all groups. *)
Fixpoint runGroups (groups : list (FailoverGroup * round)) (directTag : string) (states : JobStates) : JobStates * list (option outcome) :=
  match groups with
  | [] => (states, [])
  | (group, r) :: groups' =>
      let s := runGroup group directTag r states in
      let t := runGroups groups' directTag s.1 in
      (t.1, s.2 :: t.2)
  end.
