(* ===== verification/FailoverProperties.v ===== *)
(** * Failover groups: what the job guarantees

    The choice of a member, over every history of the job in which groups are edited, the
    core restarts and members are selected by hand: a run that finds a member that answers
    chooses such a member, it leaves an answering member only for a better one that answered
    long enough, and it returns to the best such member.  The selector of the core offers
    every target that the job can ask for. *)

From S2P Require Import Prelude GoStrings Failover.

Open Scope string_scope.
Open Scope list_scope.
Open Scope Z_scope.

(** ** The choice *)
Section Choice.
Context (health : gmap string MemberHealth).

Definition up_for (n : Z) (m : string) : Prop := n <= mhConsecutiveUp (health_of health m).

Lemma best_found n members found : found <> "" -> best health n members found = found.
Proof. intros Hf%String.eqb_neq. induction members as [|m members IH]; simpl; [done|]. by rewrite Hf. Qed.

(** The first member that is up for [n] probes, or none. *)
Lemma best_spec n members : "" ∉ members ->
  (best health n members "" = "" /\ forall m, m ∈ members -> ~ up_for n m) \/
  (exists l1 m l2, best health n members "" = m /\ members = l1 ++ m :: l2 /\ up_for n m /\ m <> "" /\ forall x, x ∈ l1 -> ~ up_for n x).
Proof.
  induction members as [|m members IH]; intros He; [left; split; [done|by intros m ?%elem_of_nil]|]. rewrite elem_of_cons in He. cbn [best String.eqb andb].
  destruct (Z.leb_spec n (mhConsecutiveUp (health_of health m))) as [Hu|Hu].
  - right. exists [], m, members. assert (Hm : m <> "") by (intros ->; apply He; by left). rewrite best_found by done. split_and!; try done. by intros x ?%elem_of_nil.
  - destruct IH as [[E Hn]|(l1 & x & l2 & E & -> & Hx & Hne & Hn)]; [intros ?; apply He; by right| |].
    + left. split; [done|]. intros x [->|Hx]%elem_of_cons; [unfold up_for; lia|by apply Hn].
    + right. exists (m :: l1), x, l2. split_and!; try done. intros y [->|Hy]%elem_of_cons; [unfold up_for; lia|by apply Hn].
Qed.

Lemma indexOf_app l1 m l2 : m ∉ l1 -> indexOf m (l1 ++ m :: l2) = Some (length l1).
Proof.
  induction l1 as [|x l1 IH]; intros Hm; simpl; [by rewrite String.eqb_refl|]. rewrite not_elem_of_cons in Hm. destruct Hm as [Hx Hm].
  rewrite (proj2 (String.eqb_neq x m)) by congruence. by rewrite IH.
Qed.

Lemma indexOf_None tag members : indexOf tag members = None <-> tag ∉ members.
Proof.
  induction members as [|m members IH]; simpl; [split; [by intros _ ?%elem_of_nil|done]|]. rewrite not_elem_of_cons. destruct (String.eqb_spec m tag) as [->|Hn]; [by split; [|intros [? _]]|].
  destruct (indexOf tag members) as [i|]; simpl.
  - split; [done|]. intros [_ Ht]. by pose proof (proj2 IH Ht).
  - split; [|done]. intros _. split; [congruence|by apply IH].
Qed.
End Choice.

(** [precedes members x y]: [x] has the higher priority. *)
Definition precedes (members : list string) (x y : string) : Prop := exists i j, indexOf x members = Some i /\ indexOf y members = Some j /\ (i < j)%nat.

(** What the choice promises when a member is up. *)
Record serves (members : list string) (health : gmap string MemberHealth) (needed : Z) (current chosen : string) : Prop := mkServes {
  sv_member : chosen ∈ members;
  sv_up : up_for health 1 chosen;
  sv_sticky : current ∈ members -> up_for health 1 current -> chosen <> current -> precedes members chosen current /\ up_for health needed chosen;
  sv_first : ~ (current ∈ members /\ up_for health 1 current) -> forall m, precedes members m chosen -> ~ up_for health 1 m;
  sv_best : current ∈ members -> up_for health 1 current -> forall m, precedes members m chosen -> ~ up_for health needed m
}.

Lemma precedes_split members l1 x l2 y : NoDup members -> members = l1 ++ x :: l2 -> precedes members y x -> y ∈ l1.
Proof.
  intros Hn -> (i & j & Hi & Hj & Hlt). apply NoDup_app in Hn as (_ & Hd & Hn). assert (Hx : x ∉ l1) by (intros Hx; apply (Hd x Hx); apply elem_of_cons; by left).
  rewrite (indexOf_app l1 x l2 Hx) in Hj. injection Hj as <-. clear Hd Hn Hx. revert i Hi Hlt. induction l1 as [|z l1 IH]; intros i Hi Hlt; simpl in *; [lia|].
  destruct (String.eqb_spec z y) as [->|Hz]; [apply elem_of_cons; by left|]. apply elem_of_cons. right. destruct (indexOf y (l1 ++ x :: l2)) as [i'|]; [|done]. simpl in Hi. injection Hi as <-.
  apply (IH i'); [done|lia].
Qed.

Lemma split_notin {A} (l1 : list A) x l2 : NoDup (l1 ++ x :: l2) -> x ∉ l1.
Proof. intros (_ & Hd & _)%NoDup_app Hx. apply (Hd x Hx). apply elem_of_cons. by left. Qed.

Lemma select_serves members health current needed fallback policy : NoDup members -> "" ∉ members -> 1 <= needed -> (exists m, m ∈ members /\ up_for health 1 m) ->
  let d := SelectMember members health current needed fallback policy in
  dcAllDown d = false /\ serves members health needed current (dcTarget d) /\ dcShouldSwitch d = negb (String.eqb (dcTarget d) current).
Proof.
  intros Hn He Hh (m0 & Hm0 & Hu0). unfold SelectMember. destruct members as [|first rest]; [by apply elem_of_nil in Hm0|]. set (members := first :: rest) in *.
  rewrite (proj2 (Z.ltb_ge needed 1) Hh). cbv zeta.
  destruct (best_spec health 1 members He) as [[_ Hno]|(l1 & up & l2 & -> & Hup & Hu & Hne & Hbefore)]; [by destruct (Hno m0 Hm0)|].
  rewrite (proj2 (String.eqb_neq _ _) Hne). clear m0 Hm0 Hu0.
  assert (Hin : up ∈ members) by (rewrite Hup, elem_of_app, elem_of_cons; tauto).
  assert (Hfirst : ~ (current ∈ members /\ up_for health 1 current) -> serves members health needed current up).
  { intros Hc. constructor; [done|done|intros; by destruct Hc| |intros; by destruct Hc]. intros _ m Hm. by apply Hbefore, (precedes_split members l1 up l2). }
  destruct (String.eqb_spec current "") as [->|Hcne]; [split_and!; [done|apply Hfirst; tauto|done]|].
  destruct (indexOf current members) as [ci|] eqn:Ec.
  2: { apply indexOf_None in Ec. split_and!; [done|apply Hfirst; tauto|done]. }
  assert (Hcur : current ∈ members) by (destruct (decide (current ∈ members)) as [?|Hc%indexOf_None]; [done|congruence]).
  destruct (Z.leb_spec 1 (mhConsecutiveUp (health_of health current))) as [Hcu|Hcu]; cbn [negb].
  2: { split_and!; [done|apply Hfirst; intros [_ ?]; unfold up_for in *; lia|done]. }
  destruct (best_spec health needed members He) as [[-> Hno]|(k1 & cf & k2 & -> & Hcf & Hcfu & Hcfne & Hcfb)]; cbn [String.eqb negb andb].
  { split_and!; [done| |done]. constructor; try done; [tauto|]. intros _ _ m (i & j & Hi & _ & _). apply Hno. destruct (decide (m ∈ members)) as [?|Hc%indexOf_None]; [done|congruence]. }
  rewrite (proj2 (String.eqb_neq _ _) Hcfne). cbn [negb andb]. assert (Hcfi : indexOf cf members = Some (length k1)).
  { rewrite Hcf. apply indexOf_app. rewrite Hcf in Hn. by apply split_notin in Hn. }
  assert (Hcfin : cf ∈ members) by (rewrite Hcf, elem_of_app, elem_of_cons; tauto). rewrite Hcfi. destruct (Nat.ltb_spec (length k1) ci) as [Hlt|Hge].
  - split_and!; [done| |done]. constructor; try done.
    + unfold up_for in *. cbn [dcTarget]. lia.
    + intros _ _ _. split; [|done]. by exists (length k1), ci.
    + tauto.
    + intros _ _ m Hm. by apply Hcfb, (precedes_split members k1 cf k2).
  - split_and!; [done| |done]. constructor; try done; [tauto|]. intros _ _ m Hm. apply Hcfb. apply (precedes_split members k1 cf k2 m Hn Hcf).
    destruct Hm as (i & j & Hi & Hj & Hij). cbn [dcTarget] in Hj. rewrite Ec in Hj. injection Hj as <-. exists i, (length k1). split_and!; [done|done|lia].
Qed.

(** ** Stored groups *)
Lemma one_of_spec x l : one_of x l = true <-> x ∈ l.
Proof.
  unfold one_of. rewrite existsb_exists. split.
  - intros (y & Hy & ->%String.eqb_eq). by apply list_elem_of_In.
  - intros Hx. exists x. split; [by apply list_elem_of_In|apply String.eqb_refl].
Qed.

Definition known (rows : list Outbound) (tag : string) : Prop := tag ∈ (obTag <$> rows).

Lemma typeByTag_known rows tag t : typeByTag rows tag = Some t -> known rows tag.
Proof.
  unfold typeByTag. destruct (List.find _ (rev rows)) as [r|] eqn:E; [|done]. intros _. apply find_some in E as [Hr Et%String.eqb_eq]. subst tag. apply list_elem_of_fmap. exists r. split; [done|].
  apply list_elem_of_In. by apply in_rev.
Qed.

(** Validated members exist, and none is listed twice. *)
Lemma check_members_spec groupTag rows members seen :
  check_members groupTag rows members seen = Ok tt -> NoDup members /\ forall m, m ∈ members -> known rows m /\ m ∉ seen.
Proof.
  revert seen. induction members as [|x members IH]; intros seen Hc; [split; [by apply NoDup_nil_2|by intros m ?%elem_of_nil]|]. simpl in Hc. destruct (String.eqb x groupTag); [done|].
  destruct (one_of x seen) eqn:Eo; [done|]. destruct (typeByTag rows x) as [t|] eqn:Et; [|done]. destruct (group_type t); [done|]. destruct (IH _ Hc) as [Hn Hm].
  assert (Hx : x ∉ seen) by (intros Hx%one_of_spec; congruence). split.
  - apply NoDup_cons. split; [|done]. intros Hin. destruct (Hm x Hin) as [_ Hs]. apply Hs, elem_of_cons. by left.
  - intros m [->|Hin]%elem_of_cons; [split; [by eapply typeByTag_known|done]|]. destruct (Hm m Hin) as [Hk Hs]. split; [done|]. intros Hi. apply Hs, elem_of_cons. by right.
Qed.

(** A group that was validated against a table of outbounds, none of which has an empty tag,
    and loaded from its row. *)
Definition stored `{FailoverCodec} (g : FailoverGroup) : Prop :=
  exists rows outbound opts directTag, validateFailoverGroup rows outbound = Ok tt /\ ~ known rows "" /\
    parseFailoverOptions (obOptions outbound) = Ok opts /\ g = group_of outbound opts directTag.

Lemma stored_spec `{FailoverCodec} g : stored g -> NoDup (fgMembers g) /\ "" ∉ fgMembers g /\ 1 <= fgHysteresis g.
Proof.
  intros (rows & outbound & opts & directTag & Hv & Hne & Hp & ->). unfold validateFailoverGroup in Hv. rewrite Hp in Hv. cbn [rbind group_of fgMembers fgHysteresis] in *.
  destruct (foOutbounds opts) as [|first rest]; [done|]. destruct (check_members _ rows (first :: rest) []) as [[]|] eqn:Hm; [|done]. destruct (check_members_spec _ _ _ _ Hm) as [Hn Hk].
  split_and!; [done|intros Hin; by destruct (Hk _ Hin)|]. unfold hysteresis, DefaultHysteresis. destruct (Z.ltb_spec (fpHysteresis (foFailover opts)) 1); lia.
Qed.

(** ** Histories of the job
    A run of a group: the group and the direct tag as they are stored at that time, what the
    probes answer, the member that the core reports (its own, one that an administrator
    selected, the default after a restart of the core, or none) and whether the core accepts
    a switch. *)
Record input := mkInput {
  inGroup : FailoverGroup; inDirect : string; inStartedAt : Z; inResults : gmap string bool; inProbedAt : Z; inPersistedAt : Z; inCurrent : string; inAccepts : bool
}.

(** The states of the job, and the runs so far that probed, the latest first. *)
Record view := mkView { vStates : JobStates; vLog : list (FailoverGroup * gmap string bool) }.

Definition round_of (i : input) : round := mkRound (inStartedAt i) (inResults i) (inProbedAt i) (inPersistedAt i) (inCurrent i) (inAccepts i).

Definition run_of (v : view) (i : input) : JobStates * option outcome := runGroup (inGroup i) (inDirect i) (round_of i) (vStates v).

Definition play_round (v : view) (i : input) : view :=
  match run_of v i with
  | (states, None) => mkView states (vLog v)
  | (states, Some _) => mkView states ((inGroup i, inResults i) :: vLog v)
  end.

Definition play (inputs : list input) : view := foldl play_round (mkView ∅ []) inputs.

(** The successes of a member in a row in the probes of a group, up to the latest run. *)
Fixpoint streak (tag m : string) (log : list (FailoverGroup * gmap string bool)) : Z :=
  match log with
  | [] => 0
  | (g, results) :: log' =>
      if String.eqb (fgTag g) tag && one_of m (fgMembers g) then (if probed results m then streak tag m log' + 1 else 0) else streak tag m log'
  end.

Definition state_in (tag : string) (v : view) : failoverGroupState := default freshState (vStates v !! tag).

Definition counted (v : view) : Prop := forall tag m, mhConsecutiveUp (health_of (gsHealth (state_in tag v)) m) = streak tag m (vLog v).

Lemma observe_all_notin results members health m : m ∉ members -> health_of (observe_all results members health) m = health_of health m.
Proof.
  unfold observe_all. revert health. induction members as [|x members IH]; intros health Hm; simpl; [done|]. rewrite not_elem_of_cons in Hm. destruct Hm as [Hx Hm].
  rewrite IH by done. unfold health_of. by rewrite lookup_insert_ne by congruence.
Qed.

Lemma observe_all_in results members health m : NoDup members -> m ∈ members -> health_of (observe_all results members health) m = observe (probed results m) (health_of health m).
Proof.
  revert health. induction members as [|x members IH]; intros health Hnd Hm; [by apply elem_of_nil in Hm|]. apply NoDup_cons in Hnd as [Hx Hnd]. unfold observe_all. cbn [foldl].
  change (foldl _ ?h members) with (observe_all results members h). apply elem_of_cons in Hm as [->|Hm].
  - rewrite observe_all_notin by done. unfold health_of at 1. by rewrite lookup_insert_eq.
  - rewrite IH by done. f_equal. unfold health_of. rewrite lookup_insert_ne; [done|]. intros ->. done.
Qed.

(** What a run leaves: the health of its group after the probes, and the decision on it. *)
Lemma run_spec v i : let g := inGroup i in fgEnabled g = true -> fgMembers g <> [] -> due g (state_in (fgTag g) v) (inStartedAt i) = true ->
  exists states o, run_of v i = (states, Some o) /\
    let health := observe_all (inResults i) (fgMembers g) (gsHealth (state_in (fgTag g) v)) in
    let d := SelectMember (fgMembers g) health (inCurrent i) (fgHysteresis g) (fallback_of g (inDirect i)) (fgAllDownPolicy g) in
    (exists gs, states = <[fgTag g := gs]> (vStates v) /\ gsHealth gs = health) /\
    ocDecision o = d /\ seActive (ocStatus o) = if dcShouldSwitch d && inAccepts i then dcTarget d else inCurrent i.
Proof.
  cbv zeta. intros He Hm Hd. unfold run_of, runGroup. rewrite He. destruct (fgMembers (inGroup i)) as [|first rest] eqn:Em; [done|]. cbn [negb orb length Nat.eqb]. fold (state_in (fgTag (inGroup i)) v).
  unfold round_of. cbn [rdStartedAt rdResults rdCurrent rdSwitch rdProbedAt rdPersistedAt]. rewrite Hd. cbn [negb]. cbv zeta. set (d := SelectMember _ _ _ _ _ _).
  destruct (dcShouldSwitch d) eqn:Es; cbn [andb]; [destruct (inAccepts i); cbn [negb]|]; do 2 eexists; (split; [reflexivity|]); split_and!; try done; by eexists.
Qed.

(** A run that does not probe keeps every health. *)
Lemma idle_spec v i states : run_of v i = (states, None) -> forall tag, default freshState (states !! tag) = state_in tag v.
Proof.
  unfold run_of, runGroup. intros E tag. destruct (_ || _); [by injection E as <-|]. cbv zeta in E. destruct (negb _); [|by destruct (_ && _)].
  injection E as <-. unfold state_in. destruct (decide (tag = fgTag (inGroup i))) as [->|Hne]; [by rewrite lookup_insert_eq|by rewrite lookup_insert_ne by congruence].
Qed.

Lemma probes_spec v i states o : run_of v i = (states, Some o) ->
  fgEnabled (inGroup i) = true /\ fgMembers (inGroup i) <> [] /\ due (inGroup i) (state_in (fgTag (inGroup i)) v) (inStartedAt i) = true.
Proof.
  unfold run_of, runGroup. fold (state_in (fgTag (inGroup i)) v). destruct (fgEnabled (inGroup i)); [|done]. destruct (fgMembers (inGroup i)); [done|]. cbn [negb orb length Nat.eqb]. cbv zeta. cbn [round_of rdStartedAt].
  by destruct (due _ _ _).
Qed.

Lemma counted_round v i : NoDup (fgMembers (inGroup i)) -> counted v -> counted (play_round v i).
Proof.
  intros Hn Hc tag m. unfold play_round. destruct (run_of v i) as [states [o|]] eqn:E.
  2: { unfold state_in. cbn [vStates vLog]. rewrite (idle_spec v i states E). apply Hc. }
  destruct (probes_spec v i states o E) as (He & Hm & Hd). destruct (run_spec v i He Hm Hd) as (states' & o' & E' & (gs & Hst & Hgs) & _). rewrite E in E'. injection E' as <- <-. subst states.
  unfold state_in. cbn [vStates vLog streak]. specialize (Hc tag m). unfold state_in in *. destruct (String.eqb_spec (fgTag (inGroup i)) tag) as [<-|Hne].
  - rewrite lookup_insert_eq. cbn [default andb id]. rewrite Hgs. destruct (one_of m (fgMembers (inGroup i))) eqn:Eo.
    + apply one_of_spec in Eo. rewrite observe_all_in by done. destruct (probed (inResults i) m); cbn [observe mhConsecutiveUp]; [by rewrite Hc|done].
    + rewrite observe_all_notin; [done|]. intros Hin%one_of_spec. congruence.
  - by rewrite lookup_insert_ne.
Qed.

Lemma counted_play inputs : Forall (fun i => NoDup (fgMembers (inGroup i))) inputs -> counted (play inputs).
Proof.
  unfold play. assert (H0 : counted (mkView ∅ [])) by (intros tag m; unfold state_in; cbn [vStates]; by rewrite lookup_empty). revert H0. generalize (mkView ∅ []).
  induction inputs as [|i inputs IH]; intros v Hv Hf; simpl; [done|]. apply Forall_cons in Hf as [Hi Hf]. by apply IH; [apply counted_round|].
Qed.

Lemma streak_nonneg tag m log : 0 <= streak tag m log.
Proof. induction log as [|[g r] log IH]; simpl; [done|]. destruct (_ && _); [destruct (probed r m); lia|done]. Qed.

Lemma precedes_member members x y : precedes members x y -> x ∈ members.
Proof. intros (a & b & Ha & _). destruct (decide (x ∈ members)) as [?|Hx%indexOf_None]; [done|congruence]. Qed.

(** C11: failover moves the traffic to a member that answers.  Take any history of the job, in
    which groups are edited, the core restarts and members are selected by hand, with groups
    that were validated when they were stored, in a table without an empty tag.  Whenever an
    enabled group is due and one of its members answers, the run chooses a member that
    answered in it; it asks the core for a switch exactly when that is not the member in use;
    the traffic is on the chosen member when the core accepts and stays where it was when the
    core refuses, and the published status says so.  A member that answers is left only for
    one of higher priority that answered its last [hysteresis] probes in a row; after a
    member that fails, or one outside the group, the first one that answers is chosen; and no
    member of higher priority that answered that long is passed over. *)
Theorem failover_serves_answering_member `{FailoverCodec} inputs i :
  Forall (fun i => stored (inGroup i)) (inputs ++ [i]) ->
  let g := inGroup i in
  let members := fgMembers g in
  let v := play inputs in
  let log := vLog (play_round v i) in
  let answers m := m ∈ members /\ probed (inResults i) m = true in
  fgEnabled g = true -> due g (state_in (fgTag g) v) (inStartedAt i) = true -> (exists m, answers m) ->
  exists states o, run_of v i = (states, Some o) /\
    let chosen := dcTarget (ocDecision o) in
    answers chosen /\
    (dcShouldSwitch (ocDecision o) = true <-> chosen <> inCurrent i) /\
    seActive (ocStatus o) = (if inAccepts i then chosen else inCurrent i) /\
    (answers (inCurrent i) -> chosen <> inCurrent i -> precedes members chosen (inCurrent i) /\ fgHysteresis g <= streak (fgTag g) chosen log) /\
    (~ answers (inCurrent i) -> forall m, precedes members m chosen -> ~ answers m) /\
    (answers (inCurrent i) -> forall m, precedes members m chosen -> streak (fgTag g) m log < fgHysteresis g).
Proof.
  intros Hst g members v log answers Hen Hdue (m0 & Hm0 & Hu0). apply Forall_app in Hst as [Hpast [Hnow _]%Forall_cons]. destruct (stored_spec _ Hnow) as (Hn & Hne & Hh).
  assert (Hc : counted (play_round v i)).
  { apply counted_round; [done|]. apply counted_play. eapply Forall_impl; [done|]. intros j Hj. exact (proj1 (stored_spec _ Hj)). }
  destruct (run_spec v i Hen ltac:(intros E; unfold members, g in Hm0; rewrite E in Hm0; by apply elem_of_nil in Hm0) Hdue) as (states & o & E & (gs & Hgs & Hhealth) & Hd & Ha).
  exists states, o. split; [done|]. unfold counted in Hc. subst log. revert Hc. unfold play_round. rewrite E. cbn [vLog].
  set (log := (inGroup i, inResults i) :: vLog v). set (health := observe_all _ _ _) in *. intros Hc.
  assert (Hup : forall n m, up_for health n m <-> n <= streak (fgTag g) m log).
  { intros n m. unfold up_for. rewrite <- Hhealth, <- Hc. unfold state_in. cbn [vStates]. rewrite Hgs, lookup_insert_eq. done. }
  assert (Hans : forall m, m ∈ members -> up_for health 1 m <-> answers m).
  { intros m Hm. rewrite Hup. subst log. cbn [streak]. rewrite String.eqb_refl, (proj2 (one_of_spec m (fgMembers (inGroup i)))) by done. cbn [andb]. unfold answers.
    pose proof (streak_nonneg (fgTag g) m (vLog v)). destruct (probed (inResults i) m); split; try tauto; lia. }
  destruct (select_serves members health (inCurrent i) (fgHysteresis g) (fallback_of g (inDirect i)) (fgAllDownPolicy g) Hn Hne Hh) as (_ & [S1 S2 S3 S4 S5] & Hs); [exists m0; by rewrite Hans|].
  fold members g in Hd, Ha. rewrite Hd. set (d := SelectMember _ _ _ _ _ _) in *. clearbody d health. rewrite Hs in Ha. cbv zeta. split_and!.
  - by apply Hans.
  - rewrite Hs, negb_true_iff. apply String.eqb_neq.
  - rewrite Ha. by destruct (String.eqb_spec (dcTarget d) (inCurrent i)) as [->|_], (inAccepts i).
  - intros H1 H3. destruct (S3 (proj1 H1)) as [H4 H5]; [apply Hans; [apply H1|done]|done|]. split; [done|]. by apply Hup.
  - intros H1 m Hm Hx. apply (S4 ltac:(intros [H2 H3]; apply H1; by apply Hans)) with m; [done|]. by apply Hans; [apply Hx|].
  - intros H1 m Hm. apply Z.nle_gt. intros Hle. apply (S5 (proj1 H1)) with m; [apply Hans; [apply H1|done]|done|]. by apply Hup.
Qed.

(** ** The selector and the job *)
Lemma best_member health n members found : best health n members found = found \/ best health n members found ∈ members.
Proof.
  revert found. induction members as [|m members IH]; intros found; simpl; [by left|]. destruct (IH (if String.eqb found "" && (n <=? mhConsecutiveUp (health_of health m)) then m else found)) as [->|Hin].
  - destruct (_ && _); [right; apply elem_of_cons; by left|by left].
  - right. apply elem_of_cons. by right.
Qed.

(** Where a choice can lead. *)
Lemma select_target members health current needed fallback policy : dcShouldSwitch (SelectMember members health current needed fallback policy) = true ->
  dcTarget (SelectMember members health current needed fallback policy) ∈ members \/
  (dcTarget (SelectMember members health current needed fallback policy) = FailoverRejectOutboundTag /\ policy = AllDownPolicyBlock) \/
  (dcTarget (SelectMember members health current needed fallback policy) = fallback /\ fallback <> "").
Proof.
  unfold SelectMember. destruct members as [|first rest]; [done|]. set (members := first :: rest). assert (Hf : first ∈ members) by (apply elem_of_cons; by left). cbv zeta.
  destruct (String.eqb_spec (best health 1 members "") "") as [_|Hup].
  - destruct (String.eqb policy AllDownPolicyHoldCurrent).
    { destruct (indexOf current members); simpl; [by rewrite String.eqb_refl|by left]. }
    destruct (String.eqb_spec policy AllDownPolicyBlock) as [->|_]; [by right; left|]. destruct (negb (one_of _ _)); [done|].
    destruct (String.eqb_spec fallback "") as [_|Hfb]; simpl; [by left|by right; right].
  - assert (Hin : best health 1 members "" ∈ members) by (by destruct (best_member health 1 members "")). destruct (String.eqb current ""); [by left|].
    destruct (indexOf current members); [|by left]. destruct (negb (_ <=? _)); [by left|]. destruct (_ && _) eqn:E; simpl; [|by rewrite String.eqb_refl].
    intros _. left. destruct (best_member health (if needed <? 1 then DefaultHysteresis else needed) members "") as [Hb|Hb]; [|done].
    rewrite Hb in E. done.
Qed.

(** The members of the selector of an assembled group. *)
Definition selector_members (configs : list RuntimeOutbound) : list string :=
  match last configs with Some (Selector _ outbounds _ _) => outbounds | _ => [] end.

Section Core.
Context `{FailoverCodec}.

Lemma policy_of options opts : parseFailoverOptions options = Ok opts -> one_of (fpAllDownPolicy (foFailover opts)) [""; AllDownPolicyHoldCurrent; AllDownPolicyBlock; AllDownPolicyDirect] = true.
Proof. unfold parseFailoverOptions. destruct (String.eqb _ _); [done|]. destruct (unmarshalOptions options) as [o|]; [|done]. destruct (one_of _ _) eqn:E; [|done]. by intros [= <-]. Qed.

(** What the assembled selector lists. *)
Lemma assembled_members outbound directTag opts configs : parseFailoverOptions (obOptions outbound) = Ok opts -> AssembleFailoverOutboundsForCore outbound directTag = Ok configs ->
  (forall m, m ∈ foOutbounds opts -> m ∈ selector_members configs) /\
  (TrimSpace (finalTag opts directTag) <> "" -> TrimSpace (finalTag opts directTag) ∈ selector_members configs).
Proof.
  intros Hp. unfold AssembleFailoverOutboundsForCore. rewrite Hp. simpl. destruct (foOutbounds opts) as [|first rest] eqn:Eo; [done|]. rewrite <- Eo. set (fin := TrimSpace _).
  set (members := if _ && _ then foOutbounds opts ++ [fin] else foOutbounds opts).
  assert (Hm : (forall m, m ∈ foOutbounds opts -> m ∈ members) /\ (fin <> "" -> fin ∈ members)).
  { subst members. destruct (String.eqb_spec fin "") as [E|Hne]; cbn [negb andb]; [by split; [|intros ?]|].
    destruct (one_of fin (foOutbounds opts)) eqn:E1; cbn [negb]; [apply one_of_spec in E1; done|]. split; [intros m Hm; apply elem_of_app; by left|intros _; apply elem_of_app; right; by apply list_elem_of_singleton]. }
  destruct (String.eqb (finalChoice opts) FailoverFinalReject); intros [= <-]; exact Hm.
Qed.

(** Without a policy the final tag is never empty. *)
Lemma no_policy_final opts directTag : fpAllDownPolicy (foFailover opts) = "" -> TrimSpace directTag = directTag -> directTag <> "" -> TrimSpace (finalTag opts directTag) <> "".
Proof.
  intros Epol Hd Hne. unfold finalTag, finalChoice. rewrite Epol.
  change (String.eqb "" AllDownPolicyHoldCurrent) with false. change (String.eqb "" AllDownPolicyBlock) with false. change (String.eqb "" AllDownPolicyDirect) with false. cbv zeta iota.
  pose proof (TrimSpace_idem (foFinal opts)) as Hi. revert Hi. generalize (TrimSpace (foFinal opts)) as fin. intros fin Hi.
  destruct (one_of fin [""; FailoverFinalDirect]) eqn:E1; [change (TrimSpace directTag <> ""); by rewrite Hd|].
  destruct (String.eqb_spec fin FailoverFinalReject) as [_|E2]; [vm_compute; discriminate|].
  destruct (String.eqb_spec fin "") as [->|H1]; [discriminate E1|]. destruct (String.eqb_spec fin FailoverFinalDirect) as [->|H2]; [discriminate E1|].
  by rewrite (proj2 (String.eqb_neq _ _) E2), Hi.
Qed.

(** the core can make every switch that the job asks for.  For a stored group, the
    selector that the core was given with a direct tag lists every target that the job can
    choose with the same tag, whatever the health of the members and the member in use. *)
Theorem selector_offers_targets outbound directTag opts configs health current :
  parseFailoverOptions (obOptions outbound) = Ok opts -> AssembleFailoverOutboundsForCore outbound directTag = Ok configs -> TrimSpace directTag = directTag ->
  let group := group_of outbound opts directTag in
  let d := SelectMember (fgMembers group) health current (fgHysteresis group) (fallback_of group directTag) (fgAllDownPolicy group) in
  dcShouldSwitch d = true -> dcTarget d ∈ selector_members configs.
Proof.
  intros Hp Ha Hd group d Hs. destruct (assembled_members outbound directTag opts configs Hp Ha) as [Hm Hf].
  destruct (select_target _ _ _ _ _ _ Hs) as [Hin|[[Ht Hpol]|[Ht Hne]]]; fold d in Hin || fold d in Ht.
  - by apply Hm.
  - rewrite Ht. assert (E : TrimSpace (finalTag opts directTag) = FailoverRejectOutboundTag).
    { unfold finalTag, finalChoice. cbn [group group_of fgAllDownPolicy] in Hpol. rewrite Hpol. vm_compute. reflexivity. }
    rewrite <- E. apply Hf. rewrite E. done.
  - rewrite Ht. revert Hne. unfold fallback_of. cbn [group group_of fgFinalTag fgAllDownPolicy fgMembers].
    destruct (String.eqb_spec (TrimSpace (finalTag opts directTag)) "") as [E|E]; cbn [negb]; [|intros _; by apply Hf].
    destruct (String.eqb_spec (fpAllDownPolicy (foFailover opts)) "") as [Epol|_]; [|done]. destruct (String.eqb_spec directTag "") as [->|Hne]; [done|]. cbn [negb andb].
    destruct (one_of directTag (foOutbounds opts)); [done|]. intros _. by destruct (no_policy_final opts directTag Epol Hd Hne).
Qed.
(** ** What the selector refers to *)
(** The tags that [DirectFallbackTag] reads, in some order. *)
Definition direct_tags (rows : list Outbound) : list string := obTag <$> List.filter (fun r => String.eqb (obType r) DirectTag) rows.

Lemma direct_fallback_known rows tags : tags ≡ₚ direct_tags rows -> tags <> [] -> known rows (DirectFallbackTag (Some tags)).
Proof.
  intros Hp Hne. assert (Hk : forall t, t ∈ tags -> known rows t).
  { intros t Ht. rewrite Hp in Ht. apply list_elem_of_fmap in Ht as (r & -> & Hr). apply list_elem_of_fmap. exists r. split; [done|]. apply list_elem_of_In, filter_In in Hr as [Hr _]. by apply list_elem_of_In. }
  simpl. destruct (one_of DirectTag tags) eqn:E; [by apply Hk, one_of_spec|]. destruct tags as [|t tags]; [done|]. apply Hk, elem_of_cons. by left.
Qed.

Lemma finalChoice_trim opts : TrimSpace (finalChoice opts) = finalChoice opts.
Proof. unfold finalChoice. cbv zeta. do 3 (destruct (String.eqb (fpAllDownPolicy _) _); [done|]). destruct (one_of _ _); [done|]. destruct (String.eqb _ _); [done|apply TrimSpace_idem]. Qed.

(** The final tag of a validated group, or its support outbound. *)
Lemma validated_final groupTag opts rows directTag : validateFailoverFinal groupTag opts rows = Ok tt -> known rows directTag -> TrimSpace directTag = directTag ->
  let fin := TrimSpace (finalTag opts directTag) in
  fin = "" \/ known rows fin \/ (fin = FailoverRejectOutboundTag /\ finalChoice opts = FailoverFinalReject).
Proof.
  unfold validateFailoverFinal, finalTag. cbv zeta. pose proof (finalChoice_trim opts) as Hi. revert Hi. generalize (finalChoice opts) as fin. intros fin Hi Hv Hk Hd.
  destruct (String.eqb_spec fin "") as [->|H1]; [by left|]. destruct (String.eqb_spec fin FailoverFinalDirect) as [->|H2]; [right; left; by rewrite Hd|].
  destruct (String.eqb_spec fin FailoverFinalReject) as [->|H3]; [by right; right|]. right; left. rewrite Hi.
  destruct (one_of fin _) eqn:E; [apply one_of_spec in E; set_solver|]. destruct (String.eqb fin groupTag); [done|]. destruct (typeByTag rows fin) as [t|] eqn:Et; [|done]. by eapply typeByTag_known.
Qed.

(** the core is never given a selector of a failover group that names an outbound that
    does not exist.  When a group was validated against the outbounds of the table, among
    them a direct one, every tag that its selector lists belongs to an outbound of the
    table or to the block outbound that is assembled with it. *)
Theorem validated_selector_resolves rows outbound tags configs :
  validateFailoverGroup rows outbound = Ok tt -> tags ≡ₚ direct_tags rows -> tags <> [] ->
  let directTag := DirectFallbackTag (Some tags) in
  TrimSpace directTag = directTag -> AssembleFailoverOutboundsForCore outbound directTag = Ok configs ->
  forall tag, tag ∈ selector_members configs -> known rows tag \/ (tag = FailoverRejectOutboundTag /\ Block FailoverRejectOutboundTag ∈ configs).
Proof.
  intros Hv Hp Hne directTag Hd Ha tag Htag. pose proof (direct_fallback_known rows tags Hp Hne) as Hk. fold directTag in Hk. revert Hv Ha.
  unfold validateFailoverGroup, AssembleFailoverOutboundsForCore. destruct (parseFailoverOptions (obOptions outbound)) as [opts|]; cbn [rbind]; [|done]. destruct (foOutbounds opts) as [|first rest]; [done|].
  set (members := first :: rest). destruct (check_members _ rows members []) as [[]|] eqn:Hm; cbn [rbind]; [|done]. destruct (validateFailoverFinal _ opts rows) as [[]|] eqn:Hf; cbn [rbind]; [|done]. intros _.
  pose proof (validated_final _ opts rows directTag Hf Hk Hd) as Hfin. cbv zeta in Hfin. set (fin := TrimSpace (finalTag opts directTag)) in *.
  set (listed := if _ && _ then members ++ [fin] else members).
  assert (Hl : tag ∈ listed -> tag ∈ members \/ (tag = fin /\ fin <> "")).
  { subst listed. destruct (String.eqb_spec fin "") as [_|Hfe]; cbn [negb andb]; [by left|]. destruct (negb _); [|by left]. rewrite elem_of_app, list_elem_of_singleton. tauto. }
  assert (Hout : tag ∈ listed -> known rows tag \/ (tag = FailoverRejectOutboundTag /\ finalChoice opts = FailoverFinalReject)).
  { intros [H1|[-> H1]]%Hl; [left; by eapply (proj2 (check_members_spec _ _ _ _ Hm))|]. destruct Hfin as [?|[?|[? ?]]]; [done|by left|by right]. }
  destruct (String.eqb_spec (finalChoice opts) FailoverFinalReject) as [_|Hr]; intros [= <-]; cbn [selector_members last] in Htag; destruct (Hout Htag) as [?|[-> ?]]; try tauto.
  right. split; [done|]. apply elem_of_cons. by left.
Qed.
End Core.

(** ** A group of two members *)
Module Demo.
Definition options : failoverOptions := mkOptions ["a"; "b"] "" "" None (mkProbe None "" "10s" 2 "").

#[local] Instance codec : FailoverCodec := {|
  unmarshalOptions s := if String.eqb s "{}" then Some options else if String.eqb s "old" then Some (mkOptions ["a"] "" "" None (mkProbe None "" "10s" 2 "")) else None;
  ParseDuration s := if String.eqb s "10s" then Some (10 * second) else None;
  ParseURL u := if String.eqb u DefaultProbeTarget then Some (mkURL "https" "www.gstatic.com" false) else None;
  infrastructureAddr _ := false
|}.

Definition outbound : Outbound := mkOutbound FailoverType "main" "{}".
Definition rows : list Outbound := [mkOutbound "direct" "direct" ""; mkOutbound "vless" "a" ""; mkOutbound "vless" "b" ""].
Definition group : FailoverGroup := group_of outbound options DirectTag.

Definition results (a b : bool) : gmap string bool := {["a" := a; "b" := b]}.

(** The group as it is now, and before its second member was added. *)
Definition early : FailoverGroup := group_of (mkOutbound FailoverType "main" "old") (mkOptions ["a"] "" "" None (mkProbe None "" "10s" 2 "")) DirectTag.

(** The core starts on the first member, which fails; with the second member it answers
    twice. *)
Definition inputs : list input :=
  [mkInput early DirectTag (10 * second) {["a" := false]} (11 * second) (11 * second) "a" true;
   mkInput group DirectTag (30 * second) (results true true) (31 * second) (31 * second) "b" true].
Definition last_input : input := mkInput group DirectTag (50 * second) (results true true) (51 * second) (51 * second) "b" true.

Lemma group_stored : stored group.
Proof. exists rows, outbound, options, DirectTag. split_and!; [vm_compute; reflexivity|unfold known; apply (bool_decide_unpack _); vm_compute; exact I|vm_compute; reflexivity|reflexivity]. Qed.

Lemma early_stored : stored early.
Proof.
  exists rows, (mkOutbound FailoverType "main" "old"), (mkOptions ["a"] "" "" None (mkProbe None "" "10s" 2 "")), DirectTag.
  split_and!; [vm_compute; reflexivity|unfold known; apply (bool_decide_unpack _); vm_compute; exact I|vm_compute; reflexivity|reflexivity].
Qed.

Lemma failover_serves_answering_member_witness :
  exists states o, run_of (play inputs) last_input = (states, Some o) /\ dcTarget (ocDecision o) = "a" /\ seActive (ocStatus o) = "a" /\
    precedes ["a"; "b"] "a" "b" /\ 2 <= streak "main" "a" (vLog (play_round (play inputs) last_input)).
Proof.
  destruct (failover_serves_answering_member inputs last_input) as (states & o & E & Hans & _ & Hact & Hup & _).
  - repeat (apply Forall_cons; split); [apply early_stored|apply group_stored|apply group_stored|apply Forall_nil; exact I].
  - reflexivity.
  - vm_compute. reflexivity.
  - exists "a". split; [apply (bool_decide_unpack _); vm_compute; exact I|vm_compute; reflexivity].
  - assert (Ht : dcTarget (ocDecision o) = "a") by (vm_compute in E; injection E as _ <-; reflexivity).
    exists states, o. rewrite Ht in *. split; [exact E|]. split; [reflexivity|]. split; [exact Hact|]. apply Hup; [|discriminate].
    split; [apply (bool_decide_unpack _); vm_compute; exact I|vm_compute; reflexivity].
Defined.

Lemma selector_offers_targets_witness :
  let d := SelectMember ["a"; "b"] ∅ "a" 2 DirectTag "" in dcTarget d = "direct" /\ dcTarget d ∈ ["a"; "b"; "direct"].
Proof.
  split; [vm_compute; reflexivity|].
  exact (selector_offers_targets outbound DirectTag options [Selector "main" ["a"; "b"; "direct"] "a" None] ∅ "a" eq_refl eq_refl ltac:(vm_compute; reflexivity) ltac:(vm_compute; reflexivity)).
Defined.

Lemma validated_selector_resolves_witness : known rows "direct" \/ ("direct" = FailoverRejectOutboundTag /\ Block FailoverRejectOutboundTag ∈ [Selector "main" ["a"; "b"; "direct"] "a" None]).
Proof.
  apply (validated_selector_resolves rows outbound ["direct"] [Selector "main" ["a"; "b"; "direct"] "a" None]).
  - vm_compute. reflexivity.
  - reflexivity.
  - discriminate.
  - vm_compute. reflexivity.
  - vm_compute. reflexivity.
  - apply (bool_decide_unpack _). vm_compute. exact I.
Defined.

(** Without a direct outbound in the table the group is accepted all the same, and its
    selector lists a tag that no outbound has. *)
Lemma direct_may_dangle :
  let rows := [mkOutbound "vless" "a" ""; mkOutbound "vless" "b" ""] in
  validateFailoverGroup rows outbound = Ok tt /\ direct_tags rows = [] /\
  AssembleFailoverOutboundsForCore outbound (DirectFallbackTag (Some [])) = Ok [Selector "main" ["a"; "b"; "direct"] "a" None] /\ ~ known rows "direct".
Proof. split_and!; [vm_compute; reflexivity..|unfold known; apply (bool_decide_unpack _); vm_compute; exact I]. Qed.

(** When the core refuses the switch on the run that finds every member down, that run
    raises no alert. *)
Lemma refused_switch_raises_no_alert :
  option_map (fun o => (dcAllDown (ocDecision o), ocAlert o)) (runGroup group DirectTag (mkRound (10 * second) (results false false) (11 * second) (11 * second) "a" false) ∅).2 = Some (true, false).
Proof. vm_compute. reflexivity. Qed.
End Demo.
