(* ===== verification/NetAddr.v ===== *)
(** * Addresses of the network ([net/netip], [net.SplitHostPort])

    What the components use of Go's packages for addresses: parsing and printing of IPv4
    and IPv6 addresses, prefixes, and the split of an authority into host and port.  An
    address is a number with its family, and an IPv6 address may have a zone.  Parsing a
    printed address gives the address back. *)

From S2P Require Import Prelude GoStrings VersionPolicy.

Open Scope string_scope.
Open Scope list_scope.
Open Scope Z_scope.

Definition colon : Ascii.ascii := Ascii.ascii_of_nat 58.
Definition slash : Ascii.ascii := Ascii.ascii_of_nat 47.
Definition percent : Ascii.ascii := Ascii.ascii_of_nat 37.
Definition open_bracket : Ascii.ascii := Ascii.ascii_of_nat 91.
Definition close_bracket : Ascii.ascii := Ascii.ascii_of_nat 93.

Inductive Addr :=
| V4 (z : Z)
| V6 (z : Z) (zone : string).

#[global] Instance Addr_eq_dec : EqDecision Addr.
Proof. solve_decision. Defined.

(** ** Numbers in a base, the most significant digit first *)
Fixpoint digits (base : Z) (n : nat) (z : Z) : list Z :=
  match n with
  | O => []
  | S n' => digits base n' (z / base) ++ [z mod base]
  end.

Definition undigits (base : Z) (l : list Z) : Z := foldl (fun acc d => base * acc + d) 0 l.

Definition octets (z : Z) : list Z := digits 256 4 z.
Definition groups (z : Z) : list Z := digits 65536 8 z.

(** ** Parsing *)
Definition octet (s : string) : option Z :=
  match parseNumericIdentifier s with Some z => if z <=? 255 then Some z else None | None => None end.

(** [parseIPv4Fields]: four numbers without leading zeros. *)
Definition parseIPv4 (s : string) : option Z :=
  match mapM octet (Split s dot) with
  | Some [a; b; c; d] => Some (undigits 256 [a; b; c; d])
  | _ => None
  end.

Definition hex_value (c : Ascii.ascii) : option Z :=
  if is_digit c then Some (code c - 48)
  else if between 97 102 c then Some (code c - 87)
  else if between 65 70 c then Some (code c - 55)
  else None.

(** The value of the leading hexadecimal digits, their number, and what follows. *)
Fixpoint hex_run (acc : Z) (off : nat) (s : string) : Z * nat * string :=
  match s with
  | "" => (acc, off, s)
  | String c s' => match hex_value c with Some d => hex_run (16 * acc + d) (S off) s' | None => (acc, off, s) end
  end.

(** The loop of [parseIPv6] over the groups, of which [room] still fit; [done] are the
    groups so far and [ellipsis] is where the zeros go. *)
Fixpoint parse_groups (room : nat) (done : list Z) (ellipsis : option nat) (s : string) : option (list Z * option nat) :=
  match room with
  | O => if String.eqb s "" then Some (done, ellipsis) else None
  | S room' =>
      let '(acc, off, rest) := hex_run 0 0 s in
      if Nat.eqb off 0 || Nat.ltb 4 off then None
      else match rest with
      | "" => Some (done ++ [acc], ellipsis)
      | String c rest' =>
          if Ascii.eqb c dot then
            if match ellipsis with None => negb (Nat.eqb (length done) 6) | Some _ => false end || Nat.ltb room 2 then None
            else match parseIPv4 s with
                 | Some z => Some (done ++ digits 65536 2 z, ellipsis)
                 | None => None
                 end
          else if negb (Ascii.eqb c colon) then None
          else match rest' with
          | "" => None
          | String c2 rest2 =>
              if Ascii.eqb c2 colon then
                match ellipsis with
                | Some _ => None
                | None =>
                    let done := done ++ [acc] in
                    if String.eqb rest2 "" then Some (done, Some (length done)) else parse_groups room' done (Some (length done)) rest2
                end
              else parse_groups room' (done ++ [acc]) ellipsis rest'
          end
      end
  end.

(** The zeros that the ellipsis stands for: at least one group. *)
Definition expand (parsed : list Z * option nat) : option (list Z) :=
  let '(l, ellipsis) := parsed in
  let n := (8 - length l)%nat in
  match ellipsis with
  | None => if Nat.eqb n 0 then Some l else None
  | Some e => if Nat.eqb n 0 then None else Some (take e l ++ replicate n 0 ++ drop e l)
  end.

(** The address without its zone; it may start with the ellipsis. *)
Definition parse_body (s : string) : option (list Z * option nat) :=
  match s with
  | String c1 (String c2 rest) =>
      if Ascii.eqb c1 colon && Ascii.eqb c2 colon
      then if String.eqb rest "" then Some ([], Some O) else parse_groups 8 [] (Some O) rest
      else parse_groups 8 [] None s
  | _ => parse_groups 8 [] None s
  end.

Definition parseIPv6 (s : string) : option Addr :=
  let '(s, zone, zoned) := Cut s percent in
  if zoned && String.eqb zone "" then None
  else l ← parse_body s; l ← expand l; Some (V6 (undigits 65536 l) zone).

(** The first dot, colon or percent sign decides. *)
Fixpoint family (s : string) : option bool :=
  match s with
  | "" => None
  | String c s' => if Ascii.eqb c dot then Some false else if Ascii.eqb c colon then Some true else if Ascii.eqb c percent then None else family s'
  end.

Definition ParseAddr (s : string) : option Addr :=
  match family s with
  | None => None
  | Some false => V4 <$> parseIPv4 s
  | Some true => parseIPv6 s
  end.

(** ** Properties of an address *)
Definition Zone (a : Addr) : string := match a with V4 _ => "" | V6 _ zone => zone end.
Definition Is4 (a : Addr) : bool := match a with V4 _ => true | V6 _ _ => false end.
Definition Is6 (a : Addr) : bool := negb (Is4 a).
Definition BitLen (a : Addr) : Z := if Is4 a then 32 else 128.
Definition Is4In6 (a : Addr) : bool := match a with V4 _ => false | V6 z _ => Z.shiftr z 32 =? 65535 end.
Definition Unmap (a : Addr) : Addr := match a with V6 z _ => if Is4In6 a then V4 (z mod 2 ^ 32) else a | V4 _ => a end.
Definition bits_of (a : Addr) : Z := match a with V4 z => z | V6 z _ => z end.

(** ** Printing *)
Definition hex_digit (d : Z) : Ascii.ascii := Ascii.ascii_of_nat (Z.to_nat (if d <? 10 then 48 + d else 87 + d)).

(** [appendHex]: without leading zeros. *)
Definition group_string (x : Z) : string :=
  let tail := String (hex_digit (x mod 16)) "" in
  if 16 <=? x then
    let tail := String (hex_digit (x / 16 mod 16)) tail in
    if 256 <=? x then
      let tail := String (hex_digit (x / 256 mod 16)) tail in
      if 4096 <=? x then String (hex_digit (x / 4096 mod 16)) tail else tail
    else tail
  else tail.

Fixpoint zero_run (l : list Z) : nat :=
  match l with
  | x :: l' => if x =? 0 then S (zero_run l') else O
  | [] => O
  end.

(** The first of the longest runs of at least two zeros: where it starts and its length. *)
Fixpoint best_zeros (i : nat) (l : list Z) (found : nat * nat) : nat * nat :=
  match l with
  | [] => found
  | _ :: l' => best_zeros (S i) l' (if Nat.leb 2 (zero_run l) && Nat.ltb found.2 (zero_run l) then (i, zero_run l) else found)
  end.

Definition string6 (z : Z) : string :=
  let l := groups z in
  let '(start, n) := best_zeros 0 l (O, O) in
  if Nat.eqb n 0 then Join (group_string <$> l) ":"
  else Join (group_string <$> take start l) ":" +:+ "::" +:+ Join (group_string <$> drop (start + n) l) ":".

Definition string4 (z : Z) : string := Join (Itoa <$> octets z) ".".

Definition AddrString (a : Addr) : string :=
  match a with
  | V4 z => string4 z
  | V6 z zone =>
      (if Is4In6 a then "::ffff:" +:+ string4 (z mod 2 ^ 32) else string6 z) +:+ (if String.eqb zone "" then "" else "%" +:+ zone)
  end.

(** ** Prefixes *)
Record Prefix := mkPrefix { pfAddr : Addr; pfBits : Z }.

(** [PrefixFrom] drops the zone; the callers give it a length that fits. *)
Definition PrefixFrom (a : Addr) (bits : Z) : Prefix := mkPrefix (match a with V6 z _ => V6 z "" | V4 _ => a end) bits.

Definition mask (width bits z : Z) : Z := Z.shiftl (Z.shiftr z (width - bits)) (width - bits).

Definition Masked (p : Prefix) : Prefix :=
  mkPrefix (match pfAddr p with V4 z => V4 (mask 32 (pfBits p) z) | V6 z zone => V6 (mask 128 (pfBits p) z) zone end) (pfBits p).

Definition PrefixContains (p : Prefix) (a : Addr) : bool :=
  String.eqb (Zone a) "" && (BitLen (pfAddr p) =? BitLen a) && (Z.shiftr (Z.lxor (bits_of (pfAddr p)) (bits_of a)) (BitLen a - pfBits p) =? 0).

Definition PrefixString (p : Prefix) : string := AddrString (pfAddr p) +:+ "/" +:+ Itoa (pfBits p).

(** What precedes the last [c] and what follows it. *)
Fixpoint CutLast (s : string) (c : Ascii.ascii) : option (string * string) :=
  match s with
  | "" => None
  | String d s' =>
      match CutLast s' c with
      | Some (before, after) => Some (String d before, after)
      | None => if Ascii.eqb d c then Some ("", s') else None
      end
  end.

Definition ParsePrefix (s : string) : option Prefix :=
  match CutLast s slash with
  | None => None
  | Some (address, bitsStr) =>
      match ParseAddr address with
      | None => None
      | Some a =>
          if negb (String.eqb (Zone a) "") then None
          else if match bitsStr with String c (String _ _) => negb (between 49 57 c) | _ => false end then None
          else match AtoiSigned bitsStr with
               | Some bits => if (0 <=? bits) && (bits <=? BitLen a) then Some (PrefixFrom a bits) else None
               | None => None
               end
      end
  end.

Definition IsLoopback (a : Addr) : bool :=
  match Unmap a with V4 z => Z.shiftr z 24 =? 127 | V6 z _ => z =? 1 end.

Definition IsPrivate (a : Addr) : bool :=
  match Unmap a with
  | V4 z => (Z.shiftr z 24 =? 10) || (Z.shiftr z 20 =? 2753) || (Z.shiftr z 16 =? 49320)
  | V6 z _ => Z.shiftr z 121 =? 126
  end.

(** ** Host and port *)
Definition SplitHostPort (hostport : string) : option (string * string) :=
  match CutLast hostport colon with
  | None => None
  | Some (before, port) =>
      match hostport with
      | String c rest =>
          if Ascii.eqb c open_bracket then
            let '(host, after, found) := Cut rest close_bracket in
            if negb found || negb (String.eqb before (String c (host +:+ String close_bracket ""))) then None
            else if has_char open_bracket rest || has_char close_bracket after then None
            else Some (host, port)
          else if has_char colon before then None
          else if has_char open_bracket hostport || has_char close_bracket hostport then None
          else Some (before, port)
      | "" => None
      end
  end.

Definition JoinHostPort (host port : string) : string :=
  if has_char colon host then "[" +:+ host +:+ "]:" +:+ port else host +:+ ":" +:+ port.

(** ** Numbers and their digits *)
Section Digits.
Context (base : Z) (Hbase : 1 < base).

Lemma length_digits n z : length (digits base n z) = n.
Proof. revert z. induction n as [|n IH]; intros z; [done|]. cbn [digits]. rewrite length_app, IH. simpl. lia. Qed.

Lemma digits_range n z : Forall (fun d => 0 <= d < base) (digits base n z).
Proof. revert z. induction n as [|n IH]; intros z; [constructor|]. cbn [digits]. apply Forall_app. split; [apply IH|]. constructor; [apply Z.mod_pos_bound; lia|constructor]. Qed.

Lemma undigits_snoc l d : undigits base (l ++ [d]) = base * undigits base l + d.
Proof. unfold undigits. by rewrite foldl_app. Qed.

Lemma undigits_digits n z : 0 <= z < base ^ Z.of_nat n -> undigits base (digits base n z) = z.
Proof.
  revert z. induction n as [|n IH]; intros z Hz; [change (0 = z); simpl in Hz; lia|]. cbn [digits]. rewrite undigits_snoc, IH.
  - pose proof (Z.div_mod z base ltac:(lia)). lia.
  - rewrite Nat2Z.inj_succ, Z.pow_succ_r in Hz by lia. split; [apply Z.div_pos; lia|]. apply Z.div_lt_upper_bound; lia.
Qed.

Lemma digits_undigits l : Forall (fun d => 0 <= d < base) l -> digits base (length l) (undigits base l) = l.
Proof.
  induction l as [|d l IH] using rev_ind; intros Hl; [done|]. apply Forall_app in Hl as [Hl Hd]. rewrite Forall_singleton in Hd. cbv beta in Hd.
  rewrite length_app, Nat.add_comm. cbn [length Nat.add digits]. rewrite undigits_snoc.
  rewrite <- (Z.div_unique (base * undigits base l + d) base (undigits base l) d), <- (Z.mod_unique (base * undigits base l + d) base (undigits base l) d) by lia. by rewrite IH.
Qed.

Lemma undigits_range l : Forall (fun d => 0 <= d < base) l -> 0 <= undigits base l < base ^ Z.of_nat (length l).
Proof.
  induction l as [|d l IH] using rev_ind; intros Hl; [change (0 <= 0 < 1); lia|]. apply Forall_app in Hl as [Hl Hd]. rewrite Forall_singleton in Hd. cbv beta in Hd. specialize (IH Hl).
  rewrite undigits_snoc, length_app, Nat.add_comm. cbn [length Nat.add]. rewrite Nat2Z.inj_succ, Z.pow_succ_r by lia. nia.
Qed.
End Digits.

(** The range of an address. *)
Definition addr_ok (a : Addr) : Prop := match a with V4 z => 0 <= z < 2 ^ 32 | V6 z _ => 0 <= z < 2 ^ 128 end.

(** ** Addresses of four octets *)
Lemma octet_Itoa d : 0 <= d < 256 -> octet (Itoa d) = Some d.
Proof. intros Hd. unfold octet. rewrite parse_Itoa by (unfold int64_max; lia). by rewrite (proj2 (Z.leb_le d 255)) by lia. Qed.

Lemma octet_range s d : octet s = Some d -> 0 <= d < 256.
Proof. unfold octet. destruct (parseNumericIdentifier s) as [z|] eqn:E; [|done]. apply parse_canonical in E as [_ E]. destruct (Z.leb_spec z 255); [|done]. intros [= <-]. lia. Qed.

Lemma digit_not_char c s : is_digit c = false -> all_chars is_digit s = true -> has_char c s = false.
Proof.
  intros Hc Hs. unfold has_char. apply negb_false_iff. revert Hs. apply all_chars_impl. intros d Hd. apply negb_true_iff, Ascii.eqb_neq. intros ->. congruence.
Qed.

Lemma parseIPv4_string4 z : 0 <= z < 2 ^ 32 -> parseIPv4 (string4 z) = Some z.
Proof.
  intros Hz. unfold parseIPv4, string4. pose proof (digits_range 256 ltac:(lia) 4 z) as Hr. fold (octets z) in Hr.
  assert (Hl : length (octets z) = 4%nat) by apply length_digits.
  change "." with (String dot ""). rewrite Split_Join.
  - assert (Hm : mapM octet (Itoa <$> octets z) = Some (octets z)).
    { apply mapM_Some. clear Hl. induction Hr as [|d l Hd _ IH]; [constructor|]. constructor; [by apply octet_Itoa|done]. }
    rewrite Hm. destruct (octets z) as [|a [|b [|c [|d [|e l]]]]] eqn:E; try done. f_equal. rewrite <- E. by apply (undigits_digits 256 ltac:(lia) 4).
  - destruct (octets z); done.
  - apply Forall_fmap. eapply Forall_impl; [exact Hr|]. intros d Hd. cbv beta in Hd. apply digit_not_char; [done|]. apply Itoa_digits. lia.
Qed.

Lemma parseIPv4_range s z : parseIPv4 s = Some z -> 0 <= z < 2 ^ 32.
Proof.
  unfold parseIPv4. destruct (mapM octet (Split s dot)) as [l|] eqn:E; [|done]. apply mapM_Some in E.
  destruct l as [|a [|b [|c [|d [|e l]]]]]; try done. intros [= <-]. apply (undigits_range 256 ltac:(lia) [a; b; c; d]).
  clear -E. induction E as [|x y l k Hx _ IH]; [constructor|]. constructor; [by eapply octet_range|done].
Qed.

(** ** Addresses of eight groups *)
Lemma hex_digit_value d : 0 <= d < 16 -> hex_value (hex_digit d) = Some d.
Proof.
  intros Hd. assert (HF : Forall (fun d => hex_value (hex_digit d) = Some d) (seqZ 0 16)) by (apply (bool_decide_unpack _); vm_compute; exact I).
  rewrite Forall_forall in HF. apply HF, elem_of_seqZ. lia.
Qed.

Definition lower_hexdigit (c : Ascii.ascii) : bool := is_digit c || between 97 102 c.

(** A string that does not start with a hexadecimal digit. *)
Definition no_hex (s : string) : bool := match s with "" => true | String c _ => match hex_value c with Some _ => false | None => true end end.

Lemma hex_run_stop acc off s : no_hex s = true -> hex_run acc off s = (acc, off, s).
Proof. destruct s as [|c s]; [done|]. simpl. by destruct (hex_value c). Qed.

Lemma hex_run_digit acc off d s : 0 <= d < 16 -> hex_run acc off (String (hex_digit d) s) = hex_run (16 * acc + d) (S off) s.
Proof. intros Hd. cbn [hex_run]. by rewrite hex_digit_value. Qed.

Lemma hex_run_group x s : 0 <= x < 65536 -> no_hex s = true -> exists off, hex_run 0 0 (group_string x +:+ s) = (x, off, s) /\ (1 <= off <= 4)%nat.
Proof.
  intros Hx Hs. unfold group_string. pose proof (Z.mod_pos_bound x 16 ltac:(lia)). pose proof (Z.mod_pos_bound (x / 16) 16 ltac:(lia)). pose proof (Z.mod_pos_bound (x / 256) 16 ltac:(lia)). pose proof (Z.mod_pos_bound (x / 4096) 16 ltac:(lia)).
  assert (E1 : x = 16 * (x / 16) + x mod 16) by (apply Z.div_mod; lia).
  assert (E2 : x / 16 = 16 * (x / 256) + x / 16 mod 16) by (change 256 with (16 * 16); rewrite <- Z.div_div by lia; apply Z.div_mod; lia).
  assert (E3 : x / 256 = 16 * (x / 4096) + x / 256 mod 16) by (change 4096 with (256 * 16); rewrite <- Z.div_div by lia; apply Z.div_mod; lia).
  assert (E4 : x / 4096 = x / 4096 mod 16) by (rewrite Z.mod_small; [done|]; split; [apply Z.div_pos; lia|apply Z.div_lt_upper_bound; lia]).
  assert (Ha : forall c t, String c t +:+ s = String c (t +:+ s)) by done.
  destruct (Z.leb_spec 16 x); [destruct (Z.leb_spec 256 x); [destruct (Z.leb_spec 4096 x)|]|].
  - exists 4%nat. rewrite !Ha, !hex_run_digit by done. rewrite hex_run_stop by done. split; [|lia]. do 2 f_equal. lia.
  - exists 3%nat. rewrite !Ha, !hex_run_digit by done. rewrite hex_run_stop by done. split; [|lia]. assert (x / 4096 = 0) by (apply Z.div_small; lia). do 2 f_equal. lia.
  - exists 2%nat. rewrite !Ha, !hex_run_digit by done. rewrite hex_run_stop by done. split; [|lia]. assert (x / 256 = 0) by (apply Z.div_small; lia). do 2 f_equal. lia.
  - exists 1%nat. rewrite !Ha, !hex_run_digit by done. rewrite hex_run_stop by done. split; [|lia]. assert (x / 16 = 0) by (apply Z.div_small; lia). do 2 f_equal. lia.
Qed.

Lemma hex_value_colon : hex_value colon = None.
Proof. done. Qed.

Definition group_ok (x : Z) : Prop := 0 <= x < 65536.

Lemma group_head x : 0 <= x -> exists c t, group_string x = String c t /\ Ascii.eqb c colon = false.
Proof.
  intros Hx. assert (Hd : forall d, 0 <= d < 16 -> Ascii.eqb (hex_digit d) colon = false).
  { intros d Hd. apply Ascii.eqb_neq. intros E. pose proof (hex_digit_value d Hd) as Hv. rewrite E in Hv. discriminate Hv. }
  unfold group_string. cbv zeta. destruct (16 <=? x); [destruct (256 <=? x); [destruct (4096 <=? x)|]|]; eexists _, _; (split; [reflexivity|]); apply Hd, Z.mod_pos_bound; lia.
Qed.

(** One group, followed by the end, by a colon or by two. *)
Lemma parse_last room done_ e x : group_ok x -> parse_groups (S room) done_ e (group_string x) = Some (done_ ++ [x], e).
Proof.
  intros Hx. destruct (hex_run_group x "" Hx eq_refl) as (off & Hr & Ho). rewrite app_empty_r in Hr. cbn [parse_groups]. rewrite Hr. cbv iota beta.
  by destruct off as [|[|[|[|[|off]]]]]; [lia| | | | |lia].
Qed.

Lemma parse_next room done_ e x c s : group_ok x -> Ascii.eqb c colon = false ->
  parse_groups (S room) done_ e (group_string x +:+ String colon (String c s)) = parse_groups room (done_ ++ [x]) e (String c s).
Proof.
  intros Hx Hc. destruct (hex_run_group x (String colon (String c s)) Hx eq_refl) as (off & Hr & Ho). cbn [parse_groups]. rewrite Hr. cbv iota beta.
  change (Ascii.eqb colon dot) with false. change (Ascii.eqb colon colon) with true. cbn [negb]. rewrite Hc.
  by destruct off as [|[|[|[|[|off]]]]]; [lia| | | | |lia].
Qed.

Lemma parse_ellipsis room done_ x s : group_ok x ->
  parse_groups (S room) done_ None (group_string x +:+ String colon (String colon s)) =
  if String.eqb s "" then Some (done_ ++ [x], Some (length (done_ ++ [x]))) else parse_groups room (done_ ++ [x]) (Some (length (done_ ++ [x]))) s.
Proof.
  intros Hx. destruct (hex_run_group x (String colon (String colon s)) Hx eq_refl) as (off & Hr & Ho). cbn [parse_groups]. rewrite Hr. cbv iota beta zeta.
  change (Ascii.eqb colon dot) with false. change (Ascii.eqb colon colon) with true. cbn [negb].
  by destruct off as [|[|[|[|[|off]]]]]; [lia| | | | |lia].
Qed.

Lemma Join_cons2 (x y : string) l : Join (x :: y :: l) ":" = x +:+ String colon (Join (y :: l) ":").
Proof. done. Qed.

Lemma Join_head x l : 0 <= x -> exists c t, Join (group_string <$> x :: l) ":" = String c t /\ Ascii.eqb c colon = false.
Proof.
  intros Hx. destruct (group_head x Hx) as (c & t & E & Hc). rewrite fmap_cons. destruct l as [|y l]; [exists c, t; by rewrite <- E|]. rewrite fmap_cons, Join_cons2, E. by eexists _, _.
Qed.

Lemma parse_join l room done_ e : l <> [] -> Forall group_ok l -> (length l <= room)%nat ->
  parse_groups room done_ e (Join (group_string <$> l) ":") = Some (done_ ++ l, e).
Proof.
  revert room done_. induction l as [|x [|y l] IH]; intros room done_ Hne Hl Hr; [done|..]; (destruct room as [|room]; [simpl in Hr; lia|]); apply Forall_cons in Hl as [Hx Hl].
  - by apply parse_last.
  - apply Forall_cons in Hl as Hy. destruct Hy as [Hy _]. destruct (Join_head y l ltac:(unfold group_ok in Hy; lia)) as (c & t & E & Hc).
    rewrite !fmap_cons, Join_cons2, <- fmap_cons, E, parse_next, <- E by done. rewrite IH; [by rewrite <- app_assoc|done|done|simpl in *; lia].
Qed.

Lemma parse_join_ellipsis l room done_ s : l <> [] -> Forall group_ok l -> (length l <= room)%nat ->
  parse_groups room done_ None (Join (group_string <$> l) ":" +:+ String colon (String colon s)) =
  if String.eqb s "" then Some (done_ ++ l, Some (length (done_ ++ l))) else parse_groups (room - length l) (done_ ++ l) (Some (length (done_ ++ l))) s.
Proof.
  revert room done_. induction l as [|x [|y l] IH]; intros room done_ Hne Hl Hr; [done|..]; (destruct room as [|room]; [simpl in Hr; lia|]); apply Forall_cons in Hl as [Hx Hl].
  - replace (S room - length [x])%nat with room by (simpl; lia). by apply parse_ellipsis.
  - apply Forall_cons in Hl as Hy. destruct Hy as [Hy _]. destruct (Join_head y l ltac:(unfold group_ok in Hy; lia)) as (c & t & E & Hc).
    rewrite !fmap_cons, Join_cons2, <- fmap_cons, <- app_assoc_str. change (String colon ?u +:+ ?v) with (String colon (u +:+ v)).
    rewrite E. change (String c t +:+ ?v) with (String c (t +:+ v)). rewrite parse_next by done. change (String c (t +:+ ?v)) with (String c t +:+ v). rewrite <- E.
    rewrite IH; [|done|done|simpl in *; lia]. rewrite <- app_assoc. done.
Qed.

Lemma zero_run_spec l : l = replicate (zero_run l) 0 ++ drop (zero_run l) l.
Proof. induction l as [|x l IH]; [done|]. cbn [zero_run]. destruct (Z.eqb_spec x 0) as [->|_]; [|done]. simpl. by f_equal. Qed.

(** A run of zeros of a list: where it starts and how long it is. *)
Definition is_run (l : list Z) (r : nat * nat) : Prop := r.2 = O \/ l = take r.1 l ++ replicate r.2 0 ++ drop (r.1 + r.2) l.

Lemma best_zeros_spec l l1 l2 found : l = l1 ++ l2 -> is_run l found -> is_run l (best_zeros (length l1) l2 found).
Proof.
  revert l1 found. induction l2 as [|x l2 IH]; intros l1 found E Hf; [done|]. cbn [best_zeros].
  replace (S (length l1)) with (length (l1 ++ [x])) by (rewrite length_app; simpl; lia). apply IH; [by rewrite <- app_assoc|].
  destruct (_ && _); [|done]. right. cbn [fst snd]. rewrite E. rewrite take_app_length, drop_app_add. f_equal. apply zero_run_spec.
Qed.

Lemma expand_run l start n : l = take start l ++ replicate n 0 ++ drop (start + n) l -> length l = 8%nat -> n <> O ->
  expand (take start l ++ drop (start + n) l, Some (length (take start l))) = Some l.
Proof.
  intros E Hl Hn. assert (Hlen : length l = (length (take start l) + (n + length (drop (start + n) l)))%nat) by (rewrite E at 1; rewrite !length_app, length_replicate; done).
  unfold expand. rewrite length_app. replace (8 - (length (take start l) + length (drop (start + n) l)))%nat with n by lia.
  destruct n as [|n]; [done|]. rewrite take_app_length, drop_app_length. cbn [Nat.eqb]. by rewrite <- E.
Qed.

Lemma group_chars x : 0 <= x -> all_chars lower_hexdigit (group_string x) = true.
Proof.
  intros Hx. assert (Hd : forall d, 0 <= d < 16 -> lower_hexdigit (hex_digit d) = true).
  { assert (HF : Forall (fun d => lower_hexdigit (hex_digit d) = true) (seqZ 0 16)) by (apply (bool_decide_unpack _); vm_compute; exact I). rewrite Forall_forall in HF. intros d Hd. apply HF, elem_of_seqZ. lia. }
  unfold group_string. cbv zeta. destruct (16 <=? x); [destruct (256 <=? x); [destruct (4096 <=? x)|]|]; cbn [all_chars]; rewrite !Hd by (apply Z.mod_pos_bound; lia); done.
Qed.

Lemma all_chars_Join p sep l : all_chars p sep = true -> Forall (fun s => all_chars p s = true) l -> all_chars p (Join l sep) = true.
Proof.
  intros Hs. induction l as [|x [|y l] IH]; intros Hl; [done|by apply Forall_cons in Hl as [? _]|]. apply Forall_cons in Hl as [Hx Hl].
  change (Join (x :: y :: l) sep) with (x +:+ sep +:+ Join (y :: l) sep). rewrite !all_chars_app, Hx, Hs. by apply IH.
Qed.

(** The characters of a printed address. *)
Definition addr_char (c : Ascii.ascii) : bool := lower_hexdigit c || Ascii.eqb c colon || Ascii.eqb c dot.

Lemma join_groups_chars l : Forall group_ok l -> all_chars addr_char (Join (group_string <$> l) ":") = true.
Proof.
  intros Hl. apply all_chars_Join; [done|]. apply Forall_fmap. eapply Forall_impl; [exact Hl|]. intros x Hx. cbn. unfold group_ok in Hx.
  eapply all_chars_impl; [|apply group_chars; lia]. intros c. unfold addr_char. by intros ->.
Qed.

Lemma groups_ok z : Forall group_ok (groups z).
Proof. apply (digits_range 65536 ltac:(lia)). Qed.

Lemma string6_chars z : all_chars addr_char (string6 z) = true.
Proof.
  unfold string6. destruct (best_zeros 0 (groups z) (O, O)) as [start n]. destruct (Nat.eqb n 0); [apply join_groups_chars, groups_ok|].
  rewrite !all_chars_app, !join_groups_chars; [done|apply Forall_drop, groups_ok|apply Forall_take, groups_ok].
Qed.

Lemma string4_chars z : all_chars addr_char (string4 z) = true.
Proof.
  apply all_chars_Join; [done|]. apply Forall_fmap. eapply Forall_impl; [apply (digits_range 256 ltac:(lia))|]. intros d Hd. cbn. cbv beta in Hd.
  eapply all_chars_impl; [|apply Itoa_digits; lia]. intros c Hc. unfold addr_char, lower_hexdigit. by rewrite Hc.
Qed.

Lemma addr_char_not c s : addr_char c = false -> all_chars addr_char s = true -> has_char c s = false.
Proof. intros Hc Hs. unfold has_char. apply negb_false_iff. revert Hs. apply all_chars_impl. intros d Hd. apply negb_true_iff, Ascii.eqb_neq. intros ->. congruence. Qed.

Lemma parse_body_head c t : Ascii.eqb c colon = false -> parse_body (String c t) = parse_groups 8 [] None (String c t).
Proof. intros Hc. unfold parse_body. destruct t; [done|]. by rewrite Hc. Qed.

Lemma parse_body_string6 z : (l ← parse_body (string6 z); expand l) = Some (groups z).
Proof.
  pose proof (groups_ok z) as Hok. assert (Hl : length (groups z) = 8%nat) by apply length_digits. unfold string6.
  pose proof (best_zeros_spec (groups z) [] (groups z) (O, O) eq_refl (or_introl eq_refl)) as Hrun. simpl length in Hrun.
  destruct (best_zeros 0 (groups z) (O, O)) as [start n]. destruct (Nat.eqb_spec n 0) as [->|Hn].
  - destruct (groups z) as [|x l] eqn:E; [done|]. apply Forall_cons in Hok as Hx. destruct Hx as [Hx _]. destruct (Join_head x l ltac:(unfold group_ok in Hx; lia)) as (c & t & Ej & Hc).
    rewrite Ej, parse_body_head, <- Ej by done. rewrite parse_join by (done || lia). cbn [mbind option_bind app]. unfold expand. by rewrite Hl.
  - destruct Hrun as [?|Hrun]; [done|]. cbn [fst snd] in Hrun. pose proof (expand_run _ _ _ Hrun Hl Hn) as Hexp. revert Hexp.
    assert (Hlen : (length (take start (groups z)) + length (drop (start + n) (groups z)) < 8)%nat).
    { rewrite <- Hl. rewrite Hrun at 3. rewrite !length_app, length_replicate. lia. }
    assert (Hpre : Forall group_ok (take start (groups z))) by by apply Forall_take. assert (Hpost : Forall group_ok (drop (start + n) (groups z))) by by apply Forall_drop.
    revert Hlen Hpre Hpost. generalize (take start (groups z)) as pre, (drop (start + n) (groups z)) as post. intros pre post Hlen Hpre Hpost Hexp.
    change ("::" +:+ ?u) with (String colon (String colon u)).
    assert (Htail : forall room d e, (length post <= room)%nat -> (if String.eqb (Join (group_string <$> post) ":") "" then Some (d, e) else parse_groups room d e (Join (group_string <$> post) ":")) = Some (d ++ post, e)).
    { intros room d e Hr. destruct post as [|y post]; [simpl; by rewrite app_nil_r|]. apply Forall_cons in Hpost as Hy. destruct Hy as [Hy _].
      destruct (Join_head y post ltac:(unfold group_ok in Hy; lia)) as (c & t & Ej & Hc). rewrite Ej. cbn [String.eqb]. rewrite <- Ej. by apply parse_join. }
    destruct pre as [|x pre].
    + cbn [fmap list_fmap Join]. change ("" +:+ ?u) with u. unfold parse_body. change (Ascii.eqb colon colon) with true. cbn [andb]. rewrite (Htail 8%nat [] (Some O)) by (simpl in Hlen; lia). exact Hexp.
    + apply Forall_cons in Hpre as Hx. destruct Hx as [Hx _]. destruct (Join_head x pre ltac:(unfold group_ok in Hx; lia)) as (c & t & Ej & Hc).
      rewrite Ej. change (String c t +:+ ?u) with (String c (t +:+ u)). rewrite parse_body_head by done. change (String c (t +:+ ?u)) with (String c t +:+ u). rewrite <- Ej.
      rewrite parse_join_ellipsis by (done || lia). rewrite Htail by lia. exact Hexp.
Qed.

Lemma family_skip s t : all_chars lower_hexdigit s = true -> family (s +:+ t) = family t.
Proof.
  induction s as [|c s IH]; [done|]. cbn [all_chars]. rewrite andb_true_iff. intros [Hc Hs]. change (String c s +:+ t) with (String c (s +:+ t)). cbn [family].
  assert (Hn : forall d, lower_hexdigit d = false -> Ascii.eqb c d = false) by (intros d Hd; apply Ascii.eqb_neq; intros ->; congruence). by rewrite !Hn, IH by done.
Qed.

Lemma family_groups l t : Forall group_ok l -> family (Join (group_string <$> l) ":" +:+ String colon t) = Some true.
Proof.
  intros Hl. destruct l as [|x [|y l]]; [done|..]; apply Forall_cons in Hl as [Hx _]; unfold group_ok in Hx.
  - simpl. rewrite family_skip by (apply group_chars; lia). done.
  - rewrite !fmap_cons, Join_cons2, <- app_assoc_str, family_skip by (apply group_chars; lia). done.
Qed.

Lemma family_string6 z : family (string6 z) = Some true.
Proof.
  unfold string6. destruct (best_zeros 0 (groups z) (O, O)) as [start n]. destruct (Nat.eqb n 0).
  - pose proof (groups_ok z) as Hok. assert (Hl : length (groups z) = 8%nat) by apply length_digits. destruct (groups z) as [|x [|y l]]; [done|done|].
    apply Forall_cons in Hok as [Hx _]. unfold group_ok in Hx. rewrite !fmap_cons, Join_cons2, family_skip by (apply group_chars; lia). done.
  - apply family_groups, Forall_take, groups_ok.
Qed.

Lemma family_string4 z : family (string4 z) = Some false.
Proof.
  unfold string4. pose proof (digits_range 256 ltac:(lia) 4 z) as Hok. fold (octets z) in Hok. assert (Hl : length (octets z) = 4%nat) by apply length_digits. destruct (octets z) as [|x [|y l]]; [done|done|].
  apply Forall_cons in Hok as [Hx _]. rewrite !fmap_cons. change (Join (?u :: ?v :: ?k) ".") with (u +:+ String dot (Join (v :: k) ".")). rewrite family_skip; [done|].
  eapply all_chars_impl; [|apply Itoa_digits; lia]. intros c. unfold lower_hexdigit. by intros ->.
Qed.

(** Parsing what was printed. *)
Lemma ParseAddr_AddrString a : addr_ok a -> Zone a = "" -> Is4In6 a = false -> ParseAddr (AddrString a) = Some a.
Proof.
  destruct a as [z|z zone]; intros Ha Hz Hm; unfold ParseAddr, AddrString; cbn [Zone] in Hz.
  - rewrite family_string4, parseIPv4_string4; done.
  - rewrite Hm, Hz. change (if String.eqb "" "" then "" else "%" +:+ "") with "". rewrite app_empty_r, family_string6. unfold parseIPv6.
    rewrite Cut_no_sep by (apply addr_char_not; [done|apply string6_chars]). cbn [andb]. pose proof (parse_body_string6 z) as Hb. revert Hb.
    destruct (parse_body (string6 z)) as [l|]; [|done]. cbn [mbind option_bind]. intros ->. cbn [mbind option_bind].
    unfold groups. rewrite undigits_digits; [done|lia|exact Ha].
Qed.

(** ** What parsing gives *)
Lemma hex_value_range c d : hex_value c = Some d -> 0 <= d < 16.
Proof.
  unfold hex_value, is_digit, between. destruct (Z.leb_spec 48 (code c)), (Z.leb_spec (code c) 57), (Z.leb_spec 97 (code c)), (Z.leb_spec (code c) 102), (Z.leb_spec 65 (code c)), (Z.leb_spec (code c) 70); cbn [andb]; intros E; try discriminate E; injection E; lia.
Qed.

Lemma hex_run_range s acc off acc' off' rest : 0 <= acc < 16 ^ Z.of_nat off -> hex_run acc off s = (acc', off', rest) -> 0 <= acc' < 16 ^ Z.of_nat off'.
Proof.
  revert acc off. induction s as [|c s IH]; intros acc off Ha; cbn [hex_run]; [by intros [= <- <- _]|]. destruct (hex_value c) as [d|] eqn:E; [|by intros [= <- <- _]].
  apply hex_value_range in E. apply IH. rewrite Nat2Z.inj_succ, Z.pow_succ_r by lia. lia.
Qed.

Lemma parse_groups_ok room done_ e s l e' : Forall group_ok done_ -> (length done_ + room = 8)%nat -> parse_groups room done_ e s = Some (l, e') -> Forall group_ok l /\ (length l <= 8)%nat.
Proof.
  revert done_ e s. induction room as [|room IH]; intros done_ e s Hd Hr; cbn [parse_groups]; [destruct (String.eqb s ""); [|done]; intros [= <- _]; split; [done|lia]|].
  destruct (hex_run 0 0 s) as [[acc off] rest] eqn:Eh. apply hex_run_range in Eh; [|simpl; lia]. destruct (Nat.eqb off 0) eqn:Eo; [done|]. cbn [orb]. destruct (Nat.ltb_spec 4 off) as [|Hoff]; [done|].
  assert (Hacc : group_ok acc). { unfold group_ok. split; [lia|]. eapply Z.lt_le_trans; [apply Eh|]. change 65536 with (16 ^ 4). apply Z.pow_le_mono_r; lia. }
  assert (Hd' : Forall group_ok (done_ ++ [acc])) by (apply Forall_app; split; [done|by apply Forall_singleton]).
  assert (Hl' : (length (done_ ++ [acc]) + room = 8)%nat) by (rewrite length_app; simpl; lia).
  destruct rest as [|c rest]; [intros [= <- _]; split; [done|lia]|]. destruct (Ascii.eqb c dot).
  - destruct (_ || _) eqn:Eb; [done|]. apply orb_false_iff in Eb as [_ Eb]. apply Nat.ltb_ge in Eb. destruct (parseIPv4 s) as [z|]; [|done]. generalize (digits_range 65536 ltac:(lia) 2 z), (length_digits 65536 2 z). generalize (digits 65536 2 z) as ds. intros ds Hds Hl2 [= <- _].
    split; [by apply Forall_app|rewrite length_app, Hl2; lia].
  - destruct (negb _); [done|]. destruct rest as [|c2 rest2]; [done|]. destruct (Ascii.eqb c2 colon); [|by apply IH]. destruct e; [done|]. cbv zeta.
    destruct (String.eqb rest2 ""); [intros [= <- _]; split; [done|lia]|by apply IH].
Qed.

Lemma ParseAddr_ok s a : ParseAddr s = Some a -> addr_ok a.
Proof.
  unfold ParseAddr. destruct (family s) as [[]|]; [| |done].
  - unfold parseIPv6. destruct (Cut s percent) as [[t zone] zoned]. destruct (_ && _); [done|].
    assert (Hb : forall l e, parse_body t = Some (l, e) -> Forall group_ok l /\ (length l <= 8)%nat).
    { intros l e. assert (Hg : forall e0 u, parse_groups 8 [] e0 u = Some (l, e) -> Forall group_ok l /\ (length l <= 8)%nat) by (intros e0 u; by apply parse_groups_ok).
      unfold parse_body. destruct t as [|c1 [|c2 rest]]; [apply Hg|apply Hg|]. destruct (_ && _); [|apply Hg]. destruct (String.eqb rest ""); [|apply Hg]. intros [= <- _]. split; [constructor|simpl; lia]. }
    destruct (parse_body t) as [[l e]|]; [|done]. destruct (Hb l e eq_refl) as [Hl Hlen]. cbn [mbind option_bind].
    destruct (expand (l, e)) as [k|] eqn:Ee; [|done]. intros [= <-]. simpl. assert (Hk : Forall group_ok k /\ length k = 8%nat).
    { unfold expand in Ee. destruct e as [e|]; destruct (Nat.eqb_spec (8 - length l) 0) as [H0|H0]; try done; injection Ee as <-.
      - split; [apply Forall_app; split; [by apply Forall_take|]; apply Forall_app; split; [apply Forall_replicate; unfold group_ok; lia|by apply Forall_drop]|].
        rewrite !length_app, length_replicate, length_take, length_drop. lia.
      - split; [done|lia]. }
    destruct Hk as [Hk Hk8]. pose proof (undigits_range 65536 ltac:(lia) k Hk) as Hu. rewrite Hk8 in Hu. exact Hu.
  - destruct (parseIPv4 s) as [z|] eqn:E; [|done]. intros [= <-]. by apply parseIPv4_range in E.
Qed.

Lemma Unmap_spec a : addr_ok a -> Zone a = "" -> addr_ok (Unmap a) /\ Zone (Unmap a) = "" /\ Is4In6 (Unmap a) = false.
Proof.
  intros Ha Hz. unfold Unmap. destruct a as [z|z zone]; [done|]. destruct (Is4In6 (V6 z zone)) eqn:E; [|done]. split; [|done]. apply Z.mod_pos_bound. lia.
Qed.

Lemma Unmap_idem a : Unmap (Unmap a) = Unmap a.
Proof. destruct a as [z|z zone]; [done|]. unfold Unmap at 2 3. destruct (Is4In6 (V6 z zone)) eqn:E; [done|]. unfold Unmap. by rewrite E. Qed.

(** Text of an address that has no zone and is not mapped. *)
Definition plain_addr (a : Addr) : Prop := addr_ok a /\ Zone a = "" /\ Is4In6 a = false.

Lemma AddrString_plain a : plain_addr a -> AddrString a = match a with V4 z => string4 z | V6 z _ => string6 z end.
Proof. intros (_ & Hz & Hm). destruct a as [z|z zone]; [done|]. cbn [Zone] in Hz. subst zone. unfold AddrString. rewrite Hm. by rewrite app_empty_r. Qed.

Lemma AddrString_chars a : plain_addr a -> all_chars addr_char (AddrString a) = true.
Proof. intros Ha. rewrite AddrString_plain by done. destruct a; [apply string4_chars|apply string6_chars]. Qed.

Lemma slen_Join l sep n : Forall (fun s => slen s <= n) l -> slen (Join l sep) <= Z.of_nat (length l) * (n + slen sep).
Proof.
  pose proof (slen_nonneg sep). induction l as [|x [|y l] IH]; intros Hl; [change (0 <= 0); lia|apply Forall_cons in Hl as [Hx _]; change (slen x <= 1 * (n + slen sep)); pose proof (slen_nonneg x); nia|].
  apply Forall_cons in Hl as [Hx Hl]. specialize (IH Hl). change (Join (x :: y :: l) sep) with (x +:+ sep +:+ Join (y :: l) sep). rewrite !slen_app. pose proof (slen_nonneg x).
  rewrite length_cons, Nat2Z.inj_succ. lia.
Qed.

Lemma group_slen x : slen (group_string x) <= 4.
Proof. unfold group_string. cbv zeta. destruct (16 <=? x); [destruct (256 <=? x); [destruct (4096 <=? x)|]|]; unfold slen; simpl; lia. Qed.

Lemma join_slen l : slen (Join (group_string <$> l) ":") <= 5 * Z.of_nat (length l).
Proof. pose proof (slen_Join (group_string <$> l) ":" 4) as H. rewrite length_fmap in H. change (slen ":") with 1 in H. enough (slen (Join (group_string <$> l) ":") <= Z.of_nat (length l) * (4 + 1)) by lia. apply H. apply Forall_fmap, Forall_true. intros x. apply group_slen. Qed.

Lemma octet_slen d : 0 <= d < 256 -> slen (Itoa d) <= 3.
Proof.
  intros Hd. assert (HF : Forall (fun d => slen (Itoa d) <= 3) (seqZ 0 256)) by (apply (bool_decide_unpack _); vm_compute; exact I).
  rewrite Forall_forall in HF. apply HF, elem_of_seqZ. lia.
Qed.

Lemma AddrString_slen a : plain_addr a -> slen (AddrString a) <= 100.
Proof.
  intros Ha. rewrite AddrString_plain by done. destruct a as [z|z zone].
  - unfold string4. pose proof (slen_Join (Itoa <$> octets z) "." 3) as H. rewrite length_fmap in H. assert (Hl : length (octets z) = 4%nat) by apply length_digits. rewrite Hl in H. change (slen ".") with 1 in H.
    enough (slen (Join (Itoa <$> octets z) ".") <= Z.of_nat 4 * (3 + 1)) by lia. apply H, Forall_fmap. eapply Forall_impl; [apply (digits_range 256 ltac:(lia))|]. intros d Hd. by apply octet_slen.
  - unfold string6. destruct (best_zeros 0 (groups z) (O, O)) as [start n]. assert (Hl : length (groups z) = 8%nat) by apply length_digits. destruct (Nat.eqb n 0).
    + pose proof (join_slen (groups z)). lia.
    + rewrite !slen_app. change (slen "::") with 2. pose proof (join_slen (take start (groups z))) as H1. pose proof (join_slen (drop (start + n) (groups z))) as H2. rewrite length_take in H1. rewrite length_drop in H2. lia.
Qed.

(** ** The last occurrence of a character *)
Lemma has_char_app c s t : has_char c (s +:+ t) = has_char c s || has_char c t.
Proof. unfold has_char. by rewrite all_chars_app, negb_andb. Qed.

Lemma has_char_cons c d s : has_char c (String d s) = Ascii.eqb d c || has_char c s.
Proof. unfold has_char. cbn [all_chars]. by rewrite negb_andb, negb_involutive. Qed.

Lemma CutLast_none s c : CutLast s c = None <-> has_char c s = false.
Proof.
  induction s as [|d s IH]; [done|]. rewrite has_char_cons. cbn [CutLast]. destruct (CutLast s c) as [[b a]|].
  - split; [done|]. intros [_ H]%orb_false_iff. by apply IH in H.
  - rewrite (proj1 IH eq_refl), orb_false_r. by destruct (Ascii.eqb d c).
Qed.

Lemma CutLast_app s t c : has_char c t = false -> CutLast (s +:+ String c t) c = Some (s, t).
Proof.
  intros Ht%CutLast_none. induction s as [|d s IH]; [change ("" +:+ ?u) with u; cbn [CutLast]; by rewrite Ht, Ascii.eqb_refl|].
  change (String d s +:+ ?u) with (String d (s +:+ u)). cbn [CutLast]. by rewrite IH.
Qed.

Lemma CutLast_spec s c b a : CutLast s c = Some (b, a) -> s = b +:+ String c a /\ has_char c a = false.
Proof.
  revert b. induction s as [|d s IH]; intros b; [done|]. cbn [CutLast]. destruct (CutLast s c) as [[b' a']|] eqn:E.
  - intros [= <- <-]. destruct (IH b' eq_refl) as [-> H]. done.
  - destruct (Ascii.eqb_spec d c) as [->|]; [|done]. intros [= <- <-]. split; [done|]. by apply CutLast_none.
Qed.

(** ** Prefixes that are printed *)
Lemma AtoiSigned_Itoa n : 0 <= n <= int64_max -> AtoiSigned (Itoa n) = Some n.
Proof.
  intros Hn. pose proof (Itoa_digits n ltac:(lia)) as Hd. destruct (Itoa_head n ltac:(lia)) as (c & s & E & Hc). pose proof (parse_Itoa n Hn) as Hp.
  assert (Hv : decimal_from 0 (Itoa n) = n). { apply parse_canonical in Hp as _. unfold Itoa. rewrite decimal_digits_value; [done|]. pose proof int64_digits. change (10 ^ Z.of_nat 20) with (10 ^ 19 * 10). lia. }
  unfold AtoiSigned. rewrite E in *. assert (Hx : forall d, is_digit d = false -> Ascii.eqb c d = false) by (intros d Hd'; apply Ascii.eqb_neq; intros ->; congruence).
  rewrite !Hx by done. unfold isAllDigits. rewrite Hd. cbn [String.eqb negb andb]. rewrite Hv, Z.mul_1_l. unfold int64_min, int64_max in *. by rewrite (proj2 (Z.leb_le _ _)), (proj2 (Z.leb_le _ _)) by lia.
Qed.

Lemma ParsePrefix_PrefixString a bits : plain_addr a -> 0 <= bits <= BitLen a -> ParsePrefix (PrefixString (mkPrefix a bits)) = Some (mkPrefix a bits).
Proof.
  intros Ha Hb. assert (Hmax : BitLen a <= 128) by (unfold BitLen; destruct (Is4 a); lia). unfold ParsePrefix, PrefixString. cbn [pfAddr pfBits]. change ("/" +:+ ?u) with (String slash u).
  rewrite CutLast_app by (apply digit_not_char; [done|apply Itoa_digits; lia]). destruct Ha as (Hok & Hz & Hm). rewrite ParseAddr_AddrString, Hz by done. cbn [String.eqb negb].
  assert (Hhead : match Itoa bits with String c (String _ _) => negb (between 49 57 c) | _ => false end = false).
  { assert (HF : Forall (fun d => match Itoa d with String c (String _ _) => negb (between 49 57 c) | _ => false end = false) (seqZ 0 129)) by (apply (bool_decide_unpack _); vm_compute; exact I).
    rewrite Forall_forall in HF. apply HF, elem_of_seqZ. lia. }
  rewrite Hhead, AtoiSigned_Itoa by (unfold int64_max; lia). rewrite (proj2 (Z.leb_le 0 bits)), (proj2 (Z.leb_le bits _)) by lia. cbn [andb]. unfold PrefixFrom. destruct a as [z|z zone]; [done|]. cbn [Zone] in Hz. by rewrite Hz.
Qed.

Example parse_loopback : ParseAddr "::1" = Some (V6 1 "").
Proof. vm_compute. reflexivity. Qed.
Example parse_mapped : (fun a => AddrString (Unmap a)) <$> ParseAddr "::FFFF:192.0.2.1" = Some "192.0.2.1".
Proof. vm_compute. reflexivity. Qed.
Example print_zeros : AddrString <$> ParseAddr "2001:0db8:0:0:1:0:0:1%eth0" = Some "2001:db8::1:0:0:1%eth0".
Proof. vm_compute. reflexivity. Qed.
Example split_bracketed : SplitHostPort "[::1]:8080" = Some ("::1", "8080").
Proof. vm_compute. reflexivity. Qed.
Example private_ranges : (IsPrivate <$> ParseAddr "172.31.0.1", IsPrivate <$> ParseAddr "192.168.1.1", IsPrivate <$> ParseAddr "fd00::1", IsPrivate <$> ParseAddr "172.32.0.1") = (Some true, Some true, Some true, Some false).
Proof. vm_compute. reflexivity. Qed.
