(* ===== verification/ClientIdentity.v ===== *)
(** * Identity of a client and CSRF protection
    ([internal/httpsecurity/clientidentity], [api/csrf.go], [api/request_network.go], [api/realtime/origin.go])

    One function resolves who a request comes from: the transport peer, the client behind
    trusted proxies, the scheme and the external host.  Authentication, audit, rate limits,
    the CSRF middleware and the origin check of websockets rely on it.

    SHA-256 in hexadecimal and the parser of URLs are parameters.  A header is the list of
    its values.  [strings.ToLower] is applied to host names: the only code points beyond
    ASCII that it turns into ASCII are the Kelvin sign and the capital I with a dot, and any
    other byte beyond ASCII makes the host invalid. *)

From S2P Require Import Prelude GoStrings VersionPolicy NetAddr.

Open Scope string_scope.
Open Scope list_scope.
Open Scope Z_scope.

Definition MaxTrustedProxyCIDRs : Z := 64.
Definition MaxForwardedHops : Z := 64.
Definition ProvenanceDirect : string := "DIRECT".
Definition ProvenanceTrustedXFF : string := "TRUSTED_XFF".
Definition ProvenanceUnknown : string := "UNKNOWN".

Record V1 := mkV1 {
  idVersion : Z; idTransportPeer : string; idClientIP : string; idClientPrefix : string; idProvenance : string; idTrustedProxyHops : Z;
  idActualScheme : string; idDesiredScheme : string; idSchemeSource : string; idExternalHost : string; idConfigRevision : string; idForwardedValid : bool
}.

Record Config := mkConfig { cfTrustedProxies : list Prefix; cfCanonicalCIDRs : list string; cfWarnings : list string; cfSource : string; cfRevision : string }.

(** What the code reads of a request. *)
Record request := mkRequest {
  rqRemoteAddr : string; rqTLS : bool; rqHost : string; rqForwardedFor : list string; rqForwardedProto : list string;
  rqMethod : string; rqOrigin : list string; rqCSRFHeader : string
}.

(** ** [strings] with cutsets *)
Fixpoint TrimLeft (s cutset : string) : string :=
  match s with
  | "" => ""
  | String c s' => if char_in c cutset then TrimLeft s' cutset else s
  end.

Definition Trim (s cutset : string) : string := TrimRight (TrimLeft s cutset) cutset.

Definition TrimSuffix (s suffix : string) : string := srev (TrimPrefix (srev s) (srev suffix)).

Definition comma : Ascii.ascii := Ascii.ascii_of_nat 44.

(** [strings.ToLower] as far as the result is ASCII. *)
Fixpoint lower_host (s : string) : string :=
  match s with
  | "" => ""
  | String a s1 =>
      match s1 with
      | String b s2 =>
          if (code a =? 196) && (code b =? 176) then String (Ascii.ascii_of_nat 105) (lower_host s2)
          else match s2 with
               | String c s3 =>
                   if (code a =? 226) && (code b =? 132) && (code c =? 170) then String (Ascii.ascii_of_nat 107) (lower_host s3)
                   else String (lower_char a) (lower_host s1)
               | "" => String (lower_char a) (lower_host s1)
               end
      | "" => String (lower_char a) (lower_host s1)
      end
  end.

(** ** Addresses and hosts *)
Definition CanonicalIP (value : string) : string :=
  let value := TrimSpace (Trim value "[]") in
  if String.eqb value "" || has_char percent value then ""
  else match ParseAddr value with
       | Some a => if String.eqb (Zone a) "" then AddrString (Unmap a) else ""
       | None => ""
       end.

Definition PrivacyPrefix (value : string) : string :=
  match ParseAddr (CanonicalIP value) with
  | None => ""
  | Some a => PrefixString (Masked (PrefixFrom a (if Is6 a then 56 else 24)))
  end.

Definition label_char (c : Ascii.ascii) : bool := is_lower c || is_digit c || Ascii.eqb c hyphen.

Definition last_char (s : string) : option Ascii.ascii := match srev s with String c _ => Some c | "" => None end.

Definition valid_label (label : string) : bool :=
  match label with
  | "" => false
  | String c _ => (slen label <=? 63) && negb (Ascii.eqb c hyphen) && negb (match last_char label with Some d => Ascii.eqb d hyphen | None => false end) && all_chars label_char label
  end.

Definition canonicalHostname (value : string) : string :=
  let value := TrimSuffix (lower_host (TrimSpace (Trim value "[]"))) "." in
  if String.eqb value "" then ""
  else
    let name := if 253 <? slen value then "" else if forallb valid_label (Split value dot) then value else "" in
    match ParseAddr value with
    | Some a => if String.eqb (Zone a) "" then AddrString (Unmap a) else name
    | None => name
    end.

(** A byte that a host must not have: one of the set, a control or white space. *)
Definition bad_host_char (c : Ascii.ascii) : bool := char_in c "/\@,;?#" || (code c <=? 32) || (code c =? 127).

Definition CanonicalHostPort (value : string) : string :=
  let value := TrimSpace value in
  if String.eqb value "" || (255 <? slen value) || negb (all_chars (fun c => negb (bad_host_char c)) value) then ""
  else match SplitHostPort value with
  | Some (host, port) =>
      let host := canonicalHostname host in
      match AtoiSigned port with
      | Some n => if String.eqb host "" || (n <? 1) || (65535 <? n) then "" else JoinHostPort host (Itoa n)
      | None => ""
      end
  | None =>
      if HasPrefix value "[" && HasSuffix value "]" then
        let host := canonicalHostname (TrimSuffix (TrimPrefix value "[") "]") in
        match ParseAddr host with
        | Some a => if Is6 a then "[" +:+ host +:+ "]" else ""
        | None => ""
        end
      else if has_char colon value then ""
      else canonicalHostname value
  end.

Definition CanonicalOriginAuthority (scheme value : string) : string :=
  let authority := CanonicalHostPort value in
  if String.eqb authority "" then ""
  else
    let scheme := ToLower (TrimSpace scheme) in
    let strip defaultPort :=
      match SplitHostPort authority with
      | Some (host, port) =>
          if negb (String.eqb port defaultPort) then authority
          else match ParseAddr host with
               | Some a => if Is6 a then "[" +:+ host +:+ "]" else host
               | None => host
               end
      | None => authority
      end in
    if String.eqb scheme "http" then strip "80" else if String.eqb scheme "https" then strip "443" else "".

Definition contains (prefixes : list Prefix) (value : string) : bool :=
  match ParseAddr (CanonicalIP value) with
  | None => false
  | Some a => existsb (fun p => PrefixContains p a) prefixes
  end.

Definition splitRemoteIP (value : string) : string :=
  match SplitHostPort value with Some (host, _) => host | None => Trim value "[]" end.

(** ** Forwarding headers *)
Definition exactForwardedProto (value : string) : option string :=
  let value := TrimSpace value in
  if String.eqb value "" || has_char comma value then None
  else let value := ToLower value in
       if String.eqb value "http" then Some "http" else if String.eqb value "https" then Some "https" else None.

Definition boundedForwardedFor (value : string) : option (list string) :=
  let value := TrimSpace value in
  if String.eqb value "" then Some []
  else let parts := Split value comma in if MaxForwardedHops <? Z.of_nat (length parts) then None else Some parts.

Definition with_forwarded_valid (b : bool) (i : V1) : V1 :=
  mkV1 (idVersion i) (idTransportPeer i) (idClientIP i) (idClientPrefix i) (idProvenance i) (idTrustedProxyHops i) (idActualScheme i) (idDesiredScheme i)
    (idSchemeSource i) (idExternalHost i) (idConfigRevision i) b.

Definition with_client (client : string) (hops : Z) (i : V1) : V1 :=
  mkV1 (idVersion i) (idTransportPeer i) client (PrivacyPrefix client) ProvenanceTrustedXFF hops (idActualScheme i) (idDesiredScheme i)
    (idSchemeSource i) (idExternalHost i) (idConfigRevision i) (idForwardedValid i).

Definition with_provenance (p : string) (i : V1) : V1 :=
  mkV1 (idVersion i) (idTransportPeer i) (idClientIP i) (idClientPrefix i) p (idTrustedProxyHops i) (idActualScheme i) (idDesiredScheme i)
    (idSchemeSource i) (idExternalHost i) (idConfigRevision i) (idForwardedValid i).

Definition with_scheme (scheme : string) (i : V1) : V1 :=
  mkV1 (idVersion i) (idTransportPeer i) (idClientIP i) (idClientPrefix i) (idProvenance i) (idTrustedProxyHops i) (idActualScheme i) scheme
    "trusted_x_forwarded_proto" (idExternalHost i) (idConfigRevision i) (idForwardedValid i).

(** The walk over the hops, the last one first. *)
Fixpoint walk (trusted : list Prefix) (hops : list string) (trustedHops : Z) (i : V1) : V1 :=
  match hops with
  | [] => i
  | part :: hops' =>
      let hop := CanonicalIP part in
      if String.eqb hop "" then with_forwarded_valid false i
      else if contains trusted hop then walk trusted hops' (trustedHops + 1) i
      else with_client hop trustedHops i
  end.

Definition resolve_for (r : request) (config : Config) (i : V1) : V1 :=
  let forwardedFor := Join (rqForwardedFor r) "," in
  match boundedForwardedFor forwardedFor with
  | Some parts => walk (cfTrustedProxies config) (rev parts) 1 (with_forwarded_valid true i)
  | None => if String.eqb (TrimSpace forwardedFor) "" then i else with_forwarded_valid false i
  end.

Definition resolve_proto (r : request) (i : V1) : V1 :=
  match rqForwardedProto r with
  | [] => i
  | [value] =>
      match exactForwardedProto value with
      | Some proto => with_scheme proto i
      | None => with_forwarded_valid false i
      end
  | _ => with_forwarded_valid false i
  end.

Definition Resolve (r : request) (config : Config) : V1 :=
  let peer := CanonicalIP (splitRemoteIP (rqRemoteAddr r)) in
  let actualScheme := if rqTLS r then "https" else "http" in
  let identity := mkV1 1 peer peer (PrivacyPrefix peer) ProvenanceDirect 0 actualScheme actualScheme "transport" (CanonicalHostPort (rqHost r)) (cfRevision config) true in
  if negb (contains (cfTrustedProxies config) peer) then identity
  else resolve_proto r (resolve_for r config (with_provenance ProvenanceUnknown identity)).

Section Digest.
(** SHA-256 in hexadecimal. *)
Context (sha256hex : string -> string).

(** ** Trusted proxies *)
Record parsing := mkParsing { psPrefixes : list Prefix; psWarnings : list string; psEntries : Z }.

Definition addWarning (value : string) (p : parsing) : parsing :=
  if existsb (String.eqb value) (psWarnings p) then p else mkParsing (psPrefixes p) (psWarnings p ++ [value]) (psEntries p).

Definition addPrefix (prefix : Prefix) (p : parsing) : parsing :=
  let p := mkParsing (psPrefixes p ++ [prefix]) (psWarnings p) (psEntries p) in
  let a := pfAddr prefix in
  let broad := pfBits prefix <? BitLen a in
  if IsLoopback a then p
  else if IsPrivate a then if broad then addWarning "broad_private_trusted_proxy_cidr" p else p
  else let p := addWarning "public_trusted_proxy" p in if broad then addWarning "broad_public_trusted_proxy_cidr" p else p.

Definition parse_entry (p : parsing) (item : string) : parsing :=
  let item := TrimSpace item in
  if String.eqb item "" then p
  else
    let p := mkParsing (psPrefixes p) (psWarnings p) (psEntries p + 1) in
    if MaxTrustedProxyCIDRs <=? Z.of_nat (length (psPrefixes p)) then addWarning "trusted_proxy_limit_exceeded" p
    else match ParsePrefix item with
    | Some parsed =>
        let a := pfAddr parsed in
        let bits := pfBits parsed in
        if negb (String.eqb (Zone a) "") then addWarning "invalid_trusted_proxy_entry" p
        else if Is4In6 a && (bits <? 96) then addWarning "invalid_trusted_proxy_entry" p
        else
          let bits := if Is4In6 a then bits - 96 else bits in
          let a := if Is4In6 a then Unmap a else a in
          let bits := if BitLen a <? bits then BitLen a else bits in
          addPrefix (Masked (PrefixFrom a bits)) p
    | None =>
        match ParseAddr item with
        | Some a =>
            if String.eqb (Zone a) "" then let a := Unmap a in addPrefix (PrefixFrom a (BitLen a)) p
            else addWarning "invalid_trusted_proxy_entry" p
        | None => addWarning "invalid_trusted_proxy_entry" p
        end
    end.

Definition ParseConfig (raw : string) : Config :=
  let p := foldl parse_entry (mkParsing [] [] 0) (Split raw comma) in
  let revisionInput := PrefixString <$> psPrefixes p in
  let revisionMaterial := revisionInput ++ "--warnings--" :: psWarnings p ++ ["entries=" +:+ Itoa (psEntries p)] in
  mkConfig (psPrefixes p) revisionInput (psWarnings p) (if 0 <? psEntries p then "environment" else "default_empty") (sha256hex (Join revisionMaterial ",")).

(** The cache of the parsed environment: the text and its configuration. *)
Definition ConfigFromEnvironment (env : string) (cache : option (string * Config)) : Config * option (string * Config) :=
  let raw := TrimSpace env in
  match cache with
  | Some (cached, config) => if String.eqb raw cached then (config, cache) else (ParseConfig raw, Some (raw, ParseConfig raw))
  | None => (ParseConfig raw, Some (raw, ParseConfig raw))
  end.

(** ** Grants *)
Definition newline : string := String nl "".

Definition BindingRevision (i : V1) : string :=
  sha256hex (Join ["client-identity-binding-v1";
    "version=" +:+ Itoa (idVersion i);
    "transportPeer=" +:+ CanonicalIP (idTransportPeer i);
    "clientIP=" +:+ CanonicalIP (idClientIP i);
    "clientPrefix=" +:+ idClientPrefix i;
    "provenance=" +:+ idProvenance i;
    "trustedProxyHops=" +:+ Itoa (idTrustedProxyHops i);
    "actualScheme=" +:+ idActualScheme i;
    "desiredScheme=" +:+ idDesiredScheme i;
    "schemeSource=" +:+ idSchemeSource i;
    "externalHost=" +:+ CanonicalOriginAuthority (idDesiredScheme i) (idExternalHost i);
    "configRevision=" +:+ idConfigRevision i;
    "forwardedValid=" +:+ (if idForwardedValid i then "true" else "false")] newline +:+ newline).

(** Sixty-four hexadecimal digits in lower case. *)
Definition revisionToken (value : string) : bool := (slen value =? 64) && all_chars (fun c => is_digit c || between 97 102 c) value.

Definition is_http (scheme : string) : bool := String.eqb scheme "http" || String.eqb scheme "https".

Definition ValidForSecurityGrant (i : V1) : bool :=
  let client := CanonicalIP (idClientIP i) in
  let peer := CanonicalIP (idTransportPeer i) in
  if negb (idVersion i =? 1) || negb (idForwardedValid i) || String.eqb client "" || String.eqb peer ""
     || negb (String.eqb (idClientIP i) client) || negb (String.eqb (idTransportPeer i) peer)
     || negb (String.eqb (idClientPrefix i) (PrivacyPrefix client)) || negb (revisionToken (idConfigRevision i))
     || negb (String.eqb (CanonicalHostPort (idExternalHost i)) (idExternalHost i))
     || String.eqb (CanonicalOriginAuthority (idDesiredScheme i) (idExternalHost i)) ""
     || negb (is_http (idActualScheme i)) then false
  else if String.eqb (idProvenance i) ProvenanceDirect then
    String.eqb client peer && (idTrustedProxyHops i =? 0) && String.eqb (idSchemeSource i) "transport" && String.eqb (idActualScheme i) (idDesiredScheme i)
  else if String.eqb (idProvenance i) ProvenanceTrustedXFF then
    if (idTrustedProxyHops i <=? 0) || (MaxForwardedHops <? idTrustedProxyHops i) || String.eqb client peer then false
    else if String.eqb (idSchemeSource i) "transport" then String.eqb (idActualScheme i) (idDesiredScheme i)
    else if String.eqb (idSchemeSource i) "trusted_x_forwarded_proto" then is_http (idDesiredScheme i)
    else false
  else false.
End Digest.

(** ** Origins *)
Record OriginURL := mkOriginURL { ouScheme : string; ouHost : string; ouUser : bool; ouPath : string; ouRawQuery : string; ouFragment : string }.

Section Origin.
(** [url.Parse] *)
Context (ParseURL : string -> option OriginURL).

(** [requestAuthorityMiddleware]: whether the request goes on. *)
Definition requestAuthority (i : V1) : bool := negb (String.eqb (idExternalHost i) "") && idForwardedValid i.

Definition sameOriginRequest (r : request) (i : V1) : bool :=
  match rqOrigin r with
  | [value] =>
      let originHeader := TrimSpace value in
      if String.eqb originHeader "" then false
      else match ParseURL originHeader with
      | None => false
      | Some origin =>
          if String.eqb (ouScheme origin) "" || String.eqb (ouHost origin) "" || ouUser origin || negb (String.eqb (ouPath origin) "")
             || negb (String.eqb (ouRawQuery origin) "") || negb (String.eqb (ouFragment origin) "") then false
          else if negb (requestAuthority i) then false
          else if negb (String.eqb (ToLower (ouScheme origin)) (ToLower (idDesiredScheme i))) then false
          else String.eqb (CanonicalOriginAuthority (ouScheme origin) (ouHost origin)) (CanonicalOriginAuthority (idDesiredScheme i) (idExternalHost i))
      end
  | _ => false
  end.

Definition csrfProtectedMethod (method : string) : bool :=
  String.eqb method "POST" || String.eqb method "PUT" || String.eqb method "PATCH" || String.eqb method "DELETE".

(** The token of the session and when it expires, if it is stored as such. *)
Record csrfSession := mkCSRF { csToken : option string; csExpires : option Z }.

(** [csrfMiddleware]: whether the handlers run. *)
Definition csrfMiddleware (r : request) (i : V1) (session : csrfSession) (now : Z) : bool :=
  if negb (csrfProtectedMethod (rqMethod r)) then true
  else if negb (sameOriginRequest r i) then false
  else match csToken session with
  | None => false
  | Some expected =>
      if String.eqb expected "" then false
      else match csExpires session with
      | None => false
      | Some expiresAt =>
          if expiresAt <? now then false
          else negb (String.eqb (rqCSRFHeader r) "") && String.eqb (rqCSRFHeader r) expected
      end
  end.

(** [OriginAllowedV1]: the origin of a websocket. *)
Definition OriginAllowedV1 (originHeader : string) (i : V1) : bool :=
  if negb (requestAuthority i) then false
  else match ParseURL originHeader with
  | None => false
  | Some origin =>
      if ouUser origin || String.eqb (ouScheme origin) "" || String.eqb (ouHost origin) "" || negb (String.eqb (ouRawQuery origin) "")
         || negb (String.eqb (ouFragment origin) "") || (negb (String.eqb (ouPath origin) "") && negb (String.eqb (ouPath origin) "/")) then false
      else if negb (is_http (ouScheme origin)) then false
      else if negb (String.eqb (ToLower (ouScheme origin)) (ToLower (idDesiredScheme i))) then false
      else
        let originHost := CanonicalOriginAuthority (ouScheme origin) (ouHost origin) in
        negb (String.eqb originHost "") && String.eqb originHost (CanonicalOriginAuthority (idDesiredScheme i) (idExternalHost i))
  end.
End Origin.
