(* ===== verification/ClientIdentityProperties.v ===== *)
(** * Identity of a client: what it guarantees

    The canonical forms of addresses and hosts are stable, an identity is resolved so that
    every fully resolved one qualifies for security grants, what an outsider writes into the
    forwarding headers has no effect on it, and the two checks of origins agree. *)

From S2P Require Import Prelude GoStrings VersionPolicy NetAddr ClientIdentity.

Open Scope string_scope.
Open Scope list_scope.
Open Scope Z_scope.

(** ** Characters of canonical hosts *)
Definition clean (c : Ascii.ascii) : bool := label_char c || Ascii.eqb c dot || Ascii.eqb c colon.

Definition bracket (c : Ascii.ascii) : bool := char_in c "[]".

Lemma clean_facts c : clean c = true -> visible c = true /\ bracket c = false /\ lower_char c = c /\ code c < 128 /\ bad_host_char c = false.
Proof. destruct c as [[] [] [] [] [] [] [] []]; vm_compute; try discriminate; intros _; repeat split; discriminate. Qed.

Lemma addr_char_clean c : addr_char c = true -> clean c = true.
Proof. destruct c as [[] [] [] [] [] [] [] []]; vm_compute; done. Qed.

Lemma clean_visible s : all_chars clean s = true -> all_chars visible s = true.
Proof. apply all_chars_impl. intros c Hc. by apply clean_facts. Qed.

Lemma clean_not c s : clean c = false -> all_chars clean s = true -> has_char c s = false.
Proof. intros Hc Hs. unfold has_char. apply negb_false_iff. revert Hs. apply all_chars_impl. intros d Hd. apply negb_true_iff, Ascii.eqb_neq. intros ->. congruence. Qed.

(** ** Trimming *)
Lemma TrimLeft_id s cutset : all_chars (fun c => negb (char_in c cutset)) s = true -> TrimLeft s cutset = s.
Proof. destruct s as [|c s]; [done|]. cbn [all_chars TrimLeft]. rewrite andb_true_iff, negb_true_iff. by intros [-> _]. Qed.

Lemma TrimRight_id s cutset : all_chars (fun c => negb (char_in c cutset)) s = true -> TrimRight s cutset = s.
Proof.
  induction s as [|c s IH]; [done|]. cbn [all_chars TrimRight]. rewrite andb_true_iff, negb_true_iff. intros [Hc Hs]. rewrite IH by done. destruct s; [by rewrite Hc|done].
Qed.

Lemma Trim_id s : all_chars (fun c => negb (bracket c)) s = true -> Trim s "[]" = s.
Proof. intros Hs. unfold Trim. by rewrite TrimLeft_id, TrimRight_id. Qed.

Lemma clean_no_bracket s : all_chars clean s = true -> all_chars (fun c => negb (bracket c)) s = true.
Proof. apply all_chars_impl. intros c Hc. apply negb_true_iff. by apply clean_facts. Qed.

Lemma Trim_clean s : all_chars clean s = true -> TrimSpace (Trim s "[]") = s.
Proof. intros Hs. rewrite Trim_id by by apply clean_no_bracket. by apply TrimSpace_visible, clean_visible. Qed.

Lemma lower_host_clean s : all_chars clean s = true -> lower_host s = s.
Proof.
  induction s as [|a s IH]; [done|]. cbn [all_chars]. rewrite andb_true_iff. intros [Ha Hs]. destruct (clean_facts a Ha) as (_ & _ & Hl & Hc & _). specialize (IH Hs).
  assert (H1 : (code a =? 196) = false) by (apply Z.eqb_neq; lia). assert (H2 : (code a =? 226) = false) by (apply Z.eqb_neq; lia).
  cbn [lower_host]. rewrite Hl, H1, H2, IH. cbn [andb]. by destruct s as [|b [|c s]].
Qed.

Definition ends_with_dot (s : string) : Prop := exists t, s = t +:+ String dot "".

Lemma TrimSuffix_dot s : ~ ends_with_dot s -> TrimSuffix s "." = s.
Proof.
  intros Hs. unfold TrimSuffix, TrimPrefix. change (srev ".") with (String dot ""). destruct (HasPrefix (srev s) (String dot "")) eqn:E; [|apply srev_involutive].
  destruct Hs. apply prefix_split in E. exists (srev (drop_chars 1 (srev s))). change (String.length (String dot "")) with 1%nat in E.
  rewrite <- (srev_involutive s) at 1. rewrite E at 1. by rewrite srev_app.
Qed.

Lemma Split_snoc_sep s sep : Split (s +:+ String sep "") sep = Split s sep ++ [""].
Proof.
  induction s as [|c s IH]; [simpl; by rewrite Ascii.eqb_refl|]. change (String c s +:+ ?u) with (String c (s +:+ u)). cbn [Split]. rewrite IH.
  destruct (Ascii.eqb c sep); [done|]. by destruct (Split s sep) eqn:E; [apply Split_not_nil in E|].
Qed.

Lemma Split_all_chars p sep s : Forall (fun t => all_chars p t = true) (Split s sep) -> all_chars (fun c => p c || Ascii.eqb c sep) s = true.
Proof.
  induction s as [|c s IH]; [done|]. cbn [Split all_chars]. destruct (Ascii.eqb_spec c sep) as [->|_].
  - intros [_ Hs]%Forall_cons. by rewrite orb_true_r, IH.
  - destruct (Split s sep) as [|t l] eqn:E; [by apply Split_not_nil in E|]. intros [Ht Hl]%Forall_cons. cbn [all_chars] in Ht. apply andb_true_iff in Ht as [-> Ht]. cbn [orb andb].
    apply IH. by constructor.
Qed.

(** ** Addresses as canonical text *)
Lemma AddrString_clean a : plain_addr a -> all_chars clean (AddrString a) = true.
Proof. intros Ha. eapply all_chars_impl; [apply addr_char_clean|by apply AddrString_chars]. Qed.

Lemma AddrString_parse a : plain_addr a -> ParseAddr (AddrString a) = Some a.
Proof. intros (H1 & H2 & H3). by apply ParseAddr_AddrString. Qed.

Lemma AddrString_not_empty a : plain_addr a -> AddrString a <> "".
Proof. intros Ha E. pose proof (AddrString_parse a Ha) as Hp. rewrite E in Hp. discriminate Hp. Qed.

Lemma string6_no_dot z : has_char dot (string6 z) = false.
Proof.
  assert (Hj : forall l, Forall group_ok l -> all_chars (fun c => negb (Ascii.eqb c dot)) (Join (group_string <$> l) ":") = true).
  { intros l Hl. apply all_chars_Join; [done|]. apply Forall_fmap. eapply Forall_impl; [exact Hl|]. intros x Hx. unfold group_ok in Hx. eapply all_chars_impl; [|apply group_chars; lia].
    intros c. destruct (Ascii.eqb_spec c dot) as [->|]; done. }
  unfold has_char. apply negb_false_iff. unfold string6. destruct (best_zeros 0 (groups z) (O, O)) as [start n]. destruct (Nat.eqb n 0); [apply Hj, groups_ok|].
  rewrite !all_chars_app, !Hj; [done|apply Forall_drop, groups_ok|apply Forall_take, groups_ok].
Qed.

Lemma AddrString_no_dot_end a : plain_addr a -> ~ ends_with_dot (AddrString a).
Proof.
  intros Ha [t E]. pose proof (AddrString_parse a Ha) as Hp. rewrite AddrString_plain in * by done. destruct a as [z|z zone].
  - unfold ParseAddr in Hp. rewrite family_string4 in Hp. unfold parseIPv4 in Hp. rewrite E, Split_snoc_sep in Hp.
    destruct (mapM octet (Split t dot ++ [""])) as [l|] eqn:Em; [|done]. apply mapM_Some in Em. apply Forall2_app_inv_l in Em as (l1 & l2 & _ & H2 & _).
    apply Forall2_cons_inv_l in H2 as (y & l3 & Hy & _). discriminate Hy.
  - pose proof (string6_no_dot z) as Hn. rewrite E in Hn. unfold has_char in Hn. rewrite all_chars_app in Hn. cbn [all_chars] in Hn. rewrite Ascii.eqb_refl in Hn. cbn in Hn. rewrite andb_false_r in Hn. discriminate Hn.
Qed.

Lemma plain_unmap s a : ParseAddr s = Some a -> Zone a = "" -> plain_addr (Unmap a).
Proof. intros Hp Hz. apply ParseAddr_ok in Hp. destruct (Unmap_spec a Hp Hz) as (? & ? & ?). by split_and!. Qed.

(** A canonical address is empty or the text of an address. *)
Lemma CanonicalIP_cases s : CanonicalIP s = "" \/ exists a, plain_addr a /\ CanonicalIP s = AddrString a.
Proof.
  unfold CanonicalIP. cbv zeta. destruct (_ || _); [by left|]. destruct (ParseAddr _) as [a|] eqn:E; [|by left]. destruct (String.eqb_spec (Zone a) "") as [Hz|_]; [|by left].
  right. exists (Unmap a). split; [by eapply plain_unmap|done].
Qed.

Lemma plain_Unmap_id a : plain_addr a -> Unmap a = a.
Proof. intros (_ & _ & Hm). unfold Unmap. destruct a; [done|]. by rewrite Hm. Qed.

Lemma CanonicalIP_addr a : plain_addr a -> CanonicalIP (AddrString a) = AddrString a.
Proof.
  intros Ha. unfold CanonicalIP. cbv zeta. rewrite Trim_clean by by apply AddrString_clean. rewrite (proj2 (String.eqb_neq _ _)) by by apply AddrString_not_empty.
  rewrite clean_not; [|done|by apply AddrString_clean]. cbn [orb]. rewrite AddrString_parse, plain_Unmap_id by done. destruct Ha as (_ & -> & _). done.
Qed.

Lemma CanonicalIP_idem s : CanonicalIP (CanonicalIP s) = CanonicalIP s.
Proof. destruct (CanonicalIP_cases s) as [->|(a & Ha & ->)]; [done|by apply CanonicalIP_addr]. Qed.

(** ** Host names as canonical text *)
Definition named (h : string) : Prop :=
  h <> "" /\ slen h <= 253 /\ forallb valid_label (Split h dot) = true /\ match ParseAddr h with Some a => Zone a <> "" | None => True end.

Lemma named_chars h : named h -> all_chars (fun c => label_char c || Ascii.eqb c dot) h = true.
Proof.
  intros (_ & _ & Hf & _). apply Split_all_chars. apply Forall_forall. intros t Ht. rewrite forallb_forall in Hf. specialize (Hf t ltac:(by apply list_elem_of_In)).
  unfold valid_label in Hf. destruct t as [|c t]; [done|]. by apply andb_true_iff in Hf as [_ Hf].
Qed.

Lemma named_clean h : named h -> all_chars clean h = true.
Proof. intros Hn. eapply all_chars_impl; [|by apply named_chars]. intros c. unfold clean. intros ->. done. Qed.

Lemma named_no_dot_end h : named h -> ~ ends_with_dot h.
Proof. intros (_ & _ & Hf & _) [t ->]. rewrite Split_snoc_sep, forallb_app in Hf. apply andb_true_iff in Hf as [_ Hf]. discriminate Hf. Qed.

(** Clean text that does not end with a dot is classified as it is. *)
Lemma canonicalHostname_clean h : all_chars clean h = true -> ~ ends_with_dot h -> h <> "" ->
  canonicalHostname h = match ParseAddr h with
                        | Some a => if String.eqb (Zone a) "" then AddrString (Unmap a) else if 253 <? slen h then "" else if forallb valid_label (Split h dot) then h else ""
                        | None => if 253 <? slen h then "" else if forallb valid_label (Split h dot) then h else ""
                        end.
Proof. intros Hc Hd Hne. unfold canonicalHostname. cbv zeta. rewrite Trim_clean, lower_host_clean, TrimSuffix_dot by done. by rewrite (proj2 (String.eqb_neq _ _)) by done. Qed.

Lemma canonicalHostname_addr a : plain_addr a -> canonicalHostname (AddrString a) = AddrString a.
Proof.
  intros Ha. rewrite canonicalHostname_clean; [|by apply AddrString_clean|by apply AddrString_no_dot_end|by apply AddrString_not_empty].
  rewrite AddrString_parse, plain_Unmap_id by done. destruct Ha as (_ & -> & _). done.
Qed.

Lemma canonicalHostname_named h : named h -> canonicalHostname h = h.
Proof.
  intros Hn. rewrite canonicalHostname_clean; [|by apply named_clean|by apply named_no_dot_end|by destruct Hn]. destruct Hn as (_ & Hl & Hf & Hp).
  rewrite (proj2 (Z.ltb_ge 253 (slen h))) by lia. rewrite Hf. destruct (ParseAddr h) as [a|]; [|done]. by rewrite (proj2 (String.eqb_neq _ _)) by done.
Qed.

(** ** Lengths *)
Lemma TrimLeft_slen s cutset : slen (TrimLeft s cutset) <= slen s.
Proof. induction s as [|c s IH]; [done|]. cbn [TrimLeft]. destruct (char_in c cutset); [unfold slen in *; cbn [String.length]; lia|done]. Qed.

Lemma TrimRight_slen s cutset : slen (TrimRight s cutset) <= slen s.
Proof.
  induction s as [|c s IH]; [done|]. cbn [TrimRight]. destruct (TrimRight s cutset) as [|d r]; [destruct (char_in c cutset); unfold slen; cbn [String.length]; lia|].
  unfold slen in *. cbn [String.length] in *. lia.
Qed.

Lemma slen_srev s : slen (srev s) = slen s.
Proof. unfold slen. by rewrite length_srev. Qed.

Lemma TrimPrefix_slen s p : slen (TrimPrefix s p) <= slen s.
Proof. unfold TrimPrefix. destruct (HasPrefix s p) eqn:E; [|done]. apply prefix_split in E. rewrite E at 2. rewrite slen_app. pose proof (slen_nonneg p). lia. Qed.

Lemma TrimSuffix_slen s p : slen (TrimSuffix s p) <= slen s.
Proof. unfold TrimSuffix. rewrite slen_srev, <- (slen_srev s). apply TrimPrefix_slen. Qed.

Lemma TrimSpace_slen s : slen (TrimSpace s) <= slen s.
Proof.
  assert (Hw : forall w, w ∈ white_space \/ w ∈ (srev <$> white_space) -> w <> "") by (intros w Hw ->; by apply white_space_heads in Hw).
  rewrite TrimSpace_strip. unfold trimmed. cbv zeta. set (s1 := strip white_space (String.length s) s).
  destruct (strip_spec white_space (fun w H => Hw w (or_introl H)) (String.length s) s) as [_ [p Hp]]; [done|]. fold s1 in Hp.
  destruct (strip_spec (srev <$> white_space) (fun w H => Hw w (or_intror H)) (String.length s1) (srev s1)) as [_ [q Hq]]; [by rewrite length_srev|].
  rewrite slen_srev. apply (f_equal slen) in Hp, Hq. rewrite slen_app in Hp, Hq. rewrite slen_srev in Hq. pose proof (slen_nonneg p). pose proof (slen_nonneg q). lia.
Qed.

Lemma lower_host_slen s : slen (lower_host s) <= slen s.
Proof.
  assert (Hn : forall n s, (String.length s <= n)%nat -> slen (lower_host s) <= slen s); [|by apply (Hn (String.length s))]. clear s.
  intros n. induction n as [|n IH]; intros s Hs; [destruct s; [done|simpl in Hs; lia]|]. destruct s as [|a s1]; [done|]. simpl in Hs.
  assert (Hc : forall c t, slen (String c t) = 1 + slen t) by (intros c t; unfold slen; cbn [String.length]; lia).
  assert (Hd : slen (String (lower_char a) (lower_host s1)) <= slen (String a s1)) by (rewrite !Hc; specialize (IH s1 ltac:(lia)); lia).
  cbn [lower_host]. destruct s1 as [|b s2]; [exact Hd|]. simpl in Hs. destruct (_ && _).
  { rewrite !Hc. specialize (IH s2 ltac:(lia)). lia. }
  destruct s2 as [|c s3]; [exact Hd|]. destruct (_ && _); [|exact Hd]. simpl in Hs. rewrite !Hc. specialize (IH s3 ltac:(lia)). lia.
Qed.

Lemma hostname_text_slen v : slen (TrimSuffix (lower_host (TrimSpace (Trim v "[]"))) ".") <= slen v.
Proof.
  pose proof (TrimSuffix_slen (lower_host (TrimSpace (Trim v "[]"))) "."). pose proof (lower_host_slen (TrimSpace (Trim v "[]"))). pose proof (TrimSpace_slen (Trim v "[]")).
  unfold Trim in *. pose proof (TrimRight_slen (TrimLeft v "[]") "[]"). pose proof (TrimLeft_slen v "[]"). lia.
Qed.

(** A canonical host name is empty, the text of an address, or a name that is not longer. *)
Lemma canonicalHostname_cases v :
  canonicalHostname v = "" \/ (exists a, plain_addr a /\ canonicalHostname v = AddrString a) \/ (named (canonicalHostname v) /\ slen (canonicalHostname v) <= slen v).
Proof.
  pose proof (hostname_text_slen v) as Hs. unfold canonicalHostname. cbv zeta. revert Hs. generalize (TrimSuffix (lower_host (TrimSpace (Trim v "[]"))) ".") as h. intros h Hs.
  destruct (String.eqb_spec h "") as [_|Hne]; [by left|].
  assert (Hn : match ParseAddr h with Some a => Zone a <> "" | None => True end -> let name := if 253 <? slen h then "" else if forallb valid_label (Split h dot) then h else "" in name = "" \/ (named name /\ slen name <= slen v)).
  { intros Hp. cbv zeta. destruct (Z.ltb_spec 253 (slen h)); [by left|]. destruct (forallb valid_label (Split h dot)) eqn:Hf; [|by left]. right. split; [|done]. unfold named. rewrite Hf. split_and!; done. }
  destruct (ParseAddr h) as [a|] eqn:Ep; [destruct (String.eqb_spec (Zone a) "") as [Hz|Hz]|].
  - right; left. exists (Unmap a). split; [by eapply plain_unmap|done].
  - destruct (Hn Hz) as [?|?]; tauto.
  - destruct (Hn I) as [?|?]; tauto.
Qed.

(** The hosts that the canonical form is made of. *)
Definition host_ok (h : string) : Prop := (exists a, plain_addr a /\ h = AddrString a) \/ named h.

Lemma host_ok_of v : canonicalHostname v <> "" -> host_ok (canonicalHostname v).
Proof. intros Hne. destruct (canonicalHostname_cases v) as [?|[?|[? _]]]; [done|by left|by right]. Qed.

Lemma host_ok_fixed h : host_ok h -> canonicalHostname h = h /\ all_chars clean h = true /\ h <> "".
Proof.
  intros [(a & Ha & ->)|Hn].
  - split_and!; [by apply canonicalHostname_addr|by apply AddrString_clean|by apply AddrString_not_empty].
  - split_and!; [by apply canonicalHostname_named|by apply named_clean|by destruct Hn].
Qed.

(** ** Characters that trimming keeps *)
Section Kept.
Context (p : Ascii.ascii -> bool).

Lemma TrimLeft_kept s cutset : all_chars p s = true -> all_chars p (TrimLeft s cutset) = true.
Proof. induction s as [|c s IH]; [done|]. intros Hs. cbn [TrimLeft]. destruct (char_in c cutset); [|done]. cbn [all_chars] in Hs. apply andb_true_iff in Hs as [_ Hs]. by apply IH. Qed.

Lemma TrimRight_kept s cutset : all_chars p s = true -> all_chars p (TrimRight s cutset) = true.
Proof.
  induction s as [|c s IH]; [done|]. cbn [all_chars TrimRight]. rewrite andb_true_iff. intros [Hc Hs]. specialize (IH Hs).
  destruct (TrimRight s cutset) as [|d r]; [destruct (char_in c cutset); cbn [all_chars]; by rewrite ?Hc|]. cbn [all_chars] in *. by rewrite Hc.
Qed.

Lemma TrimPrefix_kept s t : all_chars p s = true -> all_chars p (TrimPrefix s t) = true.
Proof. unfold TrimPrefix. destruct (HasPrefix s t) eqn:E; [|done]. apply prefix_split in E. rewrite E at 1. rewrite all_chars_app, andb_true_iff. tauto. Qed.

Lemma TrimSuffix_kept s t : all_chars p s = true -> all_chars p (TrimSuffix s t) = true.
Proof. intros Hs. unfold TrimSuffix. rewrite all_chars_srev. apply TrimPrefix_kept. by rewrite all_chars_srev. Qed.

Lemma TrimSpace_kept s : all_chars p s = true -> all_chars p (TrimSpace s) = true.
Proof.
  intros Hs. assert (Hw : forall w, w ∈ white_space \/ w ∈ (srev <$> white_space) -> w <> "") by (intros w Hw ->; by apply white_space_heads in Hw).
  rewrite TrimSpace_strip. unfold trimmed. cbv zeta. set (s1 := strip white_space (String.length s) s).
  destruct (strip_spec white_space (fun w H => Hw w (or_introl H)) (String.length s) s) as [_ [q Hq]]; [done|]. fold s1 in Hq.
  destruct (strip_spec (srev <$> white_space) (fun w H => Hw w (or_intror H)) (String.length s1) (srev s1)) as [_ [r Hr]]; [by rewrite length_srev|].
  rewrite all_chars_srev. rewrite Hq, all_chars_app in Hs. apply andb_true_iff in Hs as [_ Hs]. rewrite <- all_chars_srev, Hr, all_chars_app in Hs. by apply andb_true_iff in Hs as [_ Hs].
Qed.

Context (Hl : forall c, p c = true -> p (lower_char c) = true) (Hi : p (Ascii.ascii_of_nat 105) = true) (Hk : p (Ascii.ascii_of_nat 107) = true).

Lemma lower_host_kept s : all_chars p s = true -> all_chars p (lower_host s) = true.
Proof.
  assert (Hn : forall n s, (String.length s <= n)%nat -> all_chars p s = true -> all_chars p (lower_host s) = true); [|by apply (Hn (String.length s))]. clear s.
  intros n. induction n as [|n IH]; intros s Hs; [destruct s; [done|simpl in Hs; lia]|]. destruct s as [|a s1]; [done|]. simpl in Hs. cbn [all_chars]. rewrite andb_true_iff. intros [Ha H1].
  assert (Hd : all_chars p (String (lower_char a) (lower_host s1)) = true) by (cbn [all_chars]; rewrite Hl by done; apply IH; [lia|done]).
  cbn [lower_host]. destruct s1 as [|b s2]; [exact Hd|]. simpl in Hs. cbn [all_chars] in H1. apply andb_true_iff in H1 as [_ H2]. destruct (_ && _).
  { cbn [all_chars]. rewrite Hi. apply IH; [lia|done]. }
  destruct s2 as [|c s3]; [exact Hd|]. destruct (_ && _); [|exact Hd]. simpl in Hs. cbn [all_chars] in H2 |- *. apply andb_true_iff in H2 as [_ H3]. rewrite Hk. apply IH; [lia|done].
Qed.
End Kept.

(** ** Splitting and joining host and port *)
Lemma Split_Join_HostPort h p : all_chars clean h = true -> h <> "" -> all_chars is_digit p = true -> SplitHostPort (JoinHostPort h p) = Some (h, p).
Proof.
  intros Hh Hne Hp. assert (Hd : forall c, is_digit c = false -> has_char c p = false) by (intros c Hc; by apply digit_not_char).
  assert (Ho : has_char open_bracket h = false) by by apply clean_not. assert (Hc : has_char close_bracket h = false) by by apply clean_not.
  unfold JoinHostPort, SplitHostPort. destruct (has_char colon h) eqn:Ec.
  - change ("[" +:+ ?u) with (String open_bracket u). change ("]:" +:+ p) with (String close_bracket (String colon p)).
    replace (String open_bracket (h +:+ String close_bracket (String colon p))) with (String open_bracket (h +:+ String close_bracket "") +:+ String colon p).
    2: { change (String open_bracket (h +:+ String close_bracket "") +:+ String colon p) with (String open_bracket ((h +:+ String close_bracket "") +:+ String colon p)). by rewrite <- app_assoc_str. }
    rewrite CutLast_app by by apply Hd. change (String open_bracket ?u +:+ ?v) with (String open_bracket (u +:+ v)). cbv beta iota. change (Ascii.eqb open_bracket open_bracket) with true. cbv iota. rewrite <- app_assoc_str.
    change (String close_bracket "" +:+ ?u) with (String close_bracket u). rewrite Cut_app by done. rewrite String.eqb_refl. cbn [negb orb].
    rewrite has_char_app, !has_char_cons, Ho, !Hd by done. done.
  - change (":" +:+ p) with (String colon p). rewrite CutLast_app by by apply Hd. destruct h as [|c h]; [done|]. change (String c h +:+ ?u) with (String c (h +:+ u)).
    rewrite has_char_cons in Ho, Hc. apply orb_false_iff in Ho as [Ho1 Ho2]. apply orb_false_iff in Hc as [Hc1 Hc2].
    rewrite Ho1, Ec. rewrite !has_char_cons, !has_char_app, !has_char_cons, Ho1, Ho2, Hc1, Hc2, !Hd by done. done.
Qed.

Lemma SplitHostPort_slen v h p : SplitHostPort v = Some (h, p) -> slen h + 1 + slen p <= slen v.
Proof.
  unfold SplitHostPort. destruct (CutLast v colon) as [[b port]|] eqn:E; [|done]. apply CutLast_spec in E as [E _]. apply (f_equal slen) in E. rewrite slen_app in E.
  assert (Hc : forall c t, slen (String c t) = 1 + slen t) by (intros c t; unfold slen; cbn [String.length]; lia). rewrite Hc in E.
  destruct v as [|c rest]; [done|]. destruct (Ascii.eqb c open_bracket).
  - destruct (Cut rest close_bracket) as [[host after] found]. destruct (negb found); [done|]. cbn [orb]. destruct (String.eqb_spec b (String c (host +:+ String close_bracket ""))) as [->|]; [|done].
    cbn [negb]. destruct (_ || _); [done|]. intros [= -> ->]. repeat (rewrite Hc in E || rewrite slen_app in E). rewrite Hc. pose proof (slen_nonneg ""). lia.
  - destruct (has_char colon b); [done|]. destruct (_ || _); [done|]. intros [= -> ->]. rewrite ?Hc in *. lia.
Qed.

(** ** Ports *)
Lemma decimal_from_lt s v : 0 <= v -> all_chars is_digit s = true -> decimal_from v s < (v + 1) * 10 ^ slen s.
Proof.
  revert v. induction s as [|c s IH]; intros v Hv Hs; [change (v < (v + 1) * 1); lia|]. cbn [all_chars] in Hs. apply andb_true_iff in Hs as [Hc%is_digit_value Hs]. cbn [decimal_from].
  specialize (IH (10 * v + digit_value c) ltac:(lia) Hs). assert (Hl : slen (String c s) = Z.succ (slen s)) by (unfold slen; cbn [String.length]; lia).
  rewrite Hl, Z.pow_succ_r by apply slen_nonneg. pose proof (Z.pow_pos_nonneg 10 (slen s) ltac:(lia) (slen_nonneg s)). nia.
Qed.

(** A positive number is printed with at most as many digits as it was read from. *)
Lemma Itoa_slen p n : AtoiSigned p = Some n -> 1 <= n -> slen (Itoa n) <= slen p.
Proof.
  assert (Hd : forall d, isAllDigits d = true -> 1 <= decimal_from 0 d -> slen (Itoa (decimal_from 0 d)) <= slen d).
  { intros d Hd Hn. unfold isAllDigits in Hd. apply andb_true_iff in Hd as [Hd _]. pose proof (decimal_from_lt d 0 ltac:(lia) Hd) as Hlt.
    destruct d as [|c d]; [simpl in Hn; lia|]. pose proof (decimal_digits_length (String.length d) 20 (decimal_from 0 (String c d)) "") as Hl. unfold Itoa.
    change (slen (String c d)) with (Z.of_nat (S (String.length d))) in *. specialize (Hl ltac:(lia)). change (slen "") with 0 in Hl. lia. }
  intros Ha Hn. assert (Hs : exists (negative : bool) digits, slen digits <= slen p /\ isAllDigits digits = true /\ n = (if negative then -1 else 1) * decimal_from 0 digits).
  { assert (Hc : forall (negative : bool) digits, (if negb (isAllDigits digits) then None else let v := (if negative then -1 else 1) * decimal_from 0 digits in if (int64_min <=? v) && (v <=? int64_max) then Some v else None) = Some n ->
        isAllDigits digits = true /\ n = (if negative then -1 else 1) * decimal_from 0 digits).
    { intros negative digits. destruct (isAllDigits digits); [|done]. cbn [negb]. cbv zeta. destruct (_ && _); [|done]. by intros [= <-]. }
    unfold AtoiSigned in Ha. destruct p as [|c rest]; [by apply (Hc false "") in Ha as [? _]|]. assert (slen rest <= slen (String c rest)) by (unfold slen; cbn [String.length]; lia).
    destruct (Ascii.eqb c hyphen); [exists true, rest; apply (Hc true rest) in Ha; tauto|]. destruct (Ascii.eqb c plus); [exists false, rest; apply (Hc false rest) in Ha; tauto|].
    exists false, (String c rest). apply (Hc false (String c rest)) in Ha. split; [lia|tauto]. }
  destruct Hs as (negative & digits & Hl & E & ->). assert (H0 : 0 <= decimal_from 0 digits).
  { unfold isAllDigits in E. apply andb_true_iff in E as [E _]. pose proof (decimal_from_ge digits 0 ltac:(lia) E). lia. }
  destruct negative; [lia|]. rewrite Z.mul_1_l in *. specialize (Hd digits E Hn). lia.
Qed.

(** ** Authorities *)
Lemma family_colon s : family s = Some true -> has_char colon s = true.
Proof.
  induction s as [|c s IH]; [done|]. cbn [family]. rewrite has_char_cons. destruct (Ascii.eqb c dot); [done|]. destruct (Ascii.eqb c colon); [done|]. destruct (Ascii.eqb c percent); [done|]. exact IH.
Qed.

Lemma parse6_colon s a : ParseAddr s = Some a -> Is6 a = true -> has_char colon s = true.
Proof. unfold ParseAddr. destruct (family s) as [[]|] eqn:E; [intros _ _; by apply family_colon| |done]. destruct (parseIPv4 s); [|done]. by intros [= <-]. Qed.

Lemma Unmap_Is6 a : Is6 (Unmap a) = true -> Is6 a = true.
Proof. by destruct a. Qed.

Lemma addr4_no_colon a : plain_addr a -> Is6 a = false -> has_char colon (AddrString a) = false.
Proof.
  intros Ha H6. destruct (has_char colon (AddrString a)) eqn:E; [|done]. rewrite AddrString_plain in E by done. destruct a as [z|]; [|done].
  unfold string4 in E. unfold has_char in E. rewrite all_chars_Join in E; [done|done|]. apply Forall_fmap. eapply Forall_impl; [apply (digits_range 256 ltac:(lia))|]. intros d Hd. cbv beta in Hd.
  apply negb_false_iff. apply (digit_not_char colon); [done|]. apply Itoa_digits. lia.
Qed.

Lemma named_no_colon h : named h -> has_char colon h = false.
Proof. intros Hn. unfold has_char. apply negb_false_iff. eapply all_chars_impl; [|by apply named_chars]. intros c. destruct (Ascii.eqb_spec c colon) as [->|]; done. Qed.

(** A host name without a colon stays without one. *)
Lemma hostname_no_colon v : has_char colon v = false -> has_char colon (canonicalHostname v) = false.
Proof.
  intros Hv. destruct (canonicalHostname_cases v) as [->|[_|[Hn _]]]; [done| |by apply named_no_colon]. unfold canonicalHostname. cbv zeta.
  set (h := TrimSuffix _ _). assert (Hh : has_char colon h = false).
  { unfold has_char in *. apply negb_false_iff in Hv. apply negb_false_iff. apply TrimSuffix_kept, lower_host_kept; [|done|done|by apply TrimSpace_kept, TrimRight_kept, TrimLeft_kept].
    intros c. destruct c as [[] [] [] [] [] [] [] []]; vm_compute; done. }
  clearbody h. assert (Hn : forall b1 b2 : bool, has_char colon (if b1 then "" else if b2 then h else "") = false) by (by intros [] []).
  destruct (String.eqb h ""); [done|]. destruct (ParseAddr h) as [a|] eqn:Ep; [|apply Hn]. destruct (String.eqb_spec (Zone a) "") as [Hz|_]; [|apply Hn].
  apply addr4_no_colon; [by eapply plain_unmap|]. destruct (Is6 (Unmap a)) eqn:E6; [|done]. apply Unmap_Is6 in E6. rewrite (parse6_colon h a Ep E6) in Hh. done.
Qed.

Lemma parse_no_zone h a : has_char percent h = false -> ParseAddr h = Some a -> Zone a = "".
Proof.
  intros Hp. unfold ParseAddr. destruct (family h) as [[]|]; [|destruct (parseIPv4 h); [|done]; by intros [= <-]|done]. unfold parseIPv6. rewrite Cut_no_sep by done. cbn [andb].
  destruct (parse_body h) as [l|]; [|done]. cbn [mbind option_bind]. destruct (expand l); [|done]. cbn [mbind option_bind]. by intros [= <-].
Qed.

Lemma named_no_parse h : named h -> ParseAddr h = None.
Proof.
  intros Hn. destruct (ParseAddr h) as [a|] eqn:E; [|done]. assert (Hz : Zone a = "") by (eapply parse_no_zone; [|done]; apply clean_not; [done|by apply named_clean]).
  destruct Hn as (_ & _ & _ & Hp). rewrite E in Hp. done.
Qed.

(** The three forms of a canonical authority. *)
Inductive authority : string -> Prop :=
| with_port h n : host_ok h -> 1 <= n <= 65535 -> slen (JoinHostPort h (Itoa n)) <= 255 -> authority (JoinHostPort h (Itoa n))
| bracketed a : plain_addr a -> Is6 a = true -> authority ("[" +:+ AddrString a +:+ "]")
| bare h : host_ok h -> has_char colon h = false -> slen h <= 255 -> authority h.

Lemma host_ok_slen h v : h = canonicalHostname v -> host_ok h -> (exists a, plain_addr a /\ h = AddrString a /\ slen h <= 100) \/ (named h /\ slen h <= slen v).
Proof.
  intros E Hh. destruct (canonicalHostname_cases v) as [H0|[(a & Ha & H1)|H1]]; rewrite <- E in *.
  - destruct (host_ok_fixed h Hh) as (_ & _ & ?). done.
  - left. exists a. split_and!; [done|done|]. rewrite H1. by apply AddrString_slen.
  - by right.
Qed.


Lemma CanonicalHostPort_authority v : CanonicalHostPort v = "" \/ authority (CanonicalHostPort v).
Proof.
  unfold CanonicalHostPort. cbv zeta. set (t := TrimSpace v). destruct (String.eqb t ""); [by left|]. cbn [orb]. destruct (Z.ltb_spec 255 (slen t)) as [|Hlen]; [by left|]. cbn [orb]. destruct (negb _); [by left|].
  destruct (SplitHostPort t) as [[host port]|] eqn:Es.
  - destruct (AtoiSigned port) as [n|] eqn:Ea; [|by left]. destruct (String.eqb_spec (canonicalHostname host) "") as [|Hne]; [by left|]. cbn [orb].
    destruct (Z.ltb_spec n 1) as [|H1]; [by left|]. cbn [orb]. destruct (Z.ltb_spec 65535 n) as [|H2]; [by left|]. right.
    pose proof (host_ok_of host Hne) as Hok. apply with_port; [done|lia|]. pose proof (SplitHostPort_slen _ _ _ Es) as Hs. pose proof (Itoa_slen port n Ea H1) as Hi.
    destruct (host_ok_slen _ host eq_refl Hok) as [(a & _ & _ & Hl)|[Hn Hl]].
    + assert (Hi5 : slen (Itoa n) <= 5) by (apply (decimal_digits_length 4 20 n ""); change (10 ^ Z.of_nat 5) with 100000; lia).
      unfold JoinHostPort. destruct (has_char colon _); rewrite !slen_app; [change (slen "[") with 1; change (slen "]:") with 2|change (slen ":") with 1]; lia.
    + unfold JoinHostPort. rewrite named_no_colon by done. rewrite !slen_app. change (slen ":") with 1. lia.
  - destruct (_ && _).
    + set (h := canonicalHostname _). destruct (ParseAddr h) as [a|] eqn:Ep; [|by left]. destruct (Is6 a) eqn:E6; [|by left]. right. assert (Hne : h <> "") by (intros E; rewrite E in Ep; discriminate Ep).
      destruct (host_ok_of _ Hne) as [(b & Hb & Hh)|Hn]; fold h in Hh || fold h in Hn.
      * rewrite Hh in *. rewrite AddrString_parse in Ep by done. injection Ep as ->. by apply bracketed.
      * rewrite named_no_parse in Ep by done. done.
    + destruct (has_char colon t) eqn:Ec; [by left|]. destruct (String.eqb_spec (canonicalHostname t) "") as [|Hne]; [by left|]. right. pose proof (host_ok_of t Hne) as Hok.
      apply bare; [done|by apply hostname_no_colon|]. destruct (host_ok_slen _ t eq_refl Hok) as [(a & _ & _ & Hl)|[_ Hl]]; lia.
Qed.

Definition authority_char (c : Ascii.ascii) : bool := clean c || bracket c.

Lemma authority_char_facts c : authority_char c = true -> visible c = true /\ bad_host_char c = false.
Proof. destruct c as [[] [] [] [] [] [] [] []]; vm_compute; try discriminate; done. Qed.

Lemma clean_authority s : all_chars clean s = true -> all_chars authority_char s = true.
Proof. apply all_chars_impl. intros c. unfold authority_char. by intros ->. Qed.

Lemma digit_clean c : is_digit c = true -> clean c = true.
Proof. intros Hc. unfold clean, label_char. rewrite Hc. by rewrite orb_true_r. Qed.

Lemma authority_chars u : authority u -> all_chars authority_char u = true.
Proof.
  intros [h n Hh Hn _|a Ha _|h Hh _ _].
  - destruct (host_ok_fixed h Hh) as (_ & Hc & _). assert (Hp : all_chars authority_char (Itoa n) = true) by (apply clean_authority; eapply all_chars_impl; [apply digit_clean|apply Itoa_digits; lia]).
    unfold JoinHostPort. destruct (has_char colon h); rewrite !all_chars_app, Hp, (clean_authority h Hc); done.
  - rewrite !all_chars_app, (clean_authority _ (AddrString_clean a Ha)). done.
  - apply clean_authority. by destruct (host_ok_fixed h Hh) as (_ & Hc & _).
Qed.

Lemma authority_not_empty u : authority u -> u <> "".
Proof. intros [h n Hh Hn _|a Ha _|h Hh _ _]; [|done|by destruct (host_ok_fixed h Hh) as (_ & _ & ?)]. unfold JoinHostPort. destruct (has_char colon h); [done|]. by destruct h. Qed.

Lemma authority_slen u : authority u -> slen u <= 255.
Proof. intros [h n Hh Hn Hl|a Ha _|h Hh _ Hl]; [done| |done]. rewrite !slen_app. change (slen "[") with 1. change (slen "]") with 1. pose proof (AddrString_slen a Ha). lia. Qed.

Lemma HasSuffix_of_app s t : HasSuffix (s +:+ t) t = true.
Proof.
  induction s as [|c s IH]; [change ("" +:+ t) with t; destruct t; cbn [HasSuffix]; by rewrite String.eqb_refl|]. change (String c s +:+ t) with (String c (s +:+ t)). cbn [HasSuffix]. by rewrite IH, orb_true_r.
Qed.

Lemma TrimSuffix_app s t : TrimSuffix (s +:+ t) t = s.
Proof. unfold TrimSuffix, TrimPrefix. rewrite srev_app, HasPrefix_app, drop_chars_app. apply srev_involutive. Qed.

Lemma split_bracketed_none s : has_char close_bracket s = false -> SplitHostPort (String open_bracket (s +:+ String close_bracket "")) = None.
Proof.
  intros Hs. unfold SplitHostPort. destruct (CutLast _ colon) as [[b a]|] eqn:E; [|done]. apply CutLast_spec in E as [E _]. rewrite Ascii.eqb_refl, Cut_app by done. cbn [negb orb].
  destruct (String.eqb_spec b (String open_bracket (s +:+ String close_bracket ""))) as [->|]; [|done]. exfalso. apply (f_equal slen) in E. rewrite (slen_app _ (String colon a)) in E.
  pose proof (slen_nonneg a). assert (slen (String colon a) = 1 + slen a) by (unfold slen; cbn [String.length]; lia). lia.
Qed.

(** What a canonical authority splits into. *)
Lemma authority_split u : authority u -> match SplitHostPort u with Some (h, _) => h <> "" | None => True end.
Proof.
  intros [h n Hh Hn _|a Ha _|h Hh Hc _].
  - destruct (host_ok_fixed h Hh) as (_ & Hcl & Hne). rewrite Split_Join_HostPort; [done|done|done|apply Itoa_digits; lia].
  - change ("[" +:+ AddrString a +:+ "]") with (String open_bracket (AddrString a +:+ String close_bracket "")). rewrite split_bracketed_none; [done|]. apply clean_not; [done|by apply AddrString_clean].
  - unfold SplitHostPort. by rewrite (proj2 (CutLast_none h colon) Hc).
Qed.

Lemma authority_fixed u : authority u -> CanonicalHostPort u = u.
Proof.
  intros Hu. pose proof (authority_chars u Hu) as Hc. unfold CanonicalHostPort. cbv zeta. rewrite TrimSpace_visible by (eapply all_chars_impl; [|exact Hc]; intros c Hx; by apply authority_char_facts).
  rewrite (proj2 (String.eqb_neq _ _)) by by apply authority_not_empty. rewrite (proj2 (Z.ltb_ge 255 (slen u))) by by apply authority_slen.
  assert (Hb : all_chars (fun c => negb (bad_host_char c)) u = true) by (eapply all_chars_impl; [|exact Hc]; intros c Hx; apply negb_true_iff; by apply authority_char_facts). rewrite Hb. cbn [orb negb].
  destruct Hu as [h n Hh Hn _|a Ha H6|h Hh Hcol _].
  - destruct (host_ok_fixed h Hh) as (Hf & Hcl & Hne). rewrite Split_Join_HostPort; [|done|done|apply Itoa_digits; lia]. rewrite Hf, AtoiSigned_Itoa by (unfold int64_max; lia).
    rewrite (proj2 (String.eqb_neq _ _) Hne), (proj2 (Z.ltb_ge n 1)), (proj2 (Z.ltb_ge 65535 n)) by lia. done.
  - change ("[" +:+ AddrString a +:+ "]") with (String open_bracket (AddrString a +:+ String close_bracket "")). rewrite split_bracketed_none by (apply clean_not; [done|by apply AddrString_clean]).
    change (String open_bracket (AddrString a +:+ String close_bracket "")) with ("[" +:+ (AddrString a +:+ "]")). rewrite HasPrefix_app, app_assoc_str, HasSuffix_of_app. cbn [andb].
    rewrite <- app_assoc_str. unfold TrimPrefix. rewrite HasPrefix_app, drop_chars_app, TrimSuffix_app, canonicalHostname_addr, AddrString_parse, H6 by done. done.
  - unfold SplitHostPort. rewrite (proj2 (CutLast_none h colon) Hcol). destruct (host_ok_fixed h Hh) as (Hf & Hcl & Hne). rewrite Hcol. assert (Hp : HasPrefix h "[" = false).
    { destruct h as [|c h]; [done|]. unfold HasPrefix. cbn [String.prefix]. destruct (Ascii.ascii_dec _ c) as [<-|]; [|done]. cbn [all_chars] in Hcl. discriminate Hcl. }
    by rewrite Hp.
Qed.

(** Canonical authorities are stable. *)
Lemma CanonicalHostPort_idem v : CanonicalHostPort (CanonicalHostPort v) = CanonicalHostPort v.
Proof. destruct (CanonicalHostPort_authority v) as [->|Ha]; [done|by apply authority_fixed]. Qed.

Lemma origin_authority_not_empty scheme v : scheme = "http" \/ scheme = "https" -> CanonicalHostPort v <> "" -> CanonicalOriginAuthority scheme v <> "".
Proof.
  intros Hs Hne. destruct (CanonicalHostPort_authority v) as [?|Ha]; [done|]. unfold CanonicalOriginAuthority. cbv zeta. rewrite (proj2 (String.eqb_neq _ _) Hne).
  pose proof (authority_split _ Ha) as Hsp. assert (Hstrip : forall dp, match SplitHostPort (CanonicalHostPort v) with
    | Some (host, port) => if negb (String.eqb port dp) then CanonicalHostPort v else match ParseAddr host with Some a => if Is6 a then "[" +:+ host +:+ "]" else host | None => host end
    | None => CanonicalHostPort v end <> "").
  { intros dp. destruct (SplitHostPort _) as [[host port]|]; [|done]. destruct (negb _); [done|]. destruct (ParseAddr host) as [a|]; [|done]. by destruct (Is6 a). }
  destruct Hs as [-> | ->]; apply Hstrip.
Qed.

(** ** Forwarded hops *)
Definition set_for (values : list string) (r : request) : request :=
  mkRequest (rqRemoteAddr r) (rqTLS r) (rqHost r) values (rqForwardedProto r) (rqMethod r) (rqOrigin r) (rqCSRFHeader r).

Definition set_proto (values : list string) (r : request) : request :=
  mkRequest (rqRemoteAddr r) (rqTLS r) (rqHost r) (rqForwardedFor r) values (rqMethod r) (rqOrigin r) (rqCSRFHeader r).

Definition peer_of (r : request) : string := CanonicalIP (splitRemoteIP (rqRemoteAddr r)).

(** A hop at which the walk ends. *)
Definition foreign (trusted : list Prefix) (part : string) : bool := negb (contains trusted (CanonicalIP part)).

Lemma contains_empty trusted : contains trusted "" = false.
Proof. done. Qed.

Lemma walk_app trusted l1 l2 n i : existsb (foreign trusted) l1 = true -> walk trusted (l1 ++ l2) n i = walk trusted l1 n i.
Proof.
  revert n. induction l1 as [|x l1 IH]; intros n; [done|]. cbn [existsb app walk]. unfold foreign at 1. destruct (String.eqb_spec (CanonicalIP x) "") as [_|_]; [done|].
  destruct (contains trusted (CanonicalIP x)); [apply IH|done].
Qed.

Lemma walk_ext trusted l1 l2 n i : Forall2 (fun x y => CanonicalIP x = CanonicalIP y) l1 l2 -> walk trusted l1 n i = walk trusted l2 n i.
Proof. intros H. revert n. induction H as [|x y l1 l2 Hx _ IH]; intros n; [done|]. cbn [walk]. rewrite Hx. destruct (String.eqb _ _); [done|]. destruct (contains _ _); [apply IH|done]. Qed.

Lemma Split_app_sep s t sep : Split (s +:+ String sep t) sep = Split s sep ++ Split t sep.
Proof.
  induction s as [|c s IH]; [simpl; by rewrite Ascii.eqb_refl|]. change (String c s +:+ ?u) with (String c (s +:+ u)). cbn [Split]. rewrite IH.
  destruct (Ascii.eqb c sep); [done|]. by destruct (Split s sep) eqn:E; [apply Split_not_nil in E|].
Qed.

Definition blank : Ascii.ascii := Ascii.ascii_of_nat 32.

Lemma TrimRight_space s : TrimRight (String blank s) "[]" = String blank (TrimRight s "[]").
Proof. cbn [TrimRight]. by destruct (TrimRight s "[]"). Qed.

Lemma TrimSpace_space s : TrimSpace (String blank s) = TrimSpace s.
Proof. assert (E : strip_one white_space (String blank s) = Some s) by (destruct s; reflexivity). unfold TrimSpace. cbn [String.length trim_left]. by rewrite E. Qed.

Definition bracket_head (s : string) : bool := match s with String c _ => bracket c | "" => false end.

Lemma CanonicalIP_space s : bracket_head s = false -> CanonicalIP (String blank s) = CanonicalIP s.
Proof.
  intros Hh. assert (E : TrimLeft s "[]" = s) by (destruct s as [|c s]; [done|]; cbn [TrimLeft]; unfold bracket_head, bracket in Hh; by rewrite Hh).
  unfold CanonicalIP, Trim. change (TrimLeft (String blank s) "[]") with (String blank s). by rewrite TrimRight_space, TrimSpace_space, E.
Qed.

Lemma Split_pad s sep : Ascii.eqb blank sep = false -> exists p l, Split s sep = p :: l /\ Split (String blank s) sep = String blank p :: l /\ (bracket_head s = false -> bracket_head p = false).
Proof.
  intros Hs. cbn [Split]. rewrite Hs. destruct (Split s sep) as [|p l] eqn:E; [by apply Split_not_nil in E|]. exists p, l. split_and!; [done|done|].
  destruct s as [|c s]; simpl in E; [by injection E as <- _|]. destruct (Ascii.eqb c sep); [by injection E as <- _|]. destruct (Split s sep) as [|q k]; injection E as <- _; done.
Qed.

(** *** Trimming a list of hops *)
Section Separated.
Context (ws : list string) (Hws : forall w, w ∈ ws -> w <> "" /\ has_char comma w = false).

Lemma HasPrefix_sep w s t : has_char comma w = false -> HasPrefix (s +:+ String comma t) w = HasPrefix s w.
Proof.
  unfold HasPrefix. revert s. induction w as [|c w IH]; intros s Hc; [by destruct s|]. unfold has_char in Hc. cbn [all_chars] in Hc. rewrite negb_andb, negb_involutive in Hc. apply orb_false_iff in Hc as [Hc Hw]. destruct s as [|d s].
  - change ("" +:+ String comma t) with (String comma t). cbn [String.prefix]. destruct (Ascii.ascii_dec c comma) as [->|]; [done|done].
  - change (String d s +:+ ?u) with (String d (s +:+ u)). cbn [String.prefix]. destruct (Ascii.ascii_dec c d); [by apply IH|done].
Qed.

Lemma strip_one_sep l s t : (forall w, w ∈ l -> has_char comma w = false) -> strip_one l (s +:+ String comma t) = (fun x => x +:+ String comma t) <$> strip_one l s.
Proof.
  induction l as [|w l IH]; intros Hl; [done|]. cbn [strip_one]. rewrite HasPrefix_sep by (apply Hl, elem_of_cons; by left). destruct (HasPrefix s w) eqn:E.
  - cbn. f_equal. rewrite (prefix_split w s E) at 1. rewrite <- app_assoc_str. apply drop_chars_app.
  - apply IH. intros x Hx. apply Hl, elem_of_cons. by right.
Qed.

Lemma strip_sep fuel s t : strip ws fuel (s +:+ String comma t) = strip ws fuel s +:+ String comma t.
Proof.
  revert s. induction fuel as [|fuel IH]; intros s; [done|]. cbn [strip]. rewrite strip_one_sep by (intros w Hw; by apply Hws). destruct (strip_one ws s); [apply IH|done].
Qed.

Lemma strip_fuel n m s : (String.length s <= n)%nat -> (String.length s <= m)%nat -> strip ws n s = strip ws m s.
Proof.
  revert m s. induction n as [|n IH]; intros m s Hn Hm.
  - destruct s as [|c s]; [|simpl in Hn; lia]. destruct (strip_spec ws (fun w H => proj1 (Hws w H)) 0 "") as [H _]; [done|]. cbn [strip] in H. symmetry. by apply strip_none.
  - cbn [strip]. destruct (strip_one ws s) as [s'|] eqn:E; [|symmetry; by apply strip_none].
    pose proof E as (w & Hw & Es)%strip_one_spec. apply Hws in Hw as [Hw _]. assert (Hl : (String.length s' < String.length s)%nat) by (rewrite Es, length_app_str; destruct w; [done|simpl; lia]).
    destruct m as [|m]; [lia|]. cbn [strip]. rewrite E. apply IH; lia.
Qed.
End Separated.

(** The right half of [TrimSpace]. *)
Definition TrimSpaceRight (s : string) : string := srev (strip (srev <$> white_space) (String.length s) (srev s)).

Lemma white_space_sep w : w ∈ white_space \/ w ∈ (srev <$> white_space) -> w <> "" /\ has_char comma w = false.
Proof.
  intros Hw. assert (Ha : Forall (fun w => w <> "" /\ has_char comma w = false) (white_space ++ (srev <$> white_space))) by (unfold white_space; simpl; repeat constructor; done).
  rewrite Forall_forall in Ha. apply Ha, elem_of_app. tauto.
Qed.

(** White space around a list of hops belongs to its first and its last part. *)
Lemma TrimSpace_sep s t : exists s', TrimSpace (s +:+ String comma t) = s' +:+ String comma (TrimSpaceRight t).
Proof.
  rewrite TrimSpace_strip. unfold trimmed. cbv zeta. rewrite (strip_sep white_space (fun w H => white_space_sep w (or_introl H))). set (s1 := strip white_space _ s). exists s1.
  set (whole := s1 +:+ String comma t). assert (Ew : srev whole = srev t +:+ String comma (srev s1)).
  { subst whole. rewrite srev_app. cbn [srev]. by rewrite <- app_assoc_str. }
  rewrite Ew, (strip_sep (srev <$> white_space) (fun w H => white_space_sep w (or_intror H))), srev_app. cbn [srev]. rewrite srev_involutive, <- app_assoc_str. cbn. f_equal. f_equal.
  unfold TrimSpaceRight. f_equal. apply strip_fuel; [intros w Hw; by apply white_space_sep; right| |by rewrite length_srev]. rewrite length_srev. subst whole. rewrite length_app_str. simpl. lia.
Qed.

(** *** What a client sends before a list of hops *)
Definition hops_of (values : list string) : list string := Split (TrimSpace (Join values ",")) comma.
Definition bounded (hops : list string) : Prop := Z.of_nat (length hops) <= MaxForwardedHops.

(** Everything in an identity but the scheme that is forwarded and the validity. *)
Definition address (i : V1) : Z * string * string * string * string * Z * string * string * string :=
  (idVersion i, idTransportPeer i, idClientIP i, idClientPrefix i, idProvenance i, idTrustedProxyHops i, idActualScheme i, idExternalHost i, idConfigRevision i).

(** The identity before the forwarding headers are read. *)
Definition behind_proxy (r : request) (config : Config) : V1 :=
  let scheme := if rqTLS r then "https" else "http" in
  mkV1 1 (peer_of r) (peer_of r) (PrivacyPrefix (peer_of r)) ProvenanceUnknown 0 scheme scheme "transport" (CanonicalHostPort (rqHost r)) (cfRevision config) true.

Lemma Resolve_bounded r config : contains (cfTrustedProxies config) (peer_of r) = true -> TrimSpace (Join (rqForwardedFor r) ",") <> "" -> bounded (hops_of (rqForwardedFor r)) ->
  Resolve r config = resolve_proto r (walk (cfTrustedProxies config) (rev (hops_of (rqForwardedFor r))) 1 (behind_proxy r config)).
Proof.
  intros Hp Hne Hb. unfold Resolve. cbv zeta. fold (peer_of r). rewrite Hp. cbn [negb]. unfold resolve_for, boundedForwardedFor. cbv zeta. rewrite (proj2 (String.eqb_neq _ _) Hne).
  fold (hops_of (rqForwardedFor r)). unfold bounded in Hb. by rewrite (proj2 (Z.ltb_ge _ _) Hb).
Qed.

Lemma Resolve_unbounded r config : contains (cfTrustedProxies config) (peer_of r) = true -> ~ bounded (hops_of (rqForwardedFor r)) ->
  Resolve r config = resolve_proto r (with_forwarded_valid false (behind_proxy r config)).
Proof.
  intros Hp Hb. unfold Resolve. cbv zeta. fold (peer_of r). rewrite Hp. cbn [negb]. unfold resolve_for, boundedForwardedFor. cbv zeta. unfold bounded, hops_of in Hb.
  destruct (String.eqb_spec (TrimSpace (Join (rqForwardedFor r) ",")) "") as [E|_]; [rewrite E in Hb; vm_compute in Hb; by destruct Hb|]. by rewrite (proj2 (Z.ltb_lt _ _)) by lia.
Qed.

Lemma resolve_proto_address r i : address (resolve_proto r i) = address i.
Proof. unfold resolve_proto. destruct (rqForwardedProto r) as [|x [|? ?]]; [done| |done]. by destruct (exactForwardedProto x). Qed.

Lemma resolve_proto_invalid r i : idForwardedValid i = false -> idForwardedValid (resolve_proto r i) = false.
Proof. intros H. unfold resolve_proto. destruct (rqForwardedProto r) as [|x [|? ?]]; [done| |done]. by destruct (exactForwardedProto x). Qed.

(** The hops of a header to which [chain] was appended. *)
Lemma appended_hops values forged chain : Join values "," = forged +:+ String comma chain ->
  exists l, hops_of values = l ++ Split (TrimSpaceRight chain) comma /\ TrimSpace (Join values ",") <> "".
Proof.
  intros Hj. unfold hops_of. rewrite Hj. destruct (TrimSpace_sep forged chain) as [s' ->]. exists (Split s' comma). split; [apply Split_app_sep|by destruct s'].
Qed.

Lemma walk_appended trusted l tail i : existsb (foreign trusted) tail = true -> walk trusted (rev (l ++ tail)) 1 i = walk trusted (rev tail) 1 i.
Proof.
  intros Hf. rewrite rev_app_distr. apply walk_app. apply existsb_exists in Hf as (x & Hx & Hf). apply existsb_exists. exists x. split; [|done]. by apply in_rev; rewrite rev_involutive.
Qed.

(** The same hops with a blank before the first, which has no bracket. *)
Lemma padded_hops pad chain : pad = "" \/ pad = " " -> bracket_head chain = false ->
  Forall2 (fun x y => CanonicalIP x = CanonicalIP y) (Split (pad +:+ chain) comma) (Split chain comma).
Proof.
  intros Hpad Hb. assert (Hr : forall l, Forall2 (fun x y => CanonicalIP x = CanonicalIP y) l l) by (intros l; induction l; by constructor). destruct Hpad as [-> | ->]; [apply Hr|].
  change (" " +:+ chain) with (String blank chain). destruct (Split_pad chain comma eq_refl) as (p & l & -> & -> & Hbh). constructor; [by apply CanonicalIP_space, Hbh|apply Hr].
Qed.

(** C15: a client cannot forge its address.  When the peer is no trusted proxy, the
    forwarding headers change nothing.  When it is one, let the proxies append [chain] to
    what the client sent in [X-Forwarded-For], with some hop of [chain] that is no trusted
    proxy, as the address of the client is.  Within the limit of hops, whatever the client
    sent there and in [X-Forwarded-Proto], and however the lines are split, the resolved
    address is the same: only the forwarded scheme and the validity can depend on the
    headers of the protocol, and they depend on nothing else.  A client that sent no
    [X-Forwarded-For] has the same identity too, when the proxies append with or without a
    blank and the first appended hop has no bracket.  Above the limit the identity is
    invalid and its address is the peer. *)
Theorem client_address_unforgeable r config chain :
  let trusted := cfTrustedProxies config in
  let identity values proto := Resolve (set_for values (set_proto proto r)) config in
  let sent forged values := Join values "," = forged +:+ String comma chain in
  (contains trusted (peer_of r) = false -> forall values proto, identity values proto = identity [] []) /\
  (contains trusted (peer_of r) = true -> existsb (foreign trusted) (Split (TrimSpaceRight chain) comma) = true ->
   forall forged values proto, sent forged values ->
   (bounded (hops_of values) ->
      (forall forged' values' proto', sent forged' values' -> bounded (hops_of values') ->
         address (identity values proto) = address (identity values' proto') /\ (proto = proto' -> identity values proto = identity values' proto')) /\
      (forall pad honest, pad = "" \/ pad = " " -> chain = pad +:+ honest -> TrimSpaceRight chain = chain -> TrimSpace honest = honest -> honest <> "" -> bracket_head honest = false ->
         identity values proto = identity [honest] proto)) /\
   (~ bounded (hops_of values) -> idForwardedValid (identity values proto) = false /\ idClientIP (identity values proto) = peer_of r)).
Proof.
  cbv zeta. split.
  { intros Hp values proto. unfold Resolve, set_for, set_proto. cbn [rqRemoteAddr rqTLS rqHost]. fold (peer_of r). by rewrite Hp. }
  intros Hp Hf forged values proto Hs. set (tail := Split (TrimSpaceRight chain) comma) in *.
  assert (Hid : forall f vs pr, Join vs "," = f +:+ String comma chain -> bounded (hops_of vs) ->
    Resolve (set_for vs (set_proto pr r)) config = resolve_proto (set_for vs (set_proto pr r)) (walk (cfTrustedProxies config) (rev tail) 1 (behind_proxy r config))).
  { intros f vs pr Hj Hb. destruct (appended_hops vs f chain Hj) as (l & Hl & Hne). rewrite Resolve_bounded by done. cbn [set_for rqForwardedFor]. rewrite Hl. fold tail. by rewrite walk_appended. }
  split; [intros Hb; split|intros Hb].
  - intros forged' values' proto' Hs' Hb'. rewrite (Hid _ _ proto Hs Hb), (Hid _ _ proto' Hs' Hb'), !resolve_proto_address. split; [done|]. by intros ->.
  - intros pad honest Hpad Hc Hr Ht Hne Hbr. rewrite (Hid _ _ proto Hs Hb). pose proof (padded_hops pad honest Hpad Hbr) as Hpc. rewrite <- Hc, <- Hr in Hpc. fold tail in Hpc.
    assert (Hh : hops_of [honest] = Split honest comma) by (unfold hops_of; change (Join [honest] ",") with honest; by rewrite Ht).
    destruct (appended_hops values forged chain Hs) as (l & Hl & _). assert (Hb0 : bounded (hops_of [honest])).
    { rewrite Hh. unfold bounded in *. rewrite <- (Forall2_length _ _ _ Hpc). rewrite Hl, length_app in Hb. fold tail in Hb. lia. }
    rewrite (Resolve_bounded (set_for [honest] (set_proto proto r))); [|done|change (TrimSpace honest <> ""); by rewrite Ht|done]. cbn [set_for rqForwardedFor]. rewrite Hh.
    change (behind_proxy _ config) with (behind_proxy r config) at 2. rewrite (walk_ext _ (rev tail) (rev (Split honest comma))); [done|]. rewrite !rev_alt. by apply Forall2_reverse.
  - rewrite Resolve_unbounded by done. split; [by apply resolve_proto_invalid|]. match goal with |- idClientIP (resolve_proto ?q ?i) = _ => by injection (resolve_proto_address q i) end.
Qed.

(** ** Resolved identities *)
Definition web_scheme (s : string) : Prop := s = "http" \/ s = "https".

(** What holds of every identity that is resolved. *)
Record resolved (config : Config) (i : V1) : Prop := mkResolved {
  rv_version : idVersion i = 1;
  rv_peer : CanonicalIP (idTransportPeer i) = idTransportPeer i;
  rv_client : CanonicalIP (idClientIP i) = idClientIP i;
  rv_prefix : idClientPrefix i = PrivacyPrefix (idClientIP i);
  rv_actual : web_scheme (idActualScheme i);
  rv_desired : web_scheme (idDesiredScheme i);
  rv_source : (idSchemeSource i = "transport" /\ idDesiredScheme i = idActualScheme i) \/ (idSchemeSource i = "trusted_x_forwarded_proto" /\ idProvenance i <> ProvenanceDirect);
  rv_host : CanonicalHostPort (idExternalHost i) = idExternalHost i;
  rv_config : idConfigRevision i = cfRevision config;
  rv_provenance : (idProvenance i = ProvenanceDirect /\ idClientIP i = idTransportPeer i /\ idTrustedProxyHops i = 0) \/ idProvenance i = ProvenanceUnknown \/
    (idProvenance i = ProvenanceTrustedXFF /\ 1 <= idTrustedProxyHops i <= MaxForwardedHops /\ idClientIP i <> "" /\ idClientIP i <> idTransportPeer i)
}.

(** The walk keeps these facts, while fewer hops than the limit were passed. *)
Lemma walk_resolved config i l n : resolved config i -> idProvenance i = ProvenanceUnknown -> contains (cfTrustedProxies config) (idTransportPeer i) = true ->
  1 <= n -> n + Z.of_nat (length l) <= MaxForwardedHops + 1 -> resolved config (walk (cfTrustedProxies config) l n i) /\ idProvenance (walk (cfTrustedProxies config) l n i) <> ProvenanceDirect.
Proof.
  intros Hi Hu Hp. assert (H0 : resolved config i /\ idProvenance i <> ProvenanceDirect) by (split; [done|by rewrite Hu]). revert n. induction l as [|x l IH]; intros n Hn Hl; cbn [walk]; [done|].
  rewrite length_cons, Nat2Z.inj_succ in Hl. destruct (String.eqb_spec (CanonicalIP x) "") as [_|Hne]; [split; [by destruct Hi; constructor|by destruct H0]|].
  destruct (contains (cfTrustedProxies config) (CanonicalIP x)) eqn:Ec; [apply IH; lia|]. split; [|done]. destruct Hi. constructor; cbn; try done.
  - apply CanonicalIP_idem.
  - destruct rv_source0 as [?|[? _]]; [by left|by right].
  - right; right. split_and!; [done|lia|lia|done|]. intros E. rewrite E in Ec. congruence.
Qed.

Lemma exactForwardedProto_scheme v p : exactForwardedProto v = Some p -> web_scheme p.
Proof. unfold exactForwardedProto. cbv zeta. destruct (_ || _); [done|]. destruct (String.eqb _ "http"); [intros [= <-]; by left|]. destruct (String.eqb _ "https"); [intros [= <-]; by right|done]. Qed.

Lemma bounded_length v parts : boundedForwardedFor v = Some parts -> Z.of_nat (length parts) <= MaxForwardedHops.
Proof. unfold boundedForwardedFor. cbv zeta. destruct (String.eqb _ _); [by intros [= <-]|]. destruct (Z.ltb_spec MaxForwardedHops (Z.of_nat (length (Split (TrimSpace v) comma)))); [done|]. by intros [= <-]. Qed.

Lemma resolved_valid config b i : resolved config i -> resolved config (with_forwarded_valid b i).
Proof. intros []; by constructor. Qed.

Lemma Resolve_resolved r config : resolved config (Resolve r config).
Proof.
  unfold Resolve. cbv zeta. fold (peer_of r). set (i := mkV1 _ _ _ _ _ _ _ _ _ _ _ _).
  assert (Hs : web_scheme (if rqTLS r then "https" else "http")) by (destruct (rqTLS r); [by right|by left]).
  assert (Hi : resolved config i).
  { constructor; cbn; try done; [apply CanonicalIP_idem|apply CanonicalIP_idem|by left|apply CanonicalHostPort_idem|by left]. }
  destruct (contains (cfTrustedProxies config) (peer_of r)) eqn:Ec; cbn [negb]; [|exact Hi].
  assert (Hu : resolved config (with_provenance ProvenanceUnknown i)).
  { constructor; cbn; try done; [apply CanonicalIP_idem|apply CanonicalIP_idem|by left|apply CanonicalHostPort_idem|by right; left]. }
  assert (Hf : resolved config (resolve_for r config (with_provenance ProvenanceUnknown i)) /\ idProvenance (resolve_for r config (with_provenance ProvenanceUnknown i)) <> ProvenanceDirect).
  { unfold resolve_for. cbv zeta. destruct (boundedForwardedFor _) as [parts|] eqn:Eb.
    - apply bounded_length in Eb. apply walk_resolved; [by apply resolved_valid|done|done|lia|rewrite length_rev; lia].
    - destruct (String.eqb _ _); [done|]. split; [by apply resolved_valid|done]. }
  destruct Hf as [Hf Hd]. revert Hf Hd. generalize (resolve_for r config (with_provenance ProvenanceUnknown i)) as j. intros j Hf Hd. unfold resolve_proto.
  destruct (rqForwardedProto r) as [|x [|y l]]; [done| |by apply resolved_valid]. destruct (exactForwardedProto x) as [p|] eqn:Ep; [|by apply resolved_valid].
  apply exactForwardedProto_scheme in Ep. destruct Hf. constructor; cbn; try done. by right.
Qed.

Lemma is_http_web s : is_http s = true <-> web_scheme s.
Proof. unfold is_http, web_scheme. rewrite orb_true_iff, !String.eqb_eq. done. Qed.

(** C17: every fully resolved identity qualifies for security grants, and no other does.
    Whatever the request and the configured proxies, the identity that is resolved is
    accepted by the check of grants exactly when its forwarding headers are valid, its
    client is known, its peer has an address and its host is canonical; so the check
    refuses no identity because of its text, and an unknown client never passes. *)
Theorem resolved_identity_qualifies sha256hex r raw :
  (forall s, revisionToken (sha256hex s) = true) ->
  let i := Resolve r (ParseConfig sha256hex raw) in
  ValidForSecurityGrant i = true <-> idForwardedValid i = true /\ idProvenance i <> ProvenanceUnknown /\ idTransportPeer i <> "" /\ idExternalHost i <> "".
Proof.
  intros Hsha i. destruct (Resolve_resolved r (ParseConfig sha256hex raw)) as [H1 H2 H3 H4 H5 H6 H7 H8 H9 H10]. fold i in H1, H2, H3, H4, H5, H6, H7, H8, H9, H10.
  unfold ValidForSecurityGrant. cbv zeta. rewrite H1, H2, H3, H8, H9, <- H4, !String.eqb_refl. cbn [Z.eqb Pos.eqb negb orb cfRevision ParseConfig]. cbv zeta. rewrite Hsha. cbn [negb orb].
  rewrite (proj2 (is_http_web _) H5). destruct (idForwardedValid i); cbn [negb orb]; [|split; [done|by intros [? _]]].
  destruct (String.eqb_spec (idExternalHost i) "") as [Eh|Hh].
  { rewrite Eh. change (CanonicalOriginAuthority (idDesiredScheme i) "") with "". rewrite orb_true_r. cbn [orb]. split; [done|by intros (_ & _ & _ & ?)]. }
  rewrite (proj2 (String.eqb_neq (CanonicalOriginAuthority _ _) "")) by (apply origin_authority_not_empty; [exact H6|by rewrite H8]). rewrite !orb_false_r.
  destruct (String.eqb_spec (idTransportPeer i) "") as [Ep|Hp]; [rewrite orb_true_r; split; [done|by intros (_ & _ & ? & _)]|]. rewrite orb_false_r.
  destruct H10 as [(P & C & N)|[P|(P & N & C1 & C2)]].
  - rewrite C, P, N, (proj2 (String.eqb_neq _ _) Hp). destruct H7 as [[-> ->]|[_ ?]]; [|done]. rewrite !String.eqb_refl. split; [intros _; by split_and!|done].
  - rewrite P. change (String.eqb ProvenanceUnknown ProvenanceDirect) with false. change (String.eqb ProvenanceUnknown ProvenanceTrustedXFF) with false. destruct (String.eqb _ ""); (split; [done|by intros (_ & ? & _)]).
  - rewrite P, (proj2 (String.eqb_neq _ _) C1), (proj2 (String.eqb_neq _ _) C2). change (String.eqb ProvenanceTrustedXFF ProvenanceDirect) with false. change (String.eqb ProvenanceTrustedXFF ProvenanceTrustedXFF) with true.
    rewrite (proj2 (Z.leb_gt _ 0)), (proj2 (Z.ltb_ge MaxForwardedHops _)) by lia. cbn [orb]. split; [intros _; by split_and!|]. intros _. destruct H7 as [[-> ->]|[-> _]]; [by rewrite !String.eqb_refl|]. by apply is_http_web.
Qed.

(** ** Origins *)
Section Origins.
Context (ParseURL : string -> option OriginURL).

(** [url.Parse] gives the scheme in lower case. *)
Definition lowers_scheme : Prop := forall s u, ParseURL s = Some u -> ToLower (ouScheme u) = ouScheme u.

Lemma ToLower_web s : web_scheme s -> ToLower s = s.
Proof. by intros [-> | ->]. Qed.

(** For a resolved identity the origin check of CSRF is the one of websockets, for origins
    that have no path. *)
Lemma same_origin_is_allowed r i config value origin : lowers_scheme -> resolved config i -> rqOrigin r = [value] -> TrimSpace value <> "" -> ParseURL (TrimSpace value) = Some origin -> ouPath origin = "" ->
  sameOriginRequest ParseURL r i = OriginAllowedV1 ParseURL (TrimSpace value) i.
Proof.
  intros Hlow Hi Ho Hne Hp Hpath. unfold sameOriginRequest, OriginAllowedV1. rewrite Ho, Hp, Hpath, (proj2 (String.eqb_neq _ _) Hne). cbv zeta.
  rewrite (Hlow _ _ Hp), ToLower_web by apply Hi. change (String.eqb "" "") with true. cbn [negb andb orb]. rewrite !orb_false_r.
  destruct (String.eqb (ouScheme origin) ""), (String.eqb (ouHost origin) ""), (ouUser origin), (String.eqb (ouRawQuery origin) ""), (String.eqb (ouFragment origin) ""); cbn [negb orb andb]; try (by destruct (requestAuthority i)).
  destruct (requestAuthority i) eqn:Ea; [|done]. cbn [negb]. destruct (String.eqb_spec (ouScheme origin) (idDesiredScheme i)) as [->|_]; [|by destruct (is_http (ouScheme origin))].
  rewrite (proj2 (is_http_web _)) by apply Hi. cbn [negb]. unfold requestAuthority in Ea. apply andb_true_iff in Ea as [Ea _]. apply negb_true_iff, String.eqb_neq in Ea.
  destruct (String.eqb_spec (CanonicalOriginAuthority (idDesiredScheme i) (ouHost origin)) (CanonicalOriginAuthority (idDesiredScheme i) (idExternalHost i))) as [E|_]; [|by rewrite andb_false_r].
  rewrite E, (proj2 (String.eqb_neq _ _)); [done|]. apply origin_authority_not_empty; [apply Hi|]. by rewrite (rv_host _ _ Hi).
Qed.

(** C16: a request that changes state gets past the CSRF middleware exactly when it has the
    origin of the panel and the token of its session.  For every resolved identity, a
    protected request passes if and only if it has one origin, without a path, that the
    check of websockets allows for the same identity, and carries the token of its
    session, which has not expired. *)
Theorem csrf_admits_own_origin r config session now :
  lowers_scheme ->
  let i := Resolve r config in
  csrfProtectedMethod (rqMethod r) = true ->
  csrfMiddleware ParseURL r i session now = true <->
  exists value origin token expiresAt,
    rqOrigin r = [value] /\ TrimSpace value <> "" /\ ParseURL (TrimSpace value) = Some origin /\ ouPath origin = "" /\ OriginAllowedV1 ParseURL (TrimSpace value) i = true /\
    session = mkCSRF (Some token) (Some expiresAt) /\ now <= expiresAt /\ token <> "" /\ rqCSRFHeader r = token.
Proof.
  intros Hlow i Hm. pose proof (Resolve_resolved r config) as Hi. fold i in Hi. unfold csrfMiddleware. rewrite Hm. cbn [negb]. split.
  - destruct (sameOriginRequest ParseURL r i) eqn:Es; [|done]. cbn [negb]. destruct session as [[token|] [expiresAt|]]; try done; cbn [csToken csExpires]; [|by destruct (String.eqb token "")].
    destruct (String.eqb_spec token "") as [|Ht]; [done|]. destruct (Z.ltb_spec expiresAt now) as [|Hx]; [done|]. intros [_ Hh%String.eqb_eq]%andb_true_iff.
    assert (Hv : exists value origin, rqOrigin r = [value] /\ TrimSpace value <> "" /\ ParseURL (TrimSpace value) = Some origin /\ ouPath origin = "").
    { unfold sameOriginRequest in Es. destruct (rqOrigin r) as [|value [|? ?]]; [done| |done]. cbv zeta in Es. destruct (String.eqb_spec (TrimSpace value) "") as [|Hne]; [done|].
      destruct (ParseURL (TrimSpace value)) as [origin|] eqn:Ep; [|done]. exists value, origin. destruct (String.eqb_spec (ouPath origin) "") as [E|_]; [done|]. cbn [negb] in Es. rewrite orb_true_r in Es. done. }
    destruct Hv as (value & origin & Ho & Hne & Hp & Hpath). exists value, origin, token, expiresAt. split_and!; try done.
    by rewrite <- (same_origin_is_allowed r i config value origin).
  - intros (value & origin & token & expiresAt & Ho & Hne & Hp & Hpath & Ha & -> & Hx & Ht & Hh). rewrite (same_origin_is_allowed r i config value origin), Ha by done. cbn [negb csToken csExpires].
    rewrite (proj2 (String.eqb_neq _ _) Ht), (proj2 (Z.ltb_ge _ _) Hx), Hh, (proj2 (String.eqb_neq _ _) Ht), String.eqb_refl. done.
Qed.
End Origins.

(** ** A panel behind a proxy *)
Module Demo.
Definition digest (s : string) : string := "aaaaaaaaaaaaaaaaaaaaaaaaaaaaaaaaaaaaaaaaaaaaaaaaaaaaaaaaaaaaaaaa".
Definition config : Config := ParseConfig digest "10.0.0.0/8, ::1".
Definition req : request := mkRequest "10.0.0.1:4711" false "Panel.Example.:8443" [] ["https"] "POST" ["https://panel.example:8443"] "token".

Definition forged_values : list string := ["198.51.100.7, 203.0.113.9"; "10.0.0.2"].

Lemma client_address_unforgeable_witness :
  address (Resolve (set_for forged_values (set_proto ["ftp"] req)) config) = address (Resolve (set_for ["[::1], 203.0.113.9"; "10.0.0.2"] (set_proto [] req)) config) /\
  Resolve (set_for forged_values (set_proto ["https"] req)) config = Resolve (set_for ["203.0.113.9,10.0.0.2"] (set_proto ["https"] req)) config /\
  idClientIP (Resolve (set_for forged_values (set_proto ["https"] req)) config) = "203.0.113.9".
Proof.
  assert (Hb : bounded (hops_of forged_values)) by (vm_compute; discriminate).
  pose proof (proj2 (client_address_unforgeable req config " 203.0.113.9,10.0.0.2") ltac:(vm_compute; reflexivity) ltac:(vm_compute; reflexivity)) as H.
  split; [|split; [|vm_compute; reflexivity]].
  - destruct (proj1 (H "198.51.100.7" forged_values ["ftp"] ltac:(vm_compute; reflexivity)) Hb) as [H1 _].
    apply (H1 "[::1]"); [vm_compute; reflexivity|vm_compute; discriminate].
  - destruct (proj1 (H "198.51.100.7" forged_values ["https"] ltac:(vm_compute; reflexivity)) Hb) as [_ H2].
    apply (H2 " "); [right; reflexivity|reflexivity|vm_compute; reflexivity|vm_compute; reflexivity|discriminate|reflexivity].
Defined.

Definition proxied : request := set_for ["203.0.113.9"] req.

Lemma resolved_identity_qualifies_witness : ValidForSecurityGrant (Resolve proxied config) = true.
Proof.
  apply (resolved_identity_qualifies digest proxied "10.0.0.0/8, ::1").
  - intros s. vm_compute. reflexivity.
  - split; [vm_compute; reflexivity|]. split; [vm_compute; discriminate|]. split; [vm_compute; discriminate|vm_compute; discriminate].
Defined.

Definition parse (s : string) : option OriginURL :=
  if String.eqb s "https://panel.example:8443" then Some (mkOriginURL "https" "panel.example:8443" false "" "" "") else None.

Lemma csrf_admits_own_origin_witness : csrfMiddleware parse proxied (Resolve proxied config) (mkCSRF (Some "token") (Some 100)) 90 = true.
Proof.
  apply csrf_admits_own_origin.
  - intros s u. unfold parse. destruct (String.eqb s _); [intros [= <-]; reflexivity|discriminate].
  - reflexivity.
  - exists "https://panel.example:8443", (mkOriginURL "https" "panel.example:8443" false "" "" ""), "token", 100.
    split; [reflexivity|]. split; [vm_compute; discriminate|]. split; [vm_compute; reflexivity|]. split; [reflexivity|]. split; [vm_compute; reflexivity|].
    split; [reflexivity|]. split; [discriminate|]. split; [discriminate|reflexivity].
Defined.
End Demo.
