(* ===== verification/ClientAccess.v ===== *)
(** * Access and traffic of clients
    ([service/client/client.go], [internal/entities/clients], [service/stats.go])

    A client has a quota, an expiry and counters.  Traffic samples are added to the counters
    in a transaction; a job disables clients that are over a limit and starts new periods;
    an administrator resets counters or saves a client; a payment renews it.

    The columns that payments read are the record of the payment store; this file adds the
    schedule of resets.  A transaction is a program over the database; each of its statements
    may fail, as a list of booleans says, and then nothing of it remains.  The integers of
    SQL are exact: SQLite keeps 64 bits and turns a larger sum into a floating-point number,
    which is not modelled.  The decoder of the inbounds of a client is a parameter; queries
    without an order answer in an order of their own. *)

From S2P Require Import Prelude GoStrings VersionPolicy PaidOrders.

Open Scope string_scope.
Open Scope list_scope.
Open Scope Z_scope.

Definition ClientDisabledLegacy : string := "LEGACY_DISABLED".

Record Client := mkAccess { cAccount : PaidOrders.Client; cDelayStart : bool; cAutoReset : bool; cResetDays : Z; cNextReset : Z }.

Record Changes := mkChanges { chDateTime : Z; chActor : string; chKey : string; chAction : string; chObj : string }.

Record Stats := mkStats { stDateTime : Z; stResource : string; stTag : string; stDirection : bool; stTraffic : Z }.

Record db := mkDb { dClients : gmap Z Client; dChanges : list Changes; dStats : list Stats }.

(** ** Transactions *)
Definition tx (A : Type) : Type := db -> list bool -> option (A * db * list bool).

#[export] Instance tx_ret : MRet tx := fun A a d faults => Some (a, d, faults).
#[export] Instance tx_bind : MBind tx := fun A B k m d faults =>
  match m d faults with Some (a, d', faults') => k a d' faults' | None => None end.

(** One statement, which fails when the next fault says so. *)
Definition stmt {A : Type} (f : db -> A * db) : tx A := fun d faults =>
  match faults with true :: _ => None | _ => Some ((f d).1, (f d).2, tail faults) end.

Fixpoint for_each {A B : Type} (l : list A) (body : B -> A -> tx B) (acc : B) : tx B :=
  match l with
  | [] => mret acc
  | a :: l' => acc' ← body acc a; for_each l' body acc'
  end.

(** [Begin], the body and [Commit]: the answer, and the database, unchanged on an error. *)
Definition committed {A : Type} (body : tx A) : tx A := _ ← stmt (fun d => (tt, d)); a ← body; _ ← stmt (fun d => (tt, d)); mret a.

Definition Transaction {A : Type} (body : tx A) (d : db) (faults : list bool) : option A * db :=
  match committed body d faults with
  | Some (a, d', _) => (Some a, d')
  | None => (None, d)
  end.

(** ** Statements *)
Definition updateWhere (p : Z -> Client -> bool) (f : Client -> Client) (m : gmap Z Client) : gmap Z Client :=
  map_imap (fun id c => Some (if p id c then f c else c)) m.

Definition Updates (p : Z -> Client -> bool) (f : Client -> Client) : tx Z :=
  stmt (fun d => (Z.of_nat (size (filter (fun kv => p kv.1 kv.2 = true) (dClients d))), mkDb (updateWhere p f (dClients d)) (dChanges d) (dStats d))).

Definition CreateChanges (l : list Changes) : tx unit := stmt (fun d => (tt, mkDb (dClients d) (dChanges d ++ l) (dStats d))).

Definition CreateStats (l : list Stats) : tx unit := stmt (fun d => (tt, mkDb (dClients d) (dChanges d) (dStats d ++ l))).

Definition First (id : Z) : tx Client :=
  fun d faults => match stmt (fun d => (dClients d !! id, d)) d faults with Some (Some c, d', faults') => Some (c, d', faults') | _ => None end.

(** ** Limits *)
Definition set_account (f : PaidOrders.Client -> PaidOrders.Client) (c : Client) : Client :=
  mkAccess (f (cAccount c)) (cDelayStart c) (cAutoReset c) (cResetDays c) (cNextReset c).

(** The text of the over-limit condition. *)
Definition clientTrafficOverLimit (a : PaidOrders.Client) : bool :=
  (0 <? cVolume a) && ((cVolume a <? cUp a) || (cVolume a <? cDown a) || (cVolume a - cDown a <? cUp a)).

Definition expired (dt : Z) (a : PaidOrders.Client) : bool := (0 <? cExpiry a) && (cExpiry a <? dt).

Definition exhausted (dt : Z) (c : Client) : bool := cEnable (cAccount c) && (clientTrafficOverLimit (cAccount c) || expired dt (cAccount c)).

(** [devices.Active] *)
Definition Active (a : PaidOrders.Client) (now : Z) : bool :=
  cEnable a && String.eqb (cAccessDisableReason a) "" && ((cExpiry a <=? 0) || (now <=? cExpiry a)) && (0 <=? cUp a) && (0 <=? cDown a) &&
  ((cVolume a <=? 0) || ((cUp a <=? cVolume a) && (cDown a <=? cVolume a) && (cUp a <=? wrap64 (cVolume a - cDown a)))).

Definition set_access (enable : bool) (reason : string) (a : PaidOrders.Client) : PaidOrders.Client :=
  mkClient enable reason (cName a) (cInbounds a) (cVolume a) (cExpiry a) (cDown a) (cUp a) (cTotalUp a) (cTotalDown a).

(** What a save of an administrator makes of the enable bit. *)
Definition administrative (a : PaidOrders.Client) : PaidOrders.Client :=
  set_access (cEnable a) (if cEnable a then "" else ClientDisabledManual) a.

Definition fold_counters (a : PaidOrders.Client) : PaidOrders.Client :=
  mkClient (cEnable a) (cAccessDisableReason a) (cName a) (cInbounds a) (cVolume a) (cExpiry a) 0 0 (cTotalUp a + cUp a) (cTotalDown a + cDown a).

(** ** Resets *)
Definition clientResetPeriodDays (resetDays : Z) : Z := if resetDays <? 1 then 1 else resetDays.

Definition periodEnd (dt resetDays : Z) : Z := wrap64 (dt + wrap64 (clientResetPeriodDays resetDays * 86400)).

Definition used (c : Client) : bool := (0 <? cUp (cAccount c)) || (0 <? cDown (cAccount c)).

Definition delayed (autoReset : bool) (c : Client) : bool :=
  cEnable (cAccount c) && cDelayStart c && Bool.eqb (cAutoReset c) autoReset && used c.

Definition set_expiry (expiry : Z) (c : Client) : Client :=
  let a := cAccount c in
  mkAccess (mkClient (cEnable a) (cAccessDisableReason a) (cName a) (cInbounds a) (cVolume a) expiry (cDown a) (cUp a) (cTotalUp a) (cTotalDown a)) false (cAutoReset c) (cResetDays c) (cNextReset c).

Definition set_next (next : Z) (c : Client) : Client := mkAccess (cAccount c) false (cAutoReset c) (cResetDays c) next.

Definition period_over (dt : Z) (c : Client) : bool := negb (cDelayStart c) && cAutoReset c && (cNextReset c <? dt).

(** The row still has the schedule that was selected. *)
Definition same_period (seen c : Client) : bool :=
  cAutoReset c && negb (cDelayStart c) && (cNextReset c =? cNextReset seen) && (cResetDays c =? cResetDays seen).

(** The [CASE] expressions of the enable bit and of its reason. *)
Definition reopened (dt : Z) (a : PaidOrders.Client) : PaidOrders.Client :=
  let quota := String.eqb (cAccessDisableReason a) ClientDisabledQuota in
  set_access (if negb (cEnable a) && quota && ((cExpiry a <=? 0) || (dt <=? cExpiry a)) then true else cEnable a)
             (if quota then if expired dt a then ClientDisabledExpired else "" else cAccessDisableReason a) a.

Definition new_period (dt : Z) (seen c : Client) : Client :=
  mkAccess (fold_counters (reopened dt (cAccount c))) (cDelayStart c) (cAutoReset c) (cResetDays c) (periodEnd dt (cResetDays seen)).

Definition resetChange (dt : Z) (c : Client) : Changes := mkChanges dt "ResetJob" "clients" "reset" (cName (cAccount c)).

Section Access.
Context `{!RangeOrder Z}.
(** [json.Unmarshal] of the inbounds of a client. *)
Context (decodeInbounds : string -> option (list Z)).

Definition Select (p : Client -> bool) : tx (list (Z * Client)) :=
  stmt (fun d => (filter (fun kv => p kv.2 = true) (range (dClients d)), d)).

(** A slice without duplicates in an unspecified order, as a set. *)
Definition UnionUintArray (a : gset Z) (b : list Z) : gset Z := a ∪ list_to_set b.

Definition updateClientResetFields (id : Z) (f : Client -> Client) : tx Z := Updates (fun i _ => i =? id) f.

(** A client that was waiting for its first traffic: its schedule starts. *)
Definition start_delayed (dt : Z) (set : Z -> Client -> Client) (changes : list Changes) (kv : Z * Client) : tx (list Changes) :=
  _ ← updateClientResetFields kv.1 (set (periodEnd dt (cResetDays kv.2)));
  mret (changes ++ [resetChange dt kv.2]).

Definition start_period (dt : Z) (acc : list Changes * gset Z) (kv : Z * Client) : tx (list Changes * gset Z) :=
  let run (ids : list Z) : tx (list Changes * gset Z) :=
    rows ← Updates (fun i c => (i =? kv.1) && same_period kv.2 c) (new_period dt kv.2);
    mret (if 0 <? rows then (acc.1 ++ [resetChange dt kv.2], UnionUintArray acc.2 ids) else acc) in
  if cEnable (cAccount kv.2) then run []
  else match decodeInbounds (cInbounds (cAccount kv.2)) with
       | Some ids => run ids
       | None => mret acc
       end.

(** The inbounds that changed and whether anything did. *)
Definition resetClients (dt : Z) : tx (gset Z * bool) :=
  once ← Select (delayed false);
  changes ← for_each once (start_delayed dt set_expiry) [];
  periodic ← Select (delayed true);
  changes ← for_each periodic (start_delayed dt set_next) changes;
  over ← Select (period_over dt);
  r ← for_each over (start_period dt) (changes, ∅);
  _ ← (if decide (r.1 = []) then mret tt else CreateChanges r.1);
  mret (r.2, negb (bool_decide (r.1 = []))).

(** ** The job that disables clients *)
Definition disableChange (dt : Z) (c : Client) : Changes := mkChanges dt "DepleteJob" "clients" "disable" (cName (cAccount c)).

Definition depleted (dt : Z) (acc : list Changes * gset Z) (kv : Z * Client) : list Changes * gset Z :=
  match decodeInbounds (cInbounds (cAccount kv.2)) with
  | Some ids => (acc.1 ++ [disableChange dt kv.2], UnionUintArray acc.2 ids)
  | None => acc
  end.

Definition disable (dt : Z) : Client -> Client :=
  set_account (fun a => set_access false (if expired dt a then ClientDisabledExpired else ClientDisabledQuota) a).

(** The body of the transaction: the inbounds, and whether the clients changed. *)
Definition deplete (dt : Z) : tx (gset Z * bool) :=
  r ← resetClients dt;
  clients ← Select (exhausted dt);
  let '(changes, ids) := foldl (depleted dt) ([], r.1) clients in
  if decide (changes = []) then mret (ids, r.2)
  else _ ← Updates (fun _ c => exhausted dt c) (disable dt); _ ← CreateChanges changes; mret (ids, true).

(** The database and when the clients changed last. *)
Record store := mkStore { sDb : db; sLastUpdate : Z }.

Definition DepleteClients (dt : Z) (s : store) (faults : list bool) : option (gset Z) * store :=
  match Transaction (deplete dt) (sDb s) faults with
  | (Some (ids, changed), d) => (Some ids, mkStore d (if changed then dt else sLastUpdate s))
  | (None, d) => (None, mkStore d (sLastUpdate s))
  end.
End Access.

(** ** The reset of one client *)
Inductive resetError := ErrIdRequired | ErrInvalidId | ErrDatabase.

(** [strconv.ParseUint] in base ten and 64 bits. *)
Definition ParseUint (s : string) : option Z :=
  if isAllDigits s && (decimal_from 0 s <=? uint64_max) then Some (decimal_from 0 s) else None.

(** The body of the transaction; a client that is not found is an error. *)
Definition resetTraffic (id dt : Z) : tx Client :=
  client ← First id;
  _ ← Updates (fun i _ => i =? id) (set_account fold_counters);
  _ ← CreateChanges [mkChanges dt "ResetTraffic" "clients" "resetTraffic" (cName (cAccount client))];
  mret client.

(** The counters of the answer, folded in memory with wrap-around. *)
Definition folded_answer (a : PaidOrders.Client) : PaidOrders.Client :=
  mkClient (cEnable a) (cAccessDisableReason a) (cName a) (cInbounds a) (cVolume a) (cExpiry a) 0 0 (wrap64 (cTotalUp a + cUp a)) (wrap64 (cTotalDown a + cDown a)).

Definition ResetTraffic (raw : string) (dt : Z) (s : store) (faults : list bool) : result resetError Client * store :=
  let raw := TrimSpace raw in
  if String.eqb raw "" then (Err ErrIdRequired, s)
  else match ParseUint raw with
  | None => (Err ErrInvalidId, s)
  | Some id =>
      if id =? 0 then (Err ErrInvalidId, s)
      else match Transaction (resetTraffic id dt) (sDb s) faults with
           | (Some client, d) => (Ok (set_account folded_answer client), mkStore d dt)
           | (None, _) => (Err ErrDatabase, s)
           end
  end.
