(* ===== verification/TrafficStats.v ===== *)
(** * Traffic of clients, from the counters to the database
    ([core/tracker/stats.go], [core/runtime/state.go], [service/stats.go])

    Connections add what they read and write to shared counters, without a lock.  A flush
    swaps each counter with zero, saves the samples in a transaction, and adds them back to
    the counters when the transaction fails.  A flush is a program of atomic actions that
    connections, other flushes and everything else may interleave with: the lock of the
    tracker only makes fewer orders possible. *)

From stdpp Require Import sorting.
From S2P Require Import Prelude GoStrings PaidOrders ClientAccess.

Open Scope string_scope.
Open Scope list_scope.
Open Scope Z_scope.

Record Counter := mkCounter { cRead : Z; cWrite : Z }.

Record StatsTracker := mkTracker { tInbounds : gmap string Counter; tOutbounds : gmap string Counter; tUsers : gmap (string * Z) Counter }.

Definition NewStatsTracker : StatsTracker := mkTracker ∅ ∅ ∅.

Record Stat := mkStat { tsVPNUserID : Z; tsDateTime : Z; tsResource : string; tsTag : string; tsDirection : bool; tsTraffic : Z }.

(** The name of a counter in one of the three maps. *)
Inductive slot := SlotInbound (tag : string) | SlotOutbound (tag : string) | SlotUser (name : string) (id : Z).

Definition counterAt (t : StatsTracker) (s : slot) : option Counter :=
  match s with
  | SlotInbound tag => tInbounds t !! tag
  | SlotOutbound tag => tOutbounds t !! tag
  | SlotUser name id => tUsers t !! (name, id)
  end.

Definition storeCounter (s : slot) (c : Counter) (t : StatsTracker) : StatsTracker :=
  match s with
  | SlotInbound tag => mkTracker (<[tag := c]> (tInbounds t)) (tOutbounds t) (tUsers t)
  | SlotOutbound tag => mkTracker (tInbounds t) (<[tag := c]> (tOutbounds t)) (tUsers t)
  | SlotUser name id => mkTracker (tInbounds t) (tOutbounds t) (<[(name, id) := c]> (tUsers t))
  end.

Definition loadOrCreateCounter (s : slot) (t : StatsTracker) : StatsTracker :=
  match counterAt t s with Some _ => t | None => storeCounter s (mkCounter 0 0) t end.

(** The counters of a connection. *)
Definition getReadCounters (inbound outbound user : string) (userID : Z) : list slot :=
  (if String.eqb inbound "" then [] else [SlotInbound inbound]) ++
  (if String.eqb outbound "" then [] else [SlotOutbound outbound]) ++
  (if String.eqb user "" then [] else [SlotUser user userID]).

Definition trackCounters (slots : list slot) (t : StatsTracker) : StatsTracker := foldl (fun t s => loadOrCreateCounter s t) t slots.

(** An atomic [Add] to the read counter (upload) or to the write counter (download). *)
Definition addTo (dir : bool) (n : Z) (c : Counter) : Counter :=
  if dir then mkCounter (wrap64 (cRead c + n)) (cWrite c) else mkCounter (cRead c) (wrap64 (cWrite c + n)).

Definition addCounter (s : slot) (dir : bool) (n : Z) (t : StatsTracker) : StatsTracker :=
  match counterAt t s with Some c => storeCounter s (addTo dir n c) t | None => t end.

(** An atomic [Swap] with zero. *)
Definition counterValue (dir : bool) (c : Counter) : Z := if dir then cRead c else cWrite c.

Definition cleared (dir : bool) (c : Counter) : Counter := if dir then mkCounter 0 (cWrite c) else mkCounter (cRead c) 0.

Definition swapCounter (s : slot) (dir : bool) (t : StatsTracker) : Z * StatsTracker :=
  match counterAt t s with Some c => (counterValue dir c, storeCounter s (cleared dir c) t) | None => (0, t) end.

(** The two samples of a counter that moved. *)
Definition samplesOf (s : slot) (dt down up : Z) : list Stat :=
  let '(id, resource, tag) := match s with
    | SlotInbound tag => (0, "inbound", tag)
    | SlotOutbound tag => (0, "outbound", tag)
    | SlotUser name id => (id, "user", name)
    end in
  if (0 <? down) || (0 <? up) then [mkStat id dt resource tag false down; mkStat id dt resource tag true up] else [].

(** [RestoreStats], one sample. *)
Definition slotOf (s : Stat) : option slot :=
  if String.eqb (tsResource s) "inbound" then Some (SlotInbound (tsTag s))
  else if String.eqb (tsResource s) "outbound" then Some (SlotOutbound (tsTag s))
  else if String.eqb (tsResource s) "user" then Some (SlotUser (tsTag s) (tsVPNUserID s))
  else None.

Definition restoreStat (t : StatsTracker) (s : Stat) : StatsTracker :=
  match slotOf s with
  | Some c => addCounter c (tsDirection s) (tsTraffic s) (loadOrCreateCounter c t)
  | None => t
  end.

(** ** Saving samples *)
Definition statsModels (samples : list Stat) : list Stats :=
  (fun s => mkStats (tsDateTime s) (tsResource s) (tsTag s) (tsDirection s) (tsTraffic s)) <$> samples.

(** Only samples of authenticated users change clients. *)
Definition addSample (deltas : gmap Z (Z * Z)) (s : Stat) : gmap Z (Z * Z) :=
  if negb (String.eqb (tsResource s) "user") || (tsVPNUserID s =? 0) then deltas
  else
    let delta := default (0, 0) (deltas !! tsVPNUserID s) in
    <[tsVPNUserID s := if tsDirection s then (wrap64 (delta.1 + tsTraffic s), delta.2) else (delta.1, wrap64 (delta.2 + tsTraffic s))]> deltas.

Definition clientDeltas (samples : list Stat) : gmap Z (Z * Z) := foldl addSample ∅ samples.

Record onlines := mkOnlines { onInbound : list string; onUser : list string; onOutbound : list string }.

Definition addOnline (o : onlines) (s : Stats) : onlines :=
  if stDirection s then
    if String.eqb (stResource s) "inbound" then mkOnlines (onInbound o ++ [stTag s]) (onUser o) (onOutbound o)
    else if String.eqb (stResource s) "outbound" then mkOnlines (onInbound o) (onUser o) (onOutbound o ++ [stTag s])
    else if String.eqb (stResource s) "user" then mkOnlines (onInbound o) (onUser o ++ [stTag s]) (onOutbound o)
    else o
  else o.

Definition addTraffic (delta : Z * Z) (a : PaidOrders.Client) : PaidOrders.Client :=
  mkClient (cEnable a) (cAccessDisableReason a) (cName a) (cInbounds a) (cVolume a) (cExpiry a) (cDown a + delta.2) (cUp a + delta.1) (cTotalUp a) (cTotalDown a).

(** [UPDATE clients SET up = up + CASE id ... END, ... WHERE id IN (...)] *)
Definition updateClientTrafficDeltaBatch (deltas : gmap Z (Z * Z)) (names : list Z) : tx unit :=
  match names with
  | [] => mret tt
  | _ => stmt (fun d => (tt, mkDb (map_imap (fun id c => Some (if bool_decide (id ∈ names) then set_account (addTraffic (default (0, 0) (deltas !! id))) c else c)) (dClients d)) (dChanges d) (dStats d)))
  end.

(** The names in slices of a hundred. *)
Fixpoint batches (fuel : nat) (names : list Z) : list (list Z) :=
  match fuel, names with
  | S fuel', _ :: _ => take 100 names :: batches fuel' (drop 100 names)
  | _, _ => []
  end.

Section Saving.
Context `{!RangeOrder Z, !RangeOrder string, !RangeOrder (string * Z)}.

Definition moved (kv : Z * (Z * Z)) : bool := negb ((kv.2.1 =? 0) && (kv.2.2 =? 0)).

Definition updateClientTrafficDeltas (deltas : gmap Z (Z * Z)) : tx unit :=
  let names := merge_sort Z.le (filter (fun kv => moved kv = true) (range deltas)).*1 in
  for_each (batches (length names) names) (fun _ => updateClientTrafficDeltaBatch deltas) tt.

(** The body of the transaction; writing the observed addresses is one more statement. *)
Definition saveSamples (enableTraffic : bool) (samples : list Stat) : tx unit :=
  _ ← updateClientTrafficDeltas (clientDeltas samples);
  _ ← (if enableTraffic then CreateStats (statsModels samples) else mret tt);
  stmt (fun d => (tt, d)).

(** Whether the samples are saved, the database and the published onlines. *)
Definition saveStatsSamples (enableTraffic : bool) (samples : list Stat) (d : db) (current : onlines) (faults : list bool) : bool * db * onlines :=
  match samples with
  | [] => (match faults with true :: _ => false | _ => true end, d, mkOnlines [] [] [])
  | _ =>
      match Transaction (saveSamples enableTraffic samples) d faults with
      | (Some _, d') => (true, d', foldl addOnline (mkOnlines [] [] []) (statsModels samples))
      | (None, d') => (false, d', current)
      end
  end.

(** ** A flush *)
Inductive flush :=
| Draining (dt : Z) (todo : list slot) (down : option Z) (samples : list Stat)
| Saving (samples : list Stat)
| Restoring (samples : list Stat).

(** The order in which [GetStats] visits the counters. *)
Definition slots (t : StatsTracker) : list slot :=
  (SlotInbound <$> (range (tInbounds t)).*1) ++ (SlotOutbound <$> (range (tOutbounds t)).*1) ++ ((fun k : string * Z => SlotUser k.1 k.2) <$> (range (tUsers t)).*1).

Definition startFlush (dt : Z) (t : StatsTracker) : flush := Draining dt (slots t) None [].

(** The next atomic action of [GetStats] or of [RestoreStats]; a flush that is saving waits for the transaction. *)
Definition flushAction (f : flush) (t : StatsTracker) : option flush * StatsTracker :=
  match f with
  | Draining dt [] _ samples => (Some (Saving samples), t)
  | Draining dt (s :: todo) None samples => let '(down, t') := swapCounter s false t in (Some (Draining dt (s :: todo) (Some down) samples), t')
  | Draining dt (s :: todo) (Some down) samples => let '(up, t') := swapCounter s true t in (Some (Draining dt todo None (samples ++ samplesOf s dt down up)), t')
  | Saving samples => (Some f, t)
  | Restoring [] => (None, t)
  | Restoring (s :: samples) => (Some (Restoring samples), restoreStat t s)
  end.

(** [ConsumeStats] after the transaction. *)
Definition afterSave (saved : bool) (samples : list Stat) : option flush := if saved then None else Some (Restoring samples).
End Saving.
