(* ===== verification/ClientAccessProperties.v ===== *)
(** * What the job that disables clients does
    Theorems about [ClientAccess]: a successful run settles every row on its own, so that no
    client keeps access over its limits, and reports the inbounds of every client whose access
    changed; a run that fails changes nothing. *)

From S2P Require Import Prelude GoStrings VersionPolicy PaidOrders ClientAccess.

Open Scope string_scope.
Open Scope list_scope.
Open Scope Z_scope.

(** ** Runs of transactions *)
Definition runs {A : Type} (m : tx A) (d : db) (a : A) (d' : db) : Prop := exists faults faults', m d faults = Some (a, d', faults').

Lemma runs_ret {A} (a b : A) d d' : runs (mret a) d b d' -> b = a /\ d' = d.
Proof. intros (fs & fs' & [= -> -> ->]). done. Qed.

Lemma runs_bind {A B} (m : tx A) (k : A -> tx B) d b d' : runs (m ≫= k) d b d' -> exists a d1, runs m d a d1 /\ runs (k a) d1 b d'.
Proof.
  intros (fs & fs' & H). unfold mbind, tx_bind in H. destruct (m d fs) as [[[a d1] fs1]|] eqn:E; [|done].
  exists a, d1. split; [by exists fs, fs1|by exists fs1, fs'].
Qed.

Lemma runs_stmt {A} (f : db -> A * db) d a d' : runs (stmt f) d a d' -> a = (f d).1 /\ d' = (f d).2.
Proof. intros (fs & fs' & H). unfold stmt in H. destruct fs as [|[] fs]; [|done|]; by injection H as <- <- _. Qed.

Lemma runs_Transaction {A} (body : tx A) d faults a d' : Transaction body d faults = (Some a, d') -> runs body d a d'.
Proof.
  unfold Transaction. destruct (committed body d faults) as [[[b d1] fs1]|] eqn:E; [|done]. intros [= -> ->].
  assert (H : runs (committed body) d a d') by (by exists faults, fs1). unfold committed in H. clear E.
  apply runs_bind in H as (u & d2 & H1 & H). apply runs_stmt in H1 as [_ ->]. apply runs_bind in H as (x & d3 & H & Hc). apply runs_bind in Hc as (v & d4 & H3 & Hc).
  apply runs_stmt in H3 as [_ ->]. apply runs_ret in Hc as [-> ->]. done.
Qed.

Lemma Transaction_rolls_back {A} (body : tx A) d faults d' : Transaction body d faults = (None, d') -> d' = d.
Proof. unfold Transaction. destruct (committed body d faults) as [[[? ?] ?]|]; [done|by intros [= ->]]. Qed.

(** A program that only a failing statement stops. *)
Definition unstopped {A : Type} (m : tx A) : Prop := forall d faults, existsb id faults = false -> exists a d' faults', m d faults = Some (a, d', faults') /\ existsb id faults' = false.

Lemma unstopped_ret {A} (a : A) : unstopped (mret a).
Proof. intros d fs Hf. by exists a, d, fs. Qed.

Lemma unstopped_stmt {A} (f : db -> A * db) : unstopped (stmt f).
Proof. intros d fs Hf. unfold stmt. destruct fs as [|[] fs]; [|done|]; eauto. Qed.

Lemma unstopped_bind {A B} (m : tx A) (k : A -> tx B) : unstopped m -> (forall a, unstopped (k a)) -> unstopped (m ≫= k).
Proof. intros Hm Hk d fs Hf. destruct (Hm d fs Hf) as (a & d1 & fs1 & E & Hf1). unfold mbind, tx_bind. rewrite E. by apply Hk. Qed.

Lemma unstopped_for_each {A B} (l : list A) (body : B -> A -> tx B) acc : (forall acc a, unstopped (body acc a)) -> unstopped (for_each l body acc).
Proof. intros Hb. revert acc. induction l as [|a l IH]; intros acc; [apply unstopped_ret|]. by apply unstopped_bind. Qed.

#[local] Hint Resolve unstopped_ret unstopped_stmt unstopped_bind unstopped_for_each : solovey.

Lemma Transaction_unstopped {A} (body : tx A) d faults d' : unstopped body -> Transaction body d faults = (None, d') -> existsb id faults = true.
Proof.
  intros Hb H. destruct (existsb id faults) eqn:Hf; [done|]. assert (Hc : unstopped (committed body)) by (unfold committed; eauto 8 with solovey).
  destruct (Hc d faults Hf) as (a & d1 & fs & E & _). unfold Transaction in H. by rewrite E in H.
Qed.

(** ** Rows *)
Lemma updateWhere_lookup p f m id : updateWhere p f m !! id = (fun c => if p id c then f c else c) <$> m !! id.
Proof. unfold updateWhere. rewrite map_lookup_imap. by destruct (m !! id). Qed.

Lemma updateWhere_one id f m c : m !! id = Some c -> updateWhere (fun i _ => i =? id) f m = <[id := f c]> m.
Proof.
  intros Hc. apply map_eq. intros i. rewrite updateWhere_lookup. destruct (Z.eqb_spec i id) as [->|Hne].
  - by rewrite lookup_insert_eq, Hc.
  - rewrite lookup_insert_ne by done. by destruct (m !! i).
Qed.

Lemma updateWhere_guarded id q f m c : m !! id = Some c -> q c = true -> updateWhere (fun i c => (i =? id) && q c) f m = <[id := f c]> m.
Proof.
  intros Hc Hq. apply map_eq. intros i. rewrite updateWhere_lookup. destruct (Z.eqb_spec i id) as [->|Hne].
  - rewrite lookup_insert_eq, Hc. cbn. by rewrite Hq.
  - rewrite lookup_insert_ne by done. by destruct (m !! i).
Qed.

Lemma Updates_hits p f d n d' id c : runs (Updates p f) d n d' -> dClients d !! id = Some c -> p id c = true -> 0 < n.
Proof.
  intros [-> _]%runs_stmt Hc Hp. cbn. assert (H : size (filter (fun kv => p kv.1 kv.2 = true) (dClients d)) <> 0%nat).
  { intros Hz. apply map_size_empty_iff in Hz. assert (Hf : filter (fun kv => p kv.1 kv.2 = true) (dClients d) !! id = Some c) by (by apply map_lookup_filter_Some). by rewrite Hz, lookup_empty in Hf. }
  lia.
Qed.

(** A loop that rewrites the rows of its list, each from its own value, when the list holds
    the current rows. *)
Section Loops.
Context {B : Type} (p : Client -> bool) (g : Client -> Client) (body : B -> Z * Client -> tx B).
Context (Hbody : forall acc kv d r d', runs (body acc kv) d r d' -> dClients d !! kv.1 = Some kv.2 -> p kv.2 = true -> dClients d' = <[kv.1 := g kv.2]> (dClients d)).

Lemma loop_rows l d acc r d' : runs (for_each l body acc) d r d' -> NoDup l.*1 -> (forall kv, kv ∈ l -> dClients d !! kv.1 = Some kv.2 /\ p kv.2 = true) ->
  forall id, dClients d' !! id = (fun c => if decide (id ∈ l.*1) then g c else c) <$> dClients d !! id.
Proof.
  revert d acc. induction l as [|kv l IH]; cbn [for_each fmap list_fmap]; intros d acc H Hnd Hl id.
  - apply runs_ret in H as [_ ->]. destruct (dClients d !! id); [cbn|done]. by rewrite decide_False by set_solver.
  - apply runs_bind in H as (acc1 & d1 & H1 & H). apply NoDup_cons in Hnd as [Hk Hnd]. destruct (Hl kv ltac:(set_solver)) as [Hkv Hp].
    pose proof (Hbody _ _ _ _ _ H1 Hkv Hp) as E1. rewrite (IH _ _ H Hnd).
    + rewrite E1. destruct (decide (id = kv.1)) as [->|Hne].
      * rewrite lookup_insert_eq, Hkv. cbn. by rewrite decide_False, decide_True by set_solver.
      * rewrite lookup_insert_ne by done. destruct (dClients d !! id); [cbn|done]. destruct (decide (id ∈ l.*1)); [by rewrite decide_True by set_solver|by rewrite decide_False by set_solver].
    + intros kv' Hin. destruct (Hl kv' ltac:(set_solver)) as [Hkv' Hp']. split; [|done]. rewrite E1, lookup_insert_ne; [done|].
      intros E. apply Hk. rewrite E. apply list_elem_of_fmap. by exists kv'.
Qed.
End Loops.

Section Job.
Context `{!RangeOrder Z}.
Context (decodeInbounds : string -> option (list Z)).
Implicit Types (c : Client) (d : db).

Lemma select_rows p d l d' : runs (Select p) d l d' -> d' = d /\ NoDup l.*1 /\ (forall kv, kv ∈ l -> dClients d !! kv.1 = Some kv.2 /\ p kv.2 = true) /\
  (forall id c, dClients d !! id = Some c -> p c = true -> (id, c) ∈ l).
Proof.
  intros [-> ->]%runs_stmt. cbn. split_and!; [done| | |].
  - eapply (sublist_NoDup _ (range (dClients d)).*1); [apply range_NoDup|]. apply fmap_sublist, sublist_filter.
  - intros kv [Hp Hin]%list_elem_of_filter. split; [|done]. apply elem_of_range. by destruct kv.
  - intros id c Hc Hp. apply list_elem_of_filter. split; [done|by apply elem_of_range].
Qed.

Lemma select_loop {B} p g (body : B -> Z * Client -> tx B) d l d1 acc r d' :
  (forall acc kv d r d', runs (body acc kv) d r d' -> dClients d !! kv.1 = Some kv.2 -> p kv.2 = true -> dClients d' = <[kv.1 := g kv.2]> (dClients d)) ->
  runs (Select p) d l d1 -> runs (for_each l body acc) d1 r d' -> dClients d' = (fun c => if p c then g c else c) <$> dClients d.
Proof.
  intros Hbody (-> & Hnd & Hl & Hall)%select_rows H. apply map_eq. intros id. rewrite (loop_rows p g body Hbody _ _ _ _ _ H Hnd Hl), lookup_fmap.
  destruct (dClients d !! id) as [c|] eqn:Hc; [cbn|done]. destruct (p c) eqn:Hp.
  - rewrite decide_True; [done|]. apply list_elem_of_fmap. exists (id, c). split; [done|by apply Hall].
  - rewrite decide_False; [done|]. intros ((i & c') & E & Hin)%list_elem_of_fmap. cbn in E. subst i. destruct (Hl _ Hin) as [Hc' Hp']. cbn in *. congruence.
Qed.

(** ** Periods *)
Definition started (dt : Z) (c : Client) : Client := if delayed false c then set_expiry (periodEnd dt (cResetDays c)) c else c.

Definition scheduled (dt : Z) (c : Client) : Client := if delayed true c then set_next (periodEnd dt (cResetDays c)) c else c.

(** A disabled client whose inbounds cannot be decoded is left alone. *)
Definition readable (c : Client) : bool := cEnable (cAccount c) || bool_decide (is_Some (decodeInbounds (cInbounds (cAccount c)))).

Definition next_period (dt : Z) (c : Client) : Client := if period_over dt c then if readable c then new_period dt c c else c else c.

Definition reset_row (dt : Z) (c : Client) : Client := next_period dt (scheduled dt (started dt c)).

Lemma start_delayed_row dt set changes kv d r d' : runs (start_delayed dt set changes kv) d r d' -> dClients d !! kv.1 = Some kv.2 ->
  dClients d' = <[kv.1 := set (periodEnd dt (cResetDays kv.2)) kv.2]> (dClients d).
Proof. intros H Hkv. unfold start_delayed, updateClientResetFields, Updates in H. apply runs_bind in H as (n & d1 & [-> ->]%runs_stmt & [_ ->]%runs_ret). cbn. by apply updateWhere_one. Qed.

Lemma period_over_same dt c : period_over dt c = true -> same_period c c = true.
Proof. unfold period_over, same_period. rewrite !Z.eqb_refl. destruct (cDelayStart c), (cAutoReset c); done. Qed.

(** The two ways through the body: a skipped row, or an update that reports the inbounds. *)
Lemma start_period_row dt acc kv d r d' : runs (start_period decodeInbounds dt acc kv) d r d' -> dClients d !! kv.1 = Some kv.2 -> period_over dt kv.2 = true ->
  dClients d' = <[kv.1 := if readable kv.2 then new_period dt kv.2 kv.2 else kv.2]> (dClients d) /\ acc.2 ⊆ r.2 /\
  (forall ids, cEnable (cAccount kv.2) = false -> decodeInbounds (cInbounds (cAccount kv.2)) = Some ids -> list_to_set ids ⊆ r.2).
Proof.
  intros H Hkv Hp. unfold start_period in H. cbv zeta in H.
  assert (Hrun : forall ids, runs (rows ← Updates (fun i c => (i =? kv.1) && same_period kv.2 c) (new_period dt kv.2); mret (if 0 <? rows then (acc.1 ++ [resetChange dt kv.2], UnionUintArray acc.2 ids) else acc)) d r d' ->
    dClients d' = <[kv.1 := new_period dt kv.2 kv.2]> (dClients d) /\ r.2 = acc.2 ∪ list_to_set ids).
  { intros ids (n & d1 & Hu & [-> ->]%runs_ret)%runs_bind.
    assert (Hn : 0 < n) by (eapply Updates_hits; [exact Hu|exact Hkv|cbn; by rewrite Z.eqb_refl, (period_over_same dt)]).
    apply runs_stmt in Hu as [_ ->]. cbn [snd dClients]. rewrite (proj2 (Z.ltb_lt _ _) Hn). split; [|done]. by apply updateWhere_guarded; [|apply (period_over_same dt)]. }
  unfold readable. destruct (cEnable (cAccount kv.2)) eqn:He; cbn [orb].
  - apply Hrun in H as [-> ->]. split; [done|]. split; [set_solver|done].
  - destruct (decodeInbounds _) as [l|] eqn:Hd.
    + apply Hrun in H as [-> ->]. rewrite bool_decide_true by (by eexists). split; [done|]. split; [set_solver|]. intros ids _ [= <-]. set_solver.
    + apply runs_ret in H as [-> ->]. rewrite bool_decide_false by (by intros [? ?]). split; [by rewrite insert_id|]. split; [set_solver|done].
Qed.

Lemma start_period_reports dt l d acc r d' : runs (for_each l (start_period decodeInbounds dt) acc) d r d' -> NoDup l.*1 ->
  (forall kv, kv ∈ l -> dClients d !! kv.1 = Some kv.2 /\ period_over dt kv.2 = true) ->
  acc.2 ⊆ r.2 /\ (forall kv ids, kv ∈ l -> cEnable (cAccount kv.2) = false -> decodeInbounds (cInbounds (cAccount kv.2)) = Some ids -> list_to_set ids ⊆ r.2).
Proof.
  revert d acc. induction l as [|kv l IH]; cbn [for_each]; intros d acc H Hnd Hl.
  - apply runs_ret in H as [-> _]. split; [done|]. intros kv ids Hin. by apply not_elem_of_nil in Hin.
  - apply runs_bind in H as (acc1 & d1 & H1 & H). apply NoDup_cons in Hnd as [Hk Hnd]. destruct (Hl kv ltac:(set_solver)) as [Hkv Hp].
    destruct (start_period_row _ _ _ _ _ _ H1 Hkv Hp) as (E1 & Ha & Hr). destruct (IH _ _ H Hnd) as [IHa IHr].
    + intros kv' Hin. destruct (Hl kv' ltac:(set_solver)) as [Hkv' Hp']. split; [|done]. rewrite E1, lookup_insert_ne; [done|].
      intros E. apply Hk. rewrite E. apply list_elem_of_fmap. by exists kv'.
    + split; [set_solver|]. intros kv' ids [->|Hin]%elem_of_cons He Hd; [|by apply (IHr kv')]. specialize (Hr ids He Hd). set_solver.
Qed.

Lemma resetClients_rows dt d r d' : runs (resetClients decodeInbounds dt) d r d' -> dClients d' = reset_row dt <$> dClients d /\
  (forall id c ids, dClients d !! id = Some c -> period_over dt (scheduled dt (started dt c)) = true -> cEnable (cAccount (scheduled dt (started dt c))) = false ->
     decodeInbounds (cInbounds (cAccount (scheduled dt (started dt c)))) = Some ids -> list_to_set ids ⊆ r.1).
Proof.
  intros H. unfold resetClients in H. apply runs_bind in H as (once & d1 & S1 & H). apply runs_bind in H as (ch1 & d2 & L1 & H). apply runs_bind in H as (periodic & d3 & S2 & H).
  apply runs_bind in H as (ch2 & d4 & L2 & H). apply runs_bind in H as (over & d5 & S3 & H). apply runs_bind in H as (res & d6 & L3 & H). apply runs_bind in H as (u & d7 & Hc & [-> ->]%runs_ret).
  assert (E7 : dClients d7 = dClients d6). { destruct (decide (res.1 = [])); [by apply runs_ret in Hc as [_ ->]|]. by apply runs_stmt in Hc as [_ ->]. }
  pose proof (select_loop (delayed false) (fun c => set_expiry (periodEnd dt (cResetDays c)) c) _ _ _ _ _ _ _ (fun acc kv d r d' H Hkv _ => start_delayed_row dt set_expiry acc kv d r d' H Hkv) S1 L1) as E1.
  pose proof (select_loop (delayed true) (fun c => set_next (periodEnd dt (cResetDays c)) c) _ _ _ _ _ _ _ (fun acc kv d r d' H Hkv _ => start_delayed_row dt set_next acc kv d r d' H Hkv) S2 L2) as E2.
  pose proof (select_loop (period_over dt) (fun c => if readable c then new_period dt c c else c) _ _ _ _ _ _ _ (fun acc kv d r d' H Hkv Hp => proj1 (start_period_row dt acc kv d r d' H Hkv Hp)) S3 L3) as E3.
  assert (Hrow : forall id c, dClients d !! id = Some c -> dClients d4 !! id = Some (scheduled dt (started dt c))).
  { intros id c Hc'. rewrite E2, lookup_fmap, E1, lookup_fmap, Hc'. done. }
  split.
  - rewrite E7, E3, E2, E1. rewrite <- !map_fmap_compose. apply map_fmap_ext. intros id c _. done.
  - intros id c ids Hc' Hp He Hd. destruct (select_rows _ _ _ _ S3) as (-> & Hnd & Hl & Hall). destruct (start_period_reports _ _ _ _ _ _ L3 Hnd Hl) as [_ Hr].
    cbn. apply (Hr (id, scheduled dt (started dt c)) ids); [|done|done]. by apply Hall; [apply Hrow|].
Qed.

(** ** What a row keeps *)
(** A client is enabled exactly when it has no reason to be disabled. *)
Definition consistent (a : PaidOrders.Client) : Prop := cEnable a = true <-> cAccessDisableReason a = "".

Definition counted (a : PaidOrders.Client) : Prop := 0 <= cUp a /\ 0 <= cDown a /\ cVolume a <= int64_max.

(** What a client sent and received in all. *)
Definition lifetime (a : PaidOrders.Client) : Z * Z := (cTotalUp a + cUp a, cTotalDown a + cDown a).

(** Only an administrator lifts these reasons. *)
Definition blocked (a : PaidOrders.Client) : Prop := cEnable a = false /\ cAccessDisableReason a <> "" /\ renewable (cAccessDisableReason a) = false.

(** What the job keeps of a row, whatever it does to it. *)
Record kept (a a' : PaidOrders.Client) : Prop := mkKept {
  kp_inbounds : cInbounds a' = cInbounds a;
  kp_consistent : consistent a -> consistent a';
  kp_counted : counted a -> counted a';
  kp_lifetime : lifetime a' = lifetime a;
  kp_blocked : blocked a -> cEnable a' = cEnable a /\ cAccessDisableReason a' = cAccessDisableReason a
}.

#[global] Instance kept_refl : Reflexive kept.
Proof. by intros a; constructor. Qed.

#[global] Instance kept_trans : Transitive kept.
Proof.
  intros a b c [I1 C1 N1 L1 B1] [I2 C2 N2 L2 B2]. constructor; [congruence|by auto|by auto|congruence|].
  intros Hb. destruct (B1 Hb) as [E1 E2]. destruct (B2) as [E3 E4]; [|by rewrite E3, E4]. unfold blocked in *. by rewrite E1, E2.
Qed.

Lemma started_kept dt c : kept (cAccount c) (cAccount (started dt c)) /\ cEnable (cAccount (started dt c)) = cEnable (cAccount c).
Proof. unfold started. destruct (delayed false c); [|done]. by split; [constructor|]. Qed.

Lemma scheduled_kept dt c : kept (cAccount c) (cAccount (scheduled dt c)) /\ cEnable (cAccount (scheduled dt c)) = cEnable (cAccount c).
Proof. unfold scheduled. destruct (delayed true c); [|done]. by split; [constructor|]. Qed.

Lemma expired_spec dt a : expired dt a = negb ((cExpiry a <=? 0) || (dt <=? cExpiry a)).
Proof. unfold expired. rewrite negb_orb. f_equal; by rewrite <- Z.ltb_antisym. Qed.

Lemma new_period_kept dt seen c : kept (cAccount c) (cAccount (new_period dt seen c)).
Proof.
  destruct c as [a delay auto days next]. constructor; cbn; try done.
  - unfold consistent. cbn. rewrite expired_spec. intros [H1 H2]. destruct (String.eqb_spec (cAccessDisableReason a) ClientDisabledQuota) as [E|_].
    + assert (cEnable a = false) as -> by (destruct (cEnable a); [rewrite H1 in E by done; done|done]). destruct (_ || _); done.
    + rewrite andb_false_r. done.
  - unfold counted. cbn. lia.
  - unfold lifetime. cbn. f_equal; lia.
  - intros (He & _ & Hr). apply orb_false_iff in Hr as [Hq _]. rewrite Hq, andb_false_r. done.
Qed.

Lemma new_period_access dt seen c : cEnable (cAccount (new_period dt seen c)) <> cEnable (cAccount c) -> cEnable (cAccount c) = false.
Proof. cbn. destruct (cEnable (cAccount c)); done. Qed.

Lemma reset_row_kept dt c : kept (cAccount c) (cAccount (reset_row dt c)).
Proof.
  unfold reset_row, next_period. etrans; [apply (proj1 (started_kept dt c))|]. etrans; [apply (proj1 (scheduled_kept dt _))|].
  destruct (period_over dt _); [|done]. destruct (readable _); [apply new_period_kept|done].
Qed.

(** A reset changes the access only of a disabled client, at the end of its period, whose
    inbounds can be decoded. *)
Lemma reset_row_access dt c : cEnable (cAccount (reset_row dt c)) <> cEnable (cAccount c) ->
  let c2 := scheduled dt (started dt c) in period_over dt c2 = true /\ cEnable (cAccount c2) = false /\ is_Some (decodeInbounds (cInbounds (cAccount c2))).
Proof.
  cbv zeta. unfold reset_row, next_period, readable. destruct (started_kept dt c) as [_ E1]. destruct (scheduled_kept dt (started dt c)) as [_ E2]. rewrite <- E1, <- E2.
  generalize (scheduled dt (started dt c)) as c2. intros c2. destruct (period_over dt c2); [|done]. destruct (cEnable (cAccount c2)) eqn:He; cbn [orb].
  - intros H. exfalso. apply H. cbn. by rewrite He.
  - destruct (bool_decide _) eqn:Hb; [|by rewrite He]. apply bool_decide_eq_true in Hb. done.
Qed.

Lemma disable_kept dt c : exhausted dt c = true -> kept (cAccount c) (cAccount (disable dt c)).
Proof.
  intros He. constructor; cbn; try done.
  - unfold consistent. cbn. destruct (expired dt (cAccount c)); done.
  - intros [Hf _]. unfold exhausted in He. by rewrite Hf in He.
Qed.

Definition settle (dt : Z) (c : Client) : Client := if exhausted dt c then disable dt c else c.

Lemma settle_kept dt c : kept (cAccount c) (cAccount (settle dt c)).
Proof. unfold settle. destruct (exhausted dt c) eqn:E; [by apply disable_kept|done]. Qed.

Lemma settle_done dt c : exhausted dt (settle dt c) = false.
Proof. unfold settle. by destruct (exhausted dt c) eqn:E. Qed.

(** A client that is enabled and not exhausted is active. *)
Lemma not_exhausted_active dt c : consistent (cAccount c) -> counted (cAccount c) -> exhausted dt c = false -> Active (cAccount c) dt = cEnable (cAccount c).
Proof.
  unfold exhausted, Active, counted. rewrite expired_spec. intros Hc (H1 & H2 & H3) Hx. destruct (cEnable (cAccount c)) eqn:He; [|done]. cbn [andb] in *.
  rewrite (proj1 Hc He). cbn [String.eqb]. apply orb_false_iff in Hx as [Ho Hx]. rewrite (proj1 (negb_false_iff _) Hx), (proj2 (Z.leb_le _ _) H1), (proj2 (Z.leb_le _ _) H2). cbn [andb].
  unfold clientTrafficOverLimit in Ho. destruct (Z.leb_spec (cVolume (cAccount c)) 0) as [|Hv]; [done|]. cbn [orb]. rewrite (proj2 (Z.ltb_lt _ _) Hv) in Ho. cbn [andb] in Ho. bools. destruct Ho as [[Ha Hb] Hd].
  rewrite wrap64_id; [split_and!; lia|]. unfold in_int64, int64_min, int64_max in *. lia.
Qed.

(** ** The job *)
Lemma depleted_fold dt l acc : let r := foldl (depleted decodeInbounds dt) acc l in
  acc.2 ⊆ r.2 /\ (forall kv ids, kv ∈ l -> decodeInbounds (cInbounds (cAccount kv.2)) = Some ids -> list_to_set ids ⊆ r.2) /\
  (r.1 = [] <-> acc.1 = [] /\ forall kv, kv ∈ l -> decodeInbounds (cInbounds (cAccount kv.2)) = None).
Proof.
  cbv zeta. revert acc. induction l as [|kv l IH]; intros acc; cbn [foldl].
  - split_and!; [done|by intros kv ids ?%not_elem_of_nil|]. split; [intros ->; split; [done|by intros kv ?%not_elem_of_nil]|by intros [? _]].
  - destruct (IH (depleted decodeInbounds dt acc kv)) as (IH1 & IH2 & IH3). unfold depleted in *. destruct (decodeInbounds (cInbounds (cAccount kv.2))) as [l0|] eqn:Hd.
    + cbn [fst snd] in *. unfold UnionUintArray in *. split_and!; [etrans; [apply union_subseteq_l|exact IH1]|intros kv' ids [->|Hin]%elem_of_cons Hd'; [assert (ids = l0) as -> by congruence; etrans; [apply union_subseteq_r|exact IH1]|by apply (IH2 kv')]|].
      rewrite IH3. split; [intros [Ha _]; by destruct (acc.1)|]. intros [_ Ha]. specialize (Ha kv ltac:(set_solver)). congruence.
    + split_and!; [done|intros kv' ids [->|Hin]%elem_of_cons Hd'; [congruence|by apply (IH2 kv')]|]. rewrite IH3. split; intros [Ha Hb]; (split; [done|]).
      * intros kv' [->|Hin]%elem_of_cons; [done|by apply Hb].
      * intros kv' Hin. apply Hb. set_solver.
Qed.

(** The rows after a run, and what it reports. *)
Lemma deplete_rows dt d r d' : runs (deplete decodeInbounds dt) d r d' ->
  let m := reset_row dt <$> dClients d in
  (dClients d' = settle dt <$> m \/ (dClients d' = m /\ forall id c, m !! id = Some c -> exhausted dt c = true -> decodeInbounds (cInbounds (cAccount c)) = None)) /\
  (forall id c ids, m !! id = Some c -> exhausted dt c = true -> decodeInbounds (cInbounds (cAccount c)) = Some ids -> list_to_set ids ⊆ r.1) /\
  (forall id c ids, dClients d !! id = Some c -> cEnable (cAccount (reset_row dt c)) <> cEnable (cAccount c) -> decodeInbounds (cInbounds (cAccount c)) = Some ids -> list_to_set ids ⊆ r.1).
Proof.
  cbv zeta. intros H. unfold deplete in H. apply runs_bind in H as (rs & d1 & Hreset & H). apply runs_bind in H as (l & d2 & Hs & H).
  destruct (resetClients_rows _ _ _ _ Hreset) as [E1 Hreport]. destruct (select_rows _ _ _ _ Hs) as (-> & Hnd & Hl & Hall).
  pose proof (depleted_fold dt l ([], rs.1)) as (F1 & F2 & F3). destruct (foldl _ _ l) as [changes ids]. cbn [fst snd] in *.
  assert (Hres : r.1 = ids /\ (dClients d' = settle dt <$> dClients d1 \/ (dClients d' = dClients d1 /\ changes = []))).
  { destruct (decide (changes = [])) as [->|Hne]; [by apply runs_ret in H as [-> ->]; auto|]. apply runs_bind in H as (n & d3 & [-> ->]%runs_stmt & H). apply runs_bind in H as (u & d4 & [-> ->]%runs_stmt & [-> ->]%runs_ret).
    split; [done|]. left. cbn [fst snd dClients]. apply map_eq. intros id. by rewrite updateWhere_lookup, lookup_fmap. }
  destruct Hres as [-> Hres]. split_and!.
  - rewrite <- E1. destruct Hres as [?|[? Hch]]; [by left|right]. split; [done|]. intros id c Hc Hx. apply F3 in Hch as [_ Hn]. apply (Hn (id, c)). by apply Hall.
  - intros id c ids' Hc Hx Hd. apply (F2 (id, c) ids'); [|done]. apply Hall; [by rewrite E1|done].
  - intros id c ids' Hc Hne Hd. destruct (reset_row_access dt c Hne) as (Hp & He & _).
    assert (Hi : cInbounds (cAccount (scheduled dt (started dt c))) = cInbounds (cAccount c)).
    { destruct (started_kept dt c) as [[K1 _ _ _ _] _]. destruct (scheduled_kept dt (started dt c)) as [[K2 _ _ _ _] _]. congruence. }
    specialize (Hreport id c ids' Hc Hp He). rewrite Hi in Hreport. specialize (Hreport Hd). etrans; [exact Hreport|exact F1].
Qed.

Lemma deplete_unstopped dt : unstopped (deplete decodeInbounds dt).
Proof.
  assert (Hc : forall l : list Changes, unstopped (if decide (l = []) then mret tt else CreateChanges l)) by (intros l; destruct (decide (l = [])); [apply unstopped_ret|apply unstopped_stmt]).
  assert (Hp : forall acc kv, unstopped (start_period decodeInbounds dt acc kv)).
  { intros acc kv. unfold start_period. destruct (cEnable _); [|destruct (decodeInbounds _)]; eauto with solovey; apply unstopped_bind; intros; apply unstopped_stmt || apply unstopped_ret. }
  assert (Hs : forall f acc kv, unstopped (start_delayed dt f acc kv)) by (intros; apply unstopped_bind; [apply unstopped_stmt|intros; apply unstopped_ret]).
  unfold deplete, resetClients. repeat (apply unstopped_bind; [|intros ?]); try apply unstopped_stmt; try apply unstopped_ret; try (by apply unstopped_for_each); [apply Hc|].
  destruct (foldl _ _ _) as [changes ids]. destruct (decide _); [apply unstopped_ret|]. repeat (apply unstopped_bind; [apply unstopped_stmt|intros ?]). apply unstopped_ret.
Qed.


(** C40: a client whose inbounds cannot be decoded keeps its access when it is the only one
    over its limits.  When the inbounds of every exhausted client are unreadable, a
    successful run disables none of them, although the same statement disables all of
    them, without a record, when some other client is exhausted. *)
Theorem unreadable_client_keeps_access dt s faults ids s' id c :
  DepleteClients decodeInbounds dt s faults = (Some ids, s') ->
  (forall i c, dClients (sDb s) !! i = Some c -> exhausted dt (reset_row dt c) = true -> decodeInbounds (cInbounds (cAccount c)) = None) ->
  dClients (sDb s) !! id = Some c -> exhausted dt (reset_row dt c) = true ->
  exists c', dClients (sDb s') !! id = Some c' /\ exhausted dt c' = true.
Proof.
  unfold DepleteClients. destruct (Transaction _ _ _) as [[[ids0 changed]|] d'] eqn:Ht; [|done]. intros [= <- <-] Hnone Hc Hx. apply runs_Transaction in Ht.
  unfold deplete in Ht. apply runs_bind in Ht as (rs & d1 & Hreset & H). apply runs_bind in H as (l & d2 & Hs & H).
  destruct (resetClients_rows _ _ _ _ Hreset) as [E1 _]. destruct (select_rows _ _ _ _ Hs) as (-> & _ & Hl & _).
  pose proof (depleted_fold dt l ([], rs.1)) as (_ & _ & F3). destruct (foldl _ _ l) as [changes ids1]. cbn [fst snd] in *. rewrite (proj2 F3) in H.
  - apply runs_ret in H as [_ ->]. exists (reset_row dt c). cbn [sDb]. rewrite E1, lookup_fmap, Hc. done.
  - split; [done|]. intros [i ck] Hin. destruct (Hl _ Hin) as [Hkv Hxk]. cbn [fst snd] in *. rewrite E1, lookup_fmap in Hkv. destruct (dClients (sDb s) !! i) as [c0|] eqn:Hc0; [|done]. injection Hkv as <-.
    rewrite (kp_inbounds _ _ (reset_row_kept dt c0)). by apply (Hnone i).
Qed.
End Job.

(** ** Three clients *)
Module Demo.
#[local] Instance order : RangeOrder Z := canonical_order Z.

(** The inbounds of a client, by a decoder that knows two texts. *)
Definition decode (s : string) : option (list Z) := if String.eqb s "[1]" then Some [1] else if String.eqb s "[2]" then Some [2] else None.

Definition account (enable : bool) (reason inbounds : string) (volume expiry up : Z) : PaidOrders.Client := mkClient enable reason "client" inbounds volume expiry 0 up 0 0.

(** One over its quota, one that waits for its period, one within its limits. *)
Definition clients : gmap Z Client :=
  <[1 := mkAccess (account true "" "[1]" 10 0 11) false false 0 0]>
  (<[2 := mkAccess (account false ClientDisabledQuota "[2]" 10 0 12) false true 30 90]>
  (<[3 := mkAccess (account true "" "[1]" 0 500 1000) false false 0 0]> ∅)).

Definition start : store := mkStore (mkDb clients [] []) 0.

Definition after : option (gset Z) * store := DepleteClients decode 100 start [].


(** The only client over its quota, with inbounds that cannot be decoded. *)
Definition unreadable : store := mkStore (mkDb {[1 := mkAccess (account true "" "" 10 0 11) false false 0 0]} [] []) 0.

Lemma unreadable_client_keeps_access_witness : exists c', dClients (sDb (DepleteClients decode 100 unreadable []).2) !! 1 = Some c' /\ exhausted 100 c' = true.
Proof.
  destruct (DepleteClients decode 100 unreadable []) as [[ids|] s'] eqn:E; [|vm_compute in E; discriminate].
  apply (unreadable_client_keeps_access decode 100 unreadable [] ids s' 1 (mkAccess (account true "" "" 10 0 11) false false 0 0) E).
  - intros i c Hc _. unfold unreadable in Hc. cbn [sDb dClients] in Hc. apply lookup_singleton_Some in Hc as [_ <-]. reflexivity.
  - reflexivity.
  - vm_compute. reflexivity.
Defined.
End Demo.
