(* ===== verification/TrafficSamples.v ===== *)
(** * What a saved batch of samples adds to the clients
    The update of the counters in sorted slices of a hundred adds to every client exactly the
    sum of the samples of its id, in each direction. *)

From stdpp Require Import sorting.
From S2P Require Import Prelude GoStrings PaidOrders ClientAccess TrafficStats ClientAccessProperties.

Open Scope string_scope.
Open Scope list_scope.
Open Scope Z_scope.

(** ** Sums *)
Definition total {A : Type} (f : A -> Z) (l : list A) : Z := foldr (fun a acc => f a + acc) 0 l.

Section Totals.
Context {A : Type} (f : A -> Z).

Lemma total_cons a l : total f (a :: l) = f a + total f l.
Proof. done. Qed.

Lemma total_app l1 l2 : total f (l1 ++ l2) = total f l1 + total f l2.
Proof. unfold total. induction l1 as [|a l1 IH]; cbn; lia. Qed.

Lemma traffic_total_nonneg l : (forall a, a ∈ l -> 0 <= f a) -> 0 <= total f l.
Proof. induction l as [|a l IH]; intros H; cbn; [done|]. specialize (H a ltac:(set_solver)) as Ha. specialize (IH ltac:(set_solver)). unfold total in IH. lia. Qed.

Lemma total_elem l a : (forall x, x ∈ l -> 0 <= f x) -> a ∈ l -> f a <= total f l.
Proof.
  intros H (l1 & l2 & ->)%list_elem_of_split. rewrite total_app, total_cons. pose proof (traffic_total_nonneg l1 ltac:(set_solver)). pose proof (traffic_total_nonneg l2 ltac:(set_solver)). lia.
Qed.

Lemma total_insert l i a b : l !! i = Some a -> total f (<[i := b]> l) = total f l - f a + f b.
Proof. intros H. rewrite <- (take_drop_middle l i a H) at 2. rewrite insert_take_drop by (by eapply lookup_lt_Some). rewrite !total_app, !total_cons. lia. Qed.

Lemma total_delete l i a : l !! i = Some a -> total f (delete i l) = total f l - f a.
Proof. intros H. rewrite <- (take_drop_middle l i a H) at 2. rewrite delete_take_drop, !total_app, total_cons. lia. Qed.
End Totals.

Section MapSums.
Context {K V : Type} `{Countable K} (f : K -> V -> Z).

Definition msum (m : gmap K V) : Z := map_fold (fun k v acc => f k v + acc) 0 m.

Lemma msum_empty : msum ∅ = 0.
Proof. apply map_fold_empty. Qed.

Lemma msum_new m k v : m !! k = None -> msum (<[k := v]> m) = f k v + msum m.
Proof. intros Hk. unfold msum. rewrite map_fold_insert_L; [done| |done]. intros. lia. Qed.

Lemma msum_set m k v w : m !! k = Some v -> msum (<[k := w]> m) = msum m - f k v + f k w.
Proof.
  intros Hk. rewrite <- (insert_delete_id m k v Hk) at 2. rewrite <- insert_delete_eq. rewrite !msum_new by apply lookup_delete_eq. lia.
Qed.

Lemma msum_nonneg m : (forall k v, m !! k = Some v -> 0 <= f k v) -> 0 <= msum m.
Proof.
  induction m as [|k v m Hk IH] using map_ind; intros Hm; [done|]. rewrite msum_new by done. pose proof (Hm k v ltac:(by rewrite lookup_insert_eq)).
  assert (0 <= msum m); [|lia]. apply IH. intros k' v' Hk'. apply (Hm k'). rewrite lookup_insert_ne; [done|]. intros ->. congruence.
Qed.

Lemma msum_elem m k v : (forall k v, m !! k = Some v -> 0 <= f k v) -> m !! k = Some v -> f k v <= msum m.
Proof.
  intros Hm Hk. rewrite <- (insert_delete_id m k v Hk), msum_new by apply lookup_delete_eq. assert (0 <= msum (delete k m)); [|lia]. apply msum_nonneg.
  intros k' v' [_ Hk']%lookup_delete_Some. by apply (Hm k').
Qed.
End MapSums.

(** ** Samples of a client *)
(** The traffic of one sample that counts for a client. *)
Definition credit (id : Z) (dir : bool) (s : Stat) : Z :=
  if String.eqb (tsResource s) "user" && (tsVPNUserID s =? id) && negb (id =? 0) && Bool.eqb (tsDirection s) dir then tsTraffic s else 0.

Definition sampled (id : Z) (dir : bool) (samples : list Stat) : Z := total (credit id dir) samples.

(** What counts for a client is not negative. *)
Definition nonnegative (samples : list Stat) : Prop := forall id dir s, s ∈ samples -> 0 <= credit id dir s.

Lemma sampled_nonneg id dir samples : nonnegative samples -> 0 <= sampled id dir samples.
Proof. intros H. apply traffic_total_nonneg. intros s. apply H. Qed.

Lemma addSample_lookup m s id : in_int64 ((default (0, 0) (m !! id)).1 + credit id true s) -> in_int64 ((default (0, 0) (m !! id)).2 + credit id false s) ->
  default (0, 0) (addSample m s !! id) = ((default (0, 0) (m !! id)).1 + credit id true s, (default (0, 0) (m !! id)).2 + credit id false s).
Proof.
  unfold addSample, credit. destruct (String.eqb (tsResource s) "user"); cbn [negb orb andb]; [|intros _ _; rewrite !Z.add_0_r; by destruct (default _ _)].
  destruct (Z.eqb_spec (tsVPNUserID s) 0) as [E0|H0].
  - destruct (Z.eqb_spec (tsVPNUserID s) id) as [E|_]; [|intros _ _; rewrite !Z.add_0_r; by destruct (default _ _)].
    replace (id =? 0) with true by (symmetry; apply Z.eqb_eq; congruence). cbn. intros _ _. rewrite !Z.add_0_r. by destruct (default _ _).
  - cbv zeta. destruct (Z.eqb_spec (tsVPNUserID s) id) as [<-|Hne].
    + rewrite lookup_insert_eq. cbn [default from_option id]. rewrite (proj2 (Z.eqb_neq _ _) H0). cbn [negb andb]. destruct (tsDirection s); cbn [Bool.eqb]; intros H1 H2; rewrite wrap64_id by done; by rewrite Z.add_0_r.
    + rewrite lookup_insert_ne by done. intros _ _. cbn. rewrite !Z.add_0_r. by destruct (default _ _).
Qed.

Lemma clientDeltas_sum samples id : nonnegative samples -> sampled id true samples <= int64_max -> sampled id false samples <= int64_max ->
  default (0, 0) (clientDeltas samples !! id) = (sampled id true samples, sampled id false samples).
Proof.
  unfold clientDeltas. induction samples as [|s samples IH] using rev_ind; intros Hn H1 H2; [cbn [foldl]; by rewrite lookup_empty|].
  rewrite foldl_snoc. unfold sampled in *. rewrite !total_app, !total_cons in *. change (total (credit id true) []) with 0 in *. change (total (credit id false) []) with 0 in *.
  assert (Hn' : nonnegative samples) by (intros i dir x Hx; apply Hn; set_solver).
  pose proof (sampled_nonneg id true samples Hn') as P1. pose proof (sampled_nonneg id false samples Hn') as P2. pose proof (Hn id true s ltac:(set_solver)) as P3. pose proof (Hn id false s ltac:(set_solver)) as P4. unfold sampled in *.
  specialize (IH Hn' ltac:(lia) ltac:(lia)). rewrite addSample_lookup; rewrite IH; cbn [fst snd]; [f_equal; lia| |]; unfold in_int64, int64_min, int64_max in *; lia.
Qed.

(** ** The batches *)
Lemma batches_concat fuel names : (length names <= fuel)%nat -> concat (batches fuel names) = names.
Proof.
  revert names. induction fuel as [|fuel IH]; intros [|n names] H; try done; [cbn in H; lia|]. cbn [batches]. rewrite concat_cons, IH; [apply take_drop|].
  rewrite length_drop. cbn [length] in *. lia.
Qed.

Lemma addTraffic_zero a : addTraffic (0, 0) a = a.
Proof. destruct a. unfold addTraffic. cbn. by rewrite !Z.add_0_r. Qed.

Lemma set_account_id f c : f (cAccount c) = cAccount c -> set_account f c = c.
Proof. destruct c. unfold set_account. cbn. by intros ->. Qed.

Lemma saved_batch_rows deltas names d u d' : runs (updateClientTrafficDeltaBatch deltas names) d u d' ->
  forall id, dClients d' !! id = (fun c => if bool_decide (id ∈ names) then set_account (addTraffic (default (0, 0) (deltas !! id))) c else c) <$> dClients d !! id.
Proof.
  unfold updateClientTrafficDeltaBatch. intros H id. destruct names as [|n names].
  - apply runs_ret in H as [_ ->]. rewrite bool_decide_false by set_solver. by destruct (dClients d !! id).
  - apply runs_stmt in H as [_ ->]. cbn [snd dClients]. rewrite map_lookup_imap. by destruct (dClients d !! id).
Qed.

Lemma batches_rows deltas bs d u d' : runs (for_each bs (fun _ => updateClientTrafficDeltaBatch deltas) tt) d u d' -> NoDup (concat bs) ->
  forall id, dClients d' !! id = (fun c => if bool_decide (id ∈ concat bs) then set_account (addTraffic (default (0, 0) (deltas !! id))) c else c) <$> dClients d !! id.
Proof.
  revert d. induction bs as [|b bs IH]; intros d H Hnd id; cbn [for_each concat] in *.
  - apply runs_ret in H as [_ ->]. rewrite bool_decide_false by set_solver. by destruct (dClients d !! id).
  - apply runs_bind in H as ([] & d1 & H1 & H). apply NoDup_app in Hnd as (Hb & Hdis & Hnd). rewrite (IH d1 H Hnd), (saved_batch_rows _ _ _ _ _ H1).
    destruct (dClients d !! id) as [c|]; [cbn|done]. f_equal. destruct (decide (id ∈ b)) as [Hin|Hin].
    + by rewrite (bool_decide_false (id ∈ concat bs)), bool_decide_true, bool_decide_true by set_solver.
    + rewrite (bool_decide_false (id ∈ b)) by done. destruct (decide (id ∈ concat bs)); [by rewrite !bool_decide_true by set_solver|by rewrite !bool_decide_false by set_solver].
Qed.

Section Saving.
Context `{!RangeOrder Z, !RangeOrder string, !RangeOrder (string * Z)}.

Lemma updateDeltas_rows deltas d u d' : runs (updateClientTrafficDeltas deltas) d u d' ->
  forall id, dClients d' !! id = set_account (addTraffic (default (0, 0) (deltas !! id))) <$> dClients d !! id.
Proof.
  unfold updateClientTrafficDeltas. cbv zeta. set (names := merge_sort _ _). intros H id.
  assert (Hp : names ≡ₚ (filter (fun kv => moved kv = true) (range deltas)).*1) by apply merge_sort_Permutation.
  assert (Hnd : NoDup names). { rewrite Hp. eapply (sublist_NoDup _ (range deltas).*1); [apply range_NoDup|]. apply fmap_sublist, sublist_filter. }
  rewrite (batches_rows _ _ _ _ _ H) by (by rewrite batches_concat). rewrite batches_concat by done. destruct (dClients d !! id) as [c|]; [cbn|done]. f_equal.
  destruct (decide (id ∈ names)) as [Hin|Hin]; [by rewrite bool_decide_true|]. rewrite bool_decide_false by done. symmetry. apply set_account_id.
  destruct (deltas !! id) as [[u0 d0]|] eqn:Hd; [|apply addTraffic_zero]. change (default (0, 0) (Some (u0, d0))) with (u0, d0).
  destruct (moved (id, (u0, d0))) eqn:Hm.
  - exfalso. apply Hin. rewrite Hp. apply list_elem_of_fmap. exists (id, (u0, d0)). split; [done|]. apply list_elem_of_filter. split; [done|by apply elem_of_range].
  - unfold moved in Hm. cbn in Hm. apply negb_false_iff in Hm. bools. destruct Hm as [-> ->]. apply addTraffic_zero.
Qed.

(** A saved batch adds to every client the sum of its samples. *)
Lemma saveSamples_rows en samples d u d' : runs (saveSamples en samples) d u d' -> nonnegative samples -> (forall id dir, sampled id dir samples <= int64_max) ->
  forall id, dClients d' !! id = set_account (addTraffic (sampled id true samples, sampled id false samples)) <$> dClients d !! id.
Proof.
  intros H Hn Hb id. unfold saveSamples in H. apply runs_bind in H as (u1 & d1 & H1 & H). apply runs_bind in H as (u2 & d2 & H2 & [_ ->]%runs_stmt). cbn [snd].
  assert (E2 : dClients d2 = dClients d1) by (destruct en; [by apply runs_stmt in H2 as [_ ->]|by apply runs_ret in H2 as [_ ->]]).
  rewrite E2, (updateDeltas_rows _ _ _ _ H1), clientDeltas_sum by done. done.
Qed.
End Saving.
