(* ===== verification/AccessHistories.v ===== *)
(** * Histories of traffic and access
    Connections, flushes, the job, resets, payments, refunds and administrators in any order.
    Each action is atomic: an addition to a counter, a swap, a transaction.  The world records
    what connections saw of each client, what was saved and what was lost, so that the rows
    can be compared with it. *)

From S2P Require Import Prelude GoStrings VersionPolicy PaidOrders ClientAccess TrafficStats ClientAccessProperties TrafficSamples.

Open Scope string_scope.
Open Scope list_scope.
Open Scope Z_scope.

(** Bytes of a client in a direction: [true] is upload. *)
Definition ledger : Type := Z -> bool -> Z.

Definition post (l m : ledger) : ledger := fun id dir => l id dir + m id dir.

Definition side (dir : bool) (p : Z * Z) : Z := if dir then p.1 else p.2.

(** The part of [v] bytes in direction [b] of a counter that belongs to a client. *)
Definition share (s : slot) (b : bool) (v : Z) : ledger := fun id dir =>
  match s with SlotUser _ i => if (i =? id) && Bool.eqb b dir then v else 0 | _ => 0 end.

(** ** What is not saved yet *)
Definition usersum (t : StatsTracker) : ledger := fun id dir =>
  msum (fun (k : string * Z) c => if k.2 =? id then counterValue dir c else 0) (tUsers t).

Definition held (f : flush) : ledger := fun id dir =>
  match f with
  | Draining _ todo down samples => sampled id dir samples + match down, todo with Some v, s :: _ => share s false v id dir | _, _ => 0 end
  | Saving samples => sampled id dir samples
  | Restoring samples => sampled id dir samples
  end.

Definition unsaved (t : StatsTracker) (flushes : list flush) : ledger := fun id dir =>
  usersum t id dir + total (fun f => held f id dir) flushes.

Record world := mkWorld {
  wStore : store; wOnlines : onlines; wTracker : StatsTracker; wFlushes : list flush;
  wSeen : ledger; wPosted : ledger; wLost : ledger; wBase : ledger
}.

Definition clientRows (w : world) : gmap Z Client := dClients (sDb (wStore w)).

Definition with_rows (m : gmap Z Client) (s : store) : store := mkStore (mkDb m (dChanges (sDb s)) (dStats (sDb s))) (sLastUpdate s).

(** A row that is written as it is: the account starts from what it says. *)
Definition rebase (id : Z) (a : PaidOrders.Client) (posted base : ledger) : ledger := fun i dir =>
  if i =? id then side dir (lifetime a) - posted i dir else base i dir.

Definition nothing : ledger := fun _ _ => 0.

Section Histories.
Context `{!RangeOrder Z, !RangeOrder string, !RangeOrder (string * Z)}.
Context (decodeInbounds : string -> option (list Z)).

(** The label is the client that an administrator writes. *)
Inductive step : option Z -> world -> world -> Prop :=
| StepAdmit inbound outbound user uid st o t fl seen posted lost base :
    step None (mkWorld st o t fl seen posted lost base) (mkWorld st o (trackCounters (getReadCounters inbound outbound user uid) t) fl seen posted lost base)
| StepTraffic s dir n st o t fl seen posted lost base :
    0 <= n -> is_Some (counterAt t s) ->
    step None (mkWorld st o t fl seen posted lost base) (mkWorld st o (addCounter s dir n t) fl (post seen (share s dir n)) posted lost base)
| StepStart dt st o t fl seen posted lost base :
    step None (mkWorld st o t fl seen posted lost base) (mkWorld st o t (fl ++ [startFlush dt t]) seen posted lost base)
| StepFlush i f f' t' st o t fl seen posted lost base :
    fl !! i = Some f -> flushAction f t = (f', t') ->
    step None (mkWorld st o t fl seen posted lost base) (mkWorld st o t' (match f' with Some f' => <[i := f']> fl | None => delete i fl end) seen posted lost base)
| StepSave i samples enableTraffic faults saved d' o' st o t fl seen posted lost base :
    fl !! i = Some (Saving samples) -> saveStatsSamples enableTraffic samples (sDb st) o faults = (saved, d', o') ->
    step None (mkWorld st o t fl seen posted lost base)
      (mkWorld (mkStore d' (sLastUpdate st)) o' t (match afterSave saved samples with Some f' => <[i := f']> fl | None => delete i fl end)
         seen (if saved then post posted (fun id dir => sampled id dir samples) else posted) lost base)
| StepResetCounter s dir v t' st o t fl seen posted lost base :
    swapCounter s dir t = (v, t') ->
    step None (mkWorld st o t fl seen posted lost base) (mkWorld st o t' fl seen posted (post lost (share s dir v)) base)
| StepStop st o t fl seen posted lost base :
    step None (mkWorld st o t fl seen posted lost base) (mkWorld st o NewStatsTracker [] seen posted (post lost (unsaved t fl)) base)
| StepDeplete dt faults answer st' st o t fl seen posted lost base :
    DepleteClients decodeInbounds dt st faults = (answer, st') ->
    step None (mkWorld st o t fl seen posted lost base) (mkWorld st' o t fl seen posted lost base)
| StepResetTraffic raw dt faults answer st' st o t fl seen posted lost base :
    ResetTraffic raw dt st faults = (answer, st') ->
    step None (mkWorld st o t fl seen posted lost base) (mkWorld st' o t fl seen posted lost base)
| StepRenew id c tariff now updates orderUpdates st o t fl seen posted lost base :
    dClients (sDb st) !! id = Some c -> BuildPaidClientUpdates (cAccount c) tariff now = Ok (updates, orderUpdates) ->
    step None (mkWorld st o t fl seen posted lost base)
      (mkWorld (with_rows (<[id := set_account (fun a => applyClientUpdates a (sqlAccess a updates)) c]> (dClients (sDb st))) st) o t fl seen posted lost base)
| StepRefund id c c' order tariff now restore st o t fl seen posted lost base :
    dClients (sDb st) !! id = Some c -> c' = set_account (fun a => applyClientUpdates a (BuildRefundClientUpdates a order tariff now restore)) c ->
    step None (mkWorld st o t fl seen posted lost base)
      (mkWorld (with_rows (<[id := c']> (dClients (sDb st))) st) o t fl seen posted lost (rebase id (cAccount c') posted base))
| StepSaveClient id c st o t fl seen posted lost base :
    step (Some id) (mkWorld st o t fl seen posted lost base)
      (mkWorld (with_rows (<[id := set_account administrative c]> (dClients (sDb st))) st) o t fl seen posted lost (rebase id (cAccount (set_account administrative c)) posted base))
| StepDelete id st o t fl seen posted lost base :
    step (Some id) (mkWorld st o t fl seen posted lost base) (mkWorld (with_rows (delete id (dClients (sDb st))) st) o t fl seen posted lost base).

Inductive history : list (option Z) -> world -> world -> Prop :=
| HistoryNil w : history [] w w
| HistoryStep l labels w w1 w2 : history labels w w1 -> step l w1 w2 -> history (l :: labels) w w2.
End Histories.
