(* ===== verification/AccessProperties.v ===== *)
(** * Access and traffic over histories
    Over every history of [AccessHistories]: the enable bit of a client agrees with its reason,
    and only an administrator lifts a reason of an administrator; every byte that a connection
    saw of a client is in a counter, in a flush, saved or lost, once, and the row of a client
    says what was saved. *)

From S2P Require Import Prelude GoStrings VersionPolicy PaidOrders ClientAccess TrafficStats ClientAccessProperties TrafficSamples AccessHistories.

Open Scope string_scope.
Open Scope list_scope.
Open Scope Z_scope.

Section Histories.
Context `{!RangeOrder Z, !RangeOrder string, !RangeOrder (string * Z)}.
Context (decodeInbounds : string -> option (list Z)).

(** ** Rows *)
(** What every action but the write of an administrator keeps of the access. *)
Definition guarded (a a' : PaidOrders.Client) : Prop :=
  (consistent a -> consistent a') /\ (blocked a -> cEnable a' = cEnable a /\ cAccessDisableReason a' = cAccessDisableReason a).

Lemma kept_guarded a a' : kept a a' -> guarded a a'.
Proof. intros []. done. Qed.

Lemma same_guarded a a' : cEnable a' = cEnable a -> cAccessDisableReason a' = cAccessDisableReason a -> guarded a a'.
Proof. intros E1 E2. unfold guarded, consistent. by rewrite E1, E2. Qed.

Lemma fold_counters_kept a : kept a (fold_counters a).
Proof. constructor; try done; [unfold counted; cbn; lia|unfold lifetime; cbn; f_equal; lia]. Qed.

Lemma sqlAccess_guarded a u : guarded a (applyClientUpdates a (sqlAccess a u)).
Proof.
  split.
  - unfold consistent, applyClientUpdates, sqlAccess. cbn. destruct (renewable _) eqn:Hr; [by rewrite orb_true_r|]. rewrite orb_false_r, String.eqb_eq. done.
  - intros (He & Hne & Hr). cbn. rewrite Hr, He, (proj2 (String.eqb_neq _ _) Hne). done.
Qed.

(** A payment moves the counters to the totals, or leaves them. *)
Lemma renewed_lifetime a tariff now u ou : BuildPaidClientUpdates a tariff now = Ok (u, ou) -> lifetime (applyClientUpdates a (sqlAccess a u)) = lifetime a.
Proof.
  unfold BuildPaidClientUpdates, addNonNegative. cbv zeta. destruct (grantExpiry a tariff now) as [expiry|]; [cbn [rbind]|done]. destruct (0 <? tAddTrafficBytes tariff); [|intros [= <- _]; done].
  repeat (match goal with |- context [if ?b then Err _ else _] => destruct b end; cbn [rbind]; try done). intros [= <- _]. unfold lifetime. cbn. f_equal; lia.
Qed.

Lemma refunded_guarded a order tariff now restore : guarded a (applyClientUpdates a (BuildRefundClientUpdates a order tariff now restore)).
Proof. apply same_guarded; unfold BuildRefundClientUpdates; cbv zeta; by destruct (0 <? tAddTrafficBytes tariff). Qed.

Lemma ResetTraffic_rows raw dt s faults answer s' : ResetTraffic raw dt s faults = (answer, s') ->
  dClients (sDb s') = dClients (sDb s) \/ exists id, dClients (sDb s') = updateWhere (fun i _ => i =? id) (set_account fold_counters) (dClients (sDb s)).
Proof.
  unfold ResetTraffic. cbv zeta. destruct (String.eqb _ ""); [intros [= _ <-]; by left|]. destruct (ParseUint _) as [id|]; [|intros [= _ <-]; by left]. destruct (id =? 0); [intros [= _ <-]; by left|].
  destruct (Transaction _ _ _) as [[c|] d'] eqn:Ht; intros [= _ <-]; [|by left]. right. exists id. apply runs_Transaction in Ht. unfold resetTraffic in Ht. apply runs_bind in Ht as (c0 & d1 & H1 & H).
  assert (d1 = sDb s) as ->. { destruct H1 as (fs & fs' & H1). unfold First in H1. destruct (stmt _ _ _) as [[[[?|] d2] ?]|] eqn:E; [|done|done]. injection H1 as _ <- _. unfold stmt in E. destruct fs as [|[] fs]; [|done|]; by injection E as _ <- _. }
  apply runs_bind in H as (n & d2 & [-> ->]%runs_stmt & H). apply runs_bind in H as (u & d3 & [-> ->]%runs_stmt & [_ ->]%runs_ret). done.
Qed.

Lemma saveStats_rows en samples d o faults saved d' o' : saveStatsSamples en samples d o faults = (saved, d', o') -> nonnegative samples -> (forall id dir, sampled id dir samples <= int64_max) ->
  dClients d' = if saved then map_imap (fun id c => Some (set_account (addTraffic (sampled id true samples, sampled id false samples)) c)) (dClients d) else dClients d.
Proof.
  unfold saveStatsSamples. intros H Hn Hb. assert (Hz : forall m : gmap Z Client, m = map_imap (fun id c => Some (set_account (addTraffic (0, 0)) c)) m).
  { intros m. apply map_eq. intros i. rewrite map_lookup_imap. destruct (m !! i) as [c|]; [cbn|done]. f_equal. symmetry. apply set_account_id, addTraffic_zero. }
  destruct samples as [|s samples]; [injection H as <- <- _; destruct faults as [|[] faults]; [apply Hz|done|apply Hz]|].
  destruct (Transaction _ _ _) as [[u|] d1] eqn:Ht; injection H as <- <- _; [|by apply Transaction_rolls_back in Ht as ->].
  apply runs_Transaction in Ht. apply map_eq. intros i. rewrite (saveSamples_rows _ _ _ _ _ Ht Hn Hb), map_lookup_imap. by destruct (dClients d !! i).
Qed.

(** Every row is rewritten on its own. *)
Definition evolves (R : Z -> PaidOrders.Client -> PaidOrders.Client -> Prop) (m m' : gmap Z Client) : Prop :=
  exists g : Z -> Client -> Client, forall id, m' !! id = g id <$> m !! id /\ forall c, m !! id = Some c -> R id (cAccount c) (cAccount (g id c)).

Lemma evolves_same (R : Z -> PaidOrders.Client -> PaidOrders.Client -> Prop) m : (forall id a, R id a a) -> evolves R m m.
Proof. intros HR. exists (fun _ c => c). intros id. split; [by destruct (m !! id)|done]. Qed.

Lemma evolves_one (R : Z -> PaidOrders.Client -> PaidOrders.Client -> Prop) m id c c' : (forall i a, i <> id -> R i a a) -> m !! id = Some c -> R id (cAccount c) (cAccount c') -> evolves R m (<[id := c']> m).
Proof.
  intros HR Hc Hr. exists (fun i c => if i =? id then c' else c). intros i. destruct (Z.eqb_spec i id) as [->|Hne].
  - rewrite lookup_insert_eq, Hc. split; [done|]. by intros c0 [= <-].
  - rewrite lookup_insert_ne by done. split; [by destruct (m !! i)|]. auto.
Qed.

Lemma evolves_impl (R R' : Z -> PaidOrders.Client -> PaidOrders.Client -> Prop) m m' : (forall id a a', R id a a' -> R' id a a') -> evolves R m m' -> evolves R' m m'.
Proof. intros HR [g Hg]. exists g. intros id. destruct (Hg id) as [E H]. auto. Qed.

Lemma DepleteClients_rows dt st faults answer st' : DepleteClients decodeInbounds dt st faults = (answer, st') -> evolves (fun _ => kept) (dClients (sDb st)) (dClients (sDb st')).
Proof.
  unfold DepleteClients. destruct (Transaction _ _ _) as [[[ids changed]|] d'] eqn:Ht; intros [= _ <-]; cbn [sDb].
  2: { apply Transaction_rolls_back in Ht as ->. apply evolves_same. intros _ a. reflexivity. }
  apply runs_Transaction in Ht. destruct (deplete_rows _ _ _ _ _ Ht) as ([E|[E _]] & _).
  - exists (fun _ c => settle dt (reset_row decodeInbounds dt c)). intros id. split; [rewrite E, !lookup_fmap; by destruct (dClients (sDb st) !! id)|]. intros c _. etrans; [apply reset_row_kept|apply settle_kept].
  - exists (fun _ c => reset_row decodeInbounds dt c). intros id. split; [by rewrite E, lookup_fmap|]. intros c _. apply reset_row_kept.
Qed.

Lemma ResetTraffic_evolves raw dt st faults answer st' : ResetTraffic raw dt st faults = (answer, st') -> evolves (fun _ => kept) (dClients (sDb st)) (dClients (sDb st')).
Proof.
  intros [->|[id ->]]%ResetTraffic_rows; [by apply evolves_same|]. exists (fun i c => if i =? id then set_account fold_counters c else c). intros i. rewrite updateWhere_lookup. split; [done|].
  intros c _. destruct (i =? id); [apply fold_counters_kept|done].
Qed.

(** Saving samples does not touch the access, whatever the samples. *)
Lemma saveStats_access en samples d o faults saved d' o' : saveStatsSamples en samples d o faults = (saved, d', o') -> evolves (fun _ => guarded) (dClients d) (dClients d').
Proof.
  assert (Hsame : evolves (fun _ => guarded) (dClients d) (dClients d)) by (apply evolves_same; intros; by apply same_guarded).
  unfold saveStatsSamples. intros H. destruct samples as [|s samples]; [by injection H as _ <- _|]. destruct (Transaction _ _ _) as [[u|] d1] eqn:Ht; injection H as _ <- _; [|by apply Transaction_rolls_back in Ht as ->].
  apply runs_Transaction in Ht. unfold saveSamples in Ht. apply runs_bind in Ht as (u1 & d2 & H1 & H). apply runs_bind in H as (u2 & d3 & H2 & [_ ->]%runs_stmt). cbn [snd].
  assert (E2 : dClients d3 = dClients d2) by (destruct en; [by apply runs_stmt in H2 as [_ ->]|by apply runs_ret in H2 as [_ ->]]). rewrite E2.
  eexists. intros id. split; [apply (updateDeltas_rows _ _ _ _ H1)|]. intros c _. by apply same_guarded.
Qed.

Lemma step_access l w w' : step decodeInbounds l w w' -> match l with None => evolves (fun _ => guarded) (clientRows w) (clientRows w') | Some id =>
  (clientRows w' = delete id (clientRows w) \/ exists c, clientRows w' = <[id := set_account administrative c]> (clientRows w)) end.
Proof.
  assert (Hrefl : forall m, evolves (fun _ => guarded) m m) by (intros m; apply evolves_same; intros; by apply same_guarded).
  assert (Hk : forall m m', evolves (fun _ => kept) m m' -> evolves (fun _ => guarded) m m') by (intros m m'; apply evolves_impl; intros _ a a'; apply kept_guarded).
  intros H. destruct H; unfold clientRows; cbn [wStore sDb with_rows dClients]; try done.
  - by eapply saveStats_access.
  - eapply Hk, DepleteClients_rows. eassumption.
  - eapply Hk, ResetTraffic_evolves. eassumption.
  - eapply evolves_one; [intros; by apply same_guarded|eassumption|apply sqlAccess_guarded].
  - subst c'. eapply evolves_one; [intros; by apply same_guarded|eassumption|apply refunded_guarded].
  - right. by exists c.
  - by left.
Qed.

Lemma administrative_consistent a : consistent (administrative a).
Proof. unfold consistent, administrative. cbn. by destruct (cEnable a). Qed.

Lemma step_consistent l w w' : step decodeInbounds l w w' -> (forall id c, clientRows w !! id = Some c -> consistent (cAccount c)) -> forall id c, clientRows w' !! id = Some c -> consistent (cAccount c).
Proof.
  intros Hs Hw id c'. apply step_access in Hs. destruct l as [i|].
  - destruct Hs as [->|[c ->]]; [intros [_ H]%lookup_delete_Some; by apply (Hw id)|]. intros [[<- <-]|[_ H]]%lookup_insert_Some; [apply administrative_consistent|by apply (Hw id)].
  - destruct Hs as [g Hg]. destruct (Hg id) as [-> HR]. intros (c & Hc & ->)%fmap_Some. apply HR; [done|]. by apply (Hw id).
Qed.

(** C22: only an administrator gives access back to a client that an administrator disabled.
    Over every history of traffic, flushes, runs of the job, resets, payments and refunds, a
    client is enabled exactly when it has no reason to be disabled, if it was so before; and
    a client that is disabled for a reason other than its quota or its expiry stays disabled
    for that reason, unless an administrator writes it. *)
Theorem access_needs_administrator labels w w' :
  history decodeInbounds labels w w' ->
  ((forall id c, clientRows w !! id = Some c -> consistent (cAccount c)) -> forall id c, clientRows w' !! id = Some c -> consistent (cAccount c)) /\
  (forall id c, clientRows w !! id = Some c -> blocked (cAccount c) -> Some id ∉ labels ->
     exists c', clientRows w' !! id = Some c' /\ cEnable (cAccount c') = false /\ cAccessDisableReason (cAccount c') = cAccessDisableReason (cAccount c)).
Proof.
  induction 1 as [w|l labels w w1 w2 Hh [IH1 IH2] Hs]; [split; [done|]; intros id c Hc [He _] _; by exists c|]. split.
  - intros Hw. by eapply step_consistent, IH1.
  - intros id c Hc Hb Hl. destruct (IH2 id c Hc Hb ltac:(set_solver)) as (c1 & Hc1 & He1 & Hr1).
    assert (Hb1 : blocked (cAccount c1)) by (destruct Hb as (_ & Hn & Hr); split; [done|]; by rewrite Hr1). apply step_access in Hs. destruct l as [i|].
    + assert (i <> id) by (intros ->; apply Hl; set_solver). exists c1. split; [|done]. destruct Hs as [->|[c0 ->]]; [by rewrite lookup_delete_ne|by rewrite lookup_insert_ne].
    + destruct Hs as [g Hg]. destruct (Hg id) as [E HR]. exists (g id c1). rewrite E, Hc1. split; [done|]. destruct (HR c1 Hc1) as [_ Hk]. destruct (Hk Hb1) as [E1 E2]. by rewrite E1, E2.
Qed.
End Histories.

(** ** A client that an administrator disabled *)
Module Demo.
#[local] Instance orderZ : RangeOrder Z := canonical_order Z.
#[local] Instance orderS : RangeOrder string := canonical_order string.
#[local] Instance orderU : RangeOrder (string * Z) := canonical_order (string * Z).

Definition decode (s : string) : option (list Z) := if String.eqb s "[1]" then Some [1] else None.

(** Its period is over, and it pays. *)
Definition manual : Client := mkAccess (mkClient false ClientDisabledManual "bob" "[1]" 10 0 0 20 0 0) false true 30 50.
Definition start : world := mkWorld (mkStore (mkDb {[1 := manual]} [] []) 0) (mkOnlines [] [] []) NewStatsTracker [] nothing nothing nothing nothing.
Definition job : store := (DepleteClients decode 100 (wStore start) []).2.
Definition settled : Client := default manual (dClients (sDb job) !! 1).
Definition tariff : Tariff := mkTariff 30 100.
Definition bought : clientUpdates := match BuildPaidClientUpdates (cAccount settled) tariff 200 with Ok (u, _) => u | Err _ => mkClientUpdates None None None None None None None None end.
Definition paid : world :=
  mkWorld (with_rows (<[1 := set_account (fun a => applyClientUpdates a (sqlAccess a bought)) settled]> (dClients (sDb job))) job) (mkOnlines [] [] []) NewStatsTracker [] nothing nothing nothing nothing.

Lemma access_needs_administrator_witness : exists c, clientRows paid !! 1 = Some c /\ cEnable (cAccount c) = false /\ cAccessDisableReason (cAccount c) = ClientDisabledManual /\ cVolume (cAccount c) = 110 /\ cTotalUp (cAccount c) = 20.
Proof.
  assert (H : history decode [None; None] start paid).
  { eapply HistoryStep; [eapply HistoryStep; [apply HistoryNil|eapply (StepDeplete decode 100 []); apply surjective_pairing]|].
    apply (StepRenew decode 1 settled tariff 200 bought (Some (0, 0))); vm_compute; reflexivity. }
  destruct (proj2 (access_needs_administrator decode _ start paid H) 1 manual) as (c & Hc & He & Hr).
  - reflexivity.
  - split; [reflexivity|]. split; [discriminate|reflexivity].
  - intros Hin. apply elem_of_cons in Hin as [Hin|Hin]; [discriminate|]. apply elem_of_cons in Hin as [Hin|Hin]; [discriminate|]. apply not_elem_of_nil in Hin. exact Hin.
  - exists c. rewrite Hc. split; [reflexivity|]. split; [exact He|]. split; [rewrite Hr; reflexivity|]. vm_compute in Hc. injection Hc as <-. split; reflexivity.
Defined.
End Demo.
