(* ===== verification/TrafficLedger.v ===== *)
(** * The ledger of traffic
    Every byte that a connection saw of a client is in a counter, in a flush, saved or lost,
    exactly once, in every interleaving of connections, flushes and failing transactions; and
    the row of a client says what was saved of it. *)

From S2P Require Import Prelude GoStrings VersionPolicy PaidOrders ClientAccess TrafficStats ClientAccessProperties TrafficSamples AccessHistories AccessProperties.

Open Scope string_scope.
Open Scope list_scope.
Open Scope Z_scope.

(** ** Counters *)
(** The counters of clients are not negative. *)
Definition counters_ok (t : StatsTracker) : Prop := forall name id c, tUsers t !! (name, id) = Some c -> id <> 0 -> 0 <= cRead c /\ 0 <= cWrite c.

(** A number of bytes in a slot is not negative, if the slot is a client's. *)
Definition slot_ok (s : slot) (v : Z) : Prop := match s with SlotUser _ id => id <> 0 -> 0 <= v | _ => True end.

Definition flush_ok (f : flush) : Prop :=
  match f with
  | Draining _ todo down samples => nonnegative samples /\ match down, todo with Some v, s :: _ => slot_ok s v | _, _ => True end
  | Saving samples => nonnegative samples
  | Restoring samples => nonnegative samples
  end.

Lemma counterValue_ok t s c b : counters_ok t -> counterAt t s = Some c -> slot_ok s (counterValue b c).
Proof. destruct s as [| |name id]; cbn; [done|done|]. intros Ht Hc Hid. destruct (Ht name id c Hc Hid), b; cbn; lia. Qed.

Lemma storeCounter_ok s c t : counters_ok t -> (forall b, slot_ok s (counterValue b c)) -> counters_ok (storeCounter s c t).
Proof.
  intros Ht Hs name id c'. destruct s as [| |n i]; cbn; [apply Ht|apply Ht|]. intros [[[= <- <-] <-]|[_ H]]%lookup_insert_Some Hid; [|by apply (Ht name id)].
  split; [by apply (Hs true)|by apply (Hs false)].
Qed.

Lemma usersum_nonneg t id dir : counters_ok t -> id <> 0 -> 0 <= usersum t id dir.
Proof.
  intros Ht Hid. apply msum_nonneg. intros [name i] c Hc. cbn. destruct (Z.eqb_spec i id) as [->|]; [|done]. destruct (Ht name id c Hc Hid), dir; cbn; lia.
Qed.

Lemma usersum_counter t name id c dir : counters_ok t -> id <> 0 -> tUsers t !! (name, id) = Some c -> counterValue dir c <= usersum t id dir.
Proof.
  intros Ht Hid Hc. pose proof (msum_elem (fun (k : string * Z) c => if k.2 =? id then counterValue dir c else 0) (tUsers t) (name, id) c) as H. cbn in H. rewrite Z.eqb_refl in H. apply H; [|done].
  intros [n i] c' Hc'. cbn. destruct (Z.eqb_spec i id) as [->|]; [|done]. destruct (Ht n id c' Hc' Hid), dir; cbn; lia.
Qed.

(** Replacing a counter moves the sum by the difference. *)
Lemma usersum_store t s c c' id dir : counterAt t s = Some c -> usersum (storeCounter s c' t) id dir = usersum t id dir + share s dir (counterValue dir c' - counterValue dir c) id dir.
Proof.
  unfold usersum. destruct s as [tag|tag|name i]; cbn [storeCounter tUsers share counterAt]; [lia|lia|]. intros Hc. rewrite (msum_set _ _ _ c) by done. cbn. rewrite Bool.eqb_reflx, andb_true_r. destruct (i =? id); lia.
Qed.

Lemma loadOrCreate_usersum t s id dir : usersum (loadOrCreateCounter s t) id dir = usersum t id dir.
Proof.
  unfold loadOrCreateCounter. destruct (counterAt t s) eqn:E; [done|]. destruct s as [tag|tag|name i]; cbn; [done|done|]. unfold usersum. cbn. rewrite msum_new by done. cbn. destruct (i =? id); destruct dir; cbn; lia.
Qed.

Lemma loadOrCreate_ok t s : counters_ok t -> counters_ok (loadOrCreateCounter s t).
Proof. intros Ht. unfold loadOrCreateCounter. destruct (counterAt t s); [done|]. apply storeCounter_ok; [done|]. intros b. destruct s; cbn; [done|done|]. by destruct b. Qed.

Lemma counterAt_store s c t : counterAt (storeCounter s c t) s = Some c.
Proof. destruct s; apply lookup_insert_eq. Qed.

Lemma loadOrCreate_at t s : is_Some (counterAt (loadOrCreateCounter s t) s).
Proof. unfold loadOrCreateCounter. destruct (counterAt t s) eqn:E; [by eexists|]. rewrite counterAt_store. by eexists. Qed.

(** Room for [n] more bytes: a client's counter does not wrap. *)
Definition room (t : StatsTracker) (s : slot) (b : bool) (n : Z) : Prop :=
  match s with SlotUser _ id => id <> 0 -> 0 <= n /\ usersum t id b + n <= int64_max | _ => True end.

Lemma addCounter_spec t s b n : counters_ok t -> is_Some (counterAt t s) -> room t s b n ->
  counters_ok (addCounter s b n t) /\ forall id dir, id <> 0 -> usersum (addCounter s b n t) id dir = usersum t id dir + share s b n id dir.
Proof.
  intros Ht [c Hc] Hroom. unfold addCounter. rewrite Hc.
  assert (Hw : forall name i, s = SlotUser name i -> i <> 0 -> wrap64 (counterValue b c + n) = counterValue b c + n).
  { intros name i -> Hi. cbn in Hc, Hroom. destruct (Hroom Hi) as [Hn Hr]. pose proof (usersum_counter t name i c b Ht Hi Hc). destruct (Ht name i c Hc Hi) as [H1 H2].
    apply wrap64_id. unfold in_int64, int64_min, int64_max in *. destruct b; cbn in *; lia. }
  split.
  - apply storeCounter_ok; [done|]. intros b'. destruct s as [| |name i]; cbn; [done|done|]. intros Hi. specialize (Hw name i eq_refl Hi). destruct (Ht name i c Hc Hi), (Hroom Hi) as [Hn _]. destruct b, b'; cbn in *; rewrite ?Hw; lia.
  - intros id dir Hid. rewrite (usersum_store _ _ c) by done. f_equal. destruct s as [| |name i]; cbn; [done|done|]. rewrite Bool.eqb_reflx, andb_true_r. destruct (Z.eqb_spec i id) as [->|]; [|done].
    specialize (Hw name id eq_refl Hid). destruct b, dir; cbn in *; rewrite ?Hw; lia.
Qed.

Lemma swapCounter_spec t s b v t' : counters_ok t -> swapCounter s b t = (v, t') ->
  counters_ok t' /\ slot_ok s v /\ forall id dir, usersum t' id dir = usersum t id dir - share s b v id dir.
Proof.
  intros Ht. unfold swapCounter. destruct (counterAt t s) as [c|] eqn:Hc; intros [= <- <-].
  - split_and!; [|by eapply counterValue_ok|].
    + apply storeCounter_ok; [done|]. intros b'. pose proof (counterValue_ok t s c b' Ht Hc) as Hv. destruct s; cbn in *; [done|done|]. intros Hi. specialize (Hv Hi). destruct b, b'; cbn in *; lia.
    + intros id dir. rewrite (usersum_store _ _ c) by done. destruct s as [| |name i]; cbn; [lia|lia|]. rewrite Bool.eqb_reflx, andb_true_r. destruct (i =? id); [|cbn; lia]. destruct b, dir; cbn; lia.
  - split; [done|]. split; [by destruct s|]. intros id dir. destruct s as [| |name i]; cbn; [lia|lia|]. destruct (_ && _); lia.
Qed.

(** ** Samples *)
Lemma samplesOf_spec s dt down up : slot_ok s down -> slot_ok s up ->
  nonnegative (samplesOf s dt down up) /\ forall id dir, id <> 0 -> sampled id dir (samplesOf s dt down up) = share s false down id dir + share s true up id dir.
Proof.
  intros Hd Hu. unfold samplesOf. destruct s as [tag|tag|name i]; cbn [share].
  1,2: (destruct (_ || _); split; [intros id dir x Hx; unfold credit; apply elem_of_cons in Hx as [->|[->|Hx%not_elem_of_nil]%elem_of_cons]; done|done|intros id dir x Hx%not_elem_of_nil; done|done]).
  cbn in Hd, Hu. split.
  - intros id dir x Hx. unfold credit. destruct (_ || _); [|by apply not_elem_of_nil in Hx]. apply elem_of_cons in Hx as [->|[->|Hx%not_elem_of_nil]%elem_of_cons]; [| |done]; cbn [tsResource tsVPNUserID tsDirection tsTraffic];
      (destruct (Z.eqb_spec i id) as [->|]; [|done]); (destruct (Z.eqb_spec id 0) as [|Hid]; [done|]); cbn; destruct dir; cbn; auto; lia.
  - intros id dir Hid. destruct (_ || _) eqn:Hb.
    + unfold sampled. rewrite !total_cons. unfold credit. cbn [tsResource tsVPNUserID tsDirection tsTraffic]. change (total _ []) with 0. change (String.eqb "user" "user") with true. rewrite (proj2 (Z.eqb_neq _ _) Hid). cbn [andb negb].
      destruct (i =? id), dir; cbn; lia.
    + change (sampled id dir []) with 0. destruct (Z.eqb_spec i id) as [->|]; [|done]. specialize (Hd Hid). specialize (Hu Hid). bools. destruct dir; cbn; lia.
Qed.

Lemma sampled_nobody dir samples : sampled 0 dir samples = 0.
Proof. induction samples as [|s samples IH]; [done|]. unfold sampled in *. rewrite total_cons, IH. unfold credit. by rewrite andb_false_r. Qed.

(** A sample goes back to the counter that it came from. *)
Lemma slotOf_share s c id dir : slotOf s = Some c -> id <> 0 -> share c (tsDirection s) (tsTraffic s) id dir = credit id dir s.
Proof.
  unfold slotOf, credit. intros H Hid. rewrite (proj2 (Z.eqb_neq _ _) Hid). destruct (String.eqb_spec (tsResource s) "inbound") as [->|_]; [by injection H as <-|]. destruct (String.eqb_spec (tsResource s) "outbound") as [->|_]; [by injection H as <-|].
  destruct (String.eqb (tsResource s) "user"); [|done]. injection H as <-. cbn. by rewrite andb_true_r.
Qed.

Lemma slotOf_none s id dir : slotOf s = None -> credit id dir s = 0.
Proof. unfold slotOf, credit. destruct (String.eqb (tsResource s) "inbound"), (String.eqb (tsResource s) "outbound"), (String.eqb (tsResource s) "user"); done. Qed.

Lemma restoreStat_spec t s : counters_ok t -> (forall id dir, id <> 0 -> 0 <= credit id dir s /\ usersum t id dir + credit id dir s <= int64_max) ->
  counters_ok (restoreStat t s) /\ forall id dir, id <> 0 -> usersum (restoreStat t s) id dir = usersum t id dir + credit id dir s.
Proof.
  intros Ht Hr. unfold restoreStat. destruct (slotOf s) as [c|] eqn:Hs; [|split; [done|]; intros id dir _; rewrite slotOf_none by done; lia].
  destruct (addCounter_spec (loadOrCreateCounter c t) c (tsDirection s) (tsTraffic s)) as [H1 H2].
  - by apply loadOrCreate_ok.
  - apply loadOrCreate_at.
  - destruct c as [| |name i]; cbn; [done|done|]. intros Hi. rewrite loadOrCreate_usersum. pose proof (slotOf_share s _ i (tsDirection s) Hs Hi) as E. cbn in E. rewrite Z.eqb_refl, Bool.eqb_reflx in E. cbn in E. rewrite E. by apply Hr.
  - split; [done|]. intros id dir Hid. rewrite H2 by done. by rewrite loadOrCreate_usersum, (slotOf_share s c).
Qed.

(** ** Flushes *)
Lemma nonnegative_app l1 l2 : nonnegative l1 -> nonnegative l2 -> nonnegative (l1 ++ l2).
Proof. intros H1 H2 id dir s [H|H]%elem_of_app; auto. Qed.

Lemma ledger_nonneg f id dir : flush_ok f -> id <> 0 -> 0 <= held f id dir.
Proof.
  intros Hf Hid. destruct f as [dt todo down samples|samples|samples]; cbn in *; [|by apply sampled_nonneg|by apply sampled_nonneg]. destruct Hf as [Hn Hd]. pose proof (sampled_nonneg id dir samples Hn).
  destruct down as [v|]; [|lia]. destruct todo as [|[tag|tag|name i] todo]; cbn in *; [lia|lia|lia|]. destruct (Z.eqb_spec i id) as [->|]; [|cbn; lia]. specialize (Hd Hid). destruct dir; cbn; lia.
Qed.

Definition held_by (f : option flush) : ledger := fun id dir => match f with Some f => held f id dir | None => 0 end.

Lemma flushAction_spec f t f' t' : counters_ok t -> flush_ok f -> (forall id dir, id <> 0 -> usersum t id dir + held f id dir <= int64_max) -> flushAction f t = (f', t') ->
  counters_ok t' /\ match f' with Some f' => flush_ok f' | None => True end /\ forall id dir, id <> 0 -> usersum t' id dir + held_by f' id dir = usersum t id dir + held f id dir.
Proof.
  intros Ht Hf Hb H. destruct f as [dt [|s todo] down samples|samples|[|x samples]]; cbn [flushAction] in H.
  - injection H as <- <-. destruct Hf as [Hn _]. split_and!; [done|done|]. intros id dir _. cbn. destruct down; lia.
  - destruct Hf as [Hn Hd]. destruct down as [down|]; destruct (swapCounter s _ t) as [v t1] eqn:Hsw; injection H as <- <-; destruct (swapCounter_spec _ _ _ _ _ Ht Hsw) as (Ht1 & Hv & Hu).
    + destruct (samplesOf_spec s dt down v Hd Hv) as [Hn' Hs]. split_and!; [done|split; [by apply nonnegative_app|done]|]. intros id dir Hid. cbn [held_by held]. unfold sampled in *. rewrite total_app, Hs, Hu by done. lia.
    + split_and!; [done|done|]. intros id dir Hid. cbn [held_by held]. rewrite Hu. lia.
  - injection H as <- <-. done.
  - injection H as <- <-. split_and!; [done|done|]. intros id dir _. done.
  - injection H as <- <-. cbn in Hf. assert (Hx : forall id dir, 0 <= credit id dir x) by (intros id dir; apply Hf; set_solver). assert (Hn : nonnegative samples) by (intros id dir y Hy; apply Hf; set_solver).
    destruct (restoreStat_spec t x Ht) as [H1 H2].
    + intros id dir Hid. split; [done|]. specialize (Hb id dir Hid). cbn [held] in Hb. unfold sampled in Hb. rewrite total_cons in Hb. pose proof (sampled_nonneg id dir samples Hn) as Hs. unfold sampled in Hs. lia.
    + split_and!; [done|done|]. intros id dir Hid. cbn [held_by held]. unfold sampled. rewrite H2, total_cons by done. lia.
Qed.

(** ** The invariant *)
Record balanced (w : world) : Prop := mkBalanced {
  bl_counters : counters_ok (wTracker w);
  bl_flushes : forall f, f ∈ wFlushes w -> flush_ok f;
  bl_saved : forall id dir, id <> 0 -> 0 <= wPosted w id dir /\ 0 <= wLost w id dir;
  bl_conserved : forall id dir, id <> 0 -> wSeen w id dir = unsaved (wTracker w) (wFlushes w) id dir + wPosted w id dir + wLost w id dir;
  bl_rows : forall id c dir, clientRows w !! id = Some c -> side dir (lifetime (cAccount c)) = wBase w id dir + wPosted w id dir
}.

(** Fewer bytes than a counter can hold. *)
Definition bounded (w : world) : Prop := forall id dir, id <> 0 -> wSeen w id dir <= int64_max.

Section Histories.
Context `{!RangeOrder Z, !RangeOrder string, !RangeOrder (string * Z)}.
Context (decodeInbounds : string -> option (list Z)).

Lemma flushes_nonneg fl id dir : (forall f, f ∈ fl -> flush_ok f) -> id <> 0 -> 0 <= total (fun f => held f id dir) fl.
Proof. intros Hf Hid. apply traffic_total_nonneg. intros f Hin. apply ledger_nonneg; auto. Qed.

Lemma balanced_flush w i f id dir : balanced w -> bounded w -> wFlushes w !! i = Some f -> id <> 0 -> usersum (wTracker w) id dir + held f id dir <= int64_max.
Proof.
  intros [B1 B2 B3 B4 _] Hb Hf Hid. specialize (Hb id dir Hid). rewrite B4 in Hb by done. destruct (B3 id dir Hid) as [P1 P2]. unfold unsaved in Hb.
  assert (Hel : held f id dir <= total (fun f => held f id dir) (wFlushes w)) by (apply (total_elem (fun f => held f id dir)); [intros x Hx; apply ledger_nonneg; auto|by eapply list_elem_of_lookup_2]). lia.
Qed.

Lemma balanced_total w id dir : balanced w -> bounded w -> id <> 0 -> usersum (wTracker w) id dir <= wSeen w id dir.
Proof. intros [B1 B2 B3 B4 _] Hb Hid. rewrite B4 by done. destruct (B3 id dir Hid). unfold unsaved. pose proof (flushes_nonneg (wFlushes w) id dir B2 Hid). lia. Qed.

(** The flushes after one of them acted. *)
Definition replace_flush (i : nat) (f : option flush) (fl : list flush) : list flush := match f with Some f => <[i := f]> fl | None => delete i fl end.

Lemma replace_flush_total i f f' fl id dir : fl !! i = Some f -> total (fun f => held f id dir) (replace_flush i f' fl) = total (fun f => held f id dir) fl - held f id dir + held_by f' id dir.
Proof. intros Hf. destruct f' as [f'|]; cbn [replace_flush held_by]; [by rewrite (total_insert _ _ _ f)|]. rewrite (total_delete _ _ _ f) by done. lia. Qed.

Lemma replace_flush_ok i f' fl : (forall f, f ∈ fl -> flush_ok f) -> match f' with Some f' => flush_ok f' | None => True end -> forall f, f ∈ replace_flush i f' fl -> flush_ok f.
Proof.
  intros Hfl Hf' f. destruct f' as [f'|]; cbn [replace_flush].
  - intros [j Hj]%list_elem_of_lookup. destruct (decide (j = i)) as [->|Hne]; [|rewrite list_lookup_insert_ne in Hj by done; apply Hfl; by eapply list_elem_of_lookup_2].
    destruct (decide (i < length fl)%nat); [rewrite list_lookup_insert_eq in Hj by done; by injection Hj as <-|]. rewrite list_insert_ge in Hj by lia. apply Hfl. by eapply list_elem_of_lookup_2.
  - intros Hin. apply Hfl. eapply elem_of_submseteq; [exact Hin|]. apply sublist_submseteq, sublist_delete.
Qed.

Lemma admit_spec t slots : counters_ok t -> counters_ok (trackCounters slots t) /\ forall id dir, usersum (trackCounters slots t) id dir = usersum t id dir.
Proof.
  unfold trackCounters. revert t. induction slots as [|s slots IH]; intros t Ht; cbn [foldl]; [done|]. destruct (IH (loadOrCreateCounter s t)) as [H1 H2]; [by apply loadOrCreate_ok|].
  split; [done|]. intros id dir. rewrite H2. apply loadOrCreate_usersum.
Qed.

(** Rows that keep what they say in all. *)
Lemma lifetimes_kept m m' (base posted : ledger) : evolves (fun _ a a' => lifetime a' = lifetime a) m m' ->
  (forall id c dir, m !! id = Some c -> side dir (lifetime (cAccount c)) = base id dir + posted id dir) -> forall id c dir, m' !! id = Some c -> side dir (lifetime (cAccount c)) = base id dir + posted id dir.
Proof. intros [g Hg] Hm id c' dir. destruct (Hg id) as [-> HR]. intros (c & Hc & ->)%fmap_Some. rewrite (HR c Hc). by apply Hm. Qed.

(** A row that is written as it is. *)
Lemma lifetimes_rebased (m : gmap Z Client) id c (base posted : ledger) : (forall id c dir, m !! id = Some c -> side dir (lifetime (cAccount c)) = base id dir + posted id dir) ->
  forall i c' dir, <[id := c]> m !! i = Some c' -> side dir (lifetime (cAccount c')) = rebase id (cAccount c) posted base i dir + posted i dir.
Proof.
  intros Hm i c' dir. unfold rebase. destruct (Z.eqb_spec i id) as [->|Hne]; [rewrite lookup_insert_eq; intros [= <-]; lia|]. rewrite lookup_insert_ne by done. apply Hm.
Qed.

Lemma kept_lifetimes m m' : evolves (fun _ => kept) m m' -> evolves (fun _ a a' => lifetime a' = lifetime a) m m'.
Proof. apply evolves_impl. intros _ a a' []. done. Qed.

Lemma step_seen l w w' : step decodeInbounds l w w' -> forall id dir, wSeen w id dir <= wSeen w' id dir.
Proof.
  intros H id dir. destruct H; cbn; try lia. unfold post, share. destruct s as [| |name i]; [lia|lia|]. destruct (_ && _); lia.
Qed.

Lemma step_balanced l w w' : step decodeInbounds l w w' -> bounded w' -> balanced w -> balanced w'.
Proof.
  intros Hs Hb' Hw. assert (Hb : bounded w) by (intros id dir Hid; etrans; [by eapply step_seen|by apply Hb']). pose proof Hw as [B1 B2 B3 B4 B5].
  destruct Hs; unfold clientRows in *; cbn [wStore wOnlines wTracker wFlushes wSeen wPosted wLost wBase sDb with_rows dClients] in *.
  - destruct (admit_spec t (getReadCounters inbound outbound user uid) B1) as [A1 A2]. constructor; cbn; try done. intros id dir Hid. unfold unsaved. rewrite A2. by apply B4.
  - destruct (addCounter_spec t s dir n B1) as [A1 A2]; [done| |].
    { destruct s as [| |name i]; cbn; [done|done|]. intros Hi. split; [done|]. specialize (Hb' i dir Hi). cbn in Hb'. unfold post, share in Hb'. rewrite Z.eqb_refl, Bool.eqb_reflx in Hb'. cbn in Hb'. pose proof (balanced_total _ i dir Hw Hb Hi) as Hs. cbn in Hs. lia. }
    constructor; cbn; try done. intros id b Hid. unfold unsaved, post. rewrite A2, B4 by done. unfold unsaved. lia.
  - constructor; cbn; try done.
    + intros f [Hf|Hf%list_elem_of_singleton]%elem_of_app; [by apply B2|subst f]. cbn. split; [|done]. intros id dir s Hin. by apply not_elem_of_nil in Hin.
    + intros id dir Hid. rewrite B4 by done. unfold unsaved, startFlush. rewrite total_app, total_cons. cbn [held]. change (sampled id dir []) with 0. change (total _ []) with 0. lia.
  - rename H into Hf, H0 into Ha. destruct (flushAction_spec f t f' t' B1 (B2 f (list_elem_of_lookup_2 _ _ _ Hf)) (fun id dir Hid => balanced_flush _ i f id dir Hw Hb Hf Hid) Ha) as (A1 & A2 & A3).
    constructor; cbn; try done; [by apply (replace_flush_ok i f')|]. intros id dir Hid. rewrite B4 by done. unfold unsaved. fold (replace_flush i f' fl). rewrite (replace_flush_total i f f') by done. specialize (A3 id dir Hid). lia.
  - rename H into Hf, H0 into Hsave. assert (Hn : nonnegative samples) by (apply (B2 (Saving samples)); by eapply list_elem_of_lookup_2).
    assert (Hmax : forall id dir, sampled id dir samples <= int64_max).
    { intros id dir. destruct (decide (id = 0)) as [->|Hid]; [by rewrite sampled_nobody|]. pose proof (balanced_flush _ i _ id dir Hw Hb Hf Hid) as Hx. pose proof (usersum_nonneg t id dir B1 Hid). cbn in Hx. lia. }
    pose proof (saveStats_rows _ _ _ _ _ _ _ _ Hsave Hn Hmax) as Hrows. fold (replace_flush i (afterSave saved samples) fl). constructor; cbn; unfold clientRows; cbn [wStore sDb].
    + done.
    + apply replace_flush_ok; [done|]. by destruct saved.
    + intros id dir Hid. destruct (B3 id dir Hid). split; [|done]. pose proof (sampled_nonneg id dir samples Hn). destruct saved; unfold post; lia.
    + intros id dir Hid. rewrite B4 by done. unfold unsaved. rewrite (replace_flush_total i _ _ _ _ _ Hf). destruct saved; cbn; unfold post; lia.
    + intros id c dir. rewrite Hrows. destruct saved; [|apply B5]. rewrite map_lookup_imap. destruct (dClients (sDb st) !! id) as [c0|] eqn:Hc0; [|done]. intros [= <-]. specialize (B5 id c0 dir Hc0). unfold post. revert B5. destruct dir; cbn; lia.
  - destruct (swapCounter_spec t s dir v t' B1) as (A1 & A2 & A3); [done|]. constructor; cbn; try done.
    + intros id b Hid. destruct (B3 id b Hid). split; [done|]. unfold post, share. destruct s as [| |name i]; cbn; [lia|lia|]. cbn in A2. destruct (Z.eqb_spec i id) as [->|]; [|cbn; lia]. specialize (A2 Hid). destruct (Bool.eqb dir b); cbn; lia.
    + intros id b Hid. rewrite B4 by done. unfold unsaved, post. rewrite A3. lia.
  - constructor; cbn; try done.
    + intros f Hf. by apply not_elem_of_nil in Hf.
    + intros id dir Hid. destruct (B3 id dir Hid). split; [done|]. unfold post, unsaved. pose proof (usersum_nonneg t id dir B1 Hid). pose proof (flushes_nonneg fl id dir B2 Hid). lia.
    + intros id dir Hid. rewrite B4 by done. unfold post, unsaved at 2. cbn. unfold usersum. cbn. change (total _ []) with 0. rewrite msum_empty. lia.
  - constructor; cbn; try done. unfold clientRows; cbn. eapply lifetimes_kept; [eapply kept_lifetimes, DepleteClients_rows; eassumption|done].
  - constructor; cbn; try done. unfold clientRows; cbn. eapply lifetimes_kept; [eapply kept_lifetimes, ResetTraffic_evolves; eassumption|done].
  - constructor; cbn; try done. unfold clientRows; cbn. eapply lifetimes_kept; [|exact B5]. eapply evolves_one; [done|eassumption|]. by eapply renewed_lifetime.
  - constructor; cbn; try done. unfold clientRows; cbn. by apply lifetimes_rebased.
  - constructor; cbn; try done. unfold clientRows; cbn. by apply lifetimes_rebased.
  - constructor; cbn; try done. unfold clientRows; cbn. intros i c dir [_ H]%lookup_delete_Some. by apply B5.
Qed.

(** C4: every byte of a client is accounted for, once.  Over every history in which
    connections, flushes, failing transactions, runs of the job, resets, payments, refunds,
    restarts and administrators interleave, while a client sends and receives fewer than
    2^63 bytes: what the connections saw of a client is what is in the counters and in the
    flushes under way, and what was saved, and what was lost with a tracker; and the total and
    the current counter of a row together say what the row said when it was last written as
    it is, and what was saved since. *)
Theorem traffic_accounted_once labels w w' :
  history decodeInbounds labels w w' -> balanced w -> bounded w' ->
  (forall id dir, id <> 0 -> wSeen w' id dir = unsaved (wTracker w') (wFlushes w') id dir + wPosted w' id dir + wLost w' id dir) /\
  (forall id c, clientRows w' !! id = Some c ->
     cTotalUp (cAccount c) + cUp (cAccount c) = wBase w' id true + wPosted w' id true /\ cTotalDown (cAccount c) + cDown (cAccount c) = wBase w' id false + wPosted w' id false).
Proof.
  intros H Hw Hb. assert (Hw' : balanced w').
  { induction H as [w|l labels w w1 w2 Hh IH Hs]; [done|]. eapply step_balanced; [done|done|]. apply IH; [done|]. intros id dir Hid. etrans; [by eapply step_seen|by apply Hb]. }
  split; [apply (bl_conserved _ Hw')|]. intros id c Hc. split; [apply (bl_rows _ Hw' id c true Hc)|apply (bl_rows _ Hw' id c false Hc)].
Qed.
End Histories.

(** ** A client that sends five bytes while a flush fails *)
Module Demo.
#[local] Instance orderZ : RangeOrder Z := canonical_order Z.
#[local] Instance orderS : RangeOrder string := canonical_order string.
#[local] Instance orderU : RangeOrder (string * Z) := canonical_order (string * Z).

Definition decode (s : string) : option (list Z) := None.
Definition row : Client := mkAccess (mkClient true "" "alice" "[1]" 0 0 0 10 100 0) false false 0 0.
Definition manual : Client := mkAccess (mkClient false ClientDisabledManual "bob" "[1]" 0 0 0 0 0 0) false false 0 0.
Definition start : world :=
  mkWorld (mkStore (mkDb {[1 := row; 2 := manual]} [] []) 0) (mkOnlines [] [] []) NewStatsTracker [] nothing nothing nothing
    (fun id dir => if id =? 1 then if dir then 110 else 0 else 0).

Lemma start_balanced : balanced start.
Proof.
  constructor.
  - intros name id c H. cbn in H. rewrite lookup_empty in H. done.
  - intros f Hf. by apply not_elem_of_nil in Hf.
  - intros id dir _. done.
  - intros id dir _. unfold unsaved, usersum. cbn. by rewrite msum_empty.
  - intros id c dir Hc. unfold clientRows, start in Hc. cbn in Hc. apply lookup_insert_Some in Hc as [[<- <-]|[Hne [<- <-]%lookup_singleton_Some]]; by destruct dir.
Qed.

Definition deplete_by (faults : list bool) (w : world) : world :=
  mkWorld (DepleteClients decode 100 (wStore w) faults).2 (wOnlines w) (wTracker w) (wFlushes w) (wSeen w) (wPosted w) (wLost w) (wBase w).
Definition admit_alice (w : world) : world :=
  mkWorld (wStore w) (wOnlines w) (trackCounters (getReadCounters "" "" "alice" 1) (wTracker w)) (wFlushes w) (wSeen w) (wPosted w) (wLost w) (wBase w).
Definition upload (n : Z) (w : world) : world :=
  mkWorld (wStore w) (wOnlines w) (addCounter (SlotUser "alice" 1) true n (wTracker w)) (wFlushes w) (post (wSeen w) (share (SlotUser "alice" 1) true n)) (wPosted w) (wLost w) (wBase w).
Definition begin (w : world) : world :=
  mkWorld (wStore w) (wOnlines w) (wTracker w) (wFlushes w ++ [startFlush 7 (wTracker w)]) (wSeen w) (wPosted w) (wLost w) (wBase w).
Definition act (w : world) : world :=
  match wFlushes w !! 0%nat with
  | Some f => mkWorld (wStore w) (wOnlines w) (flushAction f (wTracker w)).2 (match (flushAction f (wTracker w)).1 with Some f' => <[0%nat := f']> (wFlushes w) | None => delete 0%nat (wFlushes w) end) (wSeen w) (wPosted w) (wLost w) (wBase w)
  | None => w
  end.
Definition save (faults : list bool) (w : world) : world :=
  match wFlushes w !! 0%nat with
  | Some (Saving samples) =>
      let r := saveStatsSamples false samples (sDb (wStore w)) (wOnlines w) faults in
      mkWorld (mkStore r.1.2 (sLastUpdate (wStore w))) r.2 (wTracker w) (match afterSave r.1.1 samples with Some f' => <[0%nat := f']> (wFlushes w) | None => delete 0%nat (wFlushes w) end)
        (wSeen w) (if r.1.1 then post (wPosted w) (fun id dir => sampled id dir samples) else wPosted w) (wLost w) (wBase w)
  | _ => w
  end.

Lemma act_step w : is_Some (wFlushes w !! 0%nat) -> step decode None w (act w).
Proof. intros [f Hf]. unfold act. rewrite Hf. destruct w. cbn in *. eapply StepFlush; [exact Hf|apply surjective_pairing]. Qed.

Lemma save_step w samples faults : wFlushes w !! 0%nat = Some (Saving samples) -> step decode None w (save faults w).
Proof. intros Hf. unfold save. rewrite Hf. destruct w. cbn in *. eapply StepSave; [exact Hf|]. by rewrite <- !surjective_pairing. Qed.

Lemma deplete_step w faults : step decode None w (deplete_by faults w).
Proof. destruct w. eapply StepDeplete. apply surjective_pairing. Qed.

Lemma admit_step w : step decode None w (admit_alice w).
Proof. destruct w. apply StepAdmit. Qed.

Lemma begin_step w : step decode None w (begin w).
Proof. destruct w. apply StepStart. Qed.

Lemma upload_step w n : 0 <= n -> is_Some (counterAt (wTracker w) (SlotUser "alice" 1)) -> step decode None w (upload n w).
Proof. destruct w. intros. by apply StepTraffic. Qed.

(** The flush fails, three more bytes arrive, the samples go back, and the next flush saves all of them. *)
Definition first : world := act (act (act (begin (upload 2 (admit_alice (deplete_by [true] start)))))).
Definition failed : world := act (act (act (upload 3 (save [false; true] first)))).
Definition final : world := deplete_by [] (save [] (act (act (act (begin failed))))).

Lemma traffic_accounted_once_witness : exists c, clientRows final !! 1 = Some c /\ cTotalUp (cAccount c) + cUp (cAccount c) = 110 + 5 /\ wSeen final 1 true = unsaved (wTracker final) (wFlushes final) 1 true + 5 + 0.
Proof.
  assert (H : history decode (repeat None 18) start final).
  { unfold final, failed, first. cbn [repeat].
    eapply HistoryStep; [|apply deplete_step]. eapply HistoryStep; [|eapply save_step; vm_compute; reflexivity]. do 3 (eapply HistoryStep; [|apply act_step; vm_compute; eexists; reflexivity]). eapply HistoryStep; [|apply begin_step].
    do 3 (eapply HistoryStep; [|apply act_step; vm_compute; eexists; reflexivity]). eapply HistoryStep; [|apply upload_step; [discriminate|vm_compute; eexists; reflexivity]]. eapply HistoryStep; [|eapply save_step; vm_compute; reflexivity].
    do 3 (eapply HistoryStep; [|apply act_step; vm_compute; eexists; reflexivity]). eapply HistoryStep; [|apply begin_step]. eapply HistoryStep; [|apply upload_step; [discriminate|vm_compute; eexists; reflexivity]].
    eapply HistoryStep; [|apply admit_step]. eapply HistoryStep; [|apply deplete_step].
    apply HistoryNil. }
  destruct (traffic_accounted_once decode _ start final H start_balanced) as [H1 H2].
  - intros id dir _. transitivity 5; [|discriminate]. change (post (post nothing (share (SlotUser "alice" 1) true 2)) (share (SlotUser "alice" 1) true 3) id dir <= 5). unfold post, share, nothing. destruct (_ && _); discriminate.
  - destruct (clientRows final !! 1) as [c|] eqn:Hc; [|vm_compute in Hc; discriminate]. exists c. split; [reflexivity|]. split; [destruct (H2 1 c Hc) as [-> _]; vm_compute; reflexivity|].
    rewrite (H1 1 true) by discriminate. vm_compute. reflexivity.
Defined.
End Demo.
