(* ===== verification/TrafficSummary.v ===== *)
(** * Summaries of traffic ([service/stats.go])

    The summary of the inbound traffic over a window: SQL groups the samples into buckets by
    their time, Go adds the groups up.  The model keeps the 64-bit sums of Go; the sums of SQL
    are exact.  The theorem says that the summary counts every sample of the window once, in
    the bucket of its time. *)

From S2P Require Import Prelude GoStrings ClientAccess TrafficSamples.

Open Scope string_scope.
Open Scope list_scope.
Open Scope Z_scope.

Definition defaultTrafficSummaryHours : Z := 24.
Definition maxTrafficSummaryHours : Z := 24 * 366.
Definition defaultTrafficBucketCount : Z := 48.
Definition maxTrafficBucketCount : Z := 720.

Record TrafficBucket := mkBucket { bkStartTime : Z; bkEndTime : Z; bkDownload : Z; bkUpload : Z }.

Record TrafficSummary := mkSummary { smStartTime : Z; smEndTime : Z; smRange : Z; smBuckets : list TrafficBucket; smDownload : Z; smUpload : Z }.

Record trafficSummaryWindow := mkWindow { wnLimitHours : Z; wnBucketCount : Z; wnStartTime : Z; wnEndTime : Z; wnBucketSpan : Z }.

Record trafficAggregateRow := mkAggregate { agBucket : Z; agDirection : bool; agTraffic : Z }.

Definition newTrafficSummaryWindow (limitHours bucketCount endTime now : Z) : trafficSummaryWindow :=
  let limitHours := if limitHours <=? 0 then defaultTrafficSummaryHours else limitHours in
  let limitHours := if maxTrafficSummaryHours <? limitHours then maxTrafficSummaryHours else limitHours in
  let bucketCount := if bucketCount <=? 0 then defaultTrafficBucketCount else bucketCount in
  let bucketCount := if maxTrafficBucketCount <? bucketCount then maxTrafficBucketCount else bucketCount in
  let endTime := if endTime <=? 0 then now else endTime in
  let startTime := wrap64 (endTime - limitHours * 3600) in
  let startTime := if startTime <? 0 then 0 else startTime in
  let span := wrap64 (endTime - startTime) in
  let span := if span <=? 0 then 1 else span in
  let bucketSpan := Z.quot (wrap64 (span + bucketCount - 1)) bucketCount in
  let bucketSpan := if bucketSpan <=? 0 then 1 else bucketSpan in
  mkWindow limitHours bucketCount startTime endTime bucketSpan.

Definition newBucket (window : trafficSummaryWindow) (i : Z) : TrafficBucket :=
  let bucketStart := wrap64 (wnStartTime window + i * wnBucketSpan window) in
  let bucketStart := if wnEndTime window <? bucketStart then wnEndTime window else bucketStart in
  let bucketEnd := wrap64 (bucketStart + wnBucketSpan window) in
  let bucketEnd := if wnEndTime window <? bucketEnd then wnEndTime window else bucketEnd in
  mkBucket bucketStart bucketEnd 0 0.

Definition newTrafficBuckets (window : trafficSummaryWindow) : list TrafficBucket :=
  (fun i => newBucket window (Z.of_nat i)) <$> seq 0 (Z.to_nat (wnBucketCount window)).

(** The [CASE] expression of the query: integer division of SQL. *)
Definition bucketOf (window : trafficSummaryWindow) (s : Stats) : Z :=
  let bucket := Z.quot (stDateTime s - wnStartTime window) (wnBucketSpan window) in
  if wnBucketCount window <=? bucket then wnBucketCount window - 1 else bucket.

Definition inWindow (window : trafficSummaryWindow) (s : Stats) : bool :=
  String.eqb (stResource s) "inbound" && (wnStartTime window <=? stDateTime s) && (stDateTime s <=? wnEndTime window).

(** [GROUP BY bucket, direction] with [SUM(traffic)]. *)
Definition addGroup (window : trafficSummaryWindow) (groups : gmap (Z * bool) Z) (s : Stats) : gmap (Z * bool) Z :=
  if inWindow window s then let key := (bucketOf window s, stDirection s) in <[key := default 0 (groups !! key) + stTraffic s]> groups else groups.

Definition groupTraffic (window : trafficSummaryWindow) (rows : list Stats) : gmap (Z * bool) Z := foldl (addGroup window) ∅ rows.

Definition credited (row : trafficAggregateRow) (b : TrafficBucket) : TrafficBucket :=
  if agDirection row then mkBucket (bkStartTime b) (bkEndTime b) (bkDownload b) (wrap64 (bkUpload b + agTraffic row))
  else mkBucket (bkStartTime b) (bkEndTime b) (wrap64 (bkDownload b + agTraffic row)) (bkUpload b).

(** The buckets, the download and the upload. *)
Definition applyRow (acc : list TrafficBucket * Z * Z) (row : trafficAggregateRow) : list TrafficBucket * Z * Z :=
  let '(buckets, download, upload) := acc in
  if (agBucket row <? 0) || (Z.of_nat (length buckets) <=? agBucket row) then acc
  else
    let buckets := alter (credited row) (Z.to_nat (agBucket row)) buckets in
    if agDirection row then (buckets, download, wrap64 (upload + agTraffic row)) else (buckets, wrap64 (download + agTraffic row), upload).

Definition applyTrafficAggregateRows (buckets : list TrafficBucket) (rows : list trafficAggregateRow) : list TrafficBucket * Z * Z :=
  foldl applyRow (buckets, 0, 0) rows.

Section Summary.
Context `{!RangeOrder (Z * bool)}.

Definition queryInboundTrafficBuckets (window : trafficSummaryWindow) (rows : list Stats) : list trafficAggregateRow :=
  (fun kv : (Z * bool) * Z => mkAggregate kv.1.1 kv.1.2 kv.2) <$> range (groupTraffic window rows).

Definition GetInboundTrafficSummary (limitHours bucketCount endTime now : Z) (rows : list Stats) : TrafficSummary :=
  let window := newTrafficSummaryWindow limitHours bucketCount endTime now in
  let '(buckets, download, upload) := applyTrafficAggregateRows (newTrafficBuckets window) (queryInboundTrafficBuckets window rows) in
  mkSummary (wnStartTime window) (wnEndTime window) (wnLimitHours window) buckets download upload.
End Summary.

(** ** The groups *)
Lemma total_perm {A} (f : A -> Z) l l' : l ≡ₚ l' -> total f l = total f l'.
Proof. unfold total. induction 1; cbn; lia. Qed.

Lemma total_fmap {A B} (f : B -> Z) (g : A -> B) l : total f (g <$> l) = total (fun a => f (g a)) l.
Proof. induction l as [|a l IH]; [done|]. by rewrite fmap_cons, !total_cons, IH. Qed.

Lemma total_ext {A} (f g : A -> Z) l : (forall a, a ∈ l -> f a = g a) -> total f l = total g l.
Proof. induction l as [|a l IH]; intros H; [done|]. rewrite !total_cons, IH, (H a); [done|set_solver|]. intros b Hb. apply H. set_solver. Qed.

(** The traffic of the samples that satisfy a condition. *)
Definition trafficOf (p : Stats -> bool) (rows : list Stats) : Z := total (fun s => if p s then stTraffic s else 0) rows.

Section Facts.
Context `{!RangeOrder (Z * bool)}.
Implicit Types (window : trafficSummaryWindow) (rows : list Stats).

Lemma total_range (f : Z * bool -> Z -> Z) m : total (fun kv => f kv.1 kv.2) (range m) = msum f m.
Proof. rewrite (total_perm _ _ _ (range_perm m)). unfold msum, total. rewrite map_fold_foldr. induction (map_to_list m) as [|[k v] l IH]; [done|]. cbn. by rewrite IH. Qed.

(** Grouping keeps the sums of every set of keys. *)
Lemma group_sum window (p : Z * bool -> bool) rows :
  msum (fun k v => if p k then v else 0) (groupTraffic window rows) = trafficOf (fun s => inWindow window s && p (bucketOf window s, stDirection s)) rows.
Proof.
  unfold groupTraffic, trafficOf. induction rows as [|s rows IH] using rev_ind; [apply msum_empty|]. rewrite foldl_snoc, total_app, total_cons. change (total _ []) with 0. unfold addGroup at 1. destruct (inWindow window s); cbn [andb]; [|lia].
  destruct (foldl _ _ rows !! (bucketOf window s, stDirection s)) as [v|] eqn:E.
  - rewrite (msum_set _ _ _ v) by done. rewrite IH. change (default 0 (Some v)) with v. destruct (p _); lia.
  - rewrite msum_new by done. rewrite IH. change (default 0 (@None Z)) with 0. destruct (p _); lia.
Qed.

Lemma query_sum window (p : Z * bool -> bool) rows :
  total (fun r => if p (agBucket r, agDirection r) then agTraffic r else 0) (queryInboundTrafficBuckets window rows) = trafficOf (fun s => inWindow window s && p (bucketOf window s, stDirection s)) rows.
Proof.
  unfold queryInboundTrafficBuckets. rewrite total_fmap. rewrite <- group_sum, <- total_range. apply total_ext. intros [[i d] v] _. done.
Qed.

Lemma group_keys window rows k v : groupTraffic window rows !! k = Some v -> exists s, s ∈ rows /\ inWindow window s = true /\ k = (bucketOf window s, stDirection s).
Proof.
  unfold groupTraffic. revert v. induction rows as [|s rows IH] using rev_ind; intros v; [done|]. rewrite foldl_snoc. unfold addGroup at 1. destruct (inWindow window s) eqn:E.
  - intros [[<- _]|[_ H]]%lookup_insert_Some; [exists s; set_solver|]. destruct (IH _ H) as (x & Hx & H'). exists x. set_solver.
  - intros H. destruct (IH _ H) as (x & Hx & H'). exists x. set_solver.
Qed.

Lemma group_nonneg window rows k v : (forall s, s ∈ rows -> 0 <= stTraffic s) -> groupTraffic window rows !! k = Some v -> 0 <= v.
Proof.
  unfold groupTraffic. revert k v. induction rows as [|s rows IH] using rev_ind; intros k v Hn; [done|]. rewrite foldl_snoc. unfold addGroup at 1.
  assert (Hn' : forall x, x ∈ rows -> 0 <= stTraffic x) by set_solver. destruct (inWindow window s); [|by apply IH]. intros [[<- <-]|[_ H]]%lookup_insert_Some; [|by apply (IH k)].
  specialize (Hn s ltac:(set_solver)). destruct (foldl _ _ rows !! _) as [x|] eqn:E; [pose proof (IH _ _ Hn' E)|]; cbn; lia.
Qed.

(** ** Adding the groups up *)
Definition aggregated (p : trafficAggregateRow -> bool) (l : list trafficAggregateRow) : Z := total (fun r => if p r then agTraffic r else 0) l.

Definition of_bucket (i : Z) (dir : bool) (r : trafficAggregateRow) : bool := (agBucket r =? i) && Bool.eqb (agDirection r) dir.

Definition of_direction (dir : bool) (r : trafficAggregateRow) : bool := Bool.eqb (agDirection r) dir.

Lemma aggregated_snoc p l r : aggregated p (l ++ [r]) = aggregated p l + (if p r then agTraffic r else 0).
Proof. unfold aggregated. rewrite total_app, total_cons. change (total _ []) with 0. lia. Qed.

Lemma aggregated_mono p q l : (forall r, r ∈ l -> 0 <= agTraffic r) -> (forall r, p r = true -> q r = true) -> 0 <= aggregated p l <= aggregated q l.
Proof.
  intros Hn Hpq. induction l as [|r l IH]; [done|]. unfold aggregated in *. rewrite !total_cons. specialize (IH ltac:(set_solver)). specialize (Hn r ltac:(set_solver)). specialize (Hpq r).
  destruct (p r); [rewrite Hpq by done; lia|]. destruct (q r); lia.
Qed.

Lemma apply_spec buckets l : (forall r, r ∈ l -> 0 <= agBucket r < Z.of_nat (length buckets) /\ 0 <= agTraffic r) -> (forall dir, aggregated (of_direction dir) l <= int64_max) ->
  (forall i b, buckets !! i = Some b -> bkDownload b = 0 /\ bkUpload b = 0) ->
  exists buckets', applyTrafficAggregateRows buckets l = (buckets', aggregated (of_direction false) l, aggregated (of_direction true) l) /\ length buckets' = length buckets /\
    forall i b, buckets !! i = Some b -> buckets' !! i = Some (mkBucket (bkStartTime b) (bkEndTime b) (aggregated (of_bucket (Z.of_nat i) false) l) (aggregated (of_bucket (Z.of_nat i) true) l)).
Proof.
  unfold applyTrafficAggregateRows. induction l as [|r l IH] using rev_ind; intros Hl Hmax Hzero.
  - exists buckets. split_and!; [done|done|]. intros i b Hb. destruct (Hzero i b Hb) as [E1 E2]. rewrite Hb. destruct b. cbn in *. by subst.
  - assert (Hl' : forall r, r ∈ l -> 0 <= agBucket r < Z.of_nat (length buckets) /\ 0 <= agTraffic r) by (intros; apply Hl; set_solver). destruct (Hl r ltac:(set_solver)) as [Hr Hn].
    assert (Hn' : forall x, x ∈ l -> 0 <= agTraffic x) by (intros x Hx; by apply Hl').
    assert (Hm : forall dir, aggregated (of_direction dir) l + (if of_direction dir r then agTraffic r else 0) <= int64_max) by (intros dir; rewrite <- aggregated_snoc; apply Hmax).
    destruct IH as (bs & E & Hlen & Hbs); [done| |done|]. { intros dir. specialize (Hm dir). destruct (of_direction dir r); lia. }
    assert (Hb : forall i dir, 0 <= aggregated (of_bucket i dir) l <= aggregated (of_direction dir) l) by (intros i dir; apply aggregated_mono; [done|]; intros x; unfold of_bucket; by intros [_ ?]%andb_true_iff).
    assert (Hw : forall dir v, 0 <= v <= aggregated (of_direction dir) l -> agDirection r = dir -> wrap64 (v + agTraffic r) = v + agTraffic r).
    { intros dir v Hv <-. specialize (Hm (agDirection r)). unfold of_direction in Hm. rewrite Bool.eqb_reflx in Hm. apply wrap64_id. unfold in_int64, int64_min, int64_max in *. unfold of_direction in Hv. lia. }
    assert (Hself : forall dir, 0 <= aggregated (of_direction dir) l <= aggregated (of_direction dir) l) by (intros dir; by apply aggregated_mono).
    rewrite foldl_snoc, E. unfold applyRow. rewrite Hlen, (proj2 (Z.ltb_ge _ _)), (proj2 (Z.leb_gt _ _)) by lia. cbn [orb]. eexists. split_and!.
    + rewrite !aggregated_snoc. change (of_direction false r) with (Bool.eqb (agDirection r) false). change (of_direction true r) with (Bool.eqb (agDirection r) true). destruct (agDirection r) eqn:Hd; cbn [Bool.eqb]; rewrite (Hw _ _ (Hself _) eq_refl), Z.add_0_r; reflexivity.
    + by rewrite length_alter.
    + intros i b Hi. rewrite !aggregated_snoc. change (of_bucket (Z.of_nat i) false r) with ((agBucket r =? Z.of_nat i) && Bool.eqb (agDirection r) false). change (of_bucket (Z.of_nat i) true r) with ((agBucket r =? Z.of_nat i) && Bool.eqb (agDirection r) true). destruct (decide (i = Z.to_nat (agBucket r))) as [->|Hne].
      * rewrite list_lookup_alter_eq, (Hbs _ _ Hi). cbn [fmap option_fmap option_map]. f_equal. rewrite Z2Nat.id, Z.eqb_refl by lia. unfold credited. cbn [andb].
        destruct (agDirection r) eqn:Hd; cbn [Bool.eqb bkStartTime bkEndTime bkDownload bkUpload]; rewrite (Hw _ _ (Hb (agBucket r) _) eq_refl), Z.add_0_r; reflexivity.
      * rewrite list_lookup_alter_ne, (Hbs _ _ Hi) by done. rewrite (proj2 (Z.eqb_neq _ _)) by lia. cbn [andb]. by rewrite !Z.add_0_r.
Qed.

(** ** The window *)
Record window_ok (window : trafficSummaryWindow) : Prop := mkWindowOk {
  wo_start : 0 <= wnStartTime window <= wnEndTime window; wo_end : wnEndTime window <= 2 ^ 62;
  wo_count : 1 <= wnBucketCount window <= maxTrafficBucketCount; wo_span : 1 <= wnBucketSpan window <= 2 ^ 32;
  wo_cover : wnEndTime window - wnStartTime window <= wnBucketCount window * wnBucketSpan window
}.

Lemma newWindow_ok limitHours bucketCount endTime now : 0 < now <= 2 ^ 62 -> endTime <= 2 ^ 62 -> window_ok (newTrafficSummaryWindow limitHours bucketCount endTime now).
Proof.
  intros Hn He. unfold newTrafficSummaryWindow. cbv zeta. unfold maxTrafficSummaryHours, defaultTrafficSummaryHours, maxTrafficBucketCount, defaultTrafficBucketCount.
  set (h := if _ <? (if limitHours <=? 0 then _ else _) then _ else _). set (n := if _ <? (if bucketCount <=? 0 then _ else _) then _ else _). set (e := if endTime <=? 0 then now else endTime).
  assert (Hh : 1 <= h <= 8784) by (unfold h; destruct (Z.leb_spec limitHours 0); match goal with |- context [?a <? ?b] => destruct (Z.ltb_spec a b) end; lia).
  assert (Hc : 1 <= n <= 720) by (unfold n; destruct (Z.leb_spec bucketCount 0); match goal with |- context [?a <? ?b] => destruct (Z.ltb_spec a b) end; lia).
  assert (Hee : 0 < e <= 2 ^ 62) by (unfold e; destruct (Z.leb_spec endTime 0); lia). clearbody h n e.
  rewrite (wrap64_id (e - h * 3600)) by (unfold in_int64, int64_min, int64_max; lia). set (st := if e - h * 3600 <? 0 then 0 else e - h * 3600).
  assert (Hst : 0 <= st < e /\ e - st <= 8784 * 3600) by (unfold st; destruct (Z.ltb_spec (e - h * 3600) 0); lia). clearbody st.
  rewrite (wrap64_id (e - st)) by (unfold in_int64, int64_min, int64_max; lia). rewrite (proj2 (Z.leb_gt (e - st) 0)) by lia.
  rewrite wrap64_id by (unfold in_int64, int64_min, int64_max; lia). rewrite Z.quot_div_nonneg by lia. set (q := (e - st + n - 1) / n).
  pose proof (Z.div_mod (e - st + n - 1) n ltac:(lia)) as Hdm. pose proof (Z.mod_pos_bound (e - st + n - 1) n ltac:(lia)) as Hmb. fold q in Hdm.
  assert (Hq : 1 <= q <= 2 ^ 32) by nia. rewrite (proj2 (Z.leb_gt q 0)) by lia. constructor; cbn; unfold maxTrafficBucketCount; try lia.
Qed.

Lemma bucketOf_range window s : window_ok window -> inWindow window s = true -> 0 <= bucketOf window s < wnBucketCount window.
Proof.
  intros [H1 H2 H3 H4 H5] Hs. unfold inWindow in Hs. bools. destruct Hs as [[_ Ha] Hb]. unfold bucketOf. cbv zeta. rewrite Z.quot_div_nonneg by lia.
  pose proof (Z.div_pos (stDateTime s - wnStartTime window) (wnBucketSpan window) ltac:(lia) ltac:(lia)). destruct (Z.leb_spec (wnBucketCount window) ((stDateTime s - wnStartTime window) / wnBucketSpan window)); lia.
Qed.

(** The bucket of a sample is one whose times enclose it. *)
Lemma bucketOf_encloses window s : window_ok window -> inWindow window s = true ->
  bkStartTime (newBucket window (bucketOf window s)) <= stDateTime s <= bkEndTime (newBucket window (bucketOf window s)).
Proof.
  intros Hw Hs. pose proof (bucketOf_range window s Hw Hs) as Hr. destruct Hw as [H1 H2 H3 H4 H5]. unfold inWindow in Hs. bools. destruct Hs as [[_ Ha] Hb].
  assert (Hi : wnBucketSpan window * bucketOf window s <= stDateTime s - wnStartTime window <= wnBucketSpan window * bucketOf window s + wnBucketSpan window).
  { unfold bucketOf in *. cbv zeta in *. rewrite Z.quot_div_nonneg in * by lia. set (x := stDateTime s - wnStartTime window) in *. pose proof (Z.div_mod x (wnBucketSpan window) ltac:(lia)) as Hdm.
    pose proof (Z.mod_pos_bound x (wnBucketSpan window) ltac:(lia)) as Hmb. destruct (Z.leb_spec (wnBucketCount window) (x / wnBucketSpan window)); [|nia]. nia. }
  set (i := bucketOf window s) in *. clearbody i. unfold newBucket. cbv zeta. cbn [bkStartTime bkEndTime]. unfold maxTrafficBucketCount in H3.
  rewrite (wrap64_id (wnStartTime window + i * wnBucketSpan window)) by (unfold in_int64, int64_min, int64_max; nia).
  rewrite (proj2 (Z.ltb_ge (wnEndTime window) _)) by nia. rewrite wrap64_id by (unfold in_int64, int64_min, int64_max; nia).
  destruct (Z.ltb_spec (wnEndTime window) (wnStartTime window + i * wnBucketSpan window + wnBucketSpan window)); nia.
Qed.

(** C31: the summary of the traffic counts every sample of its window once.  The download and
    the upload are the sums over the inbound samples between the start and the end; each
    bucket has the sums of the samples whose bucket it is; and the bucket of a sample is one
    of the summary, and its times enclose the time of the sample. *)
Theorem traffic_summary_exact limitHours bucketCount endTime now rows :
  0 < now <= 2 ^ 62 -> endTime <= 2 ^ 62 -> (forall s, s ∈ rows -> 0 <= stTraffic s) ->
  let window := newTrafficSummaryWindow limitHours bucketCount endTime now in
  let summary := GetInboundTrafficSummary limitHours bucketCount endTime now rows in
  (forall dir, trafficOf (fun s => inWindow window s && Bool.eqb (stDirection s) dir) rows <= int64_max) ->
  smDownload summary = trafficOf (fun s => inWindow window s && Bool.eqb (stDirection s) false) rows /\
  smUpload summary = trafficOf (fun s => inWindow window s && Bool.eqb (stDirection s) true) rows /\
  Z.of_nat (length (smBuckets summary)) = wnBucketCount window /\
  (forall i b, smBuckets summary !! i = Some b ->
     bkDownload b = trafficOf (fun s => inWindow window s && ((bucketOf window s =? Z.of_nat i) && Bool.eqb (stDirection s) false)) rows /\
     bkUpload b = trafficOf (fun s => inWindow window s && ((bucketOf window s =? Z.of_nat i) && Bool.eqb (stDirection s) true)) rows) /\
  (forall s, s ∈ rows -> inWindow window s = true -> exists b, smBuckets summary !! Z.to_nat (bucketOf window s) = Some b /\ bkStartTime b <= stDateTime s <= bkEndTime b).
Proof.
  cbv zeta. intros Hnow Hend Hn. set (window := newTrafficSummaryWindow limitHours bucketCount endTime now). pose proof (newWindow_ok limitHours bucketCount endTime now Hnow Hend) as Hw. fold window in Hw.
  unfold GetInboundTrafficSummary. cbv zeta. fold window. intros Hmax. set (l := queryInboundTrafficBuckets window rows).
  assert (Hlen : Z.of_nat (length (newTrafficBuckets window)) = wnBucketCount window) by (unfold newTrafficBuckets; rewrite length_fmap, length_seq; destruct Hw; lia).
  assert (Hq : forall i dir, aggregated (of_bucket i dir) l = trafficOf (fun s => inWindow window s && ((bucketOf window s =? i) && Bool.eqb (stDirection s) dir)) rows) by (intros i dir; exact (query_sum window (fun k => (k.1 =? i) && Bool.eqb k.2 dir) rows)).
  assert (Hd : forall dir, aggregated (of_direction dir) l = trafficOf (fun s => inWindow window s && Bool.eqb (stDirection s) dir) rows) by (intros dir; exact (query_sum window (fun k => Bool.eqb k.2 dir) rows)).
  destruct (apply_spec (newTrafficBuckets window) l) as (bs & E & Hbs & Hb).
  - intros r ([[i dir] v] & -> & Hin%elem_of_range)%list_elem_of_fmap. cbn [agBucket agTraffic fst snd]. split; [|by eapply group_nonneg]. destruct (group_keys _ _ _ _ Hin) as (s & _ & Hs & [= -> _]). rewrite Hlen. by apply bucketOf_range.
  - intros dir. rewrite Hd. apply Hmax.
  - intros i b (j & -> & _)%list_lookup_fmap_Some. done.
  - rewrite E. cbn [smDownload smUpload smBuckets]. rewrite !Hd, Hbs. split_and!; [done|done|done| |].
    + intros i b Hi. assert (Hi' : is_Some (newTrafficBuckets window !! i)) by (apply lookup_lt_is_Some; rewrite <- Hbs; by eapply lookup_lt_Some). destruct Hi' as [b0 Hb0]. rewrite (Hb _ _ Hb0) in Hi. injection Hi as <-. cbn. by rewrite !Hq.
    + intros s Hs Hin. pose proof (bucketOf_range window s Hw Hin) as Hr. pose proof (bucketOf_encloses window s Hw Hin) as Henc.
      assert (Hi : newTrafficBuckets window !! Z.to_nat (bucketOf window s) = Some (newBucket window (bucketOf window s))).
      { unfold newTrafficBuckets. rewrite list_lookup_fmap, lookup_seq_lt by lia. cbn. by rewrite Z2Nat.id by lia. }
      rewrite (Hb _ _ Hi). eexists. split; [done|]. exact Henc.
Qed.
End Facts.

(** ** Two samples of a day *)
Module Demo.
#[local] Instance order : RangeOrder (Z * bool) := canonical_order _.

Definition rows : list Stats := [mkStats 90000 "inbound" "in" false 7; mkStats 100000 "inbound" "in" false 5; mkStats 100000 "user" "alice" false 5; mkStats 10 "inbound" "in" true 3].

Lemma traffic_summary_exact_witness : smDownload (GetInboundTrafficSummary 24 48 100000 1 rows) = 12 /\ smUpload (GetInboundTrafficSummary 24 48 100000 1 rows) = 0.
Proof.
  destruct (traffic_summary_exact 24 48 100000 1 rows) as (H1 & H2 & _).
  - split; [reflexivity|discriminate].
  - discriminate.
  - intros s Hs. apply (proj1 (Forall_forall (fun s => 0 <= stTraffic s) rows)); [|exact Hs]. repeat constructor; discriminate.
  - intros [|]; vm_compute; discriminate.
  - split; [rewrite H1; vm_compute; reflexivity|rewrite H2; vm_compute; reflexivity].
Defined.
End Demo.
