(* ===== verification/WireguardDevices.v ===== *)
(** * WireGuard devices of clients ([internal/entities/clients/devices])

    A client may have devices on WireGuard endpoints that it is granted: each has an address
    of the endpoint's network and keys.  The state is a field of the client's configuration;
    every mutation runs in a write transaction, so it is one step on the table.

    The field is kept decoded: JSON round-trips a state, and whether its text fits is a
    parameter, as are the size of a configuration, the length of a decoded base64 key, SHA-256
    in hexadecimal and the keys that are generated and sealed.  The check that the row still
    has the configuration that was read always holds within a write transaction. *)

From S2P Require Import Prelude GoStrings VersionPolicy NetAddr PaidOrders ClientAccess.

Open Scope string_scope.
Open Scope list_scope.
Open Scope Z_scope.

Inductive deviceError := ErrInvalid | ErrUnavailable | ErrLimit | ErrConflict | ErrPool.

Record Grant := mkGrant { gEndpointID : Z; gDeviceLimit : Z }.

Record Observation := mkObservation { obGeneration : string; obPublicKey : string; obReceived : Z; obSent : Z; obLastHandshake : Z; obObservedAt : Z; obPresent : bool }.

Record Record_ := mkRecord {
  dID : string; dEndpointID : Z; dName : string; dAddress : string; dPublicKey : string; dPrivateKey : string; dPresharedKey : string;
  dCreateRequest : string; dRotateRequest : string; dCreatedAt : Z; dExpiresAt : Z; dRevokedAt : Z; dDeletedAt : Z; dRevision : Z; dReleasedAt : Z;
  dUp : Z; dDown : Z; dObservation : Observation
}.

#[export] Instance Observation_eq_dec : EqDecision Observation.
Proof. solve_decision. Defined.
#[export] Instance Record_eq_dec : EqDecision Record_.
Proof. solve_decision. Defined.

Record State := mkState { sVersion : Z; sGrants : list Grant; sDevices : list Record_ }.

(** The configuration of a client: not an object, without the field, with a field that does
    not decode, or with a state. *)
Inductive config := Malformed (hasField : bool) | NoField | UnknownField | Field (s : State).

Record owner := mkOwner { oConfig : config; oAccount : PaidOrders.Client }.

Record Policy := mkPolicy { plEndpointID : Z; plAvailable : bool; plServerPrefix : Prefix; plStaticPrefixes : list Prefix; plDeviceLimit : Z }.

Record Request := mkRequest {
  rqClientID : Z; rqEndpointID : Z; rqDeviceID : string; rqOperation : string; rqRequestKey : string; rqName : string; rqExpiresAt : Z; rqDeviceLimit : Z
}.

(** Keys of a device: public, and private and shared as they are sealed. *)
Record keys := mkKeys { kPublic : string; kPrivate : string; kPreshared : string }.

Definition emptyObservation : Observation := mkObservation "" "" 0 0 0 0 false.

(** ** Texts *)
Definition validID (value : string) : bool := (slen value =? 32) && all_chars (fun c => is_digit c || between 97 102 c) value.

(** The code points of valid UTF-8. *)
Definition continuation (c : Ascii.ascii) : bool := between 128 191 c.

Fixpoint runes (s : string) : option (list Z) :=
  match s with
  | "" => Some []
  | String a s1 =>
      if code a <? 128 then cons (code a) <$> runes s1
      else match s1 with
      | "" => None
      | String b s2 =>
          if between 194 223 a then if continuation b then cons (64 * (code a - 192) + (code b - 128)) <$> runes s2 else None
          else match s2 with
          | "" => None
          | String c s3 =>
              if between 224 239 a then
                let r := 4096 * (code a - 224) + 64 * (code b - 128) + (code c - 128) in
                if continuation b && continuation c && (2048 <=? r) && negb ((55296 <=? r) && (r <=? 57343)) then cons r <$> runes s3 else None
              else match s3 with
              | "" => None
              | String d s4 =>
                  let r := 262144 * (code a - 240) + 4096 * (code b - 128) + 64 * (code c - 128) + (code d - 128) in
                  if between 240 244 a && continuation b && continuation c && continuation d && (65536 <=? r) && (r <=? 1114111) then cons r <$> runes s4 else None
              end
          end
      end
  end.

Definition IsControl (r : Z) : bool := (r <=? 31) || ((127 <=? r) && (r <=? 159)).

Definition validateName (value : string) : bool :=
  match runes value with
  | None => false
  | Some l => String.eqb (TrimSpace value) value && (1 <=? Z.of_nat (length l)) && (Z.of_nat (length l) <=? 64) && forallb (fun r => negb (IsControl r)) l
  end.

(** ** Addresses *)
Definition ipv4Range (prefix : Prefix) : Z * Z :=
  let first := bits_of (pfAddr (Masked prefix)) in (first, first + Z.shiftl 1 (32 - pfBits prefix) - 1).

Definition ipv4Address (value : Z) : Addr := V4 (value mod 2 ^ 32).

(** The address of a device. *)
Definition deviceAddr (d : Record_) : option Addr := pfAddr <$> ParsePrefix (dAddress d).

(** The loop over the candidates, with the jumps over static prefixes. *)
Fixpoint search (fuel : nat) (used : Addr -> bool) (statics : list Prefix) (candidate last : Z) : option Addr :=
  match fuel with
  | O => None
  | S fuel' =>
      if last <=? candidate then None
      else
        let address := ipv4Address candidate in
        if used address then search fuel' used statics (candidate + 1) last
        else match List.find (fun p => PrefixContains p address) statics with
             | None => Some address
             | Some p => let reserved := (ipv4Range p).2 in search fuel' used statics ((if candidate <? reserved then reserved else candidate) + 1) last
             end
  end.

Section Devices.
(** The length of a key in base64, SHA-256, whether a state fits and the size of a configuration. *)
Context (keyLength : string -> option Z) (sha256hex : string -> string) (fits : State -> bool) (configSize : config -> Z).

Definition device_ok (d : Record_) : bool :=
  validID (dID d) && negb (dEndpointID d =? 0) && negb (dRevision d =? 0) &&
  match ParsePrefix (dAddress d), keyLength (dPublicKey d) with Some p, Some n => Is4 (pfAddr p) && (pfBits p =? 32) && (n =? 32) | _, _ => false end.

Definition grant_ok (g : Grant) : bool := negb (gEndpointID g =? 0) && (0 <=? gDeviceLimit g) && (gDeviceLimit g <=? 100).

(** The state of a configuration. *)
Definition load (c : config) : result deviceError State :=
  match c with
  | Malformed _ => Err ErrInvalid
  | NoField => Ok (mkState 1 [] [])
  | UnknownField => Err ErrUnavailable
  | Field s =>
      if (sVersion s =? 1) && (Z.of_nat (length (sGrants s)) <=? 128) && (Z.of_nat (length (sDevices s)) <=? 512)
         && forallb grant_ok (sGrants s) && bool_decide (NoDup (gEndpointID <$> sGrants s))
         && forallb device_ok (sDevices s) && bool_decide (NoDup (dID <$> sDevices s))
      then Ok s else Err ErrUnavailable
  end.

Definition granted (s : State) (endpointID : Z) : option Grant := List.find (fun g => gEndpointID g =? endpointID) (sGrants s).

Definition AvailableRecord (s : State) (d : Record_) (account : PaidOrders.Client) (now : Z) : bool :=
  match granted s (dEndpointID d) with
  | None => false
  | Some _ => Active account now && (dRevokedAt d =? 0) && (dDeletedAt d =? 0) && ((dExpiresAt d =? 0) || (now <? dExpiresAt d))
  end.

Definition status (s : State) (d : Record_) (account : PaidOrders.Client) (now : Z) : string :=
  if negb (dDeletedAt d =? 0) then "deleted"
  else if negb (dRevokedAt d =? 0) then "revoked"
  else if (0 <? dExpiresAt d) && (dExpiresAt d <=? now) then "expired"
  else if negb (AvailableRecord s d account now) then "inactive"
  else "eligible".

(** The rows that have the field, by id. *)
Definition hasField (c : config) : bool := match c with Malformed b => b | NoField => false | UnknownField | Field _ => true end.

Fixpoint ordered (fuel : nat) (m : gmap Z owner) : list (Z * owner) :=
  match fuel with
  | O => []
  | S fuel' =>
      match foldr (fun kv least => match least with Some k => Some (Z.min kv.1 k) | None => Some kv.1 end) None (map_to_list m) with
      | None => []
      | Some k => match m !! k with Some o => (k, o) :: ordered fuel' (delete k m) | None => [] end
      end
  end.

Definition clients (m : gmap Z owner) : result deviceError (list (Z * owner)) :=
  let rows := ordered (size m) (filter (fun kv => hasField (oConfig kv.2) = true) m) in
  if (4096 <? Z.of_nat (length rows)) || (16777216 <? foldr (fun kv acc => configSize (oConfig kv.2) + acc) 0 rows) then Err ErrLimit else Ok rows.

(** The addresses in use on an endpoint. *)
Fixpoint usedBy (endpointID : Z) (devices : list Record_) (used : list Addr) : result deviceError (list Addr) :=
  match devices with
  | [] => Ok used
  | d :: devices' =>
      if negb (dEndpointID d =? endpointID) || (0 <? dReleasedAt d) then usedBy endpointID devices' used
      else match deviceAddr d with
           | None => Err ErrUnavailable
           | Some a => let used := a :: used in if 4096 <=? Z.of_nat (length used) then Err ErrLimit else usedBy endpointID devices' used
           end
  end.

Fixpoint usedByAll (endpointID : Z) (rows : list (Z * owner)) (used : list Addr) : result deviceError (list Addr) :=
  match rows with
  | [] => Ok used
  | kv :: rows' =>
      match load (oConfig kv.2) with
      | Err _ => Err ErrUnavailable
      | Ok s => let? used' := usedBy endpointID (sDevices s) used in usedByAll endpointID rows' used'
      end
  end.

Definition addr_eqb (a b : Addr) : bool := match a, b with V4 x, V4 y => x =? y | V6 x z, V6 y z' => (x =? y) && String.eqb z z' | _, _ => false end.

Definition allocate (policy : Policy) (m : gmap Z owner) : result deviceError Addr :=
  let p := plServerPrefix policy in
  if negb (Is4 (pfAddr p)) || (30 <? pfBits p) then Err ErrPool
  else
    let? rows := clients m in
    let? used := usedByAll (plEndpointID policy) rows [] in
    let '(start, last) := ipv4Range p in
    match search (Z.to_nat (last - start)) (fun a => existsb (addr_eqb a) (pfAddr p :: used)) (plStaticPrefixes policy) (start + 1) last with
    | Some a => Ok a
    | None => Err ErrPool
    end.

(** ** Mutations *)
Definition requestHash (value : string) : result deviceError string :=
  if (slen value <? 16) || (128 <? slen value) || negb (all_chars (between 33 126) value) then Err ErrInvalid else Ok (sha256hex value).

Definition save (m : gmap Z owner) (clientID : Z) (o : owner) (s : State) : result deviceError (gmap Z owner) :=
  if fits s then Ok (<[clientID := mkOwner (Field s) (oAccount o)]> m) else Err ErrLimit.

Definition set_grants (g : list Grant) (s : State) : State := mkState (sVersion s) g (sDevices s).
Definition set_devices (d : list Record_) (s : State) : State := mkState (sVersion s) (sGrants s) d.

Definition grantDevices (r : Request) (s : State) : result deviceError State :=
  if (rqDeviceLimit r <? 0) || (100 <? rqDeviceLimit r) then Err ErrInvalid
  else if existsb (fun g => gEndpointID g =? rqEndpointID r) (sGrants s) then
    Ok (set_grants ((fun g => if gEndpointID g =? rqEndpointID r then mkGrant (gEndpointID g) (rqDeviceLimit r) else g) <$> sGrants s) s)
  else if 128 <=? Z.of_nat (length (sGrants s)) then Err ErrLimit
  else Ok (set_grants (sGrants s ++ [mkGrant (rqEndpointID r) (rqDeviceLimit r)]) s).

Fixpoint removeGrant (endpointID : Z) (l : list Grant) : list Grant :=
  match l with [] => [] | g :: l' => if gEndpointID g =? endpointID then l' else g :: removeGrant endpointID l' end.

(** What the devices of the endpoint say about a creation: a repeated one with its outcome,
    or how many are not deleted. *)
Inductive known := Repeated (same : bool) | Devices (count : Z).

Fixpoint examine (r : Request) (hash : string) (devices : list Record_) (count : Z) : known :=
  match devices with
  | [] => Devices count
  | d :: devices' =>
      if negb (dEndpointID d =? rqEndpointID r) then examine r hash devices' count
      else if String.eqb (dCreateRequest d) hash then Repeated (String.eqb (dName d) (rqName r) && (dExpiresAt d =? rqExpiresAt r) && (dDeletedAt d =? 0))
      else examine r hash devices' (if dDeletedAt d =? 0 then count + 1 else count)
  end.

Definition maxLifetime : Z := 10 * 365 * 24 * 3600.

Definition newRecord (r : Request) (hash id : string) (a : Addr) (k : keys) (now : Z) : Record_ :=
  mkRecord id (rqEndpointID r) (rqName r) (AddrString a +:+ "/32") (kPublic k) (kPrivate k) (kPreshared k) hash "" now (rqExpiresAt r) 0 0 1 0 0 0 emptyObservation.

(** [None]: a repeated request, which changes nothing. *)
Definition createDevice (r : Request) (o : owner) (s : State) (policy : option Policy) (m : gmap Z owner) (id : option string) (k : option keys) (now : Z) : result deviceError (option State) :=
  match policy with
  | None => Err ErrUnavailable
  | Some policy =>
      if negb (plAvailable policy) || negb (Active (oAccount o) now) then Err ErrUnavailable
      else match granted s (rqEndpointID r) with
      | None => Err ErrUnavailable
      | Some grant =>
          match requestHash (rqRequestKey r) with
          | Err _ => Err ErrInvalid
          | Ok hash =>
              if negb (validateName (rqName r)) || (negb (rqExpiresAt r =? 0) && ((rqExpiresAt r <=? now) || (wrap64 (now + maxLifetime) <? rqExpiresAt r))) then Err ErrInvalid
              else match examine r hash (sDevices s) 0 with
              | Repeated same => if same then Ok None else Err ErrConflict
              | Devices count =>
                  let limit := if gDeviceLimit grant =? 0 then plDeviceLimit policy else gDeviceLimit grant in
                  if (limit <? 1) || (100 <? limit) || (limit <=? count) || (512 <=? Z.of_nat (length (sDevices s))) then Err ErrLimit
                  else
                    let? a := allocate policy m in
                    match id, k with
                    | Some id, Some k => Ok (Some (set_devices (sDevices s ++ [newRecord r hash id a k now]) s))
                    | _, _ => Err ErrUnavailable
                    end
              end
          end
      end
  end.

Definition with_keys (k : keys) (hash : string) (d : Record_) : Record_ :=
  mkRecord (dID d) (dEndpointID d) (dName d) (dAddress d) (kPublic k) (kPrivate k) (kPreshared k) (dCreateRequest d) hash (dCreatedAt d) (dExpiresAt d)
    (dRevokedAt d) (dDeletedAt d) (wrapu64 (dRevision d + 1)) (dReleasedAt d) (dUp d) (dDown d) (dObservation d).

Definition with_end (revokedAt deletedAt : Z) (d : Record_) : Record_ :=
  mkRecord (dID d) (dEndpointID d) (dName d) (dAddress d) (dPublicKey d) (dPrivateKey d) (dPresharedKey d) (dCreateRequest d) (dRotateRequest d) (dCreatedAt d) (dExpiresAt d)
    revokedAt deletedAt (wrapu64 (dRevision d + 1)) (dReleasedAt d) (dUp d) (dDown d) (dObservation d).

Definition rotateDevice (r : Request) (o : owner) (s : State) (policy : option Policy) (k : option keys) (now : Z) (d : Record_) : result deviceError (option Record_) :=
  let? hash := requestHash (rqRequestKey r) in
  if String.eqb hash (dRotateRequest d) then Ok None
  else match policy with
  | None => Err ErrUnavailable
  | Some policy =>
      if negb (plAvailable policy) || negb (AvailableRecord s d (oAccount o) now) then Err ErrUnavailable
      else match k with None => Err ErrUnavailable | Some k => Ok (Some (with_keys k hash d)) end
  end.

Definition endDevice (delete : bool) (now : Z) (d : Record_) : option Record_ :=
  if negb (dRevokedAt d =? 0) && (negb delete || negb (dDeletedAt d =? 0)) then None
  else Some (with_end (if dRevokedAt d =? 0 then now else dRevokedAt d) (if delete && (dDeletedAt d =? 0) then now else dDeletedAt d) d).

(** The device of a request. *)
Definition is_device (r : Request) (d : Record_) : bool := String.eqb (dID d) (rqDeviceID r) && (dEndpointID d =? rqEndpointID r).

Definition changeDevice (r : Request) (o : owner) (s : State) (policy : option Policy) (k : option keys) (now : Z) : result deviceError (option State) :=
  match list_find (fun d => is_device r d = true) (sDevices s) with
  | None => Err ErrUnavailable
  | Some (i, d) =>
      let? changed := (if String.eqb (rqOperation r) "rotate" then rotateDevice r o s policy k now d else Ok (endDevice (String.eqb (rqOperation r) "delete") now d)) in
      Ok ((fun d' => set_devices (<[i := d']> (sDevices s)) s) <$> changed)
  end.

(** The state after a request; [None] when nothing is to be saved. *)
Definition mutateState (r : Request) (o : owner) (s : State) (policy : option Policy) (m : gmap Z owner) (id : option string) (k : option keys) (now : Z) : result deviceError (option State) :=
  if String.eqb (rqOperation r) "grant" then
    match policy with
    | Some p => if plAvailable p then let? s' := grantDevices r s in Ok (Some s') else Err ErrUnavailable
    | None => Err ErrUnavailable
    end
  else if String.eqb (rqOperation r) "remove-grant" then Ok (Some (set_grants (removeGrant (rqEndpointID r) (sGrants s)) s))
  else if String.eqb (rqOperation r) "create" then createDevice r o s policy m id k now
  else if String.eqb (rqOperation r) "revoke" || String.eqb (rqOperation r) "delete" || String.eqb (rqOperation r) "rotate" then changeDevice r o s policy k now
  else Err ErrInvalid.

(** [Mutate]: the endpoints that change and the table; [policy] is the answer of the resolver,
    [id] and [k] what the random generator gives, if it does. *)
Definition Mutate (m : gmap Z owner) (r : Request) (policy : option Policy) (id : option string) (k : option keys) (now : Z) : result deviceError (list Z) * gmap Z owner :=
  match m !! rqClientID r with
  | None => (Err ErrUnavailable, m)
  | Some o =>
      if rqClientID r =? 0 then (Err ErrUnavailable, m)
      else match load (oConfig o) with
      | Err e => (Err e, m)
      | Ok s =>
          if rqEndpointID r =? 0 then (Err ErrInvalid, m)
          else match mutateState r o s policy m id k now with
          | Err e => (Err e, m)
          | Ok None => (Ok [], m)
          | Ok (Some s') => match save m (rqClientID r) o s' with Ok m' => (Ok [rqEndpointID r], m') | Err e => (Err e, m) end
          end
      end
  end.

(** ** Accounting *)
Definition addCounter (a b : Z) : Z := if (a <? 0) || (b <? 0) then a else if int64_max - a <? b then int64_max else a + b.

Definition counterDelta (current previous : Z) : Z := if (current <? 0) || (previous <? 0) then 0 else if current <? previous then current else current - previous.

Definition sameSource (generation : string) (d : Record_) : bool := String.eqb (obGeneration (dObservation d)) generation && String.eqb (obPublicKey (dObservation d)) (dPublicKey d).

Definition with_observation (ob : Observation) (up down released : Z) (d : Record_) : Record_ :=
  mkRecord (dID d) (dEndpointID d) (dName d) (dAddress d) (dPublicKey d) (dPrivateKey d) (dPresharedKey d) (dCreateRequest d) (dRotateRequest d) (dCreatedAt d) (dExpiresAt d)
    (dRevokedAt d) (dDeletedAt d) (dRevision d) released up down ob.

(** One device: the record and the traffic that is new. *)
Definition accountRecord (generation : string) (observedAt : Z) (sample : option Observation) (d : Record_) : result deviceError (Record_ * (Z * Z)) :=
  let previous := if sameSource generation d then dObservation d else emptyObservation in
  let released := match sample with None => if (0 <? dDeletedAt d) && (dReleasedAt d =? 0) then observedAt else dReleasedAt d | Some _ => dReleasedAt d end in
  match sample with
  | Some s =>
      if (obReceived s <? 0) || (obSent s <? 0) || (obLastHandshake s <? 0) then Err ErrInvalid
      else
        let u := counterDelta (obReceived s) (obReceived previous) in
        let v := counterDelta (obSent s) (obSent previous) in
        Ok (with_observation (mkObservation generation (dPublicKey d) (obReceived s) (obSent s) (obLastHandshake s) observedAt true) (addCounter (dUp d) u) (addCounter (dDown d) v) released d, (u, v))
  | None =>
      Ok (with_observation (mkObservation generation (dPublicKey d) (obReceived previous) (obSent previous) (obLastHandshake previous) observedAt false) (dUp d) (dDown d) released d, (0, 0))
  end.

Fixpoint accountDevices (endpointID : Z) (generation : string) (observedAt : Z) (samples : gmap string Observation) (devices : list Record_) (up down : Z) : result deviceError (list Record_ * Z * Z) :=
  match devices with
  | [] => Ok ([], up, down)
  | d :: devices' =>
      if negb (dEndpointID d =? endpointID) then
        let? (l, up', down') := accountDevices endpointID generation observedAt samples devices' up down in Ok (d :: l, up', down')
      else
        let? (d', uv) := accountRecord generation observedAt (samples !! dPublicKey d) d in
        let? (l, up', down') := accountDevices endpointID generation observedAt samples devices' (addCounter up uv.1) (addCounter down uv.2) in
        Ok (d' :: l, up', down')
  end.

Record TrafficDelta := mkDelta { tdUserID : Z; tdUp : Z; tdDown : Z }.

Fixpoint accountOwners (endpointID : Z) (generation : string) (observedAt : Z) (samples : gmap string Observation) (rows : list (Z * owner)) (m : gmap Z owner) (deltas : list TrafficDelta)
  : result deviceError (gmap Z owner * list TrafficDelta) :=
  match rows with
  | [] => Ok (m, deltas)
  | (id, o) :: rows' =>
      match load (oConfig o) with
      | Err _ => accountOwners endpointID generation observedAt samples rows' m deltas
      | Ok s =>
          let? (devices, up, down) := accountDevices endpointID generation observedAt samples (sDevices s) 0 0 in
          if decide (devices = sDevices s) then accountOwners endpointID generation observedAt samples rows' m deltas
          else
            let? m' := save m id o (set_devices devices s) in
            if (cUp (oAccount o) <? 0) || (cDown (oAccount o) <? 0) then Err ErrInvalid
            else
              let up := Z.min up (int64_max - cUp (oAccount o)) in
              let down := Z.min down (int64_max - cDown (oAccount o)) in
              accountOwners endpointID generation observedAt samples rows' m' (if (0 <? up) || (0 <? down) then deltas ++ [mkDelta id up down] else deltas)
      end
  end.

Definition Account (m : gmap Z owner) (endpointID : Z) (generation : string) (observedAt : Z) (samples : gmap string Observation) : result deviceError (gmap Z owner * list TrafficDelta) :=
  if String.eqb generation "" || (128 <? slen generation) || (observedAt <=? 0) || (4096 <? Z.of_nat (size samples)) then Err ErrInvalid
  else let? rows := clients m in accountOwners endpointID generation observedAt samples rows m [].

(** ** Peers of the server *)
Definition peerAllowed (policy : Policy) (d : Record_) : bool :=
  match ParsePrefix (dAddress d) with
  | None => false
  | Some address =>
      let '(first, last) := ipv4Range (plServerPrefix policy) in
      let point := (ipv4Range address).1 in
      negb ((point <=? first) || (last <=? point) || addr_eqb (pfAddr address) (pfAddr (plServerPrefix policy)))
      && negb (existsb (fun p => PrefixContains p (pfAddr address)) (plStaticPrefixes policy))
  end.

(** The devices that the server serves; [borrowed] tells whether the shared key is readable. *)
Fixpoint peersOf (policy : Policy) (s : State) (account : PaidOrders.Client) (now : Z) (borrowed : Record_ -> bool) (devices : list Record_) (peers : list Record_) : result deviceError (list Record_) :=
  match devices with
  | [] => Ok peers
  | d :: devices' =>
      if negb (dEndpointID d =? plEndpointID policy) || negb (AvailableRecord s d account now) then peersOf policy s account now borrowed devices' peers
      else if negb (peerAllowed policy d) then Err ErrInvalid
      else if negb (borrowed d) then Err ErrUnavailable
      else let peers := peers ++ [d] in if 4096 <? Z.of_nat (length peers) then Err ErrLimit else peersOf policy s account now borrowed devices' peers
  end.

Fixpoint peersOfAll (policy : Policy) (now : Z) (borrowed : Record_ -> bool) (rows : list (Z * owner)) (peers : list Record_) : result deviceError (list Record_) :=
  match rows with
  | [] => Ok peers
  | (_, o) :: rows' =>
      match load (oConfig o) with
      | Err _ => peersOfAll policy now borrowed rows' peers
      | Ok s => let? peers' := peersOf policy s (oAccount o) now borrowed (sDevices s) peers in peersOfAll policy now borrowed rows' peers'
      end
  end.

Definition RuntimePeers (m : gmap Z owner) (policy : Policy) (now : Z) (borrowed : Record_ -> bool) : result deviceError (list Record_) :=
  if negb (plAvailable policy) then Ok [] else let? rows := clients m in peersOfAll policy now borrowed rows [].
End Devices.
