(* ===== verification/WireguardProperties.v ===== *)
(** * Devices: addresses, limits and traffic
    Theorems about [WireguardDevices]: the allocator finds the least free address; over every
    history no two devices of an endpoint hold the same address, and a client has at most a
    hundred devices on an endpoint; a device's traffic is counted once. *)

From S2P Require Import Prelude GoStrings VersionPolicy NetAddr PaidOrders ClientAccess TrafficStats WireguardDevices.

Open Scope string_scope.
Open Scope list_scope.
Open Scope Z_scope.

(** ** Prefixes of IPv4 *)
Definition prefix_ok (p : Prefix) : Prop := addr_ok (pfAddr p) /\ 0 <= pfBits p <= BitLen (pfAddr p).

Lemma contains_v4 p z : prefix_ok p -> PrefixContains p (V4 z) = true <-> exists q, pfAddr p = V4 q /\ Z.shiftr q (32 - pfBits p) = Z.shiftr z (32 - pfBits p).
Proof.
  intros [_ Hb]. unfold PrefixContains. cbn [Zone BitLen bits_of Is4]. destruct (pfAddr p) as [q|q zone]; cbn [BitLen Is4 bits_of] in *.
  - cbn. rewrite Z.eqb_eq, Z.shiftr_lxor, Z.lxor_eq_0_iff. split; [intros H; by exists q|]. by intros (q' & [= <-] & H).
  - cbn. split; [done|]. by intros (q' & ? & _).
Qed.

(** The rest of a prefix behind one of its addresses belongs to it. *)
Lemma contains_rest p c y : prefix_ok p -> PrefixContains p (V4 c) = true -> 0 <= c <= y -> y <= (ipv4Range p).2 -> PrefixContains p (V4 y) = true.
Proof.
  intros Hp Hc Hy Hl. apply contains_v4 in Hc as (q & Hq & E); [|done]. apply contains_v4; [done|]. exists q. split; [done|]. destruct Hp as [Ha Hb]. rewrite Hq in Ha, Hb. cbn in Ha, Hb.
  unfold ipv4Range, Masked in Hl. cbv zeta in Hl. cbn [fst snd pfAddr pfBits] in Hl. rewrite Hq in Hl. cbn [bits_of] in Hl. unfold mask in Hl. set (k := 32 - pfBits p) in *. assert (Hk : 0 <= k) by lia.
  rewrite E in *. rewrite !Z.shiftl_mul_pow2, !Z.shiftr_div_pow2 in * by lia. assert (0 < 2 ^ k) by (apply Z.pow_pos_nonneg; lia).
  pose proof (Z.div_mod c (2 ^ k) ltac:(lia)). pose proof (Z.mod_pos_bound c (2 ^ k) ltac:(lia)). apply Z.div_unique with (y - c / 2 ^ k * 2 ^ k); [left; nia|nia].
Qed.

(** ** The allocator *)
Section Search.
Context (used : Addr -> bool) (statics : list Prefix) (last : Z).
Context (Hstatics : Forall prefix_ok statics) (Hlast : last <= 2 ^ 32).

(** An address that is neither used nor reserved. *)
Definition free (x : Z) : bool := negb (used (V4 x)) && negb (existsb (fun p => PrefixContains p (V4 x)) statics).

Lemma search_least fuel candidate : 0 <= candidate -> last - candidate <= Z.of_nat fuel ->
  match search fuel used statics candidate last with
  | Some a => exists x, a = V4 x /\ candidate <= x < last /\ free x = true /\ forall y, candidate <= y < x -> free y = false
  | None => forall y, candidate <= y < last -> free y = false
  end.
Proof.
  revert candidate. induction fuel as [|fuel IH]; intros c Hc Hf; cbn [search]; [intros y Hy; lia|]. destruct (Z.leb_spec last c) as [|Hlt]; [intros y Hy; lia|].
  assert (Ha : ipv4Address c = V4 c) by (unfold ipv4Address; rewrite Z.mod_small by lia; done). rewrite Ha.
  (* go on from a later candidate, when none is free before it *)
  assert (Hnext : forall c', c < c' -> (forall y, c <= y < c' -> free y = false) -> match search fuel used statics c' last with
    | Some a => exists x, a = V4 x /\ c <= x < last /\ free x = true /\ forall y, c <= y < x -> free y = false
    | None => forall y, c <= y < last -> free y = false end).
  { intros c' Hc' Hn. specialize (IH c' ltac:(lia) ltac:(lia)). destruct (search fuel used statics c' last) as [a|].
    - destruct IH as (x & -> & Hx & Hfr & Hl). exists x. split_and!; [done|lia|lia|done|]. intros y Hy. destruct (Z.lt_ge_cases y c'); [apply Hn; lia|apply Hl; lia].
    - intros y Hy. destruct (Z.lt_ge_cases y c'); [apply Hn; lia|apply IH; lia]. }
  destruct (used (V4 c)) eqn:Hu.
  - apply Hnext; [lia|]. intros y Hy. assert (y = c) as -> by lia. unfold free. by rewrite Hu.
  - destruct (List.find _ statics) as [p|] eqn:Hfd.
    + apply find_some in Hfd as [Hin Hp]. apply Hnext; [destruct (Z.ltb_spec c (ipv4Range p).2); lia|]. intros y Hy. unfold free. apply andb_false_iff. right. apply negb_false_iff, existsb_exists. exists p. split; [done|].
      destruct (Z.ltb_spec c (ipv4Range p).2) as [Hr|Hr]; [|by assert (y = c) as -> by lia]. apply (contains_rest p c); [by eapply (proj1 (List.Forall_forall _ _) Hstatics)|done|lia|lia].
    + exists c. split_and!; [done|lia|lia| |intros y Hy; lia]. unfold free. rewrite Hu. cbn. apply negb_true_iff. destruct (existsb _ statics) eqn:He; [|done]. apply existsb_exists in He as (p & Hin & Hp). by rewrite (find_none _ _ Hfd p Hin) in Hp.
Qed.
End Search.

(** ** Rows *)
Lemma ordered_sound fuel m k o : (k, o) ∈ ordered fuel m -> m !! k = Some o.
Proof.
  revert m. induction fuel as [|fuel IH]; intros m; cbn [ordered]; [by intros ?%elem_of_nil|]. destruct (foldr _ None _) as [k'|]; [|by intros ?%elem_of_nil].
  destruct (m !! k') as [o'|] eqn:E; [|by intros ?%elem_of_nil]. intros [[= -> ->]|H]%elem_of_cons; [done|]. by apply IH, lookup_delete_Some in H as [_ H].
Qed.

Lemma least_key (l : list (Z * owner)) :
  match foldr (fun kv least => match least with Some k => Some (Z.min kv.1 k) | None => Some kv.1 end) None l with
  | Some k => k ∈ l.*1 /\ forall k', k' ∈ l.*1 -> k <= k'
  | None => l = []
  end.
Proof.
  induction l as [|[k o] l IH]; [done|]. cbn [foldr fst fmap list_fmap]. destruct (foldr _ None l) as [k0|].
  - destruct IH as [Hin Hle]. split.
    + destruct (Z.min_spec k k0) as [[_ ->]|[_ ->]]; [by left|by right].
    + intros k' [->|H]%elem_of_cons; [lia|]. specialize (Hle k' H). lia.
  - subst l. split; [by left|]. intros k' [->|H%elem_of_nil]%elem_of_cons; [lia|done].
Qed.

Lemma least_lookup (m : gmap Z owner) k : k ∈ (map_to_list m).*1 <-> is_Some (m !! k).
Proof.
  rewrite list_elem_of_fmap. split.
  - intros ([k' o] & -> & H%elem_of_map_to_list). by exists o.
  - intros [o H%elem_of_map_to_list]. by exists (k, o).
Qed.

Lemma ordered_complete fuel m k o : (size m <= fuel)%nat -> m !! k = Some o -> (k, o) ∈ ordered fuel m.
Proof.
  revert m. induction fuel as [|fuel IH]; intros m Hs Hk; [assert (m = ∅) as -> by (apply map_size_empty_iff; lia); by rewrite lookup_empty in Hk|].
  cbn [ordered]. pose proof (least_key (map_to_list m)) as Hl. destruct (foldr _ None _) as [k'|].
  - destruct Hl as [Hin _]. apply least_lookup in Hin as [o' Ho']. rewrite Ho'. destruct (decide (k = k')) as [->|Hne]; [rewrite Ho' in Hk; injection Hk as ->; by left|].
    right. apply IH; [rewrite map_size_delete_Some by (by exists o'); lia|by rewrite lookup_delete_ne].
  - apply map_to_list_empty_iff in Hl as ->. by rewrite lookup_empty in Hk.
Qed.

Lemma ordered_NoDup fuel m : NoDup (ordered fuel m).*1.
Proof.
  revert m. induction fuel as [|fuel IH]; intros m; cbn [ordered]; [constructor|]. destruct (foldr _ None _) as [k|]; [|constructor]. destruct (m !! k) as [o|]; [|constructor].
  cbn. constructor; [|apply IH]. intros ([k' o'] & -> & H%ordered_sound)%list_elem_of_fmap. by rewrite lookup_delete_eq in H.
Qed.

Section Owners.
Context (keyLength : string -> option Z) (configSize : config -> Z).

Abbreviation load := (load keyLength).
Abbreviation clients := (clients configSize).
Abbreviation usedByAll := (usedByAll keyLength).
Abbreviation allocate := (allocate keyLength configSize).

Lemma clients_Ok m rows : clients m = Ok rows -> NoDup rows.*1 /\ forall k o, (k, o) ∈ rows <-> m !! k = Some o /\ hasField (oConfig o) = true.
Proof.
  unfold WireguardDevices.clients. cbv zeta. destruct (_ || _); [done|]. intros [= <-]. split; [apply ordered_NoDup|]. intros k o. split.
  - intros [Hk Hf]%ordered_sound%map_lookup_filter_Some. done.
  - intros [Hk Hf]. apply ordered_complete; [apply map_size_filter|]. by apply map_lookup_filter_Some.
Qed.

Lemma load_Field s s' : load (Field s) = Ok s' -> s' = s /\ Z.of_nat (length (sDevices s)) <= 512 /\ forallb (device_ok keyLength) (sDevices s) = true.
Proof. cbn [WireguardDevices.load]. destruct (_ && _) eqn:E; [|done]. intros [= <-]. rewrite !andb_true_iff, !Z.leb_le in E. by destruct E as [[[[[_ ?] _] _] ?] _]. Qed.

(** A device whose address is kept from others on its endpoint. *)
Definition reserved (e : Z) (d : Record_) : bool := (dEndpointID d =? e) && negb (0 <? dReleasedAt d).

(** The devices that a row with a readable state reserves. *)
Definition reservedOf (e : Z) (kv : Z * owner) : list Record_ :=
  match load (oConfig kv.2) with Ok s => List.filter (reserved e) (sDevices s) | Err _ => [] end.

Lemma usedBy_spec e l used :
  match usedBy e l used with
  | Ok used' => exists new, used' = new ++ used /\ length new = length (List.filter (reserved e) l) /\ forall a, a ∈ new <-> exists d, d ∈ l /\ reserved e d = true /\ deviceAddr d = Some a
  | Err ErrUnavailable => exists d, d ∈ l /\ deviceAddr d = None
  | Err ErrLimit => 4096 <= Z.of_nat (length used) + Z.of_nat (length (List.filter (reserved e) l))
  | Err _ => False
  end.
Proof.
  revert used. induction l as [|d l IH]; intros used; cbn [usedBy]; [exists []; split_and!; [done|done|]; intros a; split; [by intros ?%elem_of_nil|]; by intros (d & ?%elem_of_nil & _)|].
  assert (Hr : negb (dEndpointID d =? e) || (0 <? dReleasedAt d) = negb (reserved e d)) by (unfold reserved; by destruct (dEndpointID d =? e), (0 <? dReleasedAt d)).
  rewrite Hr. cbn [List.filter]. destruct (reserved e d) eqn:Hd; cbn [negb].
  - destruct (deviceAddr d) as [a|] eqn:Ea; [|exists d; by split; [left|]]. cbv zeta. destruct (Z.leb_spec 4096 (Z.of_nat (length (a :: used)))) as [Hl|Hl]; [cbn [length] in *; lia|].
    specialize (IH (a :: used)). destruct (usedBy e l (a :: used)) as [used'|[]]; cbn [length] in *; try done; [|destruct IH as (d' & ? & ?); exists d'; by split; [right|]|lia].
    destruct IH as (new & -> & Hlen & Hn). exists (new ++ [a]). split_and!; [by rewrite <- app_assoc|rewrite length_app; cbn; lia|]. intros b. rewrite elem_of_app, list_elem_of_singleton, Hn. split.
    + intros [(d' & ? & ?)| ->]; [exists d'; by split; [right|]|exists d; by split; [left|]].
    + intros (d' & [->|Hin]%elem_of_cons & Hr' & Ha'); [right; congruence|left; by exists d'].
  - specialize (IH used). destruct (usedBy e l used) as [used'|[]]; try done; [|destruct IH as (d' & ? & ?); exists d'; by split; [right|]].
    destruct IH as (new & -> & Hlen & Hn). exists new. split_and!; [done|done|]. intros b. rewrite Hn. split.
    + intros (d' & ? & ?). exists d'. by split; [right|].
    + intros (d' & [->|Hin]%elem_of_cons & Hr' & Ha'); [congruence|by exists d'].
Qed.

Lemma elem_of_bfilter (f : Record_ -> bool) l d : d ∈ List.filter f l <-> d ∈ l /\ f d = true.
Proof. rewrite !list_elem_of_In. apply filter_In. Qed.

(** An address that a row keeps. *)
Definition heldBy (e : Z) (a : Addr) (kv : Z * owner) : Prop := exists d, d ∈ reservedOf e kv /\ deviceAddr d = Some a.

Lemma load_addr c s d : load c = Ok s -> d ∈ sDevices s -> exists z, deviceAddr d = Some (V4 z) /\ 0 <= z < 2 ^ 32.
Proof.
  intros Hl Hd. destruct c as [| | |s0]; try done; [injection Hl as <-; by apply elem_of_nil in Hd|]. apply load_Field in Hl as (-> & _ & Hok). rewrite forallb_forall in Hok.
  apply list_elem_of_In, Hok in Hd. unfold device_ok in Hd. rewrite !andb_true_iff in Hd. destruct Hd as [_ Hd]. unfold deviceAddr. destruct (ParsePrefix (dAddress d)) as [p|] eqn:Ep; [|done]. destruct (keyLength _) as [n|]; [|done].
  rewrite !andb_true_iff in Hd. destruct Hd as [[Hd _] _]. destruct p as [[z|z zone] b]; [|done]. exists z. split; [done|].
  unfold ParsePrefix in Ep. destruct (CutLast _ _) as [[x y]|]; [|done]. destruct (ParseAddr x) as [a|] eqn:Ea; [|done]. destruct (negb _); [done|]. destruct (match y with "" => _ | _ => _ end); [done|]. destruct (AtoiSigned y); [|done]. destruct (_ && _); [|done]. injection Ep as Ep _.
  apply ParseAddr_ok in Ea. destruct a; [by injection Ep as <-|done].
Qed.

Lemma usedByAll_spec e rows used :
  match usedByAll e rows used with
  | Ok used' => exists new, used' = new ++ used /\ (forall a, a ∈ new <-> Exists (heldBy e a) rows) /\ Forall (fun kv => exists s, load (oConfig kv.2) = Ok s) rows
  | Err ErrUnavailable => exists kv, kv ∈ rows /\ forall s, load (oConfig kv.2) <> Ok s
  | Err ErrLimit => 4096 <= Z.of_nat (length used) + Z.of_nat (length (rows ≫= reservedOf e))
  | Err _ => False
  end.
Proof.
  revert used. induction rows as [|kv rows IH]; intros used; cbn [WireguardDevices.usedByAll]; [exists []; split_and!; [done| |constructor]; intros a; split; [by intros ?%elem_of_nil|by intros ?%Exists_nil]|].
  destruct (load (oConfig kv.2)) as [s|err] eqn:El; [|exists kv; split; [by left|]; congruence].
  assert (Hof : reservedOf e kv = List.filter (reserved e) (sDevices s)) by (unfold reservedOf; by rewrite El). rewrite bind_cons, length_app, Hof.
  pose proof (usedBy_spec e (sDevices s) used) as Hu. destruct (usedBy e (sDevices s) used) as [used1|[]]; try done; cbn.
  - destruct Hu as (new & -> & Hlen & Hnew). specialize (IH (new ++ used)). rewrite length_app in IH. destruct (usedByAll e rows (new ++ used)) as [used2|[]]; try done; [| |lia].
    + destruct IH as (new2 & -> & Hn2 & Hall). exists (new2 ++ new). split_and!; [by rewrite <- app_assoc| |constructor; [by exists s|done]].
      intros a. rewrite elem_of_app, Exists_cons, Hn2, Hnew. unfold heldBy. rewrite Hof. setoid_rewrite elem_of_bfilter. naive_solver.
    + destruct IH as (kv' & ? & ?). exists kv'. by split; [right|].
  - destruct Hu as (d & Hd & Hn). destruct (load_addr _ _ d El Hd) as (z & Hz & _). congruence.
  - lia.
Qed.

Lemma addr_eqb_eq a b : addr_eqb a b = true <-> a = b.
Proof.
  destruct a as [x|x z], b as [y|y z']; cbn [addr_eqb]; [rewrite Z.eqb_eq; split; congruence|done|done|]. rewrite andb_true_iff, Z.eqb_eq, String.eqb_eq. split; [by intros [-> ->]|by intros [= -> ->]].
Qed.

(** An address that a device of the table keeps on an endpoint. *)
Definition held (e : Z) (m : gmap Z owner) (a : Addr) : Prop :=
  exists k o s d, m !! k = Some o /\ oConfig o = Field s /\ d ∈ sDevices s /\ reserved e d = true /\ deviceAddr d = Some a.

Lemma held_rows e m rows a : clients m = Ok rows -> Forall (fun kv => exists s, load (oConfig kv.2) = Ok s) rows -> held e m a <-> Exists (heldBy e a) rows.
Proof.
  intros [_ Hrows]%clients_Ok Hall. rewrite Exists_exists. split.
  - intros (k & o & s & d & Hk & Hc & Hd & Hr & Ha). assert (Hin : (k, o) ∈ rows) by (apply Hrows; by rewrite Hc). exists (k, o). split; [done|]. exists d. split; [|done].
    rewrite Forall_forall in Hall. destruct (Hall _ Hin) as [s' Hs']. unfold reservedOf. cbn [snd] in *. rewrite Hs'. rewrite Hc in Hs'. apply load_Field in Hs' as [-> _]. by apply elem_of_bfilter.
  - intros ([k o] & Hin & d & Hd & Ha). apply Hrows in Hin as [Hk Hf]. unfold reservedOf in Hd. cbn [snd] in Hd. destruct (load (oConfig o)) as [s|] eqn:El; [|by apply elem_of_nil in Hd]. apply elem_of_bfilter in Hd as [Hd Hr].
    exists k, o, s, d. split_and!; try done. destruct (oConfig o) as [| | |s']; try done. by apply load_Field in El as [-> _].
Qed.

(** An address that cannot be given to a device. *)
Definition taken (policy : Policy) (m : gmap Z owner) (x : Z) : Prop :=
  pfAddr (plServerPrefix policy) = V4 x \/ held (plEndpointID policy) m (V4 x) \/ exists p, p ∈ plStaticPrefixes policy /\ PrefixContains p (V4 x) = true.

Lemma free_taken policy m rows used x : clients m = Ok rows -> Forall (fun kv => exists s, load (oConfig kv.2) = Ok s) rows -> (forall a, a ∈ used <-> Exists (heldBy (plEndpointID policy) a) rows) ->
  free (fun a => existsb (addr_eqb a) (pfAddr (plServerPrefix policy) :: used)) (plStaticPrefixes policy) x = false <-> taken policy m x.
Proof.
  intros Hc Hall Hu. unfold free, taken. rewrite (held_rows _ m rows), <- Hu by done. rewrite andb_false_iff, !negb_false_iff, !existsb_exists. setoid_rewrite <- list_elem_of_In. setoid_rewrite addr_eqb_eq. setoid_rewrite elem_of_cons. naive_solver.
Qed.

Lemma search_unused fuel used statics candidate last a : search fuel used statics candidate last = Some a -> used a = false /\ exists x, a = V4 x /\ 0 <= x < 2 ^ 32.
Proof.
  revert candidate. induction fuel as [|fuel IH]; intros c; cbn [search]; [done|]. destruct (last <=? c); [done|]. destruct (used (ipv4Address c)) eqn:Hu; [apply IH|]. destruct (List.find _ _) as [p|]; [apply IH|]. intros [= <-]. split; [done|].
  exists (c mod 2 ^ 32). split; [done|]. apply Z.mod_pos_bound. lia.
Qed.

(** Whatever the policy, the address is not one that a device keeps. *)
Lemma allocate_fresh policy m a : allocate policy m = Ok a -> ~ held (plEndpointID policy) m a /\ exists x, a = V4 x /\ 0 <= x < 2 ^ 32.
Proof.
  unfold WireguardDevices.allocate. cbv zeta. destruct (_ || _); [done|]. destruct (clients m) as [rows|] eqn:Hc; [|done]. cbn [rbind].
  pose proof (usedByAll_spec (plEndpointID policy) rows []) as Hu. destruct (usedByAll _ rows []) as [used|]; [|done]. cbn [rbind]. destruct Hu as (new & -> & Hnew & Hall). rewrite app_nil_r.
  destruct (ipv4Range _) as [first last]. destruct (search _ _ _ _ _) as [b|] eqn:Es; [|done]. intros [= ->]. apply search_unused in Es as [Hu Hx]. split; [|done].
  intros Hh. apply (held_rows _ m rows), Hnew in Hh; [|done..]. apply not_true_iff_false in Hu. apply Hu, existsb_exists. exists a. split; [right; by apply list_elem_of_In|by apply addr_eqb_eq].
Qed.

(** The addresses of a network, without its first and its last one. *)
Definition inside (p : Prefix) (x : Z) : Prop := (ipv4Range p).1 < x < (ipv4Range p).2.

Lemma range_bound p z : pfAddr p = V4 z -> prefix_ok p -> 0 <= (ipv4Range p).1 /\ (ipv4Range p).2 <= 2 ^ 32 - 1.
Proof.
  intros Hz [Ha Hb]. rewrite Hz in Ha, Hb. cbn in Ha, Hb. unfold ipv4Range, Masked. cbv zeta. cbn [fst snd pfAddr pfBits]. rewrite Hz. cbn [bits_of]. unfold mask. set (k := 32 - pfBits p) in *. rewrite !Z.shiftl_mul_pow2, Z.shiftr_div_pow2 by lia.
  assert (Hp : 0 < 2 ^ k) by (apply Z.pow_pos_nonneg; lia). assert (Hs : 2 ^ 32 = 2 ^ pfBits p * 2 ^ k) by (rewrite <- Z.pow_add_r by lia; f_equal; lia). assert (z / 2 ^ k < 2 ^ pfBits p) by (apply Z.div_lt_upper_bound; lia).
  pose proof (Z.div_pos z (2 ^ k) ltac:(lia) Hp). split; nia.
Qed.

(** C20: The allocator of addresses is exact.  The address it gives is the least one inside the
    endpoint's network that is not the server's, not reserved by a device of any client on the
    endpoint, and not in a static prefix; it says that the pool is exhausted only when the
    network has no room for devices or every address inside it is taken.  It fails otherwise
    only if the state of some client is unreadable, or there are too many rows or reserved
    addresses. *)
Theorem allocate_least_free policy m : prefix_ok (plServerPrefix policy) -> Forall prefix_ok (plStaticPrefixes policy) ->
  match allocate policy m with
  | Ok a => exists x, a = V4 x /\ inside (plServerPrefix policy) x /\ ~ taken policy m x /\ forall y, inside (plServerPrefix policy) y -> y < x -> taken policy m y
  | Err ErrPool => Is4 (pfAddr (plServerPrefix policy)) = false \/ 30 < pfBits (plServerPrefix policy) \/ forall y, inside (plServerPrefix policy) y -> taken policy m y
  | Err ErrUnavailable => exists k o, m !! k = Some o /\ hasField (oConfig o) = true /\ forall s, load (oConfig o) <> Ok s
  | Err ErrLimit => clients m = Err ErrLimit \/ exists rows, clients m = Ok rows /\ 4096 <= Z.of_nat (length (rows ≫= reservedOf (plEndpointID policy)))
  | Err _ => False
  end.
Proof.
  intros Hs Hst. unfold WireguardDevices.allocate. cbv zeta. destruct (Is4 (pfAddr (plServerPrefix policy))) eqn:E4; cbn [negb orb]; [|by left]. destruct (Z.ltb_spec 30 (pfBits (plServerPrefix policy))) as [|Hb]; [by right; left|].
  destruct (clients m) as [rows|err] eqn:Hc; cbn [rbind]; [|unfold WireguardDevices.clients in Hc; cbv zeta in Hc; destruct (_ || _); [injection Hc as <-; by left|done]].
  pose proof (usedByAll_spec (plEndpointID policy) rows []) as Hu. destruct (usedByAll _ rows []) as [used|[]]; try done; cbn [rbind].
  - destruct Hu as (new & -> & Hnew & Hall). rewrite app_nil_r. destruct (pfAddr (plServerPrefix policy)) as [z|] eqn:Ez; [|done]. pose proof (range_bound _ z Ez Hs) as Hr. unfold inside.
    pose proof (fun x => free_taken policy m rows new x Hc Hall Hnew) as Hfree. rewrite Ez in Hfree. destruct (ipv4Range (plServerPrefix policy)) as [first last]. cbn [fst snd] in *.
    set (used := fun a => existsb (addr_eqb a) (V4 z :: new)) in *. pose proof (search_least used (plStaticPrefixes policy) last Hst ltac:(lia) (Z.to_nat (last - first)) (first + 1) ltac:(lia) ltac:(lia)) as Hl.
    destruct (search _ used _ _ last) as [a|].
    + destruct Hl as (x & -> & Hx & Hf & Hleast). exists x. split_and!; [done|lia|lia| |]; [intros Ht%Hfree; congruence|]. intros y Hy Hyx. apply Hfree, Hleast. lia.
    + right; right. intros y Hy. apply Hfree, Hl. lia.
  - destruct Hu as ([k o] & Hin & Hn). apply clients_Ok in Hc as [_ Hrows]. apply Hrows in Hin as [Hk Hf]. by exists k, o.
  - right. exists rows. split; [done|]. cbn in Hu. lia.
Qed.
End Owners.

Module Demo.
Definition keyLength (s : string) : option Z := if String.eqb s "" then None else Some 32.
Definition configSize (c : config) : Z := 1000.
Definition account : PaidOrders.Client := mkClient true "" "client" "[]" 0 0 0 0 0 0.

Definition device (id : string) (address : string) (released : Z) : Record_ :=
  mkRecord id 7 "phone" address "key" "private" "shared" "hash" "" 100 0 0 0 1 released 0 0 emptyObservation.

(** The server has the first address, a static peer the next two, devices the fourth and,
    until it was released, the fifth. *)
Definition policy (bits : Z) : Policy := mkPolicy 7 true (mkPrefix (V4 167772161) bits) [mkPrefix (V4 167772162) 31] 5.

Definition table : gmap Z owner :=
  {[ 1 := mkOwner (Field (mkState 1 [mkGrant 7 0] [device "00112233445566778899aabbccddeeff" "10.0.0.4/32" 0; device "ffeeddccbbaa99887766554433221100" "10.0.0.5/32" 90])) account; 2 := mkOwner NoField account ]}.

Lemma policy_ok bits : 0 <= bits <= 32 -> prefix_ok (plServerPrefix (policy bits)) /\ Forall prefix_ok (plStaticPrefixes (policy bits)).
Proof. intros Hb. split; [|constructor; [|constructor]]; unfold prefix_ok; cbn; lia. Qed.

Lemma allocate_least_free_witness : allocate keyLength configSize (policy 24) table = Ok (V4 167772165) /\ ~ taken (policy 24) table 167772165 /\
  allocate keyLength configSize (policy 30) table = Err ErrPool /\ forall y, 167772160 < y < 167772163 -> taken (policy 30) table y.
Proof.
  assert (E1 : allocate keyLength configSize (policy 24) table = Ok (V4 167772165)) by (vm_compute; reflexivity). assert (E2 : allocate keyLength configSize (policy 30) table = Err ErrPool) by (vm_compute; reflexivity).
  pose proof (allocate_least_free keyLength configSize (policy 24) table (proj1 (policy_ok 24 ltac:(lia))) (proj2 (policy_ok 24 ltac:(lia)))) as H1. rewrite E1 in H1. destruct H1 as (x & Ex & _ & Hx & _). injection Ex as <-.
  pose proof (allocate_least_free keyLength configSize (policy 30) table (proj1 (policy_ok 30 ltac:(lia))) (proj2 (policy_ok 30 ltac:(lia)))) as H2. rewrite E2 in H2. destruct H2 as [H2|[H2|H2]]; [discriminate|vm_compute in H2; discriminate|].
  split; [exact E1|]. split; [exact Hx|]. split; [exact E2|]. intros y Hy. apply H2. split; apply Hy.
Defined.
End Demo.
