(* ===== verification/WireguardHistories.v ===== *)
(** * Histories of WireGuard devices
    Every change of the devices' table, and what holds after any sequence of them: no two
    devices of an endpoint keep the same address, so the peers of a server never overlap; a
    client has at most a hundred devices on an endpoint, and one for a creation request. *)

From S2P Require Import Prelude GoStrings VersionPolicy NetAddr PaidOrders ClientAccess TrafficStats WireguardDevices WireguardProperties.

Open Scope string_scope.
Open Scope list_scope.
Open Scope Z_scope.

(** What changes the table: a request of an administrator or a client, with the endpoint's
    policy and the random values; the accounting of a snapshot; a change of the client's
    account; a client that is added, which has no devices, or removed. *)
Inductive event :=
| Change (r : Request) (policy : option Policy) (id : option string) (k : option keys) (now : Z)
| Count (endpointID : Z) (generation : string) (observedAt : Z) (samples : gmap string Observation)
| Settle (clientID : Z) (account : PaidOrders.Client)
| Join_ (clientID : Z) (account : PaidOrders.Client)
| Leave (clientID : Z).

(** The policy is that of the endpoint of the request. *)
Definition event_ok (ev : event) : Prop :=
  match ev with Change r (Some p) _ _ _ => plEndpointID p = rqEndpointID r | _ => True end.

Section Histories.
Context (keyLength : string -> option Z) (sha256hex : string -> string) (fits : State -> bool) (configSize : config -> Z).

Abbreviation load := (load keyLength).
Abbreviation clients := (clients configSize).
Abbreviation Mutate := (Mutate keyLength sha256hex fits configSize).
Abbreviation Account := (Account keyLength fits configSize).
Abbreviation RuntimePeers := (RuntimePeers keyLength configSize).

Definition apply (m : gmap Z owner) (ev : event) : gmap Z owner :=
  match ev with
  | Change r policy id k now => (Mutate m r policy id k now).2
  | Count e generation observedAt samples => match Account m e generation observedAt samples with Ok (m', _) => m' | Err _ => m end
  | Settle k account => alter (fun o => mkOwner (oConfig o) account) k m
  | Join_ k account => match m !! k with Some _ => m | None => <[k := mkOwner NoField account]> m end
  | Leave k => delete k m
  end.

Definition run (m : gmap Z owner) (events : list event) : gmap Z owner := foldl apply m events.

(** ** The devices of a client *)
Definition devices (m : gmap Z owner) (k : Z) : list Record_ :=
  match m !! k with Some o => match oConfig o with Field s => sDevices s | _ => [] end | None => [] end.

Definition live (e : Z) (d : Record_) : bool := (dEndpointID d =? e) && (dDeletedAt d =? 0).

Record good (m : gmap Z owner) : Prop := {
  (** no two devices keep an address of an endpoint *)
  good_exclusive : forall k i d k' i' d' a, devices m k !! i = Some d -> devices m k' !! i' = Some d' -> reserved (dEndpointID d) d = true -> reserved (dEndpointID d) d' = true ->
    deviceAddr d = Some a -> deviceAddr d' = Some a -> k = k' /\ i = i';
  (** only the address of a deleted device is released *)
  good_released : forall k d, d ∈ devices m k -> 0 < dReleasedAt d -> dDeletedAt d <> 0;
  good_limit : forall k e, Z.of_nat (length (List.filter (live e) (devices m k))) <= 100;
  good_requests : forall k i d i' d', devices m k !! i = Some d -> devices m k !! i' = Some d' -> dEndpointID d = dEndpointID d' -> dCreateRequest d = dCreateRequest d' -> i = i'
}.

(** A device after a change that is not a creation. *)
Record kept (d d' : Record_) : Prop := {
  kept_endpoint : dEndpointID d' = dEndpointID d;
  kept_address : dAddress d' = dAddress d;
  kept_request : dCreateRequest d' = dCreateRequest d;
  kept_released : 0 < dReleasedAt d -> 0 < dReleasedAt d';
  kept_deleted : dDeletedAt d <> 0 -> dDeletedAt d' <> 0;
  kept_release : 0 < dReleasedAt d' -> 0 < dReleasedAt d \/ dDeletedAt d' <> 0
}.

Lemma kept_refl d : kept d d.
Proof. constructor; auto. Qed.

Lemma Forall2_kept_refl l : Forall2 kept l l.
Proof. induction l; constructor; auto using kept_refl. Qed.

Lemma kept_live e l l' : Forall2 kept l l' -> (length (List.filter (live e) l') <= length (List.filter (live e) l))%nat.
Proof.
  induction 1 as [|d d' l l' Hd _ IH]; [done|]. cbn [List.filter]. destruct (live e d') eqn:E'; [|destruct (live e d); cbn; lia].
  assert (live e d = true) as ->; [|cbn; lia]. unfold live in *. rewrite andb_true_iff, !Z.eqb_eq in *. destruct E' as [E1 E2], Hd as [H1 _ _ _ H2 _]. split; [congruence|]. destruct (Z.eq_dec (dDeletedAt d) 0); [done|by apply H2 in E2].
Qed.

Lemma kept_good m m' : good m -> (forall k, devices m' k = [] \/ Forall2 kept (devices m k) (devices m' k)) -> good m'.
Proof.
  intros Hg Hk.
  assert (Hat : forall k i d', devices m' k !! i = Some d' -> exists d, devices m k !! i = Some d /\ kept d d').
  { intros k i d' H. destruct (Hk k) as [E|HF]; [by rewrite E in H|]. destruct (Forall2_lookup_r _ _ _ _ _ HF H) as (d & ? & ?). by exists d. }
  constructor.
  - intros k i d k' i' d' a H H' Hr Hr' Ha Ha'. apply Hat in H as (d0 & H0 & K), H' as (d0' & H0' & K'). destruct K as [E1 E2 _ R _ _], K' as [E1' E2' _ R' _ _].
    unfold reserved, deviceAddr in *. rewrite !andb_true_iff, !Z.eqb_eq, !negb_true_iff, !Z.ltb_ge in *. rewrite E2 in Ha. rewrite E2' in Ha'.
    apply (good_exclusive m Hg k i d0 k' i' d0' a); try done; unfold reserved; rewrite andb_true_iff, Z.eqb_eq, negb_true_iff, Z.ltb_ge; split; try congruence; lia.
  - intros k d' [i Hi]%list_elem_of_lookup Hr. apply Hat in Hi as (d & Hd & K). destruct (kept_release _ _ K Hr) as [H|H]; [|done]. apply (kept_deleted _ _ K). apply (good_released m Hg k); [by eapply list_elem_of_lookup_2|done].
  - intros k e. destruct (Hk k) as [->|HF]; [done|]. pose proof (kept_live e _ _ HF). pose proof (good_limit m Hg k e). lia.
  - intros k i d i' d' H H' He Hc. apply Hat in H as (d0 & H0 & K), H' as (d0' & H0' & K'). apply (good_requests m Hg k i d0 i' d0'); try done; [rewrite <- (kept_endpoint _ _ K), <- (kept_endpoint _ _ K')|rewrite <- (kept_request _ _ K), <- (kept_request _ _ K')]; done.
Qed.

(** ** Requests *)
Lemma devices_insert m k o k' : devices (<[k := o]> m) k' = if decide (k = k') then match oConfig o with Field s => sDevices s | _ => [] end else devices m k'.
Proof. unfold devices. destruct (decide (k = k')) as [->|Hne]; [by rewrite lookup_insert_eq|by rewrite lookup_insert_ne]. Qed.

Lemma devices_load m k o s : m !! k = Some o -> load (oConfig o) = Ok s -> devices m k = sDevices s.
Proof. intros Hk Hl. unfold devices. rewrite Hk. destruct (oConfig o) as [| | |s']; try done; [by injection Hl as <-|by apply load_Field in Hl as [-> _]]. Qed.

Lemma endDevice_kept delete now d d' : endDevice delete now d = Some d' -> kept d d'.
Proof.
  unfold endDevice. destruct (_ && _); [done|]. intros [= <-]. constructor; cbn; auto. intros Hd. destruct delete; [|done]. cbn [andb]. by destruct (Z.eqb_spec (dDeletedAt d) 0).
Qed.

Lemma changeDevice_kept r o s policy k now s' : changeDevice sha256hex r o s policy k now = Ok (Some s') -> Forall2 kept (sDevices s) (sDevices s').
Proof.
  unfold changeDevice. destruct (list_find _ _) as [[i d]|] eqn:Ef; [|done]. apply list_find_Some in Ef as (Hi & _ & _).
  assert (Hin : forall d', kept d d' -> Forall2 kept (sDevices s) (<[i := d']> (sDevices s))).
  { intros d' Hd. rewrite <- (list_insert_id (sDevices s) i d Hi) at 1. apply Forall2_insert; [apply Forall2_kept_refl|done]. }
  destruct (String.eqb (rqOperation r) "rotate").
  - unfold rotateDevice. destruct (requestHash sha256hex (rqRequestKey r)) as [hash|]; [|done]. cbn [rbind]. destruct (String.eqb hash _); [done|]. destruct policy as [p|]; [|done]. destruct (_ || _); [done|]. destruct k as [k|]; [|done].
    cbn. intros [= <-]. apply Hin. constructor; cbn; auto.
  - cbn [rbind]. destruct (endDevice _ now d) as [d'|] eqn:Ee; [|done]. cbn. intros [= <-]. apply Hin. by eapply endDevice_kept.
Qed.

Lemma examine_count r hash l n c : examine r hash l n = Devices c -> c = n + Z.of_nat (length (List.filter (live (rqEndpointID r)) l)) /\ forall d, d ∈ l -> dEndpointID d = rqEndpointID r -> dCreateRequest d <> hash.
Proof.
  revert n. induction l as [|d l IH]; intros n; cbn [examine List.filter]; [intros [= <-]; split; [cbn; lia|by intros d ?%elem_of_nil]|].
  unfold live at 1. destruct (Z.eqb_spec (dEndpointID d) (rqEndpointID r)) as [He|He]; cbn [negb andb].
  - destruct (String.eqb_spec (dCreateRequest d) hash) as [|Hc]; [done|]. intros [-> Hno]%IH. split; [destruct (dDeletedAt d =? 0); cbn [length]; lia|]. intros d' [->|Hin]%elem_of_cons; [done|by apply Hno].
  - intros [-> Hno]%IH. split; [done|]. intros d' [->|Hin]%elem_of_cons; [done|by apply Hno].
Qed.

(** What a creation does: a new device, below the limit, with its own request and a free address. *)
Lemma createDevice_new r o s policy m id k now s' : createDevice keyLength sha256hex configSize r o s policy m id k now = Ok (Some s') ->
  exists p hash a id k, policy = Some p /\ sDevices s' = sDevices s ++ [newRecord r hash id a k now] /\ allocate keyLength configSize p m = Ok a /\
    Z.of_nat (length (List.filter (live (rqEndpointID r)) (sDevices s))) < 100 /\ forall d, d ∈ sDevices s -> dEndpointID d = rqEndpointID r -> dCreateRequest d <> hash.
Proof.
  unfold createDevice. destruct policy as [p|]; [|done]. destruct (_ || _); [done|]. destruct (granted s _) as [g|]; [|done]. destruct (requestHash sha256hex _) as [hash|]; [|done]. destruct (_ || _); [done|].
  destruct (examine r hash (sDevices s) 0) as [[]|c] eqn:Ee; [done|done|]. apply examine_count in Ee as [-> Hno]. cbv zeta.
  set (limit := if gDeviceLimit g =? 0 then _ else _). destruct (_ || _) eqn:El; [done|]. rewrite !orb_false_iff, !Z.ltb_ge, !Z.leb_gt in El. destruct El as [[[_ H1] H2] _].
  destruct (allocate keyLength configSize p m) as [a|] eqn:Ea; [|done]. cbn [rbind]. destruct id as [id|], k as [k|]; try done. intros [= <-]. exists p, hash, a, id, k. split_and!; [done|done|done|lia|done].
Qed.

Lemma mutateState_cases r o s policy m id k now s' : mutateState keyLength sha256hex configSize r o s policy m id k now = Ok (Some s') ->
  Forall2 kept (sDevices s) (sDevices s') \/ createDevice keyLength sha256hex configSize r o s policy m id k now = Ok (Some s').
Proof.
  unfold mutateState. destruct (String.eqb _ "grant").
  - destruct policy as [p|]; [|done]. destruct (plAvailable p); [|done]. unfold grantDevices. destruct (_ || _); [done|]. destruct (existsb _ _); [cbn; intros [= <-]; left; apply Forall2_kept_refl|]. destruct (128 <=? _); [done|]. cbn. intros [= <-]. left. apply Forall2_kept_refl.
  - destruct (String.eqb _ "remove-grant"); [intros [= <-]; left; apply Forall2_kept_refl|]. destruct (String.eqb _ "create"); [by right|]. destruct (_ || _); [|done]. intros H. left. by eapply changeDevice_kept.
Qed.

Lemma new_addr r hash id x k now : 0 <= x < 2 ^ 32 -> deviceAddr (newRecord r hash id (V4 x) k now) = Some (V4 x).
Proof. intros Hx. unfold deviceAddr. cbn [dAddress newRecord]. change (AddrString (V4 x) +:+ "/32") with (PrefixString (mkPrefix (V4 x) 32)). by rewrite ParsePrefix_PrefixString by done. Qed.

Lemma held_devices e m a : held e m a <-> exists k d, d ∈ devices m k /\ reserved e d = true /\ deviceAddr d = Some a.
Proof.
  unfold held, devices. split.
  - intros (k & o & s & d & Hk & Hc & Hd & Hr). exists k, d. by rewrite Hk, Hc.
  - intros (k & d & Hd & Hr). destruct (m !! k) as [o|] eqn:Hk; [|by apply elem_of_nil in Hd]. destruct (oConfig o) as [| | |s] eqn:Hc; try by apply elem_of_nil in Hd. by exists k, o, s, d.
Qed.

(** A device that is added to a client with what a creation guarantees. *)
Lemma added_good m m' k new x :
  good m -> (forall k', devices m' k' = if decide (k = k') then devices m k ++ [new] else devices m k') -> dReleasedAt new = 0 -> dDeletedAt new = 0 ->
  deviceAddr new = Some (V4 x) -> ~ held (dEndpointID new) m (V4 x) -> Z.of_nat (length (List.filter (live (dEndpointID new)) (devices m k))) < 100 ->
  (forall d, d ∈ devices m k -> dEndpointID d = dEndpointID new -> dCreateRequest d <> dCreateRequest new) -> good m'.
Proof.
  intros Hg Hdev Hrel Hdel Haddr Hfree Hlimit Hreq.
  assert (Hat : forall k' i d, devices m' k' !! i = Some d -> devices m k' !! i = Some d \/ (k' = k /\ i = length (devices m k) /\ d = new)).
  { intros k' i d. rewrite Hdev. destruct (decide (k = k')) as [<-|]; [|by left]. intros [H|[Hl H]]%lookup_app_Some; [by left|]. right. apply list_lookup_singleton_Some in H as [H ->]. split_and!; [done|lia|done]. }
  assert (Hnew : forall k' i d, devices m k' !! i = Some d -> reserved (dEndpointID new) d = true -> deviceAddr d = Some (V4 x) -> False).
  { intros k' i d H Hr Ha. apply Hfree, held_devices. exists k', d. split; [by eapply list_elem_of_lookup_2|done]. }
  constructor.
  - intros k1 i1 d1 k2 i2 d2 a H1 H2 Hr1 Hr2 Ha1 Ha2. apply Hat in H1 as [H1|(-> & -> & ->)], H2 as [H2|(-> & -> & ->)]; [by eapply (good_exclusive m Hg)| | |done].
    + assert (a = V4 x) as -> by congruence. destruct (Hnew k1 i1 d1); try done. unfold reserved in Hr2. rewrite andb_true_iff, Z.eqb_eq in Hr2. destruct Hr2 as [-> _]. done.
    + assert (a = V4 x) as -> by congruence. by destruct (Hnew k2 i2 d2).
  - intros k' d [i Hi]%list_elem_of_lookup Hr. apply Hat in Hi as [Hi|(_ & _ & ->)]; [|lia]. by eapply (good_released m Hg), Hr; eapply list_elem_of_lookup_2.
  - intros k' e. rewrite Hdev. destruct (decide (k = k')) as [<-|]; [|apply (good_limit m Hg)]. rewrite List.filter_app, length_app. cbn [List.filter]. pose proof (good_limit m Hg k e). destruct (live e new) eqn:El; cbn [length]; [|lia].
    unfold live in El. apply andb_true_iff in El as [<-%Z.eqb_eq _]. lia.
  - intros k' i d i' d' H H' He Hc. apply Hat in H as [H|(-> & -> & ->)], H' as [H'|(Ek & -> & ->)]; [by eapply (good_requests m Hg)| | |done].
    + subst k'. exfalso. eapply Hreq; [by eapply list_elem_of_lookup_2| |]; done.
    + exfalso. eapply Hreq; [by eapply list_elem_of_lookup_2| |]; done.
Qed.

Lemma Mutate_good m r policy id k now : event_ok (Change r policy id k now) -> good m -> good (Mutate m r policy id k now).2.
Proof.
  intros Hp Hg. unfold WireguardDevices.Mutate. destruct (m !! rqClientID r) as [o|] eqn:Ho; [|done]. destruct (_ =? 0); [done|]. destruct (load (oConfig o)) as [s|] eqn:El; [|done]. destruct (_ =? 0); [done|].
  destruct (mutateState _ _ _ _ _ _ _ _ _ _ _) as [[s'|]|] eqn:Em; [|done|done]. unfold save. destruct (fits s'); [|done]. cbn [snd]. pose proof (devices_load m _ _ _ Ho El) as Hd.
  assert (Hdev : forall k', devices (<[rqClientID r := mkOwner (Field s') (oAccount o)]> m) k' = if decide (rqClientID r = k') then sDevices s' else devices m k') by (intros k'; by rewrite devices_insert).
  apply mutateState_cases in Em as [HF|(p & hash & a & id' & k0 & -> & Hs & Ha & Hl & Hr)%createDevice_new].
  - apply (kept_good m); [done|]. intros k'. right. rewrite Hdev. destruct (decide _) as [<-|]; [by rewrite Hd|apply Forall2_kept_refl].
  - cbn in Hp. apply allocate_fresh in Ha as [Hfree (x & -> & Hx)]. rewrite <- Hd in *. apply (added_good m _ (rqClientID r) (newRecord r hash id' (V4 x) k0 now) x); cbn [dReleasedAt dDeletedAt dEndpointID dCreateRequest newRecord]; try done.
    + intros k'. by rewrite Hdev, Hs.
    + by apply new_addr.
    + by rewrite <- Hp.
Qed.

(** ** Accounting *)
Lemma accountRecord_kept generation observedAt sample d d' uv : 0 < observedAt -> accountRecord generation observedAt sample d = Ok (d', uv) -> kept d d'.
Proof.
  intros Ht. unfold accountRecord. cbv zeta. destruct sample as [sample|]; [destruct (_ || _); [done|]|]; intros [= <- _]; constructor; cbn; auto.
  - destruct (Z.ltb_spec 0 (dDeletedAt d)), (Z.eqb_spec (dReleasedAt d) 0); cbn; lia.
  - destruct (Z.ltb_spec 0 (dDeletedAt d)), (Z.eqb_spec (dReleasedAt d) 0); cbn; lia.
Qed.

Lemma accountDevices_kept e generation observedAt samples l up down l' up' down' : 0 < observedAt -> accountDevices e generation observedAt samples l up down = Ok (l', up', down') -> Forall2 kept l l'.
Proof.
  intros Ht. revert up down l'. induction l as [|d l IH]; intros up down l'; cbn [accountDevices]; [intros [= <- _ _]; constructor|]. destruct (negb _).
  - destruct (accountDevices _ _ _ _ l up down) as [[[l0 u] v]|] eqn:E; [|done]. cbn. intros [= <- <- <-]. constructor; [apply kept_refl|by eapply IH].
  - destruct (accountRecord _ _ _ d) as [[d' uv]|] eqn:Er; [|done]. cbn. destruct (accountDevices _ _ _ _ l _ _) as [[[l0 u] v]|] eqn:E; [|done]. cbn. intros [= <- <- <-]. constructor; [by eapply accountRecord_kept|by eapply IH].
Qed.

Lemma accountOwners_kept m0 e generation observedAt samples rows m deltas m' deltas' : 0 < observedAt -> (forall k o, (k, o) ∈ rows -> m0 !! k = Some o) ->
  accountOwners keyLength fits e generation observedAt samples rows m deltas = Ok (m', deltas') -> (forall k, Forall2 kept (devices m0 k) (devices m k)) -> forall k, Forall2 kept (devices m0 k) (devices m' k).
Proof.
  intros Ht. revert m deltas. induction rows as [|[k o] rows IH]; intros m deltas Hrows; cbn [accountOwners]; [by intros [= <- _]|].
  assert (Hrest : forall k' o', (k', o') ∈ rows -> m0 !! k' = Some o') by (intros; by apply Hrows; right).
  destruct (load (oConfig o)) as [s|] eqn:El; [|by apply IH]. destruct (accountDevices _ _ _ _ _ 0 0) as [[[l u] v]|] eqn:Ea; [|done]. cbn. destruct (decide _); [by apply IH|].
  unfold save. destruct (fits _); [|done]. cbn. destruct (_ || _); [done|]. intros H Hm. refine (IH _ _ Hrest H _). intros k'. rewrite devices_insert. cbn. destruct (decide (k = k')) as [<-|]; [|done].
  rewrite (devices_load m0 k o s); [|apply Hrows; by left|done]. by eapply accountDevices_kept.
Qed.

Lemma Account_kept m e generation observedAt samples m' deltas : Account m e generation observedAt samples = Ok (m', deltas) -> forall k, Forall2 kept (devices m k) (devices m' k).
Proof.
  unfold WireguardDevices.Account. destruct (_ || _) eqn:Eb; [done|]. rewrite !orb_false_iff, Z.leb_gt in Eb. destruct Eb as [[_ Ht] _]. destruct (clients m) as [rows|] eqn:Hc; [|done]. cbn [rbind]. intros H. eapply (accountOwners_kept m); [done| |exact H|intros k; apply Forall2_kept_refl].
  intros k o Hin. apply clients_Ok in Hc as [_ Hrows]. by apply Hrows in Hin as [? _].
Qed.

(** ** Histories *)
Lemma apply_good m ev : event_ok ev -> good m -> good (apply m ev).
Proof.
  intros Hok Hg. destruct ev as [r policy id k now|e generation observedAt samples|k account|k account|k]; cbn [apply].
  - by apply Mutate_good.
  - destruct (Account _ _ _ _ _) as [[m' deltas]|] eqn:Ea; [|done]. apply (kept_good m); [done|]. intros k. right. by eapply Account_kept.
  - apply (kept_good m); [done|]. intros k'. right. unfold devices. destruct (decide (k = k')) as [<-|Hne]; [rewrite lookup_alter_eq; destruct (m !! k); apply Forall2_kept_refl|rewrite lookup_alter_ne by done; apply Forall2_kept_refl].
  - destruct (m !! k); [done|]. apply (kept_good m); [done|]. intros k'. rewrite devices_insert. destruct (decide _); [by left|right; apply Forall2_kept_refl].
  - apply (kept_good m); [done|]. intros k'. unfold devices. destruct (decide (k = k')) as [<-|Hne]; [rewrite lookup_delete_eq; by left|rewrite lookup_delete_ne by done; right; apply Forall2_kept_refl].
Qed.

Lemma empty_good : good ∅.
Proof. assert (He : forall k, devices ∅ k = []) by (intros k; unfold devices; by rewrite lookup_empty). constructor; intros; rewrite ?He in *; try done. by apply elem_of_nil in H. Qed.

Lemma run_good m events : Forall event_ok events -> good m -> good (run m events).
Proof. unfold run. revert m. induction events as [|ev events IH]; intros m; cbn [foldl]; [done|]. intros [Hev Hevs]%Forall_cons Hg. apply IH; [done|by apply apply_good]. Qed.

(** ** Peers *)
Definition served (policy : Policy) (now : Z) (kv : Z * owner) : list Record_ :=
  match load (oConfig kv.2) with
  | Ok s => List.filter (fun d => (dEndpointID d =? plEndpointID policy) && AvailableRecord s d (oAccount kv.2) now) (sDevices s)
  | Err _ => []
  end.

Lemma peersOf_served policy s account now borrowed l peers peers' : peersOf policy s account now borrowed l peers = Ok peers' ->
  peers' = peers ++ List.filter (fun d => (dEndpointID d =? plEndpointID policy) && AvailableRecord s d account now) l
  /\ Forall (fun d => peerAllowed policy d = true) (List.filter (fun d => (dEndpointID d =? plEndpointID policy) && AvailableRecord s d account now) l).
Proof.
  revert peers. induction l as [|d l IH]; intros peers; cbn [peersOf List.filter]; [intros [= <-]; by rewrite app_nil_r|].
  destruct (dEndpointID d =? plEndpointID policy), (AvailableRecord s d account now); cbn [negb orb andb]; try apply IH. destruct (peerAllowed policy d) eqn:Ep; [|done]. cbn [negb]. destruct (borrowed d); [|done]. cbn [negb]. cbv zeta. destruct (4096 <? _); [done|].
  intros [-> HF]%IH. rewrite <- app_assoc. split; [done|by constructor].
Qed.

Lemma peersOfAll_served policy now borrowed rows peers peers' : peersOfAll keyLength policy now borrowed rows peers = Ok peers' ->
  peers' = peers ++ (rows ≫= served policy now) /\ Forall (fun d => peerAllowed policy d = true) (rows ≫= served policy now).
Proof.
  revert peers. induction rows as [|[k o] rows IH]; intros peers; cbn [peersOfAll]; [intros [= <-]; by rewrite app_nil_r|]. rewrite bind_cons. unfold served at 1 3. cbn [snd].
  destruct (load (oConfig o)) as [s|]; [|apply IH]. destruct (peersOf _ _ _ _ _ _ _) as [peers1|] eqn:E; [|done]. cbn [rbind]. apply peersOf_served in E as [-> H1]. intros [-> H2]%IH. rewrite <- app_assoc. split; [done|by apply Forall_app].
Qed.

(** Devices that are kept apart by a function are listed once each. *)
Lemma NoDup_kept {B} (f : Record_ -> bool) (g : Record_ -> B) l : (forall i j d d', l !! i = Some d -> l !! j = Some d' -> f d = true -> f d' = true -> g d = g d' -> i = j) -> NoDup (g <$> List.filter f l).
Proof.
  induction l as [|d l IH]; intros Hi; [constructor|]. assert (HN : NoDup (g <$> List.filter f l)) by (apply IH; intros i j d1 d2 H1 H2 F1 F2 G; by specialize (Hi (S i) (S j) d1 d2 H1 H2 F1 F2 G) as [= ->]).
  cbn [List.filter]. destruct (f d) eqn:Ef; [|done]. cbn. constructor; [|done]. intros (d' & E & [Hin Hf]%elem_of_bfilter)%list_elem_of_fmap. apply list_elem_of_lookup in Hin as [j Hj]. by specialize (Hi O (S j) d d' eq_refl Hj Ef Hf E).
Qed.

Lemma fmap_bind_served {B} (g : Record_ -> B) (f : Z * owner -> list Record_) rows : g <$> (rows ≫= f) = rows ≫= (fun kv => g <$> f kv).
Proof. induction rows as [|kv rows IH]; [done|]. by rewrite !bind_cons, fmap_app, IH. Qed.

Lemma served_spec policy now m rows kv i d : good m -> clients m = Ok rows -> kv ∈ rows -> devices m kv.1 !! i = Some d -> d ∈ served policy now kv -> dEndpointID d = plEndpointID policy /\ reserved (dEndpointID d) d = true.
Proof.
  intros Hg Hc Hin Hi Hd. unfold served in Hd. destruct (load (oConfig kv.2)) as [s|]; [|by apply elem_of_nil in Hd]. apply elem_of_bfilter in Hd as [_ [He%Z.eqb_eq Hav]%andb_true_iff]. split; [done|]. unfold reserved. rewrite Z.eqb_refl. cbn [andb]. apply negb_true_iff, Z.ltb_ge.
  destruct (Z.lt_ge_cases 0 (dReleasedAt d)) as [Hr|]; [|done]. exfalso. refine (good_released m Hg kv.1 d _ Hr _); [by eapply list_elem_of_lookup_2|]. unfold AvailableRecord in Hav. destruct (granted s _); [|done]. rewrite !andb_true_iff, !Z.eqb_eq in Hav. naive_solver.
Qed.

Lemma RuntimePeers_distinct m policy now borrowed peers : good m -> RuntimePeers m policy now borrowed = Ok peers -> NoDup (dAddress <$> peers).
Proof.
  intros Hg. unfold WireguardDevices.RuntimePeers. destruct (negb _); [intros [= <-]; constructor|]. destruct (clients m) as [rows|] eqn:Hc; [|done]. cbn [rbind]. intros [-> Hall]%peersOfAll_served. cbn [app].
  destruct (clients_Ok _ _ _ Hc) as [Hkeys Hrows]. apply (NoDup_fmap_1 (fun address => pfAddr <$> ParsePrefix address)). rewrite <- list_fmap_compose. change (_ ∘ dAddress) with deviceAddr. rewrite fmap_bind_served.
  (* a served device: where it is, and that it keeps its address *)
  assert (Hat : forall kv d, kv ∈ rows -> d ∈ served policy now kv -> exists a i, deviceAddr d = Some a /\ devices m kv.1 !! i = Some d).
  { intros [k o] d Hin Hd. assert (Hp : peerAllowed policy d = true). { rewrite Forall_forall in Hall. apply Hall, list_elem_of_bind. by exists (k, o). }
    unfold peerAllowed in Hp. unfold deviceAddr. destruct (ParsePrefix (dAddress d)) as [p|]; [|done]. unfold served in Hd. cbn [fst snd] in *. destruct (load (oConfig o)) as [s|] eqn:El; [|by apply elem_of_nil in Hd].
    apply elem_of_bfilter in Hd as [[i Hi]%list_elem_of_lookup _]. exists (pfAddr p), i. split; [done|]. apply Hrows in Hin as [Hk _]. by rewrite (devices_load m k o s). }
  apply NoDup_bind; [| |by eapply NoDup_fmap_1].
  - intros [k1 o1] [k2 o2] y Hin1 Hin2 (d1 & E1 & Hd1)%list_elem_of_fmap (d2 & E2 & Hd2)%list_elem_of_fmap. destruct (Hat _ _ Hin1 Hd1) as (a1 & i1 & Ha1 & Hi1), (Hat _ _ Hin2 Hd2) as (a2 & i2 & Ha2 & Hi2).
    destruct (served_spec _ _ _ _ _ _ _ Hg Hc Hin1 Hi1 Hd1) as [He1 Hr1], (served_spec _ _ _ _ _ _ _ Hg Hc Hin2 Hi2 Hd2) as [He2 Hr2]. cbn [fst] in *.
    destruct (good_exclusive m Hg k1 i1 d1 k2 i2 d2 a1) as [-> _]; try done; [by rewrite He1, <- He2|congruence|]. apply Hrows in Hin1 as [H1 _], Hin2 as [H2 _]. congruence.
  - intros kv Hin. unfold served. destruct kv as [k o]. cbn [snd]. destruct (load (oConfig o)) as [s|] eqn:El; [|constructor]. apply NoDup_kept. intros i j d1 d2 H1 H2 F1 F2 E.
    assert (Hs : forall d i, sDevices s !! i = Some d -> (dEndpointID d =? plEndpointID policy) && AvailableRecord s d (oAccount o) now = true -> d ∈ served policy now (k, o)).
    { intros d i0 Hi0 F. unfold served. cbn [snd]. rewrite El. apply elem_of_bfilter. split; [by eapply list_elem_of_lookup_2|done]. }
    pose proof (proj1 (Hrows _ _) Hin) as [Hk _]. rewrite <- (devices_load m k o s Hk El) in H1, H2, Hs. destruct (Hat _ _ Hin (Hs _ _ H1 F1)) as (a1 & _ & Ha1 & _).
    destruct (served_spec _ _ _ _ _ _ _ Hg Hc Hin H1 (Hs _ _ H1 F1)) as [He1 Hr1], (served_spec _ _ _ _ _ _ _ Hg Hc Hin H2 (Hs _ _ H2 F2)) as [He2 Hr2].
    destruct (good_exclusive m Hg k i d1 k j d2 a1) as [_ ->]; try done; [by rewrite He1, <- He2|congruence].
Qed.

(** C18: Devices never share an address.  After every history of requests, accountings, changes
    of accounts and comings and goings of clients, two devices that keep the same address of
    the same endpoint are one device: an address comes free only when its device was deleted
    and the server no longer had the peer.  So the peers that a server is configured with
    have pairwise distinct addresses, whatever the policy and the time.  A client has at most
    a hundred devices that are not deleted on an endpoint, and a creation request that is
    repeated never makes a second device. *)
Theorem devices_never_share_address events : Forall event_ok events -> let m := run ∅ events in
  (forall k i d k' i' d' a, devices m k !! i = Some d -> devices m k' !! i' = Some d' -> dEndpointID d = dEndpointID d' -> dReleasedAt d <= 0 -> dReleasedAt d' <= 0 -> deviceAddr d = Some a -> deviceAddr d' = Some a -> k = k' /\ i = i') /\
  (forall policy now borrowed peers, RuntimePeers m policy now borrowed = Ok peers -> NoDup (dAddress <$> peers)) /\
  (forall k e, Z.of_nat (length (List.filter (live e) (devices m k))) <= 100) /\
  (forall k i d i' d', devices m k !! i = Some d -> devices m k !! i' = Some d' -> dEndpointID d = dEndpointID d' -> dCreateRequest d = dCreateRequest d' -> i = i').
Proof.
  intros Hev m. assert (Hg : good m) by (apply run_good; [done|apply empty_good]). split_and!.
  - intros k i d k' i' d' a H H' He Hr Hr' Ha Ha'. apply (good_exclusive m Hg k i d k' i' d' a); try done; unfold reserved; rewrite ?He, Z.eqb_refl; cbn [andb]; by apply negb_true_iff, Z.ltb_ge.
  - intros policy now borrowed peers. by apply RuntimePeers_distinct.
  - apply (good_limit m Hg).
  - apply (good_requests m Hg).
Qed.
End Histories.

Module Demo.
Import WireguardProperties.Demo.
Definition hash (s : string) : string := "h" +:+ s.
Definition fits (s : State) : bool := true.

Definition request (client : Z) (operation device key : string) : Request := mkRequest client 7 device operation key "phone" 0 0.
Definition first_id : string := "00112233445566778899aabbccddeeff".
Definition second_id : string := "ffeeddccbbaa99887766554433221100".
Definition third_id : string := "0123456789abcdef0123456789abcdef".
Definition change (r : Request) (id : string) (now : Z) : event := Change r (Some (policy 29)) (Some id) (Some (mkKeys id "private" "shared")) now.

(** Two clients get a device each; the first deletes its own and makes another, which gets a
    new address until the server no longer has the peer. *)
Definition events : list event :=
  [Join_ 1 account; Join_ 2 account; change (request 1 "grant" "" "") "" 100; change (request 2 "grant" "" "") "" 100;
   change (request 1 "create" "" "first-request-key") first_id 101; change (request 1 "create" "" "first-request-key") third_id 102;
   change (request 2 "create" "" "second-request-key") second_id 103; change (request 1 "delete" first_id "") "" 104;
   change (request 1 "create" "" "third-request-key") third_id 105; Count 7 "core" 106 ∅].

Definition reached : gmap Z owner := run keyLength hash fits configSize ∅ events.

Lemma devices_never_share_address_witness : (forall now borrowed peers, RuntimePeers keyLength configSize reached (policy 29) now borrowed = Ok peers -> NoDup (dAddress <$> peers)) /\
  ((fun d => (dAddress d, dReleasedAt d)) <$> devices reached 1) = [("10.0.0.4/32", 106); ("10.0.0.6/32", 0)] /\
  match RuntimePeers keyLength configSize reached (policy 29) 107 (fun _ => true) with Ok l => dAddress <$> l = ["10.0.0.6/32"; "10.0.0.5/32"] | Err _ => False end.
Proof.
  split; [|split; vm_compute; reflexivity]. intros now borrowed peers.
  refine (proj1 (proj2 (devices_never_share_address keyLength hash fits configSize events _)) (policy 29) now borrowed peers). repeat constructor.
Defined.
End Demo.
