(* ===== verification/WireguardTraffic.v ===== *)
(** * Traffic of WireGuard devices
    The accounting of snapshots counts the traffic of a device once, however often the
    counters are read. *)

From S2P Require Import Prelude GoStrings VersionPolicy NetAddr PaidOrders ClientAccess TrafficStats WireguardDevices WireguardProperties WireguardHistories.

Open Scope string_scope.
Open Scope list_scope.
Open Scope Z_scope.

(** ** One device *)
(** What was counted of the present source of a device. *)
Definition counted (f : Observation -> Z) (generation : string) (d : Record_) : Z := if sameSource generation d then f (dObservation d) else 0.

Definition counter (a : Z) : Prop := 0 <= a <= int64_max.

Lemma addCounter_min a b : counter a -> 0 <= b -> addCounter a b = Z.min int64_max (a + b).
Proof. unfold counter, addCounter. intros Ha Hb. destruct (Z.ltb_spec a 0), (Z.ltb_spec b 0); cbn [orb]; try lia. destruct (Z.ltb_spec (int64_max - a) b); lia. Qed.

Lemma counterDelta_sub a b : 0 <= b <= a -> counterDelta a b = a - b.
Proof. unfold counterDelta. intros H. destruct (Z.ltb_spec a 0), (Z.ltb_spec b 0); cbn [orb]; try lia. destruct (Z.ltb_spec a b); lia. Qed.

(** The fields that accounting never touches. *)
Record same (d d' : Record_) : Prop := {
  same_id : dID d' = dID d;
  same_endpoint : dEndpointID d' = dEndpointID d;
  same_address : dAddress d' = dAddress d;
  same_key : dPublicKey d' = dPublicKey d;
  same_revision : dRevision d' = dRevision d
}.

Lemma same_refl d : same d d.
Proof. by constructor. Qed.

Lemma accountRecord_same generation t sample d d' uv : accountRecord generation t sample d = Ok (d', uv) -> same d d'.
Proof. unfold accountRecord. cbv zeta. destruct sample as [s|]; [destruct (_ || _); [done|]|]; by intros [= <- _]. Qed.

(** The counter of a source after a sample. *)
Definition advanced (f : Observation -> Z) (before : Z) (sample : option Observation) : Z := match sample with Some s => f s | None => before end.

Lemma accountRecord_step generation t sample d d' uv : accountRecord generation t sample d = Ok (d', uv) ->
  sameSource generation d' = true /\
  (let before := counted obReceived generation d in let after := advanced obReceived before sample in
   counted obReceived generation d' = after /\ (counter (dUp d) -> 0 <= before <= after -> dUp d' = Z.min int64_max (dUp d + (after - before)))) /\
  (let before := counted obSent generation d in let after := advanced obSent before sample in
   counted obSent generation d' = after /\ (counter (dDown d) -> 0 <= before <= after -> dDown d' = Z.min int64_max (dDown d + (after - before)))).
Proof.
  unfold accountRecord. cbv zeta. intros H.
  assert (Hs : sameSource generation d' = true). { unfold sameSource. destruct sample as [s|]; [destruct (_ || _); [done|]|]; injection H as <- _; cbn; by rewrite !String.eqb_refl. }
  assert (Hd : forall f, counted f generation d' = f (dObservation d')) by (intros f; unfold counted; by rewrite Hs). split; [done|]. rewrite !Hd. unfold counted.
  destruct sample as [s|]; [destruct (_ || _); [done|]|]; injection H as <- _; cbn [dObservation dUp dDown with_observation obReceived obSent advanced].
  - split; (split; [done|]); intros Hc Hb; destruct (sameSource generation d); cbn [emptyObservation obReceived obSent] in *; by rewrite counterDelta_sub, addCounter_min by (done || lia).
  - unfold counter. split; (split; [by destruct (sameSource generation d)|]); intros Hc Hb; lia.
Qed.

(** ** One client *)
Lemma accountDevices_at e generation t samples l up down l' up' down' i d : accountDevices e generation t samples l up down = Ok (l', up', down') -> l !! i = Some d ->
  exists d', l' !! i = Some d' /\ if dEndpointID d =? e then exists uv, accountRecord generation t (samples !! dPublicKey d) d = Ok (d', uv) else d' = d.
Proof.
  revert up down l' i. induction l as [|d0 l IH]; intros up down l' i; cbn [accountDevices]; [done|]. destruct (dEndpointID d0 =? e) eqn:Ee; cbn [negb].
  - destruct (accountRecord _ _ _ d0) as [[d0' uv]|] eqn:Er; [|done]. cbn. destruct (accountDevices _ _ _ _ l _ _) as [[[l0 u] v]|] eqn:E; [|done]. cbn. intros [= <- <- <-]. destruct i as [|i]; [|by apply (IH _ _ _ i E)].
    intros [= <-]. exists d0'. rewrite Ee. split; [done|by exists uv].
  - destruct (accountDevices _ _ _ _ l up down) as [[[l0 u] v]|] eqn:E; [|done]. cbn. intros [= <- <- <-]. destruct i as [|i]; [|by apply (IH _ _ _ i E)]. intros [= <-]. exists d0. by rewrite Ee.
Qed.

Lemma accountDevices_same e generation t samples l up down l' up' down' : accountDevices e generation t samples l up down = Ok (l', up', down') -> Forall2 same l l'.
Proof.
  revert up down l'. induction l as [|d l IH]; intros up down l'; cbn [accountDevices]; [intros [= <- _ _]; constructor|]. destruct (negb _).
  - destruct (accountDevices _ _ _ _ l up down) as [[[l0 u] v]|] eqn:E; [|done]. cbn. intros [= <- <- <-]. constructor; [apply same_refl|by eapply IH].
  - destruct (accountRecord _ _ _ d) as [[d' uv]|] eqn:Er; [|done]. cbn. destruct (accountDevices _ _ _ _ l _ _) as [[[l0 u] v]|] eqn:E; [|done]. cbn. intros [= <- <- <-]. constructor; [by eapply accountRecord_same|by eapply IH].
Qed.

Section Traffic.
Context (keyLength : string -> option Z) (fits : State -> bool) (configSize : config -> Z).

Abbreviation load := (load keyLength).
Abbreviation clients := (clients configSize).
Abbreviation Account := (Account keyLength fits configSize).

(** A state stays readable. *)
Lemma load_same s l : load (Field s) = Ok s -> Forall2 same (sDevices s) l -> load (Field (set_devices l s)) = Ok (set_devices l s).
Proof.
  intros Hl HF. assert (Hid : dID <$> l = dID <$> sDevices s) by (clear Hl; induction HF as [|d d' k k' Hd _ IH]; [done|]; cbn; rewrite (same_id _ _ Hd); by f_equal).
  assert (Hok : forallb (device_ok keyLength) l = forallb (device_ok keyLength) (sDevices s)).
  { clear Hl Hid. induction HF as [|d d' k k' Hd _ IH]; [done|]. cbn [forallb]. rewrite IH. f_equal. unfold device_ok. destruct Hd as [-> -> -> -> ->]. done. }
  cbn [WireguardDevices.load] in *. cbn [set_devices sVersion sGrants sDevices]. rewrite Hid, Hok, <- (Forall2_length _ _ _ HF). by destruct (_ && _).
Qed.

Lemma load_rest c s : load c = Ok s -> (c = NoField /\ sDevices s = []) \/ c = Field s.
Proof. destruct c as [| | |s']; try done; [intros [= <-]; by left|]. intros H. apply load_Field in H as [-> _]. by right. Qed.

Lemma accountOwners_other e generation t samples rows m deltas m' deltas' k : accountOwners keyLength fits e generation t samples rows m deltas = Ok (m', deltas') -> k ∉ rows.*1 -> m' !! k = m !! k.
Proof.
  revert m deltas. induction rows as [|[k0 o] rows IH]; intros m deltas; cbn [accountOwners]; [by intros [= <- _]|]. rewrite fmap_cons, not_elem_of_cons. cbn [fst].
  destruct (load (oConfig o)) as [s|]; [|intros H [_ Hk]; by apply (IH _ _ H)]. destruct (accountDevices _ _ _ _ _ 0 0) as [[[l u] v]|]; [|done]. cbn. destruct (decide _); [intros H [_ Hk]; by apply (IH _ _ H)|].
  unfold save. destruct (fits _); [|done]. cbn. destruct (_ || _); [done|]. intros H [Hne Hk]. rewrite (IH _ _ H Hk). by apply lookup_insert_ne.
Qed.

Lemma accountOwners_owner e generation t samples rows m deltas m' deltas' k o s : NoDup rows.*1 -> (k, o) ∈ rows -> load (oConfig o) = Ok s -> oConfig o = Field s -> m !! k = Some o ->
  accountOwners keyLength fits e generation t samples rows m deltas = Ok (m', deltas') ->
  exists o' s' up down, m' !! k = Some o' /\ load (oConfig o') = Ok s' /\ accountDevices e generation t samples (sDevices s) 0 0 = Ok (sDevices s', up, down).
Proof.
  intros Hnd Hin Hl Hf. revert m deltas. induction rows as [|[k0 o0] rows IH]; intros m deltas Hk; [by apply elem_of_nil in Hin|]. cbn [accountOwners]. cbn in Hnd. apply NoDup_cons in Hnd as [Hnot Hnd]. apply elem_of_cons in Hin as [[= <- <-]|Hin].
  - rewrite Hl. destruct (accountDevices e generation t samples (sDevices s) 0 0) as [[[l u] v]|] eqn:Ea; [|done]. cbn.
    destruct (decide _) as [->|]; [intros H; rewrite <- (accountOwners_other _ _ _ _ _ _ _ _ _ k H Hnot) in Hk; by exists o, s, u, v|].
    unfold save. destruct (fits _); [|done]. cbn. destruct (_ || _); [done|]. intros H. exists (mkOwner (Field (set_devices l s)) (oAccount o)), (set_devices l s), u, v. split_and!; [|apply load_same; [by rewrite <- Hf|by eapply accountDevices_same]|done].
    rewrite (accountOwners_other _ _ _ _ _ _ _ _ _ k H Hnot). by apply lookup_insert_eq.
  - assert (Hne : k0 <> k) by (intros ->; apply Hnot, list_elem_of_fmap; by exists (k, o)). specialize (IH Hnd Hin). destruct (load (oConfig o0)) as [s0|]; [|by apply IH]. destruct (accountDevices _ _ _ _ (sDevices s0) 0 0) as [[[l u] v]|]; [|done]. cbn. destruct (decide _); [by apply IH|].
    unfold save. destruct (fits _); [|done]. cbn. destruct (_ || _); [done|]. apply IH. by rewrite lookup_insert_ne.
Qed.

(** The devices of a client whose state is readable are accounted, all of them. *)
Lemma Account_owner m e generation t samples m' deltas k o s : Account m e generation t samples = Ok (m', deltas) -> m !! k = Some o -> load (oConfig o) = Ok s ->
  exists o' s' up down, m' !! k = Some o' /\ load (oConfig o') = Ok s' /\ accountDevices e generation t samples (sDevices s) 0 0 = Ok (sDevices s', up, down).
Proof.
  unfold WireguardDevices.Account. destruct (_ || _); [done|]. destruct (clients m) as [rows|] eqn:Hc; [|done]. cbn [rbind]. intros H Hk Hl. apply clients_Ok in Hc as [Hnd Hrows].
  destruct (load_rest _ _ Hl) as [[Hn Hs]|Hf].
  - exists o, s, 0, 0. rewrite Hs. split_and!; [|done|done]. rewrite (accountOwners_other _ _ _ _ _ _ _ _ _ k H); [done|]. intros ([k' o'] & -> & Hin)%list_elem_of_fmap. apply Hrows in Hin as [Hk' Hf]. cbn [fst] in Hk. rewrite Hk in Hk'. injection Hk' as <-. by rewrite Hn in Hf.
  - eapply (accountOwners_owner _ _ _ _ rows m); try done. apply Hrows. by rewrite Hf.
Qed.

(** ** Snapshots of an endpoint *)
Fixpoint countAll (m : gmap Z owner) (e : Z) (generation : string) (snapshots : list (Z * gmap string Observation)) : result deviceError (gmap Z owner) :=
  match snapshots with
  | [] => Ok m
  | (t, samples) :: snapshots' => let? (m', _) := Account m e generation t samples in countAll m' e generation snapshots'
  end.

(** The values of a counter, of which the first was counted already, never go back. *)
Fixpoint grows (before : Z) (l : list Z) : Prop := match l with [] => True | x :: l' => before <= x /\ grows x l' end.

Definition readings (f : Observation -> Z) (key : string) (snapshots : list (Z * gmap string Observation)) : list Z := omap (fun snap => f <$> snap.2 !! key) snapshots.

Definition latest (before : Z) (l : list Z) : Z := foldl (fun _ x => x) before l.

Lemma grows_latest before l : grows before l -> before <= latest before l.
Proof. revert before. induction l as [|x l IH]; intros b; [cbn; lia|]. intros [H1 H2%IH]. unfold latest in *. cbn [foldl]. lia. Qed.

(** The sum over one snapshot and the rest is the sum over all. *)
Lemma counted_sum a up c (f : Observation -> Z) sample rest : counter a -> 0 <= c -> grows c (omap id [f <$> sample] ++ rest) -> up = Z.min int64_max (a + (advanced f c sample - c)) ->
  c <= advanced f c sample /\ counter up /\ grows (advanced f c sample) rest /\ latest c (omap id [f <$> sample] ++ rest) = latest (advanced f c sample) rest /\
  Z.min int64_max (up + (latest (advanced f c sample) rest - advanced f c sample)) = Z.min int64_max (a + (latest (advanced f c sample) rest - c)).
Proof.
  unfold counter. destruct sample as [s|]; cbn; intros Ha Hc Hg ->; [destruct Hg as [H1 Hg]|]; pose proof (grows_latest _ _ Hg); split_and!; try done; unfold latest in *; lia.
Qed.

(** C21: The traffic of a device is counted once.  Whatever the number of snapshots of a running
    core and their times, with the peer in them or not, and the same snapshot again or not:
    after they are accounted, the counters of a device have grown by exactly what the peer's
    counters grew since they were last counted for this core and key, up to the largest
    value; after a restart or a change of keys that is the last reading itself. *)
Theorem device_traffic_counted_once m e generation snapshots m' k o s i d :
  countAll m e generation snapshots = Ok m' -> m !! k = Some o -> load (oConfig o) = Ok s -> sDevices s !! i = Some d -> dEndpointID d = e -> counter (dUp d) -> counter (dDown d) ->
  0 <= counted obReceived generation d -> 0 <= counted obSent generation d ->
  grows (counted obReceived generation d) (readings obReceived (dPublicKey d) snapshots) -> grows (counted obSent generation d) (readings obSent (dPublicKey d) snapshots) ->
  exists d', devices m' k !! i = Some d' /\ dID d' = dID d /\
    dUp d' = Z.min int64_max (dUp d + (latest (counted obReceived generation d) (readings obReceived (dPublicKey d) snapshots) - counted obReceived generation d)) /\
    dDown d' = Z.min int64_max (dDown d + (latest (counted obSent generation d) (readings obSent (dPublicKey d) snapshots) - counted obSent generation d)).
Proof.
  revert m o s d. induction snapshots as [|[t samples] snapshots IH]; intros m o s d; cbn [countAll].
  - intros [= ->] Hk Hl Hi He Hu Hd _ _ _ _. exists d. rewrite (devices_load keyLength m' k o s) by done. unfold counter, latest in *. cbn. split_and!; [done|done|lia|lia].
  - destruct (Account m e generation t samples) as [[m1 deltas]|] eqn:Ea; [|done]. cbn [rbind]. intros H Hk Hl Hi He Hu Hd Hr0 Hs0 Hr Hs.
    destruct (Account_owner _ _ _ _ _ _ _ _ _ _ Ea Hk Hl) as (o1 & s1 & up & down & Hk1 & Hl1 & Hdev). destruct (accountDevices_at _ _ _ _ _ _ _ _ _ _ _ _ Hdev Hi) as (d1 & Hi1 & Hrec). rewrite (proj2 (Z.eqb_eq _ _) He) in Hrec. destruct Hrec as [uv Hrec].
    pose proof (accountRecord_same _ _ _ _ _ _ Hrec) as [Hid Hend _ Hkey _]. destruct (accountRecord_step _ _ _ _ _ _ Hrec) as (_ & [Hcr Hup] & [Hcs Hdown]).
    assert (Hcons : forall f, readings f (dPublicKey d) ((t, samples) :: snapshots) = omap id [f <$> samples !! dPublicKey d] ++ readings f (dPublicKey d) snapshots) by (intros f; unfold readings; cbn; by destruct (samples !! dPublicKey d)).
    rewrite !Hcons in *. 
    destruct (counted_sum _ _ _ _ _ _ Hu Hr0 Hr eq_refl) as (Hr1 & Hu1 & Hr2 & Hr3 & Hr4), (counted_sum _ _ _ _ _ _ Hd Hs0 Hs eq_refl) as (Hs1 & Hd1 & Hs2 & Hs3 & Hs4).
    rewrite <- Hup in Hu1, Hr4 by done. rewrite <- Hdown in Hd1, Hs4 by done. rewrite <- Hcr in *. rewrite <- Hcs in *. rewrite <- Hkey in *.
    destruct (IH m1 o1 s1 d1) as (d' & Hd' & Hid' & E1 & E2); try done; [congruence|lia|lia|]. exists d'. rewrite Hr3, Hs3, <- Hr4, <- Hs4. by rewrite Hid', Hid.
Qed.
End Traffic.

Module Demo.
Import WireguardProperties.Demo.
Definition fits (s : State) : bool := true.
Definition sample (received sent : Z) : gmap string Observation := {[ "key" := mkObservation "" "" received sent 5 0 false ]}.

(** The counters are read, read again, missed and read a last time. *)
Definition snapshots : list (Z * gmap string Observation) := [(201, sample 10 20); (202, sample 10 20); (203, ∅); (204, sample 15 50)].

Definition phone : Record_ := device "00112233445566778899aabbccddeeff" "10.0.0.4/32" 0.
Definition start : gmap Z owner := {[ 1 := mkOwner (Field (mkState 1 [mkGrant 7 0] [phone])) account ]}.
Definition counted_table : gmap Z owner := match countAll keyLength fits configSize start 7 "core" snapshots with Ok m => m | Err _ => ∅ end.

Lemma device_traffic_counted_once_witness : exists d, devices counted_table 1 !! O = Some d /\ dUp d = 15 /\ dDown d = 50.
Proof.
  assert (E : countAll keyLength fits configSize start 7 "core" snapshots = Ok counted_table) by (vm_compute; reflexivity).
  assert (Hr : forall f, 0 <= counted f "core" phone) by (intros f; vm_compute; discriminate).
  assert (Hg : grows 0 [10; 10; 15] /\ grows 0 [20; 20; 50]) by (cbn; lia). destruct Hg as [Hg1 Hg2].
  assert (Hc : counter 0) by (split; discriminate).
  destruct (device_traffic_counted_once keyLength fits configSize start 7 "core" snapshots counted_table 1 (mkOwner (Field (mkState 1 [mkGrant 7 0] [phone])) account) (mkState 1 [mkGrant 7 0] [phone]) O phone
    E eq_refl eq_refl eq_refl eq_refl Hc Hc (Hr _) (Hr _) Hg1 Hg2) as (d & Hd & _ & Hu & Hv).
  exists d. split; [exact Hd|]. split; [rewrite Hu|rewrite Hv]; vm_compute; reflexivity.
Defined.
End Demo.
